(* ===== verification/_CoqProject ===== *)
-Q . S2P
Prelude.v
Text.v
Chars.v
Collections.v
Codec.v
Core.v
Ir.v
Hash.v
Capsule.v
CapsuleLayout.v
IrCodec.v
Descriptors.v
Generative.v
NativeTensor.v
NativeTokenizer.v
NativeProgram.v
Capability.v
WireFormat.v
WireTables.v
Artifact.v
Effects.v
Memory.v
Signals.v
Cognition.v
CognitionSafety.v
Reasoning.v
CognitionTheorems.v
Checkpoint.v
CheckpointTheorems.v
Conversation.v
ActionFabric.v
ActionFabricStep.v
ActionFabricSafety.v
ActionFabricTheorems.v
ActionFabricProperties.v
ActionValues.v
Wire.v
WireTheorems.v
PcSession.v
PcSessionTheorems.v
PcHello.v
PcAgent.v
PcAgentTheorems.v
PcAdapter.v
PcAdapterTheorems.v
TextTokenizer.v
SpmTokenizer.v
SpmTheorems.v
Gpt2.v
Gpt2Theorems.v
ActionCheckpoint.v
ActionCheckpointTheorems.v
Continuity.v
ContinuityTheorems.v
Float32.v
Tensor.v
TensorTheorems.v
Executor.v
Mobile.v
MobileTheorems.v
Scheduler.v
Generation.v
Generator.v
GeneratorTheorems.v
KvCache.v
AssistantActions.v
AssistantActionsTheorems.v
Gguf.v
GgufTheorems.v
GgufTranscode.v
GgufTranscodeTheorems.v
Lowering.v
LoweringTheorems.v
Backup.v
BackupTheorems.v
