(* ===== verification/Prelude.v ===== *)
(** * NTD97: a verification development for the Rust workspace under src/crates

    NTD97 is an on-device assistant runtime.  A capsule (NCC97 file) carries a
    model: graphs, tensors, a tokenizer.  The runtime keeps a cognitive state, a
    memory and an action fabric, saves them as checkpoints (SIK97, TAF97) and
    can have actions run by a paired PC over an encrypted channel (PCF97).  On a
    phone the session is suspended and restored as a continuity bundle (MCS97),
    and the graphs are executed by tensor providers chosen by the state of the
    device.

    ** Files and the code they model

    Shared ground
    - Prelude      outcomes of Rust computations ([result]: Ok, Err, Panic),
                   machine integers with their checks, automation;
    - Text, Chars  strings as UTF-8 bytes, [trim] and blankness; the Unicode
                   tables of the standard library are a class;
    - Collections  BTreeMap and BTreeSet as [gmap] and [gset] read in key order;
    - Codec        byte cursors and decoders, [reads] and [parses];
    - WireFormat, WireTables   formats as a class ([WireFormat]: what a writer
                   emits, a reader accepts), tables in key order;
    - Effects      operations on a state that may fail ([op]).

    ntd-core (lib.rs): Core.  ntd-ir (lib.rs): Ir, with the validator.

    ntd-capsule
    - Hash (hash.rs), Capsule (lib.rs, binary.rs) and CapsuleLayout (the layout
      of a file and what the root hash binds), IrCodec (ir_codec.rs),
      Descriptors (descriptors.rs), Generative (generative.rs), NativeTensor and
      NativeProgram (native_tensor.rs, and load_native_generative_program of
      tokenizer.rs), NativeTokenizer (tokenizer.rs).

    ntd-runtime
    - Capability (capability.rs), ActionFabric (action_fabric.rs) with its
      abstract machine in ActionFabricStep, its proofs in ActionFabricSafety and
      ActionFabricTheorems, its properties in ActionFabricProperties;
    - Memory (memory.rs), Signals and Reasoning (reasoning.rs and the budget
      choice of lib.rs), Cognition (cognition.rs) with CognitionSafety and
      CognitionTheorems, Conversation (conversation.rs);
    - Checkpoint, CheckpointTheorems (checkpoint.rs), ActionValues,
      ActionCheckpoint, ActionCheckpointTheorems (action_checkpoint.rs);
    - TextTokenizer (the vocabulary tokenizer of tokenizer.rs), SpmTokenizer and
      SpmTheorems (the SentencePiece tokenizer of tokenizer.rs);
    - Gpt2 and Gpt2Theorems (gpt2.rs), Generation (sampling and the step of
      generation.rs), Generator and GeneratorTheorems (its loops, streaming and
      text), KvCache (its cache);
    - AssistantActions and AssistantActionsTheorems (assistant_actions.rs);
    - Float32 (the f32 of the language), Tensor and TensorTheorems (tensor.rs),
      Executor (executor.rs), Mobile and MobileTheorems (mobile.rs).

    ntd-assimilation
    - Gguf and GgufTheorems (mod.rs, reader.rs and storage.rs of gguf/),
      GgufTranscode and GgufTranscodeTheorems (transcode.rs), Lowering and
      LoweringTheorems (lower.rs, the sink of shards.rs).

    ntd-portability
    - Backup and BackupTheorems (asset.rs, crypto.rs, store.rs, backup.rs).

    ntd-mobile-shell
    - Continuity, ContinuityTheorems (continuity.rs), Scheduler (scheduler.rs).

    ntd-pc-fabric
    - Artifact (artifact.rs), Wire and WireTheorems (wire.rs), PcSession and
      PcSessionTheorems (crypto.rs), PcHello (the hello frames of connector.rs),
      PcAgent and PcAgentTheorems (DesktopAgent of agent.rs), PcAdapter and
      PcAdapterTheorems (adapter.rs).

    ** How the code is read

    A [&mut self] method is a function from the state to the new state and the
    outcome, so that what an operation has changed before it fails is visible.
    Integers are [Z] with the bounds and the checked, saturating or wrapping
    operations of their width; usize has 64 bits.  Floating-point numbers
    occur as bit patterns in the formats, and as the IEEE binary32 of the Standard
    Library in the kernels; exp, sin, cos and powf are a class ([Libm]).  The
    order in which a binary heap pops equal elements is left open ([SpmHeap]);
    categories of characters ([GeneralCategories]), the logarithm ([Logarithms]) and
    the texts of formatted errors ([LoweringMessages], [CapsuleErrorText]) are
    classes.  The interfaces between components are classes too: [TextTokenizer]
    with its law [Tokenizes] between the tokenizers and the generator,
    [GgufByteSource] with [ExactSource] between a file and its reader, and
    [TensorShardSink] between lowering and where its tensors go.  An index or slice
    out of range is [Panic], and so is a reservation of more than [isize::MAX]
    bytes where a number alone decides its size ([with_capacity]); memory that runs
    out is not modelled.  Traits are type classes whose methods return the new
    [self].  The code of third-party crates (signatures, key agreement, key derivation, the cipher, SHA-256 where it is
    not the crate's own) is a class, with its documented laws in a class of their
    own; a concrete instance shows that the laws can hold.

    ** What the theorems show

    - formats: what a writer produces its reader accepts and gives back
      ([..._round_trip]), and what a reader accepts is the image of a
      well-formed value, canonical up to what is named ([..._canonical],
      [..._decode_sound], [capsule_read_accepts]);
    - validators accept exactly the declarative invariant
      ([Graph_validate_sound_complete], [validate_fabric_state_spec]);
    - state: invariants by induction over reachable states
      ([fabric_reachable_restorable], [cognitive_reachable_valid],
      [memory_reachable_restores], [agent_reachable_inv]);
    - the action fabric refines an abstract plan machine
      ([execute_next_refines]) and acts only within its authority
      ([execute_next_authorized]);
    - the paired PC: the handshake opens a channel that delivers each message
      once and in order, the exchange is transparent ([paired_execute_remote]),
      a request runs once, artifacts arrive whole ([pull_artifact_completes]);
    - the mobile shell: a bundle restores what it was built from
      ([continuity_round_trip]), a restored session is consistent, a wake-up gets
      the right directive ([platform_directive_spec]);
    - tensors: kernels keep tensors well formed and panic only when the output
      they reserve is too large ([cpu_reference_typed]), conversion from f16 is
      exact, tiling does not change a product, freeing values early is not
      observable, execution panics only if its provider or resolver does
      ([execute_total]), the adaptive provider runs only what the device permits;
    - tokenizers: encoding ends, and its tokens spell the text
      ([vocabulary_encode_longest], [spm_encode_spells], [gpt2_encode_bpe]);
    - generation: the loop gives what sampling from the distributions gives, no
      more than asked and none after the end token ([generate_tokens_follow]),
      streaming shows the same tokens ([streaming_agrees]), an appended cache
      layer is what it was followed by what is new ([kv_append_atomic]);
    - the assistant's actions: a plan read from text is canonical and within the
      protocol ([parsed_plan_sound]), and an answer rests on committed actions
      ([verified_run_sound], [continued_run_failures]);
    - GGUF: what the reader accepts is sound ([parse_gguf_sound]), transcoding
      gives tensors of the right type and length ([transcode_sound]), and
      lowering gives a program that loads ([lowering_sound]), the same whether
      its tensors stay in memory or are stored ([streamed_lowering_agrees]);
    - backups give back what they were made of ([backup_round_trip]), and
      restoring is all or nothing ([restore_all_or_nothing]).

    Where the code does not do what it means to, a lemma shows the behaviour
    (for example [zero_pull_decodes], [unstored_artifact_forgotten],
    [idle_peer_never_ends], [partial_rollback_not_restorable],
    [external_completion_overruns], [large_token_ids_collide],
    [blank_ids_collide], and the reservations of [reservations_overflow],
    [window_table_panics] and [declared_length_panics]).

    ** Bounds and fuel

    Loops over data are structural.  Fuel occurs where the code loops until a
    condition holds: [chunks_loop] and [pull_loop] need one unit per byte of the
    artifact at most ([artifact_transfer], [pull_artifact_completes]); SHA-256
    padding needs 64; [encode_loop] needs one unit per byte of the text,
    [merge_loop] three and [walk_loop] one, [emit_piece] the length of its piece;
    [pretokenize_loop] and [bpe_loop] one per character and symbol;
    [window_loop] one per page, [tile_blocks] one per column, [normalize_f16] ten.  No theorem speaks of a loop that has run out of fuel
    except [idle_peer_never_ends], which says that it does not end.

    ** Not modelled

    The composition of the runtime in assistant.rs; avatar and media of the mobile
    shell; the forge, its packages and the activation of thin capsules; the thin
    capsule and the candidate of a lowered model, and the files behind a byte
    source and a shard store; sockets, processes and files; the JNI bridge;
    measurement (ntd-validation). *)
From stdpp Require Export base gmap sets list strings sorting.
From Stdlib Require Export ZArith Lia.
From Stdlib Require Strings.Byte.
From coqutil Require Export Byte.
From coqutil Require Export Word.LittleEndianList.

#[global] Open Scope Z_scope.
#[export] Set Default Goal Selector "!".

(** ** Outcomes of Rust computations

    A function returning [Result<A, E>] is modelled by a term of [result E A].
    [Panic] is the third outcome a Rust body has: an index or slice out of
    range, [copy_from_slice] on different lengths, [unreachable!].  Keeping it
    apart from [Err] makes "this function does not panic" a statement. *)
Inductive result (E A : Type) : Type :=
| Ok (a : A)
| Err (e : E)
| Panic.
Arguments Ok {E A} a.
Arguments Err {E A} e.
Arguments Panic {E A}.

Declare Scope ntd_scope.
Delimit Scope ntd_scope with ntd.
#[global] Open Scope ntd_scope.

(** [let? x := m in k] is Rust's [let x = m?; k] where the error types agree. *)
Notation "'let?' x ':=' m 'in' k" :=
  (match m with Ok x => k | Err e => Err e | Panic => Panic end)
  (at level 10, x name, m at level 100, k at level 200,
   format "'[v' 'let?'  x  ':='  m  'in' '/' k ']'") : ntd_scope.
Notation "'let?' ' p ':=' m 'in' k" :=
  (match m with Ok p => k | Err e => Err e | Panic => Panic end)
  (at level 10, p strict pattern, m at level 100, k at level 200) : ntd_scope.

(** [map_err f m] is [m.map_err(f)]. *)
Definition map_err {E E' A} (f : E → E') (m : result E A) : result E' A :=
  match m with Ok a => Ok a | Err e => Err (f e) | Panic => Panic end.

(** [ok_or o e] is [o.ok_or(e)]. *)
Definition ok_or {E A} (o : option A) (e : E) : result E A :=
  match o with Some a => Ok a | None => Err e end.

(** An access that Rust checks at run time and answers with a panic. *)
Definition or_panic {E A} (o : option A) : result E A :=
  match o with Some a => Ok a | None => Panic end.

(** [unwrap_or(d)]. *)
Definition ok_default {E A} (d : A) (r : result E A) : A := match r with Ok a => a | _ => d end.
Definition is_ok {E A} (r : result E A) : bool :=
  match r with Ok _ => true | _ => false end.

Definition no_panic {E A} (r : result E A) : Prop := r ≠ Panic.

(** A loop [for x in xs { body(x)? }] whose body only checks. *)
Fixpoint check_all {E A} (f : A → result E unit) (l : list A) : result E unit :=
  match l with
  | [] => Ok tt
  | x :: l' => let? _ := f x in check_all f l'
  end.

(** A loop [for x in xs { acc = body(acc, x)? }]. *)
Fixpoint fold_result {E A S} (f : S → A → result E S) (s : S) (l : list A)
  : result E S :=
  match l with
  | [] => Ok s
  | x :: l' => let? s' := f s x in fold_result f s' l'
  end.

(** A loop [for x in xs { out.push(body(x)?) }]. *)
Fixpoint map_result {E A B} (f : A → result E B) (l : list A) : result E (list B) :=
  match l with
  | [] => Ok []
  | x :: l' => let? y := f x in let? ys := map_result f l' in Ok (y :: ys)
  end.

(** ** Machine integers

    Unsigned integers are [Z] values kept in range by the predicates below;
    [usize] is the 64-bit one of the arm64 and x86_64 targets of the program. *)
Definition in_u8 (z : Z) : Prop := 0 ≤ z < 2 ^ 8.
Definition in_u16 (z : Z) : Prop := 0 ≤ z < 2 ^ 16.
Definition in_u32 (z : Z) : Prop := 0 ≤ z < 2 ^ 32.
Definition in_u64 (z : Z) : Prop := 0 ≤ z < 2 ^ 64.
Definition in_i32 (z : Z) : Prop := - 2 ^ 31 ≤ z < 2 ^ 31.
Definition in_usize (z : Z) : Prop := in_u64 z.

Lemma in_u32_nonneg z : in_u32 z → 0 ≤ z.
Proof. by intros []. Qed.

Definition checked_add_u64 (a b : Z) : option Z :=
  if a + b <? 2 ^ 64 then Some (a + b) else None.
Definition checked_mul_u64 (a b : Z) : option Z :=
  if a * b <? 2 ^ 64 then Some (a * b) else None.
Definition saturating_add_u64 (a b : Z) : Z := Z.min (a + b) (2 ^ 64 - 1).
Definition saturating_mul_u64 (a b : Z) : Z := Z.min (a * b) (2 ^ 64 - 1).
Definition saturating_add_u32 (a b : Z) : Z := Z.min (a + b) (2 ^ 32 - 1).

(** [u8::try_from], [u32::try_from] and [usize::try_from] (equally
    [u64::try_from]) on a non-negative value. *)
Definition try_u8 (z : Z) : option Z := if z <? 2 ^ 8 then Some z else None.
Definition try_u32 (z : Z) : option Z := if z <? 2 ^ 32 then Some z else None.
Definition try_u64 (z : Z) : option Z := if z <? 2 ^ 64 then Some z else None.
Definition try_usize (z : Z) : option Z := try_u64 z.

(** [Vec::with_capacity(n)] and [vec![x; n]] for elements of [width] bytes: a
    request for more than [isize::MAX] bytes panics, whatever memory there is. *)
Definition with_capacity {E} (width n : Z) : result E unit :=
  if width * n <? 2 ^ 63 then Ok tt else Panic.
#[global] Arguments with_capacity : simpl never.

Definition checked_add_usize := checked_add_u64.
Definition checked_mul_usize := checked_mul_u64.

(** ** Bytes and slices *)
Abbreviation bytes := (list byte).

Definition len {A} (l : list A) : Z := Z.of_nat (length l).

#[global] Instance byte_eq_dec : EqDecision byte := Byte.byte_eq_dec.

Definition zero_byte : byte := Byte.x00.
Definition byte_of_Z (z : Z) : byte := byte.of_Z z.
Definition Z_of_byte (b : byte) : Z := byte.unsigned b.

Definition bytes_eqb (a b : bytes) : bool := bool_decide (a = b).

(** [z.to_le_bytes()] at a width of [n] bytes, and the inverse. *)
Definition to_le (n : nat) (z : Z) : bytes := le_split n z.
Definition from_le (bs : bytes) : Z := le_combine bs.

#[global] Arguments to_le : simpl never.
#[global] Arguments from_le : simpl never.
#[global] Arguments len : simpl never.

(** Two's-complement reading of a 32-bit word, [i32::from_le_bytes]. *)
Definition to_signed32 (z : Z) : Z := if z <? 2 ^ 31 then z else z - 2 ^ 32.

(** [src.get(a..b)]: [None] out of range. *)
Definition get_range {A} (l : list A) (a b : Z) : option (list A) :=
  if (0 <=? a) && (a <=? b) && (b <=? len l)
  then Some (take (Z.to_nat (b - a)) (drop (Z.to_nat a) l)) else None.

(** [&src[a..b]]: a panic out of range. *)
Definition slice {E A} (l : list A) (a b : Z) : result E (list A) :=
  or_panic (get_range l a b).

(** [dst[at..at + src.len()].copy_from_slice(src)]. *)
Definition splice {E A} (dst : list A) (at_ : Z) (src : list A) : result E (list A) :=
  if (0 <=? at_) && (at_ + len src <=? len dst)
  then Ok (take (Z.to_nat at_) dst ++ src ++ drop (Z.to_nat at_ + length src) dst)
  else Panic.

(** [iter().any(|byte| *byte != 0)]. *)
Definition any_nonzero (bs : bytes) : bool :=
  existsb (λ b, negb (bool_decide (b = zero_byte))) bs.

Definition zeros (n : Z) : bytes := replicate (Z.to_nat n) zero_byte.
#[global] Arguments zeros : simpl never.

(** ** Lemmas on outcomes *)
Section result_lemmas.
Context {E A B : Type}.

Lemma ok_or_Ok (o : option A) (e : E) a : ok_or o e = Ok a ↔ o = Some a.
Proof. destruct o; simpl; naive_solver. Qed.

Lemma or_panic_Ok (o : option A) a : or_panic (E:=E) o = Ok a ↔ o = Some a.
Proof. destruct o; simpl; naive_solver. Qed.

Lemma ok_or_no_panic (o : option A) (e : E) : no_panic (ok_or o e).
Proof. by destruct o. Qed.

Lemma check_all_Ok (f : A → result E unit) l :
  check_all f l = Ok tt ↔ Forall (λ x, f x = Ok tt) l.
Proof.
  induction l as [|x l IH]; simpl; [by split|].
  rewrite Forall_cons, <- IH.
  destruct (f x) as [[]| |]; (split; [done|by intros [[=] ?]]) || by split; [|intros [_ ?]].
Qed.

Lemma with_capacity_fits width n : width * n < 2 ^ 63 → with_capacity (E:=E) width n = Ok tt.
Proof. intros Hn. unfold with_capacity. by destruct (Z.ltb_spec (width * n) (2 ^ 63)); [|lia]. Qed.
Lemma with_capacity_overflows width n : 2 ^ 63 ≤ width * n → with_capacity (E:=E) width n = Panic.
Proof. intros Hn. unfold with_capacity. by destruct (Z.ltb_spec (width * n) (2 ^ 63)); [lia|]. Qed.

Lemma check_all_no_panic (f : A → result E unit) l :
  (∀ x, x ∈ l → no_panic (f x)) → no_panic (check_all f l).
Proof.
  induction l as [|x l IH]; intros Hf; simpl; [done|].
  pose proof (Hf x (list_elem_of_here _ _)) as Hx.
  destruct (f x); [|done|done].
  apply IH. intros y Hy. apply Hf. by right.
Qed.

Lemma map_result_Ok (f : A → result E B) l ys :
  map_result f l = Ok ys ↔ Forall2 (λ x y, f x = Ok y) l ys.
Proof.
  revert ys. induction l as [|x l IH]; intros ys; simpl.
  - split; [by intros [= <-]|by intros ->%Forall2_nil_inv_l].
  - split.
    + destruct (f x) as [y| |] eqn:Hf; [|done..].
      destruct (map_result f l) as [zs| |] eqn:Hl; [|done..].
      intros [= <-]. constructor; [done|]. by apply IH.
    + intros (y & zs & Hy & Hzs%IH & ->)%Forall2_cons_inv_l.
      by rewrite Hy, Hzs.
Qed.

Lemma map_result_no_panic (f : A → result E B) l :
  (∀ x, x ∈ l → no_panic (f x)) → no_panic (map_result f l).
Proof.
  induction l as [|x l IH]; intros Hf; simpl; [done|].
  pose proof (Hf x (list_elem_of_here _ _)) as Hx. destruct (f x); [|done|done].
  assert (no_panic (map_result f l)) as Hl by (apply IH; intros y Hy; apply Hf; by right).
  by destruct (map_result f l).
Qed.

(** A loop whose body preserves [P] and does not panic where [P] holds. *)
Lemma fold_result_no_panic {S} (P : S → Prop) (f : S → A → result E S) s l :
  P s → (∀ s x, P s → x ∈ l → no_panic (f s x) ∧ ∀ s', f s x = Ok s' → P s') →
  no_panic (fold_result f s l).
Proof.
  revert s. induction l as [|x l IH]; intros s Hs Hf; simpl; [done|].
  destruct (Hf s x Hs (list_elem_of_here _ _)) as [Hx HP].
  destruct (f s x) as [s'| |] eqn:Hfx; [|done|done].
  apply IH; [by apply HP|]. intros s1 y Hs1 Hy. apply Hf; [done|by right].
Qed.

(** [P] is an invariant of a loop whose body preserves it. *)
Lemma fold_result_inv {S} (P : S → Prop) (f : S → A → result E S) s l s' :
  P s → (∀ s x s', P s → x ∈ l → f s x = Ok s' → P s') →
  fold_result f s l = Ok s' → P s'.
Proof.
  revert s. induction l as [|x l IH]; intros s Hs Hf; simpl; [by intros [= <-]|].
  destruct (f s x) as [s1| |] eqn:Hfx; [|done|done]. apply IH.
  - by apply (Hf s x); [|left|].
  - intros s2 y s3 Hs2 Hy. apply Hf; [done|by right].
Qed.

(** A loop one element longer. *)
Lemma fold_result_app {S} (f : S → A → result E S) s l k :
  fold_result f s (l ++ k) = let? s' := fold_result f s l in fold_result f s' k.
Proof.
  revert s. induction l as [|x l IH]; intros s; cbn; [done|]. destruct (f s x); [apply IH|done..].
Qed.
Lemma fold_result_snoc {S} (f : S → A → result E S) s l x :
  fold_result f s (l ++ [x]) = let? s' := fold_result f s l in f s' x.
Proof.
  revert s. induction l as [|y l IH]; intros s; cbn; [by destruct (f s x)|].
  destruct (f s y); [apply IH|done..].
Qed.

Lemma bind_no_panic (m : result E A) (k : A → result E B) :
  no_panic m → (∀ a, m = Ok a → no_panic (k a)) → no_panic (let? x := m in k x).
Proof. intros Hm Hk. destruct m; [by apply Hk|done..]. Qed.
End result_lemmas.

Lemma try_u64_Ok {E} z (e : E) : z < 2 ^ 64 → ok_or (try_u64 z) e = Ok z.
Proof. intros H. unfold try_u64. by rewrite (proj2 (Z.ltb_lt _ _)). Qed.

Lemma ok_or_try_u64 {E} z (e : E) n : ok_or (try_usize z) e = Ok n ↔ n = z ∧ z < 2 ^ 64.
Proof.
  unfold try_usize, try_u64. destruct (Z.ltb_spec z (2 ^ 64)); simpl; [naive_solver|].
  split; [done|lia].
Qed.

Create HintDb no_panic discriminated.
#[export] Hint Constants Opaque : no_panic.
#[export] Hint Resolve ok_or_no_panic check_all_no_panic : no_panic.

(** One step of a no-panic proof. *)
Ltac np_step :=
  lazymatch goal with
  | |- no_panic (Ok _) => done
  | |- no_panic (Err _) => done
  | |- no_panic (match ?m with Ok _ => _ | Err _ => _ | Panic => _ end) =>
      apply (bind_no_panic m); [|intros ? ?]
  | |- no_panic (if ?c then _ else _) => let H := fresh "Hif" in destruct c eqn:H
  | |- no_panic (match ?o with _ => _ end) => let H := fresh "Hm" in destruct o eqn:H
  | |- no_panic _ => solve [auto with no_panic nocore]
  end.

(** ** Lengths

    [len] is the [Z] length; the rewrite base [len] pushes it through the list
    constructors and [len_lia] adds the non-negativity facts. *)
Create Rewrite HintDb len.

Section len_lemmas.
Context {A : Type}.
Implicit Types l k : list A.

Lemma len_nil : len (@nil A) = 0.
Proof. done. Qed.
Lemma len_cons x l : len (x :: l) = 1 + len l.
Proof. unfold len. simpl length. lia. Qed.
Lemma len_app l k : len (l ++ k) = len l + len k.
Proof. unfold len. rewrite length_app. lia. Qed.
Lemma len_nonneg l : 0 ≤ len l.
Proof. unfold len. lia. Qed.
Lemma len_replicate n (x : A) : len (replicate n x) = Z.of_nat n.
Proof. unfold len. by rewrite length_replicate. Qed.
Lemma len_zero_nil l : len l = 0 → l = [].
Proof. unfold len. destruct l; simpl; [done|lia]. Qed.
Lemma to_nat_len l : Z.to_nat (len l) = length l.
Proof. unfold len. lia. Qed.

Lemma take_len_app l k : take (Z.to_nat (len l)) (l ++ k) = l.
Proof. rewrite to_nat_len. apply take_app_length. Qed.
Lemma drop_len_app l k : drop (Z.to_nat (len l)) (l ++ k) = k.
Proof. rewrite to_nat_len. apply drop_app_length. Qed.
End len_lemmas.

Lemma len_fmap {A B} (f : A → B) (l : list A) : len (map f l) = len l.
Proof. unfold len. by rewrite length_map. Qed.

Lemma len_to_le n z : len (to_le n z) = Z.of_nat n.
Proof. unfold len, to_le. by rewrite length_le_split. Qed.

Lemma len_zeros n : 0 ≤ n → len (zeros n) = n.
Proof. intros. unfold zeros. rewrite len_replicate. lia. Qed.

#[export] Hint Rewrite @len_nil @len_cons @len_app @len_replicate @len_fmap
  len_to_le : len.

(** Saturate the context with [0 ≤ len l] for the lists in sight. *)
Ltac len_facts :=
  repeat match goal with
  | |- context [len ?l] =>
      lazymatch goal with
      | _ : 0 ≤ len l |- _ => fail
      | _ => pose proof (len_nonneg l)
      end
  | _ : context [len ?l] |- _ =>
      lazymatch goal with
      | _ : 0 ≤ len l |- _ => fail
      | _ => pose proof (len_nonneg l)
      end
  end.
Ltac len_lia := autorewrite with len in *; len_facts; lia.

(** ** Little-endian words *)
Lemma from_le_to_le n z :
  0 ≤ z < 2 ^ (8 * Z.of_nat n) → from_le (to_le n z) = z.
Proof.
  intros Hz. unfold from_le, to_le. rewrite le_combine_split.
  apply Z.mod_small. by rewrite Z.mul_comm.
Qed.

Lemma to_le_from_le bs n : length bs = n → to_le n (from_le bs) = bs.
Proof. intros <-. apply split_le_combine. Qed.

Lemma from_le_bound bs : 0 ≤ from_le bs < 2 ^ (8 * len bs).
Proof. apply le_combine_bound. Qed.

Lemma to_le_inj n x y :
  0 ≤ x < 2 ^ (8 * Z.of_nat n) → 0 ≤ y < 2 ^ (8 * Z.of_nat n) →
  to_le n x = to_le n y → x = y.
Proof.
  intros Hx Hy Heq. rewrite <- (from_le_to_le n x Hx), <- (from_le_to_le n y Hy).
  by rewrite Heq.
Qed.

Lemma to_le_mod n z : to_le n z = to_le n (z mod 2 ^ (8 * Z.of_nat n)).
Proof. unfold to_le. rewrite Z.mul_comm. apply le_split_mod. Qed.

#[global] Opaque to_le from_le.

Lemma any_nonzero_zeros n : any_nonzero (replicate n zero_byte) = false.
Proof. by induction n as [|n IH]. Qed.

Lemma any_nonzero_false bs :
  any_nonzero bs = false ↔ bs = replicate (length bs) zero_byte.
Proof.
  induction bs as [|b bs IH]; [done|]. simpl.
  rewrite orb_false_iff, IH, negb_false_iff, bool_decide_eq_true.
  split; [intros [-> <-]; done|intros [= -> <-]]. done.
Qed.

(** ** Slices *)
Section slices.
Context {A : Type}.
Implicit Types l k m : list A.

Lemma get_range_Some l a b s :
  get_range l a b = Some s ↔
  0 ≤ a ≤ b ∧ b ≤ len l ∧ s = take (Z.to_nat (b - a)) (drop (Z.to_nat a) l).
Proof.
  unfold get_range. destruct (_ && _) eqn:Hc.
  - rewrite !andb_true_iff, !Z.leb_le in Hc.
    split; [intros [= <-]; split_and!; [lia..|done]|by intros (_ & _ & ->)].
  - rewrite !andb_false_iff, !Z.leb_gt in Hc. split; [done|]. intros. lia.
Qed.

Lemma get_range_len l a b s : get_range l a b = Some s → len s = b - a.
Proof.
  intros (Ha & Hb & ->)%get_range_Some. unfold len in *.
  rewrite length_take, length_drop. lia.
Qed.

Lemma get_range_app l m k a b :
  a = len l → b = len l + len m → get_range (l ++ m ++ k) a b = Some m.
Proof.
  intros -> ->. apply get_range_Some. len_facts.
  split_and!; [lia|lia|len_lia|].
  rewrite drop_len_app. replace (len l + len m - len l) with (len m) by lia.
  by rewrite take_len_app.
Qed.

Lemma get_range_split l a b s :
  get_range l a b = Some s →
  l = take (Z.to_nat a) l ++ s ++ drop (Z.to_nat b) l ∧ len (take (Z.to_nat a) l) = a.
Proof.
  intros (Ha & Hb & ->)%get_range_Some. split.
  - rewrite <- (take_drop (Z.to_nat a) l) at 1. f_equal.
    rewrite <- (take_drop (Z.to_nat (b - a)) (drop (Z.to_nat a) l)) at 1. f_equal.
    rewrite drop_drop. f_equal. lia.
  - unfold len in *. rewrite length_take. lia.
Qed.

Lemma slice_Ok {E} l a b s : slice (E:=E) l a b = Ok s ↔ get_range l a b = Some s.
Proof. apply or_panic_Ok. Qed.

Lemma slice_app {E} l m k a b :
  a = len l → b = len l + len m → slice (E:=E) (l ++ m ++ k) a b = Ok m.
Proof. intros ??. apply slice_Ok. by apply get_range_app. Qed.

Lemma slice_in_range {E} l a b :
  0 ≤ a ≤ b → b ≤ len l → ∃ s, slice (E:=E) l a b = Ok s ∧ len s = b - a.
Proof.
  intros Ha Hb. exists (take (Z.to_nat (b - a)) (drop (Z.to_nat a) l)).
  assert (Hr : get_range l a b = Some (take (Z.to_nat (b - a)) (drop (Z.to_nat a) l))).
  { by apply get_range_Some. }
  split; [by apply slice_Ok|by eapply get_range_len].
Qed.

Lemma slice_no_panic {E} l a b :
  0 ≤ a ≤ b → b ≤ len l → no_panic (slice (E:=E) l a b).
Proof. intros Ha Hb. destruct (slice_in_range (E:=E) l a b Ha Hb) as (s & -> & _). done. Qed.

Lemma splice_app {E} l m k src at_ :
  at_ = len l → length m = length src →
  splice (E:=E) (l ++ m ++ k) at_ src = Ok (l ++ src ++ k).
Proof.
  intros -> Hm. unfold splice.
  destruct (_ && _) eqn:Hc.
  - rewrite take_len_app, to_nat_len, <- Hm, <- length_app, (app_assoc l m k).
    by rewrite drop_app_length.
  - exfalso. rewrite andb_false_iff, !Z.leb_gt in Hc.
    unfold len in *. rewrite !length_app in Hc. lia.
Qed.

Lemma splice_Ok {E} l src at_ r :
  splice (E:=E) l at_ src = Ok r →
  0 ≤ at_ ∧ at_ + len src ≤ len l ∧ len r = len l ∧
  r = take (Z.to_nat at_) l ++ src ++ drop (Z.to_nat at_ + length src) l.
Proof.
  unfold splice. destruct (_ && _) eqn:Hc; [|done].
  rewrite andb_true_iff, !Z.leb_le in Hc. intros [= <-].
  unfold len in *. split_and!; [lia..| |done].
  rewrite !length_app, length_take, length_drop. lia.
Qed.
End slices.

(** ** Duplicates in lists *)
Section duplicates.
Context {A : Type}.
Implicit Types l k : list A.

(** [x] occurs at two different positions. *)
Definition occurs_twice (x : A) l : Prop :=
  ∃ i j, (i < j)%nat ∧ l !! i = Some x ∧ l !! j = Some x.

Lemma occurs_twice_app x l k : x ∈ l → x ∈ k → occurs_twice x (l ++ k).
Proof.
  intros [i Hi]%list_elem_of_lookup [j Hj]%list_elem_of_lookup.
  exists i, (length l + j)%nat. pose proof (lookup_lt_Some _ _ _ Hi).
  split_and!; [lia|by apply lookup_app_l_Some|].
  rewrite lookup_app_r by lia. by replace (length l + j - length l)%nat with j by lia.
Qed.

Lemma occurs_twice_app_l x l k : occurs_twice x l → occurs_twice x (l ++ k).
Proof.
  intros (i & j & Hij & Hi & Hj). exists i, j.
  split_and!; [done|by apply lookup_app_l_Some..].
Qed.

Lemma occurs_twice_app_r x l k : occurs_twice x k → occurs_twice x (l ++ k).
Proof.
  intros (i & j & Hij & Hi & Hj). exists (length l + i)%nat, (length l + j)%nat.
  split; [lia|]. rewrite !lookup_app_r by lia.
  by replace (length l + i - length l)%nat with i by lia;
     replace (length l + j - length l)%nat with j by lia.
Qed.

Lemma NoDup_take_lookup l :
  NoDup l ↔ ∀ i x, l !! i = Some x → x ∉ take i l.
Proof.
  split.
  - intros Hnd i x Hx Hin. rewrite <- (take_drop_middle l i x Hx) in Hnd.
    apply NoDup_app in Hnd as (_ & Hdis & _). apply (Hdis x Hin). left.
  - intros Hl. apply NoDup_alt. intros i j x Hi Hj.
    destruct (Nat.lt_trichotomy i j) as [Hlt|[?|Hlt]]; [|done|]; exfalso.
    + apply (Hl j x Hj). apply list_elem_of_lookup. exists i. by rewrite lookup_take_lt.
    + apply (Hl i x Hi). apply list_elem_of_lookup. exists j. by rewrite lookup_take_lt.
Qed.

Lemma NoDup_snoc l x : NoDup (l ++ [x]) ↔ x ∉ l ∧ NoDup l.
Proof.
  rewrite NoDup_app. split.
  - intros (Hl & Hdis & _). split; [|done]. intros Hin. apply (Hdis x Hin). left.
  - intros [Hx Hl]. split_and!; [done|set_solver|apply NoDup_singleton].
Qed.

(** A list with blocks appended is duplicate-free iff every block is, and
    meets nothing before it. *)
Lemma NoDup_app_concat l (ls : list (list A)) :
  NoDup (l ++ concat ls) ↔
  NoDup l ∧ ∀ i k, ls !! i = Some k →
    NoDup k ∧ ∀ x, x ∈ k → x ∉ l ++ concat (take i ls).
Proof.
  revert l. induction ls as [|k ls IH]; intros l; simpl.
  - rewrite app_nil_r. split; [|by intros []]. intros Hl. split; [done|]. by intros i k.
  - rewrite app_assoc, IH, NoDup_app. split.
    + intros [(Hl & Hlk & Hk) Hls]. split; [done|]. intros [|i] k' Hk'; simplify_eq/=.
      * rewrite app_nil_r. split; [done|]. intros x Hx Hin. by apply (Hlk x).
      * rewrite app_assoc. by apply Hls.
    + intros [Hl Hls]. split.
      * destruct (Hls 0%nat k eq_refl) as [Hk Hdis]. simpl in Hdis.
        rewrite app_nil_r in Hdis. split_and!; try done.
        intros x Hx Hin. by apply (Hdis x).
      * intros i k' Hk'. specialize (Hls (S i) k' Hk'). simpl in Hls.
        by rewrite app_assoc in Hls.
Qed.

Lemma concat_take_lookup (ls : list (list A)) i k x :
  ls !! i = Some k → x ∈ concat (take i ls) ++ k → x ∈ concat ls.
Proof.
  intros Hk Hx. rewrite <- (take_drop_middle ls i k Hk), concat_app. simpl.
  rewrite app_assoc. apply elem_of_app. by left.
Qed.
End duplicates.

(** ** Blocks

    A buffer whose fields are known is the concatenation of a list of blocks;
    reading and overwriting the [i]-th one are indexed accesses to that list. *)
Section blocks.
Context {A : Type}.
Implicit Types blocks : list (list A).

Lemma concat_lookup blocks i b :
  blocks !! i = Some b →
  concat blocks = concat (take i blocks) ++ b ++ concat (drop (S i) blocks).
Proof.
  intros Hi. rewrite <- (take_drop_middle blocks i b Hi) at 1.
  by rewrite concat_app.
Qed.

Lemma get_range_block blocks i b a e :
  blocks !! i = Some b → a = len (concat (take i blocks)) → e = a + len b →
  get_range (concat blocks) a e = Some b.
Proof.
  intros Hi -> ->. rewrite (concat_lookup blocks i b Hi). by apply get_range_app.
Qed.

Lemma slice_block {E} blocks i b a e :
  blocks !! i = Some b → a = len (concat (take i blocks)) → e = a + len b →
  slice (E:=E) (concat blocks) a e = Ok b.
Proof. intros. apply slice_Ok. by eapply get_range_block. Qed.

Lemma splice_block {E} blocks i b at_ src :
  blocks !! i = Some b → at_ = len (concat (take i blocks)) → len src = len b →
  splice (E:=E) (concat blocks) at_ src = Ok (concat (<[i := src]> blocks)).
Proof.
  intros Hi -> Hsrc. rewrite (concat_lookup blocks i b Hi).
  rewrite splice_app; [|done|unfold len in Hsrc; lia].
  f_equal. pose proof (lookup_lt_Some _ _ _ Hi) as Hlt.
  rewrite (concat_lookup (<[i:=src]> blocks) i src)
    by (by rewrite list_lookup_insert_eq).
  by rewrite take_insert_ge, drop_insert_lt by lia.
Qed.

(** Cutting a buffer into blocks of given lengths. *)
Lemma cut_blocks (ns : list nat) (l : list A) :
  (sum_list ns ≤ length l)%nat →
  ∃ blocks rest, l = concat blocks ++ rest ∧ map length blocks = ns.
Proof.
  revert l. induction ns as [|n ns IH]; intros l Hl; simpl in Hl.
  - by exists [], l.
  - destruct (IH (drop n l)) as (blocks & rest & Heq & Hlens).
    { rewrite length_drop. lia. }
    exists (take n l :: blocks), rest. simpl. split.
    + rewrite <- app_assoc, <- Heq. by rewrite take_drop.
    + rewrite length_take, Nat.min_l by lia. by f_equal.
Qed.
End blocks.

(** Cut [bs] into blocks of the lengths [ns]; [H : sum of ns ≤ length bs]. *)
Ltac cut_blocks_at ns H :=
  let blocks := fresh "blocks" in let rest := fresh "rest" in
  let Heq := fresh "Heq" in let Hl := fresh "Hl" in
  destruct (cut_blocks ns _ H) as (blocks & rest & Heq & Hl);
  repeat (destruct blocks as [|? blocks]; [discriminate Hl|]; simpl in Hl;
          injection Hl as ? Hl);
  destruct blocks; [clear Hl|discriminate Hl].

Lemma zeros_app a b : 0 ≤ a → 0 ≤ b → zeros (a + b) = zeros a ++ zeros b.
Proof. intros. unfold zeros. rewrite Z2Nat.inj_add by lia. apply replicate_add. Qed.

(** Lengths of concrete blocks. *)
Ltac block_len :=
  cbn [take concat app]; repeat rewrite len_app; rewrite ?len_nil; repeat rewrite len_to_le;
  repeat rewrite len_zeros by lia; cbn [Z.of_nat Pos.of_succ_nat Pos.succ];
  try lia.

(** ** Indexed iteration *)

(** [iter().enumerate()] *)
Definition enumerate {A} (l : list A) : list (Z * A) :=
  combine (map Z.of_nat (seq 0 (length l))) l.

Lemma enumerate_lookup {A} (l : list A) k i x :
  combine (map Z.of_nat (seq k (length l))) l !! i = Some x ↔
  ∃ y, l !! i = Some y ∧ x = (Z.of_nat (k + i), y).
Proof.
  revert k i. induction l as [|y l IH]; intros k [|i]; simpl.
  - naive_solver.
  - naive_solver.
  - rewrite Nat.add_0_r. naive_solver.
  - rewrite IH. by replace (S k + i)%nat with (k + S i)%nat by lia.
Qed.

Lemma Forall_enumerate {A} (P : Z * A → Prop) (l : list A) :
  Forall P (enumerate l) ↔ ∀ i x, l !! i = Some x → P (Z.of_nat i, x).
Proof.
  unfold enumerate. rewrite Forall_lookup. split.
  - intros H i x Hx. apply (H i). apply enumerate_lookup. by exists x.
  - intros H i p (y & Hy & ->)%enumerate_lookup. by apply H.
Qed.

Lemma elem_of_enumerate {A} (l : list A) i x :
  (i, x) ∈ enumerate l ↔ 0 ≤ i ∧ l !! Z.to_nat i = Some x.
Proof.
  rewrite list_elem_of_lookup. unfold enumerate. setoid_rewrite enumerate_lookup. split.
  - intros (n & y & Hy & [= -> ->]). split; [lia|]. by rewrite Nat2Z.id.
  - intros [Hi Hx]. exists (Z.to_nat i), x. split; [done|]. f_equal. lia.
Qed.

Lemma enumerate_snd {A} (l : list A) : map snd (enumerate l) = l.
Proof.
  apply list_eq. intros i. change (map snd ?k) with (snd <$> k). rewrite list_lookup_fmap.
  apply option_eq. intros y. rewrite fmap_Some. unfold enumerate.
  setoid_rewrite enumerate_lookup. naive_solver.
Qed.

Lemma combine_snoc {A B} (k : list A) (l : list B) z x :
  length k = length l → combine (k ++ [z]) (l ++ [x]) = combine k l ++ [(z, x)].
Proof.
  revert l. induction k as [|a k IH]; intros [|y l] Hk; simplify_eq/=; [done|]. f_equal. by apply IH.
Qed.

Lemma enumerate_snoc {A} (l : list A) x : enumerate (l ++ [x]) = enumerate l ++ [(len l, x)].
Proof.
  unfold enumerate, len. rewrite length_app. simpl. rewrite seq_app, map_app.
  apply combine_snoc. by rewrite length_map, length_seq.
Qed.
