(* ===== verification/Text.v ===== *)
(** Rust strings: UTF-8 validity of byte slices ([str::from_utf8]), [str::trim]
    and the byte-wise order of [String].

    A [String] is modelled by the standard library's [string], read as the list
    of its bytes; the invariant of Rust's type, that those bytes are valid
    UTF-8, is the predicate [is_utf8]. *)
From S2P Require Import Prelude.
From Stdlib Require Strings.String.

Definition string_bytes (s : string) : bytes := String.list_byte_of_string s.
Definition bytes_string (bs : bytes) : string := String.string_of_list_byte bs.

Definition between (lo hi : Z) (b : byte) : bool :=
  (lo <=? Z_of_byte b) && (Z_of_byte b <=? hi).
Definition is_cont : byte → bool := between 128 191.

(** The well-formed byte sequences of the Unicode standard, as accepted by
    [core::str::from_utf8]: shortest forms only, no surrogates, nothing above
    U+10FFFF. *)
Definition second_of_three (b0 b1 : byte) : bool :=
  if Z_of_byte b0 =? 224 then between 160 191 b1
  else if Z_of_byte b0 =? 237 then between 128 159 b1
  else is_cont b1.
Definition second_of_four (b0 b1 : byte) : bool :=
  if Z_of_byte b0 =? 240 then between 144 191 b1
  else if Z_of_byte b0 =? 244 then between 128 143 b1
  else is_cont b1.

Fixpoint utf8_valid (l : bytes) : bool :=
  match l with
  | [] => true
  | b0 :: l1 =>
      if between 0 127 b0 then utf8_valid l1
      else match l1 with
      | [] => false
      | b1 :: l2 =>
          if between 194 223 b0 then is_cont b1 && utf8_valid l2
          else match l2 with
          | [] => false
          | b2 :: l3 =>
              if between 224 239 b0
              then second_of_three b0 b1 && is_cont b2 && utf8_valid l3
              else match l3 with
              | [] => false
              | b3 :: l4 =>
                  between 240 244 b0 && second_of_four b0 b1 && is_cont b2 &&
                  is_cont b3 && utf8_valid l4
              end
          end
      end
  end.

Definition is_utf8 (s : string) : Prop := utf8_valid (string_bytes s) = true.

(** [str::from_utf8(bytes)] *)
Definition from_utf8 (bs : bytes) : option string :=
  if utf8_valid bs then Some (bytes_string bs) else None.

(** ** Trimming

    [str::trim] strips the characters of the Unicode property White_Space at
    both ends: U+0009 to U+000D, U+0020, U+0085, U+00A0, U+1680, U+2000 to
    U+200A, U+2028, U+2029, U+202F, U+205F and U+3000, here by their UTF-8
    encodings. *)
Definition ws1 (b : byte) : bool := between 9 13 b || (Z_of_byte b =? 32).
Definition ws2 (b0 b1 : byte) : bool :=
  (Z_of_byte b0 =? 194) && ((Z_of_byte b1 =? 133) || (Z_of_byte b1 =? 160)).
Definition ws3 (b0 b1 b2 : byte) : bool :=
  let z0 := Z_of_byte b0 in let z1 := Z_of_byte b1 in let z2 := Z_of_byte b2 in
  ((z0 =? 225) && (z1 =? 154) && (z2 =? 128)) ||
  ((z0 =? 226) && (z1 =? 128) &&
     (between 128 138 b2 || (z2 =? 168) || (z2 =? 169) || (z2 =? 175))) ||
  ((z0 =? 226) && (z1 =? 129) && (z2 =? 159)) ||
  ((z0 =? 227) && (z1 =? 128) && (z2 =? 128)).

Fixpoint trim_start (l : bytes) : bytes :=
  match l with
  | [] => []
  | b0 :: l1 =>
      if ws1 b0 then trim_start l1
      else match l1 with
      | [] => l
      | b1 :: l2 =>
          if ws2 b0 b1 then trim_start l2
          else match l2 with
          | [] => l
          | b2 :: l3 => if ws3 b0 b1 b2 then trim_start l3 else l
          end
      end
  end.

(** [trim_start] on the reversed list, with the encodings read backwards. *)
Fixpoint trim_rev (l : bytes) : bytes :=
  match l with
  | [] => []
  | b0 :: l1 =>
      if ws1 b0 then trim_rev l1
      else match l1 with
      | [] => l
      | b1 :: l2 =>
          if ws2 b1 b0 then trim_rev l2
          else match l2 with
          | [] => l
          | b2 :: l3 => if ws3 b2 b1 b0 then trim_rev l3 else l
          end
      end
  end.

Definition trim_bytes (l : bytes) : bytes := reverse (trim_rev (reverse (trim_start l))).
Definition trim (s : string) : string := bytes_string (trim_bytes (string_bytes s)).

(** [s.trim().is_empty()] *)
Definition is_blank (s : string) : bool :=
  match trim_bytes (string_bytes s) with [] => true | _ => false end.

(** [String::is_empty] *)
Definition string_is_empty (s : string) : bool := bool_decide (s = EmptyString).

(** ** Order

    [String]'s [Ord] compares the bytes lexicographically, which is stdpp's
    [String.le] with its instances; [string_ltb] is the strict test [a < b]. *)
Definition string_ltb (a b : string) : bool := bool_decide (String.le a b ∧ a ≠ b).

(** ** Lemmas *)
Lemma bytes_string_bytes s : bytes_string (string_bytes s) = s.
Proof. apply String.string_of_list_byte_of_string. Qed.

Lemma string_bytes_string bs : string_bytes (bytes_string bs) = bs.
Proof. apply String.list_byte_of_string_of_list_byte. Qed.

#[global] Instance string_bytes_inj : Inj (=) (=) string_bytes.
Proof.
  intros s t Heq. by rewrite <- (bytes_string_bytes s), Heq, bytes_string_bytes.
Qed.

Lemma from_utf8_Some bs s :
  from_utf8 bs = Some s ↔ bs = string_bytes s ∧ is_utf8 s.
Proof.
  unfold from_utf8, is_utf8. destruct (utf8_valid bs) eqn:Hv.
  - split.
    + intros [= <-]. by rewrite string_bytes_string.
    + intros [-> _]. by rewrite bytes_string_bytes.
  - split; [done|]. intros [-> Hs]. congruence.
Qed.

Lemma from_utf8_string s : is_utf8 s → from_utf8 (string_bytes s) = Some s.
Proof. intros. by apply from_utf8_Some. Qed.

Lemma Z_of_byte_inj x y : Z_of_byte x = Z_of_byte y → x = y.
Proof. apply byte.unsigned_inj. Qed.

Lemma Z_of_byte_range b : 0 ≤ Z_of_byte b < 256.
Proof. apply byte.unsigned_range. Qed.

Lemma string_ltb_spec a b : string_ltb a b = true ↔ String.le a b ∧ a ≠ b.
Proof. apply bool_decide_eq_true. Qed.

Lemma string_ltb_irrefl a : string_ltb a a = false.
Proof. apply bool_decide_eq_false. by intros [_ []]. Qed.

Lemma string_ltb_trans a b c :
  string_ltb a b = true → string_ltb b c = true → string_ltb a c = true.
Proof.
  rewrite !string_ltb_spec. intros [Hab Hn] [Hbc _]. split; [by etrans|].
  intros ->. apply Hn. by apply (anti_symm String.le).
Qed.

Lemma is_blank_spec s : is_blank s = bool_decide (trim s = EmptyString).
Proof.
  unfold is_blank, trim. destruct (trim_bytes _) as [|b l] eqn:Ht; [done|].
  symmetry. apply bool_decide_eq_false. intros Heq.
  apply (f_equal string_bytes) in Heq. by rewrite string_bytes_string in Heq.
Qed.

(** A string that does not start or end with a white-space character. *)
Definition trimmed (s : string) : Prop := trim s = s.

(** [trim] is idempotent: what it leaves neither starts nor ends with a
    white-space encoding. *)
Definition starts_ws (l : bytes) : bool :=
  match l with
  | [] => false
  | b0 :: l1 => ws1 b0 ||
      match l1 with
      | [] => false
      | b1 :: l2 => ws2 b0 b1 || match l2 with [] => false | b2 :: _ => ws3 b0 b1 b2 end
      end
  end.
Definition starts_ws_rev (l : bytes) : bool :=
  match l with
  | [] => false
  | b0 :: l1 => ws1 b0 ||
      match l1 with
      | [] => false
      | b1 :: l2 => ws2 b1 b0 || match l2 with [] => false | b2 :: _ => ws3 b2 b1 b0 end
      end
  end.

Lemma trim_start_stop l : starts_ws l = false → trim_start l = l.
Proof.
  destruct l as [|b0 [|b1 [|b2 l]]]; simpl; [done|..]; rewrite ?orb_false_iff.
  - by intros [-> _].
  - by intros (-> & -> & _).
  - by intros (-> & -> & ->).
Qed.
Lemma trim_rev_stop l : starts_ws_rev l = false → trim_rev l = l.
Proof.
  destruct l as [|b0 [|b1 [|b2 l]]]; simpl; [done|..]; rewrite ?orb_false_iff.
  - by intros [-> _].
  - by intros (-> & -> & _).
  - by intros (-> & -> & ->).
Qed.

Lemma trim_start_clean l : starts_ws (trim_start l) = false.
Proof.
  remember (length l) as n eqn:Hn. assert (length l ≤ n)%nat as Hle by lia. clear Hn.
  revert l Hle. induction n as [|n IH]; intros l Hle.
  { by destruct l; [|simpl in Hle; lia]. }
  destruct l as [|b0 [|b1 [|b2 l]]]; [done|..]; simpl in *.
  - destruct (ws1 b0) eqn:H0; [done|]. simpl. by rewrite H0.
  - destruct (ws1 b0) eqn:H0; [apply (IH [b1]); simpl; lia|].
    destruct (ws2 b0 b1) eqn:H1; [done|]. simpl. by rewrite H0, H1.
  - destruct (ws1 b0) eqn:H0; [apply (IH (b1 :: b2 :: l)); simpl; lia|].
    destruct (ws2 b0 b1) eqn:H1; [apply (IH (b2 :: l)); simpl; lia|].
    destruct (ws3 b0 b1 b2) eqn:H2; [apply IH; lia|]. simpl. by rewrite H0, H1, H2.
Qed.

Lemma trim_rev_clean l : starts_ws_rev (trim_rev l) = false ∧ ∃ k, l = k ++ trim_rev l.
Proof.
  remember (length l) as n eqn:Hn. assert (length l ≤ n)%nat as Hle by lia. clear Hn.
  revert l Hle. induction n as [|n IH]; intros l Hle.
  { destruct l; [|simpl in Hle; lia]. split; [done|]. by exists []. }
  assert (∀ p m : bytes, (length m ≤ n)%nat → l = p ++ m → trim_rev l = trim_rev m →
    starts_ws_rev (trim_rev l) = false ∧ ∃ k, l = k ++ trim_rev l) as Hskip.
  { intros p m Hm Hl Ht. rewrite Ht. destruct (IH m Hm) as [Hc [k Hk]]. split; [done|].
    exists (p ++ k). by rewrite <- app_assoc, <- Hk. }
  assert (starts_ws_rev l = false → starts_ws_rev (trim_rev l) = false ∧
    ∃ k, l = k ++ trim_rev l) as Hstop.
  { intros Hs. rewrite (trim_rev_stop l Hs). split; [done|]. by exists []. }
  destruct l as [|b0 [|b1 [|b2 l]]]; [by apply Hstop|..]; simpl in Hle.
  - destruct (ws1 b0) eqn:H0; [apply (Hskip [b0] []); [simpl; lia|done|simpl; by rewrite H0]|].
    apply Hstop. simpl. by rewrite H0.
  - destruct (ws1 b0) eqn:H0;
      [apply (Hskip [b0] [b1]); [simpl; lia|done|cbn [trim_rev]; by rewrite H0]|].
    destruct (ws2 b1 b0) eqn:H1;
      [apply (Hskip [b0; b1] []); [simpl; lia|done|cbn [trim_rev]; by rewrite H0, H1]|].
    apply Hstop. simpl. by rewrite H0, H1.
  - destruct (ws1 b0) eqn:H0;
      [apply (Hskip [b0] (b1 :: b2 :: l)); [simpl; lia|done|cbn [trim_rev]; by rewrite H0]|].
    destruct (ws2 b1 b0) eqn:H1;
      [apply (Hskip [b0; b1] (b2 :: l)); [simpl; lia|done|cbn [trim_rev]; by rewrite H0, H1]|].
    destruct (ws3 b2 b1 b0) eqn:H2;
      [apply (Hskip [b0; b1; b2] l); [lia|done|cbn [trim_rev]; by rewrite H0, H1, H2]|].
    apply Hstop. simpl. by rewrite H0, H1, H2.
Qed.

Lemma starts_ws_prefix l k : starts_ws (l ++ k) = false → starts_ws l = false.
Proof.
  destruct l as [|b0 [|b1 [|b2 l]]]; simpl; [done|..]; rewrite ?orb_false_iff.
  - by intros [-> _].
  - by intros (-> & -> & _).
  - by intros (-> & -> & ->).
Qed.

Lemma trim_bytes_idemp l : trim_bytes (trim_bytes l) = trim_bytes l.
Proof.
  unfold trim_bytes. set (y := trim_start l). destruct (trim_rev_clean (reverse y)) as [Hc [k Hk]].
  assert (y = reverse (trim_rev (reverse y)) ++ reverse k) as Hy
    by (by rewrite <- reverse_app, <- Hk, reverse_involutive).
  rewrite (trim_start_stop (reverse _)).
  - by rewrite reverse_involutive, (trim_rev_stop (trim_rev _)).
  - apply (starts_ws_prefix _ (reverse k)). rewrite <- Hy. apply trim_start_clean.
Qed.

Lemma trim_idemp s : trim (trim s) = trim s.
Proof. unfold trim. by rewrite string_bytes_string, trim_bytes_idemp. Qed.

Lemma string_is_empty_false s : string_is_empty s = false ↔ s ≠ EmptyString.
Proof. apply bool_decide_eq_false. Qed.

Lemma trim_trimmed s : trimmed (trim s).
Proof. apply trim_idemp. Qed.
