(* ===== verification/Chars.v ===== *)
(** Characters of a [String]: [str::split_whitespace], [str::trim_matches],
    [str::to_ascii_lowercase] and the iteration over [char]s they rest on.

    A [char] is the block of its UTF-8 encoding. *)
From S2P Require Import Prelude Text.

(** The encodings of the characters of a UTF-8 string, by the lead bytes. *)
Fixpoint chars (l : bytes) : list bytes :=
  match l with
  | [] => []
  | b0 :: l1 =>
      if between 0 127 b0 then [b0] :: chars l1
      else match l1 with
      | [] => [[b0]]
      | b1 :: l2 =>
          if between 192 223 b0 then [b0; b1] :: chars l2
          else match l2 with
          | [] => [[b0; b1]]
          | b2 :: l3 =>
              if between 224 239 b0 then [b0; b1; b2] :: chars l3
              else match l3 with
              | [] => [[b0; b1; b2]]
              | b3 :: l4 => [b0; b1; b2; b3] :: chars l4
              end
          end
      end
  end.

Definition string_chars (s : string) : list bytes := chars (string_bytes s).
Definition chars_string (cs : list bytes) : string := bytes_string (concat cs).

(** [char::is_whitespace] *)
Definition is_whitespace (c : bytes) : bool :=
  match c with
  | [b0] => ws1 b0
  | [b0; b1] => ws2 b0 b1
  | [b0; b1; b2] => ws3 b0 b1 b2
  | _ => false
  end.

(** [char::is_ascii_alphanumeric] *)
Definition ascii_alphanumeric (b : byte) : bool :=
  between 48 57 b || between 65 90 b || between 97 122 b.

(** The Unicode tables of the standard library above U+007F: which characters
    have the properties Alphabetic or Numeric. *)
Class UnicodeTables := { unicode_alphanumeric : bytes → bool }.

(** [char::is_alphanumeric] *)
Definition is_alphanumeric `{UnicodeTables} (c : bytes) : bool :=
  match c with
  | [b] => ascii_alphanumeric b
  | _ => unicode_alphanumeric c
  end.

(** [u8::to_ascii_lowercase] and [str::to_ascii_lowercase] *)
Definition ascii_lower_byte (b : byte) : byte :=
  if between 65 90 b then byte_of_Z (Z_of_byte b + 32) else b.
Definition to_ascii_lowercase (s : string) : string :=
  bytes_string (map ascii_lower_byte (string_bytes s)).

Section splitting.
Context {A : Type}.

Fixpoint skip_while (p : A → bool) (l : list A) : list A :=
  match l with
  | [] => []
  | x :: l' => if p x then skip_while p l' else l
  end.

(** [trim_matches(p)] *)
Definition trim_matches (p : A → bool) (l : list A) : list A :=
  reverse (skip_while p (reverse (skip_while p l))).

(** The maximal runs of elements outside [p]; [cur] is the run being read,
    backwards. *)
Fixpoint split_runs (p : A → bool) (cur l : list A) : list (list A) :=
  match l with
  | [] => match cur with [] => [] | _ => [reverse cur] end
  | x :: l' =>
      if p x then
        match cur with
        | [] => split_runs p [] l'
        | _ => reverse cur :: split_runs p [] l'
        end
      else split_runs p (x :: cur) l'
  end.
End splitting.

(** [split_whitespace()] *)
Definition split_whitespace (s : string) : list (list bytes) :=
  split_runs is_whitespace [] (string_chars s).

Section chars_lemmas.
Lemma concat_chars l : concat (chars l) = l.
Proof.
  remember (length l) as n eqn:Hn. assert (length l ≤ n)%nat as Hle by lia. clear Hn.
  revert l Hle. induction n as [|n IH]; intros l Hle.
  { by destruct l; [|simpl in Hle; lia]. }
  destruct l as [|b0 l]; [done|]. cbn [chars]. simpl in Hle.
  destruct (between 0 127 b0); [cbn; by rewrite IH by lia|].
  destruct l as [|b1 l]; [done|]. simpl in Hle.
  destruct (between 192 223 b0); [cbn; by rewrite IH by lia|].
  destruct l as [|b2 l]; [done|]. simpl in Hle.
  destruct (between 224 239 b0); [cbn; by rewrite IH by lia|].
  destruct l as [|b3 l]; [done|]. simpl in Hle. cbn. by rewrite IH by lia.
Qed.

Lemma split_runs_spec {A} (p : A → bool) l cur w :
  Forall (λ x, p x = false) cur → w ∈ split_runs p cur l →
  w ≠ [] ∧ Forall (λ x, p x = false) w.
Proof.
  revert cur. induction l as [|x l IH]; intros cur Hcur; simpl.
  - destruct cur as [|c cur]; [set_solver|]. intros ->%list_elem_of_singleton.
    split; [|by apply Forall_reverse]. intros Hr.
    apply (f_equal length) in Hr. rewrite length_reverse in Hr. done.
  - destruct (p x) eqn:Hp; [|by apply IH; constructor].
    destruct cur as [|c cur]; [by apply IH|].
    intros [->|Hw]%elem_of_cons; [|by apply (IH [])].
    split; [|by apply Forall_reverse]. intros Hr.
    apply (f_equal length) in Hr. rewrite length_reverse in Hr. done.
Qed.
End chars_lemmas.
