(* ===== verification/Collections.v ===== *)
(** The standard collections the program uses: [BTreeMap] and [BTreeSet]
    iteration order, [Vec::sort] and [Vec::dedup].

    A [BTreeMap] is a stdpp [gmap]; what a [gmap] does not have is the
    iteration in ascending key order, which decides which error a validating
    loop reports first and which entry [iter().next()] yields. *)
From S2P Require Import Prelude Text.

(** The order of the keys, a total order one can decide. *)
Class KeyOrder (K : Type) := {
  key_le : relation K;
  key_le_dec :: RelDecision key_le;
  key_le_trans :: Transitive key_le;
  key_le_total :: Total key_le;
  key_le_antisym :: AntiSymm (=) key_le;
}.

#[export] Instance Z_key_order : KeyOrder Z := {| key_le := Z.le |}.
#[export] Instance string_key_order : KeyOrder string := {| key_le := String.le |}.

(** ** [sort] and [dedup] *)
Definition sort {K} `{KeyOrder K} (l : list K) : list K := merge_sort key_le l.

(** [Vec::dedup] keeps the first of each run of equal consecutive elements. *)
Fixpoint dedup {K} `{EqDecision K} (l : list K) : list K :=
  match l with
  | x :: ((y :: _) as l') => if decide (x = y) then dedup l' else x :: dedup l'
  | _ => l
  end.

(** [windows(2).all(|pair| pair[0] < pair[1])] *)
Fixpoint strictly_ascending {K} `{KeyOrder K, EqDecision K} (l : list K) : bool :=
  match l with
  | x :: ((y :: _) as l') => bool_decide (key_le x y ∧ x ≠ y) && strictly_ascending l'
  | _ => true
  end.

Section sorting.
Context {K : Type} `{KeyOrder K, EqDecision K}.
Implicit Types l : list K.

Lemma sort_perm l : sort l ≡ₚ l.
Proof. apply merge_sort_Permutation. Qed.

Lemma sort_sorted l : StronglySorted key_le (sort l).
Proof. apply Sorted_StronglySorted; [apply _|]. apply Sorted_merge_sort. apply _. Qed.

Lemma dedup_elem_of l x : x ∈ dedup l ↔ x ∈ l.
Proof.
  induction l as [|a [|b l] IH]; [done..|].
  cbn [dedup]. destruct (decide (a = b)) as [->|Hne].
  - rewrite IH. rewrite !elem_of_cons. tauto.
  - rewrite !(elem_of_cons _ _ a), IH. done.
Qed.

Lemma dedup_head l x : head (dedup (x :: l)) = Some x.
Proof.
  revert x. induction l as [|y l IH]; intros x; [done|].
  cbn [dedup]. destruct (decide (x = y)) as [->|Hne]; [apply IH|done].
Qed.

Lemma dedup_strict l :
  StronglySorted key_le l → strictly_ascending (dedup l) = true.
Proof.
  induction l as [|a [|b l] IH]; intros Hs; [done..|].
  inversion_clear Hs as [|? ? Hs' Hall]. specialize (IH Hs').
  cbn [dedup]. destruct (decide (a = b)) as [->|Hne]; [done|].
  change (match l with [] => b :: l | y :: _ => if decide (b = y) then dedup l else b :: dedup l end)
    with (dedup (b :: l)) in *.
  pose proof (dedup_head l b) as Hh.
  destruct (dedup (b :: l)) as [|c l']; [done|]. simplify_eq/=.
  rewrite bool_decide_true; [exact IH|]. split; [|done].
  by apply Forall_inv in Hall.
Qed.

Lemma sort_strict_id l : strictly_ascending l = true → sort l = l.
Proof.
  intros Hs. apply (Sorted_unique key_le); [apply Sorted_merge_sort; apply _| |apply sort_perm].
  induction l as [|a [|b l] IH]; [repeat constructor..|].
  cbn [strictly_ascending] in Hs. apply andb_true_iff in Hs as [Hab Hs].
  apply bool_decide_eq_true in Hab as [Hab _].
  constructor; [by apply IH|]. by constructor.
Qed.

Lemma dedup_strict_id l : strictly_ascending l = true → dedup l = l.
Proof.
  induction l as [|a [|b l] IH]; intros Hs; [done..|].
  cbn [strictly_ascending] in Hs. apply andb_true_iff in Hs as [Hab Hs].
  apply bool_decide_eq_true in Hab as [_ Hab].
  cbn [dedup]. rewrite decide_False by done. f_equal. by apply IH.
Qed.
End sorting.

(** ** [BTreeMap] iteration *)
Section btree.
Context {K : Type} `{Countable K, KeyOrder K} {A : Type}.
Implicit Types m : gmap K A.

Definition entry_le (p q : K * A) : Prop := key_le p.1 q.1.
#[export] Instance entry_le_dec : RelDecision entry_le.
Proof. intros p q. unfold entry_le. apply _. Defined.
#[export] Instance entry_le_total : Total entry_le.
Proof. intros p q. apply key_le_total. Qed.
#[export] Instance entry_le_trans : Transitive entry_le.
Proof. intros p q r. apply key_le_trans. Qed.

(** [map.iter()]: the entries in ascending key order. *)
Definition btree_iter m : list (K * A) := merge_sort entry_le (map_to_list m).
Definition btree_keys m : list K := map fst (btree_iter m).
Definition btree_values m : list A := map snd (btree_iter m).

(** [map.keys().next_back()], the greatest key. *)
Definition btree_last_key m : option K := last (btree_keys m).

Lemma elem_of_btree_iter m k a : (k, a) ∈ btree_iter m ↔ m !! k = Some a.
Proof.
  unfold btree_iter. rewrite merge_sort_Permutation. apply elem_of_map_to_list.
Qed.

Lemma btree_iter_sorted m : StronglySorted entry_le (btree_iter m).
Proof. apply Sorted_StronglySorted; [apply _|]. apply Sorted_merge_sort. apply _. Qed.

Lemma elem_of_btree_keys m k : k ∈ btree_keys m ↔ is_Some (m !! k).
Proof.
  unfold btree_keys. rewrite list_elem_of_fmap. split.
  - intros [[k' a] [-> Hin]]. apply elem_of_btree_iter in Hin. by exists a.
  - intros [a Ha]. exists (k, a). split; [done|]. by apply elem_of_btree_iter.
Qed.

Lemma elem_of_btree_values m a : a ∈ btree_values m ↔ ∃ k, m !! k = Some a.
Proof.
  unfold btree_values. rewrite list_elem_of_fmap. split.
  - intros [[k a'] [-> Hin]]. exists k. by apply elem_of_btree_iter.
  - intros [k Ha]. exists (k, a). split; [done|]. by apply elem_of_btree_iter.
Qed.

Lemma btree_keys_sorted m : StronglySorted key_le (btree_keys m).
Proof.
  unfold btree_keys. pose proof (btree_iter_sorted m) as Hs.
  induction Hs as [|p l Hs IH Hall]; simpl; constructor; [done|].
  by rewrite Forall_fmap.
Qed.

Lemma btree_keys_NoDup m : NoDup (btree_keys m).
Proof.
  unfold btree_keys, btree_iter. rewrite merge_sort_Permutation.
  apply NoDup_fst_map_to_list.
Qed.

Lemma StronglySorted_last {B} (R : relation B) l x y :
  StronglySorted R l → last l = Some x → y ∈ l → y = x ∨ R y x.
Proof.
  induction 1 as [|a l Hs IH Hall]; [done|]. intros Hl Hy.
  destruct l as [|b l]; [set_solver|].
  apply elem_of_cons in Hy as [->|Hy]; [|by apply IH].
  right. rewrite Forall_forall in Hall. apply Hall. by apply last_Some_elem_of.
Qed.

(** Nothing exceeds [next] iff [next_back] does not. *)
Lemma btree_last_key_max m k a :
  m !! k = Some a → ∃ k', btree_last_key m = Some k' ∧ (k = k' ∨ key_le k k').
Proof.
  intros Hk. assert (Hin : k ∈ btree_keys m) by (apply elem_of_btree_keys; eauto).
  unfold btree_last_key. destruct (last (btree_keys m)) as [k'|] eqn:Hl.
  - exists k'. split; [done|].
    eapply StronglySorted_last; [apply btree_keys_sorted|done|done].
  - apply last_None in Hl. rewrite Hl in Hin. set_solver.
Qed.

Lemma btree_last_key_elem m k : btree_last_key m = Some k → is_Some (m !! k).
Proof. intros Hl. apply elem_of_btree_keys. by apply last_Some_elem_of. Qed.
End btree.
