(* ===== verification/Codec.v ===== *)
(** The byte cursor every decoder of the workspace is written over, as an
    error-reporting state monad, and the reasoning principles of its clients.

    Each of the Rust files has a private [Cursor] of the same shape; they differ
    in the error values of [take], which the class [CursorErrors] abstracts.
    [reads d l v] says that [d] consumes exactly [l] and returns [v] wherever
    [l] stands in the input; [parses d R] is the converse, that whatever [d]
    accepts it has read from a block [l] related to the value by [R]. *)
From S2P Require Import Prelude Text.

Class CursorErrors (E : Type) := {
  err_truncated : E;
  err_cursor_overflow : E;
}.

Record Cursor := mkCursor { cur_bytes : bytes; cur_offset : Z }.

Definition cursor_new (bs : bytes) : Cursor := mkCursor bs 0.

Definition decoder (E A : Type) : Type := Cursor → result E (A * Cursor).

Definition dec_ret {E A} (a : A) : decoder E A := λ c, Ok (a, c).
Definition dec_bind {E A B} (d : decoder E A) (k : A → decoder E B) : decoder E B :=
  λ c, let? ' (a, c') := d c in k a c'.
(** An expression that does not move the cursor: [expr?]. *)
Definition dec_lift {E A} (r : result E A) : decoder E A :=
  λ c, let? a := r in Ok (a, c).
(** [if !b { return Err(e) }] *)
Definition dec_guard {E} (b : bool) (e : E) : decoder E unit :=
  dec_lift (if b then Ok tt else Err e).

Notation "'dec!' x <- d ; k" := (dec_bind d (λ x, k))
  (at level 10, x name, d at level 100, k at level 200,
   format "'[v' 'dec!'  x  <-  d ;  '/' k ']'") : ntd_scope.

Section cursor.
Context {E : Type} `{CursorErrors E}.

(** [Cursor::take]: both the checked end offset and the range test. *)
Definition take_bytes (n : Z) : decoder E bytes := λ c,
  let? end_ := ok_or (checked_add_usize (cur_offset c) n) err_cursor_overflow in
  let? bs := ok_or (get_range (cur_bytes c) (cur_offset c) end_) err_truncated in
  Ok (bs, mkCursor (cur_bytes c) end_).

(** The fixed-width readers index the slice [take] returned. *)
Definition read_word (n : nat) : decoder E Z :=
  dec! bs <- take_bytes (Z.of_nat n); dec_ret (from_le bs).
Definition read_u8 : decoder E Z := read_word 1.
Definition read_u16 : decoder E Z := read_word 2.
Definition read_u32 : decoder E Z := read_word 4.
Definition read_u64 : decoder E Z := read_word 8.
Definition read_i32 : decoder E Z :=
  dec! w <- read_u32; dec_ret (to_signed32 w).

(** [for _ in 0..n { out.push(d(&mut cursor)?) }] *)
Fixpoint read_many {A} (n : nat) (d : decoder E A) : decoder E (list A) :=
  match n with
  | O => dec_ret []
  | S n' => dec! x <- d; dec! xs <- read_many n' d; dec_ret (x :: xs)
  end.

(** [Vec::with_capacity(usize::try_from(count)?)] followed by the loop. *)
Definition read_vec {A} (e : E) (count : Z) (d : decoder E A) : decoder E (list A) :=
  dec! n <- dec_lift (ok_or (try_usize count) e);
  read_many (Z.to_nat n) d.

Definition is_finished (c : Cursor) : bool := cur_offset c =? len (cur_bytes c).
(** [if !cursor.is_finished() { return Err(e) }] *)
Definition expect_finished (e : E) : decoder E unit :=
  λ c, if is_finished c then Ok (tt, c) else Err e.

Definition run_decoder {A} (d : decoder E A) (bs : bytes) : result E A :=
  let? ' (a, _) := d (cursor_new bs) in Ok a.
End cursor.

(** ** The output side: [Vec<u8>] appends *)
Definition push_u8 (out : bytes) (v : Z) : bytes := out ++ to_le 1 v.
Definition push_u16 (out : bytes) (v : Z) : bytes := out ++ to_le 2 v.
Definition push_u32 (out : bytes) (v : Z) : bytes := out ++ to_le 4 v.
Definition push_u64 (out : bytes) (v : Z) : bytes := out ++ to_le 8 v.
Definition push_i32 (out : bytes) (v : Z) : bytes := out ++ to_le 4 v.

(** ** Positions

    [at_ pre post] is the cursor that has consumed [pre] and has [post] left. *)
Definition at_ (pre post : bytes) : Cursor := mkCursor (pre ++ post) (len pre).

Definition reads {E A} (d : decoder E A) (l : bytes) (v : A) : Prop :=
  ∀ pre post, len (pre ++ l ++ post) < 2 ^ 64 →
    d (at_ pre (l ++ post)) = Ok (v, at_ (pre ++ l) post).

Definition parses {E A} (d : decoder E A) (R : bytes → A → Prop) : Prop :=
  ∀ pre rest v c', d (at_ pre rest) = Ok (v, c') →
    ∃ l post, rest = l ++ post ∧ c' = at_ (pre ++ l) post ∧ R l v.

Definition safe {E A} (d : decoder E A) : Prop := ∀ c, no_panic (d c).

Create HintDb codec discriminated.
#[export] Hint Constants Opaque : codec.

Section reads.
Context {E : Type} `{CursorErrors E}.

Lemma reads_ret {A} (a : A) : reads (E:=E) (dec_ret a) [] a.
Proof. intros pre post _. unfold dec_ret. by rewrite app_nil_r. Qed.

Lemma reads_bind {A B} (d : decoder E A) (k : A → decoder E B) l1 l2 a b :
  reads d l1 a → reads (k a) l2 b → reads (dec_bind d k) (l1 ++ l2) b.
Proof.
  intros Hd Hk pre post Hlen. unfold dec_bind.
  rewrite <- app_assoc in *. rewrite Hd by len_lia.
  rewrite Hk by len_lia. by rewrite <- app_assoc.
Qed.

Lemma reads_bind_nil {A B} (d : decoder E A) (k : A → decoder E B) l a b :
  reads d [] a → reads (k a) l b → reads (dec_bind d k) l b.
Proof. intros Hd Hk. by apply (reads_bind d k [] l a b). Qed.

Lemma reads_guard (b : bool) (e : E) : b = true → reads (dec_guard b e) [] tt.
Proof. intros -> pre post _. unfold dec_guard, dec_lift. by rewrite app_nil_r. Qed.

Lemma reads_lift {A} (r : result E A) a : r = Ok a → reads (dec_lift r) [] a.
Proof. intros -> pre post _. unfold dec_lift. by rewrite app_nil_r. Qed.

Lemma reads_take n l : len l = n → reads (take_bytes n) l l.
Proof.
  intros <- pre post Hlen. unfold take_bytes, checked_add_usize, checked_add_u64.
  cbn [cur_offset cur_bytes at_].
  destruct (len pre + len l <? 2 ^ 64) eqn:Hlt; [|apply Z.ltb_ge in Hlt; len_lia].
  simpl. rewrite (get_range_app pre l post) by done. simpl.
  unfold at_. by rewrite len_app, <- app_assoc.
Qed.

Lemma reads_word n z :
  0 ≤ z < 2 ^ (8 * Z.of_nat n) → reads (read_word n) (to_le n z) z.
Proof.
  intros Hz. unfold read_word. rewrite <- (app_nil_r (to_le n z)).
  eapply reads_bind; [apply reads_take, len_to_le|].
  rewrite from_le_to_le by done. apply reads_ret.
Qed.

Lemma reads_u8 z : in_u8 z → reads read_u8 (to_le 1 z) z.
Proof. apply (reads_word 1). Qed.
Lemma reads_u16 z : in_u16 z → reads read_u16 (to_le 2 z) z.
Proof. apply (reads_word 2). Qed.
Lemma reads_u32 z : in_u32 z → reads read_u32 (to_le 4 z) z.
Proof. apply (reads_word 4). Qed.
Lemma reads_u64 z : in_u64 z → reads read_u64 (to_le 8 z) z.
Proof. apply (reads_word 8). Qed.

Lemma reads_i32 z : in_i32 z → reads read_i32 (to_le 4 z) z.
Proof.
  intros Hz. unfold in_i32 in Hz. unfold read_i32. rewrite to_le_mod.
  rewrite <- (app_nil_r (to_le _ _)).
  assert (Hm : 0 ≤ z mod 2 ^ (8 * Z.of_nat 4) < 2 ^ 32) by (apply Z.mod_pos_bound; lia).
  eapply reads_bind; [by apply reads_u32|].
  replace (to_signed32 _) with z; [apply reads_ret|].
  unfold to_signed32. change (2 ^ (8 * Z.of_nat 4)) with (2 ^ 32) in *.
  destruct (z mod 2 ^ 32 <? 2 ^ 31) eqn:Hlt.
  - apply Z.ltb_lt in Hlt. destruct (Z_lt_le_dec z 0).
    + rewrite <- (Z_mod_plus_full z 1), Z.mod_small in Hlt; lia.
    + rewrite Z.mod_small; lia.
  - apply Z.ltb_ge in Hlt. destruct (Z_lt_le_dec z 0).
    + rewrite <- (Z_mod_plus_full z 1), Z.mod_small; lia.
    + rewrite Z.mod_small in Hlt; lia.
Qed.

Lemma reads_many {A} (d : decoder E A) (enc : A → bytes) xs :
  Forall (λ x, reads d (enc x) x) xs →
  reads (read_many (length xs) d) (concat (map enc xs)) xs.
Proof.
  induction 1 as [|x xs Hx Hxs IH]; simpl; [apply reads_ret|].
  eapply reads_bind; [exact Hx|]. rewrite <- (app_nil_r (concat _)).
  eapply reads_bind; [exact IH|]. apply reads_ret.
Qed.

Lemma reads_vec {A} (e : E) (d : decoder E A) enc xs :
  len xs < 2 ^ 64 → Forall (λ x, reads d (enc x) x) xs →
  reads (read_vec e (len xs) d) (concat (map enc xs)) xs.
Proof.
  intros Hlen Hxs. unfold read_vec. eapply reads_bind_nil.
  - apply reads_lift. unfold try_usize, try_u64.
    rewrite (proj2 (Z.ltb_lt (len xs) (2 ^ 64))) by lia. reflexivity.
  - cbv beta. rewrite to_nat_len. by apply reads_many.
Qed.
End reads.

(** ** Whole-input reads

    The same for the tail of a decoder, which ends at the end of the input and
    may test for it. *)
Definition reads_end {E A} (d : decoder E A) (l : bytes) (v : A) : Prop :=
  ∀ pre, len (pre ++ l) < 2 ^ 64 → d (at_ pre l) = Ok (v, at_ (pre ++ l) []).

Section reads_end.
Context {E : Type} `{CursorErrors E}.

Lemma reads_reads_end {A} (d : decoder E A) l v : reads d l v → reads_end d l v.
Proof.
  intros Hd pre Hlen. specialize (Hd pre []). rewrite app_nil_r in Hd. by apply Hd.
Qed.

Lemma reads_end_bind {A B} (d : decoder E A) (k : A → decoder E B) l1 l2 a b :
  reads d l1 a → reads_end (k a) l2 b → reads_end (dec_bind d k) (l1 ++ l2) b.
Proof.
  intros Hd Hk pre Hlen. unfold dec_bind. rewrite Hd by done.
  rewrite app_assoc in *. by apply Hk.
Qed.

Lemma reads_end_bind_nil {A B} (d : decoder E A) (k : A → decoder E B) l a b :
  reads d [] a → reads_end (k a) l b → reads_end (dec_bind d k) l b.
Proof. intros Hd Hk. by apply (reads_end_bind d k [] l a b). Qed.

Lemma reads_end_finished {B} (k : unit → decoder E B) (e : E) b :
  reads_end (k tt) [] b → reads_end (dec_bind (expect_finished e) k) [] b.
Proof.
  intros Hk pre Hlen. unfold dec_bind, expect_finished, is_finished. simpl.
  rewrite app_nil_r in *. rewrite Z.eqb_refl.
  specialize (Hk pre). rewrite app_nil_r in Hk. by apply Hk.
Qed.

Lemma run_decoder_reads {A} (d : decoder E A) l v :
  len l < 2 ^ 64 → reads_end d l v → run_decoder d l = Ok v.
Proof.
  intros Hlen Hd. unfold run_decoder. specialize (Hd []).
  change (at_ [] l) with (cursor_new l) in Hd. by rewrite Hd.
Qed.
End reads_end.

(** ** The converse direction *)
Section parses.
Context {E : Type} `{CursorErrors E}.

Lemma parses_ret {A} (a : A) : parses (E:=E) (dec_ret a) (λ l v, l = [] ∧ v = a).
Proof.
  intros pre rest v c' [= <- <-]. exists [], rest. by rewrite app_nil_r.
Qed.

Lemma parses_lift {A} (r : result E A) :
  parses (dec_lift r) (λ l v, l = [] ∧ r = Ok v).
Proof.
  intros pre rest v c'. unfold dec_lift. destruct r as [a| |]; [|done..].
  intros [= <- <-]. exists [], rest. by rewrite app_nil_r.
Qed.

Lemma parses_guard (b : bool) (e : E) :
  parses (dec_guard b e) (λ l _, l = [] ∧ b = true).
Proof.
  intros pre rest v c' Hd. apply parses_lift in Hd as (l & post & ? & ? & ? & Hb).
  exists l, post. split_and!; try done. by destruct b.
Qed.

Lemma parses_bind {A B} (d : decoder E A) (k : A → decoder E B) R1 R2 :
  parses d R1 → (∀ a, parses (k a) (R2 a)) →
  parses (dec_bind d k)
    (λ l b, ∃ l1 l2 a, l = l1 ++ l2 ∧ R1 l1 a ∧ R2 a l2 b).
Proof.
  intros Hd Hk pre rest v c'. unfold dec_bind.
  destruct (d (at_ pre rest)) as [[a c]| |] eqn:Ha; [|done..].
  apply Hd in Ha as (l1 & rest1 & -> & -> & HR1). intros Hb.
  apply Hk in Hb as (l2 & post & -> & -> & HR2).
  exists (l1 ++ l2), post. rewrite !app_assoc. naive_solver.
Qed.

Lemma parses_weaken {A} (d : decoder E A) (R R' : bytes → A → Prop) :
  parses d R → (∀ l v, R l v → R' l v) → parses d R'.
Proof.
  intros Hd HR pre rest v c' Hv. apply Hd in Hv as (l & post & ? & ? & ?).
  exists l, post. auto.
Qed.

Lemma parses_take n : parses (take_bytes n) (λ l v, l = v ∧ len v = n).
Proof.
  intros pre rest v c'. unfold take_bytes, checked_add_usize, checked_add_u64.
  cbn [cur_offset cur_bytes at_]. destruct (_ <? _); simpl; [|done].
  destruct (get_range _ _ _) as [bs|] eqn:Hr; simpl; [|done]. intros [= <- <-].
  pose proof (get_range_len _ _ _ _ Hr) as Hlen.
  apply get_range_Some in Hr as (Hb & Hle & Hbs).
  rewrite drop_len_app in Hbs. replace (len pre + n - len pre) with n in * by lia.
  exists bs, (drop (Z.to_nat n) rest). split_and!; [|unfold at_; f_equal|done|done].
  - rewrite Hbs. symmetry. apply take_drop.
  - rewrite Hbs at 1. by rewrite <- app_assoc, take_drop.
  - len_lia.
Qed.

Lemma parses_word n :
  parses (read_word n) (λ l v, l = to_le n v ∧ 0 ≤ v < 2 ^ (8 * Z.of_nat n)).
Proof.
  eapply parses_weaken.
  - eapply parses_bind; [apply parses_take|intros; apply parses_ret].
  - intros l v (l1 & l2 & a & -> & [-> Hlen] & -> & ->).
    rewrite app_nil_r. pose proof (from_le_bound a) as Hb. rewrite Hlen in Hb.
    split; [|done]. symmetry. apply to_le_from_le. unfold len in Hlen. lia.
Qed.

Lemma parses_u8 : parses read_u8 (λ l v, l = to_le 1 v ∧ in_u8 v).
Proof. apply (parses_word 1). Qed.
Lemma parses_u16 : parses read_u16 (λ l v, l = to_le 2 v ∧ in_u16 v).
Proof. apply (parses_word 2). Qed.
Lemma parses_u32 : parses read_u32 (λ l v, l = to_le 4 v ∧ in_u32 v).
Proof. apply (parses_word 4). Qed.
Lemma parses_u64 : parses read_u64 (λ l v, l = to_le 8 v ∧ in_u64 v).
Proof. apply (parses_word 8). Qed.

Lemma parses_i32 : parses read_i32 (λ l v, l = to_le 4 v ∧ in_i32 v).
Proof.
  eapply parses_weaken.
  - eapply parses_bind; [apply parses_u32|intros; apply parses_ret].
  - intros l v (l1 & l2 & w & -> & [-> Hw] & -> & ->). rewrite app_nil_r.
    unfold in_u32, in_i32, to_signed32 in *. split; [|destruct (Z.ltb_spec w (2 ^ 31)); lia].
    destruct (w <? 2 ^ 31); [done|]. rewrite (to_le_mod 4 (w - _)).
    change (2 ^ (8 * Z.of_nat 4)) with (2 ^ 32).
    replace (w - 2 ^ 32) with (w + (-1) * 2 ^ 32) by lia.
    by rewrite Z_mod_plus_full, Z.mod_small.
Qed.

Lemma parses_many {A} (d : decoder E A) (enc : A → bytes) (P : A → Prop) n :
  parses d (λ l v, l = enc v ∧ P v) →
  parses (read_many n d)
    (λ l vs, l = concat (map enc vs) ∧ length vs = n ∧ Forall P vs).
Proof.
  intros Hd. induction n as [|n IH]; simpl.
  - eapply parses_weaken; [apply parses_ret|]. by intros l v [-> ->].
  - eapply parses_weaken.
    + eapply parses_bind; [exact Hd|]. intros x.
      eapply parses_bind; [exact IH|]. intros xs. apply parses_ret.
    + intros l v (l1 & l2 & x & -> & [-> Hx] & l3 & l4 & xs & -> & (-> & <- & Hxs) & -> & ->).
      simpl. rewrite app_nil_r. auto.
Qed.

Lemma parses_vec {A} {e : E} (d : decoder E A) enc P n :
  0 ≤ n → parses d (λ l v, l = enc v ∧ P v) →
  parses (read_vec e n d) (λ l vs, l = concat (map enc vs) ∧ len vs = n ∧ Forall P vs).
Proof.
  intros Hn Hd. eapply parses_weaken.
  - unfold read_vec. eapply parses_bind; [apply parses_lift|]. intros m. by apply parses_many.
  - intros l vs (l1 & l2 & m & -> & [-> Hm] & -> & Hlen & Hall). split_and!; [done| |done].
    unfold try_usize, try_u64 in Hm. destruct (n <? 2 ^ 64); [|done]. injection Hm as ->.
    unfold len. lia.
Qed.

(** What the end-of-input test adds. *)
Lemma parses_finished {A} (d : decoder E A) R (e : E) bs v c :
  parses d R → d (cursor_new bs) = Ok (v, c) → is_finished c = true → R bs v.
Proof.
  intros Hd Hv Hf. change (cursor_new bs) with (at_ [] bs) in Hv.
  apply Hd in Hv as (l & post & -> & -> & HR). unfold is_finished in Hf. simpl in Hf.
  apply Z.eqb_eq in Hf. assert (Hp : len post = 0) by len_lia.
  apply len_zero_nil in Hp as ->. by rewrite app_nil_r.
Qed.
End parses.

(** ** Stepping through a decoder

    [parse_start H] opens a goal [parses d R]; [parse_step H] takes the first
    [dec_bind] off the hypothesis [H] that the decoder succeeded, with the
    [parses] lemma the hint base has for its head; [parse_done H] closes. *)
Section stepping.
Context {E : Type} `{CursorErrors E}.

Lemma parses_start {A} (d : decoder E A) (R : bytes → A → Prop) :
  (∀ pre rest v c', d (at_ (pre ++ []) rest) = Ok (v, c') →
     ∃ l post, rest = l ++ post ∧ c' = at_ (pre ++ l) post ∧ R l v) →
  parses d R.
Proof. intros Hd pre rest v c' Hv. apply Hd. by rewrite app_nil_r. Qed.

Lemma parses_step {A B} (d : decoder E A) (k : A → decoder E B) R pre acc rest v c' :
  parses d R → dec_bind d k (at_ (pre ++ acc) rest) = Ok (v, c') →
  ∃ l post a, rest = l ++ post ∧ R l a ∧
    k a (at_ (pre ++ (acc ++ l)) post) = Ok (v, c').
Proof.
  intros Hd. unfold dec_bind. destruct (d _) as [[a c]| |] eqn:Ha; [|done..].
  apply Hd in Ha as (l & post & -> & -> & HR). intros Hk.
  exists l, post, a. by rewrite app_assoc.
Qed.

Lemma step_lift {A B} (r : result E A) (k : A → decoder E B) c x :
  dec_bind (dec_lift r) k c = Ok x → ∃ a, r = Ok a ∧ k a c = Ok x.
Proof. unfold dec_bind, dec_lift. destruct r as [a| |]; [|done..]. eauto. Qed.

(** A step whose effect does not matter. *)
Lemma step_any {A B} (d : decoder E A) (k : A → decoder E B) c x :
  dec_bind d k c = Ok x → ∃ a c', k a c' = Ok x.
Proof. unfold dec_bind. destruct (d c) as [[a c']| |]; [|done..]. eauto. Qed.

Lemma step_guard {B} (b : bool) (e : E) (k : unit → decoder E B) c x :
  dec_bind (dec_guard b e) k c = Ok x → b = true ∧ k tt c = Ok x.
Proof. intros ([] & Hb & Hk)%step_lift. by destruct b. Qed.

Lemma step_finished {B} (k : unit → decoder E B) (e : E) pre post x :
  dec_bind (expect_finished e) k (at_ pre post) = Ok x →
  post = [] ∧ k tt (at_ pre post) = Ok x.
Proof.
  unfold dec_bind, expect_finished. destruct (is_finished _) eqn:Hf; [|done].
  unfold is_finished in Hf. apply Z.eqb_eq in Hf. cbn [cur_offset cur_bytes at_] in Hf.
  intros Hk. split; [|done]. apply len_zero_nil. len_lia.
Qed.

Lemma parses_step_ret {A} (a : A) pre acc rest v c' :
  dec_ret (E:=E) a (at_ (pre ++ acc) rest) = Ok (v, c') →
  v = a ∧ c' = at_ (pre ++ acc) rest.
Proof. by intros [= <- <-]. Qed.

Lemma reads_bind_last {A B} (d : decoder E A) (k : A → decoder E B) l a b :
  reads d l a → reads (k a) [] b → reads (dec_bind d k) l b.
Proof. intros Hd Hk. rewrite <- (app_nil_r l). by eapply reads_bind. Qed.

Lemma fold_left_append {A} (f : bytes → A → bytes) (g : A → bytes) xs out :
  (∀ out x, f out x = out ++ g x) → fold_left f xs out = out ++ concat (map g xs).
Proof.
  intros Hf. revert out. induction xs as [|x xs IH]; intros out; simpl.
  - by rewrite app_nil_r.
  - by rewrite IH, Hf, <- app_assoc.
Qed.

(** A loop that appends one checked block per element. *)
Lemma fold_result_append {E' A} (f : bytes → A → result E' bytes) (P : A → Prop)
    (g : A → bytes) :
  (∀ out x r, f out x = Ok r ↔ P x ∧ r = out ++ g x) →
  ∀ xs out r, fold_result f out xs = Ok r ↔ Forall P xs ∧ r = out ++ concat (map g xs).
Proof.
  intros Hf. induction xs as [|x xs IH]; intros out r; simpl.
  - rewrite app_nil_r. split; [by intros [= <-]|by intros [_ ->]].
  - rewrite Forall_cons. destruct (f out x) as [out'|e|] eqn:He.
    + apply Hf in He as [Hx ->]. rewrite IH, <- app_assoc. tauto.
    + split; [done|]. intros [[Hx _] _].
      by rewrite (proj2 (Hf out x _) (conj Hx eq_refl)) in He.
    + split; [done|]. intros [[Hx _] _].
      by rewrite (proj2 (Hf out x _) (conj Hx eq_refl)) in He.
Qed.

Lemma fold_left_push_u32 xs out :
  fold_left push_u32 xs out = out ++ concat (map (to_le 4) xs).
Proof. by apply fold_left_append. Qed.
Lemma fold_left_push_u64 xs out :
  fold_left push_u64 xs out = out ++ concat (map (to_le 8) xs).
Proof. by apply fold_left_append. Qed.
End stepping.

Create HintDb parses discriminated.
#[export] Hint Constants Opaque : parses.
#[export] Hint Resolve parses_u8 parses_u16 parses_u32 parses_u64 parses_i32 parses_take
  parses_guard parses_lift : parses.

Create HintDb reads discriminated.
#[export] Hint Constants Opaque : reads.
#[export] Hint Resolve reads_u8 reads_u16 reads_u32 reads_u64 reads_i32 : reads.

Ltac parse_start H :=
  apply parses_start; let pre := fresh "pre" in let rest := fresh "rest" in
  let v := fresh "v" in let c := fresh "c'" in intros pre rest v c H.

Ltac parse_step H :=
  eapply parses_step in H; [|solve [eauto with parses nocore]];
  let l := fresh "l" in let post := fresh "post" in let a := fresh "a" in
  let Hr := fresh "Hr" in
  destruct H as (l & post & a & -> & Hr & H); cbn beta in H, Hr.

Ltac parse_done H :=
  apply parses_step_ret in H as [-> ->];
  eexists _, _; refine (conj _ (conj eq_refl _)); [rewrite <- ?app_assoc; reflexivity|].

(** Discharge [reads d l v] for a decoder built from the combinators, [l]
    being given as right-nested blocks. *)
Ltac read_leaf :=
  first
    [ apply reads_guard; first [reflexivity | apply bool_decide_eq_true; reflexivity | assumption]
    | apply reads_take; first [reflexivity | assumption | len_lia]
    | solve [eauto with reads nocore] ].
Ltac solve_reads :=
  repeat first
    [ apply reads_ret
    | eapply reads_bind_nil; [read_leaf|]; cbv beta
    | eapply reads_bind; [read_leaf|]; cbv beta
    | eapply reads_bind_last; [read_leaf|]; cbv beta ].

(** ** Absence of panics *)
Section safe.
Context {E : Type} `{CursorErrors E}.

Lemma safe_ret {A} (a : A) : safe (E:=E) (dec_ret a).
Proof. by intros c. Qed.
Lemma safe_bind {A B} (d : decoder E A) (k : A → decoder E B) :
  safe d → (∀ a, safe (k a)) → safe (dec_bind d k).
Proof.
  intros Hd Hk c. unfold dec_bind. specialize (Hd c).
  destruct (d c) as [[a c']| |]; [apply Hk|done|done].
Qed.
Lemma safe_lift {A} (r : result E A) : no_panic r → safe (dec_lift r).
Proof. intros Hr c. unfold dec_lift. by destruct r. Qed.
Lemma safe_guard (b : bool) (e : E) : safe (dec_guard b e).
Proof. apply safe_lift. by destruct b. Qed.
Lemma safe_take n : safe (take_bytes n).
Proof.
  intros c. unfold take_bytes. destruct (checked_add_usize _ _); simpl; [|done].
  by destruct (get_range _ _ _).
Qed.
Lemma safe_word n : safe (read_word n).
Proof. apply safe_bind; [apply safe_take|intros; apply safe_ret]. Qed.
Lemma safe_u8 : safe read_u8. Proof. apply safe_word. Qed.
Lemma safe_u16 : safe read_u16. Proof. apply safe_word. Qed.
Lemma safe_u32 : safe read_u32. Proof. apply safe_word. Qed.
Lemma safe_u64 : safe read_u64. Proof. apply safe_word. Qed.
Lemma safe_i32 : safe read_i32.
Proof. apply safe_bind; [apply safe_u32|intros; apply safe_ret]. Qed.
Lemma safe_many {A} n (d : decoder E A) : safe d → safe (read_many n d).
Proof.
  intros Hd. induction n as [|n IH]; simpl; [apply safe_ret|].
  apply safe_bind; [done|]. intros x. apply safe_bind; [done|]. intros. apply safe_ret.
Qed.
Lemma safe_vec {A} (e : E) n (d : decoder E A) : safe d → safe (read_vec e n d).
Proof.
  intros Hd. apply safe_bind; [apply safe_lift, ok_or_no_panic|]. intros. by apply safe_many.
Qed.
Lemma safe_finished (e : E) : safe (expect_finished e).
Proof. intros c. unfold expect_finished. by destruct (is_finished c). Qed.
Lemma safe_if {A} (b : bool) (d1 d2 : decoder E A) :
  safe d1 → safe d2 → safe (if b then d1 else d2).
Proof. by destruct b. Qed.
Lemma safe_run {A} (d : decoder E A) bs : safe d → no_panic (run_decoder d bs).
Proof.
  intros Hd. unfold run_decoder. specialize (Hd (cursor_new bs)).
  by destruct (d (cursor_new bs)) as [[]| |].
Qed.
End safe.

#[export] Hint Resolve safe_ret safe_bind safe_guard safe_take safe_u8 safe_u16
  safe_u32 safe_u64 safe_i32 safe_many safe_finished safe_if : codec.

(** Discharge [safe d] for a decoder built from the combinators. *)
Ltac solve_safe :=
  repeat first
    [ progress intros
    | apply safe_bind | apply safe_vec | apply safe_many | apply safe_if
    | solve [eauto with codec nocore]
    | apply safe_lift; solve [repeat np_step]
    | case_match ].

(** Simplify the facts [parse_step] left about the values read; [tac] handles
    the decoders particular to a file. *)
Ltac parse_facts tac :=
  repeat match goal with
  | Hr : _ = _ ∧ _ |- _ => destruct Hr
  | Hr : ?l = ?r |- _ => is_var l; subst l
  | Hr : bytes_eqb _ _ = true |- _ => apply bool_decide_eq_true in Hr
  | Hr : (_ =? _) = true |- _ => apply Z.eqb_eq in Hr
  | Hr : (_ && _) = true |- _ => apply andb_true_iff in Hr as [? ?]
  | Hr : (_ <=? _) = true |- _ => apply Z.leb_le in Hr
  | Hr : ok_or (from_utf8 _) _ = Ok _ |- _ => apply ok_or_Ok, from_utf8_Some in Hr as [? ?]
  | Hr : ok_or (try_usize _) _ = Ok _ |- _ => apply ok_or_try_u64 in Hr as [? ?]
  | _ => progress tac
  end; subst.
