(* ===== verification/Core.v ===== *)
(** The vocabulary shared by all crates: src/crates/ntd-core/src/lib.rs. *)
From S2P Require Import Prelude.

Inductive ReasoningBudget := Reflex | Standard | Deep | Recovery.

Inductive SideEffectClass := ReadOnly | Reversible | ExternalWrite | Irreversible.

#[export] Instance SideEffectClass_eq_dec : EqDecision SideEffectClass.
Proof. solve_decision. Defined.
#[export] Instance ReasoningBudget_eq_dec : EqDecision ReasoningBudget.
Proof. solve_decision. Defined.

Record Intent := mkIntent {
  objective : string;
  completion_criteria : list string;
  max_steps : Z;
}.

(** [Intent::new]: execution is bounded by default. *)
Definition Intent_new (objective : string) : Intent :=
  {| objective := objective; completion_criteria := []; max_steps := 32 |}.

(** The one-field struct around a [String]. *)
Abbreviation CapabilityId := string.

Record ActionNode := mkActionNode {
  an_id : Z;
  an_capability : CapabilityId;
  an_side_effect : SideEffectClass;
  an_verification_required : bool;
}.

Record TaskGraph := mkTaskGraph { tg_actions : list ActionNode }.

Definition TaskGraph_is_empty (g : TaskGraph) : bool :=
  match tg_actions g with [] => true | _ => false end.

#[export] Instance ActionNode_eq_dec : EqDecision ActionNode.
Proof. solve_decision. Defined.
#[export] Instance TaskGraph_eq_dec : EqDecision TaskGraph.
Proof. solve_decision. Defined.
