(* ===== verification/Ir.v ===== *)
(** The intermediate representation and its structural validator:
    src/crates/ntd-ir/src/lib.rs.

    [Graph_validate] is the translation of [Graph::validate]; [well_formed] is
    what it is for: unique node ids, single assignment of every value, every use
    preceded by a definition.  [Graph_validate_sound_complete] proves that the
    validator decides it, [Graph_validate_error] that each error it reports is
    a true one. *)
From S2P Require Import Prelude.

Definition IR_MAJOR : Z := 0.
Definition IR_MINOR : Z := 4.

Record IrVersion := mkIrVersion { ir_major : Z; ir_minor : Z }.

Definition IrVersion_CURRENT : IrVersion := mkIrVersion IR_MAJOR IR_MINOR.

Definition IrVersion_can_read (self other : IrVersion) : bool :=
  (ir_major self =? ir_major other) && (ir_minor other <=? ir_minor self).

(** [NodeId] and [ValueId] are one-field structs around a [u32]. *)
Abbreviation NodeId := Z.
Abbreviation ValueId := Z.

Inductive DType := F32 | F16 | Bf16 | I8 | U8 | I32 | I64 | Bool_.

Inductive ValueType :=
| Scalar (dtype : DType)
| Tensor (dtype : DType) (rank : Z)
| Bytes
| Handle.

Record ValueDecl := mkValueDecl { vd_id : ValueId; vd_ty : ValueType }.

Inductive TensorOp :=
| Add | Mul | MatMul | QuantizedMatMul | RmsNorm | Softmax | Gather
| RotaryPosition | CausalAttention | Silu | Reshape | Transpose | PositionIds.

Inductive StateOp := Read | Write | Checkpoint.
Inductive MemoryOp := Retrieve | Store | Forget.
Inductive ControlOp := Select | Merge | Barrier.
Inductive ToolOp := Invoke (capability : string) | Observe | Verify.

Inductive OpKind :=
| OpTensor (op : TensorOp)
| OpState (op : StateOp)
| OpMemory (op : MemoryOp)
| OpControl (op : ControlOp)
| OpTool (op : ToolOp).

Record Node := mkNode {
  n_id : NodeId;
  n_op : OpKind;
  n_inputs : list ValueId;
  n_outputs : list ValueDecl;
}.

Record Graph := mkGraph {
  g_version : IrVersion;
  g_inputs : list ValueDecl;
  g_outputs : list ValueId;
  g_nodes : list Node;
}.

Inductive ValidationError :=
| UnsupportedVersion (v : IrVersion)
| DuplicateNodeId (n : NodeId)
| DuplicateValue (v : ValueId)
| MissingInput (node : NodeId) (value : ValueId)
| MissingGraphOutput (v : ValueId).

#[export] Instance IrVersion_eq_dec : EqDecision IrVersion.
Proof. solve_decision. Defined.
#[export] Instance DType_eq_dec : EqDecision DType.
Proof. solve_decision. Defined.
#[export] Instance ValueType_eq_dec : EqDecision ValueType.
Proof. solve_decision. Defined.
#[export] Instance ValueDecl_eq_dec : EqDecision ValueDecl.
Proof. solve_decision. Defined.

(** ** The validator *)

(** [if !values.insert(decl.id) { return Err(DuplicateValue(decl.id)) }] *)
Definition insert_value (values : gset Z) (decl : ValueDecl)
  : result ValidationError (gset Z) :=
  if decide (vd_id decl ∈ values) then Err (DuplicateValue (vd_id decl))
  else Ok ({[vd_id decl]} ∪ values).

Definition check_node_input (values : gset Z) (node : NodeId) (input : ValueId)
  : result ValidationError unit :=
  if decide (input ∈ values) then Ok tt else Err (MissingInput node input).

(** One iteration of the loop over [self.nodes], on the pair
    [(node_ids, values)]. *)
Definition validate_node (st : gset Z * gset Z) (node : Node)
  : result ValidationError (gset Z * gset Z) :=
  let '(node_ids, values) := st in
  if decide (n_id node ∈ node_ids) then Err (DuplicateNodeId (n_id node))
  else
    let? _ := check_all (check_node_input values (n_id node)) (n_inputs node) in
    let? values' := fold_result insert_value values (n_outputs node) in
    Ok ({[n_id node]} ∪ node_ids, values').

Definition check_graph_output (values : gset Z) (output : ValueId)
  : result ValidationError unit :=
  if decide (output ∈ values) then Ok tt else Err (MissingGraphOutput output).

Definition Graph_validate (g : Graph) : result ValidationError unit :=
  if negb (IrVersion_can_read IrVersion_CURRENT (g_version g))
  then Err (UnsupportedVersion (g_version g))
  else
    let? values := fold_result insert_value ∅ (g_inputs g) in
    let? ' (_, values') := fold_result validate_node (∅, values) (g_nodes g) in
    check_all (check_graph_output values') (g_outputs g).

(** ** What the validator is for *)
Definition decl_ids (ds : list ValueDecl) : list Z := map vd_id ds.

(** The values defined by the inputs and the first [i] nodes. *)
Definition defs_upto (g : Graph) (i : nat) : list Z :=
  decl_ids (g_inputs g) ++ concat (map (decl_ids ∘ n_outputs) (take i (g_nodes g))).
Definition all_defs (g : Graph) : list Z :=
  decl_ids (g_inputs g) ++ concat (map (decl_ids ∘ n_outputs) (g_nodes g)).

Record well_formed (g : Graph) : Prop := {
  wf_version : IrVersion_can_read IrVersion_CURRENT (g_version g) = true;
  wf_node_ids : NoDup (map n_id (g_nodes g));
  wf_single_assignment : NoDup (all_defs g);
  wf_defined_before_use :
    ∀ i node v, g_nodes g !! i = Some node → v ∈ n_inputs node → v ∈ defs_upto g i;
  wf_outputs_defined : ∀ v, v ∈ g_outputs g → v ∈ all_defs g;
}.

(** The truth of a reported error. *)
Definition error_holds (g : Graph) (e : ValidationError) : Prop :=
  match e with
  | UnsupportedVersion v =>
      v = g_version g ∧ IrVersion_can_read IrVersion_CURRENT v = false
  | DuplicateNodeId n => occurs_twice n (map n_id (g_nodes g))
  | DuplicateValue v => occurs_twice v (all_defs g)
  | MissingInput n v =>
      ∃ i node, g_nodes g !! i = Some node ∧ n_id node = n ∧
        v ∈ n_inputs node ∧ v ∉ defs_upto g i
  | MissingGraphOutput v => v ∈ g_outputs g ∧ v ∉ all_defs g
  end.

(** ** Correctness of the validator *)
Lemma insert_values_Ok (ds : list ValueDecl) (pre : list Z) vs' :
  fold_result insert_value (list_to_set pre) ds = Ok vs' ↔
  NoDup (decl_ids ds) ∧ (∀ v, v ∈ decl_ids ds → v ∉ pre) ∧
  vs' = list_to_set (pre ++ decl_ids ds).
Proof.
  revert pre. induction ds as [|d ds IH]; intros pre; simpl.
  - rewrite app_nil_r. split.
    + intros [= <-]. split_and!; [constructor|set_solver|done].
    + by intros (_ & _ & ->).
  - unfold insert_value at 1. rewrite NoDup_cons.
    case_decide as Hin; [set_solver|].
    replace ({[vd_id d]} ∪ list_to_set pre : gset Z)
      with (list_to_set (pre ++ [vd_id d]) : gset Z) by set_solver.
    rewrite IH, <- app_assoc. simpl. set_solver.
Qed.

Lemma insert_values_Err (ds : list ValueDecl) (pre : list Z) e :
  fold_result insert_value (list_to_set pre) ds = Err e →
  ∃ v, e = DuplicateValue v ∧ occurs_twice v (pre ++ decl_ids ds).
Proof.
  revert pre. induction ds as [|d ds IH]; intros pre; simpl; [done|].
  unfold insert_value at 1.
  case_decide as Hin; [apply elem_of_list_to_set in Hin|].
  - intros [= <-]. exists (vd_id d). split; [done|]. apply occurs_twice_app; [done|left].
  - replace ({[vd_id d]} ∪ list_to_set pre : gset Z)
      with (list_to_set (pre ++ [vd_id d]) : gset Z) by set_solver.
    intros (v & -> & Hv)%IH. exists v. by rewrite <- app_assoc in Hv.
Qed.

Lemma insert_values_no_panic ds vs : no_panic (fold_result insert_value vs ds).
Proof.
  revert vs. induction ds as [|d ds IH]; intros vs; simpl; [done|].
  unfold insert_value at 1. case_decide; [done|apply IH].
Qed.

Lemma check_node_inputs_Ok (pre : list Z) n inputs :
  check_all (check_node_input (list_to_set pre) n) inputs = Ok tt ↔
  ∀ v, v ∈ inputs → v ∈ pre.
Proof.
  rewrite check_all_Ok, Forall_forall.
  split; intros Hall v Hv; specialize (Hall v Hv); unfold check_node_input in *.
  - by case_decide as Hin; [apply elem_of_list_to_set in Hin|].
  - by rewrite decide_True by (by apply elem_of_list_to_set).
Qed.

Lemma check_all_Err {E A} (f : A → result E unit) l e :
  check_all f l = Err e → ∃ x, x ∈ l ∧ f x = Err e.
Proof.
  induction l as [|x l IH]; simpl; [done|].
  destruct (f x) as [[]|e'|] eqn:Hx; [|intros [= <-]|done].
  - intros (y & ? & ?)%IH. exists y. split; [by right|done].
  - exists x. split; [left|done].
Qed.

Section validator.
Variable g : Graph.

(** The loop state after the first [i] nodes. *)
Definition state_at (i : nat) : gset Z * gset Z :=
  (list_to_set (map n_id (take i (g_nodes g))), list_to_set (defs_upto g i)).

Definition node_ok (i : nat) (node : Node) : Prop :=
  n_id node ∉ map n_id (take i (g_nodes g)) ∧
  (∀ v, v ∈ n_inputs node → v ∈ defs_upto g i) ∧
  NoDup (decl_ids (n_outputs node)) ∧
  (∀ v, v ∈ decl_ids (n_outputs node) → v ∉ defs_upto g i).

Lemma defs_upto_S i node :
  g_nodes g !! i = Some node →
  defs_upto g (S i) = defs_upto g i ++ decl_ids (n_outputs node).
Proof.
  intros Hi. unfold defs_upto. rewrite (take_S_r _ _ node) by done.
  by rewrite map_app, concat_app, app_assoc; simpl; rewrite app_nil_r.
Qed.

Lemma defs_upto_all : defs_upto g (length (g_nodes g)) = all_defs g.
Proof. unfold defs_upto, all_defs. by rewrite firstn_all. Qed.

Lemma defs_upto_twice i v :
  (i ≤ length (g_nodes g))%nat →
  occurs_twice v (defs_upto g i) → occurs_twice v (all_defs g).
Proof.
  intros Hi Hv. unfold defs_upto, all_defs in *.
  rewrite <- (take_drop i (g_nodes g)), map_app, concat_app, app_assoc.
  by apply occurs_twice_app_l.
Qed.

Lemma validate_node_Ok i node st' :
  g_nodes g !! i = Some node →
  validate_node (state_at i) node = Ok st' ↔ node_ok i node ∧ st' = state_at (S i).
Proof.
  intros Hi. unfold validate_node, state_at, node_ok.
  case_decide as Hin; [apply elem_of_list_to_set in Hin; naive_solver|].
  rewrite elem_of_list_to_set in Hin. rewrite (defs_upto_S i node), (take_S_r _ _ node), map_app by done. simpl.
  replace ({[n_id node]} ∪ list_to_set (map n_id (take i (g_nodes g))) : gset Z)
    with (list_to_set (map n_id (take i (g_nodes g)) ++ [n_id node]) : gset Z)
    by set_solver.
  destruct (check_all _ _) as [[]|e|] eqn:Hc.
  - pose proof (proj1 (check_node_inputs_Ok _ _ _) Hc) as Huse.
    destruct (fold_result _ _ _) as [vs| |] eqn:Hf.
    + apply insert_values_Ok in Hf as (? & ? & ->).
      split; [intros [= <-]; done|by intros [_ ->]].
    + split; [done|]. intros ((_ & _ & Hnd & Hdis) & _).
      assert (Hok := proj2 (insert_values_Ok _ (defs_upto g i) _)
        (conj Hnd (conj Hdis eq_refl))). congruence.
    + by apply insert_values_no_panic in Hf.
  - split; [done|]. intros ((_ & Huse & _) & _).
    pose proof (proj2 (check_node_inputs_Ok _ (n_id node) _) Huse). congruence.
  - split; [done|]. intros ((_ & Huse & _) & _).
    pose proof (proj2 (check_node_inputs_Ok _ (n_id node) _) Huse). congruence.
Qed.

Lemma validate_node_Err i node e :
  g_nodes g !! i = Some node →
  validate_node (state_at i) node = Err e → error_holds g e.
Proof.
  intros Hi. unfold validate_node, state_at.
  pose proof (lookup_lt_Some _ _ _ Hi) as Hlt.
  case_decide as Hin; [apply elem_of_list_to_set in Hin|].
  - intros [= <-]. simpl. rewrite <- (take_drop i (g_nodes g)), map_app.
    apply occurs_twice_app; [done|]. rewrite (drop_S _ node) by done. left.
  - destruct (check_all _ _) as [[]|e'|] eqn:Hc; [|intros [= <-]|done].
    + destruct (fold_result _ _ _) as [vs|e'|] eqn:Hf; [done|intros [= <-]|done].
      apply insert_values_Err in Hf as (v & -> & Hv).
      rewrite <- (defs_upto_S i node) in Hv by done.
      by eapply defs_upto_twice in Hv; [|lia].
    + apply check_all_Err in Hc as (v & Hv & Hc). unfold check_node_input in Hc.
      case_decide as Hin'; [done|]. simplify_eq. exists i, node.
      split_and!; try done. by rewrite elem_of_list_to_set in Hin'.
Qed.

Lemma validate_nodes_Ok i st :
  (i ≤ length (g_nodes g))%nat →
  fold_result validate_node (state_at i) (drop i (g_nodes g)) = Ok st ↔
  (∀ j node, (i ≤ j)%nat → g_nodes g !! j = Some node → node_ok j node) ∧
  st = state_at (length (g_nodes g)).
Proof.
  remember (length (g_nodes g) - i)%nat as n eqn:Hn. revert i Hn.
  induction n as [|n IH]; intros i Hn Hi.
  - assert (i = length (g_nodes g)) as -> by lia. rewrite drop_all. simpl.
    split; [|by intros [_ ->]]. intros [= <-]. split; [|done].
    intros j node Hj ?%lookup_lt_Some. lia.
  - destruct (lookup_lt_is_Some_2 (g_nodes g) i) as [node Hnode]; [lia|].
    rewrite (drop_S _ node) by done. cbn [fold_result].
    destruct (validate_node (state_at i) node) as [st1|e|] eqn:Hv.
    + apply validate_node_Ok in Hv as [Hok ->]; [|done].
      rewrite IH by lia. apply and_iff_compat_r. split; intros Hall j nd Hj Hnd.
      * destruct (decide (j = i)) as [->|]; [by simplify_eq|]. apply Hall; [lia|done].
      * apply Hall; [lia|done].
    + split; [done|]. intros [Hall _].
      assert (node_ok i node) by (by apply Hall).
      assert (Hok := proj2 (validate_node_Ok i node _ Hnode) (conj H eq_refl)).
      congruence.
    + split; [done|]. intros [Hall _].
      assert (node_ok i node) by (by apply Hall).
      assert (Hok := proj2 (validate_node_Ok i node _ Hnode) (conj H eq_refl)).
      congruence.
Qed.
End validator.

(** [node_ok] for every node is the node part of [well_formed]. *)
Lemma nodes_ok_well_formed g :
  NoDup (decl_ids (g_inputs g)) ∧
  (∀ j node, g_nodes g !! j = Some node → node_ok g j node) ↔
  NoDup (map n_id (g_nodes g)) ∧ NoDup (all_defs g) ∧
  (∀ i node v, g_nodes g !! i = Some node → v ∈ n_inputs node → v ∈ defs_upto g i).
Proof.
  rewrite (NoDup_take_lookup (map n_id (g_nodes g))).
  unfold all_defs. rewrite NoDup_app_concat. unfold node_ok, defs_upto.
  split.
  - intros [Hin Hall]. split_and!; [|done|..].
    + intros i x. rewrite list_lookup_fmap, <- fmap_take.
      intros (node & Hnode & ->)%fmap_Some. by apply (Hall i).
    + intros i k. rewrite list_lookup_fmap, <- fmap_take.
      intros (node & Hnode & ->)%fmap_Some. by destruct (Hall i node Hnode) as (_ & _ & ? & ?).
    + intros i node v Hnode Hv. destruct (Hall i node Hnode) as (_ & Huse & _). auto.
  - intros (Hids & [Hin Hdefs] & Huse). split; [done|]. intros j node Hnode.
    specialize (Hids j (n_id node)). specialize (Hdefs j (decl_ids (n_outputs node))).
    rewrite list_lookup_fmap, Hnode, <- fmap_take in Hids.
    rewrite list_lookup_fmap, Hnode, <- fmap_take in Hdefs.
    destruct Hdefs as [Hnd Hdis]; [done|].
    split_and!; [by apply Hids|by eauto|done|done].
Qed.

Lemma check_graph_outputs_Ok (pre : list Z) outputs :
  check_all (check_graph_output (list_to_set pre)) outputs = Ok tt ↔
  ∀ v, v ∈ outputs → v ∈ pre.
Proof.
  rewrite check_all_Ok, Forall_forall.
  split; intros Hall v Hv; specialize (Hall v Hv); unfold check_graph_output in *.
  - by case_decide as Hin; [apply elem_of_list_to_set in Hin|].
  - by rewrite decide_True by (by apply elem_of_list_to_set).
Qed.

Lemma validate_nodes_no_panic st ns : no_panic (fold_result validate_node st ns).
Proof.
  revert st. induction ns as [|n ns IH]; intros [ids vs]; simpl; [done|].
  case_decide; [done|].
  pose proof (check_all_no_panic (check_node_input vs (n_id n)) (n_inputs n)) as Hc.
  destruct (check_all _ _) as [[]| |]; [|done|].
  - pose proof (insert_values_no_panic (n_outputs n) vs) as Hf.
    destruct (fold_result insert_value _ _); [apply IH|done|done].
  - exfalso. apply Hc; [|done]. intros v _. unfold check_node_input. by case_decide.
Qed.

Lemma Graph_validate_no_panic g : no_panic (Graph_validate g).
Proof.
  unfold Graph_validate. destruct (negb _); [done|].
  pose proof (insert_values_no_panic (g_inputs g) ∅) as Hi.
  destruct (fold_result insert_value _ _) as [vs| |]; [|done|done].
  pose proof (validate_nodes_no_panic (∅, vs) (g_nodes g)) as Hn.
  destruct (fold_result validate_node _ _) as [[ids vs']| |]; [|done|done].
  apply check_all_no_panic. intros v _. unfold check_graph_output. by case_decide.
Qed.

Lemma validate_nodes_Err g i e :
  (i ≤ length (g_nodes g))%nat →
  fold_result validate_node (state_at g i) (drop i (g_nodes g)) = Err e →
  error_holds g e.
Proof.
  remember (length (g_nodes g) - i)%nat as n eqn:Hn. revert i Hn.
  induction n as [|n IH]; intros i Hn Hi.
  - assert (i = length (g_nodes g)) as -> by lia. by rewrite drop_all.
  - destruct (lookup_lt_is_Some_2 (g_nodes g) i) as [node Hnode]; [lia|].
    rewrite (drop_S _ node) by done. cbn [fold_result].
    destruct (validate_node (state_at g i) node) as [st1|e'|] eqn:Hv; [|intros [= <-]|done].
    + apply validate_node_Ok in Hv as [_ ->]; [|done]. apply IH; lia.
    + by eapply validate_node_Err.
Qed.

Lemma state_at_0 g :
  (∅, list_to_set (decl_ids (g_inputs g))) = state_at g 0.
Proof. unfold state_at, defs_upto. simpl. by rewrite app_nil_r. Qed.

(** The validator accepts a graph exactly when it is well formed. *)
Lemma Graph_validate_Ok_iff g : Graph_validate g = Ok tt ↔ well_formed g.
Proof.
  assert (Hwf : well_formed g ↔
    IrVersion_can_read IrVersion_CURRENT (g_version g) = true ∧
    (NoDup (decl_ids (g_inputs g)) ∧
     ∀ j node, g_nodes g !! j = Some node → node_ok g j node) ∧
    ∀ v, v ∈ g_outputs g → v ∈ all_defs g).
  { rewrite nodes_ok_well_formed. split; [intros []; tauto|].
    intros (? & (? & ? & ?) & ?). by constructor. }
  rewrite Hwf. unfold Graph_validate. destruct (IrVersion_can_read _ _); simpl; [|naive_solver].
  pose proof (insert_values_Ok (g_inputs g) []) as Hins. simpl in Hins.
  destruct (fold_result insert_value ∅ (g_inputs g)) as [vs|e|] eqn:Hf.
  - destruct (proj1 (Hins vs) eq_refl) as (Hnd & _ & ->). rewrite state_at_0.
    pose proof (λ st, validate_nodes_Ok g 0 st ltac:(lia)) as Hn. rewrite drop_0 in Hn.
    destruct (fold_result validate_node _ _) as [[ids vs']|e|] eqn:Hv.
    + destruct (proj1 (Hn _) eq_refl) as [Hall [= _ ->]].
      rewrite defs_upto_all, check_graph_outputs_Ok.
      split; [|tauto]. intros. split_and!; try done. intros. apply Hall; [lia|done].
    + split; [done|]. intros (_ & [_ Hall] & _).
      discriminate (proj2 (Hn (state_at g (length (g_nodes g))))). auto.
    + by apply validate_nodes_no_panic in Hv.
  - split; [done|]. intros (_ & [Hnd _] & _).
    discriminate (proj2 (Hins (list_to_set (decl_ids (g_inputs g))))).
    split_and!; [done|set_solver|done].
  - by apply insert_values_no_panic in Hf.
Qed.

(** C13: Graph::validate accepts a graph exactly when its version is readable, node ids
    and value ids are distinct, every node input is defined before the node and every output
    is defined; it never panics. *)
Theorem Graph_validate_sound_complete g :
  (Graph_validate g = Ok tt ↔ well_formed g) ∧ Graph_validate g ≠ Panic.
Proof. split; [apply Graph_validate_Ok_iff|apply Graph_validate_no_panic]. Qed.

(** The error Graph::validate reports is true of the graph: the id it names is
    repeated, or the value it names is missing where it says. *)
Theorem Graph_validate_error g e : Graph_validate g = Err e → error_holds g e.
Proof.
  unfold Graph_validate. destruct (IrVersion_can_read _ _) eqn:Hver; simpl.
  - destruct (fold_result insert_value ∅ (g_inputs g)) as [vs|e'|] eqn:Hf;
      [|intros [= <-]|done].
    + apply (insert_values_Ok (g_inputs g) []) in Hf as (_ & _ & ->).
      simpl. rewrite state_at_0.
      destruct (fold_result validate_node _ _) as [[ids vs']|e'|] eqn:Hv;
        [|intros [= <-]|done].
      * rewrite <- (drop_0 (g_nodes g)) in Hv.
        apply validate_nodes_Ok in Hv as [_ [= _ ->]]; [|lia].
        intros (v & Hv & Hc)%check_all_Err. unfold check_graph_output in Hc.
        case_decide as Hin; [done|]. simplify_eq. split; [done|].
        by rewrite defs_upto_all, elem_of_list_to_set in Hin.
      * rewrite <- (drop_0 (g_nodes g)) in Hv. eapply validate_nodes_Err; [|done]. lia.
    + apply (insert_values_Err (g_inputs g) []) in Hf as (v & -> & Hv).
      simpl. by apply occurs_twice_app_l.
  - by intros [= <-].
Qed.

(** ** Concrete graphs *)
Definition sample_ir_graph : Graph :=
  mkGraph IrVersion_CURRENT [mkValueDecl 9 (Tensor I8 2)] [9; 11]
    [mkNode 4 (OpTool (Invoke "web.search")) [9] [mkValueDecl 11 (Tensor F32 0)]].
Definition dangling_ir_graph : Graph :=
  mkGraph IrVersion_CURRENT [] [] [mkNode 4 (OpTool Observe) [9] []].

Lemma Graph_validate_error_witness :
  Graph_validate dangling_ir_graph = Err (MissingInput 4 9) ∧
  error_holds dangling_ir_graph (MissingInput 4 9).
Proof.
  assert (Graph_validate dangling_ir_graph = Err (MissingInput 4 9)) as H
    by (vm_compute; reflexivity).
  split; [exact H|]. exact (Graph_validate_error _ _ H).
Defined.
