(* ===== verification/Hash.v ===== *)
(** SHA-256: src/crates/ntd-capsule/src/hash.rs.

    The padding loop, the in-place message schedule and the compression rounds
    are translated as the source writes them, words being [Z] values below
    2^32.  [sha256_pad_spec] gives the padded message in closed form (and with
    it the termination of the loop), [schedule_recurrence] shows that the array
    computed in place satisfies the recurrence of FIPS 180-4, and the two test
    vectors of the source are evaluated at the end. *)
From S2P Require Import Prelude.

Definition INITIAL : list Z :=
  0x6a09e667 :: 0xbb67ae85 :: 0x3c6ef372 :: 0xa54ff53a ::
  0x510e527f :: 0x9b05688c :: 0x1f83d9ab :: 0x5be0cd19 :: [].

Definition K : list Z :=
  0x428a2f98 :: 0x71374491 :: 0xb5c0fbcf :: 0xe9b5dba5 :: 0x3956c25b :: 0x59f111f1 ::
  0x923f82a4 :: 0xab1c5ed5 :: 0xd807aa98 :: 0x12835b01 :: 0x243185be :: 0x550c7dc3 ::
  0x72be5d74 :: 0x80deb1fe :: 0x9bdc06a7 :: 0xc19bf174 :: 0xe49b69c1 :: 0xefbe4786 ::
  0x0fc19dc6 :: 0x240ca1cc :: 0x2de92c6f :: 0x4a7484aa :: 0x5cb0a9dc :: 0x76f988da ::
  0x983e5152 :: 0xa831c66d :: 0xb00327c8 :: 0xbf597fc7 :: 0xc6e00bf3 :: 0xd5a79147 ::
  0x06ca6351 :: 0x14292967 :: 0x27b70a85 :: 0x2e1b2138 :: 0x4d2c6dfc :: 0x53380d13 ::
  0x650a7354 :: 0x766a0abb :: 0x81c2c92e :: 0x92722c85 :: 0xa2bfe8a1 :: 0xa81a664b ::
  0xc24b8b70 :: 0xc76c51a3 :: 0xd192e819 :: 0xd6990624 :: 0xf40e3585 :: 0x106aa070 ::
  0x19a4c116 :: 0x1e376c08 :: 0x2748774c :: 0x34b0bcb5 :: 0x391c0cb3 :: 0x4ed8aa4a ::
  0x5b9cca4f :: 0x682e6ff3 :: 0x748f82ee :: 0x78a5636f :: 0x84c87814 :: 0x8cc70208 ::
  0x90befffa :: 0xa4506ceb :: 0xbef9a3f7 :: 0xc67178f2 :: [].

(** ** 32-bit words *)
Definition wrapping_add32 (x y : Z) : Z := (x + y) mod 2 ^ 32.
Definition not32 (x : Z) : Z := Z.lxor x 0xffffffff.
Definition rotate_right (x n : Z) : Z :=
  Z.lor (Z.shiftr x n) (Z.land (Z.shiftl x (32 - n)) 0xffffffff).

(** Big-endian words: [to_be_bytes] and [from_be_bytes]. *)
Definition to_be (n : nat) (z : Z) : bytes := reverse (to_le n z).
Definition from_be (bs : bytes) : Z := from_le (reverse bs).

(** ** Padding *)

(** [while (padded.len() + 8) % 64 != 0 { padded.push(0) }], with [None] when
    the fuel runs out; 64 units are enough from any length. *)
Fixpoint pad_loop (fuel : nat) (padded : bytes) : option bytes :=
  if (len padded + 8) mod 64 =? 0 then Some padded
  else match fuel with
  | O => None
  | S fuel' => pad_loop fuel' (padded ++ [zero_byte])
  end.

Definition sha256_pad (input : bytes) : option bytes :=
  let bit_len := (len input * 8) mod 2 ^ 64 in
  match pad_loop 64 (input ++ [Byte.x80]) with
  | Some padded => Some (padded ++ to_be 8 bit_len)
  | None => None
  end.

(** [chunks_exact(n)] *)
Fixpoint chunks_exact_fuel (fuel n : nat) (l : bytes) : list bytes :=
  match fuel with
  | O => []
  | S fuel' =>
      if (length l <? n)%nat then []
      else take n l :: chunks_exact_fuel fuel' n (drop n l)
  end.
Definition chunks_exact (n : nat) (l : bytes) : list bytes :=
  chunks_exact_fuel (length l) n l.

(** ** The message schedule *)
Definition small_sigma0 (x : Z) : Z :=
  Z.lxor (Z.lxor (rotate_right x 7) (rotate_right x 18)) (Z.shiftr x 3).
Definition small_sigma1 (x : Z) : Z :=
  Z.lxor (Z.lxor (rotate_right x 17) (rotate_right x 19)) (Z.shiftr x 10).

(** [for (i, bytes) in chunk.chunks_exact(4).take(16).enumerate() { w[i] = .. }] *)
Definition schedule_init (chunk : bytes) : list Z :=
  list_inserts 0 (map from_be (take 16 (chunks_exact 4 chunk))) (replicate 64 0).

(** The body of [for i in 16..64]. *)
Definition schedule_step (w : list Z) (i : nat) : list Z :=
  let s0 := small_sigma0 (w !!! (i - 15)%nat) in
  let s1 := small_sigma1 (w !!! (i - 2)%nat) in
  <[i := wrapping_add32 (wrapping_add32 (wrapping_add32 (w !!! (i - 16)%nat) s0)
           (w !!! (i - 7)%nat)) s1]> w.

Definition schedule (chunk : bytes) : list Z :=
  fold_left schedule_step (seq 16 48) (schedule_init chunk).

(** ** Compression *)
Record Regs := mkRegs {
  ra : Z; rb : Z; rc : Z; rd : Z; re : Z; rf : Z; rg : Z; rh : Z }.

Definition round (w : list Z) (r : Regs) (i : nat) : Regs :=
  let '(mkRegs a b c d e f g h) := r in
  let sum1 := Z.lxor (Z.lxor (rotate_right e 6) (rotate_right e 11)) (rotate_right e 25) in
  let ch := Z.lxor (Z.land e f) (Z.land (not32 e) g) in
  let temp1 := wrapping_add32 (wrapping_add32 (wrapping_add32 (wrapping_add32 h sum1) ch)
                 (K !!! i)) (w !!! i) in
  let sum0 := Z.lxor (Z.lxor (rotate_right a 2) (rotate_right a 13)) (rotate_right a 22) in
  let maj := Z.lxor (Z.lxor (Z.land a b) (Z.land a c)) (Z.land b c) in
  let temp2 := wrapping_add32 sum0 maj in
  mkRegs (wrapping_add32 temp1 temp2) a b c (wrapping_add32 d temp1) e f g.

(** One iteration of the loop over the 64-byte chunks. *)
Definition compress (state : list Z) (chunk : bytes) : list Z :=
  let w := schedule chunk in
  let r0 := mkRegs (state !!! 0%nat) (state !!! 1%nat) (state !!! 2%nat) (state !!! 3%nat)
              (state !!! 4%nat) (state !!! 5%nat) (state !!! 6%nat) (state !!! 7%nat) in
  let r := fold_left (round w) (seq 0 64) r0 in
  [ wrapping_add32 (state !!! 0%nat) (ra r); wrapping_add32 (state !!! 1%nat) (rb r);
    wrapping_add32 (state !!! 2%nat) (rc r); wrapping_add32 (state !!! 3%nat) (rd r);
    wrapping_add32 (state !!! 4%nat) (re r); wrapping_add32 (state !!! 5%nat) (rf r);
    wrapping_add32 (state !!! 6%nat) (rg r); wrapping_add32 (state !!! 7%nat) (rh r) ].

Definition sha256 (input : bytes) : bytes :=
  match sha256_pad input with
  | Some padded =>
      let state := fold_left compress (chunks_exact 64 padded) INITIAL in
      concat (map (to_be 4) state)
  | None => []
  end.

(** A digest is a byte array of length 32. *)
Definition is_digest (d : bytes) : Prop := len d = 32.

Definition hex (l : list Z) : bytes := map byte_of_Z l.

Lemma sha256_empty_vector : sha256 [] = hex [
  0xe3; 0xb0; 0xc4; 0x42; 0x98; 0xfc; 0x1c; 0x14; 0x9a; 0xfb; 0xf4; 0xc8; 0x99; 0x6f; 0xb9; 0x24;
  0x27; 0xae; 0x41; 0xe4; 0x64; 0x9b; 0x93; 0x4c; 0xa4; 0x95; 0x99; 0x1b; 0x78; 0x52; 0xb8; 0x55].
Proof. vm_compute. reflexivity. Qed.

Lemma sha256_abc_vector : sha256 (hex [97; 98; 99]) = hex [
  0xba; 0x78; 0x16; 0xbf; 0x8f; 0x01; 0xcf; 0xea; 0x41; 0x41; 0x40; 0xde; 0x5d; 0xae; 0x22; 0x23;
  0xb0; 0x03; 0x61; 0xa3; 0x96; 0x17; 0x7a; 0x9c; 0xb4; 0x10; 0xff; 0x61; 0xf2; 0x00; 0x15; 0xad].
Proof. vm_compute. reflexivity. Qed.

(** ** Padding *)
Lemma pad_loop_spec fuel p :
  let k := (56 - len p) mod 64 in
  k ≤ Z.of_nat fuel → pad_loop fuel p = Some (p ++ zeros k).
Proof.
  intros k. revert p k. induction fuel as [|fuel IH]; intros p k Hk;
    cbn [pad_loop]; (destruct (_ =? 0) eqn:He;
      [apply Z.eqb_eq in He; subst k;
       replace ((56 - len p) mod 64) with 0 by (Z.div_mod_to_equations; lia);
       by rewrite app_nil_r|apply Z.eqb_neq in He]).
  - exfalso. subst k. Z.div_mod_to_equations; lia.
  - assert (Hk' : (56 - len (p ++ [zero_byte])) mod 64 = k - 1).
    { subst k. rewrite len_app. change (len [zero_byte]) with 1.
      Z.div_mod_to_equations; lia. }
    rewrite IH by (rewrite Hk'; lia). rewrite Hk', <- app_assoc. do 2 f_equal.
    unfold zeros. replace (Z.to_nat k) with (S (Z.to_nat (k - 1))); [done|].
    assert (k ≠ 0) by (subst k; Z.div_mod_to_equations; lia).
    assert (0 ≤ k) by (subst k; apply Z.mod_pos_bound; lia). lia.
Qed.

(** The number of zero bytes the loop appends. *)
Definition pad_zeros (n : Z) : Z := (55 - n) mod 64.

Definition padded_message (input : bytes) : bytes :=
  input ++ [Byte.x80] ++ zeros (pad_zeros (len input)) ++
  to_be 8 ((len input * 8) mod 2 ^ 64).

Lemma sha256_pad_padded input : sha256_pad input = Some (padded_message input).
Proof.
  unfold sha256_pad, padded_message, pad_zeros.
  assert (Hk : (56 - len (input ++ [Byte.x80])) mod 64 = (55 - len input) mod 64).
  { rewrite len_app. change (len [Byte.x80]) with 1. f_equal. lia. }
  rewrite (pad_loop_spec 64); rewrite Hk.
  - by rewrite <- !app_assoc.
  - pose proof (Z.mod_pos_bound (55 - len input) 64). lia.
Qed.

Lemma len_to_be n z : len (to_be n z) = Z.of_nat n.
Proof. rewrite <- (len_to_le n z). unfold to_be, len. by rewrite length_reverse. Qed.

Lemma padded_message_len input :
  len (padded_message input) = len input + 9 + pad_zeros (len input).
Proof.
  unfold padded_message. rewrite !len_app, len_to_be, len_zeros.
  - change (len [Byte.x80]) with 1. lia.
  - apply Z.mod_pos_bound. lia.
Qed.

Lemma to_be_inj n x y :
  0 ≤ x < 2 ^ (8 * Z.of_nat n) → 0 ≤ y < 2 ^ (8 * Z.of_nat n) →
  to_be n x = to_be n y → x = y.
Proof.
  intros Hx Hy Heq. apply (to_le_inj n); try done. unfold to_be in Heq.
  by apply (inj reverse) in Heq.
Qed.

(** Messages below 2^61 bytes have different paddings: the length block makes
    the encoding suffix-free. *)
Lemma padded_message_inj x y :
  len x < 2 ^ 61 → len y < 2 ^ 61 → padded_message x = padded_message y → x = y.
Proof.
  intros Hx Hy Heq. len_facts.
  assert (Hlen : len x = len y).
  { unfold padded_message in Heq. rewrite !app_assoc in Heq.
    apply app_inj_2 in Heq as [_ Heq].
    - apply to_be_inj in Heq; [|apply Z.mod_pos_bound; lia..].
      rewrite !Z.mod_small in Heq; lia.
    - pose proof (len_to_be 8 ((len x * 8) mod 2 ^ 64)).
      pose proof (len_to_be 8 ((len y * 8) mod 2 ^ 64)). unfold len in *. lia. }
  unfold padded_message in Heq. apply app_inj_1 in Heq as [? _]; [done|].
  unfold len in Hlen. lia.
Qed.

(** The padding loop of sha256 terminates with 0x80, fewer than 64 zero bytes and the
    bit length, up to a multiple of 64 bytes, and is injective on messages below 2^61 bytes. *)
Theorem sha256_padding_correct :
  (∀ input, ∃ k, 0 ≤ k < 64 ∧
     sha256_pad input = Some (input ++ [Byte.x80] ++ zeros k ++
                                to_be 8 ((len input * 8) mod 2 ^ 64)) ∧
     (len input + 1 + k + 8) mod 64 = 0) ∧
  (∀ x y, len x < 2 ^ 61 → len y < 2 ^ 61 → sha256_pad x = sha256_pad y → x = y).
Proof.
  split.
  - intros input. exists (pad_zeros (len input)). unfold pad_zeros.
    split_and!.
    + apply Z.mod_pos_bound. lia.
    + apply Z.mod_pos_bound. lia.
    + apply sha256_pad_padded.
    + Z.div_mod_to_equations; lia.
  - intros x y Hx Hy. rewrite !sha256_pad_padded. intros [= Heq].
    by apply padded_message_inj.
Qed.

(** ** The digest *)
Lemma compress_length state chunk : length (compress state chunk) = 8%nat.
Proof. reflexivity. Qed.

Lemma fold_compress_length chunks state :
  length state = 8%nat → length (fold_left compress chunks state) = 8%nat.
Proof.
  revert state. induction chunks as [|c cs IH]; intros state Hs; simpl; [done|].
  apply IH, compress_length.
Qed.

Definition digest_of (state : list Z) : bytes := concat (map (to_be 4) state).

Lemma len_digest_of state : len (digest_of state) = 4 * len state.
Proof.
  induction state as [|x state IH]; [done|]. unfold digest_of in *.
  cbn [map concat]. rewrite len_app, len_to_be, IH, len_cons. lia.
Qed.

Lemma sha256_digest_of input :
  sha256 input = digest_of (fold_left compress (chunks_exact 64 (padded_message input)) INITIAL).
Proof. unfold sha256. by rewrite sha256_pad_padded. Qed.

Lemma sha256_digest input : is_digest (sha256 input).
Proof.
  unfold is_digest. rewrite sha256_digest_of, len_digest_of. unfold len.
  by rewrite fold_compress_length.
Qed.

(** ** The schedule *)
Lemma schedule_step_length w i : length (schedule_step w i) = length w.
Proof. apply length_insert. Qed.

Lemma fold_schedule_length is_ w :
  length (fold_left schedule_step is_ w) = length w.
Proof.
  revert w. induction is_ as [|i is_ IH]; intros w; simpl; [done|].
  by rewrite IH, schedule_step_length.
Qed.

Lemma schedule_init_length chunk : length (schedule_init chunk) = 64%nat.
Proof. unfold schedule_init. by rewrite length_inserts, length_replicate. Qed.

Lemma chunks_exact_fuel_lookup fuel n l (i : nat) :
  (0 < n)%nat → ((i + 1) * n ≤ length l)%nat → (i < fuel)%nat →
  chunks_exact_fuel fuel n l !! i = Some (take n (drop (n * i) l)).
Proof.
  intros Hn. revert l i. induction fuel as [|fuel IH]; intros l i Hl Hi; [lia|].
  cbn [chunks_exact_fuel]. destruct (Nat.ltb_spec (length l) n); [nia|].
  destruct i as [|i]; cbn [lookup list_lookup].
  - by rewrite Nat.mul_0_r, drop_0.
  - change (chunks_exact_fuel fuel n (drop n l) !! i = Some (take n (drop (n * S i) l))).
    rewrite IH by (rewrite ?length_drop; nia).
    rewrite drop_drop. do 3 f_equal. lia.
Qed.

Lemma schedule_init_at chunk t :
  (t < 16)%nat → length chunk = 64%nat →
  schedule_init chunk !!! t = from_be (take 4 (drop (4 * t) chunk)).
Proof.
  intros Ht Hc. unfold schedule_init.
  assert (Hl : take 16 (chunks_exact 4 chunk) !! t = Some (take 4 (drop (4 * t) chunk))).
  { rewrite lookup_take_lt by done. apply chunks_exact_fuel_lookup; lia. }
  apply list_lookup_total_correct.
  assert (Hm : map from_be (take 16 (chunks_exact 4 chunk)) !! t =
               Some (from_be (take 4 (drop (4 * t) chunk)))).
  { change (map from_be (take 16 (chunks_exact 4 chunk)))
      with (from_be <$> take 16 (chunks_exact 4 chunk)).
    by rewrite list_lookup_fmap, Hl. }
  pose proof (lookup_lt_Some _ _ _ Hm) as Hlt.
  rewrite list_lookup_inserts by (rewrite ?length_replicate, ?length_map, ?length_take in *; lia).
  by rewrite Nat.sub_0_r.
Qed.

(** The steps [i, i+1, ..] leave the entries below [i] alone. *)
Lemma fold_schedule_below n i j w :
  (j < i)%nat → fold_left schedule_step (seq i n) w !!! j = w !!! j.
Proof.
  revert i w. induction n as [|n IH]; intros i w Hj; simpl; [done|].
  rewrite IH by lia. unfold schedule_step. by rewrite list_lookup_total_insert_ne by lia.
Qed.

Definition recurrence (w : list Z) (t : nat) : Z :=
  (small_sigma1 (w !!! (t - 2)%nat) + w !!! (t - 7)%nat +
   small_sigma0 (w !!! (t - 15)%nat) + w !!! (t - 16)%nat) mod 2 ^ 32.

Lemma fold_schedule_at n i t w :
  (16 ≤ i ≤ t)%nat → (t < i + n)%nat → (i + n ≤ length w)%nat →
  let w' := fold_left schedule_step (seq i n) w in w' !!! t = recurrence w' t.
Proof.
  revert i w. induction n as [|n IH]; intros i w Hi Ht Hw; [lia|]. cbn [seq fold_left].
  destruct (decide (t = i)) as [->|Hne].
  - unfold recurrence. rewrite !(fold_schedule_below n (S i)) by lia.
    unfold schedule_step. rewrite list_lookup_total_insert_eq by lia.
    rewrite !list_lookup_total_insert_ne by lia.
    unfold wrapping_add32. rewrite Zplus_mod_idemp_l, <- Z.add_assoc, Zplus_mod_idemp_l.
    f_equal. lia.
  - apply IH; [lia|lia|]. rewrite schedule_step_length. lia.
Qed.

(** The 64 words of the message schedule are the big-endian words of the block followed
    by the recurrence of the standard. *)
Theorem schedule_recurrence chunk (t : nat) :
  length (schedule chunk) = 64%nat ∧
  ((t < 16)%nat → length chunk = 64%nat →
     schedule chunk !!! t = from_be (take 4 (drop (4 * t) chunk))) ∧
  ((16 ≤ t < 64)%nat → schedule chunk !!! t = recurrence (schedule chunk) t).
Proof.
  split_and!.
  - unfold schedule. by rewrite fold_schedule_length, schedule_init_length.
  - intros Ht Hc. unfold schedule. rewrite fold_schedule_below by lia.
    by apply schedule_init_at.
  - intros Ht. apply fold_schedule_at; [lia|lia|]. rewrite schedule_init_length. lia.
Qed.

Lemma schedule_recurrence_witness :
  schedule (replicate 64 Byte.x01) !!! 0%nat = from_be (replicate 4 Byte.x01) ∧
  schedule (replicate 64 Byte.x01) !!! 16%nat =
    recurrence (schedule (replicate 64 Byte.x01)) 16.
Proof.
  split.
  - apply (schedule_recurrence (replicate 64 Byte.x01) 0); [lia|reflexivity].
  - apply (schedule_recurrence (replicate 64 Byte.x01) 16). lia.
Defined.

Lemma sha256_padding_correct_witness :
  sha256_pad [Byte.x01] ≠ sha256_pad [Byte.x02].
Proof.
  intros H. discriminate (proj2 sha256_padding_correct [Byte.x01] [Byte.x02] eq_refl eq_refl H).
Defined.
