(* ===== verification/Capsule.v ===== *)
(** The NCC97 container: src/crates/ntd-capsule/src/lib.rs (section kinds, the
    version contract) and src/crates/ntd-capsule/src/binary.rs (writer and
    reader).

    [CapsuleBuilder_write] computes the layout, allocates the zeroed file and
    copies header, manifest, index and payloads into it, as the source does;
    [CapsuleView_read] is the validating reader.  Slicing and copying out of
    range are [Panic] in both, so that their absence is a theorem. *)
From S2P Require Import Prelude Ir Hash.

Definition NCC97_MAGIC : bytes := map byte_of_Z [78; 67; 67; 57; 55; 0].
Definition NCC97_MAJOR : Z := 0.
Definition NCC97_MINOR : Z := 2.

Inductive SectionKind :=
| SecGraph | SecTensors | SecTokenizer | SecCodecs | SecRouter | SecAdapters
| SecCapabilities | SecMemorySchema | SecMemoryState | SecDeviceProfiles
| SecProvenance | SecSignatures | SecAssimilationLog | SecWorldStateSchema
| SecContinuityState | SecEmbodimentProfile | SecGenerativeManifest.

#[export] Instance SectionKind_eq_dec : EqDecision SectionKind.
Proof. solve_decision. Defined.

(** [kind as u16] *)
Definition section_tag (k : SectionKind) : Z :=
  match k with
  | SecGraph => 1 | SecTensors => 2 | SecTokenizer => 3 | SecCodecs => 4
  | SecRouter => 5 | SecAdapters => 6 | SecCapabilities => 7 | SecMemorySchema => 8
  | SecMemoryState => 9 | SecDeviceProfiles => 10 | SecProvenance => 11
  | SecSignatures => 12 | SecAssimilationLog => 13 | SecWorldStateSchema => 14
  | SecContinuityState => 15 | SecEmbodimentProfile => 16 | SecGenerativeManifest => 17
  end.

Record CapsuleVersion := mkCapsuleVersion { cv_major : Z; cv_minor : Z }.
Definition CapsuleVersion_CURRENT : CapsuleVersion := mkCapsuleVersion NCC97_MAJOR NCC97_MINOR.
Definition CapsuleVersion_can_read (self other : CapsuleVersion) : bool :=
  (cv_major self =? cv_major other) && (cv_minor other <=? cv_minor self).

Record NativeIntelligenceContract := mkContract {
  ct_capsule : CapsuleVersion;
  ct_ir : IrVersion;
}.
Definition Contract_CURRENT : NativeIntelligenceContract :=
  mkContract CapsuleVersion_CURRENT IrVersion_CURRENT.
Definition Contract_can_read (self other : NativeIntelligenceContract) : bool :=
  CapsuleVersion_can_read (ct_capsule self) (ct_capsule other) &&
  IrVersion_can_read (ct_ir self) (ct_ir other).

Inductive CapsuleError :=
| Truncated
| InvalidMagic
| InvalidHeader
| InvalidManifest
| InvalidIndex
| InvalidCapsuleKind (v : Z)
| InvalidSectionKind (v : Z)
| InvalidChunkFlags (v : Z)
| UnsupportedContract (c : NativeIntelligenceContract)
| MetadataIntegrityMismatch
| ChunkIntegrityMismatch (k : SectionKind)
| ExternalChunkInFullCapsule
| NonCanonicalLayout
| Overflow.

(** [SectionKind::try_from(u16)] *)
Definition SectionKind_try_from (value : Z) : result CapsuleError SectionKind :=
  match value with
  | 1 => Ok SecGraph | 2 => Ok SecTensors | 3 => Ok SecTokenizer | 4 => Ok SecCodecs
  | 5 => Ok SecRouter | 6 => Ok SecAdapters | 7 => Ok SecCapabilities
  | 8 => Ok SecMemorySchema | 9 => Ok SecMemoryState | 10 => Ok SecDeviceProfiles
  | 11 => Ok SecProvenance | 12 => Ok SecSignatures | 13 => Ok SecAssimilationLog
  | 14 => Ok SecWorldStateSchema | 15 => Ok SecContinuityState
  | 16 => Ok SecEmbodimentProfile | 17 => Ok SecGenerativeManifest
  | other => Err (InvalidSectionKind other)
  end.

Definition HEADER_LEN : Z := 112.
Definition MANIFEST_LEN : Z := 56.
Definition INDEX_ENTRY_LEN : Z := 56.
Definition ALIGNMENT : Z := 8.
Definition CHUNK_FLAG_EXTERNAL : Z := 1.
Definition MANIFEST_FLAG_HAS_BASE : Z := 1.

Inductive CapsuleKind := Full | Thin | State.
#[export] Instance CapsuleKind_eq_dec : EqDecision CapsuleKind.
Proof. solve_decision. Defined.

Definition capsule_kind_tag (k : CapsuleKind) : Z :=
  match k with Full => 1 | Thin => 2 | State => 3 end.
Definition CapsuleKind_try_from (value : Z) : result CapsuleError CapsuleKind :=
  match value with
  | 1 => Ok Full | 2 => Ok Thin | 3 => Ok State
  | other => Err (InvalidCapsuleKind other)
  end.

(** [Digest] is [u8; 32]. *)
Abbreviation Digest := (list byte).

Inductive ChunkSource :=
| Embedded (bs : bytes)
| External (logical_len : Z) (hash : Digest).

Record ChunkSpec := mkChunkSpec { cs_kind : SectionKind; cs_source : ChunkSource }.

Record CapsuleBuilder := mkBuilder {
  cb_kind : CapsuleKind;
  cb_capsule_id : bytes;
  cb_base_root : option Digest;
  cb_chunks : list ChunkSpec;
}.

Definition CapsuleBuilder_new (kind : CapsuleKind) (capsule_id : bytes) : CapsuleBuilder :=
  mkBuilder kind capsule_id None [].
Definition CapsuleBuilder_with_base_root (self : CapsuleBuilder) (r : Digest) : CapsuleBuilder :=
  mkBuilder (cb_kind self) (cb_capsule_id self) (Some r) (cb_chunks self).
Definition push_embedded (self : CapsuleBuilder) (kind : SectionKind) (bs : bytes) : CapsuleBuilder :=
  mkBuilder (cb_kind self) (cb_capsule_id self) (cb_base_root self)
    (cb_chunks self ++ [mkChunkSpec kind (Embedded bs)]).
Definition push_external (self : CapsuleBuilder) (kind : SectionKind) (logical_len : Z)
    (hash : Digest) : CapsuleBuilder :=
  mkBuilder (cb_kind self) (cb_capsule_id self) (cb_base_root self)
    (cb_chunks self ++ [mkChunkSpec kind (External logical_len hash)]).

Inductive ChunkStorageView :=
| StoredEmbedded (bs : bytes)
| StoredExternal.

Record ChunkView := mkChunkView {
  ck_kind : SectionKind;
  ck_logical_len : Z;
  ck_hash : Digest;
  ck_storage : ChunkStorageView;
}.

Record CapsuleView := mkView {
  vw_contract : NativeIntelligenceContract;
  vw_kind : CapsuleKind;
  vw_capsule_id : bytes;
  vw_base_root : option Digest;
  vw_root_hash : Digest;
  vw_chunks : list ChunkView;
}.

Record HeaderFields := mkHeader {
  hf_contract : NativeIntelligenceContract;
  hf_manifest_offset : Z;
  hf_manifest_len : Z;
  hf_index_offset : Z;
  hf_index_len : Z;
  hf_payload_offset : Z;
  hf_chunk_count : Z;
  hf_root_hash : Digest;
}.

Record ManifestFields := mkManifest {
  mf_kind : CapsuleKind;
  mf_capsule_id : bytes;
  mf_base_root : option Digest;
}.

Record IndexEntry := mkIndexEntry {
  ie_kind : SectionKind;
  ie_flags : Z;
  ie_logical_len : Z;
  ie_offset : Z;
  ie_hash : Digest;
}.

(** ** Fixed-offset fields *)
Definition outcome (A : Type) : Type := result CapsuleError A.

Definition put_u16 (dst : bytes) (offset value : Z) : outcome bytes :=
  splice dst offset (to_le 2 value).
Definition put_u32 (dst : bytes) (offset value : Z) : outcome bytes :=
  splice dst offset (to_le 4 value).
Definition put_u64 (dst : bytes) (offset value : Z) : outcome bytes :=
  splice dst offset (to_le 8 value).

Definition read_u16 (src : bytes) (offset : Z) : outcome Z :=
  let? bs := ok_or (get_range src offset (offset + 2)) Truncated in Ok (from_le bs).
Definition read_u32 (src : bytes) (offset : Z) : outcome Z :=
  let? bs := ok_or (get_range src offset (offset + 4)) Truncated in Ok (from_le bs).
Definition read_u64 (src : bytes) (offset : Z) : outcome Z :=
  let? bs := ok_or (get_range src offset (offset + 8)) Truncated in Ok (from_le bs).

Definition align_up (value alignment : Z) : outcome Z :=
  let? add := ok_or (if 1 <=? alignment then Some (alignment - 1) else None) Overflow in
  let? value := ok_or (checked_add_usize value add) Overflow in
  Ok (value / alignment * alignment).

(** The range [start..end]. *)
Definition checked_range (total_len offset len_ : Z) : outcome (Z * Z) :=
  let? start := ok_or (try_usize offset) Overflow in
  let? len_ := ok_or (try_usize len_) Overflow in
  let? end_ := ok_or (checked_add_usize start len_) Overflow in
  if total_len <? end_ then Err Truncated else Ok (start, end_).

Definition metadata_root (manifest index : bytes) : Digest := sha256 (manifest ++ index).

(** ** Header, manifest and index *)
Definition encode_header (dst : bytes) (fields : HeaderFields) : outcome bytes :=
  let dst := zeros (len dst) in
  let? dst := splice dst 0 NCC97_MAGIC in
  let? dst := put_u16 dst 6 HEADER_LEN in
  let? dst := put_u16 dst 8 (cv_major (ct_capsule (hf_contract fields))) in
  let? dst := put_u16 dst 10 (cv_minor (ct_capsule (hf_contract fields))) in
  let? dst := put_u16 dst 12 (ir_major (ct_ir (hf_contract fields))) in
  let? dst := put_u16 dst 14 (ir_minor (ct_ir (hf_contract fields))) in
  let? dst := put_u32 dst 16 0 in
  let? dst := put_u64 dst 20 (hf_manifest_offset fields) in
  let? dst := put_u64 dst 28 (hf_manifest_len fields) in
  let? dst := put_u64 dst 36 (hf_index_offset fields) in
  let? dst := put_u64 dst 44 (hf_index_len fields) in
  let? dst := put_u64 dst 52 (hf_payload_offset fields) in
  let? dst := put_u32 dst 60 (hf_chunk_count fields) in
  let? dst := put_u32 dst 64 0 in
  splice dst 68 (hf_root_hash fields).

Definition decode_header (bs : bytes) : outcome HeaderFields :=
  if len bs <? HEADER_LEN then Err Truncated
  else if negb (bool_decide (get_range bs 0 6 = Some NCC97_MAGIC)) then Err InvalidMagic
  else
    let? header_len := read_u16 bs 6 in
    if negb (header_len =? HEADER_LEN) then Err InvalidHeader
    else
      let? c_major := read_u16 bs 8 in
      let? c_minor := read_u16 bs 10 in
      let? i_major := read_u16 bs 12 in
      let? i_minor := read_u16 bs 14 in
      let? flags := read_u32 bs 16 in
      let? reserved := read_u32 bs 64 in
      let? tail := slice bs 100 HEADER_LEN in
      if negb (flags =? 0) || negb (reserved =? 0) || any_nonzero tail
      then Err InvalidHeader
      else
        let? root_hash := slice bs 68 100 in
        let? manifest_offset := read_u64 bs 20 in
        let? manifest_len := read_u64 bs 28 in
        let? index_offset := read_u64 bs 36 in
        let? index_len := read_u64 bs 44 in
        let? payload_offset := read_u64 bs 52 in
        let? chunk_count := read_u32 bs 60 in
        Ok (mkHeader
              (mkContract (mkCapsuleVersion c_major c_minor) (mkIrVersion i_major i_minor))
              manifest_offset manifest_len index_offset index_len payload_offset
              chunk_count root_hash).

Definition encode_manifest (kind : CapsuleKind) (capsule_id : bytes)
    (base_root : option Digest) : outcome bytes :=
  let out := zeros MANIFEST_LEN in
  let? out := splice out 0 (to_le 1 (capsule_kind_tag kind)) in
  let? out := match base_root with
              | Some _ => splice out 1 (to_le 1 MANIFEST_FLAG_HAS_BASE)
              | None => Ok out
              end in
  let? out := splice out 8 capsule_id in
  match base_root with
  | Some root => splice out 24 root
  | None => Ok out
  end.

(** [bytes[i]] as an integer. *)
Definition index_u8 (bs : bytes) (i : Z) : outcome Z :=
  let? b := slice bs i (i + 1) in Ok (from_le b).

Definition decode_manifest (bs : bytes) : outcome ManifestFields :=
  if negb (len bs =? MANIFEST_LEN) then Err InvalidManifest
  else
    let? tag := index_u8 bs 0 in
    let? kind := CapsuleKind_try_from tag in
    let? flags := index_u8 bs 1 in
    let? reserved := slice bs 2 8 in
    if negb (Z.land flags (Z.lxor MANIFEST_FLAG_HAS_BASE 255) =? 0) || any_nonzero reserved
    then Err InvalidManifest
    else
      let? capsule_id := slice bs 8 24 in
      let? root := slice bs 24 56 in
      if negb (Z.land flags MANIFEST_FLAG_HAS_BASE =? 0)
      then Ok (mkManifest kind capsule_id (Some root))
      else if any_nonzero root then Err InvalidManifest
      else Ok (mkManifest kind capsule_id None).

(** The body of the loop of [encode_index] at entry [i]. *)
Definition put_index_entry (out : bytes) (i : Z) (entry : IndexEntry) : outcome bytes :=
  let base := i * INDEX_ENTRY_LEN in
  let? out := put_u16 out base (section_tag (ie_kind entry)) in
  let? out := put_u16 out (base + 2) (ie_flags entry) in
  let? out := put_u32 out (base + 4) 0 in
  let? out := put_u64 out (base + 8) (ie_logical_len entry) in
  let? out := put_u64 out (base + 16) (ie_offset entry) in
  splice out (base + 24) (ie_hash entry).

Fixpoint encode_index_from (out : bytes) (i : Z) (entries : list IndexEntry) : outcome bytes :=
  match entries with
  | [] => Ok out
  | entry :: rest =>
      let? out := put_index_entry out i entry in encode_index_from out (i + 1) rest
  end.

Definition encode_index (entries : list IndexEntry) : outcome bytes :=
  encode_index_from (zeros (len entries * INDEX_ENTRY_LEN)) 0 entries.

(** The body of the loop of [decode_index] at entry [i]. *)
Definition decode_index_entry (bs : bytes) (i : Z) : outcome IndexEntry :=
  let base := i * INDEX_ENTRY_LEN in
  let? raw_kind := read_u16 bs base in
  let? kind := SectionKind_try_from raw_kind in
  let? flags := read_u16 bs (base + 2) in
  let? reserved := read_u32 bs (base + 4) in
  if negb (reserved =? 0) then Err InvalidIndex
  else
    let? hash := slice bs (base + 24) (base + 56) in
    let? logical_len := read_u64 bs (base + 8) in
    let? offset := read_u64 bs (base + 16) in
    Ok (mkIndexEntry kind flags logical_len offset hash).

Definition decode_index (bs : bytes) (count : Z) : outcome (list IndexEntry) :=
  let? count := ok_or (try_usize count) Overflow in
  let? expected := ok_or (checked_mul_usize count INDEX_ENTRY_LEN) Overflow in
  if negb (len bs =? expected) then Err InvalidIndex
  else map_result (decode_index_entry bs) (map Z.of_nat (seq 0 (Z.to_nat count))).

(** ** The writer *)
Definition is_external (c : ChunkSpec) : bool :=
  match cs_source c with External _ _ => true | Embedded _ => false end.

(** The loop state of the first pass: entries, [cursor] and [file_len]. *)
Record LayoutState := mkLayout { ly_entries : list IndexEntry; ly_cursor : Z; ly_file_len : Z }.

Definition layout_chunk (st : LayoutState) (chunk : ChunkSpec) : outcome LayoutState :=
  match cs_source chunk with
  | Embedded bs =>
      let? logical_len := ok_or (try_u64 (len bs)) Overflow in
      let? offset := ok_or (try_u64 (ly_cursor st)) Overflow in
      let entry := mkIndexEntry (cs_kind chunk) 0 logical_len offset (sha256 bs) in
      let? end_ := ok_or (checked_add_usize (ly_cursor st) (len bs)) Overflow in
      let file_len := Z.max (ly_file_len st) end_ in
      let? cursor := align_up end_ ALIGNMENT in
      Ok (mkLayout (ly_entries st ++ [entry]) cursor file_len)
  | External logical_len hash =>
      let entry := mkIndexEntry (cs_kind chunk) CHUNK_FLAG_EXTERNAL logical_len 0 hash in
      Ok (mkLayout (ly_entries st ++ [entry]) (ly_cursor st) (ly_file_len st))
  end.

(** The second pass: [out[start..end].copy_from_slice(bytes)]. *)
Definition copy_chunk (out : bytes) (p : ChunkSpec * IndexEntry) : outcome bytes :=
  match cs_source p.1 with
  | Embedded bs =>
      let? start := ok_or (try_usize (ie_offset p.2)) Overflow in
      let? _ := ok_or (checked_add_usize start (len bs)) Overflow in
      splice out start bs
  | External _ _ => Ok out
  end.

Definition CapsuleBuilder_write (self : CapsuleBuilder) : outcome bytes :=
  if bool_decide (cb_kind self = Full) && existsb is_external (cb_chunks self)
  then Err ExternalChunkInFullCapsule
  else
    let? chunk_count := ok_or (try_u32 (len (cb_chunks self))) Overflow in
    let manifest_offset := HEADER_LEN in
    let? index_offset := ok_or (checked_add_usize manifest_offset MANIFEST_LEN) Overflow in
    let? index_len := ok_or (checked_mul_usize (len (cb_chunks self)) INDEX_ENTRY_LEN) Overflow in
    let? index_end := ok_or (checked_add_usize index_offset index_len) Overflow in
    let? payload_offset := align_up index_end ALIGNMENT in
    let? manifest := encode_manifest (cb_kind self) (cb_capsule_id self) (cb_base_root self) in
    let? layout := fold_result layout_chunk (mkLayout [] payload_offset payload_offset)
                     (cb_chunks self) in
    let? index := encode_index (ly_entries layout) in
    let root_hash := metadata_root manifest index in
    let out := zeros (ly_file_len layout) in
    let? header_area := slice out 0 HEADER_LEN in
    let? manifest_offset64 := ok_or (try_u64 manifest_offset) Overflow in
    let? manifest_len64 := ok_or (try_u64 MANIFEST_LEN) Overflow in
    let? index_offset64 := ok_or (try_u64 index_offset) Overflow in
    let? index_len64 := ok_or (try_u64 (len index)) Overflow in
    let? payload_offset64 := ok_or (try_u64 payload_offset) Overflow in
    let? header := encode_header header_area
      (mkHeader Contract_CURRENT manifest_offset64 manifest_len64 index_offset64
         index_len64 payload_offset64 chunk_count root_hash) in
    let? out := splice out 0 header in
    let? out := splice out manifest_offset manifest in
    let? out := splice out index_offset index in
    fold_result copy_chunk out (combine (cb_chunks self) (ly_entries layout)).

(** ** The reader *)
Record ReadState := mkReadState {
  rs_chunks : list ChunkView;
  rs_expected_offset : Z;
  rs_expected_file_len : Z;
}.

(** The body of the loop over the index entries. *)
Definition read_chunk (bs : bytes) (kind : CapsuleKind) (st : ReadState) (entry : IndexEntry)
  : outcome ReadState :=
  if negb (Z.land (ie_flags entry) (Z.lxor CHUNK_FLAG_EXTERNAL 65535) =? 0)
  then Err (InvalidChunkFlags (ie_flags entry))
  else if negb (Z.land (ie_flags entry) CHUNK_FLAG_EXTERNAL =? 0)
  then
    if negb (ie_offset entry =? 0) then Err InvalidIndex
    else if bool_decide (kind = Full) then Err ExternalChunkInFullCapsule
    else Ok (mkReadState
               (rs_chunks st ++
                [mkChunkView (ie_kind entry) (ie_logical_len entry) (ie_hash entry) StoredExternal])
               (rs_expected_offset st) (rs_expected_file_len st))
  else
    let? offset := ok_or (try_usize (ie_offset entry)) Overflow in
    if negb (offset =? rs_expected_offset st) then Err NonCanonicalLayout
    else
      let? ' (start, end_) := checked_range (len bs) (ie_offset entry) (ie_logical_len entry) in
      let? next := align_up end_ ALIGNMENT in
      let? payload := slice bs start end_ in
      if negb (bytes_eqb (sha256 payload) (ie_hash entry))
      then Err (ChunkIntegrityMismatch (ie_kind entry))
      else Ok (mkReadState
                 (rs_chunks st ++
                  [mkChunkView (ie_kind entry) (ie_logical_len entry) (ie_hash entry)
                     (StoredEmbedded payload)])
                 next end_).

Definition CapsuleView_read (bs : bytes) : outcome CapsuleView :=
  let? header := decode_header bs in
  if negb (Contract_can_read Contract_CURRENT (hf_contract header))
  then Err (UnsupportedContract (hf_contract header))
  else
    let? chunk_count := ok_or (try_usize (hf_chunk_count header)) Overflow in
    let? expected_index_len := ok_or (checked_mul_usize chunk_count INDEX_ENTRY_LEN) Overflow in
    let? expected_index_offset := ok_or (checked_add_usize HEADER_LEN MANIFEST_LEN) Overflow in
    let? index_end := ok_or (checked_add_usize expected_index_offset expected_index_len) Overflow in
    let? expected_payload_offset := align_up index_end ALIGNMENT in
    if negb (hf_manifest_offset header =? HEADER_LEN)
       || negb (hf_manifest_len header =? MANIFEST_LEN)
       || negb (hf_index_offset header =? expected_index_offset)
       || negb (hf_index_len header =? expected_index_len)
       || negb (hf_payload_offset header =? expected_payload_offset)
    then Err NonCanonicalLayout
    else
      let? ' (m_start, m_end) :=
        checked_range (len bs) (hf_manifest_offset header) (hf_manifest_len header) in
      let? ' (i_start, i_end) :=
        checked_range (len bs) (hf_index_offset header) (hf_index_len header) in
      let? manifest_bytes := slice bs m_start m_end in
      let? index_bytes := slice bs i_start i_end in
      if negb (bytes_eqb (metadata_root manifest_bytes index_bytes) (hf_root_hash header))
      then Err MetadataIntegrityMismatch
      else
        let? manifest := decode_manifest manifest_bytes in
        let? entries := decode_index index_bytes (hf_chunk_count header) in
        let? st := fold_result (read_chunk bs (mf_kind manifest))
                     (mkReadState [] expected_payload_offset expected_payload_offset) entries in
        if negb (len bs =? rs_expected_file_len st) then Err NonCanonicalLayout
        else Ok (mkView (hf_contract header) (mf_kind manifest) (mf_capsule_id manifest)
                   (mf_base_root manifest) (hf_root_hash header) (rs_chunks st)).
