(* ===== verification/CapsuleLayout.v ===== *)
(** The layout the NCC97 writer computes, in closed form, and the proofs that
    the writer produces it and the reader accepts it: [capsule_round_trip],
    [capsule_read_accepts], [capsule_read_no_panic]. *)
From S2P Require Import Prelude Ir Hash Capsule.

(** ** Header *)
Definition header_blocks (f : HeaderFields) : list bytes := [
  NCC97_MAGIC; to_le 2 HEADER_LEN;
  to_le 2 (cv_major (ct_capsule (hf_contract f))); to_le 2 (cv_minor (ct_capsule (hf_contract f)));
  to_le 2 (ir_major (ct_ir (hf_contract f))); to_le 2 (ir_minor (ct_ir (hf_contract f)));
  to_le 4 0; to_le 8 (hf_manifest_offset f); to_le 8 (hf_manifest_len f);
  to_le 8 (hf_index_offset f); to_le 8 (hf_index_len f); to_le 8 (hf_payload_offset f);
  to_le 4 (hf_chunk_count f); to_le 4 0; hf_root_hash f; zeros 12].

Definition header_typed (f : HeaderFields) : Prop :=
  in_u16 (cv_major (ct_capsule (hf_contract f))) ∧ in_u16 (cv_minor (ct_capsule (hf_contract f))) ∧
  in_u16 (ir_major (ct_ir (hf_contract f))) ∧ in_u16 (ir_minor (ct_ir (hf_contract f))) ∧
  in_u64 (hf_manifest_offset f) ∧ in_u64 (hf_manifest_len f) ∧ in_u64 (hf_index_offset f) ∧
  in_u64 (hf_index_len f) ∧ in_u64 (hf_payload_offset f) ∧ in_u32 (hf_chunk_count f) ∧
  is_digest (hf_root_hash f).

Lemma len_magic : len NCC97_MAGIC = 6.
Proof. done. Qed.

(** Reading and overwriting the [i]-th block of a concatenation. *)
Ltac block_side :=
  unfold HEADER_LEN, MANIFEST_LEN, INDEX_ENTRY_LEN, is_digest in *;
  first [reflexivity
        | solve [rewrite ?len_magic; block_len; rewrite ?len_magic, ?len_nil; lia]].
Ltac splice_at i :=
  erewrite (splice_block _ i) by block_side; cbn [insert list_insert].
Ltac get_at i := erewrite (get_range_block _ i) by block_side.
Ltac slice_at i := erewrite (slice_block _ i) by block_side.

Lemma encode_header_Ok dst f :
  len dst = HEADER_LEN → is_digest (hf_root_hash f) →
  encode_header dst f = Ok (concat (header_blocks f)).
Proof.
  intros Hdst Hroot. unfold encode_header, put_u16, put_u32, put_u64. rewrite Hdst.
  change (zeros HEADER_LEN) with (concat
    [zeros 6; zeros 2; zeros 2; zeros 2; zeros 2; zeros 2; zeros 4; zeros 8; zeros 8;
     zeros 8; zeros 8; zeros 8; zeros 4; zeros 4; zeros 32; zeros 12]).
  splice_at 0%nat. splice_at 1%nat. splice_at 2%nat. splice_at 3%nat.
  splice_at 4%nat. splice_at 5%nat. splice_at 6%nat. splice_at 7%nat.
  splice_at 8%nat. splice_at 9%nat. splice_at 10%nat. splice_at 11%nat.
  splice_at 12%nat. splice_at 13%nat. splice_at 14%nat. done.
Qed.

Lemma decode_header_Ok f rest :
  header_typed f → decode_header (concat (header_blocks f) ++ rest) = Ok f.
Proof.
  intros (Hcm & Hcn & Him & Hin & Hmo & Hml & Hio & Hil & Hpo & Hcc & Hroot).
  replace (concat (header_blocks f) ++ rest) with (concat (header_blocks f ++ [rest]))
    by (by rewrite concat_app; simpl; rewrite app_nil_r).
  unfold decode_header, read_u16, read_u32, read_u64.
  destruct (len _ <? HEADER_LEN) eqn:Hlen.
  { exfalso. apply Z.ltb_lt in Hlen. revert Hlen. unfold header_blocks. cbn [app].
    block_len. rewrite len_magic. unfold is_digest, HEADER_LEN in *. len_facts. lia. }
  clear Hlen. unfold header_blocks. cbn [app].
  get_at 0%nat. rewrite bool_decide_eq_true_2 by done. cbn [negb ok_or].
  get_at 1%nat. cbn [ok_or]. rewrite from_le_to_le by done.
  rewrite Z.eqb_refl. cbn [negb].
  get_at 2%nat. get_at 3%nat. get_at 4%nat. get_at 5%nat. get_at 6%nat. get_at 13%nat.
  cbn [ok_or]. slice_at 15%nat. rewrite !from_le_to_le by done.
  replace (any_nonzero (zeros 12)) with false by reflexivity.
  cbn [Z.eqb negb orb].
  slice_at 14%nat. get_at 7%nat. get_at 8%nat. get_at 9%nat. get_at 10%nat.
  get_at 11%nat. get_at 12%nat. cbn [ok_or]. rewrite !from_le_to_le by done.
  destruct f as [[[] []] ]. done.
Qed.

(** ** Manifest *)
Definition base_flag (base : option Digest) : Z :=
  match base with Some _ => MANIFEST_FLAG_HAS_BASE | None => 0 end.
Definition base_bytes (base : option Digest) : bytes :=
  match base with Some r => r | None => zeros 32 end.

Definition manifest_blocks (m : ManifestFields) : list bytes := [
  to_le 1 (capsule_kind_tag (mf_kind m)); to_le 1 (base_flag (mf_base_root m)); zeros 6;
  mf_capsule_id m; base_bytes (mf_base_root m)].

Definition manifest_typed (m : ManifestFields) : Prop :=
  len (mf_capsule_id m) = 16 ∧ is_digest (base_bytes (mf_base_root m)).

Lemma encode_manifest_Ok kind id base :
  manifest_typed (mkManifest kind id base) →
  encode_manifest kind id base = Ok (concat (manifest_blocks (mkManifest kind id base))).
Proof.
  intros [Hid Hbase]. unfold encode_manifest. simpl in Hid, Hbase.
  change (zeros MANIFEST_LEN) with
    (concat [zeros 1; zeros 1; zeros 6; zeros 16; zeros 32]).
  splice_at 0%nat. destruct base as [r|]; simpl in Hbase.
  - splice_at 1%nat. splice_at 3%nat. splice_at 4%nat. done.
  - splice_at 3%nat. unfold manifest_blocks, mf_base_root, base_flag. do 3 f_equal.
Qed.

Lemma len_manifest m : manifest_typed m → len (concat (manifest_blocks m)) = MANIFEST_LEN.
Proof.
  intros [Hid Hbase]. unfold manifest_blocks. block_len. unfold is_digest, MANIFEST_LEN in *.
  len_lia.
Qed.

Lemma decode_manifest_Ok m :
  manifest_typed m → decode_manifest (concat (manifest_blocks m)) = Ok m.
Proof.
  intros Hm. unfold decode_manifest. rewrite (len_manifest m Hm), Z.eqb_refl. cbn [negb].
  destruct Hm as [Hid Hbase], m as [kind id base]. unfold manifest_blocks, index_u8.
  cbn [mf_kind mf_capsule_id mf_base_root].
  simpl in Hid, Hbase.
  slice_at 0%nat. rewrite from_le_to_le by (by destruct kind).
  replace (CapsuleKind_try_from (capsule_kind_tag kind)) with (@Ok CapsuleError _ kind)
    by (by destruct kind).
  slice_at 1%nat. rewrite from_le_to_le by (by destruct base).
  slice_at 2%nat. slice_at 3%nat. slice_at 4%nat. by destruct base.
Qed.

(** ** Index *)
Definition entry_blocks (e : IndexEntry) : list bytes := [
  to_le 2 (section_tag (ie_kind e)); to_le 2 (ie_flags e); to_le 4 0;
  to_le 8 (ie_logical_len e); to_le 8 (ie_offset e); ie_hash e].
Definition entry_bytes (e : IndexEntry) : bytes := concat (entry_blocks e).
Definition index_bytes (es : list IndexEntry) : bytes := concat (map entry_bytes es).

Definition entry_typed (e : IndexEntry) : Prop :=
  in_u16 (ie_flags e) ∧ in_u64 (ie_logical_len e) ∧ in_u64 (ie_offset e) ∧
  is_digest (ie_hash e).

Lemma len_entry_bytes e : is_digest (ie_hash e) → len (entry_bytes e) = INDEX_ENTRY_LEN.
Proof.
  intros H. unfold entry_bytes, entry_blocks. block_len. unfold is_digest, INDEX_ENTRY_LEN in *.
  len_lia.
Qed.

Lemma len_index_bytes es :
  Forall (λ e, is_digest (ie_hash e)) es → len (index_bytes es) = INDEX_ENTRY_LEN * len es.
Proof.
  unfold index_bytes. induction 1 as [|e es He _ IH]; [done|]. simpl.
  rewrite len_app, IH, len_entry_bytes, len_cons by done. lia.
Qed.

Lemma section_tag_inv k : SectionKind_try_from (section_tag k) = Ok k.
Proof. by destruct k. Qed.
Lemma section_tag_u16 k : in_u16 (section_tag k).
Proof. by destruct k. Qed.

Lemma put_index_entry_Ok pre post i e :
  len pre = i * INDEX_ENTRY_LEN → is_digest (ie_hash e) →
  put_index_entry (pre ++ zeros INDEX_ENTRY_LEN ++ post) i e = Ok (pre ++ entry_bytes e ++ post).
Proof.
  intros Hpre Hh. unfold put_index_entry, put_u16, put_u32, put_u64. rewrite <- Hpre.
  replace (pre ++ zeros INDEX_ENTRY_LEN ++ post) with (concat
    [pre; zeros 2; zeros 2; zeros 4; zeros 8; zeros 8; zeros 32; post])
    by (simpl; by rewrite app_nil_r).
  splice_at 1%nat. splice_at 2%nat. splice_at 3%nat. splice_at 4%nat. splice_at 5%nat.
  splice_at 6%nat. unfold entry_bytes, entry_blocks. f_equal. simpl.
  by rewrite !app_nil_r, <- !app_assoc.
Qed.

Lemma encode_index_from_Ok pre i es :
  len pre = i * INDEX_ENTRY_LEN → Forall (λ e, is_digest (ie_hash e)) es →
  encode_index_from (pre ++ zeros (len es * INDEX_ENTRY_LEN)) i es = Ok (pre ++ index_bytes es).
Proof.
  revert pre i. induction es as [|e es IH]; intros pre i Hpre Hes; simpl; [done|].
  apply Forall_cons in Hes as [He Hes].
  rewrite len_cons, Z.mul_add_distr_r, Z.mul_1_l, zeros_app by (unfold INDEX_ENTRY_LEN; len_lia).
  rewrite put_index_entry_Ok by done.
  rewrite app_assoc, IH; [by rewrite <- app_assoc| |done].
  rewrite len_app, len_entry_bytes by done. lia.
Qed.

Lemma encode_index_Ok es :
  Forall (λ e, is_digest (ie_hash e)) es → encode_index es = Ok (index_bytes es).
Proof. intros. by apply (encode_index_from_Ok []). Qed.

Lemma decode_index_entry_Ok pre post i e :
  len pre = i * INDEX_ENTRY_LEN → entry_typed e →
  decode_index_entry (pre ++ entry_bytes e ++ post) i = Ok e.
Proof.
  intros Hpre (Hf & Hl & Ho & Hh). unfold decode_index_entry, read_u16, read_u32, read_u64.
  rewrite <- Hpre.
  replace (pre ++ entry_bytes e ++ post) with (concat (pre :: entry_blocks e ++ [post]))
    by (unfold entry_bytes; simpl; by rewrite ?app_nil_r, <- ?app_assoc).
  unfold entry_blocks. cbn [app].
  get_at 1%nat. cbn [ok_or]. rewrite from_le_to_le by apply section_tag_u16.
  rewrite section_tag_inv. get_at 2%nat. get_at 3%nat. cbn [ok_or].
  rewrite !from_le_to_le by done. cbn [Z.eqb negb]. slice_at 6%nat. get_at 4%nat. get_at 5%nat.
  cbn [ok_or]. rewrite !from_le_to_le by done. by destruct e.
Qed.

Lemma decode_entries_Ok pre es n :
  len pre = Z.of_nat n * INDEX_ENTRY_LEN → Forall entry_typed es →
  map_result (decode_index_entry (pre ++ index_bytes es))
    (map Z.of_nat (seq n (length es))) = Ok es.
Proof.
  revert pre n. induction es as [|e es IH]; intros pre n Hpre Hes; simpl; [done|].
  apply Forall_cons in Hes as [He Hes]. unfold index_bytes. cbn [map concat].
  rewrite decode_index_entry_Ok by done. fold (index_bytes es).
  rewrite app_assoc, IH; [done| |done].
  rewrite len_app, len_entry_bytes by apply He. lia.
Qed.

Lemma entry_typed_digest es :
  Forall entry_typed es → Forall (λ e, is_digest (ie_hash e)) es.
Proof. intros H. eapply Forall_impl; [exact H|]. intros e He. apply He. Qed.

Lemma decode_index_Ok es :
  in_u32 (len es) → Forall entry_typed es →
  decode_index (index_bytes es) (len es) = Ok es.
Proof.
  intros Hlen Hes. unfold decode_index, try_usize, try_u64, checked_mul_usize, checked_mul_u64.
  unfold in_u32, INDEX_ENTRY_LEN in *.
  rewrite (proj2 (Z.ltb_lt _ _)) by lia. cbn [ok_or].
  rewrite (proj2 (Z.ltb_lt _ _)) by lia. cbn [ok_or].
  rewrite len_index_bytes by (by apply entry_typed_digest). unfold INDEX_ENTRY_LEN.
  rewrite (Z.mul_comm 56), Z.eqb_refl. cbn [negb]. rewrite to_nat_len.
  by apply (decode_entries_Ok []).
Qed.

(** ** Layout of the payloads

    [pos] is the end of what precedes; an embedded payload starts at the next
    multiple of 8. *)
Definition align8 (z : Z) : Z := (z + 7) / 8 * 8.

Fixpoint entries_from (pos : Z) (chunks : list ChunkSpec) : list IndexEntry :=
  match chunks with
  | [] => []
  | mkChunkSpec k (Embedded bs) :: rest =>
      mkIndexEntry k 0 (len bs) (align8 pos) (sha256 bs) ::
      entries_from (align8 pos + len bs) rest
  | mkChunkSpec k (External l h) :: rest =>
      mkIndexEntry k CHUNK_FLAG_EXTERNAL l 0 h :: entries_from pos rest
  end.

Fixpoint end_from (pos : Z) (chunks : list ChunkSpec) : Z :=
  match chunks with
  | [] => pos
  | mkChunkSpec _ (Embedded bs) :: rest => end_from (align8 pos + len bs) rest
  | mkChunkSpec _ (External _ _) :: rest => end_from pos rest
  end.

Fixpoint body_from (pos : Z) (chunks : list ChunkSpec) : bytes :=
  match chunks with
  | [] => []
  | mkChunkSpec _ (Embedded bs) :: rest =>
      zeros (align8 pos - pos) ++ bs ++ body_from (align8 pos + len bs) rest
  | mkChunkSpec _ (External _ _) :: rest => body_from pos rest
  end.

Definition chunk_typed (c : ChunkSpec) : Prop :=
  match cs_source c with
  | Embedded _ => True
  | External l h => in_u64 l ∧ is_digest h
  end.

Lemma align8_bounds z : z ≤ align8 z < z + 8.
Proof.
  unfold align8. pose proof (Z.div_mod (z + 7) 8). pose proof (Z.mod_pos_bound (z + 7) 8). lia.
Qed.

Lemma align8_mult k : align8 (8 * k) = 8 * k.
Proof.
  unfold align8. rewrite (Z.mul_comm 8 k), Z.add_comm, Z.div_add by lia.
  change (7 / 8) with 0. lia.
Qed.

Lemma align_up_8 z : align_up z ALIGNMENT = if z + 7 <? 2 ^ 64 then Ok (align8 z) else Err Overflow.
Proof.
  unfold align_up, ALIGNMENT, checked_add_usize, checked_add_u64, align8. simpl.
  by destruct (_ <? _).
Qed.

Lemma end_from_ge pos chunks : pos ≤ end_from pos chunks.
Proof.
  revert pos. induction chunks as [|[k [bs|l h]] cs IH]; intros pos; simpl; [lia| |apply IH].
  specialize (IH (align8 pos + len bs)). pose proof (align8_bounds pos). len_facts. lia.
Qed.

Lemma len_body_from pos chunks : len (body_from pos chunks) = end_from pos chunks - pos.
Proof.
  revert pos. induction chunks as [|[k [bs|l h]] cs IH]; intros pos; simpl;
    [rewrite len_nil; lia| |apply IH].
  rewrite !len_app, IH, len_zeros; [|pose proof (align8_bounds pos); lia].
  lia.
Qed.

Lemma length_entries_from pos chunks : length (entries_from pos chunks) = length chunks.
Proof. revert pos. induction chunks as [|[k []] cs IH]; intros pos; simpl; by rewrite ?IH. Qed.

Lemma len_entries_from pos chunks : len (entries_from pos chunks) = len chunks.
Proof. unfold len. by rewrite length_entries_from. Qed.

Lemma entries_digest pos chunks :
  Forall chunk_typed chunks → Forall (λ e, is_digest (ie_hash e)) (entries_from pos chunks).
Proof.
  intros Hc. revert pos. induction Hc as [|[k [bs|l h]] cs H _ IH]; intros pos;
    constructor; try apply IH; [apply sha256_digest|apply H].
Qed.

Lemma entries_typed pos chunks :
  0 ≤ pos → end_from pos chunks < 2 ^ 64 → Forall chunk_typed chunks →
  Forall entry_typed (entries_from pos chunks).
Proof.
  intros Hpos Hend Hc. revert pos Hpos Hend.
  induction Hc as [|[k [bs|l h]] cs H _ IH]; intros pos Hpos Hend; simpl in *; constructor.
  - pose proof (end_from_ge (align8 pos + len bs) cs). pose proof (align8_bounds pos). len_facts.
    unfold entry_typed, in_u16, in_u64; simpl. split_and!; try lia. apply sha256_digest.
  - pose proof (align8_bounds pos). len_facts. apply IH; [lia|done].
  - destruct H as [Hl Hh]. unfold entry_typed, in_u16; simpl. unfold CHUNK_FLAG_EXTERNAL.
    split_and!; try apply Hl; try done.
  - by apply IH.
Qed.

(** The first pass computes the closed forms, or overflows. *)
Lemma layout_Ok es pos chunks :
  0 ≤ pos → pos + 7 < 2 ^ 64 →
  fold_result layout_chunk (mkLayout es (align8 pos) pos) chunks =
  if end_from pos chunks + 7 <? 2 ^ 64
  then Ok (mkLayout (es ++ entries_from pos chunks) (align8 (end_from pos chunks))
             (end_from pos chunks))
  else Err Overflow.
Proof.
  revert es pos. induction chunks as [|[k [bs|l h]] cs IH]; intros es pos Hpos Hfit; simpl.
  - rewrite (proj2 (Z.ltb_lt _ _)) by lia. by rewrite app_nil_r.
  - unfold layout_chunk. simpl.
    pose proof (align8_bounds pos) as Ha. pose proof (end_from_ge (align8 pos + len bs) cs) as He.
    unfold try_u64, checked_add_usize, checked_add_u64.
    destruct (align8 pos + len bs + 7 <? 2 ^ 64) eqn:Hc.
    + apply Z.ltb_lt in Hc. len_facts. rewrite !(proj2 (Z.ltb_lt _ _)) by lia. cbn [ok_or].
      rewrite align_up_8, (proj2 (Z.ltb_lt _ _)) by lia.
      rewrite Z.max_r by lia. rewrite IH by lia. by rewrite <- app_assoc.
    + apply Z.ltb_ge in Hc. rewrite (proj2 (Z.ltb_ge (end_from _ _ + 7) _)) by lia.
      destruct (len bs <? 2 ^ 64); [|done]. simpl.
      destruct (align8 pos <? 2 ^ 64); [|done]. simpl.
      destruct (align8 pos + len bs <? 2 ^ 64); [|done]. simpl.
      by rewrite align_up_8, (proj2 (Z.ltb_ge _ _)) by lia.
  - unfold layout_chunk. simpl. rewrite IH by done. by rewrite <- app_assoc.
Qed.

(** The second pass writes the body over the zeroed area. *)
Lemma copy_Ok pre pos chunks :
  len pre = pos → end_from pos chunks < 2 ^ 64 →
  fold_result copy_chunk (pre ++ zeros (end_from pos chunks - pos))
    (combine chunks (entries_from pos chunks)) =
  Ok (pre ++ body_from pos chunks).
Proof.
  revert pre pos. induction chunks as [|[k [bs|l h]] cs IH]; intros pre pos Hpre Hfit; simpl in *.
  - by rewrite Z.sub_diag.
  - pose proof (align8_bounds pos) as Ha. pose proof (end_from_ge (align8 pos + len bs) cs) as He.
    len_facts. unfold copy_chunk at 1. simpl.
    unfold try_usize, try_u64, checked_add_usize, checked_add_u64.
    rewrite (proj2 (Z.ltb_lt (align8 pos) _)) by lia. cbn [ok_or].
    rewrite (proj2 (Z.ltb_lt (_ + _) _)) by lia. cbn [ok_or].
    set (fin := end_from (align8 pos + len bs) cs) in *.
    replace (fin - pos) with ((align8 pos - pos) + (len bs + (fin - (align8 pos + len bs)))) by lia.
    rewrite !zeros_app by lia.
    rewrite (app_assoc pre), splice_app; [| |].
    + rewrite app_assoc. unfold fin.
      rewrite IH; [by rewrite <- !app_assoc| |done].
      rewrite !len_app, len_zeros; lia.
    + rewrite len_app, len_zeros; lia.
    + unfold zeros. rewrite length_replicate, to_nat_len. done.
  - by apply IH.
Qed.

(** ** The file *)
Definition payload_start (n : Z) : Z := HEADER_LEN + MANIFEST_LEN + INDEX_ENTRY_LEN * n.

Definition builder_manifest (b : CapsuleBuilder) : ManifestFields :=
  mkManifest (cb_kind b) (cb_capsule_id b) (cb_base_root b).
Definition builder_typed (b : CapsuleBuilder) : Prop :=
  manifest_typed (builder_manifest b) ∧ Forall chunk_typed (cb_chunks b).

Definition builder_start (b : CapsuleBuilder) : Z := payload_start (len (cb_chunks b)).
Definition builder_entries (b : CapsuleBuilder) : list IndexEntry :=
  entries_from (builder_start b) (cb_chunks b).
Definition manifest_bytes (m : ManifestFields) : bytes := concat (manifest_blocks m).
Definition builder_root (b : CapsuleBuilder) : Digest :=
  metadata_root (manifest_bytes (builder_manifest b)) (index_bytes (builder_entries b)).

Definition header_for (c : NativeIntelligenceContract) (n : Z) (root : Digest) : HeaderFields :=
  mkHeader c HEADER_LEN MANIFEST_LEN (HEADER_LEN + MANIFEST_LEN) (INDEX_ENTRY_LEN * n)
    (payload_start n) n root.

Definition capsule_file (b : CapsuleBuilder) : bytes :=
  concat (header_blocks (header_for Contract_CURRENT (len (cb_chunks b)) (builder_root b))) ++
  manifest_bytes (builder_manifest b) ++ index_bytes (builder_entries b) ++
  body_from (builder_start b) (cb_chunks b).

Definition capsule_size (b : CapsuleBuilder) : Z := end_from (builder_start b) (cb_chunks b).

Lemma len_header f : is_digest (hf_root_hash f) → len (concat (header_blocks f)) = HEADER_LEN.
Proof.
  intros H. unfold header_blocks. block_len. rewrite len_magic, len_nil.
  unfold is_digest, HEADER_LEN in *. lia.
Qed.

Lemma payload_start_aligned n : align8 (payload_start n) = payload_start n.
Proof.
  unfold payload_start, HEADER_LEN, MANIFEST_LEN, INDEX_ENTRY_LEN.
  replace (112 + 56 + 56 * n) with (8 * (21 + 7 * n)) by lia. apply align8_mult.
Qed.

(** The offset arithmetic both the writer and the reader do first. *)
Lemma offsets_Ok {A} n (k : Z → Z → Z → Z → outcome A) :
  in_u32 n →
  (let? index_offset := ok_or (checked_add_usize HEADER_LEN MANIFEST_LEN) Overflow in
   let? index_len := ok_or (checked_mul_usize n INDEX_ENTRY_LEN) Overflow in
   let? index_end := ok_or (checked_add_usize index_offset index_len) Overflow in
   let? payload_offset := align_up index_end ALIGNMENT in
   k index_offset index_len index_end payload_offset) =
  k (HEADER_LEN + MANIFEST_LEN) (INDEX_ENTRY_LEN * n) (payload_start n) (payload_start n).
Proof.
  intros Hn. unfold checked_add_usize, checked_mul_usize, checked_add_u64, checked_mul_u64.
  unfold in_u32, payload_start, HEADER_LEN, MANIFEST_LEN, INDEX_ENTRY_LEN in *.
  change (112 + 56 <? 2 ^ 64) with true. cbn [ok_or].
  rewrite (proj2 (Z.ltb_lt (n * 56) _)) by lia. cbn [ok_or].
  rewrite (proj2 (Z.ltb_lt (_ + _) _)) by lia. cbn [ok_or].
  rewrite align_up_8, (proj2 (Z.ltb_lt _ _)) by lia.
  replace (n * 56) with (56 * n) by lia.
  pose proof (payload_start_aligned n) as Ha.
  unfold payload_start, HEADER_LEN, MANIFEST_LEN, INDEX_ENTRY_LEN in Ha. by rewrite Ha.
Qed.

Lemma builder_entries_digest b :
  builder_typed b → Forall (λ e, is_digest (ie_hash e)) (builder_entries b).
Proof. intros [_ H]. by apply entries_digest. Qed.

Lemma len_builder_index b :
  builder_typed b →
  len (index_bytes (builder_entries b)) = INDEX_ENTRY_LEN * len (cb_chunks b).
Proof.
  intros H. rewrite len_index_bytes by (by apply builder_entries_digest).
  unfold builder_entries. by rewrite len_entries_from.
Qed.

Lemma capsule_size_ge b : builder_start b ≤ capsule_size b.
Proof. apply end_from_ge. Qed.

(** What the writer does once the layout is known. *)
Lemma write_copies b :
  builder_typed b → in_u32 (len (cb_chunks b)) → capsule_size b + 7 < 2 ^ 64 →
  (let? header_area := slice (zeros (capsule_size b)) 0 HEADER_LEN in
   let? manifest_offset64 := ok_or (try_u64 HEADER_LEN) Overflow in
   let? manifest_len64 := ok_or (try_u64 MANIFEST_LEN) Overflow in
   let? index_offset64 := ok_or (try_u64 (HEADER_LEN + MANIFEST_LEN)) Overflow in
   let? index_len64 := ok_or (try_u64 (len (index_bytes (builder_entries b)))) Overflow in
   let? payload_offset64 := ok_or (try_u64 (builder_start b)) Overflow in
   let? header := encode_header header_area
      (mkHeader Contract_CURRENT manifest_offset64 manifest_len64 index_offset64
         index_len64 payload_offset64 (len (cb_chunks b)) (builder_root b)) in
   let? out := splice (zeros (capsule_size b)) 0 header in
   let? out := splice out HEADER_LEN (manifest_bytes (builder_manifest b)) in
   let? out := splice out (HEADER_LEN + MANIFEST_LEN) (index_bytes (builder_entries b)) in
   fold_result copy_chunk out (combine (cb_chunks b) (builder_entries b))) =
  Ok (capsule_file b).
Proof.
  intros Hb Hn Hfit. pose proof (capsule_size_ge b) as Hsz.
  pose proof (len_builder_index b Hb) as Hidx.
  pose proof (len_manifest _ (proj1 Hb)) as Hman. fold (manifest_bytes (builder_manifest b)) in Hman.
  assert (builder_start b = 168 + 56 * len (cb_chunks b)) as Hstart by done.
  assert (is_digest (builder_root b)) as Hroot by apply sha256_digest.
  unfold in_u32 in Hn. rewrite Hidx.
  rewrite !try_u64_Ok by (unfold INDEX_ENTRY_LEN, HEADER_LEN, MANIFEST_LEN; lia).
  replace (zeros (capsule_size b)) with (concat [zeros HEADER_LEN; zeros MANIFEST_LEN;
    zeros (INDEX_ENTRY_LEN * len (cb_chunks b)); zeros (capsule_size b - builder_start b)]).
  2:{ cbn [concat]. rewrite app_nil_r, <- !zeros_app; unfold HEADER_LEN, MANIFEST_LEN, INDEX_ENTRY_LEN;
      try lia. f_equal. lia. }
  erewrite (slice_block _ 0) by first [reflexivity|by rewrite len_zeros].
  rewrite encode_header_Ok by (first [done | by rewrite len_zeros]).
  set (hdr := concat (header_blocks _)).
  assert (len hdr = HEADER_LEN) as Hhdr by (by apply len_header).
  erewrite (splice_block _ 0) by first [reflexivity|by rewrite len_zeros].
  cbn [insert list_insert].
  erewrite (splice_block _ 1) by first [reflexivity|cbn [take concat]; rewrite app_nil_r; done
    |by rewrite len_zeros].
  cbn [insert list_insert].
  erewrite (splice_block _ 2) by first [reflexivity|cbn [take concat]; rewrite len_app, app_nil_r; lia
    |rewrite len_zeros, Hidx; unfold INDEX_ENTRY_LEN; lia].
  cbn [insert list_insert concat]. rewrite app_nil_r, !app_assoc.
  unfold builder_entries, capsule_size. fold (builder_entries b).
  rewrite copy_Ok; [| |].
  - unfold capsule_file. fold (builder_entries b). by rewrite <- !app_assoc.
  - rewrite !len_app, Hhdr, Hman, Hidx. unfold INDEX_ENTRY_LEN, HEADER_LEN, MANIFEST_LEN. lia.
  - unfold capsule_size in Hfit. lia.
Qed.

(** ** What the reader accepts

    [padded pos chunks body]: [body] holds the embedded payloads of [chunks]
    in order, each preceded by the bytes up to the next multiple of 8.  The
    writer fills those bytes with zeros; the reader does not look at them. *)
Inductive padded : Z → list ChunkSpec → bytes → Prop :=
| padded_nil pos : padded pos [] []
| padded_embedded pos k bs cs pad body :
    len pad = align8 pos - pos → padded (align8 pos + len bs) cs body →
    padded pos (mkChunkSpec k (Embedded bs) :: cs) (pad ++ bs ++ body)
| padded_external pos k l h cs body :
    padded pos cs body → padded pos (mkChunkSpec k (External l h) :: cs) body.

Definition chunk_view (c : ChunkSpec) : ChunkView :=
  match cs_source c with
  | Embedded bs => mkChunkView (cs_kind c) (len bs) (sha256 bs) (StoredEmbedded bs)
  | External l h => mkChunkView (cs_kind c) l h StoredExternal
  end.

Definition view_of (c : NativeIntelligenceContract) (b : CapsuleBuilder) : CapsuleView :=
  mkView c (cb_kind b) (cb_capsule_id b) (cb_base_root b) (builder_root b)
    (map chunk_view (cb_chunks b)).

(** The file of [b] under contract [c] with payload area [body]. *)
Definition file_with (c : NativeIntelligenceContract) (b : CapsuleBuilder) (body : bytes) : bytes :=
  concat (header_blocks (header_for c (len (cb_chunks b)) (builder_root b))) ++
  manifest_bytes (builder_manifest b) ++ index_bytes (builder_entries b) ++ body.

Definition contract_typed (c : NativeIntelligenceContract) : Prop :=
  in_u16 (cv_major (ct_capsule c)) ∧ in_u16 (cv_minor (ct_capsule c)) ∧
  in_u16 (ir_major (ct_ir c)) ∧ in_u16 (ir_minor (ct_ir c)).

(** [bs] is a capsule file for [b] under [c]. *)
Record capsule_image (c : NativeIntelligenceContract) (b : CapsuleBuilder) (bs : bytes) : Prop := {
  image_contract : contract_typed c ∧ Contract_can_read Contract_CURRENT c = true;
  image_typed : builder_typed b;
  image_full : cb_kind b = Full → existsb is_external (cb_chunks b) = false;
  image_count : in_u32 (len (cb_chunks b));
  image_size : capsule_size b + 7 < 2 ^ 64;
  image_file : ∃ body, padded (builder_start b) (cb_chunks b) body ∧ bs = file_with c b body;
}.

Lemma padded_body_from pos cs : padded pos cs (body_from pos cs).
Proof.
  revert pos. induction cs as [|[k [bs|l h]] cs IH]; intros pos; simpl; constructor; auto.
  apply len_zeros. pose proof (align8_bounds pos). lia.
Qed.

Lemma padded_len pos cs body : padded pos cs body → len body = end_from pos cs - pos.
Proof.
  induction 1 as [pos|pos k bs cs pad body Hpad _ IH|]; simpl; [rewrite len_nil; lia| |done].
  rewrite !len_app, Hpad, IH. lia.
Qed.

Lemma read_chunks_complete bs kind acc pre pos cs body :
  bs = pre ++ body → len pre = pos → padded pos cs body →
  (kind = Full → existsb is_external cs = false) → end_from pos cs + 7 < 2 ^ 64 →
  fold_result (read_chunk bs kind) (mkReadState acc (align8 pos) pos) (entries_from pos cs) =
  Ok (mkReadState (acc ++ map chunk_view cs) (align8 (end_from pos cs)) (end_from pos cs)).
Proof.
  intros Hbs Hpre Hpad. revert acc pre Hbs Hpre.
  induction Hpad as [pos|pos k payload cs pad body Hp _ IH|pos k l h cs body _ IH];
    intros acc pre Hbs Hpre Hfull Hfit; simpl.
  - by rewrite app_nil_r.
  - simpl in Hfit, Hfull. pose proof (align8_bounds pos) as Ha.
    pose proof (end_from_ge (align8 pos + len payload) cs) as He. len_facts.
    unfold read_chunk at 1. cbn [ie_flags ie_offset ie_logical_len ie_hash ie_kind rs_chunks
      rs_expected_offset rs_expected_file_len].
    change (Z.land 0 (Z.lxor CHUNK_FLAG_EXTERNAL 65535)) with 0.
    change (Z.land 0 CHUNK_FLAG_EXTERNAL) with 0. cbn [Z.eqb negb].
    unfold try_usize. rewrite try_u64_Ok by lia. rewrite Z.eqb_refl. cbn [negb].
    unfold checked_range, try_usize. rewrite !try_u64_Ok by lia.
    unfold checked_add_usize, checked_add_u64. rewrite (proj2 (Z.ltb_lt _ _)) by lia. cbn [ok_or].
    rewrite (proj2 (Z.ltb_ge _ _)) by (rewrite Hbs, !len_app; len_facts; lia).
    rewrite align_up_8, (proj2 (Z.ltb_lt _ _)) by lia.
    replace bs with ((pre ++ pad) ++ payload ++ body) by (by rewrite Hbs, <- app_assoc).
    rewrite slice_app by (rewrite len_app; lia).
    unfold bytes_eqb. rewrite bool_decide_eq_true_2 by done. cbn [negb].
    replace ((pre ++ pad) ++ payload ++ body) with bs by (by rewrite Hbs, <- app_assoc).
    rewrite (IH _ (pre ++ pad ++ payload)); [by rewrite <- app_assoc|..].
    + by rewrite Hbs, <- !app_assoc.
    + rewrite !len_app. lia.
    + done.
    + done.
  - simpl in Hfull, Hfit. unfold read_chunk at 1. cbn [ie_flags ie_offset ie_logical_len ie_hash
      ie_kind rs_chunks rs_expected_offset rs_expected_file_len].
    change (Z.land CHUNK_FLAG_EXTERNAL (Z.lxor CHUNK_FLAG_EXTERNAL 65535)) with 0.
    change (Z.land CHUNK_FLAG_EXTERNAL CHUNK_FLAG_EXTERNAL) with 1. cbn [Z.eqb negb].
    rewrite bool_decide_eq_false_2 by (by intros ?%Hfull).
    rewrite (IH _ pre); [by rewrite <- app_assoc|done..| |done].
    by intros ?%Hfull.
Qed.

Lemma reader_offsets_Ok {A} n (k : Z → Z → Z → Z → Z → outcome A) :
  in_u32 n →
  (let? chunk_count := ok_or (try_usize n) Overflow in
   let? expected_index_len := ok_or (checked_mul_usize chunk_count INDEX_ENTRY_LEN) Overflow in
   let? expected_index_offset := ok_or (checked_add_usize HEADER_LEN MANIFEST_LEN) Overflow in
   let? index_end :=
     ok_or (checked_add_usize expected_index_offset expected_index_len) Overflow in
   let? expected_payload_offset := align_up index_end ALIGNMENT in
   k chunk_count expected_index_len expected_index_offset index_end expected_payload_offset) =
  k n (INDEX_ENTRY_LEN * n) (HEADER_LEN + MANIFEST_LEN) (payload_start n) (payload_start n).
Proof.
  intros Hn. unfold try_usize. rewrite try_u64_Ok by (unfold in_u32 in Hn; lia).
  pose proof (offsets_Ok n (λ a b c d, k n b a c d) Hn) as H. rewrite <- H.
  change (checked_add_usize HEADER_LEN MANIFEST_LEN) with (Some (HEADER_LEN + MANIFEST_LEN)).
  cbn [ok_or]. by destruct (checked_mul_usize n INDEX_ENTRY_LEN).
Qed.

Lemma checked_range_Ok total a l :
  0 ≤ a → 0 ≤ l → a + l ≤ total → a + l < 2 ^ 64 → checked_range total a l = Ok (a, a + l).
Proof.
  intros. unfold checked_range, try_usize. rewrite !try_u64_Ok by lia. unfold checked_add_usize,
    checked_add_u64. rewrite (proj2 (Z.ltb_lt _ _)) by lia. cbn [ok_or].
  by rewrite (proj2 (Z.ltb_ge _ _)) by lia.
Qed.

Lemma header_for_typed c b :
  contract_typed c → in_u32 (len (cb_chunks b)) →
  header_typed (header_for c (len (cb_chunks b)) (builder_root b)).
Proof.
  intros (?&?&?&?) Hn. unfold header_typed, header_for, payload_start; simpl.
  unfold in_u32, in_u64, HEADER_LEN, MANIFEST_LEN, INDEX_ENTRY_LEN in *.
  split_and!; try done; try lia. apply sha256_digest.
Qed.

Lemma len_file_with c b body :
  builder_typed b → len (file_with c b body) = builder_start b + len body.
Proof.
  intros Hb. unfold file_with. rewrite !len_app, len_builder_index by done.
  rewrite len_header by apply sha256_digest.
  unfold manifest_bytes. rewrite (len_manifest _ (proj1 Hb)).
  unfold builder_start, payload_start. lia.
Qed.

(** The loop over the chunks and the final length check. *)
Lemma read_payloads {A} c b bs body (k : list ChunkView → outcome A) :
  builder_typed b → padded (builder_start b) (cb_chunks b) body → bs = file_with c b body →
  (cb_kind b = Full → existsb is_external (cb_chunks b) = false) →
  capsule_size b + 7 < 2 ^ 64 →
  (let? st := fold_result (read_chunk bs (cb_kind b))
                (mkReadState [] (builder_start b) (builder_start b)) (builder_entries b) in
   if negb (len bs =? rs_expected_file_len st) then Err NonCanonicalLayout
   else k (rs_chunks st)) = k (map chunk_view (cb_chunks b)).
Proof.
  intros Hb Hpad Hbs Hfull Hfit.
  rewrite <- (payload_start_aligned (len (cb_chunks b))) at 1. fold (builder_start b).
  unfold builder_entries.
  rewrite (read_chunks_complete bs (cb_kind b) []
    (concat (header_blocks (header_for c (len (cb_chunks b)) (builder_root b))) ++
     manifest_bytes (builder_manifest b) ++ index_bytes (builder_entries b)) _ _ body); try done.
  - cbn [rs_expected_file_len rs_chunks app]. rewrite Hbs, len_file_with by done.
    rewrite (padded_len _ _ _ Hpad).
    by rewrite (proj2 (Z.eqb_eq _ _)) by lia.
  - by rewrite Hbs, <- !app_assoc.
  - pose proof (len_file_with c b [] Hb) as Hl. unfold file_with in Hl.
    rewrite app_nil_r, len_nil in Hl. lia.
Qed.

(** The reader accepts every capsule image and returns the contents. *)
Lemma read_image c b bs : capsule_image c b bs → CapsuleView_read bs = Ok (view_of c b).
Proof.
  intros [[Hct Hcan] Hb Hfull Hn Hfit (body & Hpad & Hbs)].
  pose proof (len_file_with c b body Hb) as Hlen.
  pose proof (padded_len _ _ _ Hpad) as Hbody. fold (capsule_size b) in Hbody.
  pose proof (len_builder_index b Hb) as Hidx.
  pose proof (len_manifest _ (proj1 Hb)) as Hman. fold (manifest_bytes (builder_manifest b)) in Hman.
  pose proof (capsule_size_ge b) as Hsz.
  assert (len bs = capsule_size b) as Hbl by (rewrite Hbs, Hlen; lia).
  set (hdr := header_for c (len (cb_chunks b)) (builder_root b)) in *.
  assert (len (concat (header_blocks hdr)) = HEADER_LEN) as Hhdr
    by (apply len_header, sha256_digest).
  unfold CapsuleView_read. rewrite Hbs at 1. unfold file_with.
  rewrite decode_header_Ok by (by apply header_for_typed). fold hdr.
  unfold hdr at 1 2 3. cbn [hf_contract header_for hf_chunk_count]. rewrite Hcan. cbn [negb].
  rewrite (reader_offsets_Ok _ (λ a b c d e, _)) by done.
  unfold hdr at 1 2 3 4 5. cbn [header_for hf_manifest_offset hf_manifest_len hf_index_offset
    hf_index_len hf_payload_offset]. rewrite !Z.eqb_refl. cbn [negb orb].
  unfold hdr at 1 2 3 4. cbn [header_for hf_manifest_offset hf_manifest_len hf_index_offset
    hf_index_len].
  assert (builder_start b = 168 + 56 * len (cb_chunks b)) as Hstart by done.
  pose proof (len_nonneg (cb_chunks b)) as Hnn.
  rewrite !checked_range_Ok by (unfold HEADER_LEN, MANIFEST_LEN, INDEX_ENTRY_LEN; lia).
  replace bs with (concat [concat (header_blocks hdr); manifest_bytes (builder_manifest b);
    index_bytes (builder_entries b); body])
    by (rewrite Hbs; cbn [concat]; by rewrite app_nil_r).
  erewrite (slice_block _ 1)
    by first [reflexivity|cbn [take concat]; rewrite app_nil_r; done|by rewrite Hman].
  erewrite (slice_block _ 2)
    by first [reflexivity|cbn [take concat]; rewrite len_app, app_nil_r; lia|by rewrite Hidx].
  fold (builder_root b). unfold bytes_eqb. rewrite bool_decide_eq_true_2 by done. cbn [negb].
  unfold manifest_bytes. rewrite decode_manifest_Ok by apply Hb.
  cbn [hf_chunk_count header_for hdr].
  rewrite <- (len_entries_from (builder_start b) (cb_chunks b)) at 1.
  unfold builder_entries. rewrite decode_index_Ok; [| |].
  - cbn [concat]. rewrite app_nil_r. fold (builder_entries b).
    fold (manifest_bytes (builder_manifest b)).
    change (concat (header_blocks hdr) ++ manifest_bytes (builder_manifest b) ++
      index_bytes (builder_entries b) ++ body) with (file_with c b body). rewrite <- Hbs.
    by apply (read_payloads c b bs body (λ chunks, Ok (mkView c _ _ _ _ chunks))).
  - by rewrite len_entries_from.
  - apply entries_typed; [lia|unfold capsule_size in Hfit; lia|apply Hb].
Qed.

(** ** Inverting the decoders *)
Lemma from_le_u16 (b : bytes) : length b = 2%nat → in_u16 (from_le b).
Proof. intros H. pose proof (from_le_bound b). unfold len in *. by rewrite H in *. Qed.
Lemma from_le_u32 (b : bytes) : length b = 4%nat → in_u32 (from_le b).
Proof. intros H. pose proof (from_le_bound b). unfold len in *. by rewrite H in *. Qed.
Lemma from_le_u64 (b : bytes) : length b = 8%nat → in_u64 (from_le b).
Proof. intros H. pose proof (from_le_bound b). unfold len in *. by rewrite H in *. Qed.

Lemma from_le_zero b n : length b = n → from_le b = 0 → b = to_le n 0.
Proof. intros Hb H. by rewrite <- H, to_le_from_le. Qed.

Lemma nonzero_false_zeros b n :
  length b = Z.to_nat n → any_nonzero b = false → b = zeros n.
Proof. intros Hb H%any_nonzero_false. by rewrite H, Hb. Qed.

(** Reading the [i]-th block of a cut buffer. *)
Ltac cut_side :=
  unfold HEADER_LEN, MANIFEST_LEN, INDEX_ENTRY_LEN in *;
  first [reflexivity
        |solve [cbn [take concat]; rewrite ?len_app, ?len_nil; unfold len in *; lia]].
Ltac cut_get i := erewrite (get_range_block _ i) by cut_side; cbn [ok_or].
Ltac cut_slice i := erewrite (slice_block _ i) by cut_side.

Lemma decode_header_inv bs f :
  decode_header bs = Ok f → header_typed f ∧ ∃ rest, bs = concat (header_blocks f) ++ rest.
Proof.
  unfold decode_header, read_u16, read_u32, read_u64.
  destruct (len bs <? HEADER_LEN) eqn:Hlen; [done|]. apply Z.ltb_ge in Hlen.
  assert (sum_list [6; 2; 2; 2; 2; 2; 4; 8; 8; 8; 8; 8; 4; 4; 32; 12]%nat ≤ length bs)%nat as Hb
    by (unfold len, HEADER_LEN in Hlen; simpl; lia).
  cut_blocks_at [6; 2; 2; 2; 2; 2; 4; 8; 8; 8; 8; 8; 4; 4; 32; 12]%nat Hb.
  replace bs with (concat ([l; l0; l1; l2; l3; l4; l5; l6; l7; l8; l9; l10; l11; l12; l13; l14]
    ++ [rest])) by (by rewrite Heq, concat_app; simpl; rewrite !app_nil_r).
  cbn [app]. clear Hlen Hb.
  cut_get 0%nat. case_bool_decide as Hmagic; [|done]. cbn [negb]. injection Hmagic as ->.
  cut_get 1%nat. destruct (from_le l0 =? HEADER_LEN) eqn:Hhl; [|done]. apply Z.eqb_eq in Hhl.
  cbn [negb]. cut_get 2%nat. cut_get 3%nat. cut_get 4%nat. cut_get 5%nat. cut_get 6%nat.
  cut_get 13%nat. cut_slice 15%nat.
  destruct (from_le l5 =? 0) eqn:Hfl; [|done]. destruct (from_le l12 =? 0) eqn:Hres; [|done].
  apply Z.eqb_eq in Hfl, Hres. destruct (any_nonzero l14) eqn:Htail; [done|]. cbn [negb orb].
  cut_slice 14%nat. cut_get 7%nat. cut_get 8%nat. cut_get 9%nat. cut_get 10%nat. cut_get 11%nat.
  cut_get 12%nat. intros [= <-]. split.
  - unfold header_typed; cbn. split_and!; auto using from_le_u16, from_le_u32, from_le_u64.
    unfold is_digest, len. by rewrite H13.
  - exists rest. unfold header_blocks. cbn [hf_contract ct_capsule ct_ir
      cv_major cv_minor ir_major ir_minor hf_manifest_offset hf_manifest_len hf_index_offset
      hf_index_len hf_payload_offset hf_chunk_count hf_root_hash].
    rewrite !to_le_from_le by done. rewrite <- Hhl, to_le_from_le by done.
    rewrite (from_le_zero l5 4), (from_le_zero l12 4) by done.
    rewrite (nonzero_false_zeros l14 12) by done.
    cbn [concat]. by rewrite !app_nil_r, <- !app_assoc.
Qed.

(** A flag word in which only bit 0 may be set. *)
Lemma flag_bit n f :
  0 ≤ n → 0 ≤ f < 2 ^ n → Z.lor (Z.lxor 1 (Z.ones n)) 1 = Z.ones n →
  Z.land f (Z.lxor 1 (Z.ones n)) = 0 → f = 0 ∨ f = 1.
Proof.
  intros Hn Hf Hmask H.
  assert (f = Z.land f 1) as Heq.
  { rewrite <- (Z.mod_small f (2 ^ n)) at 1 by done.
    rewrite <- Z.land_ones, <- Hmask, Z.land_lor_distr_r, H by done. apply Z.lor_0_l. }
  change 1 with (Z.ones 1) in Heq at 1. rewrite Z.land_ones in Heq by done.
  pose proof (Z.mod_pos_bound f (2 ^ 1)). lia.
Qed.

Lemma from_le_u8 (b : bytes) : length b = 1%nat → in_u8 (from_le b).
Proof. intros H. pose proof (from_le_bound b). unfold len in *. by rewrite H in *. Qed.

Lemma CapsuleKind_try_from_tag z k : CapsuleKind_try_from z = Ok k → z = capsule_kind_tag k.
Proof. unfold CapsuleKind_try_from. by repeat case_match; intros [= <-]. Qed.
Lemma SectionKind_try_from_tag z k : SectionKind_try_from z = Ok k → z = section_tag k.
Proof. unfold SectionKind_try_from. by repeat case_match; intros [= <-]. Qed.

Lemma decode_manifest_inv bs m :
  decode_manifest bs = Ok m → manifest_typed m ∧ bs = manifest_bytes m.
Proof.
  unfold decode_manifest, index_u8. destruct (len bs =? MANIFEST_LEN) eqn:Hlen; [|done].
  apply Z.eqb_eq in Hlen. cbn [negb].
  assert (sum_list [1; 1; 6; 16; 32]%nat ≤ length bs)%nat as Hb
    by (unfold len, MANIFEST_LEN in Hlen; simpl; lia).
  cut_blocks_at [1; 1; 6; 16; 32]%nat Hb.
  assert (rest = []) as ->.
  { apply (f_equal length) in Heq. rewrite length_app in Heq. simpl in Heq.
    rewrite !length_app in Heq. simpl in Heq. unfold len, MANIFEST_LEN in Hlen.
    destruct rest; [done|simpl in Heq; lia]. }
  rewrite app_nil_r in Heq. rewrite Heq. clear Hlen Hb.
  cut_slice 0%nat. destruct (CapsuleKind_try_from _) as [k| |] eqn:Hk; [|done..].
  apply CapsuleKind_try_from_tag in Hk. cut_slice 1%nat. cut_slice 2%nat.
  destruct (Z.land _ (Z.lxor _ _) =? 0) eqn:Hmask; [|done]. apply Z.eqb_eq in Hmask.
  destruct (any_nonzero l1) eqn:Hres; [done|]. cbn [negb orb]. cut_slice 3%nat. cut_slice 4%nat.
  apply (nonzero_false_zeros l1 6) in Hres; [|done].
  pose proof (flag_bit 8 (from_le l0) ltac:(done) (from_le_u8 l0 H0) ltac:(done) Hmask) as Hf.
  assert (l = to_le 1 (capsule_kind_tag k)) as Hl by (by rewrite <- Hk, to_le_from_le).
  destruct Hf as [Hf|Hf]; rewrite Hf; cbn [Z.land MANIFEST_FLAG_HAS_BASE Z.eqb negb Pos.land].
  - destruct (any_nonzero l3) eqn:Hroot; [done|]. intros [= <-].
    apply (nonzero_false_zeros l3 32) in Hroot; [|done]. split.
    + split; [simpl; unfold len; by rewrite H2|done].
    + unfold manifest_bytes, manifest_blocks. cbn [mf_kind mf_base_root mf_capsule_id].
      by rewrite Hl, Hres, Hroot, (from_le_zero l0 1).
  - intros [= <-]. split.
    + split; simpl; unfold is_digest, len; by rewrite ?H2, ?H3.
    + unfold manifest_bytes, manifest_blocks. cbn [mf_kind mf_base_root mf_capsule_id].
      rewrite Hl, Hres. unfold base_flag, MANIFEST_FLAG_HAS_BASE. by rewrite <- Hf, to_le_from_le.
Qed.

Lemma decode_index_entry_inv pre blk post i e :
  len pre = i * INDEX_ENTRY_LEN → len blk = INDEX_ENTRY_LEN →
  decode_index_entry (pre ++ blk ++ post) i = Ok e → entry_typed e ∧ blk = entry_bytes e.
Proof.
  intros Hpre Hblk. unfold decode_index_entry, read_u16, read_u32, read_u64.
  assert (sum_list [2; 2; 4; 8; 8; 32]%nat ≤ length blk)%nat as Hb
    by (unfold len, INDEX_ENTRY_LEN in Hblk; simpl; lia).
  cut_blocks_at [2; 2; 4; 8; 8; 32]%nat Hb.
  assert (rest = []) as ->.
  { apply (f_equal length) in Heq. rewrite length_app in Heq. simpl in Heq.
    rewrite !length_app in Heq. simpl in Heq. unfold len, INDEX_ENTRY_LEN in Hblk.
    destruct rest; [done|simpl in Heq; lia]. }
  rewrite app_nil_r in Heq.
  replace (pre ++ blk ++ post) with (concat [pre; l; l0; l1; l2; l3; l4; post])
    by (rewrite Heq; simpl; by rewrite !app_nil_r, <- ?app_assoc).
  clear Hblk Hb. cut_get 1%nat.
  destruct (SectionKind_try_from _) as [k| |] eqn:Hk; [|done..].
  apply SectionKind_try_from_tag in Hk. cut_get 2%nat. cut_get 3%nat.
  destruct (from_le l1 =? 0) eqn:Hres; [|done]. apply Z.eqb_eq in Hres. cbn [negb].
  cut_slice 6%nat. cut_get 4%nat. cut_get 5%nat. intros [= <-]. split.
  - unfold entry_typed; cbn. split_and!; auto using from_le_u16, from_le_u64.
    unfold is_digest, len. by rewrite H4.
  - unfold entry_bytes, entry_blocks. cbn [ie_kind ie_flags ie_logical_len ie_offset ie_hash].
    rewrite <- Hk, !to_le_from_le by done. by rewrite Heq, (from_le_zero l1 4).
Qed.

Lemma decode_entries_inv pre body k m es :
  len pre = Z.of_nat k * INDEX_ENTRY_LEN → len body = Z.of_nat m * INDEX_ENTRY_LEN →
  map_result (decode_index_entry (pre ++ body)) (map Z.of_nat (seq k m)) = Ok es →
  length es = m ∧ Forall entry_typed es ∧ body = index_bytes es.
Proof.
  revert pre body k es. induction m as [|m IH]; intros pre body k es Hpre Hbody; simpl.
  - intros [= <-]. split_and!; [done|constructor|]. apply len_zero_nil. lia.
  - assert (∃ blk post, body = blk ++ post ∧ len blk = INDEX_ENTRY_LEN ∧
      len post = Z.of_nat m * INDEX_ENTRY_LEN) as (blk & post & -> & Hblk & Hpost).
    { exists (take 56 body), (drop 56 body). unfold len, INDEX_ENTRY_LEN in *.
      rewrite take_drop, length_take, length_drop. split_and!; [done|lia..]. }
    destruct (decode_index_entry _ _) as [e| |] eqn:He; [|done..].
    apply decode_index_entry_inv in He as [Het Hbe]; [|done..].
    destruct (map_result _ _) as [es'| |] eqn:Hes; [|done..]. intros [= <-].
    rewrite app_assoc in Hes. apply IH in Hes as (Hlen & Hes & Hpb); [| |done].
    + split_and!; [simpl; lia|by constructor|]. unfold index_bytes. cbn [map concat].
      rewrite <- Hbe. f_equal. exact Hpb.
    + rewrite len_app, Hblk. lia.
Qed.

Lemma decode_index_inv bs n es :
  in_u32 n → decode_index bs n = Ok es →
  len es = n ∧ Forall entry_typed es ∧ bs = index_bytes es.
Proof.
  intros Hn. unfold decode_index, try_usize, checked_mul_usize, checked_mul_u64.
  unfold in_u32 in Hn. rewrite try_u64_Ok by lia.
  rewrite (proj2 (Z.ltb_lt _ _)) by (unfold INDEX_ENTRY_LEN; lia). cbn [ok_or].
  destruct (len bs =? n * INDEX_ENTRY_LEN) eqn:Hlen; [|done]. apply Z.eqb_eq in Hlen.
  cbn [negb]. intros (H & ? & ?)%(decode_entries_inv [] bs); [|done|by rewrite Z2Nat.id by lia].
  unfold len. split_and!; [lia|done..].
Qed.

Lemma checked_range_inv total a l p :
  0 ≤ a → 0 ≤ l → checked_range total a l = Ok p → p = (a, a + l) ∧ a + l ≤ total.
Proof.
  intros Ha Hl. unfold checked_range, try_usize, try_u64.
  destruct (a <? 2 ^ 64); [|done]. destruct (l <? 2 ^ 64); [|done]. cbn [ok_or].
  unfold checked_add_usize, checked_add_u64. destruct (a + l <? 2 ^ 64); [|done]. cbn [ok_or].
  destruct (total <? a + l) eqn:Ht; [done|]. apply Z.ltb_ge in Ht. by intros [= <-].
Qed.

(** An embedded entry whose checks pass. *)
Lemma read_chunk_embedded bs kind acc pre rest k l off h st :
  bs = pre ++ rest → in_u64 l → in_u64 off →
  read_chunk bs kind (mkReadState acc (align8 (len pre)) (len pre)) (mkIndexEntry k 0 l off h)
  = Ok st →
  ∃ pad payload tail, rest = pad ++ payload ++ tail ∧ len pad = align8 (len pre) - len pre ∧
    off = align8 (len pre) ∧ l = len payload ∧ h = sha256 payload ∧
    off + l + 7 < 2 ^ 64 ∧
    st = mkReadState (acc ++ [mkChunkView k l h (StoredEmbedded payload)])
           (align8 (off + l)) (off + l).
Proof.
  intros Hbs Hl Hoff. unfold read_chunk. cbn [ie_flags ie_offset ie_logical_len ie_hash ie_kind
    rs_chunks rs_expected_offset rs_expected_file_len].
  change (Z.land 0 (Z.lxor CHUNK_FLAG_EXTERNAL 65535)) with 0.
  change (Z.land 0 CHUNK_FLAG_EXTERNAL) with 0. cbn [Z.eqb negb].
  unfold try_usize. rewrite try_u64_Ok by apply Hoff.
  destruct (off =? align8 (len pre)) eqn:Ho; [|done]. apply Z.eqb_eq in Ho as ->. cbn [negb].
  destruct (checked_range _ _ _) as [p| |] eqn:Hr; [|done..].
  apply checked_range_inv in Hr as [-> Hin]; [|apply Hoff|apply Hl].
  rewrite align_up_8. destruct (_ <? 2 ^ 64) eqn:Hend; [|done]. apply Z.ltb_lt in Hend.
  destruct (slice bs _ _) as [payload| |] eqn:Hs; [|done..].
  apply slice_Ok in Hs. pose proof (get_range_len _ _ _ _ Hs) as Hpl.
  apply get_range_split in Hs as [Hsplit Hpadlen].
  unfold bytes_eqb. case_bool_decide as Hsha; [|done]. cbn [negb]. intros [= <-].
  pose proof (align8_bounds (len pre)) as Ha.
  rewrite Hsplit in Hbs at 1. symmetry in Hbs.
  apply app_eq_inv in Hbs as [(x & Hx & Hrest)|(x & Hx & Hrest)].
  - pose proof (f_equal len Hx) as Hlx. rewrite len_app, Hpadlen in Hlx.
    assert (x = []) as -> by (apply len_zero_nil; len_facts; lia).
    rewrite app_nil_r in Hx. simpl in Hrest. rewrite <- Hx in Hpadlen.
    exists [], payload, (drop (Z.to_nat (align8 (len pre) + l)) bs).
    rewrite len_nil. split_and!; [by rewrite Hrest|lia..|done|done|done].
  - exists x, payload, (drop (Z.to_nat (align8 (len pre) + l)) bs).
    rewrite Hx, len_app in Hpadlen. split_and!; [done|lia|done|lia|done|done|done].
Qed.

(** The loop accepts exactly the padded bodies of the chunks it returns. *)
Lemma read_chunks_sound bs kind acc pre rest pos es st :
  bs = pre ++ rest → len pre = pos → Forall entry_typed es → pos + 7 < 2 ^ 64 →
  fold_result (read_chunk bs kind) (mkReadState acc (align8 pos) pos) es = Ok st →
  ∃ cs body tail,
    es = entries_from pos cs ∧ rs_chunks st = acc ++ map chunk_view cs ∧
    rs_expected_file_len st = end_from pos cs ∧ rest = body ++ tail ∧ padded pos cs body ∧
    Forall chunk_typed cs ∧ (kind = Full → existsb is_external cs = false) ∧
    end_from pos cs + 7 < 2 ^ 64.
Proof.
  intros Hbs Hpre Hes. revert acc pre rest pos Hbs Hpre.
  induction Hes as [|e es He Hes IH]; intros acc pre rest pos Hbs Hpre Hfit; cbn [fold_result].
  { intros [= <-]. exists [], [], rest. rewrite app_nil_r. split_and!; try done. constructor. }
  destruct e as [k fl l off h]. destruct He as (Hfl & Hl & Hoff & Hh). simpl in Hfl, Hl, Hoff, Hh.
  destruct (read_chunk _ _ _ _) as [st'| |] eqn:Hst; [|done..].
  assert (Z.land fl (Z.lxor 1 (Z.ones 16)) = 0) as Hmask.
  { revert Hst. unfold read_chunk. cbn [ie_flags].
    destruct (Z.land fl (Z.lxor _ _) =? 0) eqn:Hmask; [|done]. by apply Z.eqb_eq in Hmask. }
  destruct (flag_bit 16 fl ltac:(done) Hfl ltac:(done) Hmask) as [-> | ->].
  - subst pos.
    apply (read_chunk_embedded bs kind acc pre rest) in Hst
      as (pad & payload & tail & -> & Hpad & -> & -> & -> & Hend & ->); [|done..].
    intros H. apply (IH _ (pre ++ pad ++ payload) tail) in H
      as (cs & body & tail' & -> & Hck & Hfl' & -> & Hpadded & Htyped & Hfull & Hfit');
      [|by rewrite Hbs, <- !app_assoc|rewrite !len_app; lia|done].
    exists (mkChunkSpec k (Embedded payload) :: cs), (pad ++ payload ++ body), tail'.
    rewrite Hck, <- !app_assoc. split_and!; try done; constructor; done.
  - revert Hst. unfold read_chunk at 1. cbn [ie_flags ie_offset ie_logical_len ie_hash ie_kind rs_chunks
      rs_expected_offset rs_expected_file_len].
    change (Z.land CHUNK_FLAG_EXTERNAL (Z.lxor CHUNK_FLAG_EXTERNAL 65535)) with 0.
    change (Z.land 1 (Z.lxor CHUNK_FLAG_EXTERNAL 65535)) with 0.
    change (Z.land 1 CHUNK_FLAG_EXTERNAL) with 1. cbn [Z.eqb negb].
    destruct (off =? 0) eqn:Ho; [|done]. apply Z.eqb_eq in Ho as ->. cbn [negb].
    case_bool_decide as Hkind; [done|]. intros [= <-] H. apply (IH _ pre rest) in H
      as (cs & body & tail' & -> & Hck & Hfl' & -> & Hpadded & Htyped & Hfull & Hfit'); [|done..].
    exists (mkChunkSpec k (External l h) :: cs), body, tail'.
    rewrite Hck, <- app_assoc. split_and!; try done; try (constructor; done).
Qed.

(** What the reader has checked when it starts on the chunks. *)
Lemma read_metadata_inv bs v :
  CapsuleView_read bs = Ok v →
  ∃ h mf es body,
    header_typed h ∧ Contract_can_read Contract_CURRENT (hf_contract h) = true ∧
    h = header_for (hf_contract h) (len es) (metadata_root (manifest_bytes mf) (index_bytes es)) ∧
    manifest_typed mf ∧ Forall entry_typed es ∧
    bs = concat (header_blocks h) ++ manifest_bytes mf ++ index_bytes es ++ body ∧
    (let? st := fold_result (read_chunk bs (mf_kind mf))
                  (mkReadState [] (payload_start (len es)) (payload_start (len es))) es in
     if negb (len bs =? rs_expected_file_len st) then Err NonCanonicalLayout
     else Ok (mkView (hf_contract h) (mf_kind mf) (mf_capsule_id mf) (mf_base_root mf)
                (hf_root_hash h) (rs_chunks st))) = Ok v.
Proof.
  unfold CapsuleView_read. destruct (decode_header bs) as [h| |] eqn:Hh; [|done..].
  apply decode_header_inv in Hh as [Hht [rest Hrest]].
  destruct (Contract_can_read _ _) eqn:Hcan; [|done]. cbn [negb].
  assert (in_u32 (hf_chunk_count h)) as Hn by apply Hht.
  rewrite (reader_offsets_Ok _ (λ a b c d e, _)) by done.
  destruct (hf_manifest_offset h =? _) eqn:H1; [|done].
  destruct (hf_manifest_len h =? _) eqn:H2; [|done].
  destruct (hf_index_offset h =? _) eqn:H3; [|done].
  destruct (hf_index_len h =? _) eqn:H4; [|done].
  destruct (hf_payload_offset h =? _) eqn:H5; [|done].
  apply Z.eqb_eq in H1, H2, H3, H4, H5. cbn [negb orb].
  rewrite H1, H2, H3, H4.
  assert (len (concat (header_blocks h)) = HEADER_LEN) as Hhl by (apply len_header, Hht).
  destruct (checked_range _ HEADER_LEN _) as [p| |] eqn:Hr1; [|done..].
  apply checked_range_inv in Hr1 as [-> Hin1]; [|done..].
  destruct (checked_range _ _ _) as [p| |] eqn:Hr2; [|done..].
  assert (0 ≤ INDEX_ENTRY_LEN * hf_chunk_count h) as Hil
    by (unfold in_u32, INDEX_ENTRY_LEN in *; lia).
  apply checked_range_inv in Hr2 as [-> Hin2]; [|done..].
  assert (∃ m i body, rest = m ++ i ++ body ∧ len m = MANIFEST_LEN ∧
    len i = INDEX_ENTRY_LEN * hf_chunk_count h) as (m & i & body & -> & Hm & Hi).
  { rewrite Hrest, len_app, Hhl in Hin2. set (nb := INDEX_ENTRY_LEN * hf_chunk_count h) in *.
    exists (take 56 rest), (take (Z.to_nat nb) (drop 56 rest)),
      (drop (Z.to_nat nb) (drop 56 rest)).
    rewrite !take_drop. unfold len, MANIFEST_LEN, HEADER_LEN in *.
    rewrite !length_take, !length_drop. split_and!; [done|lia..]. }
  assert (bs = concat [concat (header_blocks h); m; i; body]) as Hbs
    by (rewrite Hrest; simpl; by rewrite app_nil_r).
  assert (slice (E:=CapsuleError) bs HEADER_LEN (HEADER_LEN + MANIFEST_LEN) = Ok m) as ->
    by (rewrite Hbs; apply (slice_block _ 1); cbn [take concat];
        [done|by rewrite app_nil_r|by rewrite Hm]).
  assert (slice (E:=CapsuleError) bs (HEADER_LEN + MANIFEST_LEN)
    (HEADER_LEN + MANIFEST_LEN + INDEX_ENTRY_LEN * hf_chunk_count h) = Ok i) as ->
    by (rewrite Hbs; apply (slice_block _ 2); cbn [take concat];
        [done|rewrite len_app, app_nil_r; lia|by rewrite Hi]).
  unfold bytes_eqb. case_bool_decide as Hroot; [|done]. cbn [negb].
  destruct (decode_manifest m) as [mf| |] eqn:Hmf; [|done..].
  apply decode_manifest_inv in Hmf as [Hmt ->].
  destruct (decode_index i _) as [es| |] eqn:Hes; [|done..].
  apply decode_index_inv in Hes as (Hlen & Het & ->); [|done].
  intros Hv. exists h, mf, es, body. rewrite Hlen. split_and!; try done.
  rewrite Hroot. destruct h; simpl in *. unfold header_for. simpl. by subst.
Qed.

(** Whatever the reader accepts is a capsule image of what it returns. *)
Lemma read_image_inv bs v :
  CapsuleView_read bs = Ok v →
  ∃ b, capsule_image (vw_contract v) b bs ∧ v = view_of (vw_contract v) b.
Proof.
  intros (h & mf & es & body & Hht & Hcan & Hh & Hmt & Het & Hbs & Hv)%read_metadata_inv.
  destruct (fold_result _ _ _) as [st| |] eqn:Hfold; [|done..].
  rewrite <- (payload_start_aligned (len es)) in Hfold at 1.
  set (pre := concat (header_blocks h) ++ manifest_bytes mf ++ index_bytes es).
  assert (in_u32 (len es)) as Hn by (rewrite Hh in Hht; apply Hht).
  assert (len pre = payload_start (len es)) as Hpre.
  { unfold pre. rewrite !len_app, len_header, len_index_bytes; [|by apply entry_typed_digest|].
    - unfold manifest_bytes. rewrite (len_manifest _ Hmt). unfold payload_start. lia.
    - apply Hht. }
  apply (read_chunks_sound bs (mf_kind mf) [] pre body) in Hfold
    as (cs & body' & tail & Hes & Hck & Hfl & -> & Hpad & Htyped & Hfull & Hfit).
  - destruct (len bs =? rs_expected_file_len st) eqn:Hlen; [|done]. apply Z.eqb_eq in Hlen.
    cbn [negb] in Hv. injection Hv as <-. cbn [vw_contract].
    assert (len cs = len es) as Hcs by (by rewrite Hes, len_entries_from).
    assert (tail = []) as ->.
    { pose proof (padded_len _ _ _ Hpad) as Hbl. apply len_zero_nil.
      assert (len bs = len pre + (len body' + len tail)) as Hl
        by (rewrite Hbs; unfold pre; rewrite !len_app; lia).
      len_facts. lia. }
    rewrite app_nil_r in Hbs.
    exists (mkBuilder (mf_kind mf) (mf_capsule_id mf) (mf_base_root mf) cs).
    rewrite <- Hcs in Hes, Hpad, Hfit.
    assert (builder_entries (mkBuilder (mf_kind mf) (mf_capsule_id mf) (mf_base_root mf) cs) = es)
      as Hbe by done.
    assert (builder_manifest (mkBuilder (mf_kind mf) (mf_capsule_id mf) (mf_base_root mf) cs) = mf)
      as Hbm by (by destruct mf).
    split; [split|].
    + split; [|done]. split_and!; apply Hht.
    + split; [by rewrite Hbm|done].
    + done.
    + cbn [cb_chunks]. by rewrite Hcs.
    + done.
    + exists body'. split; [done|]. unfold file_with, builder_root. cbn [cb_chunks].
      rewrite Hbe, Hbm, Hcs. by rewrite <- Hh.
    + unfold view_of, builder_root. rewrite Hbe, Hbm, Hck. rewrite Hh at 2. done.
  - by rewrite Hbs; unfold pre; rewrite <- !app_assoc.
  - done.
  - done.
  - unfold payload_start, in_u32, HEADER_LEN, MANIFEST_LEN, INDEX_ENTRY_LEN in *. lia.
Qed.

(** ** The reader does not panic *)
Lemma read_u16_no_panic bs i : no_panic (read_u16 bs i).
Proof. unfold read_u16. by destruct (get_range _ _ _). Qed.
Lemma read_u32_no_panic bs i : no_panic (read_u32 bs i).
Proof. unfold read_u32. by destruct (get_range _ _ _). Qed.
Lemma read_u64_no_panic bs i : no_panic (read_u64 bs i).
Proof. unfold read_u64. by destruct (get_range _ _ _). Qed.
Lemma align_up_no_panic a b : no_panic (align_up a b).
Proof. unfold align_up. destruct (1 <=? b); [simpl|done]. by destruct (checked_add_usize _ _). Qed.
Lemma checked_range_no_panic t a b : no_panic (checked_range t a b).
Proof.
  unfold checked_range. destruct (try_usize a); [simpl|done]. destruct (try_usize b); [simpl|done].
  destruct (checked_add_usize _ _); [simpl|done]. by case_match.
Qed.
Lemma SectionKind_try_from_no_panic z : no_panic (SectionKind_try_from z).
Proof. unfold SectionKind_try_from. by repeat case_match. Qed.
Lemma CapsuleKind_try_from_no_panic z : no_panic (CapsuleKind_try_from z).
Proof. unfold CapsuleKind_try_from. by repeat case_match. Qed.

#[local] Hint Resolve read_u16_no_panic read_u32_no_panic read_u64_no_panic align_up_no_panic
  checked_range_no_panic SectionKind_try_from_no_panic CapsuleKind_try_from_no_panic : no_panic.

Lemma decode_header_no_panic bs : no_panic (decode_header bs).
Proof.
  unfold decode_header. destruct (len bs <? HEADER_LEN) eqn:Hlen; [done|].
  apply Z.ltb_ge in Hlen. unfold HEADER_LEN in *.
  repeat np_step; apply slice_no_panic; lia.
Qed.

Lemma decode_manifest_no_panic bs : no_panic (decode_manifest bs).
Proof.
  unfold decode_manifest, index_u8. destruct (len bs =? MANIFEST_LEN) eqn:Hlen; [|done].
  apply Z.eqb_eq in Hlen. unfold MANIFEST_LEN in *. cbn [negb].
  repeat np_step; apply slice_no_panic; lia.
Qed.

Lemma decode_index_no_panic bs n : 0 ≤ n → no_panic (decode_index bs n).
Proof.
  intros Hn. unfold decode_index, try_usize, try_u64, checked_mul_usize, checked_mul_u64.
  destruct (n <? 2 ^ 64); [|done]. cbn [ok_or].
  destruct (n * INDEX_ENTRY_LEN <? 2 ^ 64); [|done]. cbn [ok_or].
  destruct (len bs =? n * INDEX_ENTRY_LEN) eqn:Hlen; [|done]. apply Z.eqb_eq in Hlen. cbn [negb].
  apply map_result_no_panic. intros i (j & -> & Hj%elem_of_seq)%list_elem_of_fmap.
  unfold decode_index_entry, INDEX_ENTRY_LEN in *.
  repeat np_step; apply slice_no_panic; lia.
Qed.

Lemma read_chunk_no_panic bs kind st e : entry_typed e → no_panic (read_chunk bs kind st e).
Proof.
  intros (_ & Hl & Ho & _). unfold read_chunk.
  destruct (negb (_ =? 0)); [done|]. destruct (negb (_ =? 0)).
  { destruct (negb (_ =? 0)); [done|]. by destruct (bool_decide _). }
  np_step; [np_step|]. np_step; [done|].
  destruct (checked_range _ _ _) as [p| |] eqn:Hr; [|done|].
  2:{ by apply checked_range_no_panic in Hr. }
  apply checked_range_inv in Hr as [-> Hin]; [|apply Ho|apply Hl].
  unfold in_u64 in *. repeat np_step. apply slice_no_panic; lia.
Qed.

Lemma read_no_panic bs : no_panic (CapsuleView_read bs).
Proof.
  unfold CapsuleView_read. np_step; [apply decode_header_no_panic|].
  match goal with H : decode_header bs = Ok _ |- _ => apply decode_header_inv in H as [Hht _] end.
  assert (in_u32 (hf_chunk_count a)) as Hn by apply Hht.
  assert (in_u64 (hf_manifest_offset a) ∧ in_u64 (hf_manifest_len a) ∧
    in_u64 (hf_index_offset a) ∧ in_u64 (hf_index_len a)) as (? & ? & ? & ?)
    by (split_and!; apply Hht).
  unfold in_u64 in *. do 8 (np_step; [try np_step|]). destruct a5 as [m0 m1].
  match goal with H : checked_range _ _ _ = Ok (m0, m1) |- _ =>
    apply checked_range_inv in H as [[= -> ->] Hin1]; [|lia|lia] end.
  np_step; [np_step|]. destruct a5 as [i0 i1].
  match goal with H : checked_range _ _ _ = Ok (i0, i1) |- _ =>
    apply checked_range_inv in H as [[= -> ->] Hin2]; [|lia|lia] end.
  np_step; [apply slice_no_panic; lia|]. np_step; [apply slice_no_panic; lia|].
  np_step; [done|]. np_step; [apply decode_manifest_no_panic|].
  np_step; [apply decode_index_no_panic; unfold in_u32 in Hn; lia|].
  match goal with H : decode_index _ _ = Ok _ |- _ =>
    apply decode_index_inv in H as (_ & Het & _); [|done] end.
  np_step; [|by np_step].
  apply (fold_result_no_panic (λ _, True)); [done|]. intros st e _ He. split; [|done].
  apply read_chunk_no_panic. rewrite Forall_forall in Het. by apply Het.
Qed.

Lemma CapsuleBuilder_write_eq b :
  builder_typed b →
  CapsuleBuilder_write b =
  if bool_decide (cb_kind b = Full) && existsb is_external (cb_chunks b)
  then Err ExternalChunkInFullCapsule
  else if (len (cb_chunks b) <? 2 ^ 32) && (capsule_size b + 7 <? 2 ^ 64)
  then Ok (capsule_file b)
  else Err Overflow.
Proof.
  intros Hb. pose proof Hb as [Hm Hc]. unfold CapsuleBuilder_write.
  destruct (bool_decide _ && _); [done|].
  unfold try_u32 at 1. destruct (len (cb_chunks b) <? 2 ^ 32) eqn:Hn; [|done].
  apply Z.ltb_lt in Hn. cbn [ok_or andb].
  assert (in_u32 (len (cb_chunks b))) as Hn32 by (unfold in_u32; len_facts; lia).
  rewrite (offsets_Ok _ (λ index_offset index_len index_end payload_offset, _)) by done.
  rewrite encode_manifest_Ok by done. fold (builder_start b).
  rewrite <- (payload_start_aligned (len (cb_chunks b))) at 1. fold (builder_start b).
  assert (0 ≤ builder_start b ∧ builder_start b + 7 < 2 ^ 64) as [Hs0 Hs1].
  { unfold builder_start, payload_start, HEADER_LEN, MANIFEST_LEN, INDEX_ENTRY_LEN. len_facts. lia. }
  rewrite layout_Ok by done. fold (capsule_size b).
  destruct (capsule_size b + 7 <? 2 ^ 64) eqn:Hfit; [|done]. apply Z.ltb_lt in Hfit.
  cbn [ly_entries ly_file_len app]. fold (builder_entries b).
  rewrite encode_index_Ok by (by apply builder_entries_digest).
  by apply write_copies.
Qed.


(** Reading what was written. *)
Lemma write_read b bs :
  builder_typed b → CapsuleBuilder_write b = Ok bs →
  CapsuleView_read bs = Ok (view_of Contract_CURRENT b).
Proof.
  intros Hb Hw. rewrite CapsuleBuilder_write_eq in Hw by done.
  destruct (bool_decide _ && _) eqn:Hfull; [done|].
  destruct ((len (cb_chunks b) <? 2 ^ 32) && _) eqn:Hfit; [|done].
  apply andb_true_iff in Hfit as [Hn%Z.ltb_lt Hsize%Z.ltb_lt]. injection Hw as <-.
  apply read_image. split; try done.
  - intros Hk. by rewrite bool_decide_eq_true_2 in Hfull.
  - unfold in_u32. len_facts. lia.
  - exists (body_from (builder_start b) (cb_chunks b)). split; [apply padded_body_from|done].
Qed.

(** A payload is within the file, so its length is a [u64]. *)
Lemma end_from_payload pos cs c bs :
  0 ≤ pos → c ∈ cs → cs_source c = Embedded bs → len bs ≤ end_from pos cs.
Proof.
  intros Hpos Hin. revert pos Hpos. induction Hin as [[k s] cs|[k s] [k' s'] cs Hin IH];
    intros pos Hpos Hs; simpl in *.
  - rewrite Hs. pose proof (end_from_ge (align8 pos + len bs) cs). pose proof (align8_bounds pos).
    lia.
  - pose proof (align8_bounds pos). destruct s' as [bs'|]; apply IH; try done.
    len_facts. lia.
Qed.

Lemma written_payload_len b bs c payload :
  builder_typed b → CapsuleBuilder_write b = Ok bs → c ∈ cb_chunks b →
  cs_source c = Embedded payload → len payload < 2 ^ 64.
Proof.
  intros Hb Hw Hin Hs. rewrite CapsuleBuilder_write_eq in Hw by done.
  destruct (bool_decide _ && _); [done|].
  destruct ((len (cb_chunks b) <? 2 ^ 32) && _) eqn:Hfit; [|done].
  apply andb_true_iff in Hfit as [_ Hsize%Z.ltb_lt].
  enough (len payload ≤ capsule_size b) by lia. eapply end_from_payload; [|done..].
  unfold builder_start, payload_start, HEADER_LEN, MANIFEST_LEN, INDEX_ENTRY_LEN. len_facts. lia.
Qed.

Lemma push_embedded_typed b k bs : builder_typed b → builder_typed (push_embedded b k bs).
Proof.
  intros [Hm Hc]. split; [done|]. simpl. apply Forall_app. split; [done|]. by repeat constructor.
Qed.

(** ** What the root hash determines *)

(** [x] is a contiguous part of [file]. *)
Definition contains (x file : bytes) : Prop := ∃ pre post, file = pre ++ x ++ post.
(** Two different parts of the two files with the same digest. *)
Definition collision_within (f1 f2 : bytes) : Prop :=
  ∃ x y, contains x f1 ∧ contains y f2 ∧ x ≠ y ∧ sha256 x = sha256 y.

Lemma contains_app_r x l k : contains x k → contains x (l ++ k).
Proof. intros (pre & post & ->). exists (l ++ pre), post. by rewrite app_assoc. Qed.
Lemma contains_prefix x k : contains x (x ++ k).
Proof. by exists [], k. Qed.

Lemma padded_contains pos cs body c x :
  padded pos cs body → c ∈ cs → cs_source c = Embedded x → contains x body.
Proof.
  induction 1 as [pos|pos pad k bs cs body Hpad Hp IH|pos k l h cs body Hp IH]; intros Hin Hs.
  - set_solver.
  - apply elem_of_cons in Hin as [->|Hin].
    + injection Hs as ->. apply contains_app_r, contains_prefix.
    + by apply contains_app_r, contains_app_r, IH.
  - apply elem_of_cons in Hin as [->|Hin]; [done|by apply IH].
Qed.

Lemma entries_determine_chunks pos cs cs' :
  entries_from pos cs = entries_from pos cs' →
  map chunk_view cs = map chunk_view cs' ∨
  ∃ c c' x y, c ∈ cs ∧ c' ∈ cs' ∧ cs_source c = Embedded x ∧ cs_source c' = Embedded y ∧
    x ≠ y ∧ sha256 x = sha256 y.
Proof.
  revert pos cs'. induction cs as [|[k [bs|l h]] cs IH]; intros pos [|[k' [bs'|l' h']] cs'];
    simpl; intros Heq; try done; [by left|..]; injection Heq.
  - intros Hrest Hsha Hlen ->. destruct (decide (bs = bs')) as [->|Hne].
    + apply IH in Hrest as [Hr|(c & c' & x & y & Hc & Hc' & ?)];
        [left; unfold chunk_view at 1 3; by rewrite Hr|right].
      exists c, c', x, y. split_and!; [by right|by right|naive_solver..].
    + right. eexists _, _, bs, bs'. split_and!; [left|left|done..].
  - intros Hrest -> -> ->.
    apply IH in Hrest as [Hr|(c & c' & x & y & Hc & Hc' & ?)];
      [left; unfold chunk_view at 1 3; by rewrite Hr|right].
    exists c, c', x, y. split_and!; [by right|by right|naive_solver..].
Qed.

Lemma image_contains c b bs :
  capsule_image c b bs →
  contains (manifest_bytes (builder_manifest b) ++ index_bytes (builder_entries b)) bs ∧
  ∀ k x, k ∈ cb_chunks b → cs_source k = Embedded x → contains x bs.
Proof.
  intros [_ _ _ _ _ (body & Hpad & ->)]. unfold file_with. split.
  - rewrite (app_assoc (manifest_bytes _)). apply contains_app_r, contains_prefix.
  - intros k x Hk Hx. do 3 apply contains_app_r. by eapply padded_contains.
Qed.

Lemma image_index c b bs :
  capsule_image c b bs →
  decode_manifest (manifest_bytes (builder_manifest b)) = Ok (builder_manifest b) ∧
  decode_index (index_bytes (builder_entries b)) (len (cb_chunks b)) = Ok (builder_entries b).
Proof.
  intros [_ Hb _ Hn Hfit _]. split; [by apply decode_manifest_Ok, Hb|].
  assert (len (builder_entries b) = len (cb_chunks b)) as Hl by apply len_entries_from.
  rewrite <- Hl. apply decode_index_Ok; [by rewrite Hl|].
  apply entries_typed; [|unfold capsule_size in Hfit; lia|apply Hb].
  unfold builder_start, payload_start, HEADER_LEN, MANIFEST_LEN, INDEX_ENTRY_LEN. len_facts. lia.
Qed.

Lemma root_determines c1 b1 bs1 c2 b2 bs2 :
  capsule_image c1 b1 bs1 → capsule_image c2 b2 bs2 → builder_root b1 = builder_root b2 →
  (builder_manifest b1 = builder_manifest b2 ∧
   map chunk_view (cb_chunks b1) = map chunk_view (cb_chunks b2)) ∨ collision_within bs1 bs2.
Proof.
  intros H1 H2 Hroot.
  destruct (decide (manifest_bytes (builder_manifest b1) ++ index_bytes (builder_entries b1) =
    manifest_bytes (builder_manifest b2) ++ index_bytes (builder_entries b2))) as [Heq|Hne].
  2:{ right. eexists _, _. split_and!; [apply (image_contains _ _ _ H1)|apply (image_contains _ _ _ H2)|done|done]. }
  destruct (image_index _ _ _ H1) as [Hm1 Hi1], (image_index _ _ _ H2) as [Hm2 Hi2].
  pose proof (image_typed _ _ _ H1) as Ht1. pose proof (image_typed _ _ _ H2) as Ht2.
  apply app_inj_1 in Heq as [Hm Hi].
  2:{ pose proof (len_manifest _ (proj1 Ht1)). pose proof (len_manifest _ (proj1 Ht2)).
      unfold manifest_bytes, len in *. lia. }
  assert (len (cb_chunks b1) = len (cb_chunks b2)) as Hn.
  { pose proof (len_builder_index b1 Ht1) as Hl. rewrite Hi, len_builder_index in Hl by done.
    unfold INDEX_ENTRY_LEN in Hl. lia. }
  rewrite Hm, Hm2 in Hm1. assert (builder_manifest b1 = builder_manifest b2) by congruence.
  rewrite Hi, Hn, Hi2 in Hi1. assert (builder_entries b1 = builder_entries b2) as He by congruence.
  unfold builder_entries, builder_start in He. rewrite Hn in He.
  apply entries_determine_chunks in He as [Hc|(c & c' & x & y & Hc & Hc' & Hx & Hy & Hxy & Hsha)];
    [by left|right].
  exists x, y. split_and!; [by eapply image_contains|by eapply image_contains|done|done].
Qed.

(** ** Properties *)

(** CapsuleBuilder::write on a typed builder is the closed form: the error for
    external chunks of a full capsule, Overflow exactly when the chunk count or the file
    length does not fit, and otherwise the file of the documented layout. *)
Theorem capsule_write_spec b :
  builder_typed b →
  CapsuleBuilder_write b =
  if bool_decide (cb_kind b = Full) && existsb is_external (cb_chunks b)
  then Err ExternalChunkInFullCapsule
  else if (len (cb_chunks b) <? 2 ^ 32) && (capsule_size b + 7 <? 2 ^ 64)
  then Ok (capsule_file b)
  else Err Overflow.
Proof. apply CapsuleBuilder_write_eq. Qed.

(** C3: The files CapsuleView::read accepts are exactly the images of a typed builder
    under a readable contract, with arbitrary bytes in the alignment gaps, and the view
    returned is the one of that builder. *)
Theorem capsule_read_accepts bs v :
  CapsuleView_read bs = Ok v ↔
  ∃ b, capsule_image (vw_contract v) b bs ∧ v = view_of (vw_contract v) b.
Proof.
  split; [apply read_image_inv|]. intros (b & Himg & ->). by apply read_image.
Qed.

(** C1: Whatever CapsuleBuilder::write produces, CapsuleView::read accepts, and the view
    it returns has the builder's kind, id, base root and chunks (payload, length and digest
    of each), under the current contract. *)
Theorem capsule_round_trip b bs :
  builder_typed b → CapsuleBuilder_write b = Ok bs →
  CapsuleView_read bs = Ok (view_of Contract_CURRENT b).
Proof. apply write_read. Qed.

(** CapsuleView::read panics on no input: every index and slice it takes is in range. *)
Theorem capsule_read_no_panic bs : CapsuleView_read bs ≠ Panic.
Proof. apply read_no_panic. Qed.

(** C2: Two capsule files that the reader accepts and that carry the same root hash have the
    same kind, id, base root and chunks, unless two different parts of the two files exhibit
    an SHA-256 collision. *)
Theorem capsule_root_binds_contents bs1 bs2 v1 v2 :
  CapsuleView_read bs1 = Ok v1 → CapsuleView_read bs2 = Ok v2 →
  vw_root_hash v1 = vw_root_hash v2 →
  (vw_kind v1 = vw_kind v2 ∧ vw_capsule_id v1 = vw_capsule_id v2 ∧
   vw_base_root v1 = vw_base_root v2 ∧ vw_chunks v1 = vw_chunks v2) ∨ collision_within bs1 bs2.
Proof.
  intros (b1 & H1 & ->)%read_image_inv (b2 & H2 & ->)%read_image_inv Hroot.
  destruct (root_determines _ _ _ _ _ _ H1 H2 Hroot) as [[Hm Hc]|]; [left|by right].
  injection Hm as Hk Hid Hbase. unfold view_of. cbn. by rewrite Hk, Hid, Hbase.
Qed.

(** ** Concrete capsules *)

(** Two chunks whose first leaves five bytes of padding, under a state
    manifest. *)
Definition sample_builder : CapsuleBuilder :=
  push_external
    (push_embedded (push_embedded (CapsuleBuilder_new State (zeros 16)) SecGraph
       (to_le 3 7)) SecTensors (to_le 2 9))
    SecRouter 5 (zeros 32).

Definition sample_capsule : bytes :=
  match CapsuleBuilder_write sample_builder with Ok bs => bs | _ => [] end.

Lemma sample_builder_typed : builder_typed sample_builder.
Proof. split; [split; vm_compute; done|]. repeat constructor; vm_compute; done. Qed.

Lemma sample_capsule_written : CapsuleBuilder_write sample_builder = Ok sample_capsule.
Proof. vm_compute. reflexivity. Qed.

Lemma capsule_write_spec_witness :
  builder_typed sample_builder ∧ CapsuleBuilder_write sample_builder = Ok sample_capsule.
Proof.
  split; [apply sample_builder_typed|].
  rewrite (capsule_write_spec sample_builder sample_builder_typed). vm_compute. reflexivity.
Defined.

Lemma capsule_round_trip_witness :
  CapsuleView_read sample_capsule = Ok (view_of Contract_CURRENT sample_builder).
Proof.
  apply (capsule_round_trip sample_builder sample_capsule sample_builder_typed).
  apply sample_capsule_written.
Defined.

(** Changing an alignment byte of a concrete capsule file yields a different file that
    the reader accepts with the same view. *)
Theorem capsule_padding_unauthenticated :
  ∃ bs, bs ≠ sample_capsule ∧ CapsuleView_read bs = CapsuleView_read sample_capsule ∧
    is_ok (CapsuleView_read bs) = true.
Proof.
  exists (<[339%nat := byte_of_Z 255]> sample_capsule).
  split; [|split]; vm_compute; done.
Qed.

Lemma capsule_root_binds_contents_witness :
  vw_kind (view_of Contract_CURRENT sample_builder) = State ∧
  (vw_chunks (view_of Contract_CURRENT sample_builder) =
   vw_chunks (view_of Contract_CURRENT sample_builder) ∨
   collision_within sample_capsule sample_capsule).
Proof.
  split; [done|].
  destruct (capsule_root_binds_contents sample_capsule sample_capsule
    (view_of Contract_CURRENT sample_builder) (view_of Contract_CURRENT sample_builder)) as [H|H].
  - vm_compute. reflexivity.
  - vm_compute. reflexivity.
  - done.
  - left. apply H.
  - by right.
Defined.
