(* ===== verification/IrCodec.v ===== *)
(** The binary encoding of IR graphs: src/crates/ntd-capsule/src/ir_codec.rs.

    [encode_graph] appends to a byte vector as the source does, [decode_graph]
    is the decoder over [Codec.Cursor].  The round trips are proved in both
    directions: decoding an encoding gives the graph back, and a byte string
    that decodes is the encoding of what it decodes to, so the format is
    canonical. *)
From S2P Require Import Prelude Text Capsule CapsuleLayout Codec Ir.

Definition IR_GRAPH_MAGIC : bytes := map byte_of_Z [78; 73; 82; 57; 55; 0].
Definition IR_GRAPH_HEADER_LEN : Z := 24.
Definition VALUE_DECL_LEN : Z := 8.
Definition NODE_HEADER_LEN : Z := 20.

Inductive IrCodecError :=
| Truncated
| InvalidMagic
| InvalidHeader
| InvalidValueType (tag : Z)
| InvalidDType (tag : Z)
| InvalidOpFamily (family : Z)
| InvalidOpCode (family opcode : Z)
| InvalidUtf8
| NonCanonicalEncoding
| UnsupportedVersion (v : IrVersion)
| StructuralValidation (e : ValidationError)
| Overflow.

(** The private [Cursor] of the file and its [take]. *)
#[export] Instance ir_cursor_errors : CursorErrors IrCodecError :=
  {| err_truncated := Truncated; err_cursor_overflow := Overflow |}.

(** ** Tags *)
Definition dtype_tag (d : DType) : Z :=
  match d with
  | F32 => 1 | F16 => 2 | Bf16 => 3 | I8 => 4 | U8 => 5 | I32 => 6 | I64 => 7 | Bool_ => 8
  end.

(** The table of [decode_dtype], shared by the files that have a copy of it. *)
Definition dtype_of_tag (tag : Z) : option DType :=
  match tag with
  | 1 => Some F32 | 2 => Some F16 | 3 => Some Bf16 | 4 => Some I8
  | 5 => Some U8 | 6 => Some I32 | 7 => Some I64 | 8 => Some Bool_
  | _ => None
  end.
Definition decode_dtype (tag : Z) : result IrCodecError DType :=
  ok_or (dtype_of_tag tag) (InvalidDType tag).

Definition tensor_op_tag (op : TensorOp) : Z :=
  match op with
  | Add => 1 | Mul => 2 | MatMul => 3 | QuantizedMatMul => 4 | RmsNorm => 5
  | Softmax => 6 | Gather => 7 | RotaryPosition => 8 | CausalAttention => 9
  | Silu => 10 | Reshape => 11 | Transpose => 12 | PositionIds => 13
  end.
Definition state_op_tag (op : StateOp) : Z :=
  match op with Read => 1 | Write => 2 | Checkpoint => 3 end.
Definition memory_op_tag (op : MemoryOp) : Z :=
  match op with Retrieve => 1 | Store => 2 | Forget => 3 end.
Definition control_op_tag (op : ControlOp) : Z :=
  match op with Select => 1 | Merge => 2 | Barrier => 3 end.

Definition encode_op (op : OpKind) : Z * Z * bytes :=
  match op with
  | OpTensor op => (1, tensor_op_tag op, [])
  | OpState op => (2, state_op_tag op, [])
  | OpMemory op => (3, memory_op_tag op, [])
  | OpControl op => (4, control_op_tag op, [])
  | OpTool (Invoke capability) => (5, 1, string_bytes capability)
  | OpTool Observe => (5, 2, [])
  | OpTool Verify => (5, 3, [])
  end.

Definition reject_attrs (attrs : bytes) : result IrCodecError unit :=
  match attrs with [] => Ok tt | _ => Err NonCanonicalEncoding end.

Definition decode_op (family opcode : Z) (attrs : bytes) : result IrCodecError OpKind :=
  match family with
  | 1 =>
      let? _ := reject_attrs attrs in
      match opcode with
      | 1 => Ok (OpTensor Add) | 2 => Ok (OpTensor Mul) | 3 => Ok (OpTensor MatMul)
      | 4 => Ok (OpTensor QuantizedMatMul) | 5 => Ok (OpTensor RmsNorm)
      | 6 => Ok (OpTensor Softmax) | 7 => Ok (OpTensor Gather)
      | 8 => Ok (OpTensor RotaryPosition) | 9 => Ok (OpTensor CausalAttention)
      | 10 => Ok (OpTensor Silu) | 11 => Ok (OpTensor Reshape)
      | 12 => Ok (OpTensor Transpose) | 13 => Ok (OpTensor PositionIds)
      | other => Err (InvalidOpCode family other)
      end
  | 2 =>
      let? _ := reject_attrs attrs in
      match opcode with
      | 1 => Ok (OpState Read) | 2 => Ok (OpState Write) | 3 => Ok (OpState Checkpoint)
      | other => Err (InvalidOpCode family other)
      end
  | 3 =>
      let? _ := reject_attrs attrs in
      match opcode with
      | 1 => Ok (OpMemory Retrieve) | 2 => Ok (OpMemory Store) | 3 => Ok (OpMemory Forget)
      | other => Err (InvalidOpCode family other)
      end
  | 4 =>
      let? _ := reject_attrs attrs in
      match opcode with
      | 1 => Ok (OpControl Select) | 2 => Ok (OpControl Merge) | 3 => Ok (OpControl Barrier)
      | other => Err (InvalidOpCode family other)
      end
  | 5 =>
      match opcode with
      | 1 => let? s := ok_or (from_utf8 attrs) InvalidUtf8 in Ok (OpTool (Invoke s))
      | 2 => let? _ := reject_attrs attrs in Ok (OpTool Observe)
      | 3 => let? _ := reject_attrs attrs in Ok (OpTool Verify)
      | other => Err (InvalidOpCode family other)
      end
  | other => Err (InvalidOpFamily other)
  end.

(** ** Encoding *)
Definition encode_value_decl (out : bytes) (value : ValueDecl) : bytes :=
  let out := push_u32 out (vd_id value) in
  match vd_ty value with
  | Scalar dtype => push_u8 (push_u8 (push_u8 (push_u8 out 1) (dtype_tag dtype)) 0) 0
  | Tensor dtype rank => push_u8 (push_u8 (push_u8 (push_u8 out 2) (dtype_tag dtype)) rank) 0
  | Bytes => push_u8 (push_u8 (push_u8 (push_u8 out 3) 0) 0) 0
  | Handle => push_u8 (push_u8 (push_u8 (push_u8 out 4) 0) 0) 0
  end.

Definition encode_node (out : bytes) (node : Node) : result IrCodecError bytes :=
  let '(family, opcode, attrs) := encode_op (n_op node) in
  let? input_count := ok_or (try_u32 (len (n_inputs node))) Overflow in
  let? output_count := ok_or (try_u32 (len (n_outputs node))) Overflow in
  let? attr_len := ok_or (try_u32 (len attrs)) Overflow in
  let out := push_u32 out (n_id node) in
  let out := push_u8 out family in
  let out := push_u8 out opcode in
  let out := push_u16 out 0 in
  let out := push_u32 out input_count in
  let out := push_u32 out output_count in
  let out := push_u32 out attr_len in
  let out := fold_left push_u32 (n_inputs node) out in
  let out := fold_left encode_value_decl (n_outputs node) out in
  Ok (out ++ attrs).

Definition encode_graph (graph : Graph) : result IrCodecError bytes :=
  if negb (IrVersion_can_read IrVersion_CURRENT (g_version graph))
  then Err (UnsupportedVersion (g_version graph))
  else
    let? _ := map_err StructuralValidation (Graph_validate graph) in
    let? input_count := ok_or (try_u32 (len (g_inputs graph))) Overflow in
    let? output_count := ok_or (try_u32 (len (g_outputs graph))) Overflow in
    let? node_count := ok_or (try_u32 (len (g_nodes graph))) Overflow in
    let out := IR_GRAPH_MAGIC in
    let out := push_u16 out IR_GRAPH_HEADER_LEN in
    let out := push_u16 out (ir_major (g_version graph)) in
    let out := push_u16 out (ir_minor (g_version graph)) in
    let out := push_u32 out input_count in
    let out := push_u32 out output_count in
    let out := push_u32 out node_count in
    let out := fold_left encode_value_decl (g_inputs graph) out in
    let out := fold_left push_u32 (g_outputs graph) out in
    fold_result encode_node out (g_nodes graph).

(** ** Decoding *)
Definition decode_value_decl : decoder IrCodecError ValueDecl :=
  dec! id <- read_u32;
  dec! ty_tag <- read_u8;
  dec! dtype_tag <- read_u8;
  dec! rank <- read_u8;
  dec! reserved <- read_u8;
  dec! _ <- dec_guard (reserved =? 0) NonCanonicalEncoding;
  dec! ty <- dec_lift (match ty_tag with
    | 1 => if negb (rank =? 0) then Err NonCanonicalEncoding
           else let? d := decode_dtype dtype_tag in Ok (Scalar d)
    | 2 => let? d := decode_dtype dtype_tag in Ok (Tensor d rank)
    | 3 => if negb (dtype_tag =? 0) || negb (rank =? 0) then Err NonCanonicalEncoding
           else Ok Bytes
    | 4 => if negb (dtype_tag =? 0) || negb (rank =? 0) then Err NonCanonicalEncoding
           else Ok Handle
    | other => Err (InvalidValueType other)
    end);
  dec_ret (mkValueDecl id ty).

Definition decode_node : decoder IrCodecError Node :=
  dec! id <- read_u32;
  dec! family <- read_u8;
  dec! opcode <- read_u8;
  dec! reserved <- read_u16;
  dec! _ <- dec_guard (reserved =? 0) NonCanonicalEncoding;
  dec! input_count <- read_u32;
  dec! output_count <- read_u32;
  dec! attr_len <- read_u32;
  dec! inputs <- read_vec Overflow input_count read_u32;
  dec! outputs <- read_vec Overflow output_count decode_value_decl;
  dec! n <- dec_lift (ok_or (try_usize attr_len) Overflow);
  dec! attrs <- take_bytes n;
  dec! op <- dec_lift (decode_op family opcode attrs);
  dec_ret (mkNode id op inputs outputs).

Definition decode_graph_at : decoder IrCodecError Graph :=
  dec! magic <- take_bytes 6;
  dec! _ <- dec_guard (bytes_eqb magic IR_GRAPH_MAGIC) InvalidMagic;
  dec! header_len <- read_u16;
  dec! _ <- dec_guard (header_len =? IR_GRAPH_HEADER_LEN) InvalidHeader;
  dec! major <- read_u16;
  dec! minor <- read_u16;
  dec! _ <- dec_guard (IrVersion_can_read IrVersion_CURRENT (mkIrVersion major minor))
              (UnsupportedVersion (mkIrVersion major minor));
  dec! input_count <- read_u32;
  dec! output_count <- read_u32;
  dec! node_count <- read_u32;
  dec! inputs <- read_vec Overflow input_count decode_value_decl;
  dec! outputs <- read_vec Overflow output_count read_u32;
  dec! nodes <- read_vec Overflow node_count decode_node;
  dec! _ <- expect_finished NonCanonicalEncoding;
  let graph := mkGraph (mkIrVersion major minor) inputs outputs nodes in
  dec! _ <- dec_lift (map_err StructuralValidation (Graph_validate graph));
  dec_ret graph.

Definition decode_graph (bs : bytes) : result IrCodecError Graph :=
  run_decoder decode_graph_at bs.

(** ** The encoded blocks *)
Definition value_decl_bytes (v : ValueDecl) : bytes := encode_value_decl [] v.

Definition node_bytes (n : Node) : bytes :=
  let '(family, opcode, attrs) := encode_op (n_op n) in
  to_le 4 (n_id n) ++ to_le 1 family ++ to_le 1 opcode ++ to_le 2 0 ++
  to_le 4 (len (n_inputs n)) ++ to_le 4 (len (n_outputs n)) ++ to_le 4 (len attrs) ++
  concat (map (to_le 4) (n_inputs n)) ++ concat (map value_decl_bytes (n_outputs n)) ++
  attrs.

Definition graph_bytes (g : Graph) : bytes :=
  IR_GRAPH_MAGIC ++ to_le 2 IR_GRAPH_HEADER_LEN ++
  to_le 2 (ir_major (g_version g)) ++ to_le 2 (ir_minor (g_version g)) ++
  to_le 4 (len (g_inputs g)) ++ to_le 4 (len (g_outputs g)) ++ to_le 4 (len (g_nodes g)) ++
  concat (map value_decl_bytes (g_inputs g)) ++ concat (map (to_le 4) (g_outputs g)) ++
  concat (map node_bytes (g_nodes g)).

(** The ranges of the Rust field types, and the [u32] counts of the format. *)
Definition type_typed (t : ValueType) : Prop :=
  match t with Tensor _ rank => in_u8 rank | _ => True end.
Definition decl_typed (d : ValueDecl) : Prop := in_u32 (vd_id d) ∧ type_typed (vd_ty d).
Definition op_typed (op : OpKind) : Prop :=
  match op with OpTool (Invoke s) => is_utf8 s | _ => True end.

Record node_typed (n : Node) : Prop := {
  nt_id : in_u32 (n_id n);
  nt_op : op_typed (n_op n);
  nt_inputs : Forall in_u32 (n_inputs n);
  nt_outputs : Forall decl_typed (n_outputs n);
}.
Definition node_fits (n : Node) : Prop :=
  len (n_inputs n) < 2 ^ 32 ∧ len (n_outputs n) < 2 ^ 32 ∧ len (encode_op (n_op n)).2 < 2 ^ 32.

Record graph_typed (g : Graph) : Prop := {
  gt_major : in_u16 (ir_major (g_version g));
  gt_minor : in_u16 (ir_minor (g_version g));
  gt_inputs : Forall decl_typed (g_inputs g);
  gt_outputs : Forall in_u32 (g_outputs g);
  gt_nodes : Forall node_typed (g_nodes g);
}.
Record graph_fits (g : Graph) : Prop := {
  gf_inputs : len (g_inputs g) < 2 ^ 32;
  gf_outputs : len (g_outputs g) < 2 ^ 32;
  gf_node_count : len (g_nodes g) < 2 ^ 32;
  gf_nodes : Forall node_fits (g_nodes g);
}.

Lemma encode_value_decl_app out v :
  encode_value_decl out v = out ++ value_decl_bytes v.
Proof.
  unfold value_decl_bytes, encode_value_decl, push_u8, push_u32.
  destruct (vd_ty v); rewrite <- !app_assoc; done.
Qed.

Lemma fold_encode_value_decl ds out :
  fold_left encode_value_decl ds out = out ++ concat (map value_decl_bytes ds).
Proof. apply fold_left_append. intros. apply encode_value_decl_app. Qed.

Lemma try_u32_Ok {A} (l : list A) : len l < 2 ^ 32 → try_u32 (len l) = Some (len l).
Proof. intros Hl. unfold try_u32. by rewrite (proj2 (Z.ltb_lt _ _) Hl). Qed.

Lemma ok_or_try_u32 {E} z (e : E) n : ok_or (try_u32 z) e = Ok n ↔ n = z ∧ z < 2 ^ 32.
Proof.
  unfold try_u32. destruct (z <? 2 ^ 32) eqn:Hz; simpl.
  - apply Z.ltb_lt in Hz. naive_solver.
  - apply Z.ltb_ge in Hz. split; [done|]. lia.
Qed.

Lemma encode_node_Ok out n r :
  encode_node out n = Ok r ↔ node_fits n ∧ r = out ++ node_bytes n.
Proof.
  unfold encode_node, node_fits, node_bytes.
  destruct (encode_op (n_op n)) as [[family opcode] attrs]. cbn [snd].
  unfold try_u32.
  destruct (Z.ltb_spec (len (n_inputs n)) (2 ^ 32)); simpl; [|split; [done|lia]].
  destruct (Z.ltb_spec (len (n_outputs n)) (2 ^ 32)); simpl; [|split; [done|lia]].
  destruct (Z.ltb_spec (len attrs) (2 ^ 32)); simpl; [|split; [done|lia]].
  rewrite fold_encode_value_decl, fold_left_push_u32.
  unfold push_u32, push_u16, push_u8. rewrite <- !app_assoc.
  split; [by intros [= <-]|by intros [_ ->]].
Qed.

Lemma encode_nodes_Ok ns out r :
  fold_result encode_node out ns = Ok r ↔
  Forall node_fits ns ∧ r = out ++ concat (map node_bytes ns).
Proof. apply fold_result_append, encode_node_Ok. Qed.

(** The encoder succeeds on exactly the well-formed graphs that fit, and its
    output is [graph_bytes]. *)
Lemma encode_graph_Ok_iff g r :
  encode_graph g = Ok r ↔ well_formed g ∧ graph_fits g ∧ r = graph_bytes g.
Proof.
  assert (Hfit : graph_fits g ↔ len (g_inputs g) < 2 ^ 32 ∧ len (g_outputs g) < 2 ^ 32 ∧
    len (g_nodes g) < 2 ^ 32 ∧ Forall node_fits (g_nodes g)).
  { split; [by intros []|by intros (? & ? & ? & ?)]. }
  rewrite Hfit, <- Graph_validate_Ok_iff. unfold encode_graph.
  destruct (IrVersion_can_read _ _) eqn:Hver; simpl.
  - destruct (Graph_validate g) as [[]| |]; simpl; [|naive_solver..].
    unfold try_u32.
    destruct (Z.ltb_spec (len (g_inputs g)) (2 ^ 32)); simpl; [|split; [done|lia]].
    destruct (Z.ltb_spec (len (g_outputs g)) (2 ^ 32)); simpl; [|split; [done|lia]].
    destruct (Z.ltb_spec (len (g_nodes g)) (2 ^ 32)); simpl; [|split; [done|lia]].
    rewrite fold_left_push_u32, fold_encode_value_decl, encode_nodes_Ok.
    unfold push_u32, push_u16, graph_bytes. rewrite <- !app_assoc. tauto.
  - split; [done|]. intros [Hv _]. exfalso.
    unfold Graph_validate in Hv. by rewrite Hver in Hv.
Qed.

(** ** Decoding what was encoded *)
Lemma dtype_of_tag_tag d : dtype_of_tag (dtype_tag d) = Some d.
Proof. by destruct d. Qed.

Lemma dtype_of_tag_Some t d : dtype_of_tag t = Some d → t = dtype_tag d.
Proof. unfold dtype_of_tag. repeat case_match; by intros [= <-]. Qed.

Lemma dtype_tag_u8 d : in_u8 (dtype_tag d).
Proof. unfold in_u8. destruct d; simpl; lia. Qed.

Lemma value_decl_bytes_eq v : value_decl_bytes v = to_le 4 (vd_id v) ++
  match vd_ty v with
  | Scalar d => to_le 1 1 ++ to_le 1 (dtype_tag d) ++ to_le 1 0 ++ to_le 1 0
  | Tensor d r => to_le 1 2 ++ to_le 1 (dtype_tag d) ++ to_le 1 r ++ to_le 1 0
  | Bytes => to_le 1 3 ++ to_le 1 0 ++ to_le 1 0 ++ to_le 1 0
  | Handle => to_le 1 4 ++ to_le 1 0 ++ to_le 1 0 ++ to_le 1 0
  end.
Proof.
  unfold value_decl_bytes, encode_value_decl, push_u8, push_u32.
  destruct (vd_ty v); by rewrite <- !app_assoc.
Qed.

Lemma in_u8_const z : 0 ≤ z < 256 → in_u8 z.
Proof. done. Qed.

Lemma reads_value_decl v : decl_typed v → reads decode_value_decl (value_decl_bytes v) v.
Proof.
  intros [Hid Hty]. rewrite value_decl_bytes_eq. destruct v as [id ty]. cbn [vd_id vd_ty] in *.
  unfold decode_value_decl.
  eapply reads_bind; [by apply reads_u32|].
  destruct ty as [d|d r| |]; cbn [type_typed] in Hty;
    (do 4 (first [eapply reads_bind|eapply reads_bind_last];
      [apply reads_u8; first [apply dtype_tag_u8|assumption|apply in_u8_const; lia]|]));
    (eapply reads_bind_nil; [by apply reads_guard|]);
    (eapply reads_bind_nil; [apply reads_lift|apply reads_ret]); cbn;
    unfold decode_dtype; rewrite ?dtype_of_tag_tag; reflexivity.
Qed.

Lemma parses_value_decl :
  parses decode_value_decl (λ l v, l = value_decl_bytes v ∧ decl_typed v).
Proof.
  parse_start H. unfold decode_value_decl in H.
  do 7 parse_step H. parse_done H.
  destruct Hr as [-> Hid], Hr0 as [-> _], Hr1 as [-> _], Hr2 as [-> Hrank],
    Hr3 as [-> _], Hr4 as [-> Hres], Hr5 as [-> Hty].
  apply Z.eqb_eq in Hres as ->. rewrite value_decl_bytes_eq. unfold decl_typed.
  cbn [vd_id vd_ty app]. rewrite <- ?app_assoc, ?app_nil_r.
  unfold decode_dtype in Hty.
  destruct a0 as [|[[| |]|[|[]|]|]|]; try discriminate Hty;
    repeat (case_match; try discriminate Hty); simplify_eq/=;
    repeat match goal with
    | H : ok_or _ _ = Ok _ |- _ => apply ok_or_Ok, dtype_of_tag_Some in H as ->
    | H : negb _ = false |- _ => apply negb_false_iff, Z.eqb_eq in H as ->
    | H : negb _ || negb _ = false |- _ =>
        apply orb_false_iff in H as [?%negb_false_iff%Z.eqb_eq ?%negb_false_iff%Z.eqb_eq];
        subst
    end; by rewrite <- ?app_assoc.
Qed.

Lemma decode_encode_op op : op_typed op →
  let '(family, opcode, attrs) := encode_op op in decode_op family opcode attrs = Ok op.
Proof.
  destruct op as [[]|[]|[]|[]|[s| |]]; intros Hop; try reflexivity.
  simpl. by rewrite from_utf8_string.
Qed.

Lemma encode_op_ranges op :
  let '(family, opcode, _) := encode_op op in in_u8 family ∧ in_u8 opcode.
Proof. destruct op as [[]|[]|[]|[]|[s| |]]; cbn; unfold in_u8; lia. Qed.

Lemma reject_attrs_Ok attrs u : reject_attrs attrs = Ok u → attrs = [].
Proof. by destruct attrs. Qed.

(** An opcode that decodes is the code of the operation it decodes to. *)
Lemma encode_decode_op family opcode attrs op :
  decode_op family opcode attrs = Ok op →
  encode_op op = (family, opcode, attrs) ∧ op_typed op.
Proof.
  unfold decode_op. intros Hd.
  repeat (case_match; try discriminate Hd); simplify_eq/=; try done;
    repeat match goal with
    | H : reject_attrs attrs = Ok _ |- _ => apply reject_attrs_Ok in H as ->
    | H : ok_or _ _ = Ok _ |- _ => apply ok_or_Ok, from_utf8_Some in H as [-> ?]
    end; try done.
Qed.

Lemma reads_node n : node_typed n → node_fits n → reads decode_node (node_bytes n) n.
Proof.
  intros [Hid Hop Hin Hout] (Hf1 & Hf2 & Hf3). unfold node_bytes, decode_node.
  pose proof (decode_encode_op (n_op n) Hop) as Hdec.
  pose proof (encode_op_ranges (n_op n)) as Hrange.
  destruct (encode_op (n_op n)) as [[family opcode] attrs]. cbn [snd] in Hf3.
  destruct Hrange as [Hfam Hopc].
  assert (∀ {A} (l : list A), len l < 2 ^ 32 → in_u32 (len l))
    by (intros A l ?; pose proof (len_nonneg l); done).
  do 3 (eapply reads_bind; [first [by apply reads_u32|by apply reads_u8]|]).
  eapply reads_bind; [by apply reads_u16|].
  eapply reads_bind_nil; [by apply reads_guard|].
  do 3 (eapply reads_bind; [apply reads_u32; by auto|]).
  eapply reads_bind.
  { apply reads_vec; [lia|]. eapply Forall_impl; [done|]. apply reads_u32. }
  eapply reads_bind.
  { apply reads_vec; [lia|]. eapply Forall_impl; [done|]. apply reads_value_decl. }
  eapply reads_bind_nil.
  { apply reads_lift. unfold try_usize, try_u64.
    rewrite (proj2 (Z.ltb_lt (len attrs) (2 ^ 64))) by lia. reflexivity. }
  eapply reads_bind_last; [by apply reads_take|].
  eapply reads_bind_nil; [by apply reads_lift|]. destruct n. apply reads_ret.
Qed.

Lemma parses_node :
  parses decode_node (λ l n, l = node_bytes n ∧ node_typed n ∧ node_fits n).
Proof.
  parse_start H. unfold decode_node in H. do 8 parse_step H.
  destruct Hr as [-> Hid], Hr0 as [-> _], Hr1 as [-> _], Hr2 as [-> _],
    Hr3 as [-> Hres%Z.eqb_eq], Hr4 as [-> Hic], Hr5 as [-> Hoc], Hr6 as [-> Hal].
  subst a2.
  eapply parses_step in H; [|apply (parses_vec _ (to_le 4) in_u32); [by apply in_u32_nonneg|apply parses_u32]].
  destruct H as (l & post7 & inputs & -> & (-> & Hil & Hinputs) & H).
  eapply parses_step in H; [|apply (parses_vec _ value_decl_bytes decl_typed);
    [by apply in_u32_nonneg|apply parses_value_decl]].
  destruct H as (l & post8 & outputs & -> & (-> & Hol & Houtputs) & H).
  do 3 parse_step H. parse_done H.
  destruct Hr as [-> Hn], Hr0 as [-> Hlen], Hr1 as [-> Hop].
  unfold try_usize, try_u64 in Hn. case_match; [|done]. simplify_eq/=.
  apply encode_decode_op in Hop as [Hop Htyped].
  split; [|split].
  - unfold node_bytes. cbn [n_op n_id n_inputs n_outputs]. rewrite Hop.
    rewrite ?app_nil_r, <- ?app_assoc.
    congruence.
  - by constructor.
  - unfold node_fits. cbn [n_op n_id n_inputs n_outputs]. rewrite Hop. cbn [snd].
    unfold in_u32 in *. lia.
Qed.

Lemma reads_graph g :
  graph_typed g → graph_fits g → well_formed g →
  reads_end decode_graph_at (graph_bytes g) g.
Proof.
  intros [Hma Hmi Hin Hout Hns] [Hf1 Hf2 Hf3 Hfn] Hwf. unfold graph_bytes, decode_graph_at.
  pose proof (wf_version g Hwf) as Hver. apply Graph_validate_Ok_iff in Hwf.
  assert (∀ {A} (l : list A), len l < 2 ^ 32 → in_u32 (len l))
    by (intros A l ?; pose proof (len_nonneg l); done).
  eapply reads_end_bind; [by apply reads_take|].
  eapply reads_end_bind_nil; [by apply reads_guard|].
  eapply reads_end_bind; [by apply reads_u16|].
  eapply reads_end_bind_nil; [by apply reads_guard|].
  do 2 (eapply reads_end_bind; [by apply reads_u16|]).
  eapply reads_end_bind_nil; [apply reads_guard; by destruct (g_version g)|].
  do 3 (eapply reads_end_bind; [apply reads_u32; by auto|]).
  eapply reads_end_bind.
  { apply reads_vec; [lia|]. eapply Forall_impl; [done|]. apply reads_value_decl. }
  eapply reads_end_bind.
  { apply reads_vec; [lia|]. eapply Forall_impl; [done|]. apply reads_u32. }
  rewrite <- (app_nil_r (concat (map node_bytes _))).
  eapply reads_end_bind.
  { apply reads_vec; [lia|]. rewrite Forall_forall in *. intros n Hn.
    apply reads_node; auto. }
  apply reads_end_finished. cbv zeta.
  replace (mkGraph _ _ _ _) with g by (by destruct g as [[] ? ? ?]).
  apply reads_reads_end. eapply reads_bind_nil; [|apply reads_ret].
  apply reads_lift. by rewrite Hwf.
Qed.

(** The whole of [decode_graph]: what it accepts is the encoding of a typed,
    well-formed graph. *)
Lemma decode_graph_Ok bs g :
  decode_graph bs = Ok g →
  bs = graph_bytes g ∧ graph_typed g ∧ graph_fits g ∧ well_formed g.
Proof.
  unfold decode_graph, run_decoder.
  destruct (decode_graph_at (cursor_new bs)) as [[g' c]| |] eqn:H; [|done..].
  intros [= <-]. change (cursor_new bs) with (at_ ([] ++ []) bs) in H.
  unfold decode_graph_at in H. do 10 parse_step H.
  destruct Hr as [-> _], Hr0 as [-> Hmagic], Hr1 as [-> _], Hr2 as [-> Hhl],
    Hr3 as [-> Hma], Hr4 as [-> Hmi], Hr5 as [-> Hver], Hr6 as [-> Hic],
    Hr7 as [-> Hoc], Hr8 as [-> Hnc].
  apply bool_decide_eq_true in Hmagic as ->. apply Z.eqb_eq in Hhl as ->.
  eapply parses_step in H; [|apply (parses_vec _ value_decl_bytes decl_typed);
    [by apply in_u32_nonneg|apply parses_value_decl]].
  destruct H as (l & post10 & inputs & -> & (-> & Hil & Hinputs) & H).
  eapply parses_step in H; [|apply (parses_vec _ (to_le 4) in_u32); [by apply in_u32_nonneg|apply parses_u32]].
  destruct H as (l & post11 & outputs & -> & (-> & Hol & Houtputs) & H).
  eapply parses_step in H; [|apply (parses_vec _ node_bytes (λ n, node_typed n ∧ node_fits n));
    [by apply in_u32_nonneg|apply parses_node]].
  destruct H as (l & post12 & nodes & -> & (-> & Hnl & Hnodes) & H).
  apply step_finished in H as [-> H]. cbv zeta in H.
  apply step_lift in H as ([] & Hval & H). apply parses_step_ret in H as [-> _].
  assert (Hwf : Graph_validate (mkGraph (mkIrVersion a3 a4) inputs outputs nodes) = Ok tt).
  { by destruct (Graph_validate _) as [[]| |]. }
  apply Graph_validate_Ok_iff in Hwf. apply Forall_and in Hnodes as [Hnt Hnf].
  split_and!; [|by constructor|constructor; simpl; unfold in_u32 in *; (lia || done)|done].
  unfold graph_bytes. simpl. rewrite Hil, Hol, Hnl.
  by rewrite ?app_nil_r, <- ?app_assoc.
Qed.

(** ** Absence of panics *)
Lemma decode_dtype_no_panic t : no_panic (decode_dtype t).
Proof. apply ok_or_no_panic. Qed.
Lemma reject_attrs_no_panic attrs : no_panic (reject_attrs attrs).
Proof. by destruct attrs. Qed.
#[local] Hint Resolve decode_dtype_no_panic reject_attrs_no_panic : no_panic.

Lemma decode_op_no_panic family opcode attrs : no_panic (decode_op family opcode attrs).
Proof. unfold decode_op. repeat np_step. Qed.

Lemma validated_no_panic g : no_panic (map_err StructuralValidation (Graph_validate g)).
Proof. pose proof (Graph_validate_no_panic g). by destruct (Graph_validate g). Qed.

Lemma decode_value_decl_safe : safe decode_value_decl.
Proof. unfold decode_value_decl. solve_safe. Qed.

#[local] Hint Resolve decode_value_decl_safe : codec.
#[local] Hint Resolve decode_op_no_panic validated_no_panic : no_panic.

Lemma decode_graph_no_panic bs : no_panic (decode_graph bs).
Proof.
  apply safe_run. unfold decode_graph_at, decode_node. solve_safe.
Qed.

(** ** The graph section *)
Inductive GraphSectionError :=
| WrongSection (k : SectionKind)
| ExternalGraph
| CodecError (e : IrCodecError).

Definition push_graph_section (builder : CapsuleBuilder) (graph : Graph)
  : result IrCodecError CapsuleBuilder :=
  let? bs := encode_graph graph in Ok (push_embedded builder SecGraph bs).

Definition decode_graph_section (chunk : ChunkView) : result GraphSectionError Graph :=
  if negb (bool_decide (ck_kind chunk = SecGraph)) then Err (WrongSection (ck_kind chunk))
  else match ck_storage chunk with
       | StoredEmbedded bs => map_err CodecError (decode_graph bs)
       | StoredExternal => Err ExternalGraph
       end.

Lemma decode_encode_graph g bs :
  graph_typed g → len bs < 2 ^ 64 → encode_graph g = Ok bs → decode_graph bs = Ok g.
Proof.
  intros Ht Hlen (Hwf & Hfit & ->)%encode_graph_Ok_iff.
  apply run_decoder_reads; [done|]. by apply reads_graph.
Qed.

(** ** The properties *)

(** C14: Decoding the encoding of a typed graph gives the graph back. *)
Theorem graph_round_trip g bs :
  graph_typed g → len bs < 2 ^ 64 →
  encode_graph g = Ok bs → decode_graph bs = Ok g.
Proof. apply decode_encode_graph. Qed.

(** A byte string that decodes to a graph is the encoding of that graph, and the graph
    is well formed and typed. *)
Theorem graph_encoding_canonical bs g :
  decode_graph bs = Ok g → encode_graph g = Ok bs ∧ well_formed g ∧ graph_typed g.
Proof.
  intros (-> & Ht & Hf & Hwf)%decode_graph_Ok. split; [|done].
  by apply encode_graph_Ok_iff.
Qed.

(** A graph pushed as a section of a builder comes back from the last chunk of the
    capsule file that was written. *)
Theorem graph_section_round_trip b g b' bs :
  builder_typed b → graph_typed g →
  push_graph_section b g = Ok b' → CapsuleBuilder_write b' = Ok bs →
  ∃ v chunk, CapsuleView_read bs = Ok v ∧
    vw_chunks v = map chunk_view (cb_chunks b) ++ [chunk] ∧ decode_graph_section chunk = Ok g.
Proof.
  intros Hb Hg Hpush Hw. unfold push_graph_section in Hpush.
  destruct (encode_graph g) as [gb| |] eqn:Henc; [|done..]. injection Hpush as <-.
  pose proof (push_embedded_typed b SecGraph gb Hb) as Hb'.
  exists (view_of Contract_CURRENT (push_embedded b SecGraph gb)),
    (chunk_view (mkChunkSpec SecGraph (Embedded gb))).
  split_and!; [by apply write_read|simpl; by rewrite map_app|].
  unfold decode_graph_section. simpl. rewrite (decode_encode_graph g gb); try done.
  apply (written_payload_len _ bs (mkChunkSpec SecGraph (Embedded gb)) gb Hb'); try done.
  simpl. apply elem_of_app. right. by apply list_elem_of_singleton.
Qed.

(** ** A concrete graph *)
Lemma sample_ir_graph_typed : graph_typed sample_ir_graph.
Proof. constructor; repeat constructor; vm_compute; done. Qed.
Definition sample_ir_bytes : bytes := graph_bytes sample_ir_graph.
Lemma sample_ir_encoded : encode_graph sample_ir_graph = Ok sample_ir_bytes.
Proof. vm_compute. reflexivity. Qed.

Lemma graph_round_trip_witness : decode_graph sample_ir_bytes = Ok sample_ir_graph.
Proof.
  apply (graph_round_trip sample_ir_graph sample_ir_bytes sample_ir_graph_typed).
  - vm_compute. reflexivity.
  - apply sample_ir_encoded.
Defined.

Lemma graph_encoding_canonical_witness :
  decode_graph sample_ir_bytes = Ok sample_ir_graph ∧ well_formed sample_ir_graph.
Proof.
  assert (decode_graph sample_ir_bytes = Ok sample_ir_graph) as H by (vm_compute; reflexivity).
  split; [exact H|]. exact (proj1 (proj2 (graph_encoding_canonical _ _ H))).
Defined.

Definition sample_graph_builder : CapsuleBuilder :=
  push_embedded sample_builder SecGraph sample_ir_bytes.
Definition sample_graph_file : bytes :=
  match CapsuleBuilder_write sample_graph_builder with Ok bs => bs | _ => [] end.

Lemma graph_section_round_trip_witness :
  ∃ v chunk, CapsuleView_read sample_graph_file = Ok v ∧ chunk ∈ vw_chunks v ∧
    decode_graph_section chunk = Ok sample_ir_graph.
Proof.
  destruct (graph_section_round_trip sample_builder sample_ir_graph sample_graph_builder
    sample_graph_file sample_builder_typed sample_ir_graph_typed) as (v & chunk & Hr & Hv & Hd).
  - vm_compute. reflexivity.
  - vm_compute. reflexivity.
  - exists v, chunk. split; [exact Hr|]. split; [|exact Hd].
    rewrite Hv. apply elem_of_app. right. apply list_elem_of_here.
Defined.
