(* ===== verification/Descriptors.v ===== *)
(** Tensor descriptor tables and descriptor frames:
    src/crates/ntd-capsule/src/descriptors.rs.

    The table records the version it was written under but the decoder drops
    it, so a table written by an older minor version decodes and re-encodes
    with the current one; [tensor_descriptors_canonical] states the encoding of
    such a table with its version word left open. *)
From S2P Require Import Prelude Text Codec Ir IrCodec.

Definition TENSOR_DESCRIPTOR_MAGIC : bytes := map byte_of_Z [78; 84; 83; 57; 55; 0].
Definition TENSOR_DESCRIPTOR_HEADER_LEN : Z := 16.
Definition TENSOR_RECORD_HEADER_LEN : Z := 16.
Definition DESCRIPTOR_FRAME_MAGIC : bytes := map byte_of_Z [78; 68; 70; 57; 55; 0].
Definition DESCRIPTOR_FRAME_HEADER_LEN : Z := 32.
Definition DESCRIPTOR_MAJOR : Z := 0.
Definition DESCRIPTOR_MINOR : Z := 1.

Record TensorDescriptor := mkTensorDescriptor {
  td_id : Z;
  td_dtype : DType;
  td_shape : list Z;
  td_byte_len : Z;
}.
#[export] Instance TensorDescriptor_eq_dec : EqDecision TensorDescriptor.
Proof. solve_decision. Defined.

Inductive DescriptorFrameKind := Tokenizer | CodecFrame.
#[export] Instance DescriptorFrameKind_eq_dec : EqDecision DescriptorFrameKind.
Proof. solve_decision. Defined.

Record DescriptorFrame := mkDescriptorFrame {
  df_kind : DescriptorFrameKind;
  df_format : string;
  df_payload : bytes;
}.

Inductive DescriptorError :=
| Truncated
| InvalidMagic
| InvalidHeader
| InvalidKind (v : Z)
| InvalidDType (v : Z)
| InvalidUtf8
| UnsupportedVersion (major minor : Z)
| NonCanonicalEncoding
| Overflow.

#[export] Instance descriptor_cursor_errors : CursorErrors DescriptorError :=
  {| err_truncated := Truncated; err_cursor_overflow := Overflow |}.

(** ** Tensor descriptor tables *)

(** The body of the loop of [encode_tensor_descriptors]. *)
Definition encode_descriptor (out : bytes) (descriptor : TensorDescriptor)
  : result DescriptorError bytes :=
  let? rank := ok_or (try_u8 (len (td_shape descriptor))) Overflow in
  let out := push_u32 out (td_id descriptor) in
  let out := push_u8 out (dtype_tag (td_dtype descriptor)) in
  let out := push_u8 out rank in
  let out := push_u16 out 0 in
  let out := push_u64 out (td_byte_len descriptor) in
  Ok (fold_left push_u64 (td_shape descriptor) out).

Definition encode_tensor_descriptors (descriptors : list TensorDescriptor)
  : result DescriptorError bytes :=
  let? count := ok_or (try_u32 (len descriptors)) Overflow in
  let out := TENSOR_DESCRIPTOR_MAGIC in
  let out := push_u16 out TENSOR_DESCRIPTOR_HEADER_LEN in
  let out := push_u16 out (ir_major IrVersion_CURRENT) in
  let out := push_u16 out (ir_minor IrVersion_CURRENT) in
  let out := push_u32 out count in
  fold_result encode_descriptor out descriptors.

(** [decode_dtype] with this file's error type. *)
Definition decode_dtype (tag : Z) : result DescriptorError DType :=
  ok_or (dtype_of_tag tag) (InvalidDType tag).

(** The body of the loop of [decode_tensor_descriptors]. *)
Definition decode_descriptor : decoder DescriptorError TensorDescriptor :=
  dec! id <- read_u32;
  dec! tag <- read_u8;
  dec! dtype <- dec_lift (decode_dtype tag);
  dec! rank <- read_u8;
  dec! reserved <- read_u16;
  dec! _ <- dec_guard (reserved =? 0) NonCanonicalEncoding;
  dec! byte_len <- read_u64;
  dec! shape <- read_many (Z.to_nat rank) read_u64;
  dec_ret (mkTensorDescriptor id dtype shape byte_len).

Definition decode_tensor_descriptors_at : decoder DescriptorError (list TensorDescriptor) :=
  dec! magic <- take_bytes 6;
  dec! _ <- dec_guard (bytes_eqb magic TENSOR_DESCRIPTOR_MAGIC) InvalidMagic;
  dec! header_len <- read_u16;
  dec! _ <- dec_guard (header_len =? TENSOR_DESCRIPTOR_HEADER_LEN) InvalidHeader;
  dec! major <- read_u16;
  dec! minor <- read_u16;
  dec! _ <- dec_guard (IrVersion_can_read IrVersion_CURRENT (mkIrVersion major minor))
              (UnsupportedVersion major minor);
  dec! count <- read_u32;
  dec! descriptors <- read_vec Overflow count decode_descriptor;
  dec! _ <- expect_finished NonCanonicalEncoding;
  dec_ret descriptors.

Definition decode_tensor_descriptors (bs : bytes) : result DescriptorError (list TensorDescriptor) :=
  run_decoder decode_tensor_descriptors_at bs.

(** ** Descriptor frames *)
Definition frame_kind_tag (k : DescriptorFrameKind) : Z :=
  match k with Tokenizer => 1 | CodecFrame => 2 end.
Definition frame_kind_of_tag (tag : Z) : result DescriptorError DescriptorFrameKind :=
  match tag with 1 => Ok Tokenizer | 2 => Ok CodecFrame | other => Err (InvalidKind other) end.

Definition encode_descriptor_frame (frame : DescriptorFrame) : result DescriptorError bytes :=
  let format := string_bytes (df_format frame) in
  let? format_len := ok_or (try_u32 (len format)) Overflow in
  let? payload_len := ok_or (try_u64 (len (df_payload frame))) Overflow in
  let out := DESCRIPTOR_FRAME_MAGIC in
  let out := push_u16 out DESCRIPTOR_FRAME_HEADER_LEN in
  let out := push_u8 out (frame_kind_tag (df_kind frame)) in
  let out := push_u8 out 0 in
  let out := push_u16 out DESCRIPTOR_MAJOR in
  let out := push_u16 out DESCRIPTOR_MINOR in
  let out := push_u16 out 0 in
  let out := push_u32 out format_len in
  let out := push_u64 out payload_len in
  let out := push_u32 out 0 in
  Ok ((out ++ format) ++ df_payload frame).

Definition decode_descriptor_frame_at : decoder DescriptorError DescriptorFrame :=
  dec! magic <- take_bytes 6;
  dec! _ <- dec_guard (bytes_eqb magic DESCRIPTOR_FRAME_MAGIC) InvalidMagic;
  dec! header_len <- read_u16;
  dec! _ <- dec_guard (header_len =? DESCRIPTOR_FRAME_HEADER_LEN) InvalidHeader;
  dec! tag <- read_u8;
  dec! kind <- dec_lift (frame_kind_of_tag tag);
  dec! reserved <- read_u8;
  dec! _ <- dec_guard (reserved =? 0) NonCanonicalEncoding;
  dec! major <- read_u16;
  dec! minor <- read_u16;
  dec! _ <- dec_guard ((major =? DESCRIPTOR_MAJOR) && (minor <=? DESCRIPTOR_MINOR))
              (UnsupportedVersion major minor);
  dec! reserved <- read_u16;
  dec! _ <- dec_guard (reserved =? 0) NonCanonicalEncoding;
  dec! format_len <- read_u32;
  dec! payload_len <- read_u64;
  dec! reserved <- read_u32;
  dec! _ <- dec_guard (reserved =? 0) NonCanonicalEncoding;
  dec! n <- dec_lift (ok_or (try_usize format_len) Overflow);
  dec! format_bytes <- take_bytes n;
  dec! format <- dec_lift (ok_or (from_utf8 format_bytes) InvalidUtf8);
  dec! n <- dec_lift (ok_or (try_usize payload_len) Overflow);
  dec! payload <- take_bytes n;
  dec! _ <- expect_finished NonCanonicalEncoding;
  dec_ret (mkDescriptorFrame kind format payload).

Definition decode_descriptor_frame (bs : bytes) : result DescriptorError DescriptorFrame :=
  run_decoder decode_descriptor_frame_at bs.

(** ** The encoded blocks *)
Definition descriptor_bytes (d : TensorDescriptor) : bytes :=
  to_le 4 (td_id d) ++ to_le 1 (dtype_tag (td_dtype d)) ++ to_le 1 (len (td_shape d)) ++
  to_le 2 0 ++ to_le 8 (td_byte_len d) ++ concat (map (to_le 8) (td_shape d)).

(** A table written under version [v]. *)
Definition table_bytes (v : IrVersion) (ds : list TensorDescriptor) : bytes :=
  TENSOR_DESCRIPTOR_MAGIC ++ to_le 2 TENSOR_DESCRIPTOR_HEADER_LEN ++
  to_le 2 (ir_major v) ++ to_le 2 (ir_minor v) ++ to_le 4 (len ds) ++
  concat (map descriptor_bytes ds).

Definition frame_bytes (minor : Z) (f : DescriptorFrame) : bytes :=
  DESCRIPTOR_FRAME_MAGIC ++ to_le 2 DESCRIPTOR_FRAME_HEADER_LEN ++
  to_le 1 (frame_kind_tag (df_kind f)) ++ to_le 1 0 ++ to_le 2 DESCRIPTOR_MAJOR ++
  to_le 2 minor ++ to_le 2 0 ++ to_le 4 (len (string_bytes (df_format f))) ++
  to_le 8 (len (df_payload f)) ++ to_le 4 0 ++ string_bytes (df_format f) ++ df_payload f.

Record descriptor_typed (d : TensorDescriptor) : Prop := {
  dt_id : in_u32 (td_id d);
  dt_shape : Forall in_u64 (td_shape d);
  dt_byte_len : in_u64 (td_byte_len d);
}.
Definition descriptor_fits (d : TensorDescriptor) : Prop := len (td_shape d) < 2 ^ 8.
Definition version_typed (v : IrVersion) : Prop := in_u16 (ir_major v) ∧ in_u16 (ir_minor v).

Lemma encode_descriptor_Ok out d r :
  encode_descriptor out d = Ok r ↔ descriptor_fits d ∧ r = out ++ descriptor_bytes d.
Proof.
  unfold encode_descriptor, descriptor_fits, descriptor_bytes, try_u8.
  destruct (Z.ltb_spec (len (td_shape d)) (2 ^ 8)); simpl; [|split; [done|lia]].
  rewrite fold_left_push_u64. unfold push_u64, push_u32, push_u16, push_u8.
  rewrite <- !app_assoc. split; [by intros [= <-]|by intros [_ ->]].
Qed.

Lemma encode_descriptors_Ok ds out r :
  fold_result encode_descriptor out ds = Ok r ↔
  Forall descriptor_fits ds ∧ r = out ++ concat (map descriptor_bytes ds).
Proof. apply fold_result_append, encode_descriptor_Ok. Qed.

Lemma encode_table_Ok ds r :
  encode_tensor_descriptors ds = Ok r ↔
  len ds < 2 ^ 32 ∧ Forall descriptor_fits ds ∧ r = table_bytes IrVersion_CURRENT ds.
Proof.
  unfold encode_tensor_descriptors, try_u32.
  destruct (Z.ltb_spec (len ds) (2 ^ 32)); simpl; [|split; [done|lia]].
  rewrite encode_descriptors_Ok. unfold table_bytes, push_u32, push_u16.
  rewrite <- !app_assoc. simpl. tauto.
Qed.

(** ** Decoding *)
Lemma decode_dtype_tag d : decode_dtype (dtype_tag d) = Ok d.
Proof. unfold decode_dtype. by rewrite dtype_of_tag_tag. Qed.
Lemma decode_dtype_Ok t d : decode_dtype t = Ok d → t = dtype_tag d.
Proof. intros H%ok_or_Ok. by apply dtype_of_tag_Some. Qed.

Lemma frame_kind_of_tag_tag k : frame_kind_of_tag (frame_kind_tag k) = Ok k.
Proof. by destruct k. Qed.
Lemma frame_kind_of_tag_Ok t k : frame_kind_of_tag t = Ok k → t = frame_kind_tag k.
Proof. unfold frame_kind_of_tag. repeat case_match; by intros [= <-]. Qed.
Lemma frame_kind_tag_u8 k : in_u8 (frame_kind_tag k).
Proof. by destruct k. Qed.

Lemma reads_descriptor d :
  descriptor_typed d → descriptor_fits d → reads decode_descriptor (descriptor_bytes d) d.
Proof.
  intros [Hid Hsh Hbl] Hfit. unfold decode_descriptor, descriptor_bytes, descriptor_fits in *.
  eapply reads_bind; [by apply reads_u32|].
  eapply reads_bind; [apply reads_u8, dtype_tag_u8|].
  eapply reads_bind_nil; [apply reads_lift, decode_dtype_tag|].
  eapply reads_bind; [apply reads_u8; unfold in_u8; len_lia|].
  eapply reads_bind; [by apply reads_u16|].
  eapply reads_bind_nil; [by apply reads_guard|].
  eapply reads_bind; [by apply reads_u64|].
  rewrite to_nat_len. eapply reads_bind_last.
  - apply (reads_many _ (to_le 8)). eapply Forall_impl; [done|]. apply reads_u64.
  - destruct d. apply reads_ret.
Qed.

Lemma parses_descriptor :
  parses decode_descriptor (λ l d, l = descriptor_bytes d ∧ descriptor_typed d ∧ descriptor_fits d).
Proof.
  parse_start H. unfold decode_descriptor in H. do 7 parse_step H.
  destruct Hr as [-> Hid], Hr0 as [-> _], Hr1 as [-> Ht], Hr2 as [-> Hrank], Hr3 as [-> _],
    Hr4 as [-> Hres%Z.eqb_eq], Hr5 as [-> Hbl].
  eapply parses_step in H; [|apply (parses_many _ (to_le 8) in_u64); apply parses_u64].
  destruct H as (l & post6 & shape & -> & (-> & Hlen & Hsh) & H). parse_done H.
  apply decode_dtype_Ok in Ht. subst a0 a3.
  assert (len shape = a2) as Hl by (unfold len, in_u8 in *; lia).
  split; [|split; [by constructor|unfold descriptor_fits; simpl; unfold in_u8 in *; lia]].
  unfold descriptor_bytes. simpl. rewrite Hl. by rewrite ?app_nil_r, <- ?app_assoc.
Qed.

Lemma reads_tensor_table v ds :
  version_typed v → IrVersion_can_read IrVersion_CURRENT v = true → len ds < 2 ^ 32 →
  Forall descriptor_typed ds → Forall descriptor_fits ds →
  reads_end decode_tensor_descriptors_at (table_bytes v ds) ds.
Proof.
  intros [Hma Hmi] Hver Hlen Ht Hf. unfold decode_tensor_descriptors_at, table_bytes.
  eapply reads_end_bind; [by apply reads_take|].
  eapply reads_end_bind_nil; [by apply reads_guard|].
  eapply reads_end_bind; [by apply reads_u16|].
  eapply reads_end_bind_nil; [by apply reads_guard|].
  do 2 (eapply reads_end_bind; [by apply reads_u16|]).
  eapply reads_end_bind_nil; [apply reads_guard; by destruct v|].
  eapply reads_end_bind; [apply reads_u32; unfold in_u32; len_lia|].
  rewrite <- (app_nil_r (concat _)). eapply reads_end_bind.
  { apply reads_vec; [lia|]. rewrite Forall_forall in *. intros d Hd.
    apply reads_descriptor; auto. }
  apply reads_end_finished. apply reads_reads_end, reads_ret.
Qed.

Lemma decode_table_Ok bs ds :
  decode_tensor_descriptors bs = Ok ds →
  ∃ v, version_typed v ∧ IrVersion_can_read IrVersion_CURRENT v = true ∧ bs = table_bytes v ds ∧
    len ds < 2 ^ 32 ∧ Forall descriptor_typed ds ∧ Forall descriptor_fits ds.
Proof.
  unfold decode_tensor_descriptors, run_decoder.
  destruct (decode_tensor_descriptors_at (cursor_new bs)) as [[ds' c]| |] eqn:H; [|done..].
  intros [= <-]. change (cursor_new bs) with (at_ ([] ++ []) bs) in H.
  unfold decode_tensor_descriptors_at in H. do 8 parse_step H.
  destruct Hr as [-> _], Hr0 as [-> Hmagic], Hr1 as [-> _], Hr2 as [-> Hhl], Hr3 as [-> Hma],
    Hr4 as [-> Hmi], Hr5 as [-> Hver], Hr6 as [-> Hc].
  apply bool_decide_eq_true in Hmagic as ->. apply Z.eqb_eq in Hhl as ->.
  eapply parses_step in H; [|apply (parses_vec _ descriptor_bytes
    (λ d, descriptor_typed d ∧ descriptor_fits d)); [by apply in_u32_nonneg|
    apply parses_descriptor]].
  destruct H as (l & post8 & ds & -> & (-> & Hlen & Hds) & H).
  apply step_finished in H as [-> H]. apply parses_step_ret in H as [-> _].
  apply Forall_and in Hds as [Ht Hf]. exists (mkIrVersion a3 a4).
  split_and!; try done; [|unfold in_u32 in Hc; lia].
  unfold table_bytes. simpl. rewrite Hlen. by rewrite ?app_nil_r, <- ?app_assoc.
Qed.

(** ** Frames *)
Definition frame_typed (f : DescriptorFrame) : Prop := is_utf8 (df_format f).
Definition frame_fits (f : DescriptorFrame) : Prop :=
  len (string_bytes (df_format f)) < 2 ^ 32 ∧ len (df_payload f) < 2 ^ 64.

Lemma encode_frame_Ok f r :
  encode_descriptor_frame f = Ok r ↔ frame_fits f ∧ r = frame_bytes DESCRIPTOR_MINOR f.
Proof.
  unfold encode_descriptor_frame, frame_fits, frame_bytes, try_u32, try_u64.
  destruct (Z.ltb_spec (len (string_bytes (df_format f))) (2 ^ 32)); simpl; [|split; [done|lia]].
  destruct (Z.ltb_spec (len (df_payload f)) (2 ^ 64)); simpl; [|split; [done|lia]].
  unfold push_u64, push_u32, push_u16, push_u8. rewrite <- !app_assoc.
  split; [by intros [= <-]|by intros [_ ->]].
Qed.

Lemma reads_frame minor f :
  in_u16 minor → minor ≤ DESCRIPTOR_MINOR → frame_typed f → frame_fits f →
  reads_end decode_descriptor_frame_at (frame_bytes minor f) f.
Proof.
  intros Hm Hle Ht [Hfl Hpl]. unfold decode_descriptor_frame_at, frame_bytes.
  pose proof (len_nonneg (string_bytes (df_format f))). pose proof (len_nonneg (df_payload f)).
  eapply reads_end_bind; [by apply reads_take|].
  eapply reads_end_bind_nil; [by apply reads_guard|].
  eapply reads_end_bind; [by apply reads_u16|].
  eapply reads_end_bind_nil; [by apply reads_guard|].
  eapply reads_end_bind; [apply reads_u8, frame_kind_tag_u8|].
  eapply reads_end_bind_nil; [apply reads_lift, frame_kind_of_tag_tag|].
  eapply reads_end_bind; [by apply reads_u8|].
  eapply reads_end_bind_nil; [by apply reads_guard|].
  do 2 (eapply reads_end_bind; [by apply reads_u16|]).
  eapply reads_end_bind_nil; [apply reads_guard; simpl; by apply Z.leb_le|].
  eapply reads_end_bind; [by apply reads_u16|].
  eapply reads_end_bind_nil; [by apply reads_guard|].
  eapply reads_end_bind; [by apply reads_u32|].
  eapply reads_end_bind; [by apply reads_u64|].
  eapply reads_end_bind; [by apply reads_u32|].
  eapply reads_end_bind_nil; [by apply reads_guard|].
  eapply reads_end_bind_nil; [apply reads_lift, try_u64_Ok; lia|].
  eapply reads_end_bind; [by apply reads_take|].
  eapply reads_end_bind_nil; [apply reads_lift; by rewrite from_utf8_string|].
  eapply reads_end_bind_nil; [by apply reads_lift, try_u64_Ok|].
  rewrite <- (app_nil_r (df_payload f)) at 2. eapply reads_end_bind; [by apply reads_take|].
  apply reads_end_finished. destruct f. apply reads_reads_end, reads_ret.
Qed.

Lemma decode_frame_Ok bs f :
  decode_descriptor_frame bs = Ok f →
  ∃ minor, in_u16 minor ∧ minor ≤ DESCRIPTOR_MINOR ∧ bs = frame_bytes minor f ∧
    frame_typed f ∧ frame_fits f.
Proof.
  unfold decode_descriptor_frame, run_decoder.
  destruct (decode_descriptor_frame_at (cursor_new bs)) as [[f' c]| |] eqn:H; [|done..].
  intros [= <-]. change (cursor_new bs) with (at_ ([] ++ []) bs) in H.
  unfold decode_descriptor_frame_at in H. do 22 parse_step H.
  apply step_finished in H as [-> H]. apply parses_step_ret in H as [-> _].
  parse_facts ltac:(idtac; match goal with
    | Hr : frame_kind_of_tag _ = Ok _ |- _ => apply frame_kind_of_tag_Ok in Hr end).
  match goal with Hm : ?m ≤ DESCRIPTOR_MINOR |- _ => exists m end.
  split_and!; try done.
  - unfold frame_bytes. cbn [df_kind df_format df_payload]. by rewrite ?app_nil_l, ?app_nil_r.
  - unfold frame_fits, in_u32 in *. simpl. lia.
Qed.

(** ** Properties *)

Lemma decode_encode_table ds bs :
  Forall descriptor_typed ds → len bs < 2 ^ 64 →
  encode_tensor_descriptors ds = Ok bs → decode_tensor_descriptors bs = Ok ds.
Proof.
  intros Ht Hlen (Hn & Hf & ->)%encode_table_Ok.
  by apply run_decoder_reads, reads_tensor_table.
Qed.

Lemma decode_encode_frame f bs :
  frame_typed f → len bs < 2 ^ 64 →
  encode_descriptor_frame f = Ok bs → decode_descriptor_frame bs = Ok f.
Proof.
  intros Ht Hlen (Hf & ->)%encode_frame_Ok. by apply run_decoder_reads, reads_frame.
Qed.

(** Decoding the encoding of a list of typed tensor descriptors gives the list back. *)
Theorem tensor_descriptors_round_trip ds bs :
  Forall descriptor_typed ds → len bs < 2 ^ 64 →
  encode_tensor_descriptors ds = Ok bs → decode_tensor_descriptors bs = Ok ds.
Proof. apply decode_encode_table. Qed.

(** A byte string that decodes to descriptors is their encoding up to the version
    field, and encoding them again succeeds. *)
Theorem tensor_descriptors_canonical bs ds :
  decode_tensor_descriptors bs = Ok ds →
  ∃ v, IrVersion_can_read IrVersion_CURRENT v = true ∧ bs = table_bytes v ds ∧
    encode_tensor_descriptors ds = Ok (table_bytes IrVersion_CURRENT ds).
Proof.
  intros (v & _ & Hv & -> & Hn & _ & Hf)%decode_table_Ok. exists v.
  split_and!; [done|done|]. by apply encode_table_Ok.
Qed.

(** Decoding the encoding of a typed descriptor frame gives the frame back. *)
Theorem descriptor_frame_round_trip f bs :
  frame_typed f → len bs < 2 ^ 64 →
  encode_descriptor_frame f = Ok bs → decode_descriptor_frame bs = Ok f.
Proof. apply decode_encode_frame. Qed.

(** A byte string that decodes to a frame is the frame's encoding up to a readable
    minor version, and encoding it again succeeds. *)
Theorem descriptor_frame_canonical bs f :
  decode_descriptor_frame bs = Ok f →
  ∃ minor, 0 ≤ minor ≤ DESCRIPTOR_MINOR ∧ bs = frame_bytes minor f ∧
    encode_descriptor_frame f = Ok (frame_bytes DESCRIPTOR_MINOR f).
Proof.
  intros (m & [Hm _] & Hle & -> & Ht & Hf)%decode_frame_Ok. exists m.
  split_and!; [done|done|done|]. by apply encode_frame_Ok.
Qed.

(** ** Concrete descriptors *)
Definition sample_descriptors : list TensorDescriptor :=
  [mkTensorDescriptor 1 F32 [2; 3] 24; mkTensorDescriptor 7 I8 [] 1].
Definition sample_frame : DescriptorFrame :=
  mkDescriptorFrame Tokenizer "ntd97.tokenizer.v2" (to_le 4 1234).

Lemma sample_descriptors_typed : Forall descriptor_typed sample_descriptors.
Proof. repeat constructor; vm_compute; done. Qed.

Lemma tensor_descriptors_round_trip_witness :
  decode_tensor_descriptors (table_bytes IrVersion_CURRENT sample_descriptors) =
  Ok sample_descriptors.
Proof.
  apply (tensor_descriptors_round_trip sample_descriptors
    (table_bytes IrVersion_CURRENT sample_descriptors)).
  - apply sample_descriptors_typed.
  - vm_compute. reflexivity.
  - vm_compute. reflexivity.
Defined.

Lemma tensor_descriptors_canonical_witness :
  ∃ v, IrVersion_can_read IrVersion_CURRENT v = true ∧
    table_bytes (mkIrVersion 0 1) sample_descriptors = table_bytes v sample_descriptors ∧
    encode_tensor_descriptors sample_descriptors =
      Ok (table_bytes IrVersion_CURRENT sample_descriptors).
Proof.
  apply (tensor_descriptors_canonical (table_bytes (mkIrVersion 0 1) sample_descriptors)
    sample_descriptors). vm_compute. reflexivity.
Defined.

Lemma descriptor_frame_round_trip_witness :
  decode_descriptor_frame (frame_bytes 1 sample_frame) = Ok sample_frame.
Proof.
  apply (descriptor_frame_round_trip sample_frame (frame_bytes 1 sample_frame));
    vm_compute; reflexivity.
Defined.

Lemma descriptor_frame_canonical_witness :
  ∃ minor, 0 ≤ minor ≤ DESCRIPTOR_MINOR ∧
    frame_bytes 0 sample_frame = frame_bytes minor sample_frame ∧
    encode_descriptor_frame sample_frame = Ok (frame_bytes DESCRIPTOR_MINOR sample_frame).
Proof.
  apply (descriptor_frame_canonical (frame_bytes 0 sample_frame) sample_frame).
  vm_compute. reflexivity.
Defined.
