(* ===== verification/Generative.v ===== *)
(** The generative manifest of a capsule:
    src/crates/ntd-capsule/src/generative.rs. *)
From S2P Require Import Prelude Capsule Codec Ir.

Definition NATIVE_GENERATIVE_MANIFEST_MAGIC : bytes := map byte_of_Z [78; 71; 77; 57; 55; 0].
Definition NATIVE_GENERATIVE_MANIFEST_HEADER_LEN : Z := 26.
Definition NATIVE_GENERATIVE_MANIFEST_MAJOR : Z := 0.
Definition NATIVE_GENERATIVE_MANIFEST_MINOR : Z := 1.

Record NativeGenerativeManifest := mkGenerativeManifest {
  gm_token_input : ValueId;
  gm_distribution_output : Z;
  gm_vocabulary_size : Z;
}.

Inductive NativeGenerativeManifestError :=
| Truncated
| InvalidMagic
| InvalidHeader
| UnsupportedVersion (major minor : Z)
| InvalidVocabulary
| NonCanonicalEncoding.

(** In this file [take] reports an overflowing end offset as [Truncated]. *)
#[export] Instance generative_cursor_errors : CursorErrors NativeGenerativeManifestError :=
  {| err_truncated := Truncated; err_cursor_overflow := Truncated |}.

Definition encode_native_generative_manifest (manifest : NativeGenerativeManifest)
  : result NativeGenerativeManifestError bytes :=
  if gm_vocabulary_size manifest =? 0 then Err InvalidVocabulary
  else
    let out := NATIVE_GENERATIVE_MANIFEST_MAGIC in
    let out := push_u16 out NATIVE_GENERATIVE_MANIFEST_HEADER_LEN in
    let out := push_u16 out NATIVE_GENERATIVE_MANIFEST_MAJOR in
    let out := push_u16 out NATIVE_GENERATIVE_MANIFEST_MINOR in
    let out := push_u32 out (gm_token_input manifest) in
    let out := push_u32 out (gm_distribution_output manifest) in
    let out := push_u32 out (gm_vocabulary_size manifest) in
    Ok (push_u16 out 0).

Definition decode_native_generative_manifest_at
  : decoder NativeGenerativeManifestError NativeGenerativeManifest :=
  dec! magic <- take_bytes 6;
  dec! _ <- dec_guard (bytes_eqb magic NATIVE_GENERATIVE_MANIFEST_MAGIC) InvalidMagic;
  dec! header_len <- read_u16;
  dec! _ <- dec_guard (header_len =? NATIVE_GENERATIVE_MANIFEST_HEADER_LEN) InvalidHeader;
  dec! major <- read_u16;
  dec! minor <- read_u16;
  dec! _ <- dec_guard ((major =? NATIVE_GENERATIVE_MANIFEST_MAJOR) &&
                       (minor <=? NATIVE_GENERATIVE_MANIFEST_MINOR))
              (UnsupportedVersion major minor);
  dec! token_input <- read_u32;
  dec! distribution_output <- read_u32;
  dec! vocabulary_size <- read_u32;
  dec! _ <- dec_guard (negb (vocabulary_size =? 0)) InvalidVocabulary;
  dec! reserved <- read_u16;
  dec! _ <- dec_guard (reserved =? 0) NonCanonicalEncoding;
  dec! _ <- expect_finished NonCanonicalEncoding;
  dec_ret (mkGenerativeManifest token_input distribution_output vocabulary_size).

Definition decode_native_generative_manifest (bs : bytes)
  : result NativeGenerativeManifestError NativeGenerativeManifest :=
  run_decoder decode_native_generative_manifest_at bs.

Definition push_native_generative_manifest_section (builder : CapsuleBuilder)
    (manifest : NativeGenerativeManifest) : result NativeGenerativeManifestError CapsuleBuilder :=
  let? bs := encode_native_generative_manifest manifest in
  Ok (push_embedded builder SecGenerativeManifest bs).

(** ** The encoded block *)
Definition manifest_record (minor : Z) (m : NativeGenerativeManifest) : bytes :=
  NATIVE_GENERATIVE_MANIFEST_MAGIC ++ to_le 2 NATIVE_GENERATIVE_MANIFEST_HEADER_LEN ++
  to_le 2 NATIVE_GENERATIVE_MANIFEST_MAJOR ++ to_le 2 minor ++ to_le 4 (gm_token_input m) ++
  to_le 4 (gm_distribution_output m) ++ to_le 4 (gm_vocabulary_size m) ++ to_le 2 0.

Definition generative_typed (m : NativeGenerativeManifest) : Prop :=
  in_u32 (gm_token_input m) ∧ in_u32 (gm_distribution_output m) ∧ in_u32 (gm_vocabulary_size m).

Lemma encode_manifest_record m r :
  encode_native_generative_manifest m = Ok r ↔
  gm_vocabulary_size m ≠ 0 ∧ r = manifest_record NATIVE_GENERATIVE_MANIFEST_MINOR m.
Proof.
  unfold encode_native_generative_manifest. destruct (Z.eqb_spec (gm_vocabulary_size m) 0).
  { split; [done|by intros []]. }
  unfold push_u32, push_u16, manifest_record. rewrite <- !app_assoc.
  split; [by intros [= <-]|by intros [_ ->]].
Qed.

Lemma reads_manifest_record minor m :
  in_u16 minor → minor ≤ NATIVE_GENERATIVE_MANIFEST_MINOR → generative_typed m →
  gm_vocabulary_size m ≠ 0 →
  reads_end decode_native_generative_manifest_at (manifest_record minor m) m.
Proof.
  intros Hm Hle (Ht & Hd & Hv) Hv0.
  unfold decode_native_generative_manifest_at, manifest_record.
  eapply reads_end_bind; [by apply reads_take|].
  eapply reads_end_bind_nil; [by apply reads_guard|].
  eapply reads_end_bind; [by apply reads_u16|].
  eapply reads_end_bind_nil; [by apply reads_guard|].
  do 2 (eapply reads_end_bind; [by apply reads_u16|]).
  eapply reads_end_bind_nil; [apply reads_guard; simpl; by apply Z.leb_le|].
  do 3 (eapply reads_end_bind; [by apply reads_u32|]).
  eapply reads_end_bind_nil; [apply reads_guard; by apply negb_true_iff, Z.eqb_neq|].
  rewrite <- (app_nil_r (to_le 2 0)). eapply reads_end_bind; [by apply reads_u16|].
  eapply reads_end_bind_nil; [by apply reads_guard|].
  apply reads_end_finished. destruct m. apply reads_reads_end, reads_ret.
Qed.

Lemma decode_manifest_record bs m :
  decode_native_generative_manifest bs = Ok m →
  ∃ minor, in_u16 minor ∧ minor ≤ NATIVE_GENERATIVE_MANIFEST_MINOR ∧
    bs = manifest_record minor m ∧ generative_typed m ∧ gm_vocabulary_size m ≠ 0.
Proof.
  unfold decode_native_generative_manifest, run_decoder.
  destruct (decode_native_generative_manifest_at (cursor_new bs)) as [[m' c]| |] eqn:H; [|done..].
  intros [= <-]. change (cursor_new bs) with (at_ ([] ++ []) bs) in H.
  unfold decode_native_generative_manifest_at in H. do 13 parse_step H.
  apply step_finished in H as [-> H]. apply parses_step_ret in H as [-> _].
  parse_facts ltac:(idtac; match goal with
    | Hr : negb (_ =? 0) = true |- _ => apply negb_true_iff, Z.eqb_neq in Hr end).
  match goal with Hm : ?m ≤ NATIVE_GENERATIVE_MANIFEST_MINOR |- _ => exists m end.
  split_and!; try done.
Qed.

(** ** Properties *)

(** Decoding the encoding of a typed generative manifest gives the manifest back. *)
Theorem generative_manifest_round_trip m bs :
  generative_typed m → encode_native_generative_manifest m = Ok bs →
  decode_native_generative_manifest bs = Ok m ∧ len bs = NATIVE_GENERATIVE_MANIFEST_HEADER_LEN.
Proof.
  intros Hm (Hv & ->)%encode_manifest_record.
  assert (len (manifest_record NATIVE_GENERATIVE_MANIFEST_MINOR m) =
    NATIVE_GENERATIVE_MANIFEST_HEADER_LEN) as Hl.
  { unfold manifest_record. rewrite !len_app, !len_to_le. done. }
  split; [|done]. apply run_decoder_reads; [by rewrite Hl|]. by apply reads_manifest_record.
Qed.

Lemma generative_manifest_round_trip_witness :
  decode_native_generative_manifest
    (manifest_record 1 (mkGenerativeManifest 3 1 32000)) =
    Ok (mkGenerativeManifest 3 1 32000) ∧
  len (manifest_record 1 (mkGenerativeManifest 3 1 32000)) = NATIVE_GENERATIVE_MANIFEST_HEADER_LEN.
Proof.
  apply (generative_manifest_round_trip (mkGenerativeManifest 3 1 32000)).
  - split_and!; vm_compute; done.
  - vm_compute. reflexivity.
Defined.
