(* ===== verification/NativeTensor.v ===== *)
(** Native tensor shards: src/crates/ntd-capsule/src/native_tensor.rs, up to
    the loader, which NativeProgram.v models.

    An [f32] is its bit pattern.  A shard embeds the SHA-256 of its one-entry
    descriptor table; the decoder recomputes it.  [u32::MAX] is the wire value
    for "no graph binding", so a tensor bound to [ValueId(u32::MAX)] does not
    survive the round trip ([unrepresentable_binding]). *)
From S2P Require Import Prelude Text Hash Capsule Codec Ir IrCodec Descriptors.

Definition NATIVE_TENSOR_MAGIC : bytes := map byte_of_Z [78; 84; 80; 57; 55; 0].
Definition NATIVE_TENSOR_HEADER_LEN : Z := 80.
Definition NATIVE_TENSOR_MAJOR : Z := 0.
Definition NATIVE_TENSOR_MINOR : Z := 1.
Definition NO_GRAPH_BINDING : Z := 2 ^ 32 - 1.

Inductive QuantizationMetadata :=
| QNone
| SymmetricI8 (scale_bits : Z)
| AffineI8 (scale_bits zero_point : Z).
#[export] Instance QuantizationMetadata_eq_dec : EqDecision QuantizationMetadata.
Proof. solve_decision. Defined.

Record NativeTensor := mkNativeTensor {
  nt_descriptor : TensorDescriptor;
  nt_graph_value : option ValueId;
  nt_quantization : QuantizationMetadata;
  nt_payload : bytes;
}.

Inductive NativeTensorError :=
| Descriptor (e : DescriptorError)
| GraphError (e : IrCodecError)
| Truncated
| InvalidMagic
| InvalidHeader
| UnsupportedVersion (major minor : Z)
| InvalidDType (tag : Z)
| InvalidQuantization
| InvalidShape
| PayloadLengthMismatch (expected actual : Z)
| DescriptorIntegrityMismatch
| NonCanonicalEncoding
| MissingGraph
| MultipleGraphs
| MissingDescriptorTable
| MultipleDescriptorTables
| DuplicateTensorId (id : Z)
| DuplicateGraphBinding (v : ValueId)
| MissingTensorShard (id : Z)
| UnknownTensorShard (id : Z)
| TensorDescriptorMismatch (id : Z)
| GraphBindingMissing (v : ValueId)
| GraphBindingTypeMismatch (v : ValueId)
| MissingExternalContent (h : Digest)
| ExternalLengthMismatch (expected actual : Z)
| ExternalIntegrityMismatch (h : Digest)
| UnknownTensorChunk
| Overflow.

#[export] Instance native_tensor_cursor_errors : CursorErrors NativeTensorError :=
  {| err_truncated := Truncated; err_cursor_overflow := Overflow |}.

(** ** Quantization *)

(** [f32::from_bits(bits).is_finite()] and [f32::from_bits(bits) > 0.0], the
    latter on a finite value. *)
Definition f32_is_finite (bits : Z) : bool := negb (Z.land (Z.shiftr bits 23) 255 =? 255).
Definition f32_is_positive (bits : Z) : bool := negb (Z.testbit bits 31) && negb (bits =? 0).

Definition validate_scale (bits : Z) : result NativeTensorError unit :=
  if f32_is_finite bits && f32_is_positive bits then Ok tt else Err InvalidQuantization.

(** [(-128..=127).contains(&zero_point)] *)
Definition zero_point_in_range (z : Z) : bool := (-128 <=? z) && (z <=? 127).

Definition symmetric_i8 (scale : Z) : result NativeTensorError QuantizationMetadata :=
  let? _ := validate_scale scale in Ok (SymmetricI8 scale).
Definition affine_i8 (scale zero_point : Z) : result NativeTensorError QuantizationMetadata :=
  let? _ := validate_scale scale in
  if negb (zero_point_in_range zero_point) then Err InvalidQuantization
  else Ok (AffineI8 scale zero_point).

Definition Quantization_scale (self : QuantizationMetadata) : option Z :=
  match self with
  | QNone => None
  | SymmetricI8 scale_bits | AffineI8 scale_bits _ => Some scale_bits
  end.
Definition Quantization_zero_point (self : QuantizationMetadata) : option Z :=
  match self with
  | QNone => None
  | SymmetricI8 _ => Some 0
  | AffineI8 _ zero_point => Some zero_point
  end.

Definition encode_quantization (q : QuantizationMetadata)
  : result NativeTensorError (Z * Z * Z) :=
  match q with
  | QNone => Ok (0, 0, 0)
  | SymmetricI8 scale_bits =>
      let? _ := validate_scale scale_bits in Ok (1, scale_bits, 0)
  | AffineI8 scale_bits zero_point =>
      let? _ := validate_scale scale_bits in
      if negb (zero_point_in_range zero_point) then Err InvalidQuantization
      else Ok (2, scale_bits, zero_point)
  end.

Definition decode_quantization (tag scale_bits zero_point : Z)
  : result NativeTensorError QuantizationMetadata :=
  if (tag =? 0) && ((scale_bits =? 0) && (zero_point =? 0)) then Ok QNone
  else if (tag =? 1) && (zero_point =? 0) then
    let? _ := validate_scale scale_bits in Ok (SymmetricI8 scale_bits)
  else if (tag =? 2) && zero_point_in_range zero_point then
    let? _ := validate_scale scale_bits in Ok (AffineI8 scale_bits zero_point)
  else Err InvalidQuantization.

(** ** Shapes *)

(** [shape.iter().try_fold(1u64, checked_mul)] *)
Definition element_count (shape : list Z) : result NativeTensorError Z :=
  fold_result (λ count dimension, ok_or (checked_mul_u64 count dimension) InvalidShape) 1 shape.

Definition dtype_width (d : DType) : Z :=
  match d with
  | F32 | I32 => 4 | F16 | Bf16 => 2 | I64 => 8 | I8 | U8 | Bool_ => 1
  end.

Definition validate_quantized_i8 (dtype : DType) (scale_bits zero_point : Z)
  : result NativeTensorError unit :=
  if negb (bool_decide (dtype = I8)) || negb (zero_point_in_range zero_point)
  then Err InvalidQuantization
  else validate_scale scale_bits.

Definition validate_tensor (tensor : NativeTensor) : result NativeTensorError unit :=
  let? elements := element_count (td_shape (nt_descriptor tensor)) in
  let? actual := ok_or (try_u64 (len (nt_payload tensor))) Overflow in
  if negb (actual =? td_byte_len (nt_descriptor tensor))
  then Err (PayloadLengthMismatch (td_byte_len (nt_descriptor tensor)) actual)
  else
    let? expected :=
      match nt_quantization tensor with
      | QNone =>
          ok_or (checked_mul_u64 elements (dtype_width (td_dtype (nt_descriptor tensor)))) Overflow
      | SymmetricI8 scale_bits =>
          let? _ := validate_quantized_i8 (td_dtype (nt_descriptor tensor)) scale_bits 0 in
          Ok elements
      | AffineI8 scale_bits zero_point =>
          let? _ := validate_quantized_i8 (td_dtype (nt_descriptor tensor)) scale_bits zero_point in
          Ok elements
      end in
    if negb (actual =? expected) then Err (PayloadLengthMismatch expected actual) else Ok tt.

(** ** The codec *)
Definition encode_native_tensor (tensor : NativeTensor) : result NativeTensorError bytes :=
  let? _ := validate_tensor tensor in
  let? descriptor_bytes :=
    map_err Descriptor (encode_tensor_descriptors [nt_descriptor tensor]) in
  let descriptor_hash := sha256 descriptor_bytes in
  let shape := td_shape (nt_descriptor tensor) in
  let? rank := ok_or (try_u8 (len shape)) Overflow in
  let? element_count := element_count shape in
  let? payload_len := ok_or (try_u64 (len (nt_payload tensor))) Overflow in
  let? ' (quant_tag, scale_bits, zero_point) := encode_quantization (nt_quantization tensor) in
  let? shape_bytes := ok_or (checked_mul_usize (len shape) 8) Overflow in
  let? capacity := ok_or (checked_add_usize NATIVE_TENSOR_HEADER_LEN shape_bytes) Overflow in
  let? _ := ok_or (checked_add_usize capacity (len (nt_payload tensor))) Overflow in
  let out := NATIVE_TENSOR_MAGIC in
  let out := push_u16 out NATIVE_TENSOR_HEADER_LEN in
  let out := push_u16 out NATIVE_TENSOR_MAJOR in
  let out := push_u16 out NATIVE_TENSOR_MINOR in
  let out := push_u32 out (td_id (nt_descriptor tensor)) in
  let out := push_u32 out (match nt_graph_value tensor with
                           | Some v => v | None => NO_GRAPH_BINDING end) in
  let out := push_u8 out (dtype_tag (td_dtype (nt_descriptor tensor))) in
  let out := push_u8 out quant_tag in
  let out := push_u8 out rank in
  let out := push_u8 out 0 in
  let out := push_u64 out element_count in
  let out := push_u64 out payload_len in
  let out := push_u32 out scale_bits in
  let out := push_i32 out zero_point in
  let out := out ++ descriptor_hash in
  let out := fold_left push_u64 shape out in
  Ok (out ++ nt_payload tensor).

Definition decode_dtype (tag : Z) : result NativeTensorError DType :=
  ok_or (dtype_of_tag tag) (InvalidDType tag).

(** [(raw != NO_GRAPH_BINDING).then_some(ValueId(raw))] *)
Definition binding_of (raw : Z) : option ValueId :=
  if negb (raw =? NO_GRAPH_BINDING) then Some raw else None.

Definition decode_native_tensor_at : decoder NativeTensorError NativeTensor :=
  dec! magic <- take_bytes 6;
  dec! _ <- dec_guard (bytes_eqb magic NATIVE_TENSOR_MAGIC) InvalidMagic;
  dec! header_len <- read_u16;
  dec! _ <- dec_guard (header_len =? NATIVE_TENSOR_HEADER_LEN) InvalidHeader;
  dec! major <- read_u16;
  dec! minor <- read_u16;
  dec! _ <- dec_guard ((major =? NATIVE_TENSOR_MAJOR) && (minor <=? NATIVE_TENSOR_MINOR))
              (UnsupportedVersion major minor);
  dec! tensor_id <- read_u32;
  dec! graph_value_raw <- read_u32;
  dec! tag <- read_u8;
  dec! dtype <- dec_lift (decode_dtype tag);
  dec! quant_tag <- read_u8;
  dec! rank <- read_u8;
  dec! reserved <- read_u8;
  dec! _ <- dec_guard (reserved =? 0) NonCanonicalEncoding;
  dec! encoded_element_count <- read_u64;
  dec! payload_len <- read_u64;
  dec! scale_bits <- read_u32;
  dec! zero_point <- read_i32;
  dec! descriptor_hash <- take_bytes 32;
  dec! shape <- read_many (Z.to_nat rank) read_u64;
  dec! elements <- dec_lift (element_count shape);
  dec! _ <- dec_guard (elements =? encoded_element_count) InvalidShape;
  dec! payload_size <- dec_lift (ok_or (try_usize payload_len) Overflow);
  dec! payload <- take_bytes payload_size;
  dec! _ <- expect_finished NonCanonicalEncoding;
  dec! quantization <- dec_lift (decode_quantization quant_tag scale_bits zero_point);
  let descriptor := mkTensorDescriptor tensor_id dtype shape payload_len in
  let tensor := mkNativeTensor descriptor (binding_of graph_value_raw) quantization payload in
  dec! _ <- dec_lift (validate_tensor tensor);
  dec! canonical <- dec_lift (map_err Descriptor (encode_tensor_descriptors [descriptor]));
  dec! _ <- dec_guard (bytes_eqb (sha256 canonical) descriptor_hash) DescriptorIntegrityMismatch;
  dec_ret tensor.

Definition decode_native_tensor (bs : bytes) : result NativeTensorError NativeTensor :=
  run_decoder decode_native_tensor_at bs.

(** ** Sections *)
Definition push_tensor_descriptor_section (builder : CapsuleBuilder)
    (descriptors : list TensorDescriptor) : result NativeTensorError CapsuleBuilder :=
  let? bs := map_err Descriptor (encode_tensor_descriptors descriptors) in
  Ok (push_embedded builder SecTensors bs).
Definition push_native_tensor_shard (builder : CapsuleBuilder) (tensor : NativeTensor)
  : result NativeTensorError CapsuleBuilder :=
  let? bs := encode_native_tensor tensor in Ok (push_embedded builder SecTensors bs).

(** ** What a validated tensor is *)
Definition product (shape : list Z) : Z := foldr Z.mul 1 shape.

Definition scale_ok (bits : Z) : Prop := f32_is_finite bits = true ∧ f32_is_positive bits = true.

Definition quantization_wf (dtype : DType) (q : QuantizationMetadata) : Prop :=
  match q with
  | QNone => True
  | SymmetricI8 s => dtype = I8 ∧ scale_ok s
  | AffineI8 s z => dtype = I8 ∧ scale_ok s ∧ -128 ≤ z ≤ 127
  end.

(** Bytes per element as stored. *)
Definition stored_width (dtype : DType) (q : QuantizationMetadata) : Z :=
  match q with QNone => dtype_width dtype | _ => 1 end.

(** The payload holds exactly the elements of the shape. *)
Record tensor_wf (t : NativeTensor) : Prop := {
  tw_count : element_count (td_shape (nt_descriptor t)) =
    Ok (product (td_shape (nt_descriptor t)));
  tw_byte_len : td_byte_len (nt_descriptor t) = len (nt_payload t);
  tw_payload : len (nt_payload t) = product (td_shape (nt_descriptor t)) *
    stored_width (td_dtype (nt_descriptor t)) (nt_quantization t);
  tw_fits : len (nt_payload t) < 2 ^ 64;
  tw_quant : quantization_wf (td_dtype (nt_descriptor t)) (nt_quantization t);
}.

Lemma element_count_fold shape a n :
  fold_result (λ count dimension, ok_or (checked_mul_u64 count dimension) InvalidShape) a shape
  = Ok n → n = a * product shape ∧ (n < 2 ^ 64 ∨ shape = []).
Proof.
  revert a. induction shape as [|d shape IH]; intros a; simpl.
  - intros [= <-]. split; [lia|by right].
  - unfold checked_mul_u64. destruct (Z.ltb_spec (a * d) (2 ^ 64)); simpl; [|done].
    intros [-> Hn]%IH. split; [lia|left]. destruct Hn as [| ->]; simpl in *; lia.
Qed.

Lemma element_count_Ok shape n :
  element_count shape = Ok n → n = product shape ∧ n < 2 ^ 64.
Proof.
  intros [-> Hn]%element_count_fold. split; [lia|].
  destruct Hn as [| ->]; [lia|simpl; lia].
Qed.

Lemma validate_scale_Ok b : validate_scale b = Ok tt ↔ scale_ok b.
Proof.
  unfold validate_scale, scale_ok. destruct (f32_is_finite b), (f32_is_positive b); naive_solver.
Qed.

Lemma zero_point_in_range_true z : zero_point_in_range z = true ↔ -128 ≤ z ≤ 127.
Proof. unfold zero_point_in_range. rewrite andb_true_iff, !Z.leb_le. lia. Qed.

Lemma validate_quantized_Ok d s z :
  validate_quantized_i8 d s z = Ok tt ↔ d = I8 ∧ scale_ok s ∧ -128 ≤ z ≤ 127.
Proof.
  unfold validate_quantized_i8. rewrite <- zero_point_in_range_true, <- validate_scale_Ok.
  case_bool_decide; simpl; [|naive_solver]. destruct (zero_point_in_range z); simpl; naive_solver.
Qed.

Lemma unit_Ok {E} (r : result E unit) u : r = Ok u → r = Ok tt.
Proof. by destruct u. Qed.

(** What the quantization arm of [validate_tensor] computes. *)
Lemma expected_Ok t n e :
  (match nt_quantization t with
   | QNone => ok_or (checked_mul_u64 n (dtype_width (td_dtype (nt_descriptor t)))) Overflow
   | SymmetricI8 scale_bits =>
       let? _ := validate_quantized_i8 (td_dtype (nt_descriptor t)) scale_bits 0 in Ok n
   | AffineI8 scale_bits zero_point =>
       let? _ := validate_quantized_i8 (td_dtype (nt_descriptor t)) scale_bits zero_point in
       Ok n
   end = Ok e) ↔
  e = n * stored_width (td_dtype (nt_descriptor t)) (nt_quantization t) ∧
  quantization_wf (td_dtype (nt_descriptor t)) (nt_quantization t) ∧
  (nt_quantization t = QNone → e < 2 ^ 64).
Proof.
  destruct (nt_quantization t) as [|s|s z]; simpl.
  - unfold checked_mul_u64. destruct (Z.ltb_spec (n * dtype_width (td_dtype (nt_descriptor t)))
      (2 ^ 64)); simpl; [naive_solver|]. split; [done|]. intros (-> & _ & H'). specialize (H' eq_refl).
    lia.
  - destruct (validate_quantized_i8 _ s 0) as [u| |] eqn:Hv.
    + apply unit_Ok, validate_quantized_Ok in Hv as (? & ? & _).
      split; [intros [= <-]|intros (-> & _)]; [split_and!; done || lia|f_equal; lia].
    + split; [done|]. intros (_ & (? & ?) & _).
      by rewrite (proj2 (validate_quantized_Ok _ s 0)) in Hv by (split_and!; done || lia).
    + split; [done|]. intros (_ & (? & ?) & _).
      by rewrite (proj2 (validate_quantized_Ok _ s 0)) in Hv by (split_and!; done || lia).
  - destruct (validate_quantized_i8 _ s z) as [u| |] eqn:Hv.
    + apply unit_Ok, validate_quantized_Ok in Hv as (? & ? & ?).
      split; [intros [= <-]|intros (-> & _)]; [split_and!; done || lia|f_equal; lia].
    + split; [done|]. intros (_ & (? & ? & ?) & _).
      by rewrite (proj2 (validate_quantized_Ok _ s z)) in Hv by (split_and!; done || lia).
    + split; [done|]. intros (_ & (? & ? & ?) & _).
      by rewrite (proj2 (validate_quantized_Ok _ s z)) in Hv by (split_and!; done || lia).
Qed.

Lemma validate_tensor_Ok t : validate_tensor t = Ok tt ↔ tensor_wf t.
Proof.
  unfold validate_tensor. split.
  - destruct (element_count _) as [n| |] eqn:Hn; [|done..].
    pose proof (element_count_Ok _ _ Hn) as [-> Hn64].
    unfold try_u64. destruct (Z.ltb_spec (len (nt_payload t)) (2 ^ 64)); simpl; [|done].
    destruct (Z.eqb_spec (len (nt_payload t)) (td_byte_len (nt_descriptor t))); simpl; [|done].
    destruct (match nt_quantization t with QNone => _ | _ => _ end) as [ex| |] eqn:He; [|done..].
    apply expected_Ok in He as (-> & Hq & _).
    destruct (Z.eqb_spec (len (nt_payload t)) (product (td_shape (nt_descriptor t)) *
      stored_width (td_dtype (nt_descriptor t)) (nt_quantization t))); simpl; [|done].
    intros _. by constructor.
  - intros [Hc Hb Hp Hf Hq]. rewrite Hc. rewrite try_u64_Ok by done. rewrite Hb, Z.eqb_refl.
    cbn [negb]. rewrite (proj2 (expected_Ok t (product (td_shape (nt_descriptor t)))
      (len (nt_payload t)))) by (split_and!; done).
    by rewrite Z.eqb_refl.
Qed.

(** ** The encoded block *)
Definition quant_fields (q : QuantizationMetadata) : Z * Z * Z :=
  match q with
  | QNone => (0, 0, 0) | SymmetricI8 s => (1, s, 0) | AffineI8 s z => (2, s, z)
  end.
Definition raw_binding (v : option ValueId) : Z :=
  match v with Some v => v | None => NO_GRAPH_BINDING end.

Definition tensor_bytes (minor : Z) (t : NativeTensor) : bytes :=
  let '(quant_tag, scale_bits, zero_point) := quant_fields (nt_quantization t) in
  let d := nt_descriptor t in
  NATIVE_TENSOR_MAGIC ++ to_le 2 NATIVE_TENSOR_HEADER_LEN ++ to_le 2 NATIVE_TENSOR_MAJOR ++
  to_le 2 minor ++ to_le 4 (td_id d) ++ to_le 4 (raw_binding (nt_graph_value t)) ++
  to_le 1 (dtype_tag (td_dtype d)) ++ to_le 1 quant_tag ++ to_le 1 (len (td_shape d)) ++
  to_le 1 0 ++ to_le 8 (product (td_shape d)) ++ to_le 8 (len (nt_payload t)) ++
  to_le 4 scale_bits ++ to_le 4 zero_point ++ sha256 (table_bytes IrVersion_CURRENT [d]) ++
  concat (map (to_le 8) (td_shape d)) ++ nt_payload t.

Definition quantization_typed (q : QuantizationMetadata) : Prop :=
  match q with
  | QNone => True | SymmetricI8 s => in_u32 s | AffineI8 s z => in_u32 s ∧ in_i32 z
  end.
Record tensor_typed (t : NativeTensor) : Prop := {
  ty_descriptor : descriptor_typed (nt_descriptor t);
  ty_binding : ∀ v, nt_graph_value t = Some v → in_u32 v;
  ty_quant : quantization_typed (nt_quantization t);
}.
Definition tensor_fits (t : NativeTensor) : Prop :=
  len (td_shape (nt_descriptor t)) < 2 ^ 8 ∧
  NATIVE_TENSOR_HEADER_LEN + 8 * len (td_shape (nt_descriptor t)) + len (nt_payload t) < 2 ^ 64.

Lemma encode_quantization_wf d q :
  quantization_wf d q → encode_quantization q = Ok (quant_fields q).
Proof.
  destruct q as [|s|s z]; cbn [encode_quantization quantization_wf quant_fields];
    [by intros _| |].
  - intros [_ Hs]. by rewrite (proj2 (validate_scale_Ok s) Hs).
  - intros (_ & Hs & Hz). rewrite (proj2 (validate_scale_Ok s) Hs).
    by rewrite (proj2 (zero_point_in_range_true z) Hz).
Qed.

Lemma encode_one_descriptor d :
  len (td_shape d) < 2 ^ 8 →
  encode_tensor_descriptors [d] = Ok (table_bytes IrVersion_CURRENT [d]).
Proof. intros H. apply encode_table_Ok. split_and!; [done| |done]. by repeat constructor. Qed.

Lemma encode_tensor_Ok t r :
  encode_native_tensor t = Ok r ↔
  tensor_wf t ∧ tensor_fits t ∧ r = tensor_bytes NATIVE_TENSOR_MINOR t.
Proof.
  rewrite <- validate_tensor_Ok. unfold encode_native_tensor, tensor_fits.
  destruct (validate_tensor t) as [u| |] eqn:Hv; [|by split; [|intros [? _]]..].
  pose proof (proj1 (validate_tensor_Ok t) (unit_Ok _ _ Hv)) as [Hc Hb Hp Hf Hq].
  destruct u. destruct (Z.ltb_spec (len (td_shape (nt_descriptor t))) (2 ^ 8)) as [Hr|Hr].
  - rewrite encode_one_descriptor by done. cbn [map_err].
    unfold try_u8. rewrite (proj2 (Z.ltb_lt _ _) Hr). cbn [ok_or].
    rewrite Hc, try_u64_Ok, (encode_quantization_wf _ _ Hq) by done.
    unfold tensor_bytes. destruct (quant_fields (nt_quantization t)) as [[qt sb] zp].
    unfold checked_mul_usize, checked_add_usize, checked_mul_u64, checked_add_u64.
    unfold NATIVE_TENSOR_HEADER_LEN in *.
    rewrite (proj2 (Z.ltb_lt (len _ * 8) _)) by lia. cbn [ok_or].
    rewrite (proj2 (Z.ltb_lt (80 + _) _)) by lia. cbn [ok_or].
    rewrite fold_left_push_u64. unfold push_i32, push_u64, push_u32, push_u16, push_u8.
    rewrite <- !app_assoc. fold (raw_binding (nt_graph_value t)).
    destruct (Z.ltb_spec (80 + len (td_shape (nt_descriptor t)) * 8 + len (nt_payload t)) (2 ^ 64));
      cbn [ok_or].
    + split; [intros [= <-]; split_and!; done || lia|by intros (_ & _ & ->)].
    + split; [done|]. intros (_ & (_ & ?) & _). lia.
  - split; [|intros (_ & (? & _) & _); lia].
    destruct (encode_tensor_descriptors _) as [tb| |] eqn:He; simpl; [|done..].
    apply encode_table_Ok in He as (_ & Hfit & _). apply Forall_cons in Hfit as [Hfit _].
    unfold descriptor_fits in Hfit. lia.
Qed.

Lemma decode_tensor_dtype_tag d : decode_dtype (dtype_tag d) = Ok d.
Proof. unfold decode_dtype. by rewrite dtype_of_tag_tag. Qed.
Lemma decode_tensor_dtype_Ok t d : decode_dtype t = Ok d → t = dtype_tag d.
Proof. intros H%ok_or_Ok. by apply dtype_of_tag_Some. Qed.

Lemma decode_quant_fields d q :
  quantization_wf d q →
  let '(tag, s, z) := quant_fields q in decode_quantization tag s z = Ok q.
Proof.
  destruct q as [|s|s z]; cbn [quantization_wf quant_fields]; [by intros _| |].
  - intros [_ Hs]. unfold decode_quantization. cbn [Z.eqb Pos.eqb andb]. by rewrite (proj2 (validate_scale_Ok s) Hs).
  - intros (_ & Hs & Hz). unfold decode_quantization. cbn [Z.eqb Pos.eqb andb].
    by rewrite (proj2 (zero_point_in_range_true z) Hz), (proj2 (validate_scale_Ok s) Hs).
Qed.

Lemma decode_quantization_Ok tag s z q :
  decode_quantization tag s z = Ok q → quant_fields q = (tag, s, z).
Proof.
  unfold decode_quantization.
  destruct (_ && _) eqn:H0.
  { rewrite !andb_true_iff, !Z.eqb_eq in H0. destruct H0 as (-> & -> & ->). by intros [= <-]. }
  clear H0. destruct (_ && _) eqn:H1.
  { rewrite andb_true_iff, !Z.eqb_eq in H1. destruct H1 as [-> ->].
    destruct (validate_scale s); [by intros [= <-]|done..]. }
  clear H1. destruct (_ && _) eqn:H2; [|done].
  rewrite andb_true_iff, Z.eqb_eq in H2. destruct H2 as [-> _].
  destruct (validate_scale s); [by intros [= <-]|done..].
Qed.

Lemma binding_of_raw v :
  (∀ x, v = Some x → x ≠ NO_GRAPH_BINDING) → binding_of (raw_binding v) = v.
Proof.
  intros Hv. unfold binding_of. destruct v as [x|]; simpl.
  - by rewrite (proj2 (Z.eqb_neq _ _) (Hv x eq_refl)).
  - done.
Qed.

Lemma raw_binding_of z : raw_binding (binding_of z) = z.
Proof. unfold binding_of. by destruct (Z.eqb_spec z NO_GRAPH_BINDING); simpl. Qed.

Lemma raw_binding_u32 v : (∀ x, v = Some x → in_u32 x) → in_u32 (raw_binding v).
Proof. intros H. destruct v as [x|]; [by apply H|done]. Qed.

Lemma quant_fields_typed q :
  quantization_typed q →
  let '(tag, s, z) := quant_fields q in in_u8 tag ∧ in_u32 s ∧ in_i32 z.
Proof. destruct q; simpl; unfold in_u8, in_u32, in_i32; intros; repeat split; simpl; tauto || lia. Qed.

(** ** Decoding *)
Lemma element_count_bound t : tensor_wf t → Forall in_u64 (td_shape (nt_descriptor t)) →
  in_u64 (product (td_shape (nt_descriptor t))).
Proof.
  intros [Hc _ _ _ _] Hs. apply element_count_Ok in Hc as [_ Hlt]. split; [|done].
  clear Hlt. induction Hs as [|d s [Hd _] _ IH]; simpl; lia.
Qed.

Lemma reads_tensor minor t :
  in_u16 minor → minor ≤ NATIVE_TENSOR_MINOR → tensor_typed t → tensor_wf t → tensor_fits t →
  nt_graph_value t ≠ Some NO_GRAPH_BINDING →
  reads_end decode_native_tensor_at (tensor_bytes minor t) t.
Proof.
  intros Hm Hle [[Hid Hsh Hbl] Hbind Hqt] Hwf [Hrank Hfit] Hnb.
  pose proof Hwf as [Hc Hb Hp Hf Hq]. pose proof (element_count_bound t Hwf Hsh) as Hcount.
  pose proof (quant_fields_typed _ Hqt) as Hqf. pose proof (decode_quant_fields _ _ Hq) as Hdq.
  unfold tensor_bytes, decode_native_tensor_at.
  destruct (quant_fields (nt_quantization t)) as [[qt sb] zp]. destruct Hqf as (Hqt8 & Hsb & Hzp).
  pose proof (len_nonneg (nt_payload t)). pose proof (len_nonneg (td_shape (nt_descriptor t))).
  eapply reads_end_bind; [by apply reads_take|].
  eapply reads_end_bind_nil; [by apply reads_guard|].
  eapply reads_end_bind; [by apply reads_u16|].
  eapply reads_end_bind_nil; [by apply reads_guard|].
  do 2 (eapply reads_end_bind; [by apply reads_u16|]).
  eapply reads_end_bind_nil; [apply reads_guard; simpl; by apply Z.leb_le|].
  eapply reads_end_bind; [by apply reads_u32|].
  eapply reads_end_bind; [by apply reads_u32, raw_binding_u32|].
  eapply reads_end_bind; [apply reads_u8, dtype_tag_u8|].
  eapply reads_end_bind_nil; [apply reads_lift, decode_tensor_dtype_tag|].
  eapply reads_end_bind; [by apply reads_u8|].
  eapply reads_end_bind; [by apply reads_u8|].
  eapply reads_end_bind; [by apply reads_u8|].
  eapply reads_end_bind_nil; [by apply reads_guard|].
  do 2 (eapply reads_end_bind; [by apply reads_u64|]).
  eapply reads_end_bind; [by apply reads_u32|].
  eapply reads_end_bind; [by apply reads_i32|].
  eapply reads_end_bind; [apply reads_take, sha256_digest|].
  rewrite to_nat_len. eapply reads_end_bind.
  { apply (reads_many _ (to_le 8)). eapply Forall_impl; [done|]. apply reads_u64. }
  eapply reads_end_bind_nil; [by apply reads_lift|].
  eapply reads_end_bind_nil; [by apply reads_guard, Z.eqb_eq|].
  eapply reads_end_bind_nil; [by apply reads_lift, try_u64_Ok|].
  rewrite <- (app_nil_r (nt_payload t)) at 2. eapply reads_end_bind; [by apply reads_take|].
  apply reads_end_finished. apply reads_reads_end.
  eapply reads_bind_nil; [by apply reads_lift|]. cbv beta zeta.
  assert (mkTensorDescriptor (td_id (nt_descriptor t)) (td_dtype (nt_descriptor t))
    (td_shape (nt_descriptor t)) (len (nt_payload t)) = nt_descriptor t) as ->
    by (rewrite <- Hb; by destruct (nt_descriptor t)).
  rewrite binding_of_raw by (intros x Hx ->; by apply Hnb).
  replace (mkNativeTensor _ _ _ _) with t by (by destruct t).
  eapply reads_bind_nil; [by apply reads_lift, validate_tensor_Ok|].
  eapply reads_bind_nil; [apply reads_lift; by rewrite encode_one_descriptor|].
  eapply reads_bind_nil; [apply reads_guard; by apply bool_decide_eq_true|]. apply reads_ret.
Qed.

Lemma decode_tensor_Ok bs t :
  decode_native_tensor bs = Ok t →
  ∃ minor, in_u16 minor ∧ minor ≤ NATIVE_TENSOR_MINOR ∧ bs = tensor_bytes minor t ∧
    tensor_typed t ∧ tensor_wf t ∧ len (td_shape (nt_descriptor t)) < 2 ^ 8.
Proof.
  unfold decode_native_tensor, run_decoder.
  destruct (decode_native_tensor_at (cursor_new bs)) as [[t' c]| |] eqn:H; [|done..].
  intros [= <-]. change (cursor_new bs) with (at_ ([] ++ []) bs) in H.
  unfold decode_native_tensor_at in H. do 20 parse_step H.
  eapply parses_step in H; [|apply (parses_many _ (to_le 8) in_u64); apply parses_u64].
  destruct H as (l' & post' & shape & -> & (-> & Hlen & Hsh) & H).
  do 4 parse_step H. apply step_finished in H as [-> H].
  apply step_lift in H as (q & Hq & H). cbv beta zeta in H.
  apply step_lift in H as (u & Hval & H). apply step_lift in H as (canon & Hcanon & H).
  apply step_guard in H as [Hhash H]. apply parses_step_ret in H as [-> _].
  apply unit_Ok, validate_tensor_Ok in Hval. apply decode_quantization_Ok in Hq.
  parse_facts ltac:(idtac; match goal with
    | Hr : decode_dtype _ = Ok _ |- _ => apply decode_tensor_dtype_Ok in Hr
    | Hr : element_count _ = Ok _ |- _ => apply element_count_Ok in Hr as [? _] end).
  assert (len shape = a11) as Hrank by (unfold len, in_u8 in *; lia).
  destruct (encode_tensor_descriptors _) as [tb| |] eqn:He; simpl in Hcanon; [|done..].
  injection Hcanon as ->. apply encode_table_Ok in He as (_ & Hfit & ->).
  apply Forall_cons in Hfit as [Hfit _].
  match goal with Hm : ?m ≤ NATIVE_TENSOR_MINOR |- _ => exists m end.
  split_and!; try done.
  - unfold tensor_bytes. cbn [nt_descriptor nt_graph_value nt_quantization nt_payload td_id
      td_dtype td_shape]. rewrite Hq, raw_binding_of, Hrank.
    by rewrite ?app_nil_l, ?app_nil_r.
  - split; [by constructor| |].
    + intros v Hv. cbn [nt_graph_value] in Hv. unfold binding_of in Hv.
      destruct (negb _); [by injection Hv as <-|done].
    + cbn [nt_quantization]. destruct q; simpl in *; simplify_eq; done.
Qed.

Lemma decode_tensor_binding bs t :
  decode_native_tensor bs = Ok t → nt_graph_value t ≠ Some NO_GRAPH_BINDING.
Proof.
  unfold decode_native_tensor, run_decoder.
  destruct (decode_native_tensor_at (cursor_new bs)) as [[t' c]| |] eqn:H; [|done..].
  intros [= <-]. change (cursor_new bs) with (at_ ([] ++ []) bs) in H.
  unfold decode_native_tensor_at in H. do 20 parse_step H.
  eapply parses_step in H; [|apply (parses_many _ (to_le 8) in_u64); apply parses_u64].
  destruct H as (l' & post' & shape & -> & _ & H).
  do 4 parse_step H. apply step_finished in H as [-> H].
  apply step_lift in H as (q & _ & H). cbv beta zeta in H.
  apply step_lift in H as (u & _ & H). apply step_lift in H as (canon & _ & H).
  apply step_guard in H as [_ H]. apply parses_step_ret in H as [-> _]. simpl.
  unfold binding_of. match goal with |- context [?x =? NO_GRAPH_BINDING] =>
    destruct (Z.eqb_spec x NO_GRAPH_BINDING) end; simpl; congruence.
Qed.

Lemma len_concat_words n zs : len (concat (map (to_le n) zs)) = Z.of_nat n * len zs.
Proof.
  induction zs as [|z zs IH]; [unfold len; simpl; lia|]. simpl.
  rewrite len_app, len_to_le, IH, len_cons. lia.
Qed.

Lemma len_tensor_bytes minor t :
  len (tensor_bytes minor t) = NATIVE_TENSOR_HEADER_LEN +
    8 * len (td_shape (nt_descriptor t)) + len (nt_payload t).
Proof.
  unfold tensor_bytes, NATIVE_TENSOR_HEADER_LEN.
  destruct (quant_fields _) as [[qt sb] zp]. rewrite !len_app, !len_to_le, len_concat_words.
  rewrite sha256_digest. change (len NATIVE_TENSOR_MAGIC) with 6. lia.
Qed.

Lemma decode_encode_tensor t bs :
  tensor_typed t → nt_graph_value t ≠ Some NO_GRAPH_BINDING →
  encode_native_tensor t = Ok bs → decode_native_tensor bs = Ok t.
Proof.
  intros Ht Hnb (Hwf & Hfit & ->)%encode_tensor_Ok.
  apply run_decoder_reads; [rewrite len_tensor_bytes; apply Hfit|]. by apply reads_tensor.
Qed.

(** ** Properties *)

(** Decoding the encoding of a typed tensor whose graph binding is not the reserved
    value gives the tensor back. *)
Theorem native_tensor_round_trip t bs :
  tensor_typed t → nt_graph_value t ≠ Some NO_GRAPH_BINDING →
  encode_native_tensor t = Ok bs → decode_native_tensor bs = Ok t.
Proof. apply decode_encode_tensor. Qed.

(** Every tensor the decoder returns has data of the length its shape and type require
    and quantization metadata that fit it. *)
Theorem native_tensor_decode_sound bs t :
  decode_native_tensor bs = Ok t →
  tensor_wf t ∧ tensor_typed t ∧ nt_graph_value t ≠ Some NO_GRAPH_BINDING ∧
  ∃ minor, 0 ≤ minor ≤ NATIVE_TENSOR_MINOR ∧ bs = tensor_bytes minor t.
Proof.
  intros H. pose proof (decode_tensor_binding bs t H) as Hb.
  apply decode_tensor_Ok in H as (m & [Hm _] & Hle & -> & Ht & Hwf & _).
  split_and!; try done. by exists m.
Qed.

(** ** Concrete tensors *)
Definition sample_tensor (v : option ValueId) : NativeTensor :=
  mkNativeTensor (mkTensorDescriptor 4 I8 [2; 3] 6) v (AffineI8 1065353216 (-3)) (to_le 6 0).

Definition sample_tensor_bytes : bytes :=
  match encode_native_tensor (sample_tensor (Some 9)) with Ok bs => bs | _ => [] end.

Lemma sample_tensor_typed v :
  (∀ x, v = Some x → in_u32 x) → tensor_typed (sample_tensor v).
Proof.
  intros Hv. split; [split; [done|by repeat constructor|done]|exact Hv|].
  split; [done|]. split; vm_compute; done.
Qed.

Lemma native_tensor_round_trip_witness :
  decode_native_tensor sample_tensor_bytes = Ok (sample_tensor (Some 9)).
Proof.
  apply (native_tensor_round_trip (sample_tensor (Some 9)) sample_tensor_bytes).
  - apply sample_tensor_typed. intros x [= <-]. done.
  - done.
  - vm_compute. reflexivity.
Defined.

Lemma native_tensor_decode_sound_witness :
  decode_native_tensor sample_tensor_bytes = Ok (sample_tensor (Some 9)) ∧
  tensor_wf (sample_tensor (Some 9)).
Proof.
  assert (decode_native_tensor sample_tensor_bytes = Ok (sample_tensor (Some 9))) as H
    by (vm_compute; reflexivity).
  split; [exact H|]. exact (proj1 (native_tensor_decode_sound _ _ H)).
Defined.

(** A tensor bound to the graph value u32::MAX encodes successfully and decodes to an
    unbound tensor. *)
Theorem unrepresentable_binding :
  let t := sample_tensor (Some NO_GRAPH_BINDING) in
  tensor_typed t ∧
  ∃ bs, encode_native_tensor t = Ok bs ∧ decode_native_tensor bs = Ok (sample_tensor None) ∧
    sample_tensor None ≠ t.
Proof.
  split; [apply sample_tensor_typed; intros x [= <-]; done|].
  exists (match encode_native_tensor (sample_tensor (Some NO_GRAPH_BINDING)) with
          | Ok bs => bs | _ => [] end).
  split_and!; [vm_compute; reflexivity|vm_compute; reflexivity|done].
Qed.
