(* ===== verification/NativeTokenizer.v ===== *)
(** Native tokenizer descriptors: src/crates/ntd-capsule/src/tokenizer.rs, up
    to the loader of generative programs, which NativeProgram.v models.

    [tokenizer_wf] says what a valid descriptor is without the loops and maps
    of [validate_tokenizer]; [validate_tokenizer_spec] proves the two agree. *)
From S2P Require Import Prelude Text Capsule Codec Ir IrCodec Descriptors NativeTensor.

Definition NATIVE_TOKENIZER_FORMAT : string := "ntd97.tokenizer.v2".
Definition LEGACY_NATIVE_TOKENIZER_FORMAT : string := "ntd97.tokenizer.vocab.v1".
Definition NATIVE_TOKENIZER_MAGIC : bytes := map byte_of_Z [78; 84; 75; 57; 55; 0].
Definition NATIVE_TOKENIZER_HEADER_LEN : Z := 32.
Definition NATIVE_TOKENIZER_MAJOR : Z := 0.
Definition NATIVE_TOKENIZER_MINOR : Z := 3.
Definition NO_SPECIAL_TOKEN : Z := 2 ^ 32 - 1.

Definition TOKENIZER_MODEL_VOCABULARY : Z := 0.
Definition TOKENIZER_MODEL_LLAMA_SPM : Z := 1.
Definition TOKENIZER_MODEL_GPT2_BPE : Z := 2.
Definition TOKENIZER_FLAG_ADD_SPACE_PREFIX : Z := 1.
Definition TOKENIZER_FLAG_ADD_BOS : Z := 2.
Definition TOKENIZER_FLAG_ADD_EOS : Z := 4.
Definition TOKENIZER_KNOWN_FLAGS : Z :=
  Z.lor (Z.lor TOKENIZER_FLAG_ADD_SPACE_PREFIX TOKENIZER_FLAG_ADD_BOS) TOKENIZER_FLAG_ADD_EOS.

Inductive NativeTokenizerModel :=
| Vocabulary
| LlamaSpm (score_bits token_types : list Z) (add_space_prefix add_bos_token add_eos_token : bool)
| Gpt2Bpe (merges : list string) (add_bos_token add_eos_token : bool).

Record NativeTokenizerDescriptor := mkTokenizer {
  tk_tokens : list bytes;
  tk_bos : option Z;
  tk_eos : option Z;
  tk_unknown : option Z;
  tk_model : NativeTokenizerModel;
}.

Inductive NativeTokenizerError :=
| Descriptor (e : DescriptorError)
| WrongDescriptorKind (k : DescriptorFrameKind)
| WrongFormat (s : string)
| Truncated
| InvalidUtf8
| InvalidMagic
| InvalidHeader
| UnsupportedVersion (major minor : Z)
| EmptyVocabulary
| EmptyToken (id : Z)
| DuplicateToken (first second : Z)
| InvalidSpecialToken (id : Z)
| InvalidTokenizerModel (tag : Z)
| InvalidScoreCount (expected actual : Z)
| InvalidTokenTypeCount (expected actual : Z)
| InvalidTokenType (token token_type : Z)
| NonFiniteScore (id : Z)
| InvalidBpeMerge (s : string)
| DuplicateBpeMerge (s : string)
| NonCanonicalEncoding
| Overflow.

#[export] Instance tokenizer_cursor_errors : CursorErrors NativeTokenizerError :=
  {| err_truncated := Truncated; err_cursor_overflow := Overflow |}.

#[export] Instance byte_countable : Countable byte.
Proof.
  refine (inj_countable' (λ b : byte, byte.unsigned b) byte.of_Z _).
  intros b. apply byte.of_Z_unsigned.
Defined.

(** ** Validation *)

(** The body of the loop over [tokens.iter().enumerate()]. *)
Definition check_token (seen : gmap bytes Z) (p : Z * bytes)
  : result NativeTokenizerError (gmap bytes Z) :=
  let? id := ok_or (try_u32 p.1) Overflow in
  match p.2 with
  | [] => Err (EmptyToken id)
  | _ =>
      match seen !! p.2 with
      | Some first => Err (DuplicateToken first id)
      | None => Ok (<[p.2 := id]> seen)
      end
  end.

Definition check_special (token_count special : Z) : result NativeTokenizerError unit :=
  if token_count <=? special then Err (InvalidSpecialToken special) else Ok tt.

(** The body of the loop over [score_bits.iter().enumerate()]. *)
Definition check_score (token_types : list Z) (p : Z * Z) : result NativeTokenizerError unit :=
  let? id := ok_or (try_u32 p.1) Overflow in
  if negb (f32_is_finite p.2) then Err (NonFiniteScore id)
  else
    let? token_type := or_panic (token_types !! Z.to_nat p.1) in
    if negb ((1 <=? token_type) && (token_type <=? 6)) then Err (InvalidTokenType id token_type)
    else Ok tt.

Definition space : Ascii.ascii := Ascii.ascii_of_nat 32.

(** [split_once(' ')] *)
Fixpoint split_once_space (s : string) : option (string * string) :=
  match s with
  | EmptyString => None
  | String a s' =>
      if bool_decide (a = space) then Some (EmptyString, s')
      else match split_once_space s' with
           | Some (l, r) => Some (String a l, r)
           | None => None
           end
  end.

(** [contains(' ')] *)
Fixpoint contains_space (s : string) : bool :=
  match s with
  | EmptyString => false
  | String a s' => bool_decide (a = space) || contains_space s'
  end.

(** The body of the loop over [merges]. *)
Definition check_merge (seen : gset string) (merge : string)
  : result NativeTokenizerError (gset string) :=
  match split_once_space merge with
  | None => Err (InvalidBpeMerge merge)
  | Some (l, r) =>
      if string_is_empty l || string_is_empty r || contains_space r
      then Err (InvalidBpeMerge merge)
      else if bool_decide (merge ∈ seen) then Err (DuplicateBpeMerge merge)
      else Ok ({[merge]} ∪ seen)
  end.

Definition validate_model (tokens : list bytes) (model : NativeTokenizerModel)
  : result NativeTokenizerError unit :=
  match model with
  | Vocabulary => Ok tt
  | LlamaSpm score_bits token_types _ _ _ =>
      if negb (len score_bits =? len tokens)
      then Err (InvalidScoreCount (len tokens) (len score_bits))
      else if negb (len token_types =? len tokens)
      then Err (InvalidTokenTypeCount (len tokens) (len token_types))
      else check_all (check_score token_types) (enumerate score_bits)
  | Gpt2Bpe merges _ _ =>
      let? _ := fold_result check_merge ∅ merges in Ok tt
  end.

Definition validate_tokenizer (tokenizer : NativeTokenizerDescriptor)
  : result NativeTokenizerError unit :=
  match tk_tokens tokenizer with
  | [] => Err EmptyVocabulary
  | tokens =>
      let? _ := fold_result check_token ∅ (enumerate tokens) in
      let? token_count := ok_or (try_u32 (len tokens)) Overflow in
      let? _ := check_all (check_special token_count)
                  (omap id [tk_bos tokenizer; tk_eos tokenizer; tk_unknown tokenizer]) in
      validate_model tokens (tk_model tokenizer)
  end.

(** ** Encoding *)
Definition flag_bits (b : bool) (flag : Z) : Z := if b then flag else 0.

Definition encode_token (out token : bytes) : result NativeTokenizerError bytes :=
  let? n := ok_or (try_u32 (len token)) Overflow in Ok (push_u32 out n ++ token).

Definition encode_model (out : bytes) (model : NativeTokenizerModel)
  : result NativeTokenizerError bytes :=
  match model with
  | Vocabulary => Ok out
  | LlamaSpm score_bits token_types add_space_prefix add_bos_token add_eos_token =>
      let? score_count := ok_or (try_u32 (len score_bits)) Overflow in
      let out := fold_left push_u32 score_bits (push_u32 out score_count) in
      let? type_count := ok_or (try_u32 (len token_types)) Overflow in
      let out := fold_left push_i32 token_types (push_u32 out type_count) in
      let flags := Z.lor (Z.lor (flag_bits add_space_prefix TOKENIZER_FLAG_ADD_SPACE_PREFIX)
        (flag_bits add_bos_token TOKENIZER_FLAG_ADD_BOS))
        (flag_bits add_eos_token TOKENIZER_FLAG_ADD_EOS) in
      Ok (push_u32 out flags)
  | Gpt2Bpe merges add_bos_token add_eos_token =>
      let? merge_count := ok_or (try_u32 (len merges)) Overflow in
      let? out := fold_result (λ out merge, encode_token out (string_bytes merge))
                    (push_u32 out merge_count) merges in
      let flags := Z.lor (flag_bits add_bos_token TOKENIZER_FLAG_ADD_BOS)
        (flag_bits add_eos_token TOKENIZER_FLAG_ADD_EOS) in
      Ok (push_u32 out flags)
  end.

Definition model_tag (model : NativeTokenizerModel) : Z :=
  match model with
  | Vocabulary => TOKENIZER_MODEL_VOCABULARY
  | LlamaSpm _ _ _ _ _ => TOKENIZER_MODEL_LLAMA_SPM
  | Gpt2Bpe _ _ _ => TOKENIZER_MODEL_GPT2_BPE
  end.

Definition unwrap_special (o : option Z) : Z :=
  match o with Some v => v | None => NO_SPECIAL_TOKEN end.

Definition encode_native_tokenizer (tokenizer : NativeTokenizerDescriptor)
  : result NativeTokenizerError bytes :=
  let? _ := validate_tokenizer tokenizer in
  let? token_count := ok_or (try_u32 (len (tk_tokens tokenizer))) Overflow in
  let payload := NATIVE_TOKENIZER_MAGIC in
  let payload := push_u16 payload NATIVE_TOKENIZER_HEADER_LEN in
  let payload := push_u16 payload NATIVE_TOKENIZER_MAJOR in
  let payload := push_u16 payload NATIVE_TOKENIZER_MINOR in
  let payload := push_u32 payload token_count in
  let payload := push_u32 payload (unwrap_special (tk_bos tokenizer)) in
  let payload := push_u32 payload (unwrap_special (tk_eos tokenizer)) in
  let payload := push_u32 payload (unwrap_special (tk_unknown tokenizer)) in
  let payload := push_u32 payload (model_tag (tk_model tokenizer)) in
  let? payload := fold_result encode_token payload (tk_tokens tokenizer) in
  let? payload := encode_model payload (tk_model tokenizer) in
  map_err Descriptor
    (encode_descriptor_frame (mkDescriptorFrame Tokenizer NATIVE_TOKENIZER_FORMAT payload)).

(** ** Decoding *)
Definition decode_special (value : Z) : option Z :=
  if negb (value =? NO_SPECIAL_TOKEN) then Some value else None.

Definition flag_set (flags flag : Z) : bool := negb (Z.land flags flag =? 0).
(** [flags & !known != 0] *)
Definition unknown_flags (flags known : Z) : bool :=
  negb (Z.land flags (Z.lxor known (Z.ones 32)) =? 0).

Definition read_block : decoder NativeTokenizerError bytes :=
  dec! n <- read_u32;
  dec! n <- dec_lift (ok_or (try_usize n) Overflow);
  take_bytes n.

(** [Cursor::string] *)
Definition read_string : decoder NativeTokenizerError string :=
  dec! bs <- read_block;
  dec_lift (ok_or (from_utf8 bs) InvalidUtf8).

Definition decode_llama_spm : decoder NativeTokenizerError NativeTokenizerModel :=
  dec! score_count <- read_u32;
  dec! score_bits <- read_vec Overflow score_count read_u32;
  dec! type_count <- read_u32;
  dec! token_types <- read_vec Overflow type_count read_i32;
  dec! flags <- read_u32;
  dec! _ <- dec_guard (negb (unknown_flags flags TOKENIZER_KNOWN_FLAGS)) NonCanonicalEncoding;
  dec_ret (LlamaSpm score_bits token_types (flag_set flags TOKENIZER_FLAG_ADD_SPACE_PREFIX)
             (flag_set flags TOKENIZER_FLAG_ADD_BOS) (flag_set flags TOKENIZER_FLAG_ADD_EOS)).

Definition decode_gpt2_bpe : decoder NativeTokenizerError NativeTokenizerModel :=
  dec! merge_count <- read_u32;
  dec! merges <- read_vec Overflow merge_count read_string;
  dec! flags <- read_u32;
  dec! _ <- dec_guard
    (negb (unknown_flags flags (Z.lor TOKENIZER_FLAG_ADD_BOS TOKENIZER_FLAG_ADD_EOS)))
    NonCanonicalEncoding;
  dec_ret (Gpt2Bpe merges (flag_set flags TOKENIZER_FLAG_ADD_BOS)
             (flag_set flags TOKENIZER_FLAG_ADD_EOS)).

Definition decode_model (minor model_tag : Z) : decoder NativeTokenizerError NativeTokenizerModel :=
  if minor <=? 1 then dec_ret Vocabulary
  else
    match model_tag with
    | 0 => dec_ret Vocabulary
    | 1 => decode_llama_spm
    | 2 =>
        dec! _ <- dec_guard (negb (minor <? 3)) NonCanonicalEncoding;
        decode_gpt2_bpe
    | other => dec_lift (Err (InvalidTokenizerModel other))
    end.

Definition decode_tokenizer_payload : decoder NativeTokenizerError NativeTokenizerDescriptor :=
  dec! magic <- take_bytes 6;
  dec! _ <- dec_guard (bytes_eqb magic NATIVE_TOKENIZER_MAGIC) InvalidMagic;
  dec! header_len <- read_u16;
  dec! _ <- dec_guard (header_len =? NATIVE_TOKENIZER_HEADER_LEN) InvalidHeader;
  dec! major <- read_u16;
  dec! minor <- read_u16;
  dec! _ <- dec_guard ((major =? NATIVE_TOKENIZER_MAJOR) && (minor <=? NATIVE_TOKENIZER_MINOR))
              (UnsupportedVersion major minor);
  dec! token_count <- read_u32;
  dec! bos <- read_u32;
  dec! eos <- read_u32;
  dec! unknown <- read_u32;
  dec! tag <- read_u32;
  dec! _ <- dec_guard (negb ((minor <=? 1) && negb (tag =? TOKENIZER_MODEL_VOCABULARY)))
              NonCanonicalEncoding;
  dec! tokens <- read_vec Overflow token_count read_block;
  dec! model <- decode_model minor tag;
  dec! _ <- expect_finished NonCanonicalEncoding;
  let tokenizer := mkTokenizer tokens (decode_special bos) (decode_special eos)
    (decode_special unknown) model in
  dec! _ <- dec_lift (validate_tokenizer tokenizer);
  dec_ret tokenizer.

Definition decode_native_tokenizer (bs : bytes)
  : result NativeTokenizerError NativeTokenizerDescriptor :=
  let? frame := map_err Descriptor (decode_descriptor_frame bs) in
  if negb (bool_decide (df_kind frame = Tokenizer))
  then Err (WrongDescriptorKind (df_kind frame))
  else if negb (bool_decide (df_format frame = NATIVE_TOKENIZER_FORMAT)) &&
          negb (bool_decide (df_format frame = LEGACY_NATIVE_TOKENIZER_FORMAT))
  then Err (WrongFormat (df_format frame))
  else run_decoder decode_tokenizer_payload (df_payload frame).

Definition push_native_tokenizer_section (builder : CapsuleBuilder)
    (tokenizer : NativeTokenizerDescriptor) : result NativeTokenizerError CapsuleBuilder :=
  let? bs := encode_native_tokenizer tokenizer in Ok (push_embedded builder SecTokenizer bs).

(** ** What a valid tokenizer is *)
Definition merge_wf (m : string) : Prop :=
  ∃ l r, m = String.append l (String space r) ∧ l ≠ EmptyString ∧ r ≠ EmptyString ∧
    contains_space l = false ∧ contains_space r = false.

Definition model_wf (token_count : Z) (model : NativeTokenizerModel) : Prop :=
  match model with
  | Vocabulary => True
  | LlamaSpm score_bits token_types _ _ _ =>
      len score_bits = token_count ∧ len token_types = token_count ∧
      Forall (λ s, f32_is_finite s = true) score_bits ∧ Forall (λ t, 1 ≤ t ≤ 6) token_types
  | Gpt2Bpe merges _ _ => Forall merge_wf merges ∧ NoDup merges
  end.

Record tokenizer_wf (t : NativeTokenizerDescriptor) : Prop := {
  kw_nonempty : tk_tokens t ≠ [];
  kw_count : len (tk_tokens t) < 2 ^ 32;
  kw_tokens : Forall (λ token, token ≠ []) (tk_tokens t);
  kw_nodup : NoDup (tk_tokens t);
  kw_special : ∀ s, Some s ∈ [tk_bos t; tk_eos t; tk_unknown t] → s < len (tk_tokens t);
  kw_model : model_wf (len (tk_tokens t)) (tk_model t);
}.

Lemma check_token_Ok seen i token seen' :
  check_token seen (i, token) = Ok seen' ↔
  i < 2 ^ 32 ∧ token ≠ [] ∧ seen !! token = None ∧ seen' = <[token := i]> seen.
Proof.
  unfold check_token. cbn [fst snd]. unfold try_u32.
  destruct (Z.ltb_spec i (2 ^ 32)); simpl; [|split; [done|lia]].
  destruct token as [|b token]; [naive_solver|].
  destruct (seen !! (b :: token)); [naive_solver|].
  split; [by intros [= <-]|by intros (_ & _ & _ & ->)].
Qed.

Lemma check_tokens_Ok tokens k seen :
  (∃ seen', fold_result check_token seen
     (combine (map Z.of_nat (seq k (length tokens))) tokens) = Ok seen') ↔
  (tokens = [] ∨ Z.of_nat k + len tokens ≤ 2 ^ 32) ∧ Forall (λ t, t ≠ []) tokens ∧
  NoDup tokens ∧ ∀ t, t ∈ tokens → seen !! t = None.
Proof.
  revert k seen. induction tokens as [|t tokens IH]; intros k seen; simpl.
  { split; [|by eexists]. intros _. split_and!; [by left|constructor|constructor|].
    intros t Ht. by apply not_elem_of_nil in Ht. }
  rewrite Forall_cons, NoDup_cons. split.
  - intros [seen' H]. destruct (check_token seen _) as [s1| |] eqn:Hc; [|done..].
    apply check_token_Ok in Hc as (Hk & Hne & Hs & ->).
    destruct (proj1 (IH (S k) _) (ex_intro _ _ H)) as (Hlen & Hall & Hnd & Hfresh).
    assert (t ∉ tokens) as Hnin.
    { intros Hin. specialize (Hfresh t Hin). by rewrite lookup_insert_eq in Hfresh. }
    split_and!; try done.
    + right. rewrite len_cons. destruct Hlen as [->|Hlen]; [rewrite len_nil; lia|lia].
    + intros x [->|Hx]%elem_of_cons; [done|]. specialize (Hfresh x Hx).
      rewrite lookup_insert_ne in Hfresh; [done|]. intros ->. done.
  - intros (Hlen & [Hne Hall] & [Hnin Hnd] & Hfresh).
    destruct Hlen as [?|Hlen]; [done|]. rewrite len_cons in Hlen. len_facts.
    assert (check_token seen (Z.of_nat k, t) = Ok (<[t := Z.of_nat k]> seen)) as ->.
    { apply check_token_Ok. split_and!; [lia|done| |done]. apply Hfresh. by left. }
    apply IH. split_and!; [right; lia|done|done|].
    intros x Hx. rewrite lookup_insert_ne; [apply Hfresh; by right|]. intros ->. done.
Qed.

Lemma check_score_Ok types i s :
  0 ≤ i < 2 ^ 32 →
  check_score types (i, s) = Ok tt ↔
  f32_is_finite s = true ∧ ∃ t, types !! Z.to_nat i = Some t ∧ 1 ≤ t ≤ 6.
Proof.
  intros Hi. unfold check_score. cbn [fst snd]. unfold try_u32.
  rewrite (proj2 (Z.ltb_lt _ _)) by lia. cbn [ok_or].
  destruct (f32_is_finite s); cbn [negb]; [|naive_solver].
  destruct (types !! Z.to_nat i) as [t|]; simpl; [|naive_solver].
  destruct (Z.leb_spec 1 t), (Z.leb_spec t 6); simpl; split; try done;
    try (intros (_ & ? & [= <-] & ?); lia).
  intros _. split; [done|]. exists t. split; [done|lia].
Qed.

Lemma check_scores_Ok scores types :
  len scores < 2 ^ 32 → len types = len scores →
  check_all (check_score types) (enumerate scores) = Ok tt ↔
  Forall (λ s, f32_is_finite s = true) scores ∧ Forall (λ t, 1 ≤ t ≤ 6) types.
Proof.
  intros Hs Ht. rewrite check_all_Ok, Forall_enumerate, !Forall_lookup.
  assert (∀ i x, scores !! i = Some x → 0 ≤ Z.of_nat i < 2 ^ 32) as Hi.
  { intros i x Hx%lookup_lt_Some. unfold len in *. lia. }
  split.
  - intros H. split.
    + intros i s Hx. apply (check_score_Ok types (Z.of_nat i) s); eauto.
    + intros i t Hx. pose proof (lookup_lt_Some _ _ _ Hx) as Hlt.
      destruct (lookup_lt_is_Some_2 scores i) as [s Hsc]; [unfold len in *; lia|].
      pose proof (H i s Hsc) as Hc. apply check_score_Ok in Hc as (_ & t' & Ht' & Hr); [|eauto].
      rewrite Nat2Z.id in Ht'. congruence.
  - intros [Hfin Hty] i s Hx. apply check_score_Ok; [eauto|]. split; [eauto|].
    rewrite Nat2Z.id. pose proof (lookup_lt_Some _ _ _ Hx) as Hlt.
    destruct (lookup_lt_is_Some_2 types i) as [t Htt]; [unfold len in *; lia|]. eauto.
Qed.

Lemma split_once_space_Some s l r :
  split_once_space s = Some (l, r) ↔
  s = String.append l (String space r) ∧ contains_space l = false.
Proof.
  revert l. induction s as [|a s IH]; intros l; simpl.
  - split; [done|]. intros [H _]. by destruct l.
  - case_bool_decide as Ha.
    + subst a. split; [by intros [= <- <-]|].
      intros [H Hl]. destruct l as [|a l]; simpl in *; [by injection H as ->|].
      injection H as <- _. by rewrite bool_decide_eq_true_2 in Hl.
    + destruct (split_once_space s) as [[l' r']|]; split.
      * intros [= <- <-]. destruct (proj1 (IH l')) as [-> Hl]; [done|]. split; [done|]. simpl.
        by rewrite bool_decide_eq_false_2.
      * intros [H Hl]. destruct l as [|a' l]; simpl in *; [by injection H as -> _|].
        injection H as <- Hs. rewrite bool_decide_eq_false_2 in Hl by done.
        assert (Some (l', r') = Some (l, r)) as [= -> ->] by (by apply IH). done.
      * done.
      * intros [H Hl]. destruct l as [|a' l]; simpl in *; [by injection H as -> _|].
        injection H as <- Hs. rewrite bool_decide_eq_false_2 in Hl by done.
        by assert (None = Some (l, r)) by (by apply IH).
Qed.

Lemma check_merge_Ok seen m seen' :
  check_merge seen m = Ok seen' ↔ merge_wf m ∧ m ∉ seen ∧ seen' = {[m]} ∪ seen.
Proof.
  assert (merge_wf m ↔ ∃ l r, split_once_space m = Some (l, r) ∧
    string_is_empty l = false ∧ string_is_empty r = false ∧ contains_space r = false) as ->.
  { unfold merge_wf. setoid_rewrite split_once_space_Some.
    setoid_rewrite string_is_empty_false. naive_solver. }
  unfold check_merge. destruct (split_once_space m) as [[l r]|].
  2:{ split; [done|]. by intros ((? & ? & ? & _) & _). }
  destruct (string_is_empty l || string_is_empty r || contains_space r) eqn:Hc.
  - split; [done|]. intros ((l' & r' & [= <- <-] & Hl & Hr & Hs) & _).
    by rewrite Hl, Hr, Hs in Hc.
  - rewrite !orb_false_iff in Hc. destruct Hc as [[Hl Hr] Hs].
    case_bool_decide as Hin; split; try done.
    + by intros (_ & ? & _).
    + intros [= <-]. split_and!; [by exists l, r|done|done].
    + by intros (_ & _ & ->).
Qed.

Lemma check_merges_Ok ms seen :
  (∃ seen', fold_result check_merge seen ms = Ok seen') ↔
  Forall merge_wf ms ∧ NoDup ms ∧ ∀ m, m ∈ ms → m ∉ seen.
Proof.
  revert seen. induction ms as [|m ms IH]; intros seen; simpl.
  { split; [|by eexists]. intros _. split_and!; [constructor|constructor|].
    intros t Ht. by apply not_elem_of_nil in Ht. }
  rewrite Forall_cons, NoDup_cons. split.
  - intros [seen' H]. destruct (check_merge seen m) as [s1| |] eqn:Hc; [|done..].
    apply check_merge_Ok in Hc as (Hm & Hs & ->).
    destruct (proj1 (IH _) (ex_intro _ _ H)) as (Hall & Hnd & Hfresh).
    split_and!; try done.
    + intros Hin. specialize (Hfresh m Hin). set_solver.
    + intros x [->|Hx]%elem_of_cons; [done|]. specialize (Hfresh x Hx). set_solver.
  - intros ([Hm Hall] & [Hnin Hnd] & Hfresh).
    assert (check_merge seen m = Ok ({[m]} ∪ seen)) as ->.
    { apply check_merge_Ok. split_and!; [done| |done]. apply Hfresh. by left. }
    apply IH. split_and!; [done|done|]. intros x Hx Hin.
    apply elem_of_union in Hin as [->%elem_of_singleton|Hin]; [done|].
    eapply Hfresh; [by right|done].
Qed.

Lemma validate_model_Ok tokens model :
  len tokens < 2 ^ 32 → validate_model tokens model = Ok tt ↔ model_wf (len tokens) model.
Proof.
  intros Hlen. destruct model as [|scores types asp ab ae|merges ab ae]; simpl; [done| |].
  - destruct (Z.eqb_spec (len scores) (len tokens)) as [Hs|Hs]; cbn [negb].
    2:{ split; [done|]. by intros (? & _). }
    destruct (Z.eqb_spec (len types) (len tokens)) as [Ht|Ht]; cbn [negb].
    2:{ split; [done|]. by intros (_ & ? & _). }
    rewrite check_scores_Ok by lia. tauto.
  - assert ((let? _ := fold_result check_merge ∅ merges in Ok tt) = Ok tt ↔
      ∃ seen', fold_result check_merge ∅ merges = Ok seen') as ->.
    { destruct (fold_result check_merge ∅ merges); naive_solver. }
    rewrite check_merges_Ok. split; [naive_solver|]. intros [? ?]. split_and!; done.
Qed.

Lemma check_specials_Ok n l :
  check_all (check_special n) (omap id l) = Ok tt ↔ ∀ s, Some s ∈ l → s < n.
Proof.
  rewrite check_all_Ok, Forall_forall. split.
  - intros H s Hs. specialize (H s). unfold check_special in H.
    destruct (Z.leb_spec n s); [|lia].
    by discriminate (H (proj2 (list_elem_of_omap id l s) (ex_intro _ (Some s) (conj Hs eq_refl)))).
  - intros H s (o & Ho & Hid)%list_elem_of_omap. destruct o as [x|]; [|done].
    injection Hid as ->. unfold check_special. specialize (H s Ho).
    by destruct (Z.leb_spec n s); [lia|].
Qed.

Lemma validate_tokenizer_Ok t : validate_tokenizer t = Ok tt ↔ tokenizer_wf t.
Proof.
  unfold validate_tokenizer. split.
  - destruct (tk_tokens t) as [|t0 ts] eqn:Htk; [done|]. rewrite <- Htk.
    destruct (fold_result _ _ _) as [seen| |] eqn:Hf; [|done..].
    destruct (proj1 (check_tokens_Ok (tk_tokens t) 0 ∅) (ex_intro _ _ Hf))
      as (_ & Hne & Hnd & _).
    unfold try_u32. destruct (Z.ltb_spec (len (tk_tokens t)) (2 ^ 32)); cbn [ok_or]; [|done].
    destruct (check_all _ _) as [u| |] eqn:Hs; [|done..].
    apply unit_Ok in Hs. pose proof (proj1 (check_specials_Ok _ _) Hs) as Hsp.
    intros Hm. apply validate_model_Ok in Hm; [|done]. constructor; try done. by rewrite Htk.
  - intros [Hne Hlen Htok Hnd Hsp Hm]. destruct (tk_tokens t) as [|t0 ts] eqn:Htk; [done|].
    rewrite <- Htk in *.
    destruct (proj2 (check_tokens_Ok (tk_tokens t) 0 ∅)) as [seen Hseen].
    { split_and!; [right; lia|done|done|]. intros. apply lookup_empty. }
    fold (enumerate (tk_tokens t)) in Hseen. rewrite Hseen.
    unfold try_u32. rewrite (proj2 (Z.ltb_lt _ _) Hlen). cbn [ok_or].
    rewrite (proj2 (check_specials_Ok _ _) Hsp). by apply validate_model_Ok.
Qed.

(** ** The encoded payload *)
Definition block_bytes (b : bytes) : bytes := to_le 4 (len b) ++ b.
Definition string_block (s : string) : bytes := block_bytes (string_bytes s).

Definition llama_flags (a b e : bool) : Z :=
  Z.lor (Z.lor (flag_bits a TOKENIZER_FLAG_ADD_SPACE_PREFIX)
    (flag_bits b TOKENIZER_FLAG_ADD_BOS)) (flag_bits e TOKENIZER_FLAG_ADD_EOS).
Definition bpe_flags (b e : bool) : Z :=
  Z.lor (flag_bits b TOKENIZER_FLAG_ADD_BOS) (flag_bits e TOKENIZER_FLAG_ADD_EOS).

Definition model_bytes (model : NativeTokenizerModel) : bytes :=
  match model with
  | Vocabulary => []
  | LlamaSpm scores types a b e =>
      to_le 4 (len scores) ++ concat (map (to_le 4) scores) ++
      to_le 4 (len types) ++ concat (map (to_le 4) types) ++ to_le 4 (llama_flags a b e)
  | Gpt2Bpe merges b e =>
      to_le 4 (len merges) ++ concat (map string_block merges) ++ to_le 4 (bpe_flags b e)
  end.

Definition payload_bytes (t : NativeTokenizerDescriptor) : bytes :=
  NATIVE_TOKENIZER_MAGIC ++ to_le 2 NATIVE_TOKENIZER_HEADER_LEN ++
  to_le 2 NATIVE_TOKENIZER_MAJOR ++ to_le 2 NATIVE_TOKENIZER_MINOR ++
  to_le 4 (len (tk_tokens t)) ++ to_le 4 (unwrap_special (tk_bos t)) ++
  to_le 4 (unwrap_special (tk_eos t)) ++ to_le 4 (unwrap_special (tk_unknown t)) ++
  to_le 4 (model_tag (tk_model t)) ++ concat (map block_bytes (tk_tokens t)) ++
  model_bytes (tk_model t).

(** The [u32] length prefixes of the format. *)
Definition model_fits (model : NativeTokenizerModel) : Prop :=
  match model with
  | Vocabulary => True
  | LlamaSpm scores types _ _ _ => len scores < 2 ^ 32 ∧ len types < 2 ^ 32
  | Gpt2Bpe merges _ _ =>
      len merges < 2 ^ 32 ∧ Forall (λ m, len (string_bytes m) < 2 ^ 32) merges
  end.
Definition tokens_fit (ts : list bytes) : Prop := Forall (λ t : bytes, len t < 2 ^ 32) ts.

Lemma encode_token_Ok out token r :
  encode_token out token = Ok r ↔ len token < 2 ^ 32 ∧ r = out ++ block_bytes token.
Proof.
  unfold encode_token, try_u32, block_bytes, push_u32.
  destruct (Z.ltb_spec (len token) (2 ^ 32)); simpl; [|split; [done|lia]].
  rewrite <- app_assoc. split; [by intros [= <-]|by intros [_ ->]].
Qed.

Lemma encode_tokens_Ok ts out r :
  fold_result encode_token out ts = Ok r ↔
  tokens_fit ts ∧ r = out ++ concat (map block_bytes ts).
Proof. apply (fold_result_append _ (λ t : bytes, len t < 2 ^ 32)), encode_token_Ok. Qed.

Lemma encode_merges_Ok ms out r :
  fold_result (λ out merge, encode_token out (string_bytes merge)) out ms = Ok r ↔
  Forall (λ m, len (string_bytes m) < 2 ^ 32) ms ∧ r = out ++ concat (map string_block ms).
Proof.
  apply (fold_result_append _ (λ m, len (string_bytes m) < 2 ^ 32) string_block).
  intros. apply encode_token_Ok.
Qed.

Lemma fold_left_push_i32 xs out :
  fold_left push_i32 xs out = out ++ concat (map (to_le 4) xs).
Proof. by apply fold_left_append. Qed.

Lemma encode_model_Ok out model r :
  encode_model out model = Ok r ↔ model_fits model ∧ r = out ++ model_bytes model.
Proof.
  destruct model as [|scores types a b e|merges b e]; simpl.
  - rewrite app_nil_r. split; [by intros [= <-]|by intros [_ ->]].
  - unfold try_u32. destruct (Z.ltb_spec (len scores) (2 ^ 32)); cbn [ok_or]; [|split; [done|lia]].
    destruct (Z.ltb_spec (len types) (2 ^ 32)); cbn [ok_or]; [|split; [done|lia]].
    rewrite fold_left_push_u32, fold_left_push_i32. unfold push_u32. rewrite <- !app_assoc.
    split; [by intros [= <-]|by intros [_ ->]].
  - unfold try_u32. destruct (Z.ltb_spec (len merges) (2 ^ 32)); cbn [ok_or]; [|split; [done|lia]].
    destruct (fold_result _ _ _) as [out'| |] eqn:Hf.
    + apply encode_merges_Ok in Hf as [Hf ->]. unfold push_u32. rewrite <- !app_assoc.
      split; [by intros [= <-]|by intros [_ ->]].
    + split; [done|]. intros [[_ Hm] _].
      by rewrite (proj2 (encode_merges_Ok _ _ _) (conj Hm eq_refl)) in Hf.
    + split; [done|]. intros [[_ Hm] _].
      by rewrite (proj2 (encode_merges_Ok _ _ _) (conj Hm eq_refl)) in Hf.
Qed.

Definition tokenizer_frame (t : NativeTokenizerDescriptor) : DescriptorFrame :=
  mkDescriptorFrame Tokenizer NATIVE_TOKENIZER_FORMAT (payload_bytes t).

Lemma tokenizer_frame_fits t :
  len (payload_bytes t) < 2 ^ 64 → frame_fits (tokenizer_frame t).
Proof. intros H. split; [done|exact H]. Qed.

(** The encoder succeeds on the valid tokenizers whose lengths fit. *)
Lemma encode_tokenizer_Ok t r :
  encode_native_tokenizer t = Ok r ↔
  tokenizer_wf t ∧ tokens_fit (tk_tokens t) ∧ model_fits (tk_model t) ∧
  len (payload_bytes t) < 2 ^ 64 ∧ r = frame_bytes DESCRIPTOR_MINOR (tokenizer_frame t).
Proof.
  unfold encode_native_tokenizer. rewrite <- validate_tokenizer_Ok.
  destruct (validate_tokenizer t) as [u| |] eqn:Hv; [|by split; [|intros [? _]]..].
  pose proof (proj1 (validate_tokenizer_Ok t) (unit_Ok _ _ Hv)) as [_ Hn _ _ _ _].
  destruct u. unfold try_u32. rewrite (proj2 (Z.ltb_lt _ _) Hn). cbn [ok_or].
  destruct (fold_result encode_token _ _) as [p1| |] eqn:Ht.
  2,3: split; [done|]; intros (_ & Hf & _);
    by rewrite (proj2 (encode_tokens_Ok _ _ _) (conj Hf eq_refl)) in Ht.
  apply encode_tokens_Ok in Ht as [Htf ->].
  destruct (encode_model _ _) as [p2| |] eqn:Hm.
  2,3: split; [done|]; intros (_ & _ & Hf & _);
    by rewrite (proj2 (encode_model_Ok _ _ _) (conj Hf eq_refl)) in Hm.
  apply encode_model_Ok in Hm as [Hmf ->].
  unfold push_u32, push_u16. rewrite <- !app_assoc. fold (payload_bytes t).
  fold (tokenizer_frame t).
  destruct (encode_descriptor_frame (tokenizer_frame t)) as [fb| |] eqn:Hf; simpl.
  - apply encode_frame_Ok in Hf as [[_ Hp] ->]. split; [by intros [= <-]|by intros (_&_&_&_&->)].
  - split; [done|]. intros (_ & _ & _ & Hp & _).
    by rewrite (proj2 (encode_frame_Ok _ _) (conj (tokenizer_frame_fits t Hp) eq_refl)) in Hf.
  - split; [done|]. intros (_ & _ & _ & Hp & _).
    by rewrite (proj2 (encode_frame_Ok _ _) (conj (tokenizer_frame_fits t Hp) eq_refl)) in Hf.
Qed.

(** ** Decoding what was encoded *)
Definition model_typed (model : NativeTokenizerModel) : Prop :=
  match model with
  | Vocabulary => True
  | LlamaSpm scores types _ _ _ => Forall in_u32 scores ∧ Forall in_i32 types
  | Gpt2Bpe merges _ _ => Forall is_utf8 merges
  end.
Record tokenizer_typed (t : NativeTokenizerDescriptor) : Prop := {
  kt_special : ∀ s, Some s ∈ [tk_bos t; tk_eos t; tk_unknown t] → in_u32 s;
  kt_model : model_typed (tk_model t);
}.

Lemma reads_block b : len b < 2 ^ 32 → reads read_block (block_bytes b) b.
Proof.
  intros Hb. pose proof (len_nonneg b). unfold read_block, block_bytes.
  eapply reads_bind; [by apply reads_u32|].
  eapply reads_bind_nil; [apply reads_lift, try_u64_Ok; lia|]. by apply reads_take.
Qed.

Lemma reads_token_string s :
  is_utf8 s → len (string_bytes s) < 2 ^ 32 → reads read_string (string_block s) s.
Proof.
  intros Hs Hl. unfold read_string, string_block.
  eapply reads_bind_last; [by apply reads_block|]. apply reads_lift. by rewrite from_utf8_string.
Qed.

Lemma llama_flags_decode a b e :
  let flags := llama_flags a b e in
  in_u32 flags ∧ unknown_flags flags TOKENIZER_KNOWN_FLAGS = false ∧
  flag_set flags TOKENIZER_FLAG_ADD_SPACE_PREFIX = a ∧ flag_set flags TOKENIZER_FLAG_ADD_BOS = b ∧
  flag_set flags TOKENIZER_FLAG_ADD_EOS = e.
Proof. destruct a, b, e; split_and!; vm_compute; done. Qed.

Lemma bpe_flags_decode b e :
  let flags := bpe_flags b e in
  in_u32 flags ∧
  unknown_flags flags (Z.lor TOKENIZER_FLAG_ADD_BOS TOKENIZER_FLAG_ADD_EOS) = false ∧
  flag_set flags TOKENIZER_FLAG_ADD_BOS = b ∧ flag_set flags TOKENIZER_FLAG_ADD_EOS = e.
Proof. destruct b, e; split_and!; vm_compute; done. Qed.

Lemma reads_llama scores types a b e :
  model_fits (LlamaSpm scores types a b e) → model_typed (LlamaSpm scores types a b e) →
  reads decode_llama_spm (model_bytes (LlamaSpm scores types a b e)) (LlamaSpm scores types a b e).
Proof.
  intros [Hs Ht] [Hsu Hti]. unfold decode_llama_spm. cbn [model_bytes].
  destruct (llama_flags_decode a b e) as (Hfl & Hun & Ha & Hb & He).
  pose proof (len_nonneg scores). pose proof (len_nonneg types).
  eapply reads_bind; [by apply reads_u32|].
  eapply reads_bind. { apply reads_vec; [lia|]. eapply Forall_impl; [done|]. apply reads_u32. }
  eapply reads_bind; [by apply reads_u32|].
  eapply reads_bind. { apply reads_vec; [lia|]. eapply Forall_impl; [done|]. apply reads_i32. }
  eapply reads_bind_last; [by apply reads_u32|].
  eapply reads_bind_nil; [apply reads_guard; by rewrite Hun|].
  rewrite Ha, Hb, He. apply reads_ret.
Qed.

Lemma reads_bpe merges b e :
  model_fits (Gpt2Bpe merges b e) → model_typed (Gpt2Bpe merges b e) →
  reads decode_gpt2_bpe (model_bytes (Gpt2Bpe merges b e)) (Gpt2Bpe merges b e).
Proof.
  intros [Hm Hml] Hu. unfold decode_gpt2_bpe. cbn [model_bytes].
  destruct (bpe_flags_decode b e) as (Hfl & Hun & Hb & He).
  pose proof (len_nonneg merges).
  eapply reads_bind; [by apply reads_u32|].
  eapply reads_bind.
  { apply reads_vec; [lia|]. simpl in Hu. rewrite Forall_forall in *. intros m Hin.
    apply reads_token_string; auto. }
  eapply reads_bind_last; [by apply reads_u32|].
  eapply reads_bind_nil; [apply reads_guard; by rewrite Hun|].
  rewrite Hb, He. apply reads_ret.
Qed.

Lemma reads_model model :
  model_fits model → model_typed model →
  reads (decode_model NATIVE_TOKENIZER_MINOR (model_tag model)) (model_bytes model) model.
Proof.
  intros Hf Ht. destruct model as [|scores types a b e|merges b e].
  - apply reads_ret.
  - by apply reads_llama.
  - unfold decode_model. cbn [model_tag TOKENIZER_MODEL_GPT2_BPE NATIVE_TOKENIZER_MINOR Z.leb
      Z.compare Pos.compare Pos.compare_cont].
    eapply reads_bind_nil; [by apply reads_guard|]. by apply reads_bpe.
Qed.

Lemma decode_unwrap_special n o :
  n < 2 ^ 32 → (∀ s, o = Some s → s < n) → decode_special (unwrap_special o) = o.
Proof.
  intros Hn Ho. unfold decode_special. destruct o as [s|]; cbn [unwrap_special]; [|done].
  specialize (Ho s eq_refl). by rewrite (proj2 (Z.eqb_neq _ _)) by (unfold NO_SPECIAL_TOKEN; lia).
Qed.

Lemma unwrap_special_u32 o : (∀ s, o = Some s → in_u32 s) → in_u32 (unwrap_special o).
Proof. intros Ho. destruct o as [s|]; [by apply Ho|done]. Qed.

Lemma reads_payload t :
  tokenizer_typed t → tokenizer_wf t → tokens_fit (tk_tokens t) → model_fits (tk_model t) →
  reads_end decode_tokenizer_payload (payload_bytes t) t.
Proof.
  intros [Hsp Hmt] Hwf Htf Hmf. pose proof Hwf as [Hne Hn Htok Hnd Hspl Hm].
  pose proof (len_nonneg (tk_tokens t)).
  unfold payload_bytes, decode_tokenizer_payload.
  assert (∀ o, o ∈ [tk_bos t; tk_eos t; tk_unknown t] → in_u32 (unwrap_special o) ∧
    decode_special (unwrap_special o) = o) as Ho.
  { intros o Hin. split.
    - apply unwrap_special_u32. intros s ->. by apply Hsp.
    - apply (decode_unwrap_special (len (tk_tokens t))); [done|]. intros s ->. by apply Hspl. }
  destruct (Ho (tk_bos t)) as [Hb Hb']; [set_solver|].
  destruct (Ho (tk_eos t)) as [He He']; [set_solver|].
  destruct (Ho (tk_unknown t)) as [Hu Hu']; [set_solver|].
  eapply reads_end_bind; [by apply reads_take|].
  eapply reads_end_bind_nil; [by apply reads_guard|].
  eapply reads_end_bind; [by apply reads_u16|].
  eapply reads_end_bind_nil; [by apply reads_guard|].
  do 2 (eapply reads_end_bind; [by apply reads_u16|]).
  eapply reads_end_bind_nil; [by apply reads_guard|].
  eapply reads_end_bind; [by apply reads_u32|].
  do 3 (eapply reads_end_bind; [by apply reads_u32|]).
  eapply reads_end_bind; [apply reads_u32; by destruct (tk_model t)|].
  eapply reads_end_bind_nil; [by apply reads_guard|].
  eapply reads_end_bind.
  { apply reads_vec; [lia|]. eapply Forall_impl; [exact Htf|].
    apply reads_block. }
  rewrite <- (app_nil_r (model_bytes _)). eapply reads_end_bind; [by apply reads_model|].
  apply reads_end_finished. cbv zeta. rewrite Hb', He', Hu'. apply reads_reads_end.
  replace (mkTokenizer _ _ _ _ _) with t by (by destruct t).
  eapply reads_bind_nil; [by apply reads_lift, validate_tokenizer_Ok|]. apply reads_ret.
Qed.

Lemma decode_payload_wf bs t :
  run_decoder decode_tokenizer_payload bs = Ok t → tokenizer_wf t.
Proof.
  unfold run_decoder. destruct (decode_tokenizer_payload (cursor_new bs)) as [[t' c]| |] eqn:H;
    [|done..].
  intros [= <-]. unfold decode_tokenizer_payload in H.
  do 16 (apply step_any in H as (? & ? & H)). cbv zeta in H.
  apply step_lift in H as (u & Hv & H). injection H as <- _.
  by apply validate_tokenizer_Ok, (unit_Ok _ u).
Qed.

Lemma decode_encode_tokenizer t bs :
  tokenizer_typed t → len bs < 2 ^ 64 →
  encode_native_tokenizer t = Ok bs → decode_native_tokenizer bs = Ok t.
Proof.
  intros Ht Hlen (Hwf & Htf & Hmf & Hp & ->)%encode_tokenizer_Ok. unfold decode_native_tokenizer.
  assert (decode_descriptor_frame (frame_bytes DESCRIPTOR_MINOR (tokenizer_frame t)) =
    Ok (tokenizer_frame t)) as ->.
  { apply (decode_encode_frame _ (frame_bytes DESCRIPTOR_MINOR (tokenizer_frame t)));
      [done|done|]. apply encode_frame_Ok. split; [by apply tokenizer_frame_fits|done]. }
  cbn [map_err tokenizer_frame df_kind df_format df_payload].
  rewrite !bool_decide_eq_true_2 by done. cbn [negb andb].
  apply run_decoder_reads; [done|]. by apply reads_payload.
Qed.

(** ** Properties *)

(** validate_tokenizer accepts a tokenizer exactly when it has tokens, no token is
    empty or repeated, special tokens are in range and the model is well formed (finite
    scores, known types, merges of two non-empty space-free halves without repetition). *)
Theorem validate_tokenizer_spec t : validate_tokenizer t = Ok tt ↔ tokenizer_wf t.
Proof. apply validate_tokenizer_Ok. Qed.

(** Decoding the encoding of a typed tokenizer gives the tokenizer back. *)
Theorem tokenizer_round_trip t bs :
  tokenizer_typed t → len bs < 2 ^ 64 →
  encode_native_tokenizer t = Ok bs → decode_native_tokenizer bs = Ok t.
Proof. apply decode_encode_tokenizer. Qed.

(** Every tokenizer the decoder returns, from the current or the legacy format, is well
    formed. *)
Theorem tokenizer_decode_sound bs t : decode_native_tokenizer bs = Ok t → tokenizer_wf t.
Proof.
  unfold decode_native_tokenizer. destruct (decode_descriptor_frame bs) as [f| |]; simpl; [|done..].
  destruct (negb _); [done|]. destruct (_ && _); [done|]. apply decode_payload_wf.
Qed.

(** ** Concrete tokenizers *)
Definition sample_tokenizer : NativeTokenizerDescriptor :=
  mkTokenizer [to_le 1 97; to_le 2 98; to_le 1 32] (Some 1) (Some 2) None
    (Gpt2Bpe ["a b"; "b c"] true false).
Definition sample_tokenizer_bytes : bytes :=
  match encode_native_tokenizer sample_tokenizer with Ok bs => bs | _ => [] end.

Lemma tokenizer_round_trip_witness :
  decode_native_tokenizer sample_tokenizer_bytes = Ok sample_tokenizer.
Proof.
  apply (tokenizer_round_trip sample_tokenizer sample_tokenizer_bytes).
  - split.
    + intros s Hs. simpl in Hs.
      do 2 (apply elem_of_cons in Hs as [[= ->]|Hs]; [done|]).
      by apply list_elem_of_singleton in Hs.
    + repeat constructor; vm_compute; reflexivity.
  - vm_compute. reflexivity.
  - vm_compute. reflexivity.
Defined.

Lemma tokenizer_decode_sound_witness :
  decode_native_tokenizer sample_tokenizer_bytes = Ok sample_tokenizer ∧
  tokenizer_wf sample_tokenizer.
Proof.
  assert (decode_native_tokenizer sample_tokenizer_bytes = Ok sample_tokenizer) as H
    by (vm_compute; reflexivity).
  split; [exact H|]. exact (tokenizer_decode_sound _ _ H).
Defined.
