(* ===== verification/NativeProgram.v ===== *)
(** Loading a program from a capsule and a content store:
    [ContentStore], [MemoryContentStore], [resolve_chunk] and
    [load_native_program] of src/crates/ntd-capsule/src/native_tensor.rs and
    [load_native_generative_program] of src/crates/ntd-capsule/src/tokenizer.rs.

    The theorems hold for every content store, in particular one that answers
    with whatever bytes it likes: the class [ContentStore] has no laws. *)
From S2P Require Import Prelude Text Collections Hash Capsule CapsuleLayout Ir IrCodec Descriptors Generative NativeTokenizer NativeTensor.

(** ** Content stores *)
Class ContentStore (S : Type) := cs_get : S → Digest → option bytes.

Definition MemoryContentStore : Type := gmap Digest bytes.

Definition store_insert (self : MemoryContentStore) (bs : bytes) : MemoryContentStore * Digest :=
  let hash := sha256 bs in
  (match self !! hash with Some _ => self | None => <[hash := bs]> self end, hash).

Definition store_insert_verified (self : MemoryContentStore) (hash : Digest) (bs : bytes)
  : result NativeTensorError MemoryContentStore :=
  if negb (bytes_eqb (sha256 bs) hash) then Err (ExternalIntegrityMismatch hash)
  else Ok (match self !! hash with Some _ => self | None => <[hash := bs]> self end).

Definition store_len (self : MemoryContentStore) : nat := size self.
Definition store_is_empty (self : MemoryContentStore) : bool := bool_decide (self = ∅).

#[export] Instance memory_content_store : ContentStore MemoryContentStore :=
  λ self hash, self !! hash.

Record NativeProgram := mkNativeProgram {
  np_graph : Graph;
  np_tensors : list NativeTensor;
}.

Record NativeGenerativeProgram := mkGenerativeProgram {
  gp_program : NativeProgram;
  gp_tokenizer : NativeTokenizerDescriptor;
  gp_manifest : option NativeGenerativeManifest;
}.

Inductive NativeGenerativeError :=
| ProgramError (e : NativeTensorError)
| TokenizerError (e : NativeTokenizerError)
| MissingTokenizer
| MultipleTokenizers
| ManifestError (e : NativeGenerativeManifestError)
| MultipleGenerativeManifests
| GenMissingExternalContent (h : Digest)
| GenExternalLengthMismatch (expected actual : Z)
| GenExternalIntegrityMismatch (h : Digest)
| GenOverflow.

(** [starts_with] *)
Definition starts_with (bs pre : bytes) : bool := bool_decide (pre `prefix_of` bs).

Definition chunks_of (k : SectionKind) (chunks : list ChunkView) : list ChunkView :=
  filter (λ c, ck_kind c = k) chunks.

(** [inputs.iter().find(|decl| decl.id == value_id)] *)
Definition find_decl (value_id : ValueId) (decls : list ValueDecl) : option ValueDecl :=
  List.find (λ d, vd_id d =? value_id) decls.

Definition type_matches (ty : ValueType) (descriptor : TensorDescriptor) : bool :=
  match ty with
  | Scalar dtype =>
      bool_decide (dtype = td_dtype descriptor) && bool_decide (td_shape descriptor = [])
  | Tensor dtype rank =>
      bool_decide (dtype = td_dtype descriptor) && (rank =? len (td_shape descriptor))
  | _ => false
  end.

Definition validate_graph_binding (graph : Graph) (value_id : ValueId)
    (descriptor : TensorDescriptor) : result NativeTensorError unit :=
  let? decl := ok_or (find_decl value_id (g_inputs graph)) (GraphBindingMissing value_id) in
  if type_matches (vd_ty decl) descriptor then Ok tt
  else Err (GraphBindingTypeMismatch value_id).

(** The body of the loop that indexes the descriptor table. *)
Definition insert_descriptor (m : gmap Z TensorDescriptor) (descriptor : TensorDescriptor)
  : result NativeTensorError (gmap Z TensorDescriptor) :=
  let id := td_id descriptor in
  match m !! id with
  | Some _ => Err (DuplicateTensorId id)
  | None => Ok (<[id := descriptor]> m)
  end.

(** The body of the loop over the shards: [seen_tensor_ids], [seen_bindings]. *)
Definition check_shard (graph : Graph) (descriptor_by_id : gmap Z TensorDescriptor)
    (st : gset Z * gset ValueId) (shard : NativeTensor)
  : result NativeTensorError (gset Z * gset ValueId) :=
  let id := td_id (nt_descriptor shard) in
  if bool_decide (id ∈ st.1) then Err (DuplicateTensorId id)
  else
    let? descriptor := ok_or (descriptor_by_id !! id) (UnknownTensorShard id) in
    if negb (bool_decide (descriptor = nt_descriptor shard)) then Err (TensorDescriptorMismatch id)
    else
      match nt_graph_value shard with
      | None => Ok ({[id]} ∪ st.1, st.2)
      | Some value_id =>
          if bool_decide (value_id ∈ st.2) then Err (DuplicateGraphBinding value_id)
          else
            let? _ := validate_graph_binding graph value_id descriptor in
            Ok ({[id]} ∪ st.1, {[value_id]} ∪ st.2)
      end.

(** [shards.sort_by_key(|tensor| tensor.descriptor.id)] *)
Definition tensor_id (t : NativeTensor) : Z := td_id (nt_descriptor t).
Definition id_le (x y : NativeTensor) : Prop := tensor_id x ≤ tensor_id y.
#[export] Instance id_le_dec : RelDecision id_le.
Proof. intros x y. unfold id_le. apply _. Defined.
Definition sort_by_id (l : list NativeTensor) : list NativeTensor := merge_sort id_le l.

Section loading.
Context {S : Type} `{ContentStore S}.

Definition resolve_chunk (chunk : ChunkView) (store : S) : result NativeTensorError bytes :=
  match ck_storage chunk with
  | StoredEmbedded bs => Ok bs
  | StoredExternal =>
      let? bs := ok_or (cs_get store (ck_hash chunk)) (MissingExternalContent (ck_hash chunk)) in
      let? actual := ok_or (try_u64 (len bs)) Overflow in
      if negb (actual =? ck_logical_len chunk)
      then Err (ExternalLengthMismatch (ck_logical_len chunk) actual)
      else if negb (bytes_eqb (sha256 bs) (ck_hash chunk))
      then Err (ExternalIntegrityMismatch (ck_hash chunk))
      else Ok bs
  end.

(** The body of the loop over the [Tensors] chunks. *)
Definition load_tensor_chunk (store : S)
    (st : option (list TensorDescriptor) * list NativeTensor) (chunk : ChunkView)
  : result NativeTensorError (option (list TensorDescriptor) * list NativeTensor) :=
  let? bs := resolve_chunk chunk store in
  if starts_with bs TENSOR_DESCRIPTOR_MAGIC then
    match st.1 with
    | Some _ => Err MultipleDescriptorTables
    | None =>
        let? table := map_err Descriptor (decode_tensor_descriptors bs) in
        Ok (Some table, st.2)
    end
  else if starts_with bs NATIVE_TENSOR_MAGIC then
    let? shard := decode_native_tensor bs in Ok (st.1, st.2 ++ [shard])
  else Err UnknownTensorChunk.

Definition load_native_program (capsule : CapsuleView) (store : S)
  : result NativeTensorError NativeProgram :=
  let? graph_chunk :=
    match chunks_of SecGraph (vw_chunks capsule) with
    | [] => Err MissingGraph
    | [chunk] => Ok chunk
    | _ => Err MultipleGraphs
    end in
  let? graph_content := resolve_chunk graph_chunk store in
  let? graph := map_err GraphError (decode_graph graph_content) in
  let? ' (descriptor_table, shards) :=
    fold_result (load_tensor_chunk store) (None, []) (chunks_of SecTensors (vw_chunks capsule)) in
  let? descriptors := ok_or descriptor_table MissingDescriptorTable in
  let? descriptor_by_id := fold_result insert_descriptor ∅ descriptors in
  let? ' (seen_tensor_ids, _) :=
    fold_result (check_shard graph descriptor_by_id) (∅, ∅) shards in
  let? _ := check_all
    (λ tensor_id, if bool_decide (tensor_id ∈ seen_tensor_ids) then Ok tt
                  else Err (MissingTensorShard tensor_id))
    (btree_keys descriptor_by_id) in
  Ok (mkNativeProgram graph (sort_by_id shards)).

(** The inlined chunk resolution of [load_native_generative_program]. *)
Definition resolve_generative_chunk (chunk : ChunkView) (store : S)
  : result NativeGenerativeError bytes :=
  match ck_storage chunk with
  | StoredEmbedded bs => Ok bs
  | StoredExternal =>
      let? bs := ok_or (cs_get store (ck_hash chunk))
                   (GenMissingExternalContent (ck_hash chunk)) in
      let? actual := ok_or (try_u64 (len bs)) GenOverflow in
      if negb (actual =? ck_logical_len chunk)
      then Err (GenExternalLengthMismatch (ck_logical_len chunk) actual)
      else if negb (bytes_eqb (sha256 bs) (ck_hash chunk))
      then Err (GenExternalIntegrityMismatch (ck_hash chunk))
      else Ok bs
  end.

Definition load_native_generative_program (capsule : CapsuleView) (store : S)
  : result NativeGenerativeError NativeGenerativeProgram :=
  let? program := map_err ProgramError (load_native_program capsule store) in
  let? chunk :=
    match chunks_of SecTokenizer (vw_chunks capsule) with
    | [] => Err MissingTokenizer
    | [chunk] => Ok chunk
    | _ => Err MultipleTokenizers
    end in
  let? bs := resolve_generative_chunk chunk store in
  let? tokenizer := map_err TokenizerError (decode_native_tokenizer bs) in
  let? manifest :=
    match chunks_of SecGenerativeManifest (vw_chunks capsule) with
    | [] => Ok None
    | [chunk] =>
        let? bs := resolve_generative_chunk chunk store in
        let? m := map_err ManifestError (decode_native_generative_manifest bs) in
        Ok (Some m)
    | _ => Err MultipleGenerativeManifests
    end in
  Ok (mkGenerativeProgram program tokenizer manifest).
End loading.

(** ** What is loaded *)
Definition binding_ok (g : Graph) (t : NativeTensor) : Prop :=
  ∀ v, nt_graph_value t = Some v →
    ∃ decl, find_decl v (g_inputs g) = Some decl ∧ type_matches (vd_ty decl) (nt_descriptor t) = true.

Record program_wf (p : NativeProgram) (table : list TensorDescriptor) : Prop := {
  pw_graph : well_formed (np_graph p);
  pw_tensors : Forall tensor_wf (np_tensors p);
  pw_sorted : StronglySorted Z.lt (map tensor_id (np_tensors p));
  pw_table : map nt_descriptor (np_tensors p) ≡ₚ table;
  pw_bindings : NoDup (omap nt_graph_value (np_tensors p));
  pw_binding_types : Forall (binding_ok (np_graph p)) (np_tensors p);
}.

Lemma insert_descriptor_Ok m d m' :
  insert_descriptor m d = Ok m' ↔ m !! td_id d = None ∧ m' = <[td_id d := d]> m.
Proof. unfold insert_descriptor. destruct (m !! td_id d); naive_solver. Qed.

Lemma insert_descriptors_Ok ds m m' :
  fold_result insert_descriptor m ds = Ok m' →
  NoDup (map td_id ds) ∧ (∀ d, d ∈ ds → m !! td_id d = None) ∧
  ∀ k d, m' !! k = Some d ↔ m !! k = Some d ∨ (d ∈ ds ∧ td_id d = k).
Proof.
  revert m. induction ds as [|d ds IH]; intros m; simpl.
  { intros [= <-]. split_and!; [constructor| |]; set_solver. }
  destruct (insert_descriptor m d) as [m1| |] eqn:Hi; [|done..].
  apply insert_descriptor_Ok in Hi as [Hd ->]. intros (Hnd & Hfresh & Hl)%IH.
  assert (td_id d ∉ map td_id ds) as Hnin.
  { intros (d' & Hid & Hin)%list_elem_of_fmap. specialize (Hfresh d' Hin).
    by rewrite <- Hid, lookup_insert_eq in Hfresh. }
  split_and!; [by constructor| |].
  - intros d' [->|Hin]%elem_of_cons; [done|]. specialize (Hfresh d' Hin).
    by apply lookup_insert_None in Hfresh as [? _].
  - intros k d'. rewrite Hl, lookup_insert_Some, elem_of_cons. split.
    + intros [[[<- <-]|[Hk Hm]]|[Hin Hk]]; [by right; split; [left|]|by left|by right; split; [right|]].
    + intros [Hm|[[->|Hin] Hk]]; [|by left; left|by right].
      destruct (decide (td_id d = k)) as [<-|Hne]; [congruence|]. left. by right.
Qed.

Lemma validate_graph_binding_Ok g v d u :
  validate_graph_binding g v d = Ok u →
  ∃ decl, find_decl v (g_inputs g) = Some decl ∧ type_matches (vd_ty decl) d = true.
Proof.
  unfold validate_graph_binding. destruct (find_decl v _) as [decl|]; simpl; [|done].
  destruct (type_matches _ d) eqn:Ht; [|done]. intros _. by exists decl.
Qed.

(** What one iteration of the shard loop establishes. *)
Lemma check_shard_Ok g m st t st' :
  check_shard g m st t = Ok st' →
  tensor_id t ∉ st.1 ∧ m !! tensor_id t = Some (nt_descriptor t) ∧ binding_ok g t ∧
  st'.1 = {[tensor_id t]} ∪ st.1 ∧
  match nt_graph_value t with
  | Some v => v ∉ st.2 ∧ st'.2 = {[v]} ∪ st.2
  | None => st'.2 = st.2
  end.
Proof.
  unfold check_shard. fold (tensor_id t). case_bool_decide as Hid; [done|].
  destruct (m !! tensor_id t) as [d|]; simpl; [|done].
  case_bool_decide as Hd; simpl; [|done]. subst d. unfold binding_ok.
  destruct (nt_graph_value t) as [v|].
  - case_bool_decide as Hv; [done|].
    destruct (validate_graph_binding g v (nt_descriptor t)) as [u| |] eqn:Hb; [|done..].
    intros [= <-]. apply validate_graph_binding_Ok in Hb.
    split_and!; try done. intros v' [= <-]. exact Hb.
  - intros [= <-]. by split_and!.
Qed.

Lemma check_shards_Ok g m ts st st' :
  fold_result (check_shard g m) st ts = Ok st' →
  NoDup (map tensor_id ts) ∧ (∀ t, t ∈ ts → tensor_id t ∉ st.1) ∧
  (∀ t, t ∈ ts → m !! tensor_id t = Some (nt_descriptor t)) ∧
  NoDup (omap nt_graph_value ts) ∧ (∀ v, v ∈ omap nt_graph_value ts → v ∉ st.2) ∧
  Forall (binding_ok g) ts ∧ (∀ k, k ∈ st'.1 ↔ k ∈ st.1 ∨ k ∈ map tensor_id ts).
Proof.
  revert st. induction ts as [|t ts IH]; intros st; cbn [fold_result].
  { intros [= <-]. simpl. split_and!; try constructor; set_solver. }
  destruct (check_shard g m st t) as [st1| |] eqn:Hc; [|done..].
  apply check_shard_Ok in Hc as (Hid & Hm & Hb & Hst1 & Hst2).
  intros (Hnd & Hfresh & Hlook & Hndv & Hfreshv & Hbs & Hids)%IH.
  assert (tensor_id t ∉ map tensor_id ts) as Hnin.
  { intros (t' & Hid' & Hin)%list_elem_of_fmap. apply (Hfresh t' Hin). rewrite Hst1. set_solver. }
  split_and!.
  - by constructor.
  - intros t' [->|Hin]%elem_of_cons; [done|]. specialize (Hfresh t' Hin). set_solver.
  - intros t' [->|Hin]%elem_of_cons; auto.
  - simpl. destruct (nt_graph_value t) as [v|]; [|done]. destruct Hst2 as [Hv Hst2].
    constructor; [|done]. intros Hin. apply (Hfreshv v Hin). set_solver.
  - intros v Hin. simpl in Hin. destruct (nt_graph_value t) as [v'|].
    + destruct Hst2 as [Hv Hst2]. apply elem_of_cons in Hin as [->|Hin]; [done|].
      specialize (Hfreshv v Hin). set_solver.
    + rewrite <- Hst2. by apply Hfreshv.
  - by constructor.
  - intros k. rewrite Hids, Hst1. simpl. rewrite elem_of_cons. set_solver.
Qed.

(** The descriptors of the shards are those of the table. *)
Lemma shards_match_table (m : gmap Z TensorDescriptor) ds ts :
  NoDup (map td_id ds) → NoDup (map tensor_id ts) →
  (∀ k d, m !! k = Some d ↔ d ∈ ds ∧ td_id d = k) →
  (∀ t, t ∈ ts → m !! tensor_id t = Some (nt_descriptor t)) →
  (∀ k, is_Some (m !! k) → k ∈ map tensor_id ts) →
  map nt_descriptor ts ≡ₚ ds.
Proof.
  intros Hds Hts Hm Hlook Hall. apply NoDup_Permutation.
  - apply (NoDup_fmap_1 td_id). rewrite <- list_fmap_compose. exact Hts.
  - by apply (NoDup_fmap_1 td_id).
  - intros d. rewrite list_elem_of_fmap. split.
    + intros (t & -> & Hin). by apply Hlook, Hm in Hin as [? _].
    + intros Hin. assert (m !! td_id d = Some d) as Hd by (by apply Hm).
      destruct (proj1 (list_elem_of_fmap tensor_id ts (td_id d))) as (t & Ht & Hint).
      { apply Hall. by eexists. }
      exists t. split; [|done]. apply Hlook in Hint. congruence.
Qed.

Lemma sort_by_id_perm ts : sort_by_id ts ≡ₚ ts.
Proof. apply merge_sort_Permutation. Qed.

#[local] Instance id_le_total : Total id_le.
Proof. intros x y. unfold id_le. lia. Qed.
#[local] Instance id_le_trans : Transitive id_le.
Proof. intros x y z. unfold id_le. lia. Qed.

Lemma sort_by_id_sorted ts :
  NoDup (map tensor_id ts) → StronglySorted Z.lt (map tensor_id (sort_by_id ts)).
Proof.
  intros Hnd. assert (NoDup (map tensor_id (sort_by_id ts))) as Hnd'.
  { unfold map. rewrite sort_by_id_perm. exact Hnd. }
  assert (StronglySorted id_le (sort_by_id ts)) as Hs.
  { apply Sorted_StronglySorted; [apply _|]. apply Sorted_merge_sort. apply _. }
  induction Hs as [|t l Hs IH Hall]; simpl in *; constructor; apply NoDup_cons in Hnd' as [Hn Hnd'].
  - by apply IH.
  - rewrite Forall_fmap, Forall_forall in *. intros x Hx. specialize (Hall x Hx).
    unfold id_le in Hall. simpl. assert (tensor_id x ≠ tensor_id t); [|lia].
    intros Heq. apply Hn. rewrite <- Heq. by apply list_elem_of_fmap_2.
Qed.

Lemma chunk_view_embedded b c payload :
  c ∈ map chunk_view (cb_chunks b) → ck_storage c = StoredEmbedded payload →
  sha256 payload = ck_hash c ∧ len payload = ck_logical_len c.
Proof.
  intros ([k [bs|l h]] & -> & _)%list_elem_of_fmap; simpl; [|done].
  intros [= ->]. done.
Qed.

Section loaded.
Context {S : Type} `{ContentStore S}.
Implicit Types store : S.

Lemma resolve_external chunk store bs :
  ck_storage chunk = StoredExternal → resolve_chunk chunk store = Ok bs →
  sha256 bs = ck_hash chunk ∧ len bs = ck_logical_len chunk ∧ cs_get store (ck_hash chunk) = Some bs.
Proof.
  unfold resolve_chunk. intros ->. destruct (cs_get store _) as [x|] eqn:Hx; simpl; [|done].
  unfold try_u64. destruct (len x <? 2 ^ 64); simpl; [|done].
  destruct (Z.eqb_spec (len x) (ck_logical_len chunk)); simpl; [|done].
  unfold bytes_eqb. case_bool_decide; simpl; [|done]. by intros [= <-].
Qed.

Lemma resolve_authentic_image b c chunk store bs :
  chunk ∈ vw_chunks (view_of c b) → resolve_chunk chunk store = Ok bs →
  sha256 bs = ck_hash chunk ∧ len bs = ck_logical_len chunk.
Proof.
  intros Hin Hr. destruct (ck_storage chunk) as [payload|] eqn:Hs.
  - unfold resolve_chunk in Hr. rewrite Hs in Hr. injection Hr as <-.
    by apply (chunk_view_embedded b).
  - by apply resolve_external in Hr as (? & ? & _).
Qed.

Definition table_chunk (v : CapsuleView) store (table : list TensorDescriptor) : Prop :=
  ∃ chunk bs, chunk ∈ chunks_of SecTensors (vw_chunks v) ∧
    resolve_chunk chunk store = Ok bs ∧ decode_tensor_descriptors bs = Ok table.

Lemma load_tensor_chunk_Ok v store st chunk st' :
  load_tensor_chunk store st chunk = Ok st' → chunk ∈ chunks_of SecTensors (vw_chunks v) →
  Forall tensor_wf st.2 → (∀ t, st.1 = Some t → table_chunk v store t) →
  Forall tensor_wf st'.2 ∧ ∀ t, st'.1 = Some t → table_chunk v store t.
Proof.
  unfold load_tensor_chunk. intros Hl Hin Hwf Ht.
  destruct (resolve_chunk chunk store) as [bs| |] eqn:Hr; [|done..].
  destruct (starts_with bs TENSOR_DESCRIPTOR_MAGIC).
  - destruct (st.1); [done|].
    destruct (decode_tensor_descriptors bs) as [table| |] eqn:Hd; [|done..].
    injection Hl as <-. split; [done|]. intros t [= <-]. by exists chunk, bs.
  - destruct (starts_with bs NATIVE_TENSOR_MAGIC); [|done].
    destruct (decode_native_tensor bs) as [shard| |] eqn:Hd; [|done..]. injection Hl as <-.
    split; [|done]. apply Forall_app. split; [done|]. constructor; [|constructor].
    apply decode_tensor_Ok in Hd as (? & _ & _ & _ & _ & Hwf' & _). exact Hwf'.
Qed.

Lemma load_tensor_chunks_Ok v store st chunks st' :
  fold_result (load_tensor_chunk store) st chunks = Ok st' →
  (∀ c, c ∈ chunks → c ∈ chunks_of SecTensors (vw_chunks v)) →
  Forall tensor_wf st.2 → (∀ t, st.1 = Some t → table_chunk v store t) →
  Forall tensor_wf st'.2 ∧ ∀ t, st'.1 = Some t → table_chunk v store t.
Proof.
  intros Hf Hin Hwf Ht.
  apply (fold_result_inv (λ st, Forall tensor_wf st.2 ∧ ∀ t, st.1 = Some t → table_chunk v store t)
    (load_tensor_chunk store) st chunks st'); [done| |done].
  intros s x s' [Hs1 Hs2] Hx Hl. by eapply load_tensor_chunk_Ok; eauto.
Qed.

Lemma load_program_Ok v store p :
  load_native_program v store = Ok p →
  ∃ table chunk bs, program_wf p table ∧ table_chunk v store table ∧
    chunks_of SecGraph (vw_chunks v) = [chunk] ∧ resolve_chunk chunk store = Ok bs ∧
    decode_graph bs = Ok (np_graph p).
Proof.
  unfold load_native_program.
  destruct (chunks_of SecGraph (vw_chunks v)) as [|chunk [|? ?]] eqn:Hg; [done| |done].
  destruct (resolve_chunk chunk store) as [bs| |] eqn:Hr; [|done..].
  destruct (decode_graph bs) as [g| |] eqn:Hd; simpl; [|done..].
  destruct (fold_result (load_tensor_chunk store) _ _) as [[tbl shards]| |] eqn:Hf; [|done..].
  apply (load_tensor_chunks_Ok v) in Hf as [Hwf Htbl]; [|done..]. simpl in Hwf, Htbl.
  destruct tbl as [ds|]; simpl; [|done].
  destruct (fold_result insert_descriptor ∅ ds) as [m| |] eqn:Hi; [|done..].
  apply insert_descriptors_Ok in Hi as (Hnd & _ & Hm).
  destruct (fold_result (check_shard g m) _ _) as [[ids bnd]| |] eqn:Hc; [|done..].
  apply check_shards_Ok in Hc as (Hids & _ & Hlook & Hbn & _ & Hbt & Hseen).
  destruct (check_all _ _) as [u| |] eqn:Hmiss; [|done..]. intros [= <-].
  apply unit_Ok, check_all_Ok in Hmiss. rewrite Forall_forall in Hmiss.
  exists ds, chunk, bs. split_and!; try done; [|by apply Htbl].
  constructor; simpl.
  - apply decode_graph_Ok in Hd. tauto.
  - by rewrite sort_by_id_perm.
  - by apply sort_by_id_sorted.
  - rewrite (sort_by_id_perm shards). apply (shards_match_table m); try done.
    + intros k d. rewrite Hm, lookup_empty. naive_solver.
    + intros k Hk%elem_of_btree_keys. specialize (Hmiss k Hk). simpl in Hmiss.
      case_bool_decide as Hin; [|done]. apply Hseen in Hin as [Hin|Hin]; [|done].
      by apply elem_of_empty in Hin.
  - by rewrite sort_by_id_perm.
  - by rewrite sort_by_id_perm.
Qed.
End loaded.

(** Two stores that hold different contents of the same digest. *)
Definition stores_collide {S1 S2} `{ContentStore S1, ContentStore S2} (s1 : S1) (s2 : S2) : Prop :=
  ∃ h x y, cs_get s1 h = Some x ∧ cs_get s2 h = Some y ∧ x ≠ y ∧ sha256 x = h ∧ sha256 y = h.

(** Two stores resolve a chunk to the same bytes, short of a collision. *)
Section two_stores.
Context {S1 S2 : Type} `{ContentStore S1, ContentStore S2}.

Lemma resolve_agree chunk (s1 : S1) (s2 : S2) b1 b2 :
  resolve_chunk chunk s1 = Ok b1 → resolve_chunk chunk s2 = Ok b2 →
  b1 = b2 ∨ stores_collide s1 s2.
Proof.
  intros H1 H2. destruct (ck_storage chunk) eqn:Hs.
  - unfold resolve_chunk in *. rewrite Hs in *. left. congruence.
  - apply resolve_external in H1 as (H1 & _ & G1); [|done].
    apply resolve_external in H2 as (H2 & _ & G2); [|done].
    destruct (decide (b1 = b2)) as [|Hne]; [by left|right]. by exists (ck_hash chunk), b1, b2.
Qed.

Lemma load_tensor_chunks_agree chunks st (s1 : S1) (s2 : S2) r1 r2 :
  fold_result (load_tensor_chunk s1) st chunks = Ok r1 →
  fold_result (load_tensor_chunk s2) st chunks = Ok r2 → r1 = r2 ∨ stores_collide s1 s2.
Proof.
  revert st. induction chunks as [|c chunks IH]; intros st; cbn [fold_result].
  { intros [= <-] [= <-]. by left. }
  unfold load_tensor_chunk at 1 3.
  destruct (resolve_chunk c s1) as [b1| |] eqn:H1; [|done..].
  destruct (resolve_chunk c s2) as [b2| |] eqn:H2; [|done..].
  destruct (resolve_agree c s1 s2 b1 b2 H1 H2) as [->|Hcol]; [|by right].
  destruct (if starts_with b2 TENSOR_DESCRIPTOR_MAGIC then _ else _) as [st'| |]; [|done..].
  apply IH.
Qed.

Lemma load_agree v (s1 : S1) (s2 : S2) p1 p2 :
  load_native_program v s1 = Ok p1 → load_native_program v s2 = Ok p2 →
  p1 = p2 ∨ stores_collide s1 s2.
Proof.
  unfold load_native_program.
  destruct (match chunks_of SecGraph (vw_chunks v) with [] => _ | _ => _ end) as [c| |]; [|done..].
  destruct (resolve_chunk c s1) as [b1| |] eqn:H1; [|done..].
  destruct (resolve_chunk c s2) as [b2| |] eqn:H2; [|done..].
  destruct (resolve_agree c s1 s2 b1 b2 H1 H2) as [->|Hcol]; [|by right].
  destruct (map_err GraphError (decode_graph b2)) as [g| |]; [|done..].
  destruct (fold_result (load_tensor_chunk s1) _ _) as [r1| |] eqn:Hr1; [|done..].
  destruct (fold_result (load_tensor_chunk s2) _ _) as [r2| |] eqn:Hr2; [|by destruct r1..].
  destruct (load_tensor_chunks_agree _ _ _ _ _ _ Hr1 Hr2) as [->|Hcol]; [|by right].
  intros Hp1 Hp2. left. rewrite Hp1 in Hp2. congruence.
Qed.
End two_stores.

Lemma load_generative_Ok {T} `{ContentStore T} v (store : T) p :
  load_native_generative_program v store = Ok p →
  load_native_program v store = Ok (gp_program p) ∧
  tokenizer_wf (gp_tokenizer p) ∧
  ∀ m, gp_manifest p = Some m → generative_typed m ∧ gm_vocabulary_size m ≠ 0.
Proof.
  unfold load_native_generative_program.
  destruct (load_native_program v store) as [prog| |]; simpl; [|done..].
  destruct (match chunks_of SecTokenizer _ with [] => _ | _ => _ end) as [c| |]; [|done..].
  destruct (resolve_generative_chunk c store) as [bs| |]; [|done..].
  destruct (decode_native_tokenizer bs) as [tk| |] eqn:Htk; simpl; [|done..].
  assert (tokenizer_wf tk) as Hwf.
  { unfold decode_native_tokenizer in Htk.
    destruct (decode_descriptor_frame bs) as [f| |]; simpl in Htk; [|done..].
    destruct (negb _); [done|]. destruct (_ && _); [done|]. by apply decode_payload_wf in Htk. }
  destruct (chunks_of SecGenerativeManifest _) as [|mc [|? ?]]; [| |done].
  - intros [= <-]. by split_and!.
  - destruct (resolve_generative_chunk mc store) as [mb| |]; [|done..].
    destruct (decode_native_generative_manifest mb) as [m| |] eqn:Hm; simpl; [|done..].
    intros [= <-]. split_and!; try done. intros m' [= <-].
    apply decode_manifest_record in Hm as (_ & _ & _ & _ & Ht & Hv). done.
Qed.

(** ** Properties *)

(** The bytes a chunk of an accepted capsule resolves to, embedded or from the store,
    have the digest and the length the capsule declares. *)
Theorem resolved_content_authentic {T} `{ContentStore T} file v chunk (store : T) bs :
  CapsuleView_read file = Ok v → chunk ∈ vw_chunks v → resolve_chunk chunk store = Ok bs →
  sha256 bs = ck_hash chunk ∧ len bs = ck_logical_len chunk.
Proof.
  intros (b & _ & Hv)%read_image_inv Hin. rewrite Hv in Hin. by eapply resolve_authentic_image.
Qed.

(** C12: A program that load_native_program returns has a well-formed graph decoded from
    the single graph chunk, tensors sorted by id that match the descriptor table one to one,
    and bindings that are distinct graph inputs of the right type. *)
Theorem load_native_program_sound {T} `{ContentStore T} v (store : T) p :
  load_native_program v store = Ok p →
  ∃ table chunk bs, program_wf p table ∧ table_chunk v store table ∧
    chunks_of SecGraph (vw_chunks v) = [chunk] ∧ resolve_chunk chunk store = Ok bs ∧
    decode_graph bs = Ok (np_graph p).
Proof. apply load_program_Ok. Qed.

(** Loading the same capsule from two content stores gives the same program, unless the
    stores hold different contents of the same SHA-256 digest. *)
Theorem load_independent_of_store {T1 T2} `{ContentStore T1, ContentStore T2} v (s1 : T1) (s2 : T2) p1 p2 :
  load_native_program v s1 = Ok p1 → load_native_program v s2 = Ok p2 →
  p1 = p2 ∨ stores_collide s1 s2.
Proof. apply load_agree. Qed.

(** A generative program that loads contains exactly the native program of the capsule,
    a well-formed tokenizer and, where there is a manifest, one with a positive vocabulary. *)
Theorem load_generative_program_sound {T} `{ContentStore T} v (store : T) p :
  load_native_generative_program v store = Ok p →
  load_native_program v store = Ok (gp_program p) ∧ tokenizer_wf (gp_tokenizer p) ∧
  ∀ m, gp_manifest p = Some m → generative_typed m ∧ gm_vocabulary_size m ≠ 0.
Proof. apply load_generative_Ok. Qed.

(** ** A concrete program

    One graph input bound to an external shard, a tokenizer and a manifest. *)
Definition sample_program_graph : Graph :=
  mkGraph IrVersion_CURRENT [mkValueDecl 9 (Ir.Tensor I8 2)] [9] [].

Definition sample_program_capsule : result NativeTensorError CapsuleView :=
  let? b := map_err GraphError
    (push_graph_section (CapsuleBuilder_new Thin (zeros 16)) sample_program_graph) in
  let? b := push_tensor_descriptor_section b [nt_descriptor (sample_tensor (Some 9))] in
  let b := push_external b SecTensors (len sample_tensor_bytes) (sha256 sample_tensor_bytes) in
  let b := push_embedded b SecTokenizer sample_tokenizer_bytes in
  let b := push_embedded b SecGenerativeManifest
    (manifest_record 1 (mkGenerativeManifest 9 0 3)) in
  match CapsuleBuilder_write b with
  | Ok file => match CapsuleView_read file with Ok v => Ok v | _ => Err Overflow end
  | _ => Err Overflow
  end.

Definition sample_view : CapsuleView :=
  match sample_program_capsule with
  | Ok v => v
  | _ => mkView Contract_CURRENT Thin [] None [] []
  end.

Definition sample_store : MemoryContentStore := (store_insert ∅ sample_tensor_bytes).1.

Definition sample_loaded : NativeProgram :=
  mkNativeProgram sample_program_graph [sample_tensor (Some 9)].

Lemma sample_loads : load_native_program sample_view sample_store = Ok sample_loaded.
Proof. vm_compute. reflexivity. Qed.

Lemma load_native_program_sound_witness :
  load_native_program sample_view sample_store = Ok sample_loaded ∧
  ∃ table, program_wf sample_loaded table.
Proof.
  split; [apply sample_loads|].
  destruct (load_native_program_sound sample_view sample_store sample_loaded sample_loads)
    as (table & _ & _ & Hwf & _).
  by exists table.
Defined.

Lemma load_independent_of_store_witness :
  load_native_program sample_view (<[zeros 32 := zeros 3]> sample_store) = Ok sample_loaded ∧
  (sample_loaded = sample_loaded ∨
   stores_collide sample_store (<[zeros 32 := zeros 3]> sample_store)).
Proof.
  assert (load_native_program sample_view (<[zeros 32 := zeros 3]> sample_store) =
    Ok sample_loaded) as H by (vm_compute; reflexivity).
  split; [exact H|].
  exact (load_independent_of_store sample_view sample_store (<[zeros 32 := zeros 3]> sample_store)
    sample_loaded sample_loaded sample_loads H).
Defined.

Definition sample_generative : NativeGenerativeProgram :=
  mkGenerativeProgram sample_loaded sample_tokenizer (Some (mkGenerativeManifest 9 0 3)).

Lemma load_generative_program_sound_witness :
  load_native_generative_program sample_view sample_store = Ok sample_generative ∧
  tokenizer_wf sample_tokenizer.
Proof.
  assert (load_native_generative_program sample_view sample_store = Ok sample_generative) as H
    by (vm_compute; reflexivity).
  split; [exact H|].
  exact (proj1 (proj2 (load_generative_program_sound sample_view sample_store _ H))).
Defined.

Lemma resolved_content_authentic_witness :
  ∃ chunk bs, chunk ∈ vw_chunks (view_of Contract_CURRENT sample_builder) ∧
    resolve_chunk chunk (∅ : MemoryContentStore) = Ok bs ∧
    sha256 bs = ck_hash chunk ∧ len bs = ck_logical_len chunk.
Proof.
  exists (chunk_view (mkChunkSpec SecGraph (Embedded (to_le 3 7)))), (to_le 3 7).
  assert (chunk_view (mkChunkSpec SecGraph (Embedded (to_le 3 7))) ∈
    vw_chunks (view_of Contract_CURRENT sample_builder)) as Hin by (left).
  split_and!; [exact Hin|reflexivity|..];
    apply (resolved_content_authentic sample_capsule (view_of Contract_CURRENT sample_builder)
      (chunk_view (mkChunkSpec SecGraph (Embedded (to_le 3 7)))) (∅ : MemoryContentStore)
      (to_le 3 7)); try exact Hin; vm_compute; reflexivity.
Defined.
