(* ===== verification/Capability.v ===== *)
(** Capability descriptors, authority and the registry:
    src/crates/ntd-runtime/src/capability.rs.

    [registry_wf] is the invariant of the registry: every entry is filed under
    its own id and is in the normal form [normalize] establishes. *)
From S2P Require Import Prelude Text Collections Core.

Inductive CapabilityDomain := Web | Browser | File | Device | App | Custom | Pc.
#[export] Instance CapabilityDomain_eq_dec : EqDecision CapabilityDomain.
Proof. solve_decision. Defined.

Definition domain_tag (d : CapabilityDomain) : Z :=
  match d with
  | Web => 1 | Browser => 2 | File => 3 | Device => 4 | App => 5 | Custom => 6 | Pc => 7
  end.

(** [AuthorityScope] is a one-field struct around a [String]. *)
Abbreviation AuthorityScope := string.

Inductive CapabilityError :=
| EmptyCapabilityId
| InvalidVersion
| EmptyScope
| InvalidDomain (v : Z)
| InvalidAction
| DomainMismatch (capability : CapabilityId) (expected actual : CapabilityDomain)
| DuplicateCapability (id : CapabilityId)
| MissingCapability (id : CapabilityId)
| MissingAuthority (scope : AuthorityScope)
| ExternalWriteNotAuthorized
| IrreversibleNotAuthorized
| IrreversibleRollback.

Definition CapabilityDomain_try_from (value : Z) : result CapabilityError CapabilityDomain :=
  match value with
  | 1 => Ok Web | 2 => Ok Browser | 3 => Ok File | 4 => Ok Device | 5 => Ok App
  | 6 => Ok Custom | 7 => Ok Pc
  | other => Err (InvalidDomain other)
  end.

Definition AuthorityScope_new (value : string) : result CapabilityError AuthorityScope :=
  let value := trim value in
  if string_is_empty value then Err EmptyScope else Ok value.

Record CapabilityDescriptor := mkDescriptor {
  cd_id : CapabilityId;
  cd_version : Z;
  cd_domain : CapabilityDomain;
  cd_side_effect : SideEffectClass;
  cd_verification_required : bool;
  cd_rollback_supported : bool;
  cd_resumable : bool;
  cd_required_scopes : list AuthorityScope;
}.

Record AuthorityGrant := mkGrant {
  ag_scopes : gset AuthorityScope;
  ag_allow_external_write : bool;
  ag_allow_irreversible : bool;
}.

Definition AuthorityGrant_new : AuthorityGrant := mkGrant ∅ false false.
Definition with_scope (self : AuthorityGrant) (scope : AuthorityScope) : AuthorityGrant :=
  mkGrant ({[scope]} ∪ ag_scopes self) (ag_allow_external_write self) (ag_allow_irreversible self).

Definition permits (self : AuthorityGrant) (descriptor : CapabilityDescriptor)
  : result CapabilityError unit :=
  let? _ := check_all
    (λ required, if bool_decide (required ∈ ag_scopes self) then Ok tt
                 else Err (MissingAuthority required))
    (cd_required_scopes descriptor) in
  match cd_side_effect descriptor with
  | ReadOnly | Reversible => Ok tt
  | ExternalWrite =>
      if ag_allow_external_write self then Ok tt else Err ExternalWriteNotAuthorized
  | Irreversible =>
      if ag_allow_irreversible self then Ok tt else Err IrreversibleNotAuthorized
  end.

Definition CapabilityDescriptor_new (id : CapabilityId) (version : Z) (domain : CapabilityDomain)
    (side_effect : SideEffectClass) : result CapabilityError CapabilityDescriptor :=
  if is_blank id then Err EmptyCapabilityId
  else if version =? 0 then Err InvalidVersion
  else Ok (mkDescriptor id version domain side_effect true false false []).

(** The loop over [&mut self.required_scopes]: the list as it is left, and
    whether an empty scope stopped it. *)
Fixpoint trim_scopes (scopes : list AuthorityScope)
  : list AuthorityScope * result CapabilityError unit :=
  match scopes with
  | [] => ([], Ok tt)
  | scope :: rest =>
      let scope := trim scope in
      if string_is_empty scope then (scope :: rest, Err EmptyScope)
      else let '(rest, r) := trim_scopes rest in (scope :: rest, r)
  end.

Definition set_id (d : CapabilityDescriptor) (id : CapabilityId) : CapabilityDescriptor :=
  mkDescriptor id (cd_version d) (cd_domain d) (cd_side_effect d) (cd_verification_required d)
    (cd_rollback_supported d) (cd_resumable d) (cd_required_scopes d).
Definition set_scopes (d : CapabilityDescriptor) (scopes : list AuthorityScope)
  : CapabilityDescriptor :=
  mkDescriptor (cd_id d) (cd_version d) (cd_domain d) (cd_side_effect d)
    (cd_verification_required d) (cd_rollback_supported d) (cd_resumable d) scopes.

(** [normalize(&mut self)]: the descriptor as it is left, and the result. *)
Definition normalize (self : CapabilityDescriptor)
  : CapabilityDescriptor * result CapabilityError unit :=
  let self := set_id self (trim (cd_id self)) in
  if string_is_empty (cd_id self) then (self, Err EmptyCapabilityId)
  else if cd_version self =? 0 then (self, Err InvalidVersion)
  else
    let '(scopes, r) := trim_scopes (cd_required_scopes self) in
    let self := set_scopes self scopes in
    match r with
    | Ok _ =>
        let self := set_scopes self (dedup (sort scopes)) in
        if bool_decide (cd_side_effect self = Irreversible) && cd_rollback_supported self
        then (self, Err IrreversibleRollback) else (self, Ok tt)
    | Err e => (self, Err e)
    | Panic => (self, Panic)
    end.

Inductive TypedAction :=
| WebSearch (query : string) (max_results : Z)
| WebFetch (url : string)
| ArtifactDownload (url path : string)
| ArtifactUpload (url path : string)
| BrowserObserve (target : string)
| BrowserInteract (target operation : string) (value : option string)
| FileRead (path : string)
| FileWrite (path : string) (contents : bytes)
| DeviceObserve (surface : string)
| DeviceInteract (surface operation : string) (argument : option string)
| AppAction (app action : string) (payload : bytes)
| PcObserve (peer surface : string)
| PcExecute (peer program : string) (args : list string) (working_dir : option string)
| PcArtifactRead (peer path : string)
| PcArtifactWrite (peer path : string) (contents : bytes)
| CustomAction (type_name : string) (payload : bytes).

Definition action_domain (self : TypedAction) : CapabilityDomain :=
  match self with
  | WebSearch _ _ | WebFetch _ | ArtifactDownload _ _ | ArtifactUpload _ _ => Web
  | BrowserObserve _ | BrowserInteract _ _ _ => Browser
  | FileRead _ | FileWrite _ _ => File
  | DeviceObserve _ | DeviceInteract _ _ _ => Device
  | AppAction _ _ _ => App
  | PcObserve _ _ | PcExecute _ _ _ _ | PcArtifactRead _ _ | PcArtifactWrite _ _ _ => Pc
  | CustomAction _ _ => Custom
  end.

Definition nonempty (value : string) : result CapabilityError unit :=
  if is_blank value then Err InvalidAction else Ok tt.

Definition action_validate (self : TypedAction) : result CapabilityError unit :=
  match self with
  | WebSearch query max_results =>
      let? _ := nonempty query in
      if max_results =? 0 then Err InvalidAction else Ok tt
  | WebFetch url => nonempty url
  | ArtifactDownload url path | ArtifactUpload url path =>
      let? _ := nonempty url in nonempty path
  | BrowserObserve target => nonempty target
  | BrowserInteract target operation _ =>
      let? _ := nonempty target in nonempty operation
  | FileRead path => nonempty path
  | FileWrite path _ => nonempty path
  | DeviceObserve surface => nonempty surface
  | DeviceInteract surface operation _ =>
      let? _ := nonempty surface in nonempty operation
  | AppAction app action _ => let? _ := nonempty app in nonempty action
  | PcObserve peer surface => let? _ := nonempty peer in nonempty surface
  | PcExecute peer program _ working_dir =>
      let? _ := nonempty peer in
      let? _ := nonempty program in
      match working_dir with Some working_dir => nonempty working_dir | None => Ok tt end
  | PcArtifactRead peer path | PcArtifactWrite peer path _ =>
      let? _ := nonempty peer in nonempty path
  | CustomAction type_name _ => nonempty type_name
  end.

Inductive ActionValue :=
| VNone
| VText (s : string)
| VBytes (bs : bytes)
| VTextList (l : list string)
| VFields (m : gmap string string).

Record ActionOutput := mkOutput {
  ao_summary : string;
  ao_value : ActionValue;
  ao_evidence : list string;
}.
Definition ActionOutput_text (summary value : string) : ActionOutput :=
  mkOutput summary (VText value) [].

(** ** The registry *)
Definition CapabilityRegistry : Type := gmap string CapabilityDescriptor.
Definition CapabilityRegistry_new : CapabilityRegistry := ∅.

Definition register (self : CapabilityRegistry) (descriptor : CapabilityDescriptor)
  : result CapabilityError CapabilityRegistry :=
  let '(descriptor, r) := normalize descriptor in
  let? _ := r in
  let key := cd_id descriptor in
  match self !! key with
  | Some _ => Err (DuplicateCapability (cd_id descriptor))
  | None => Ok (<[key := descriptor]> self)
  end.

Definition get_descriptor (self : CapabilityRegistry) (id : CapabilityId)
  : result CapabilityError CapabilityDescriptor :=
  ok_or (self !! id) (MissingCapability id).

Definition validate_action (self : CapabilityRegistry) (id : CapabilityId) (action : TypedAction)
  : result CapabilityError CapabilityDescriptor :=
  let? _ := action_validate action in
  let? descriptor := get_descriptor self id in
  let actual := action_domain action in
  if negb (bool_decide (cd_domain descriptor = actual))
  then Err (DomainMismatch id (cd_domain descriptor) actual)
  else Ok descriptor.

Definition descriptors (self : CapabilityRegistry) : list CapabilityDescriptor := btree_values self.

(** ** Normal form *)
Record descriptor_wf (d : CapabilityDescriptor) : Prop := {
  dw_id : trimmed (cd_id d) ∧ cd_id d ≠ EmptyString;
  dw_version : cd_version d ≠ 0;
  dw_scopes : Forall (λ s, trimmed s ∧ s ≠ EmptyString) (cd_required_scopes d);
  dw_ascending : strictly_ascending (cd_required_scopes d) = true;
  dw_rollback : cd_side_effect d = Irreversible → cd_rollback_supported d = false;
}.

Lemma trim_scopes_Ok scopes l :
  trim_scopes scopes = (l, Ok tt) ↔
  l = map trim scopes ∧ Forall (λ s, trim s ≠ EmptyString) scopes.
Proof.
  revert l. induction scopes as [|s scopes IH]; intros l; simpl.
  - split; [by intros [= <-]|by intros [-> _]].
  - rewrite Forall_cons. destruct (string_is_empty (trim s)) eqn:Hs.
    + split; [done|]. intros (_ & Hne & _). by apply bool_decide_eq_true in Hs.
    + apply string_is_empty_false in Hs. destruct (trim_scopes scopes) as [l' r] eqn:Ht. split.
      * intros [= <- ->]. destruct (proj1 (IH l') eq_refl) as [-> ?]. done.
      * intros (-> & _ & Hall). pose proof (proj2 (IH (map trim scopes)) (conj eq_refl Hall)).
        by simplify_eq.
Qed.

(** Success of [normalize], with what it leaves. *)
Lemma normalize_Ok d d' :
  normalize d = (d', Ok tt) ↔
  trim (cd_id d) ≠ EmptyString ∧ cd_version d ≠ 0 ∧
  Forall (λ s, trim s ≠ EmptyString) (cd_required_scopes d) ∧
  (cd_side_effect d = Irreversible → cd_rollback_supported d = false) ∧
  d' = set_scopes (set_id d (trim (cd_id d))) (dedup (sort (map trim (cd_required_scopes d)))).
Proof.
  unfold normalize. cbn [cd_id set_id].
  destruct (string_is_empty (trim (cd_id d))) eqn:Hid.
  { split; [done|]. intros (Hne & _). apply string_is_empty_false in Hne. congruence. }
  apply string_is_empty_false in Hid. cbn [cd_version set_id].
  destruct (Z.eqb_spec (cd_version d) 0) as [Hv|Hv]; [split; [done|by intros (_ & ? & _)]|].
  cbn [cd_required_scopes set_id].
  destruct (trim_scopes (cd_required_scopes d)) as [l r] eqn:Ht.
  assert (r = Ok tt ∨ r ≠ Ok tt) as [->|Hr] by (destruct r as [[]| |]; auto).
  - apply trim_scopes_Ok in Ht as [-> Hall]. cbn [cd_side_effect cd_rollback_supported set_scopes set_id].
    case_bool_decide as Hirr; cbn [andb].
    + destruct (cd_rollback_supported d) eqn:Hrb.
      * split; [done|]. intros (_ & _ & _ & Himp & _). by specialize (Himp Hirr).
      * split; [by intros [= <-]|by intros (_ & _ & _ & _ & ->)].
    + split; [by intros [= <-]|by intros (_ & _ & _ & _ & ->)].
  - split.
    + destruct r as [[]| |]; [done|by intros [=]..].
    + intros (_ & _ & Hall & _).
      assert (trim_scopes (cd_required_scopes d) = (map trim (cd_required_scopes d), Ok tt)) as Ht'
        by (by apply trim_scopes_Ok).
      congruence.
Qed.

Lemma elem_of_normal_scopes s scopes :
  s ∈ dedup (sort (map trim scopes)) ↔ ∃ s0, s0 ∈ scopes ∧ s = trim s0.
Proof.
  rewrite dedup_elem_of, (sort_perm (map trim scopes)), list_elem_of_fmap. naive_solver.
Qed.

Lemma normalize_wf d d' : normalize d = (d', Ok tt) → descriptor_wf d'.
Proof.
  intros (Hid & Hv & Hs & Hr & ->)%normalize_Ok. constructor; simpl; try done.
  - split; [apply trim_trimmed|done].
  - apply Forall_forall. intros s (s0 & Hin & ->)%elem_of_normal_scopes.
    rewrite Forall_forall in Hs. split; [apply trim_trimmed|by apply Hs].
  - apply dedup_strict, sort_sorted.
Qed.

Lemma normalize_fixed d : descriptor_wf d → normalize d = (d, Ok tt).
Proof.
  intros [[Hid Hne] Hv Hs Ha Hr]. apply normalize_Ok. unfold trimmed in *.
  assert (map trim (cd_required_scopes d) = cd_required_scopes d) as Hmap.
  { apply list_eq_Forall2, Forall2_fmap_l, Forall_Forall2_diag.
    eapply Forall_impl; [exact Hs|]. by intros s [? _]. }
  rewrite Hid. split_and!; try done.
  - eapply Forall_impl; [exact Hs|]. intros s [Ht Hs0]. unfold trimmed in Ht. by rewrite Ht.
  - rewrite Hmap, sort_strict_id, dedup_strict_id by done. by destruct d.
Qed.

Definition registry_wf (self : CapabilityRegistry) : Prop :=
  map_Forall (λ key d, cd_id d = key ∧ descriptor_wf d) self.

Lemma permits_Ok g d :
  permits g d = Ok tt ↔
  Forall (λ s, s ∈ ag_scopes g) (cd_required_scopes d) ∧
  (cd_side_effect d = ExternalWrite → ag_allow_external_write g = true) ∧
  (cd_side_effect d = Irreversible → ag_allow_irreversible g = true).
Proof.
  unfold permits.
  assert (check_all (λ required, if bool_decide (required ∈ ag_scopes g) then Ok tt
     else Err (MissingAuthority required)) (cd_required_scopes d) = Ok tt ↔
    Forall (λ s, s ∈ ag_scopes g) (cd_required_scopes d)) as Hall.
  { rewrite check_all_Ok. apply Forall_proper; [|done]. intros s. case_bool_decide; naive_solver. }
  rewrite <- Hall. destruct (check_all _ _) as [[]| |]; [|naive_solver..].
  destruct (cd_side_effect d), (ag_allow_external_write g), (ag_allow_irreversible g); naive_solver.
Qed.

(** ** Properties *)

(** A descriptor that normalize accepts is left in a normal form (trimmed non-empty
    id and scopes, scopes strictly ascending, version non-zero, no irreversible rollback)
    that normalize keeps, with the trimmed id and exactly the trimmed scopes. *)
Theorem normalize_normal_form d d' :
  normalize d = (d', Ok tt) →
  descriptor_wf d' ∧ normalize d' = (d', Ok tt) ∧ cd_id d' = trim (cd_id d) ∧
  ∀ s, s ∈ cd_required_scopes d' ↔ ∃ s0, s0 ∈ cd_required_scopes d ∧ s = trim s0.
Proof.
  intros Hn. pose proof (normalize_wf d d' Hn) as Hwf.
  split_and!; [done|by apply normalize_fixed|..];
    apply normalize_Ok in Hn as (_ & _ & _ & _ & ->); [done|].
  intros s. exact (elem_of_normal_scopes s (cd_required_scopes d)).
Qed.

(** Registering a capability keeps the registry well formed, never replaces an entry,
    and files the normalized descriptor under its trimmed id. *)
Theorem register_preserves_wf reg d reg' :
  registry_wf reg → register reg d = Ok reg' →
  registry_wf reg' ∧ reg !! trim (cd_id d) = None ∧
  (∃ d', normalize d = (d', Ok tt) ∧ reg' = <[trim (cd_id d) := d']> reg) ∧ reg ⊆ reg'.
Proof.
  intros Hreg. unfold register. destruct (normalize d) as [d' r] eqn:Hn.
  destruct r as [[]| |]; [|done..]. pose proof (normalize_wf _ _ Hn) as Hwf.
  assert (cd_id d' = trim (cd_id d)) as Hid by (by apply normalize_Ok in Hn as (_&_&_&_&->)).
  rewrite Hid. destruct (reg !! trim (cd_id d)) eqn:Hfree; [done|]. intros [= <-].
  split_and!; [|done|by exists d'|by apply insert_subseteq].
  apply map_Forall_insert_2; [done|exact Hreg].
Qed.

(** ** A concrete registry *)
Definition sample_descriptor : CapabilityDescriptor :=
  mkDescriptor " web.fetch " 1 Web ExternalWrite true true true [" net "; "disk"; "net"].
Definition sample_normal : CapabilityDescriptor :=
  mkDescriptor "web.fetch" 1 Web ExternalWrite true true true ["disk"; "net"].

Lemma sample_normalizes : normalize sample_descriptor = (sample_normal, Ok tt).
Proof. vm_compute. reflexivity. Qed.

Lemma normalize_normal_form_witness :
  normalize sample_descriptor = (sample_normal, Ok tt) ∧ descriptor_wf sample_normal.
Proof.
  split; [exact sample_normalizes|].
  exact (proj1 (normalize_normal_form _ _ sample_normalizes)).
Defined.

Lemma register_preserves_wf_witness :
  register ∅ sample_descriptor = Ok {["web.fetch" := sample_normal]} ∧
  registry_wf {["web.fetch" := sample_normal]}.
Proof.
  assert (register ∅ sample_descriptor = Ok {["web.fetch" := sample_normal]}) as H
    by (vm_compute; reflexivity).
  split; [exact H|]. refine (proj1 (register_preserves_wf ∅ sample_descriptor _ _ H)).
  apply map_Forall_empty.
Defined.
