(* ===== verification/WireFormat.v ===== *)
(** The encoding primitives the checkpoint files share, and the interface of an
    encoder with its decoder.

    checkpoint.rs and action_checkpoint.rs (src/crates/ntd-runtime/src) have the
    same private helpers over different error types.  [WireFormat put get] is
    what one component's format promises to the next: when [put] succeeds and
    what it appends, that [get] reads that back, and that [get] accepts nothing
    else.  The formats of lists, options and ordered tables are built from the
    formats of their elements, so the proof of a record's format is the list of
    its fields. *)
From S2P Require Import Prelude Text Collections Codec.

Class FormatErrors (E : Type) := {
  format_cursor :: CursorErrors E;
  err_utf8 : E;
  err_boolean : Z → E;
  err_non_canonical : E;
}.

Section primitives.
Context {E : Type} `{FormatErrors E}.

Definition len_u32 (n : Z) : result E Z := ok_or (try_u32 n) err_cursor_overflow.

Definition push_bytes (out value : bytes) : result E bytes :=
  let? n := len_u32 (len value) in Ok (push_u32 out n ++ value).
Definition push_string (out : bytes) (value : string) : result E bytes :=
  push_bytes out (string_bytes value).
(** A count and the elements, as a loop. *)
Definition push_list {A} (push : bytes → A → result E bytes) (out : bytes) (values : list A)
  : result E bytes :=
  let? n := len_u32 (len values) in fold_result push (push_u32 out n) values.
Definition push_strings : bytes → list string → result E bytes := push_list push_string.
Definition push_bool (out : bytes) (value : bool) : bytes := push_u8 out (if value then 1 else 0).
Definition push_option {A} (push : bytes → A → result E bytes) (out : bytes) (value : option A)
  : result E bytes :=
  match value with
  | Some value => push (push_u8 out 1) value
  | None => Ok (push_u8 out 0)
  end.
Definition push_optional_string : bytes → option string → result E bytes :=
  push_option push_string.
Definition push_optional_bytes : bytes → option bytes → result E bytes :=
  push_option push_bytes.

Definition read_bytes : decoder E bytes :=
  dec! n <- read_u32;
  dec! n <- dec_lift (ok_or (try_usize n) err_cursor_overflow);
  take_bytes n.
Definition read_string : decoder E string :=
  dec! bs <- read_bytes; dec_lift (ok_or (from_utf8 bs) err_utf8).
Definition read_list {A} (get : decoder E A) : decoder E (list A) :=
  dec! n <- read_u32; read_vec err_cursor_overflow n get.
Definition read_strings : decoder E (list string) := read_list read_string.
Definition read_boolean : decoder E bool :=
  dec! v <- read_u8;
  if v =? 0 then dec_ret false
  else if v =? 1 then dec_ret true
  else dec_lift (Err (err_boolean v)).
Definition read_option {A} (get : decoder E A) : decoder E (option A) :=
  dec! v <- read_u8;
  if v =? 0 then dec_ret None
  else if v =? 1 then dec! a <- get; dec_ret (Some a)
  else dec_lift (Err (err_boolean v)).
Definition optional_string : decoder E (option string) := read_option read_string.
Definition optional_bytes : decoder E (option bytes) := read_option read_bytes.

(** The loop that rebuilds an ordered map: each key must come [after] the
    previous one, and be new. *)
Section ordered.
Context {K L A : Type} `{Countable K} (after : L → K → bool) (next : K → L) (key : A → K)
  (get : decoder E A).
Fixpoint read_ordered (n : nat) (last : L) (m : gmap K A) : decoder E (gmap K A) :=
  match n with
  | O => dec_ret m
  | S n' =>
      dec! a <- get;
      dec! _ <- dec_guard (after last (key a)) err_non_canonical;
      dec! _ <- dec_guard (bool_decide (m !! key a = None)) err_non_canonical;
      read_ordered n' (next (key a)) (<[key a := a]> m)
  end.
End ordered.

(** [ensure_increasing] on ids, starting from [0]. *)
Definition id_after (previous value : Z) : bool := negb ((value =? 0) || (value <=? previous)).
(** The test on string keys, starting from [None]. *)
Definition key_after (previous : option string) (value : string) : bool :=
  match previous with Some p => negb (bool_decide (String.le value p)) | None => true end.
End primitives.

(** ** What a writer appends *)
Definition emits {E} (w : bytes → result E bytes) (fits : Prop) (l : bytes) : Prop :=
  ∀ out r, w out = Ok r ↔ fits ∧ r = out ++ l.

Section emits.
Context {E : Type}.
Implicit Types w : bytes → result E bytes.

Lemma emits_ok l : emits (E:=E) (λ out, Ok (out ++ l)) True l.
Proof. intros out r. split; [by intros [= <-]|by intros [_ ->]]. Qed.

Lemma emits_nil : emits (E:=E) (λ out, Ok out) True [].
Proof. intros out r. rewrite app_nil_r. split; [by intros [= <-]|by intros [_ ->]]. Qed.

(** [push(out, ..); rest(out)] *)
Lemma emits_push w l fits l' :
  emits w fits l' → emits (λ out, w (out ++ l)) fits (l ++ l').
Proof. intros Hw out r. by rewrite (Hw (out ++ l) r), <- app_assoc. Qed.

(** [put(out, ..)?; rest(out)] *)
Lemma emits_seq w1 w2 fits1 fits2 l1 l2 :
  emits w1 fits1 l1 → emits w2 fits2 l2 →
  emits (λ out, let? out := w1 out in w2 out) (fits1 ∧ fits2) (l1 ++ l2).
Proof.
  intros H1 H2 out r. destruct (w1 out) as [out'|e|] eqn:Hw.
  - apply H1 in Hw as [Hf1 ->]. rewrite (H2 (out ++ l1) r), <- app_assoc. tauto.
  - split; [done|]. intros [[Hf1 _] _]. by rewrite (proj2 (H1 out _) (conj Hf1 eq_refl)) in Hw.
  - split; [done|]. intros [[Hf1 _] _]. by rewrite (proj2 (H1 out _) (conj Hf1 eq_refl)) in Hw.
Qed.

(** [let n = check()?; rest(out)] *)
Lemma emits_check {A} (m : result E A) (k : A → bytes → result E bytes) (φ : Prop) a fits l :
  (∀ x, m = Ok x ↔ φ ∧ x = a) → emits (k a) fits l →
  emits (λ out, let? x := m in k x out) (φ ∧ fits) l.
Proof.
  intros Hm Hk out r. destruct m as [x|e|].
  - destruct (proj1 (Hm x) eq_refl) as [Hφ ->]. rewrite (Hk out r). tauto.
  - split; [done|]. intros [[Hφ _] _]. by pose proof (proj2 (Hm a) (conj Hφ eq_refl)).
  - split; [done|]. intros [[Hφ _] _]. by pose proof (proj2 (Hm a) (conj Hφ eq_refl)).
Qed.

Lemma emits_conv w fits fits' l l' :
  emits w fits l → (fits ↔ fits') → l = l' → emits w fits' l'.
Proof. intros Hw Hf <- out r. by rewrite <- Hf. Qed.

Lemma emits_each {A} (put : bytes → A → result E bytes) (fits : A → Prop) enc xs :
  (∀ x, emits (λ out, put out x) (fits x) (enc x)) →
  emits (λ out, fold_result put out xs) (Forall fits xs) (concat (map enc xs)).
Proof.
  intros Hput out r. apply (fold_result_append put fits enc). intros out' x r'. apply Hput.
Qed.

Lemma emits_run w fits l r : emits w fits l → w [] = Ok r → fits ∧ r = l.
Proof. intros Hw Hr. by apply Hw in Hr as [? ->]. Qed.
End emits.

Lemma len_u32_Ok {E} `{FormatErrors E} n x :
  len_u32 (E:=E) n = Ok x ↔ n < 2 ^ 32 ∧ x = n.
Proof.
  unfold len_u32, try_u32. rewrite ok_or_Ok. destruct (Z.ltb_spec n (2 ^ 32)); naive_solver lia.
Qed.

(** ** The interface of a format *)
Class WireFormat {E A} `{FormatErrors E} (put : bytes → A → result E bytes) (get : decoder E A) := {
  wf_enc : A → bytes;
  wf_typed : A → Prop;
  wf_fits : A → Prop;
  wf_emits : ∀ a, emits (λ out, put out a) (wf_fits a) (wf_enc a);
  wf_reads : ∀ a, wf_typed a → wf_fits a → reads get (wf_enc a) a;
  wf_parses : parses get (λ l a, l = wf_enc a ∧ wf_typed a ∧ wf_fits a);
  wf_safe : safe get;
}.
Arguments wf_enc {E A _} put get {_} a.
Arguments wf_typed {E A _} put get {_} a.
Arguments wf_fits {E A _} put get {_} a.
#[global] Arguments wf_enc : simpl never.
#[global] Arguments wf_typed : simpl never.
#[global] Arguments wf_fits : simpl never.

(** An enum with its [repr(u8)] and its [TryFrom<u8>]. *)
Class EnumTag {E A} (repr : A → Z) (try_from : Z → result E A) := {
  tag_byte : ∀ a, in_u8 (repr a);
  tag_try : ∀ a, try_from (repr a) = Ok a;
  tag_inv : ∀ v a, try_from v = Ok a → v = repr a;
  tag_safe : ∀ v, no_panic (try_from v);
}.

Lemma parses_bind_dep {E} `{CursorErrors E} {A B} (d : decoder E A) (k : A → decoder E B) R1 R2 :
  parses d R1 → (∀ a, (∃ l, R1 l a) → parses (k a) (R2 a)) →
  parses (dec_bind d k) (λ l b, ∃ l1 l2 a, l = l1 ++ l2 ∧ R1 l1 a ∧ R2 a l2 b).
Proof.
  intros Hd Hk pre rest v c'. unfold dec_bind.
  destruct (d (at_ pre rest)) as [[a c]| |] eqn:Ha; [|done..].
  apply Hd in Ha as (l1 & rest1 & -> & -> & HR1). intros Hb.
  apply Hk in Hb as (l2 & post & -> & -> & HR2); [|by exists l1].
  exists (l1 ++ l2), post. rewrite !app_assoc. naive_solver.
Qed.

(** ** Running a writer

    The steps of an encoder as equivalences: [emit_steps] turns "the encoder
    returned [Ok r]" into what had to fit and what was appended. *)
Section emit_steps.
Context {E : Type} `{FormatErrors E} {A : Type}.
Context (put : bytes → A → result E bytes) (get : decoder E A) `{!WireFormat put get}.

Lemma put_Ok out a r :
  put out a = Ok r ↔ wf_fits put get a ∧ r = out ++ wf_enc put get a.
Proof. apply (wf_emits a). Qed.

Lemma put_then out a (k : bytes → result E bytes) r :
  (let? o := put out a in k o) = Ok r ↔
  wf_fits put get a ∧ k (out ++ wf_enc put get a) = Ok r.
Proof.
  destruct (put out a) as [o|e|] eqn:Hp.
  - apply put_Ok in Hp as [? ->]. tauto.
  - split; [done|]. intros [Hf _]. by rewrite (proj2 (put_Ok out a _) (conj Hf eq_refl)) in Hp.
  - split; [done|]. intros [Hf _]. by rewrite (proj2 (put_Ok out a _) (conj Hf eq_refl)) in Hp.
Qed.

Lemma each_Ok out xs r :
  fold_result put out xs = Ok r ↔
  Forall (wf_fits put get) xs ∧ r = out ++ concat (map (wf_enc put get) xs).
Proof. apply (emits_each put _ _ xs wf_emits). Qed.

Lemma each_then out xs (k : bytes → result E bytes) r :
  (let? o := fold_result put out xs in k o) = Ok r ↔
  Forall (wf_fits put get) xs ∧ k (out ++ concat (map (wf_enc put get) xs)) = Ok r.
Proof.
  destruct (fold_result put out xs) as [o|e|] eqn:Hp.
  - apply each_Ok in Hp as [? ->]. tauto.
  - split; [done|]. intros [Hf _]. by rewrite (proj2 (each_Ok out xs _) (conj Hf eq_refl)) in Hp.
  - split; [done|]. intros [Hf _]. by rewrite (proj2 (each_Ok out xs _) (conj Hf eq_refl)) in Hp.
Qed.
End emit_steps.

Lemma len_then {E} `{FormatErrors E} n (k : Z → result E bytes) r :
  (let? m := len_u32 n in k m) = Ok r ↔ n < 2 ^ 32 ∧ k n = Ok r.
Proof.
  unfold len_u32, try_u32. destruct (Z.ltb_spec n (2 ^ 32)); simpl; [tauto|].
  split; [done|lia].
Qed.
Lemma Ok_iff {E A} (a r : A) : Ok (E:=E) a = Ok r ↔ r = a.
Proof. naive_solver. Qed.

Section instances.
Context {E : Type} `{FormatErrors E}.

#[export] Instance bytes_format : WireFormat push_bytes read_bytes.
Proof.
  refine {| wf_enc v := to_le 4 (len v) ++ v; wf_typed _ := True; wf_fits v := len v < 2 ^ 32 |}.
  - intros v. eapply emits_conv.
    + apply (emits_check (len_u32 (len v)) (λ n out, Ok (push_u32 out n ++ v)) _ _ True
               (to_le 4 (len v) ++ v) (len_u32_Ok _)).
      intros out r. unfold push_u32. rewrite <- app_assoc. apply emits_ok.
    + tauto.
    + done.
  - intros v _ Hfit. pose proof (len_nonneg v). unfold read_bytes.
    eapply reads_bind; [apply reads_u32; unfold in_u32; lia|].
    eapply reads_bind_nil; [apply reads_lift, try_u64_Ok; lia|]. by apply reads_take.
  - unfold read_bytes. eapply parses_weaken.
    + eapply parses_bind; [apply parses_u32|intros n].
      eapply parses_bind; [apply parses_lift|intros m]. apply parses_take.
    + intros l v (l1 & l2 & n & -> & [-> Hn] & l3 & l4 & m & -> & [-> Hm] & -> & Hv).
      apply ok_or_try_u64 in Hm as [-> _]. unfold in_u32 in Hn. simpl.
      rewrite Hv. split_and!; [done..|lia].
  - unfold read_bytes. solve_safe.
Defined.

#[export] Instance string_format : WireFormat push_string read_string.
Proof.
  refine {| wf_enc v := wf_enc push_bytes read_bytes (string_bytes v);
            wf_typed v := is_utf8 v;
            wf_fits v := wf_fits push_bytes read_bytes (string_bytes v) |}.
  - intros v. exact (wf_emits (put:=push_bytes) (get:=read_bytes) (string_bytes v)).
  - intros v Hv Hfit. unfold read_string.
    eapply reads_bind_last; [by apply wf_reads|]. apply reads_lift. by rewrite from_utf8_string.
  - unfold read_string. eapply parses_weaken.
    + eapply parses_bind; [apply wf_parses|intros bs]. apply parses_lift.
    + intros l v (l1 & l2 & bs & -> & (-> & _ & Hf) & -> & Hs).
      apply ok_or_Ok, from_utf8_Some in Hs as [-> ?]. rewrite app_nil_r. done.
  - unfold read_string. apply safe_bind; [apply wf_safe|intros; apply safe_lift, ok_or_no_panic].
Defined.

#[export] Instance list_format {A} (put : bytes → A → result E bytes) (get : decoder E A)
  `{!WireFormat put get} : WireFormat (push_list put) (read_list get).
Proof.
  refine {| wf_enc xs := to_le 4 (len xs) ++ concat (map (wf_enc put get) xs);
            wf_typed xs := Forall (wf_typed put get) xs;
            wf_fits xs := len xs < 2 ^ 32 ∧ Forall (wf_fits put get) xs |}.
  - intros xs. unfold push_list.
    apply (emits_check (len_u32 (len xs)) (λ n out, fold_result put (push_u32 out n) xs) _ _ _ _
             (len_u32_Ok _)).
    apply (emits_push (λ out, fold_result put out xs)). apply emits_each. apply wf_emits.
  - intros xs Hty [Hlen Hfit]. pose proof (len_nonneg xs). unfold read_list.
    eapply reads_bind; [apply reads_u32; unfold in_u32; lia|].
    apply reads_vec; [lia|]. apply Forall_forall. intros x Hx.
    rewrite Forall_forall in Hty, Hfit. apply wf_reads; auto.
  - unfold read_list. eapply parses_weaken.
    + eapply parses_bind_dep; [apply parses_u32|]. intros n Hn. apply parses_vec.
      * destruct Hn as (l & _ & Hn). apply Hn.
      * eapply parses_weaken; [apply wf_parses|]. intros l v (-> & Ht & Hf).
        split; [reflexivity|]. exact (conj Ht Hf).
    + intros l v (l1 & l2 & n & -> & [-> Hn] & -> & <- & Hall).
      apply Forall_and in Hall as [Ht Hf]. unfold in_u32 in Hn. split_and!; [done|done|lia|done].
  - unfold read_list. apply safe_bind; [apply safe_u32|intros; apply safe_vec, wf_safe].
Defined.

#[export] Instance strings_format : WireFormat push_strings read_strings.
Proof. apply list_format, string_format. Defined.

#[export] Instance option_format {A} (put : bytes → A → result E bytes) (get : decoder E A)
  `{!WireFormat put get} : WireFormat (push_option put) (read_option get).
Proof.
  refine {| wf_enc o := match o with Some a => to_le 1 1 ++ wf_enc put get a | None => to_le 1 0 end;
            wf_typed o := match o with Some a => wf_typed put get a | None => True end;
            wf_fits o := match o with Some a => wf_fits put get a | None => True end |}.
  - intros [a|]; unfold push_option.
    + apply (emits_push (λ out, put out a)), wf_emits.
    + apply emits_ok.
  - intros [a|] Hty Hfit; unfold read_option.
    + eapply reads_bind; [apply reads_u8; by vm_compute|]. cbn.
      eapply reads_bind_last; [by apply wf_reads|apply reads_ret].
    + eapply reads_bind_last; [apply reads_u8; by vm_compute|]. cbn. apply reads_ret.
  - unfold read_option. parse_start Hv. parse_step Hv. destruct Hr as [-> Ha].
    destruct (Z.eqb_spec a 0) as [->|]; [|destruct (Z.eqb_spec a 1) as [->|]].
    + parse_done Hv. done.
    + eapply parses_step in Hv; [|apply wf_parses].
      destruct Hv as (l & post1 & x & -> & (-> & Ht & Hf) & Hv). parse_done Hv. done.
    + done.
  - unfold read_option. solve_safe; apply wf_safe.
Defined.

#[export] Instance optional_string_format : WireFormat push_optional_string optional_string.
Proof. apply option_format, string_format. Defined.
#[export] Instance optional_bytes_format : WireFormat push_optional_bytes optional_bytes.
Proof. apply option_format, bytes_format. Defined.

Lemma reads_boolean (b : bool) : reads (E:=E) read_boolean (to_le 1 (if b then 1 else 0)) b.
Proof.
  unfold read_boolean. eapply reads_bind_last; [apply reads_u8; by destruct b|].
  destruct b; apply reads_ret.
Qed.
Lemma parses_boolean :
  parses (E:=E) read_boolean (λ l (b : bool), l = to_le 1 (if b then 1 else 0)).
Proof.
  unfold read_boolean. parse_start Hv. parse_step Hv. destruct Hr as [-> Ha].
  destruct (Z.eqb_spec a 0) as [->|]; [|destruct (Z.eqb_spec a 1) as [->|]]; [| |done].
  all: parse_done Hv; done.
Qed.
Lemma safe_boolean : safe (E:=E) read_boolean.
Proof. unfold read_boolean. solve_safe. Qed.
End instances.

#[export] Hint Resolve reads_boolean : reads.
#[export] Hint Resolve parses_boolean : parses.
#[export] Hint Resolve safe_boolean : codec.

(** The formats as hints, for the tactics of Codec.v. *)
Section format_hints.
Context {E : Type} `{FormatErrors E}.
Lemma reads_bytes v :
  wf_fits push_bytes read_bytes v → reads read_bytes (wf_enc push_bytes read_bytes v) v.
Proof. by apply wf_reads. Qed.
Lemma reads_string v :
  is_utf8 v → wf_fits push_string read_string v →
  reads read_string (wf_enc push_string read_string v) v.
Proof. exact (wf_reads (put:=push_string) (get:=read_string) v). Qed.
Lemma reads_strings v :
  Forall is_utf8 v → wf_fits push_strings read_strings v →
  reads read_strings (wf_enc push_strings read_strings v) v.
Proof. exact (wf_reads (put:=push_strings) (get:=read_strings) v). Qed.
Lemma reads_optional_string v :
  wf_typed push_optional_string optional_string v →
  wf_fits push_optional_string optional_string v →
  reads optional_string (wf_enc push_optional_string optional_string v) v.
Proof. apply wf_reads. Qed.
Lemma reads_optional_bytes v :
  wf_fits push_optional_bytes optional_bytes v →
  reads optional_bytes (wf_enc push_optional_bytes optional_bytes v) v.
Proof. apply (wf_reads (put:=push_optional_bytes)). by destruct v. Qed.
Lemma parses_string : parses read_string (λ l v,
  l = wf_enc push_string read_string v ∧ is_utf8 v ∧ wf_fits push_string read_string v).
Proof. exact (wf_parses (put:=push_string) (get:=read_string)). Qed.
Lemma parses_strings : parses read_strings (λ l v,
  l = wf_enc push_strings read_strings v ∧ Forall is_utf8 v ∧ wf_fits push_strings read_strings v).
Proof. exact (wf_parses (put:=push_strings) (get:=read_strings)). Qed.
Lemma parses_bytes : parses read_bytes (λ l v,
  l = wf_enc push_bytes read_bytes v ∧ True ∧ wf_fits push_bytes read_bytes v).
Proof. exact (wf_parses (put:=push_bytes) (get:=read_bytes)). Qed.
Lemma parses_optional_string : parses optional_string (λ l v,
  l = wf_enc push_optional_string optional_string v ∧
  wf_typed push_optional_string optional_string v ∧
  wf_fits push_optional_string optional_string v).
Proof. exact (wf_parses (put:=push_optional_string) (get:=optional_string)). Qed.
Lemma parses_optional_bytes : parses optional_bytes (λ l v,
  l = wf_enc push_optional_bytes optional_bytes v ∧
  wf_typed push_optional_bytes optional_bytes v ∧
  wf_fits push_optional_bytes optional_bytes v).
Proof. exact (wf_parses (put:=push_optional_bytes) (get:=optional_bytes)). Qed.
Lemma safe_bytes : safe read_bytes. Proof. exact (wf_safe (put:=push_bytes) (get:=read_bytes)). Qed.
Lemma safe_string : safe read_string. Proof. exact (wf_safe (put:=push_string) (get:=read_string)). Qed.
Lemma safe_strings : safe read_strings. Proof. exact (wf_safe (put:=push_strings) (get:=read_strings)). Qed.
Lemma safe_optional_string : safe optional_string.
Proof. exact (wf_safe (put:=push_optional_string) (get:=optional_string)). Qed.
Lemma safe_optional_bytes : safe optional_bytes.
Proof. exact (wf_safe (put:=push_optional_bytes) (get:=optional_bytes)). Qed.
End format_hints.

#[export] Hint Resolve reads_bytes reads_string reads_strings reads_optional_string
  reads_optional_bytes : reads.
#[export] Hint Resolve parses_bytes parses_string parses_strings parses_optional_string
  parses_optional_bytes : parses.
#[export] Hint Resolve safe_bytes safe_string safe_strings safe_optional_string
  safe_optional_bytes : codec.

(** The writers of the standard fields, stepped over. *)
Ltac emit_steps :=
  repeat first
    [ rewrite (put_then push_string read_string)
    | rewrite (put_then push_strings read_strings)
    | rewrite (put_then push_bytes read_bytes)
    | rewrite (put_then push_optional_string optional_string)
    | rewrite (put_then push_optional_bytes optional_bytes)
    | rewrite (put_Ok push_string read_string)
    | rewrite (put_Ok push_strings read_strings)
    | rewrite (put_Ok push_bytes read_bytes)
    | rewrite (put_Ok push_optional_string optional_string)
    | rewrite Ok_iff ];
  rewrite <- ?app_assoc.

Lemma map_err_Ok {E E' A} (f : E → E') (m : result E A) a : map_err f m = Ok a ↔ m = Ok a.
Proof. destruct m; naive_solver. Qed.
Lemma map_err_no_panic {E E' A} (f : E → E') (m : result E A) :
  no_panic m → no_panic (map_err f m).
Proof. by destruct m. Qed.

Section enum_reads.
Context {E E' A : Type} `{CursorErrors E} (repr : A → Z) (try_from : Z → result E' A).
Context `{!EnumTag repr try_from}.
Lemma reads_tag a : reads (E:=E) read_u8 (to_le 1 (repr a)) (repr a).
Proof. apply reads_u8, tag_byte. Qed.
Lemma reads_untag (f : E' → E) a : reads (dec_lift (map_err f (try_from (repr a)))) [] a.
Proof. apply reads_lift. by rewrite tag_try. Qed.
End enum_reads.

Lemma safe_untag {E E' A} (repr : A → Z) (try_from : Z → result E' A) `{!EnumTag repr try_from}
    (f : E' → E) v : safe (dec_lift (map_err f (try_from v))).
Proof. apply safe_lift, map_err_no_panic, tag_safe. Qed.
Lemma reads_value {E A} (d : decoder E A) l v v' : reads d l v' → v' = v → reads d l v.
Proof. by intros Hd <-. Qed.

#[export] Hint Extern 2 (safe (dec_lift (map_err _ _))) =>
  apply safe_lift, map_err_no_panic, tag_safe : codec.
#[export] Hint Extern 2 (safe (dec_lift (?f _))) =>
  apply safe_lift, (tag_safe (try_from:=f)) : codec.

(** The proof that a [repr] and its [try_from] match. *)
Ltac enum_tag :=
  split; [by intros []|by intros []| |intros; repeat (case_match; try done)];
  intros v a Hv; repeat match type of Hv with
  | (if ?x =? ?y then _ else _) = _ => destruct (Z.eqb_spec x y) as [->|]
  end; try discriminate; by injection Hv as <-.

(** A decoder run on the front of its input. *)
Lemma run_front {E} `{CursorErrors E} {A} (d : decoder E A) l post v :
  reads d l v → len (l ++ post) < 2 ^ 64 → run_decoder d (l ++ post) = Ok v.
Proof.
  intros Hd Hlen. unfold run_decoder. change (cursor_new (l ++ post)) with (at_ [] (l ++ post)).
  by rewrite (Hd [] post).
Qed.
Lemma run_parses {E} `{CursorErrors E} {A} (d : decoder E A) R bs v :
  parses d R → run_decoder d bs = Ok v → ∃ l post, bs = l ++ post ∧ R l v.
Proof.
  intros Hd. unfold run_decoder. destruct (d (cursor_new bs)) as [[v' c]| |] eqn:Hv; [|done..].
  intros [= <-]. change (cursor_new bs) with (at_ [] bs) in Hv.
  apply Hd in Hv as (l & post & -> & _ & HR). by exists l, post.
Qed.

(** ** The fields of a record

    One field, or one enum, of a record being read; the fields of a record in
    order; and what the fields read say. *)
Ltac field_leaf :=
  first
    [ eapply reads_untag; exact _
    | eapply reads_lift, tag_try
    | eapply reads_tag; exact _
    | read_leaf ].
Ltac solve_fields :=
  repeat first
    [ apply reads_ret
    | eapply reads_bind_nil; [field_leaf|]; cbv beta
    | eapply reads_bind; [field_leaf|]; cbv beta
    | eapply reads_bind_last; [field_leaf|]; cbv beta ].
Ltac field_facts :=
  repeat match goal with
  | Hr : _ ∧ _ |- _ => destruct Hr
  | Hr : map_err _ _ = Ok _ |- _ => apply map_err_Ok in Hr
  | Hr : ?f _ = Ok _ |- _ => apply (tag_inv (try_from:=f)) in Hr; subst
  | Hr : ?l = _ |- _ => is_var l; subst l
  end.
Ltac parse_fields Hv :=
  parse_start Hv; repeat parse_step Hv; field_facts; parse_done Hv; cbn;
  rewrite ?app_nil_r, <- ?app_assoc; split_and!; first [reflexivity|assumption|done].

(** A format as hints, for the records it is a field of. *)
Lemma format_reads {E} `{FormatErrors E} {A} (put : bytes → A → result E bytes)
    (get : decoder E A) `{!WireFormat put get} a :
  wf_typed put get a → wf_fits put get a → reads get (wf_enc put get a) a.
Proof. apply wf_reads. Qed.
Lemma format_parses {E} `{FormatErrors E} {A} (put : bytes → A → result E bytes)
    (get : decoder E A) `{!WireFormat put get} :
  parses get (λ l a, l = wf_enc put get a ∧ wf_typed put get a ∧ wf_fits put get a).
Proof. apply wf_parses. Qed.
Lemma format_safe {E} `{FormatErrors E} {A} (put : bytes → A → result E bytes)
    (get : decoder E A) `{!WireFormat put get} : safe get.
Proof. exact (wf_safe (put:=put)). Qed.

(** ** Writers do not panic *)
Section writers.
Context {E : Type} `{FormatErrors E}.
Lemma push_bytes_no_panic out v : no_panic (push_bytes out v).
Proof. unfold push_bytes, len_u32. repeat np_step. Qed.
Lemma push_string_no_panic out v : no_panic (push_string out v).
Proof. apply push_bytes_no_panic. Qed.
Lemma push_list_no_panic {A} (put : bytes → A → result E bytes) out l :
  (∀ o x, no_panic (put o x)) → no_panic (push_list put out l).
Proof.
  intros Hput. unfold push_list, len_u32. np_step; [apply ok_or_no_panic|].
  by apply (fold_result_no_panic (λ _, True)).
Qed.
Lemma push_strings_no_panic out v : no_panic (push_strings out v).
Proof. apply push_list_no_panic. intros. apply push_string_no_panic. Qed.
Lemma push_option_no_panic {A} (put : bytes → A → result E bytes) out o :
  (∀ o x, no_panic (put o x)) → no_panic (push_option put out o).
Proof. intros Hput. by destruct o; cbn. Qed.
Lemma push_optional_string_no_panic out v : no_panic (push_optional_string out v).
Proof. apply push_option_no_panic. intros. apply push_string_no_panic. Qed.
End writers.
#[export] Hint Resolve push_bytes_no_panic push_string_no_panic push_list_no_panic
  push_strings_no_panic push_optional_string_no_panic : no_panic.

(** What reads back is determined by its encoding. *)
Lemma reads_inj {E A} (d : decoder E A) l v v' :
  reads d l v → reads d l v' → len l < 2 ^ 64 → v = v'.
Proof.
  intros Hv Hv' Hl. specialize (Hv [] []). specialize (Hv' [] []).
  rewrite app_nil_l, app_nil_r in Hv, Hv'. rewrite Hv in Hv' by done. by injection (Hv' Hl).
Qed.
