(* ===== verification/WireTables.v ===== *)
(** Ordered tables: the loops that write a [BTreeMap] and read it back.

    [KeySequence] is what the order test on keys promises; [table_reads] and
    [table_parses] are the two directions for any format of the elements. *)
From S2P Require Import Prelude Text Collections Codec WireFormat.

(** ** Ordered tables

    [after] and [next] implement the strict order of the keys from [init] on;
    [good] are the keys that may occur. *)
Class KeySequence {K L : Type} `{KeyOrder K} (after : L → K → bool) (next : K → L) (init : L)
    (good : K → Prop) := {
  after_init : ∀ k, after init k = true ↔ good k;
  after_next : ∀ j k, good j → after (next j) k = true ↔ (key_le j k ∧ j ≠ k) ∧ good k;
}.

#[export] Instance id_sequence : KeySequence id_after (λ k, k) 0 (λ k, 0 < k).
Proof.
  split; unfold id_after; intros.
  - rewrite negb_true_iff, orb_false_iff, Z.eqb_neq, Z.leb_gt. lia.
  - rewrite negb_true_iff, orb_false_iff, Z.eqb_neq, Z.leb_gt. cbn. lia.
Qed.

#[export] Instance string_sequence : KeySequence key_after Some None (λ _ : string, True).
Proof.
  split; unfold key_after; [done|]. intros j k _. rewrite negb_true_iff, bool_decide_eq_false. cbn.
  split.
  - intros Hn. split; [|done]. destruct (total String.le j k) as [Hle|Hle]; [|done].
    split; [done|]. by intros ->.
  - intros [[Hle Hne] _] Hle'. apply Hne. by apply (anti_symm String.le).
Qed.

Section tables.
Context {K A : Type} `{Countable K, !KeyOrder K} (key : A → K).
Implicit Types (m : gmap K A) (vs : list A).

Definition strict_key (j k : K) : Prop := key_le j k ∧ j ≠ k.
Definition table_of m vs : gmap K A := foldl (λ m a, <[key a := a]> m) m vs.
Definition keyed m : Prop := map_Forall (λ k a, key a = k) m.

Lemma table_of_lookup vs m k a :
  NoDup (map key vs) → (∀ x, x ∈ vs → m !! key x = None) →
  table_of m vs !! k = Some a ↔ m !! k = Some a ∨ (a ∈ vs ∧ key a = k).
Proof.
  revert m. induction vs as [|v vs IH]; intros m Hnd Hm; cbn [table_of foldl map].
  { split; [by left|]. intros [?|[?%elem_of_nil _]]; done. }
  cbn [map] in Hnd. apply NoDup_cons in Hnd as [Hni Hnd].
  change (foldl _ (<[key v:=v]> m) vs) with (table_of (<[key v:=v]> m) vs).
  rewrite IH; [|done|].
  - pose proof (Hm v (list_elem_of_here _ _)) as Hv. rewrite lookup_insert_Some, elem_of_cons.
    assert (m !! k = Some a → key v ≠ k) by congruence. naive_solver.
  - intros x Hx. rewrite lookup_insert_ne; [by apply Hm; right|]. intros Heq. apply Hni.
    rewrite Heq. by apply list_elem_of_fmap_2.
Qed.

Lemma StronglySorted_strict_NoDup (ks : list K) :
  StronglySorted strict_key ks → NoDup ks.
Proof.
  induction 1 as [|k ks Hs IH Hall]; constructor; [|done]. intros Hin.
  rewrite Forall_forall in Hall. by destruct (Hall k Hin).
Qed.

Lemma btree_keys_strict m : StronglySorted strict_key (btree_keys m).
Proof.
  pose proof (btree_keys_sorted m) as Hs. pose proof (btree_keys_NoDup m) as Hnd.
  induction Hs as [|k ks Hs IH Hall]; [constructor|].
  apply NoDup_cons in Hnd as [Hni Hnd]. constructor; [by apply IH|].
  rewrite Forall_forall in Hall |- *. intros j Hj. split; [by apply Hall|]. by intros ->.
Qed.

Lemma keyed_values_keys m : keyed m → map key (btree_values m) = btree_keys m.
Proof.
  intros Hk. unfold btree_values, btree_keys. rewrite map_map. apply map_ext_in.
  intros [k a] Hin. apply list_elem_of_In, elem_of_btree_iter in Hin. by apply Hk.
Qed.

Lemma table_of_values m : keyed m → table_of ∅ (btree_values m) = m.
Proof.
  intros Hk. apply map_eq. intros k. apply option_eq. intros a.
  rewrite table_of_lookup.
  - rewrite lookup_empty, elem_of_btree_values. split.
    + intros [?|[[k' Hk'] <-]]; [done|]. by rewrite (Hk _ _ Hk').
    + intros Ha. right. split; [by exists k|by apply Hk].
  - rewrite keyed_values_keys by done. apply btree_keys_NoDup.
  - intros. apply lookup_empty.
Qed.

Lemma strict_sorted_unique (l k : list A) :
  StronglySorted strict_key (map key l) → StronglySorted strict_key (map key k) →
  (∀ x, x ∈ l ↔ x ∈ k) → l = k.
Proof.
  revert k. induction l as [|x l IH]; intros [|y k] Hl Hk Hel.
  - done.
  - exfalso. apply (not_elem_of_nil y), Hel. left.
  - exfalso. apply (not_elem_of_nil x), Hel. left.
  - cbn in Hl, Hk. inversion_clear Hl as [|? ? Hl' Hxl]. inversion_clear Hk as [|? ? Hk' Hyk].
    rewrite Forall_forall in Hxl, Hyk.
    assert (x = y) as <-.
    { pose proof (proj1 (Hel x) (list_elem_of_here _ _)) as [?|Hx]%elem_of_cons; [done|].
      pose proof (proj2 (Hel y) (list_elem_of_here _ _)) as [?|Hy]%elem_of_cons; [done|].
      destruct (Hxl (key y)) as [H1 H2]; [by apply list_elem_of_fmap_2|].
      destruct (Hyk (key x)) as [H3 _]; [by apply list_elem_of_fmap_2|].
      exfalso. apply H2. by apply (anti_symm key_le). }
    f_equal. apply IH; [done..|]. intros z.
    assert (∀ l', (∀ k0, k0 ∈ map key l' → strict_key (key x) k0) → x ∉ l') as Hx.
    { intros l' Hl0 Hin. by destruct (Hl0 (key x) (list_elem_of_fmap_2 _ _ _ Hin)). }
    specialize (Hel z). rewrite !elem_of_cons in Hel.
    pose proof (Hx l Hxl). pose proof (Hx k Hyk). naive_solver.
Qed.

Lemma table_of_sorted vs :
  StronglySorted strict_key (map key vs) →
  keyed (table_of ∅ vs) ∧ btree_values (table_of ∅ vs) = vs ∧
  ∀ k a, table_of ∅ vs !! k = Some a ↔ a ∈ vs ∧ key a = k.
Proof.
  intros Hs. pose proof (StronglySorted_strict_NoDup _ Hs) as Hnd.
  assert (∀ k a, table_of ∅ vs !! k = Some a ↔ a ∈ vs ∧ key a = k) as Hl.
  { intros k a. rewrite table_of_lookup; [|done|intros; apply lookup_empty].
    rewrite lookup_empty. naive_solver. }
  assert (keyed (table_of ∅ vs)) as Hk by (intros k a Ha; by apply Hl).
  split_and!; [done| |done]. apply strict_sorted_unique; [|done|].
  - rewrite keyed_values_keys by done. apply btree_keys_strict.
  - intros a. rewrite elem_of_btree_values. setoid_rewrite Hl. naive_solver.
Qed.

Lemma btree_values_length m : length (btree_values m) = size m.
Proof.
  unfold btree_values, btree_iter. rewrite length_map, merge_sort_Permutation.
  apply length_map_to_list.
Qed.
End tables.

Section ordered_tables.
Context {E : Type} `{FormatErrors E} {K L A : Type} `{Countable K, !KeyOrder K}.
Context (after : L → K → bool) (next : K → L) (init : L) (good : K → Prop).
Context `{!KeySequence after next init good} (key : A → K) (get : decoder E A) (enc : A → bytes).
Implicit Types (m : gmap K A) (vs : list A).

Fixpoint chain (last : L) (ks : list K) : Prop :=
  match ks with [] => True | k :: ks' => after last k = true ∧ chain (next k) ks' end.

Lemma chain_after j ks :
  good j → chain (next j) ks ↔ StronglySorted strict_key (j :: ks) ∧ Forall good ks.
Proof.
  revert j. induction ks as [|k ks IH]; intros j Hj; cbn [chain].
  { split; [|done]. intros _. split; [repeat constructor|done]. }
  rewrite after_next by done. split.
  - intros [[Hjk Hk] Hc]. apply IH in Hc as [Hs Hg]; [|done]. split; [|by constructor].
    constructor; [done|]. constructor; [done|]. inversion_clear Hs as [|? ? _ Hall].
    rewrite Forall_forall in Hall |- *. intros x Hx. destruct (Hall x Hx) as [Hle Hne], Hjk as [Hle' Hne'].
    split; [by etrans|]. intros ->. apply Hne. by apply (anti_symm key_le).
  - intros [Hs Hg]. inversion_clear Hs as [|? ? Hs' Hall]. apply Forall_cons in Hg as [Hk Hg].
    apply Forall_cons in Hall as [Hjk _]. split; [done|]. by apply IH.
Qed.

Lemma chain_init ks : chain init ks ↔ StronglySorted strict_key ks ∧ Forall good ks.
Proof.
  destruct ks as [|k ks]; cbn [chain].
  { split; [|done]. intros _. split; constructor. }
  rewrite after_init, Forall_cons. split.
  - intros [Hk Hc]. apply chain_after in Hc as [? ?]; done.
  - intros [Hs [Hk Hg]]. split; [done|]. by apply chain_after.
Qed.

Lemma read_ordered_reads vs last m :
  chain last (map key vs) → NoDup (map key vs) → (∀ a, a ∈ vs → m !! key a = None) →
  Forall (λ a, reads get (enc a) a) vs →
  reads (read_ordered after next key get (length vs) last m) (concat (map enc vs))
    (table_of key m vs).
Proof.
  revert last m. induction vs as [|v vs IH]; intros last m Hc Hnd Hm Hg; cbn [read_ordered length map concat].
  { apply reads_ret. }
  cbn [map chain] in Hc, Hnd. destruct Hc as [Hv Hc]. apply NoDup_cons in Hnd as [Hni Hnd].
  apply Forall_cons in Hg as [Hgv Hg].
  eapply reads_bind; [exact Hgv|]. eapply reads_bind_nil; [by apply reads_guard|].
  eapply reads_bind_nil; [apply reads_guard, bool_decide_eq_true, Hm; left|].
  apply IH; [done..| |done]. intros a Ha. rewrite lookup_insert_ne; [apply Hm; by right|].
  intros Heq. apply Hni. rewrite Heq. by apply list_elem_of_fmap_2.
Qed.

Lemma table_reads m :
  keyed key m → map_Forall (λ k _, good k) m → map_Forall (λ _ a, reads get (enc a) a) m →
  reads (read_ordered after next key get (size m) init ∅) (concat (map enc (btree_values m))) m.
Proof.
  intros Hk Hg Hr. rewrite <- btree_values_length.
  replace m with (table_of key ∅ (btree_values m)) at 3 by (by apply table_of_values).
  apply read_ordered_reads.
  - rewrite keyed_values_keys by done. apply chain_init. split; [apply btree_keys_strict|].
    apply Forall_forall. intros k [a Ha]%elem_of_btree_keys. by apply (Hg k a).
  - rewrite keyed_values_keys by done. apply btree_keys_NoDup.
  - intros. apply lookup_empty.
  - apply Forall_forall. intros a [k Ha]%elem_of_btree_values. by apply (Hr k a).
Qed.

Lemma read_ordered_parses (P : A → Prop) n :
  parses get (λ l a, l = enc a ∧ P a) → ∀ last m,
  parses (read_ordered after next key get n last m) (λ l m', ∃ vs, l = concat (map enc vs) ∧
    length vs = n ∧ Forall P vs ∧ chain last (map key vs) ∧ m' = table_of key m vs).
Proof.
  intros Hget. induction n as [|n IH]; intros last m; cbn [read_ordered].
  { eapply parses_weaken; [apply parses_ret|]. intros l v [-> ->]. by exists []. }
  eapply parses_weaken.
  - eapply parses_bind; [exact Hget|intros a].
    eapply parses_bind; [apply parses_guard|intros u].
    eapply parses_bind; [apply parses_guard|intros u']. apply IH.
  - intros l v (l1 & l2 & a & -> & [-> Ha] & l3 & l4 & [] & -> & [-> Haf] & l5 & l6 & [] & -> &
      [-> _] & vs & -> & <- & Hall & Hc & ->).
    exists (a :: vs). cbn. split_and!; try done. by constructor.
Qed.

Lemma table_parses (P : A → Prop) n :
  parses get (λ l a, l = enc a ∧ P a) →
  parses (read_ordered after next key get n init ∅) (λ l m,
    l = concat (map enc (btree_values m)) ∧ size m = n ∧
    map_Forall (λ k a, key a = k ∧ good k ∧ P a) m).
Proof.
  intros Hget. eapply parses_weaken; [by apply (read_ordered_parses P)|].
  intros l v (vs & -> & <- & Hall & [Hs Hg]%chain_init & ->).
  destruct (table_of_sorted key vs Hs) as (Hk & Hv & Hl).
  rewrite <- btree_values_length, Hv. split_and!; [done..|].
  intros k a [Ha <-]%Hl. rewrite Forall_forall in Hall. rewrite Forall_forall in Hg.
  split_and!; [done| |by apply Hall].
  apply Hg. by apply list_elem_of_fmap_2.
Qed.

Lemma safe_ordered n last m :
  safe get → safe (read_ordered after next key get n last m).
Proof.
  intros Hget. revert last m. induction n as [|n IH]; intros last m; cbn [read_ordered];
    [apply safe_ret|].
  apply safe_bind; [done|intros a]. apply safe_bind; [apply safe_guard|intros _].
  apply safe_bind; [apply safe_guard|intros _]. apply IH.
Qed.
End ordered_tables.

(** ** Tables of a format *)
Definition table_enc {K A} `{Countable K, KeyOrder K} (enc : A → bytes) (m : gmap K A) : bytes :=
  concat (map enc (btree_values m)).
Definition table_len {K A} `{Countable K} (m : gmap K A) : bytes := to_le 4 (Z.of_nat (size m)).
Definition table_fits {K A} `{Countable K, KeyOrder K} (fits : A → Prop) (m : gmap K A) : Prop :=
  Z.of_nat (size m) < 2 ^ 32 ∧ Forall fits (btree_values m).

(** A table whose records are filed under their own positive ids. *)
Definition table_ready {K A} `{Countable K} (typed : A → Prop) (good : K → Prop) (key : A → K)
    (m : gmap K A) : Prop :=
  map_Forall (λ k a, key a = k ∧ good k ∧ typed a) m.

Section table_formats.
Context {E : Type} `{FormatErrors E} {K L A : Type} `{Countable K, !KeyOrder K} (after : L → K → bool) (next : K → L) (init : L)
  (good : K → Prop) `{!KeySequence after next init good} (key : A → K).
Context (put : bytes → A → result E bytes) (get : decoder E A)
  `{!WireFormat put get}.

Lemma reads_table (m : gmap K A) :
  table_ready (wf_typed put get) good key m → table_fits (wf_fits put get) m →
  reads (read_ordered after next key get (Z.to_nat (Z.of_nat (size m))) init ∅)
    (table_enc (wf_enc put get) m) m.
Proof.
  intros Hm [_ Hf]. rewrite Nat2Z.id. apply (table_reads after next init good).
  - intros k a Ha. by destruct (Hm k a Ha).
  - intros k a Ha. by destruct (Hm k a Ha) as (_ & ? & _).
  - intros k a Ha. destruct (Hm k a Ha) as (_ & _ & Ht). apply wf_reads; [done|].
    rewrite Forall_forall in Hf. apply Hf, elem_of_btree_values. by exists k.
Qed.

Lemma parses_table n :
  in_u32 n →
  parses (read_ordered after next key get (Z.to_nat n) init ∅) (λ l m,
    l = table_enc (wf_enc put get) m ∧ to_le 4 n = table_len m ∧
    table_ready (wf_typed put get) good key m ∧ table_fits (wf_fits put get) m).
Proof.
  intros Hn. eapply parses_weaken.
  - apply (table_parses after next init good key get (wf_enc put get)
             (λ a, wf_typed put get a ∧ wf_fits put get a)), wf_parses.
  - intros l m (-> & Hsize & Hall). unfold in_u32 in Hn. unfold table_len.
    split_and!; [done|f_equal; lia| |split; [lia|]].
    + intros k a Ha. by destruct (Hall k a Ha) as (? & ? & ? & ?).
    + apply Forall_forall. intros a [k Ha]%elem_of_btree_values.
      by destruct (Hall k a Ha) as (? & ? & ? & ?).
Qed.
End table_formats.

Lemma table_len_reads {E K A} `{CursorErrors E} `{Countable K, !KeyOrder K} (fits : A → Prop) (m : gmap K A) :
  table_fits fits m →
  reads (E:=E) read_u32 (table_len m) (Z.of_nat (size m)).
Proof. intros [Hm _]. apply reads_u32. unfold in_u32. lia. Qed.

Ltac table_step Hv :=
  eapply parses_step in Hv; [|eapply parses_table; [apply _|eassumption]];
  let l := fresh "l" in let post := fresh "post" in let m := fresh "m" in
  let Hl := fresh "Hl" in
  destruct Hv as (l & post & m & -> & (Hl & ? & ? & ?) & Hv); cbn beta in Hv.
