(* ===== verification/Artifact.v ===== *)
(** Artifact transfers: src/crates/ntd-pc-fabric/src/artifact.rs and the error
    type of the crate (lib.rs).

    A sender cuts a byte string into chunks, an assembler puts the chunks it is
    given back together and compares the digest.  The digest is the [sha2]
    crate's, a parameter. *)
From S2P Require Import Prelude Text Collections Codec Hash.

(** The [Sha256::digest] of the sha2 crate: a digest has 32 bytes. *)
Class Sha2 := {
  sha2_digest : bytes → bytes;
  sha2_length : ∀ bs, len (sha2_digest bs) = 32;
}.

Module Artifact.

Inductive PcFabricError :=
| InvalidIdentity
| InvalidPairing
| InvalidSignature
| InvalidHandshake
| CryptoFailure
| Replay (expected_sequence actual_sequence : Z)
| InvalidFrame
| InvalidMessage
| InvalidArtifact
| ArtifactHashMismatch
| ArtifactOutOfOrder
| MissingCapability (capability : string)
| CapabilityVersionMismatch (capability : string) (expected actual : Z)
| PeerMismatch
| PolicyDenied (reason : string)
| Io (reason : string)
| Remote (reason : string)
| Overflow.

Definition DEFAULT_ARTIFACT_CHUNK : Z := 64 * 1024.

Record ArtifactDescriptor := mkArtifact {
  ad_transfer_id : Z;
  ad_name : string;
  ad_length : Z;
  ad_sha256 : bytes;
  ad_chunk_size : Z;
}.

Definition validate_artifact (d : ArtifactDescriptor) : result PcFabricError unit :=
  if (ad_transfer_id d =? 0) || is_blank (ad_name d) || (ad_chunk_size d =? 0)
     || (4 * 1024 * 1024 <? ad_chunk_size d)
  then Err InvalidArtifact
  else Ok tt.

Record ArtifactChunk := mkChunk {
  ac_transfer_id : Z;
  ac_offset : Z;
  ac_data : bytes;
}.

Record ArtifactSender := mkSender {
  sd_descriptor : ArtifactDescriptor;
  sd_bytes : bytes;
}.

Definition ArtifactSender_new `{Sha2} (transfer_id : Z) (name : string) (bs : bytes) (chunk_size : Z)
  : result PcFabricError ArtifactSender :=
  let? length := ok_or (try_u64 (len bs)) Overflow in
  let descriptor := mkArtifact transfer_id name length (sha2_digest bs) chunk_size in
  let? _ := validate_artifact descriptor in
  Ok (mkSender descriptor bs).

Definition saturating_add_usize : Z → Z → Z := saturating_add_u64.

(** [self.bytes[offset..end]] from [offset], up to a chunk. *)
Definition chunk_end (s : ArtifactSender) (chunk_size offset : Z) : Z :=
  Z.min (saturating_add_usize offset chunk_size) (len (sd_bytes s)).

Definition chunk_at (s : ArtifactSender) (offset : Z) : result PcFabricError ArtifactChunk :=
  if ad_length (sd_descriptor s) <? offset then Err InvalidArtifact
  else
    let? offset_usize := ok_or (try_usize offset) Overflow in
    let? chunk_size := ok_or (try_usize (ad_chunk_size (sd_descriptor s))) Overflow in
    let end_ := chunk_end s chunk_size offset_usize in
    if len (sd_bytes s) <? offset_usize then Err InvalidArtifact
    else
      let? data := slice (sd_bytes s) offset_usize end_ in
      Ok (mkChunk (ad_transfer_id (sd_descriptor s)) offset data).

(** The loop of [chunks]; [None] is a loop that has not ended with this fuel. *)
Fixpoint chunks_loop (s : ArtifactSender) (chunk_size : Z) (fuel : nat) (offset : Z)
    (chunks : list ArtifactChunk) : option (result PcFabricError (list ArtifactChunk)) :=
  if negb (offset <? len (sd_bytes s)) then Some (Ok chunks)
  else
    match fuel with
    | O => None
    | S fuel' =>
        let end_ := chunk_end s chunk_size offset in
        match try_u64 offset with
        | None => Some (Err Overflow)
        | Some offset64 =>
            match slice (E:=PcFabricError) (sd_bytes s) offset end_ with
            | Ok data =>
                chunks_loop s chunk_size fuel' end_
                  (chunks ++ [mkChunk (ad_transfer_id (sd_descriptor s)) offset64 data])
            | Err e => Some (Err e)
            | Panic => Some Panic
            end
        end
    end.

Definition sender_chunks (fuel : nat) (s : ArtifactSender)
  : option (result PcFabricError (list ArtifactChunk)) :=
  match try_usize (ad_chunk_size (sd_descriptor s)) with
  | None => Some (Err Overflow)
  | Some chunk_size => chunks_loop s chunk_size fuel 0 []
  end.

Record ArtifactAssembler := mkAssembler {
  aa_descriptor : ArtifactDescriptor;
  aa_bytes : bytes;
  aa_next_offset : Z;
}.

Definition ArtifactAssembler_new (descriptor : ArtifactDescriptor)
  : result PcFabricError ArtifactAssembler :=
  let? _ := validate_artifact descriptor in
  let? capacity := ok_or (try_usize (ad_length descriptor)) Overflow in
  let? _ := with_capacity 1 capacity in
  Ok (mkAssembler descriptor [] 0).

(** [&mut self]: on an error the assembler is as it was. *)
Definition assembler_push (self : ArtifactAssembler) (chunk : ArtifactChunk)
  : result PcFabricError ArtifactAssembler :=
  let d := aa_descriptor self in
  if negb (ac_transfer_id chunk =? ad_transfer_id d)
     || negb (ac_offset chunk =? aa_next_offset self)
  then Err ArtifactOutOfOrder
  else
    let? chunk_size := ok_or (try_usize (ad_chunk_size d)) Overflow in
    if chunk_size <? len (ac_data chunk) then Err InvalidArtifact
    else
      let? chunk_len := ok_or (try_u64 (len (ac_data chunk))) Overflow in
      let? end_ := ok_or (checked_add_u64 (aa_next_offset self) chunk_len) Overflow in
      if ad_length d <? end_ then Err InvalidArtifact
      else Ok (mkAssembler d (aa_bytes self ++ ac_data chunk) end_).

Definition assembler_finish `{Sha2} (self : ArtifactAssembler) : result PcFabricError bytes :=
  if negb (aa_next_offset self =? ad_length (aa_descriptor self)) then Err InvalidArtifact
  else if negb (bytes_eqb (sha2_digest (aa_bytes self)) (ad_sha256 (aa_descriptor self)))
  then Err ArtifactHashMismatch
  else Ok (aa_bytes self).

(** ** Senders and assemblers that fit together *)

(** What the types guarantee. *)
Definition descriptor_typed (d : ArtifactDescriptor) : Prop :=
  in_u64 (ad_transfer_id d) ∧ is_utf8 (ad_name d) ∧ in_u64 (ad_length d) ∧
  len (ad_sha256 d) = 32 ∧ in_u32 (ad_chunk_size d).

Lemma validate_artifact_Ok d :
  validate_artifact d = Ok tt ↔
  ad_transfer_id d ≠ 0 ∧ is_blank (ad_name d) = false ∧ ad_chunk_size d ≠ 0 ∧
  ad_chunk_size d ≤ 4 * 1024 * 1024.
Proof.
  unfold validate_artifact.
  destruct (Z.eqb_spec (ad_transfer_id d) 0), (is_blank (ad_name d)),
    (Z.eqb_spec (ad_chunk_size d) 0), (Z.ltb_spec (4 * 1024 * 1024) (ad_chunk_size d)); cbn [orb];
    split; try done; try lia; intros (? & ? & ? & ?); done || lia.
Qed.

Section transfer.
Context `{Sha2}.

(** A sender as [ArtifactSender::new] builds it. *)
Record sender_wf (s : ArtifactSender) : Prop := {
  sw_length : ad_length (sd_descriptor s) = len (sd_bytes s);
  sw_bound : len (sd_bytes s) < 2 ^ 64;
  sw_digest : ad_sha256 (sd_descriptor s) = sha2_digest (sd_bytes s);
  sw_valid : validate_artifact (sd_descriptor s) = Ok tt;
  sw_chunk : 0 < ad_chunk_size (sd_descriptor s) ≤ 4 * 1024 * 1024;
}.

Lemma sender_new_Ok id name bs chunk_size s :
  0 ≤ chunk_size → ArtifactSender_new id name bs chunk_size = Ok s →
  sender_wf s ∧ sd_bytes s = bs ∧
  sd_descriptor s = mkArtifact id name (len bs) (sha2_digest bs) chunk_size.
Proof.
  intros Hc. unfold ArtifactSender_new, try_u64.
  destruct (Z.ltb_spec (len bs) (2 ^ 64)); cbn [ok_or]; [|done].
  destruct (validate_artifact _) as [[]| |] eqn:Hv; [|done..]. intros [= <-].
  split; [|done]. split; cbn; try done.
  apply validate_artifact_Ok in Hv as (_ & _ & Hne & Hle). cbn in *. lia.
Qed.

(** The data of the chunk at an offset. *)
Definition block (s : ArtifactSender) (offset : Z) : bytes :=
  take (Z.to_nat (ad_chunk_size (sd_descriptor s))) (drop (Z.to_nat offset) (sd_bytes s)).

Lemma len_block s offset :
  0 ≤ ad_chunk_size (sd_descriptor s) → 0 ≤ offset →
  len (block s offset) = Z.min (ad_chunk_size (sd_descriptor s)) (Z.max 0 (len (sd_bytes s) - offset)).
Proof. intros ??. unfold block, len. rewrite length_take, length_drop. lia. Qed.

Lemma block_slice s offset :
  sender_wf s → 0 ≤ offset ≤ len (sd_bytes s) →
  slice (E:=PcFabricError) (sd_bytes s) offset (chunk_end s (ad_chunk_size (sd_descriptor s)) offset)
    = Ok (block s offset) ∧
  chunk_end s (ad_chunk_size (sd_descriptor s)) offset = offset + len (block s offset).
Proof.
  intros [Hl Hb _ _ Hc] Ho. pose proof (len_block s offset ltac:(lia) ltac:(lia)) as Hlen.
  assert (chunk_end s (ad_chunk_size (sd_descriptor s)) offset = offset + len (block s offset)) as He.
  { unfold chunk_end, saturating_add_usize, saturating_add_u64. lia. }
  split; [|done]. rewrite He. apply slice_Ok, get_range_Some. split_and!; [lia|lia|lia|].
  rewrite Hlen. unfold block. unfold len in *.
  destruct (Z.le_gt_cases (ad_chunk_size (sd_descriptor s)) (Z.of_nat (length (sd_bytes s)) - offset)).
  - f_equal. lia.
  - rewrite !take_ge by (rewrite length_drop; lia). done.
Qed.

Lemma block_progress s offset :
  sender_wf s → 0 ≤ offset < len (sd_bytes s) →
  0 < len (block s offset) ∧ offset + len (block s offset) ≤ len (sd_bytes s).
Proof. intros [_ _ _ _ Hc] Ho. rewrite len_block by lia. lia. Qed.

Definition chunk_of (s : ArtifactSender) (offset : Z) : ArtifactChunk :=
  mkChunk (ad_transfer_id (sd_descriptor s)) offset (block s offset).

Lemma chunk_at_Ok s offset :
  sender_wf s → 0 ≤ offset ≤ len (sd_bytes s) → chunk_at s offset = Ok (chunk_of s offset).
Proof.
  intros Hs Ho. destruct (block_slice s offset Hs Ho) as [Hsl _].
  destruct Hs as [Hl Hb _ _ Hc]. unfold chunk_at, try_usize, try_u64.
  destruct (Z.ltb_spec (ad_length (sd_descriptor s)) offset); [lia|].
  destruct (Z.ltb_spec offset (2 ^ 64)); [|lia]. cbn [ok_or].
  destruct (Z.ltb_spec (ad_chunk_size (sd_descriptor s)) (2 ^ 64)); [|lia]. cbn [ok_or].
  destruct (Z.ltb_spec (len (sd_bytes s)) offset); [lia|]. by rewrite Hsl.
Qed.

(** An assembler that holds the first [offset] bytes of a sender. *)
Definition received (s : ArtifactSender) (offset : Z) : ArtifactAssembler :=
  mkAssembler (sd_descriptor s) (take (Z.to_nat offset) (sd_bytes s)) offset.

Lemma push_received s offset :
  sender_wf s → 0 ≤ offset ≤ len (sd_bytes s) →
  assembler_push (received s offset) (chunk_of s offset) = Ok (received s (offset + len (block s offset))).
Proof.
  intros Hs Ho. destruct (block_slice s offset Hs Ho) as [_ Hend].
  destruct Hs as [Hl Hb _ _ Hc]. pose proof (len_block s offset ltac:(lia) ltac:(lia)) as Hlen.
  unfold assembler_push, received, chunk_of, try_usize, try_u64, checked_add_u64. cbn.
  rewrite !Z.eqb_refl. cbn [negb orb].
  destruct (Z.ltb_spec (ad_chunk_size (sd_descriptor s)) (2 ^ 64)); [|lia]. cbn [ok_or].
  destruct (Z.ltb_spec (ad_chunk_size (sd_descriptor s)) (len (block s offset))); [lia|].
  destruct (Z.ltb_spec (len (block s offset)) (2 ^ 64)); [|lia]. cbn [ok_or].
  destruct (Z.ltb_spec (offset + len (block s offset)) (2 ^ 64)); [|lia]. cbn [ok_or].
  destruct (Z.ltb_spec (ad_length (sd_descriptor s)) (offset + len (block s offset))); [lia|].
  do 2 f_equal. rewrite Hlen. unfold block. rewrite take_take_drop.
  destruct (Z.le_gt_cases (ad_chunk_size (sd_descriptor s)) (len (sd_bytes s) - offset)).
  - f_equal. lia.
  - rewrite !take_ge by (unfold len in *; lia). done.
Qed.

Lemma finish_received s :
  sender_wf s → assembler_finish (received s (len (sd_bytes s))) = Ok (sd_bytes s).
Proof.
  intros [Hl _ Hd _ _]. unfold assembler_finish, received, len. cbn.
  rewrite Nat2Z.id, take_ge, Hl, Hd by lia. unfold len, bytes_eqb.
  by rewrite Z.eqb_refl, bool_decide_true.
Qed.

Lemma assembler_new_received s :
  sender_wf s → len (sd_bytes s) < 2 ^ 63 → ArtifactAssembler_new (sd_descriptor s) = Ok (received s 0).
Proof.
  intros [Hl _ _ Hv _] Hb. unfold ArtifactAssembler_new, try_usize, try_u64. rewrite Hv, Hl.
  destruct (Z.ltb_spec (len (sd_bytes s)) (2 ^ 64)); [|lia]. cbn [ok_or]. by rewrite with_capacity_fits by lia.
Qed.

(** The loop of [chunks] ends, and its chunks complete the assembler. *)
Lemma chunks_loop_spec s fuel offset acc :
  sender_wf s → 0 ≤ offset ≤ len (sd_bytes s) → len (sd_bytes s) - offset ≤ Z.of_nat fuel →
  ∃ l, chunks_loop s (ad_chunk_size (sd_descriptor s)) fuel offset acc = Some (Ok (acc ++ l)) ∧
    fold_result assembler_push (received s offset) l = Ok (received s (len (sd_bytes s))).
Proof.
  intros Hs. revert offset acc. induction fuel as [|fuel IH]; intros offset acc Ho Hf; cbn [chunks_loop].
  all: destruct (Z.ltb_spec offset (len (sd_bytes s))) as [Hlt|Hge]; cbn [negb].
  2, 4: exists []; rewrite app_nil_r; split; [done|]; cbn; do 2 f_equal; lia.
  - lia.
  - destruct (block_slice s offset Hs Ho) as [Hsl Hend].
    destruct (block_progress s offset Hs ltac:(lia)) as [Hp Hle].
    unfold try_u64. destruct (Z.ltb_spec offset (2 ^ 64)); [|destruct Hs; lia].
    rewrite Hsl, Hend. destruct (IH (offset + len (block s offset)) (acc ++ [chunk_of s offset]))
      as (l & Hl & Hfold); [lia..|].
    exists (chunk_of s offset :: l). unfold chunk_of at 1 in Hl. rewrite Hl, <- app_assoc.
    split; [done|]. cbn [fold_result]. by rewrite push_received.
Qed.

(** ** Any stream of chunks *)
Definition offer (a : ArtifactAssembler) (c : ArtifactChunk) : ArtifactAssembler :=
  match assembler_push a c with Ok a' => a' | _ => a end.

(** What an assembler for [d] holds, whatever it was offered. *)
Record assembler_wf (d : ArtifactDescriptor) (a : ArtifactAssembler) : Prop := {
  aw_descriptor : aa_descriptor a = d;
  aw_offset : aa_next_offset a = len (aa_bytes a);
  aw_bound : aa_next_offset a ≤ ad_length d;
}.

Lemma assembler_new_wf d a :
  0 ≤ ad_length d → ArtifactAssembler_new d = Ok a → assembler_wf d a.
Proof.
  intros Hd. unfold ArtifactAssembler_new. destruct (validate_artifact d) as [[]| |]; [|done..].
  destruct (ok_or _ _) as [?| |]; [|done..]. destruct (with_capacity _ _); [|done..]. by intros [= <-].
Qed.

Lemma push_wf d a c a' :
  assembler_wf d a → assembler_push a c = Ok a' →
  assembler_wf d a' ∧ aa_bytes a' = aa_bytes a ++ ac_data c ∧ ac_offset c = aa_next_offset a ∧
  ac_transfer_id c = ad_transfer_id d ∧ len (ac_data c) ≤ ad_chunk_size d ∧
  aa_next_offset a' = aa_next_offset a + len (ac_data c).
Proof.
  intros [<- Ho Hb]. unfold assembler_push, try_usize, try_u64, checked_add_u64.
  destruct (Z.eqb_spec (ac_transfer_id c) (ad_transfer_id (aa_descriptor a))); [|done].
  destruct (Z.eqb_spec (ac_offset c) (aa_next_offset a)); [|done]. cbn [negb orb].
  destruct (Z.ltb_spec (ad_chunk_size (aa_descriptor a)) (2 ^ 64)); [|done]. cbn [ok_or].
  destruct (Z.ltb_spec (ad_chunk_size (aa_descriptor a)) (len (ac_data c))); [done|].
  destruct (Z.ltb_spec (len (ac_data c)) (2 ^ 64)); [|done]. cbn [ok_or].
  destruct (Z.ltb_spec (aa_next_offset a + len (ac_data c)) (2 ^ 64)); [|done]. cbn [ok_or].
  destruct (Z.ltb_spec (ad_length (aa_descriptor a)) (aa_next_offset a + len (ac_data c))); [done|].
  intros [= <-]. cbn. split_and!; try done. split; cbn; [done|rewrite len_app; lia|done].
Qed.

Lemma finish_Ok a bs :
  assembler_finish a = Ok bs ↔
  bs = aa_bytes a ∧ aa_next_offset a = ad_length (aa_descriptor a) ∧
  sha2_digest (aa_bytes a) = ad_sha256 (aa_descriptor a).
Proof.
  unfold assembler_finish. destruct (Z.eqb_spec (aa_next_offset a) (ad_length (aa_descriptor a)));
    cbn [negb]; [|naive_solver].
  unfold bytes_eqb. case_bool_decide; cbn [negb]; naive_solver.
Qed.
End transfer.

(** The length a peer declares is reserved as it stands: a valid descriptor of
    2^63 bytes or more ends in a panic. *)
Lemma declared_length_panics d :
  validate_artifact d = Ok tt → 2 ^ 63 ≤ ad_length d < 2 ^ 64 → ArtifactAssembler_new d = Panic.
Proof.
  intros Hv Hl. unfold ArtifactAssembler_new, try_usize, try_u64. rewrite Hv.
  destruct (Z.ltb_spec (ad_length d) (2 ^ 64)); [|lia]. cbn [ok_or]. by rewrite with_capacity_overflows by lia.
Qed.

(** ** Properties *)

(** A sender chunked by its own loop, and an assembler fed with the chunks, give the bytes
    back; a vector has less than 2^63 bytes. *)
Theorem artifact_transfer `{Sha2} id name bs chunk_size s :
  0 ≤ chunk_size → len bs < 2 ^ 63 → ArtifactSender_new id name bs chunk_size = Ok s →
  ∃ chunks a0 a,
    sender_chunks (length bs) s = Some (Ok chunks) ∧
    ArtifactAssembler_new (sd_descriptor s) = Ok a0 ∧
    fold_result assembler_push a0 chunks = Ok a ∧ assembler_finish a = Ok bs.
Proof.
  intros Hc Hlen Hs. apply sender_new_Ok in Hs as (Hs & Hb & _); [|done]. rewrite <- Hb in Hlen.
  pose proof (len_nonneg (sd_bytes s)).
  destruct (chunks_loop_spec s (length bs) 0 [] Hs) as (l & Hl & Hf); [lia|rewrite Hb; unfold len; lia|].
  exists l, (received s 0), (received s (len (sd_bytes s))). split_and!.
  - unfold sender_chunks, try_usize, try_u64. destruct (sw_chunk s Hs).
    by destruct (Z.ltb_spec (ad_chunk_size (sd_descriptor s)) (2 ^ 64)); [|lia].
  - by apply assembler_new_received.
  - done.
  - rewrite <- Hb. by apply finish_received.
Qed.

(** Whatever chunks are offered to an assembler, in whatever order, what it finishes
    with has the length and the digest of the descriptor. *)
Theorem assembler_authentic `{Sha2} d a0 chunks bs :
  0 ≤ ad_length d → ArtifactAssembler_new d = Ok a0 →
  assembler_finish (foldl offer a0 chunks) = Ok bs →
  len bs = ad_length d ∧ sha2_digest bs = ad_sha256 d.
Proof.
  intros Hd Ha Hf. assert (assembler_wf d (foldl offer a0 chunks)) as [Hdesc Ho _].
  { apply assembler_new_wf in Ha; [|done]. clear Hf. revert a0 Ha.
    induction chunks as [|c chunks IH]; intros a0 Ha; [done|]. cbn [foldl]. apply IH.
    unfold offer. destruct (assembler_push a0 c) as [a'| |] eqn:Hp; [|done..].
    by eapply push_wf. }
  apply finish_Ok in Hf as (-> & Hn & Hdig). rewrite Hdesc in *. split; [lia|done].
Qed.

(** ** Concrete instances

    A digest of the documented length: the SHA-256 of Hash.v. *)
#[local] Instance sha2_sample : Sha2 := {| sha2_digest := sha256; sha2_length := sha256_digest |}.
Definition sample_bytes : bytes := string_bytes "trusted".

Lemma artifact_transfer_witness :
  ∃ s chunks, ArtifactSender_new 8 "result.txt" sample_bytes 4 = Ok s ∧
    sender_chunks (length sample_bytes) s = Some (Ok chunks) ∧ len chunks = 2.
Proof.
  destruct (ArtifactSender_new 8 "result.txt" sample_bytes 4) as [s|e|] eqn:Hs;
    [|vm_compute in Hs; discriminate..].
  destruct (artifact_transfer 8 "result.txt" sample_bytes 4 s ltac:(lia) ltac:(by vm_compute) Hs)
    as (chunks & a0 & a & Hc & _).
  exists s, chunks. split; [done|]. split; [done|].
  vm_compute in Hs. injection Hs as <-. vm_compute in Hc. by injection Hc as <-.
Defined.

Lemma assembler_authentic_witness :
  ∃ d a0, ArtifactAssembler_new d = Ok a0 ∧
    assembler_finish (foldl offer a0 [mkChunk 8 0 (take 4 sample_bytes); mkChunk 8 0 [];
                                      mkChunk 8 4 (drop 4 sample_bytes)]) = Ok sample_bytes ∧
    sha2_digest sample_bytes = ad_sha256 d.
Proof.
  set (d := mkArtifact 8 "result.txt" 7 (sha2_digest sample_bytes) 4).
  destruct (ArtifactAssembler_new d) as [a0|e|] eqn:Ha; [|vm_compute in Ha; discriminate..].
  exists d, a0. split; [done|].
  assert (assembler_finish (foldl offer a0 [mkChunk 8 0 (take 4 sample_bytes); mkChunk 8 0 [];
            mkChunk 8 4 (drop 4 sample_bytes)]) = Ok sample_bytes) as Hf.
  { vm_compute in Ha. injection Ha as <-. vm_compute. reflexivity. }
  split; [done|]. exact (proj2 (assembler_authentic d a0 _ sample_bytes ltac:(by vm_compute) Ha Hf)).
Defined.
End Artifact.
