(* ===== verification/Effects.v ===== *)
(** Stateful code whose state outlives an error.

    A method on [&mut self] that returns [Result] keeps the mutations it made
    before an [Err]: [op S E A] is a function from the state to the state it
    leaves and the outcome, and [do!] is the [?] operator on it. *)
From S2P Require Import Prelude.

Definition op (S E A : Type) : Type := S → S * result E A.

Definition op_ret {S E A} (a : A) : op S E A := λ s, (s, Ok a).
Definition op_err {S E A} (e : E) : op S E A := λ s, (s, Err e).
Definition op_lift {S E A} (r : result E A) : op S E A := λ s, (s, r).
Definition op_bind {S E A B} (m : op S E A) (k : A → op S E B) : op S E B :=
  λ s, let '(s', r) := m s in
       match r with
       | Ok a => k a s'
       | Err e => (s', Err e)
       | Panic => (s', Panic)
       end.

Notation "'do!' x ':=' m 'in' k" := (op_bind m (λ x, k))
  (at level 10, x name, m at level 100, k at level 200,
   format "'[v' 'do!'  x  ':='  m  'in' '/' k ']'") : ntd_scope.
Notation "'do!' ' p ':=' m 'in' k" := (op_bind m (λ p, k))
  (at level 10, p strict pattern, m at level 100, k at level 200) : ntd_scope.

(** A read of the state that can fail. *)
Definition op_gets {S E A} (f : S → result E A) : op S E A := λ s, (s, f s).

(** A loop [for x in xs { body(x)? }] over a stateful body. *)
Fixpoint op_each {S E A} (f : A → op S E unit) (l : list A) : op S E unit :=
  match l with
  | [] => op_ret tt
  | x :: l' => do! _ := f x in op_each f l'
  end.

(** Run an operation on the first half of the state. *)
Definition on_fst {S T E A} (m : op S E A) : op (S * T) E A :=
  λ s, let '(s1, r) := m s.1 in ((s1, s.2), r).

Section op_lemmas.
Context {S E : Type}.

Lemma op_bind_ok {A B} (m : op S E A) (k : A → op S E B) s s' a :
  m s = (s', Ok a) → op_bind m k s = k a s'.
Proof. intros Hm. unfold op_bind. by rewrite Hm. Qed.

(** What a sequence leaves is what its first part left, or what the rest
    made of it. *)
Lemma op_bind_inv {A B} (m : op S E A) (k : A → op S E B) s s' r :
  op_bind m k s = (s', r) →
  (∃ s1 a, m s = (s1, Ok a) ∧ k a s1 = (s', r)) ∨
  (∃ e, m s = (s', Err e) ∧ r = Err e) ∨
  (m s = (s', Panic) ∧ r = Panic).
Proof. unfold op_bind. destruct (m s) as [s1 [a|e|]]; naive_solver. Qed.

(** [P] holds of the state on every outcome of [m]. *)
Lemma op_each_inv {A} (P : S → Prop) (f : A → op S E unit) l s s' r :
  P s → (∀ s s' x r, P s → x ∈ l → f x s = (s', r) → P s') →
  op_each f l s = (s', r) → P s'.
Proof.
  revert s. induction l as [|x l IH]; intros s Hs Hf; simpl; [by intros [= <- _]|].
  intros [(s1 & a & Hx & Hl)|[(e & Hx & _)|[Hx _]]]%op_bind_inv.
  - refine (IH s1 _ _ Hl); [by apply (Hf _ _ _ _ Hs (list_elem_of_here _ _) Hx)|].
    intros ???? Hs1 Hin. apply Hf; [done|by right].
  - by apply (Hf _ _ _ _ Hs (list_elem_of_here _ _) Hx).
  - by apply (Hf _ _ _ _ Hs (list_elem_of_here _ _) Hx).
Qed.
End op_lemmas.

Lemma on_fst_ok {S T E A} (m : op S E A) (s s' : S) (t : T) r :
  m s = (s', r) → on_fst m (s, t) = ((s', t), r).
Proof. intros Hm. unfold on_fst. simpl. by rewrite Hm. Qed.

(** ** Triples

    [triple P m Q T]: from a state in [P], [m] either returns some [a] and leaves
    a state in [Q a], or fails (or panics) and leaves one in [T].  An invariant
    is the case [P = Q a = T], [maintains]. *)
Definition triple {S E A} (P : S → Prop) (m : op S E A) (Q : A → S → Prop) (T : S → Prop)
  : Prop :=
  ∀ s, P s → match m s with (s', Ok a) => Q a s' | (s', _) => T s' end.
Definition maintains {S E A} (P : S → Prop) (m : op S E A) : Prop :=
  triple P m (λ _, P) P.

Section triples.
Context {S E : Type}.
Implicit Types P T : S → Prop.

Lemma triple_ret {A} P (a : A) (Q : A → S → Prop) T :
  (∀ s, P s → Q a s) → triple (E:=E) P (op_ret a) Q T.
Proof. by intros H s Hs; apply H. Qed.
Lemma triple_err {A} P (e : E) (Q : A → S → Prop) T :
  (∀ s, P s → T s) → triple P (op_err e) Q T.
Proof. by intros H s Hs; apply H. Qed.
Lemma triple_gets {A} P (f : S → result E A) T :
  (∀ s, P s → T s) → triple P (op_gets f) (λ a s, P s ∧ f s = Ok a) T.
Proof. intros H s Hs. unfold op_gets. destruct (f s) eqn:?; auto. Qed.
Lemma triple_bind {A B} P (m : op S E A) (k : A → op S E B) Q R T :
  triple P m Q T → (∀ a, triple (Q a) (k a) R T) → triple P (op_bind m k) R T.
Proof.
  intros Hm Hk s Hs. specialize (Hm s Hs). unfold op_bind.
  destruct (m s) as [s' [a|e|]]; [by apply Hk|done..].
Qed.
Lemma triple_weaken {A} P P' (m : op S E A) (Q Q' : A → S → Prop) T T' :
  triple P m Q T → (∀ s, P' s → P s) → (∀ a s, Q a s → Q' a s) → (∀ s, T s → T' s) →
  triple P' m Q' T'.
Proof.
  intros Hm HP HQ HT s Hs. specialize (Hm s (HP s Hs)).
  destruct (m s) as [s' [a|e|]]; auto.
Qed.
Lemma triple_and {A} P P' (m : op S E A) (Q Q' : A → S → Prop) T T' :
  triple P m Q T → triple P' m Q' T' →
  triple (λ s, P s ∧ P' s) m (λ a s, Q a s ∧ Q' a s) (λ s, T s ∧ T' s).
Proof.
  intros H1 H2 s [Hs Hs']. specialize (H1 s Hs). specialize (H2 s Hs').
  destruct (m s) as [s' [a|e|]]; auto.
Qed.
Lemma triple_pure {A} (φ : Prop) P (m : op S E A) Q T :
  (φ → triple P m Q T) → triple (λ s, P s ∧ φ) m Q T.
Proof. intros H s [Hs Hφ]. by apply H. Qed.
Lemma triple_state {A} P (m : op S E A) Q T :
  (∀ s0, P s0 → triple (λ s, s = s0) m Q T) → triple P m Q T.
Proof. intros H s Hs. by apply (H s Hs). Qed.

Lemma maintains_bind {A B} P (m : op S E A) (k : A → op S E B) :
  maintains P m → (∀ a, maintains P (k a)) → maintains P (op_bind m k).
Proof. intros Hm Hk. by eapply triple_bind. Qed.
Lemma maintains_ret {A} P (a : A) : maintains (E:=E) P (op_ret a).
Proof. by apply triple_ret. Qed.
Lemma maintains_err {A} P (e : E) : maintains (A:=A) P (op_err e).
Proof. by apply triple_err. Qed.
Lemma maintains_gets {A} P (f : S → result E A) : maintains P (op_gets f).
Proof. eapply triple_weaken; [by apply triple_gets|..]; naive_solver. Qed.
Lemma maintains_if {A} P (b : bool) (m1 m2 : op S E A) :
  maintains P m1 → maintains P m2 → maintains P (if b then m1 else m2).
Proof. by destruct b. Qed.

(** From a triple to the run it describes. *)
Lemma triple_run {A} P (m : op S E A) Q T s :
  triple P m Q T → P s →
  (∃ s' a, m s = (s', Ok a) ∧ Q a s') ∨ (T (m s).1 ∧ ¬ is_ok (m s).2).
Proof.
  intros Hm Hs. specialize (Hm s Hs). destruct (m s) as [s' [a|e|]]; [left; eauto|right..]; auto.
Qed.
Lemma maintains_fst {A} P (m : op S E A) s : maintains P m → P s → P (m s).1.
Proof. intros Hm Hs. specialize (Hm s Hs). by destruct (m s) as [s' [a|e|]]. Qed.
End triples.

Create HintDb maintains discriminated.
#[export] Hint Constants Opaque : maintains.
#[export] Hint Resolve maintains_ret maintains_err maintains_gets : maintains.

(** Discharge [maintains P m] for an operation built from the combinators. *)
Ltac solve_maintains :=
  repeat first
    [ progress intros
    | apply maintains_bind | apply maintains_if
    | solve [eauto with maintains nocore]
    | case_match ].
