(* ===== verification/Memory.v ===== *)
(** The sovereign memory: src/crates/ntd-runtime/src/memory.rs.

    [SovereignMemory] is a table of records with an id counter.  [store],
    [forget] and [retrieve] are the operations that change it; [from_parts]
    rebuilds one from a checkpoint and accepts exactly the well-formed ones
    ([mem_wf]), which the operations keep.  [retrieve] is specified by what it
    returns (the best matches, in rank order) and by what it changes (the
    recall statistics of those, nothing else). *)
From S2P Require Import Prelude Text Chars Collections Effects.

Module Memory.

Inductive MemoryKind := Episodic | Semantic | Procedural.
#[export] Instance MemoryKind_eq_dec : EqDecision MemoryKind.
Proof. solve_decision. Defined.

Inductive MemoryError :=
| EmptyContent
| InvalidImportance (importance : Z)
| InvalidKind (kind : Z)
| Overflow.
#[export] Instance MemoryError_eq_dec : EqDecision MemoryError.
Proof. solve_decision. Defined.

(** The enum's [repr(u8)] discriminants and [TryFrom<u8>]. *)
Definition MemoryKind_repr (k : MemoryKind) : Z :=
  match k with Episodic => 1 | Semantic => 2 | Procedural => 3 end.
Definition MemoryKind_try_from (value : Z) : result MemoryError MemoryKind :=
  if value =? 1 then Ok Episodic
  else if value =? 2 then Ok Semantic
  else if value =? 3 then Ok Procedural
  else Err (InvalidKind value).

Record MemoryRecord := mkMemoryRecord {
  mr_id : Z;
  mr_kind : MemoryKind;
  mr_content : string;
  mr_tags : list string;
  mr_importance : Z;
  mr_created_tick : Z;
  mr_last_recalled_tick : Z;
  mr_recall_count : Z;
}.
#[export] Instance MemoryRecord_eq_dec : EqDecision MemoryRecord.
Proof. solve_decision. Defined.

Record MemoryQuery := mkMemoryQuery {
  mq_text : string;
  mq_kinds : list MemoryKind;
  mq_tags : list string;
  mq_limit : Z;
}.

Definition MemoryQuery_new (text : string) : MemoryQuery :=
  {| mq_text := text; mq_kinds := []; mq_tags := []; mq_limit := 8 |}.

Record MemoryHit := mkMemoryHit { mh_id : Z; mh_score : Z; mh_record : MemoryRecord }.

Record SovereignMemory := mkMemory {
  mem_next_id : Z;
  mem_records : gmap Z MemoryRecord;
}.
#[export] Instance SovereignMemory_eq_dec : EqDecision SovereignMemory.
Proof. solve_decision. Defined.

Definition mem_new : SovereignMemory := {| mem_next_id := 1; mem_records := ∅ |}.

(** ** Restoring *)
Definition record_ok (id : Z) (r : MemoryRecord) : bool :=
  negb ((id =? 0) || negb (id =? mr_id r) || is_blank (mr_content r)
        || (1000 <? mr_importance r) || negb (strictly_ascending (mr_tags r))).

Definition from_parts (next_id : Z) (records : gmap Z MemoryRecord)
  : result MemoryError SovereignMemory :=
  if next_id =? 0 then Err Overflow else
  let? _ := check_all (λ '(id, r), if record_ok id r then Ok tt else Err Overflow)
              (btree_iter records) in
  let? _ := match btree_last_key records with
            | Some max_id => if next_id <=? max_id then Err Overflow else Ok tt
            | None => Ok tt
            end in
  Ok {| mem_next_id := next_id; mem_records := records |}.

Definition mem_len (m : SovereignMemory) : Z := Z.of_nat (size (mem_records m)).
Definition mem_get (m : SovereignMemory) (id : Z) : option MemoryRecord :=
  mem_records m !! id.

(** ** Storing *)
Definition mem_op := op SovereignMemory MemoryError.

Definition store (kind : MemoryKind) (content : string) (tags : list string)
    (importance tick : Z) : mem_op Z := λ m,
  if is_blank content then (m, Err EmptyContent)
  else if 1000 <? importance then (m, Err (InvalidImportance importance))
  else
    let id := mem_next_id m in
    match checked_add_u64 id 1 with
    | None => (m, Err Overflow)
    | Some next =>
        ({| mem_next_id := next;
            mem_records := <[id := {| mr_id := id; mr_kind := kind; mr_content := content;
                                      mr_tags := dedup (sort tags);
                                      mr_importance := importance;
                                      mr_created_tick := tick;
                                      mr_last_recalled_tick := tick;
                                      mr_recall_count := 0 |}]> (mem_records m) |},
         Ok id)
    end.

Definition forget (id : Z) (m : SovereignMemory) : SovereignMemory * bool :=
  ({| mem_next_id := mem_next_id m; mem_records := delete id (mem_records m) |},
   bool_decide (is_Some (mem_records m !! id))).

(** ** Scoring *)
Section scoring.
Context `{UnicodeTables}.

Definition normalized_term (term : list bytes) : string :=
  to_ascii_lowercase (chars_string (trim_matches (λ ch, negb (is_alphanumeric ch)) term)).
Definition normalized_terms (text : string) : gset string :=
  list_to_set (filter (λ term, term ≠ EmptyString)
                 (map normalized_term (split_whitespace text))).

Definition lower_set (tags : list string) : gset string :=
  list_to_set (map to_ascii_lowercase tags).

Definition count (s : gset string) : Z := Z.of_nat (size s).

Definition score_record (r : MemoryRecord) (query_terms query_tags : gset string)
  : option Z :=
  let content_terms := normalized_terms (mr_content r) in
  let term_matches := count (query_terms ∩ content_terms) in
  let record_tags := lower_set (mr_tags r) in
  let tag_matches := count (query_tags ∩ record_tags) in
  let has_query := negb (bool_decide (query_terms = ∅)) || negb (bool_decide (query_tags = ∅)) in
  if has_query && (term_matches =? 0) && (tag_matches =? 0) then None
  else Some (saturating_add_u64
               (saturating_add_u64
                  (saturating_add_u64 (saturating_mul_u64 term_matches 1000)
                     (saturating_mul_u64 tag_matches 500))
                  (mr_importance r))
               (Z.min (mr_recall_count r) 100)).

(** ** Retrieving *)

(** The closure of [sort_by]: descending score, then ascending id. *)
Definition rank_le (l r : Z * Z) : Prop := r.2 < l.2 ∨ (l.2 = r.2 ∧ l.1 ≤ r.1).
#[export] Instance rank_le_dec : RelDecision rank_le.
Proof. intros l r. unfold rank_le. apply _. Defined.

Definition kind_matches (q : MemoryQuery) (r : MemoryRecord) : bool :=
  bool_decide (mq_kinds q = []) || bool_decide (mr_kind r ∈ mq_kinds q).

(** The filters of the iterator chain on one record. *)
Definition query_score (q : MemoryQuery) (r : MemoryRecord) : option Z :=
  if kind_matches q r
  then score_record r (normalized_terms (mq_text q)) (lower_set (mq_tags q))
  else None.

Definition matches (q : MemoryQuery) (records : gmap Z MemoryRecord) : list (Z * Z) :=
  omap (λ r, score ← query_score q r; Some (mr_id r, score)) (btree_values records).

Definition ranked (q : MemoryQuery) (records : gmap Z MemoryRecord) : list (Z * Z) :=
  take (Z.to_nat (mq_limit q)) (merge_sort rank_le (matches q records)).

Definition recalled (tick : Z) (r : MemoryRecord) : MemoryRecord :=
  {| mr_id := mr_id r; mr_kind := mr_kind r; mr_content := mr_content r;
     mr_tags := mr_tags r; mr_importance := mr_importance r;
     mr_created_tick := mr_created_tick r;
     mr_last_recalled_tick := tick;
     mr_recall_count := saturating_add_u32 (mr_recall_count r) 1 |}.

Definition recall_one (tick : Z) (p : Z * Z) : mem_op MemoryHit := λ m,
  match mem_records m !! p.1 with
  | None => (m, Err Overflow)
  | Some r =>
      let r' := recalled tick r in
      ({| mem_next_id := mem_next_id m; mem_records := <[p.1 := r']> (mem_records m) |},
       Ok {| mh_id := p.1; mh_score := p.2; mh_record := r' |})
  end.

Fixpoint recall_all (tick : Z) (l : list (Z * Z)) : mem_op (list MemoryHit) :=
  match l with
  | [] => op_ret []
  | p :: l' =>
      do! hit := recall_one tick p in
      do! hits := recall_all tick l' in
      op_ret (hit :: hits)
  end.

Definition retrieve (q : MemoryQuery) (tick : Z) : mem_op (list MemoryHit) := λ m,
  if mq_limit q =? 0 then (m, Ok [])
  else recall_all tick (ranked q (mem_records m)) m.
End scoring.

(** ** Well-formedness *)

(** The ranges of the Rust types. *)
Definition record_typed (r : MemoryRecord) : Prop :=
  in_u64 (mr_id r) ∧ in_u16 (mr_importance r) ∧ in_u64 (mr_created_tick r) ∧
  in_u64 (mr_last_recalled_tick r) ∧ in_u32 (mr_recall_count r).
Definition mem_typed (m : SovereignMemory) : Prop :=
  in_u64 (mem_next_id m) ∧
  map_Forall (λ id r, in_u64 id ∧ record_typed r) (mem_records m).

Definition record_wf (id : Z) (r : MemoryRecord) : Prop :=
  id ≠ 0 ∧ mr_id r = id ∧ is_blank (mr_content r) = false ∧ mr_importance r ≤ 1000 ∧
  strictly_ascending (mr_tags r) = true.
Definition mem_wf (m : SovereignMemory) : Prop :=
  0 < mem_next_id m ∧
  map_Forall (λ id r, record_wf id r ∧ id < mem_next_id m) (mem_records m).

Definition rank_lt (l r : Z * Z) : Prop := r.2 < l.2 ∨ (l.2 = r.2 ∧ l.1 < r.1).
Definition hit_rank (h : MemoryHit) : Z * Z := (mh_id h, mh_score h).

(** Every change the three mutating methods make, on any outcome. *)
Inductive mem_step `{UnicodeTables} (m : SovereignMemory) : SovereignMemory → Prop :=
| step_store kind content tags importance tick :
    in_u16 importance → in_u64 tick →
    mem_step m (store kind content tags importance tick m).1
| step_forget id : mem_step m (forget id m).1
| step_retrieve q tick :
    in_u64 tick → in_usize (mq_limit q) → mem_step m (retrieve q tick m).1.

Section lemmas.
Context `{UnicodeTables}.

Lemma record_ok_wf id r : record_ok id r = true ↔ record_wf id r.
Proof.
  unfold record_ok, record_wf.
  rewrite negb_true_iff, !orb_false_iff, !negb_false_iff, Z.eqb_neq, Z.eqb_eq, Z.ltb_ge.
  intuition.
Qed.

Lemma from_parts_Ok next_id records m :
  0 ≤ next_id →
  from_parts next_id records = Ok m ↔
  m = {| mem_next_id := next_id; mem_records := records |} ∧ mem_wf m.
Proof.
  intros Hpos. unfold from_parts, mem_wf. destruct (Z.eqb_spec next_id 0) as [->|Hn].
  { split; [done|]. by intros (-> & ? & _). }
  assert (0 < next_id) by lia.
  destruct (check_all _ _) as [[]|e|] eqn:Hc.
  - apply check_all_Ok in Hc.
    assert (∀ id r, records !! id = Some r → record_wf id r) as Hwf.
    { intros id r Hr. apply elem_of_btree_iter in Hr. rewrite Forall_forall in Hc.
      specialize (Hc _ Hr). simpl in Hc. apply record_ok_wf. by destruct (record_ok id r). }
    destruct (btree_last_key records) as [k|] eqn:Hk.
    + destruct (Z.leb_spec next_id k) as [Hle|Hlt].
      * split; [done|]. intros (-> & _ & Hall). apply btree_last_key_elem in Hk as [r Hr].
        destruct (Hall k r Hr) as [_ Hk]. simpl in Hk. lia.
      * split; [|by intros [-> _]]. intros [= <-]. split_and!; [done..|].
        intros id r Hr. split; [by apply Hwf|]. simpl.
        destruct (btree_last_key_max _ _ _ Hr) as (k' & Hk' & Hle).
        cbn [mem_records] in Hk'. rewrite Hk in Hk'. injection Hk' as <-.
        destruct Hle as [->|Hle]; [lia|]. change (id ≤ k) in Hle. lia.
    + split; [|by intros [-> _]]. intros [= <-]. split_and!; [done..|].
      intros id r Hr. destruct (btree_last_key_max _ _ _ Hr) as (k' & Hk' & _).
      cbn [mem_records] in Hk'. congruence.
  - split; [done|]. intros (-> & _ & Hall).
    assert (check_all (λ '(id, r), if record_ok id r then Ok tt else Err Overflow)
              (btree_iter records) = Ok tt) as Hc'; [|congruence].
    apply check_all_Ok, Forall_forall. intros [id r] Hin. apply elem_of_btree_iter in Hin.
    destruct (Hall id r Hin) as [Hr _]. by apply record_ok_wf in Hr as ->.
  - exfalso. revert Hc. apply check_all_no_panic. intros [id r] _. by destruct (record_ok id r).
Qed.

Lemma mem_new_wf : mem_wf mem_new ∧ mem_typed mem_new.
Proof. split; (split; [done|apply map_Forall_empty]). Qed.

Lemma store_wf kind content tags importance tick m :
  mem_wf m → mem_wf (store kind content tags importance tick m).1.
Proof.
  intros [Hn Hwf]. unfold store.
  destruct (is_blank content) eqn:Hb; [done|].
  destruct (Z.ltb_spec 1000 importance) as [_|Himp]; [done|].
  unfold checked_add_u64. destruct (Z.ltb_spec (mem_next_id m + 1) (2 ^ 64)); [|done].
  split; cbn [mem_records mem_next_id fst]; [lia|]. apply map_Forall_insert_2.
  - split; [|lia]. unfold record_wf. cbn. split_and!; try done; [lia|].
    apply dedup_strict, sort_sorted.
  - intros id x Hx. destruct (Hwf id x Hx) as [? ?]. split; [done|lia].
Qed.

Lemma store_typed kind content tags importance tick m :
  mem_typed m → in_u16 importance → in_u64 tick →
  mem_typed (store kind content tags importance tick m).1.
Proof.
  intros [Hnt Hty] Hi Ht. unfold store. destruct (is_blank content); [done|].
  destruct (1000 <? importance); [done|].
  unfold checked_add_u64. destruct (Z.ltb_spec (mem_next_id m + 1) (2 ^ 64)); [|done].
  split; cbn [mem_records mem_next_id fst]; [unfold in_u64 in *; lia|].
  apply map_Forall_insert_2; [|done].
  unfold record_typed. cbn. unfold in_u32. split_and!; try done; lia.
Qed.

Lemma forget_wf id m : mem_wf m → mem_wf (forget id m).1.
Proof. intros [Hn Hwf]. split; [done|]. by apply map_Forall_delete. Qed.
Lemma forget_typed id m : mem_typed m → mem_typed (forget id m).1.
Proof. intros [Hn Hwf]. split; [done|]. by apply map_Forall_delete. Qed.

Lemma recalled_wf tick id r : record_wf id r → record_wf id (recalled tick r).
Proof. done. Qed.
Lemma recalled_typed tick r : in_u64 tick → record_typed r → record_typed (recalled tick r).
Proof.
  intros Ht (?&?&?&?&Hc). unfold record_typed. cbn. split_and!; try done.
  all: unfold in_u32, saturating_add_u32 in *; lia.
Qed.

(** The recall loop succeeds on distinct ids of the table, and touches those
    records only. *)
Lemma recall_all_spec tick l m :
  NoDup (map fst l) → (∀ id, id ∈ map fst l → is_Some (mem_records m !! id)) →
  ∃ m' hits, recall_all tick l m = (m', Ok hits) ∧ map hit_rank hits = l ∧
    mem_next_id m' = mem_next_id m ∧
    (∀ h, h ∈ hits →
       ∃ r, mem_records m !! mh_id h = Some r ∧ mh_record h = recalled tick r) ∧
    ∀ id, mem_records m' !! id =
      if decide (id ∈ map fst l) then recalled tick <$> mem_records m !! id
      else mem_records m !! id.
Proof.
  revert m. induction l as [|[id score] l IH]; intros m Hnd Hin.
  { exists m, []. split_and!; [done..|by intros h ?%elem_of_nil|].
    intros i. by rewrite decide_False by (simpl; by intros ?%elem_of_nil). }
  cbn [map fst] in Hnd, Hin. apply NoDup_cons in Hnd as [Hni Hnd].
  destruct (Hin id (list_elem_of_here _ _)) as [r Hr].
  set (m1 := {| mem_next_id := mem_next_id m;
                mem_records := <[id := recalled tick r]> (mem_records m) |}).
  destruct (IH m1 Hnd) as (m' & hits & Hrec & Hmap & Hnext & Hhits & Hlook).
  { intros i Hi. cbn. rewrite lookup_insert_ne by (intros ->; done). apply Hin. by right. }
  exists m', ({| mh_id := id; mh_score := score; mh_record := recalled tick r |} :: hits).
  split_and!.
  - cbn [recall_all]. rewrite (op_bind_ok _ _ m m1 {| mh_id := id; mh_score := score; mh_record := recalled tick r |})
      by (unfold recall_one; cbn; by rewrite Hr).
    by rewrite (op_bind_ok _ _ _ _ _ Hrec).
  - cbn. by rewrite Hmap.
  - done.
  - intros h [->|Hh]%elem_of_cons; [by exists r|].
    destruct (Hhits h Hh) as (r' & Hr' & Hrec'). exists r'. split; [|done].
    cbn in Hr'. rewrite lookup_insert_ne in Hr'; [done|]. intros ->. apply Hni.
    rewrite <- Hmap. apply list_elem_of_fmap. exists (hit_rank h). split; [done|].
    apply list_elem_of_fmap. by exists h.
  - intros i. rewrite Hlook. cbn [map fst mem_records m1].
    destruct (decide (i = id)) as [->|Hne].
    + rewrite decide_False by done. rewrite decide_True by (by left).
      by rewrite lookup_insert_eq, Hr.
    + rewrite lookup_insert_ne by done. destruct (decide (i ∈ map fst l)) as [Hil|Hil].
      * by rewrite decide_True by (by right).
      * by rewrite decide_False by (by intros [?|?]%elem_of_cons).
Qed.

(** The ranking relation. *)
#[export] Instance rank_le_total : Total rank_le.
Proof. intros [i s] [j t]. unfold rank_le. cbn. lia. Qed.
#[export] Instance rank_le_trans : Transitive rank_le.
Proof. intros [i s] [j t] [k u]. unfold rank_le. cbn. lia. Qed.

Lemma rank_le_lt p q : rank_le p q → p ≠ q → rank_lt p q.
Proof.
  destruct p as [i s], q as [j t]. unfold rank_le, rank_lt. cbn. intros Hle Hne.
  destruct (Z.eq_dec s t) as [->|]; [|lia]. destruct (Z.eq_dec i j) as [->|]; [done|lia].
Qed.

Lemma elem_of_matches q records id score :
  map_Forall (λ id r, mr_id r = id) records →
  (id, score) ∈ matches q records ↔
  ∃ r, records !! id = Some r ∧ query_score q r = Some score.
Proof.
  intros Hids. unfold matches. rewrite list_elem_of_omap. split.
  - intros (r & [k Hr]%elem_of_btree_values & Hs).
    destruct (query_score q r) as [s|] eqn:Hq; [|done]. simplify_eq/=.
    exists r. split; [|done]. by rewrite (Hids _ _ Hr).
  - intros (r & Hr & Hq). exists r. split; [apply elem_of_btree_values; by exists id|].
    by rewrite Hq, (Hids _ _ Hr).
Qed.

Lemma matches_fst_NoDup q records :
  map_Forall (λ id r, mr_id r = id) records → NoDup (map fst (matches q records)).
Proof.
  intros Hids. unfold matches, btree_values.
  assert (NoDup (map fst (btree_iter records))) as Hnd by apply btree_keys_NoDup.
  assert (∀ p, p ∈ btree_iter records → mr_id p.2 = p.1) as Hp.
  { intros [id r] Hin. apply elem_of_btree_iter in Hin. by apply Hids. }
  induction (btree_iter records) as [|[id r] l IH]; [constructor|].
  cbn [map fst snd] in *. apply NoDup_cons in Hnd as [Hni Hnd].
  specialize (IH Hnd (λ p Hin, Hp p (list_elem_of_further _ _ _ Hin))).
  cbn [omap list_omap]. destruct (query_score q r) as [s|]; cbn; [|done].
  apply NoDup_cons. split; [|done].
  pose proof (Hp (id, r) (list_elem_of_here _ _)) as Hid. cbn in Hid. rewrite Hid.
  intros ([i s'] & -> & (r' & Hr' & Hs)%list_elem_of_omap)%list_elem_of_fmap.
  apply list_elem_of_fmap in Hr' as ([j r''] & -> & Hin). cbn in *.
  destruct (query_score q r''); simplify_eq/=. apply Hni.
  pose proof (Hp (j, r'') (list_elem_of_further _ _ _ Hin)) as Hj. cbn in Hj.
  apply list_elem_of_fmap. exists (j, r''). cbn. split; [congruence|done].
Qed.

Lemma NoDup_take {A} n (l : list A) : NoDup l → NoDup (take n l).
Proof. intros Hl. rewrite <- (take_drop n l) in Hl. by apply NoDup_app in Hl as []. Qed.

Lemma elem_of_take_l {A} n (l : list A) x : x ∈ take n l → x ∈ l.
Proof. intros Hx. rewrite <- (take_drop n l). apply elem_of_app. by left. Qed.

Lemma StronglySorted_app_inv {A} (R : relation A) l k :
  StronglySorted R (l ++ k) → StronglySorted R l ∧ ∀ x y, x ∈ l → y ∈ k → R x y.
Proof.
  induction l as [|a l IH]; simpl; [intros; split; [constructor|by intros ?? ?%elem_of_nil]|].
  intros Hs. inversion_clear Hs as [|? ? Hs' Hall]. destruct (IH Hs') as [Hl Hlk].
  rewrite Forall_app in Hall. destruct Hall as [Hal Hak]. split; [by constructor|].
  intros x y [->|Hx]%elem_of_cons Hy; [|by apply Hlk].
  rewrite Forall_forall in Hak. by apply Hak.
Qed.

(** The first [limit] of the ranking: strictly ordered matches, and what is
    left out comes after a full page of better ones. *)
Lemma ranked_spec q records :
  map_Forall (λ id r, mr_id r = id) records →
  let l := ranked q records in
  NoDup (map fst l) ∧ StronglySorted rank_lt l ∧
  (∀ p, p ∈ l → p ∈ matches q records) ∧ (length l ≤ Z.to_nat (mq_limit q))%nat ∧
  ∀ p, p ∈ matches q records → p ∉ l →
    length l = Z.to_nat (mq_limit q) ∧ ∀ p', p' ∈ l → rank_lt p' p.
Proof.
  intros Hids. unfold ranked. set (n := Z.to_nat (mq_limit q)).
  set (k := merge_sort rank_le (matches q records)).
  assert (k ≡ₚ matches q records) as Hperm by apply merge_sort_Permutation.
  assert (StronglySorted rank_le k) as Hsort
    by (apply Sorted_StronglySorted; [apply _|apply Sorted_merge_sort; apply _]).
  assert (NoDup (map fst k)) as Hnd.
  { rewrite Hperm. by apply matches_fst_NoDup. }
  assert (∀ x, x ∈ k ↔ x ∈ matches q records) as Hel by (intros x; by rewrite Hperm).
  clearbody k. rewrite <- (take_drop n k) in Hsort, Hnd.
  apply StronglySorted_app_inv in Hsort as [Hs Hlt].
  rewrite map_app in Hnd. apply NoDup_app in Hnd as (Hnd & Hdis & _).
  assert (∀ x y, x ∈ take n k → y ∈ drop n k → rank_lt x y) as Hlt'.
  { intros x y Hx Hy. apply rank_le_lt; [by apply Hlt|]. intros ->.
    apply (Hdis y.1); by apply list_elem_of_fmap_2. }
  split_and!.
  - done.
  - clear Hlt Hdis Hlt'. induction Hs as [|x l Hs IH Hall]; [constructor|].
    cbn in Hnd. apply NoDup_cons in Hnd as [Hni Hnd]. constructor; [by apply IH|].
    rewrite Forall_forall in Hall |- *. intros y Hy. apply rank_le_lt; [by apply Hall|].
    intros ->. apply Hni. by apply list_elem_of_fmap_2.
  - intros p Hp. apply Hel. by eapply elem_of_take_l.
  - rewrite length_take. lia.
  - intros p Hp Hnp. apply Hel in Hp. rewrite <- (take_drop n k) in Hp.
    apply elem_of_app in Hp as [?|Hp]; [done|]. split; [|intros; by apply Hlt'].
    rewrite length_take. assert (0 < length (drop n k))%nat as Hd
      by (destruct (drop n k); [by apply elem_of_nil in Hp|simpl; lia]).
    rewrite length_drop in Hd. lia.
Qed.

Lemma mem_wf_ids m : mem_wf m → map_Forall (λ id r, mr_id r = id) (mem_records m).
Proof. intros [_ Hall] id r Hr. by destruct (Hall id r Hr) as [(?&?&?) _]. Qed.

Lemma retrieve_ranked q tick m :
  mem_wf m →
  ∃ m' hits, retrieve q tick m = (m', Ok hits) ∧
    map hit_rank hits = ranked q (mem_records m) ∧
    mem_next_id m' = mem_next_id m ∧
    (∀ h, h ∈ hits →
       ∃ r, mem_records m !! mh_id h = Some r ∧ mh_record h = recalled tick r) ∧
    ∀ id, mem_records m' !! id =
      if decide (id ∈ map fst (ranked q (mem_records m)))
      then recalled tick <$> mem_records m !! id else mem_records m !! id.
Proof.
  intros Hwf. pose proof (mem_wf_ids m Hwf) as Hids. unfold retrieve.
  destruct (Z.eqb_spec (mq_limit q) 0) as [Hz|Hz].
  - exists m, []. assert (ranked q (mem_records m) = []) as -> by (unfold ranked; by rewrite Hz).
    split_and!; [done..|by intros h ?%elem_of_nil|].
    intros i. by rewrite decide_False by (simpl; by intros ?%elem_of_nil).
  - pose proof (ranked_spec q _ Hids) as (Hnd & _ & Hm & _).
    apply recall_all_spec; [done|]. intros id ([i s] & -> & Hin)%list_elem_of_fmap.
    apply Hm, elem_of_matches in Hin as (r & Hr & _); [by exists r|done].
Qed.

Lemma retrieve_wf q tick m : mem_wf m → mem_wf (retrieve q tick m).1.
Proof.
  intros Hwf. destruct (retrieve_ranked q tick m Hwf) as (m' & hits & -> & _ & Hn & _ & Hl).
  cbn [fst]. destruct Hwf as [Hn0 Hwf]. unfold mem_wf. rewrite Hn.
  split; [done|]. intros id r. rewrite Hl. case_decide; [|by apply Hwf].
  destruct (mem_records m !! id) as [r0|] eqn:Hr0; [|done]. intros [= <-].
  destruct (Hwf id r0 Hr0). split; [by apply recalled_wf|done].
Qed.

Lemma retrieve_typed q tick m :
  mem_wf m → mem_typed m → in_u64 tick → mem_typed (retrieve q tick m).1.
Proof.
  intros Hwf [Hnt Hty] Ht.
  destruct (retrieve_ranked q tick m Hwf) as (m' & hits & -> & _ & Hn & _ & Hl).
  cbn [fst]. unfold mem_typed. rewrite Hn.
  split; [done|]. intros id r. rewrite Hl. case_decide; [|by apply Hty].
  destruct (mem_records m !! id) as [r0|] eqn:Hr0; [|done]. intros [= <-].
  destruct (Hty id r0 Hr0). split; [done|by apply recalled_typed].
Qed.
End lemmas.

(** ** Properties *)
Section properties.
Context `{UnicodeTables}.

(** C11: On a well-formed memory retrieve succeeds with at most the limit of hits,
    strictly ordered by rank, each with the score of its record for the query and the record
    as recalled; a matching record that is left out ranks below every hit, and only when the
    limit is reached; exactly the hits are marked as recalled. *)
Theorem retrieve_best q tick m :
  mem_wf m → 0 ≤ mq_limit q →
  ∃ m' hits, retrieve q tick m = (m', Ok hits) ∧
    StronglySorted rank_lt (map hit_rank hits) ∧
    len hits ≤ mq_limit q ∧
    (∀ h, h ∈ hits → ∃ r, mem_records m !! mh_id h = Some r ∧
       query_score q r = Some (mh_score h) ∧ mh_record h = recalled tick r) ∧
    (∀ id r score, mem_records m !! id = Some r → query_score q r = Some score →
       id ∉ map mh_id hits →
       len hits = mq_limit q ∧ ∀ h, h ∈ hits → rank_lt (hit_rank h) (id, score)) ∧
    mem_next_id m' = mem_next_id m ∧
    ∀ id, mem_records m' !! id =
      if decide (id ∈ map mh_id hits) then recalled tick <$> mem_records m !! id
      else mem_records m !! id.
Proof.
  intros Hwf Hlim. pose proof (mem_wf_ids m Hwf) as Hids.
  destruct (retrieve_ranked q tick m Hwf) as (m' & hits & Hr & Hmap & Hn & Hh & Hl).
  pose proof (ranked_spec q _ Hids) as (Hnd & Hs & Hm & Hlen & Hbest).
  assert (map mh_id hits = map fst (ranked q (mem_records m))) as Hfst
    by (rewrite <- Hmap, map_map; done).
  assert (∀ h, h ∈ hits → hit_rank h ∈ ranked q (mem_records m)) as Hin.
  { intros h Hh'. rewrite <- Hmap. by apply list_elem_of_fmap_2. }
  exists m', hits. rewrite Hmap, Hfst. split_and!; try done.
  - rewrite <- (len_fmap hit_rank), Hmap. unfold len. lia.
  - intros h Hh'. destruct (Hh h Hh') as (r & Hr1 & Hr2). exists r. split_and!; [done| |done].
    pose proof (Hm _ (Hin h Hh')) as Hq. unfold hit_rank in Hq.
    apply elem_of_matches in Hq as (r' & ? & ?); [|done]. congruence.
  - intros id r score Hr' Hq Hid.
    destruct (Hbest (id, score)) as [Hlen' Hlt].
    + apply elem_of_matches; [done|]. by exists r.
    + intros Hc. apply Hid. by apply (list_elem_of_fmap_2 fst) in Hc.
    + split; [|intros h Hh'; by apply Hlt, Hin].
      rewrite <- (len_fmap hit_rank), Hmap. unfold len. lia.
Qed.

(** Every memory reached from an empty one by storing, forgetting and retrieving is
    typed and is restored unchanged by SovereignMemory::from_parts. *)
Theorem memory_reachable_restores m :
  rtc mem_step mem_new m →
  mem_typed m ∧ from_parts (mem_next_id m) (mem_records m) = Ok m.
Proof.
  intros Hm. assert (mem_wf m ∧ mem_typed m) as [Hwf Hty].
  { revert m Hm. apply (rtc_ind_r (λ m, mem_wf m ∧ mem_typed m)); [apply mem_new_wf|].
    intros m1 m2 _ Hs [Hwf Hty]. destruct Hs as [kind content tags imp tick Hi Ht|id|q tick Ht Hl].
    - split; [by apply store_wf|by apply store_typed].
    - split; [by apply forget_wf|by apply forget_typed].
    - split; [by apply retrieve_wf|by apply retrieve_typed]. }
  split; [done|]. apply from_parts_Ok; [apply Hty|]. by destruct m.
Qed.

(** store files a new record under the next id exactly when the content is not blank,
    the importance is at most 1000 and the id counter can advance, and on each error leaves
    the memory as it was. *)
Theorem store_outcomes kind content tags importance tick m :
  mem_wf m →
  match store kind content tags importance tick m with
  | (m', Ok id) =>
      id = mem_next_id m ∧ mem_records m !! id = None ∧ mem_next_id m' = id + 1 ∧
      importance ≤ 1000 ∧ is_blank content = false ∧
      (∃ r, mem_get m' id = Some r ∧ mr_kind r = kind ∧ mr_content r = content ∧
         mr_importance r = importance ∧ mr_recall_count r = 0 ∧
         mr_created_tick r = tick ∧ mr_last_recalled_tick r = tick ∧
         strictly_ascending (mr_tags r) = true ∧ ∀ t, t ∈ mr_tags r ↔ t ∈ tags) ∧
      (∀ id', id' ≠ id → mem_get m' id' = mem_get m id') ∧ mem_len m' = mem_len m + 1
  | (m', Err EmptyContent) => m' = m ∧ is_blank content = true
  | (m', Err (InvalidImportance i)) => m' = m ∧ i = importance ∧ 1000 < importance
  | (m', Err Overflow) => m' = m ∧ 2 ^ 64 - 1 ≤ mem_next_id m
  | _ => False
  end.
Proof.
  intros [Hn Hwf]. unfold store.
  destruct (is_blank content) eqn:Hb; [done|].
  destruct (Z.ltb_spec 1000 importance) as [?|Himp]; [done|].
  unfold checked_add_u64. destruct (Z.ltb_spec (mem_next_id m + 1) (2 ^ 64)); [|split; [done|lia]].
  assert (mem_records m !! mem_next_id m = None) as Hnone.
  { destruct (mem_records m !! mem_next_id m) as [r|] eqn:Hr; [|done].
    destruct (Hwf _ _ Hr). lia. }
  split_and!; try done.
  - eexists. unfold mem_get. cbn [mem_records]. rewrite lookup_insert_eq. split; [done|].
    cbn. split_and!; try done; [apply dedup_strict, sort_sorted|].
    intros t. by rewrite dedup_elem_of, sort_perm.
  - intros id' Hne. unfold mem_get. cbn [mem_records]. by rewrite lookup_insert_ne.
  - unfold mem_len. cbn [mem_records]. rewrite map_size_insert_None by done. lia.
Qed.
End properties.

(** ** Concrete instances

    The two records of the retrieval test in the Rust file. *)
#[local] Instance ascii_tables : UnicodeTables := {| unicode_alphanumeric _ := false |}.
Definition sample_memory : SovereignMemory :=
  (store Episodic "Visited Paris during summer" ["travel"%string] 200 2
     (store Semantic "Paris is the capital of France" ["geography"%string] 600 1 mem_new).1).1.
Definition sample_query : MemoryQuery := MemoryQuery_new "capital France".

Lemma sample_memory_wf : mem_wf sample_memory.
Proof.
  assert (from_parts (mem_next_id sample_memory) (mem_records sample_memory) = Ok sample_memory)
    as Hf by (vm_compute; reflexivity).
  by apply from_parts_Ok in Hf as [_ ?]; [|vm_compute].
Qed.

Lemma retrieve_best_witness :
  ∃ m' hits, retrieve sample_query 3 sample_memory = (m', Ok hits) ∧
    map hit_rank hits = [(1, 2600)] ∧
    mem_records m' !! 1 = recalled 3 <$> mem_records sample_memory !! 1.
Proof.
  destruct (retrieve_best sample_query 3 sample_memory sample_memory_wf) as
    (m' & hits & Hr & _ & _ & _ & _ & _ & Hl); [by vm_compute|].
  exists m', hits. split; [exact Hr|]. vm_compute in Hr. injection Hr as <- <-.
  split; vm_compute; reflexivity.
Defined.

Lemma memory_reachable_restores_witness :
  from_parts (mem_next_id sample_memory) (mem_records sample_memory) = Ok sample_memory.
Proof.
  destruct (memory_reachable_restores sample_memory) as [_ Hf]; [|exact Hf].
  eapply rtc_r; [eapply rtc_once|].
  - apply (step_store _ Semantic "Paris is the capital of France" ["geography"%string] 600 1);
      by vm_compute.
  - apply (step_store _ Episodic "Visited Paris during summer" ["travel"%string] 200 2);
      by vm_compute.
Defined.

Lemma store_outcomes_witness :
  match store Procedural "verify output" ["b"; "a"; "b"]%string 1000 9 sample_memory with
  | (m', Ok id) => id = 3 ∧ mr_tags <$> mem_get m' 3 = Some ["a"; "b"]%string
  | _ => False
  end.
Proof.
  pose proof (store_outcomes Procedural "verify output" ["b"; "a"; "b"]%string 1000 9
                sample_memory sample_memory_wf) as Hs.
  destruct (store _ _ _ _ _ _) as [m' [id|e|]] eqn:Heq; vm_compute in Heq; try discriminate.
  injection Heq as <- <-. split; vm_compute; reflexivity.
Defined.
End Memory.
