(* ===== verification/Signals.v ===== *)
(** The reasoning-budget policy and the IR version gate:
    src/crates/ntd-runtime/src/lib.rs.

    An [f32] is its bit pattern. *)
From S2P Require Import Prelude Core Ir.

(** ** IEEE 754 single-precision comparison on bit patterns *)
Definition f32_is_nan (bits : Z) : bool :=
  (Z.land (Z.shiftr bits 23) 255 =? 255) && negb (Z.land bits (2 ^ 23 - 1) =? 0).

(** A non-NaN value's position on the line: sign and magnitude, both zeros at
    the same place. *)
Definition f32_key (bits : Z) : Z := if Z.testbit bits 31 then 2 ^ 31 - bits else bits.

Definition f32_lt (a b : Z) : bool :=
  negb (f32_is_nan a) && negb (f32_is_nan b) && (f32_key a <? f32_key b).
Definition f32_ge (a b : Z) : bool :=
  negb (f32_is_nan a) && negb (f32_is_nan b) && (f32_key b <=? f32_key a).

Definition f32_zero : Z := 0x00000000.
Definition f32_one : Z := 0x3f800000.
(** The literals [0.70], [0.65], [0.30] and [0.25], rounded to nearest. *)
Definition f32_0_70 : Z := 0x3f333333.
Definition f32_0_65 : Z := 0x3f266666.
Definition f32_0_30 : Z := 0x3e99999a.
Definition f32_0_25 : Z := 0x3e800000.

(** [f32::clamp(min, max)]; a NaN stays a NaN. *)
Definition f32_clamp (x lo hi : Z) : Z :=
  let x := if f32_lt x lo then lo else x in
  if f32_lt hi x then hi else x.

Record CognitiveSignals := mkSignals {
  complexity : Z;
  uncertainty : Z;
  prior_failure : bool;
}.

Definition normalized (s : CognitiveSignals) : CognitiveSignals :=
  {| complexity := f32_clamp (complexity s) f32_zero f32_one;
     uncertainty := f32_clamp (uncertainty s) f32_zero f32_one;
     prior_failure := prior_failure s |}.

Definition choose_reasoning_budget (signals : CognitiveSignals) : ReasoningBudget :=
  let s := normalized signals in
  if prior_failure s then Recovery
  else if f32_ge (complexity s) f32_0_70 || f32_ge (uncertainty s) f32_0_65 then Deep
  else if f32_ge (complexity s) f32_0_30 || f32_ge (uncertainty s) f32_0_25 then Standard
  else Reflex.

Definition accepts_ir (version : IrVersion) : bool :=
  IrVersion_can_read IrVersion_CURRENT version.

(** ** The budget is monotone in what it measures *)
Definition budget_rank (b : ReasoningBudget) : Z :=
  match b with Reflex => 0 | Standard => 1 | Deep => 2 | Recovery => 3 end.
