(* ===== verification/Cognition.v ===== *)
(** The cognitive runtime: src/crates/ntd-runtime/src/cognition.rs.

    [CognitiveState] is the whole of what a checkpoint saves: goals, tasks, world
    facts, the sovereign memory and the learned deltas.  The public operations
    change it in place, also when they fail, so each is an [op].  The planner,
    executor, verifier and delta hook are the traits of the file: classes over a
    type of their own state, which [advance] threads through. *)
From stdpp Require Import pretty.
From S2P Require Import Prelude Text Chars Collections Effects Core Memory Signals.
Import Memory.

Module Cognition.

Inductive GoalStatus := GoalActive | GoalCompleted | GoalPaused | GoalFailed.
Inductive TaskStatus := TaskPlanned | TaskRunning | TaskCompleted | TaskFailed | TaskPaused.
#[export] Instance GoalStatus_eq_dec : EqDecision GoalStatus.
Proof. solve_decision. Defined.
#[export] Instance TaskStatus_eq_dec : EqDecision TaskStatus.
Proof. solve_decision. Defined.

Inductive CognitiveError :=
| EmptyObjective
| EmptyWorldKey
| EmptyDeltaNamespace
| InvalidStepBudget
| MissingGoal (id : Z)
| MissingTask (id : Z)
| MissingDelta (id : Z)
| InvalidGoalStatus (value : Z)
| InvalidTaskStatus (value : Z)
| Planner (reason : string)
| Executor (reason : string)
| CogMemory (e : MemoryError)
| CogOverflow.

(** The enums' [repr(u8)] discriminants and [TryFrom<u8>]. *)
Definition GoalStatus_repr (s : GoalStatus) : Z :=
  match s with GoalActive => 1 | GoalCompleted => 2 | GoalPaused => 3 | GoalFailed => 4 end.
Definition GoalStatus_try_from (value : Z) : result CognitiveError GoalStatus :=
  if value =? 1 then Ok GoalActive
  else if value =? 2 then Ok GoalCompleted
  else if value =? 3 then Ok GoalPaused
  else if value =? 4 then Ok GoalFailed
  else Err (InvalidGoalStatus value).
Definition TaskStatus_repr (s : TaskStatus) : Z :=
  match s with
  | TaskPlanned => 1 | TaskRunning => 2 | TaskCompleted => 3 | TaskFailed => 4 | TaskPaused => 5
  end.
Definition TaskStatus_try_from (value : Z) : result CognitiveError TaskStatus :=
  if value =? 1 then Ok TaskPlanned
  else if value =? 2 then Ok TaskRunning
  else if value =? 3 then Ok TaskCompleted
  else if value =? 4 then Ok TaskFailed
  else if value =? 5 then Ok TaskPaused
  else Err (InvalidTaskStatus value).

Record Goal := mkGoal {
  goal_id : Z;
  goal_objective : string;
  goal_completion_criteria : list string;
  goal_status : GoalStatus;
  goal_created_tick : Z;
  goal_updated_tick : Z;
}.

Record CognitiveTask := mkTask {
  task_id : Z;
  task_goal_id : option Z;
  task_intent : Intent;
  task_graph : TaskGraph;
  task_status : TaskStatus;
  task_steps_taken : Z;
  task_verification_failures : Z;
  task_last_observation : option string;
  task_created_tick : Z;
  task_updated_tick : Z;
}.

Record WorldFact := mkFact {
  fact_key : string;
  fact_value : string;
  fact_revision : Z;
  fact_updated_tick : Z;
}.

Record LearnedDelta := mkDelta {
  delta_id : Z;
  delta_namespace : string;
  delta_generation : Z;
  delta_payload : bytes;
  delta_active : bool;
}.

(** [CognitiveIdentity] is a one-field struct around a [[u8; 16]]. *)
Record CognitiveState := mkState {
  cs_identity : bytes;
  cs_tick : Z;
  cs_next_goal_id : Z;
  cs_next_task_id : Z;
  cs_next_delta_id : Z;
  cs_goals : gmap Z Goal;
  cs_tasks : gmap Z CognitiveTask;
  cs_world : gmap string WorldFact;
  cs_memory : SovereignMemory;
  cs_deltas : gmap Z LearnedDelta;
}.

Definition CognitiveState_new (identity : bytes) : CognitiveState :=
  {| cs_identity := identity; cs_tick := 0;
     cs_next_goal_id := 1; cs_next_task_id := 1; cs_next_delta_id := 1;
     cs_goals := ∅; cs_tasks := ∅; cs_world := ∅; cs_memory := mem_new; cs_deltas := ∅ |}.

(** *** Assignments to one field *)
Definition set_cs_tick (v : Z) (s : CognitiveState) : CognitiveState :=
  mkState (cs_identity s) v (cs_next_goal_id s) (cs_next_task_id s) (cs_next_delta_id s)
    (cs_goals s) (cs_tasks s) (cs_world s) (cs_memory s) (cs_deltas s).
Definition set_cs_goals (next : Z) (v : gmap Z Goal) (s : CognitiveState) : CognitiveState :=
  mkState (cs_identity s) (cs_tick s) next (cs_next_task_id s) (cs_next_delta_id s)
    v (cs_tasks s) (cs_world s) (cs_memory s) (cs_deltas s).
Definition set_cs_tasks (next : Z) (v : gmap Z CognitiveTask) (s : CognitiveState)
  : CognitiveState :=
  mkState (cs_identity s) (cs_tick s) (cs_next_goal_id s) next (cs_next_delta_id s)
    (cs_goals s) v (cs_world s) (cs_memory s) (cs_deltas s).
Definition set_cs_world (v : gmap string WorldFact) (s : CognitiveState) : CognitiveState :=
  mkState (cs_identity s) (cs_tick s) (cs_next_goal_id s) (cs_next_task_id s)
    (cs_next_delta_id s) (cs_goals s) (cs_tasks s) v (cs_memory s) (cs_deltas s).
Definition set_cs_memory (v : SovereignMemory) (s : CognitiveState) : CognitiveState :=
  mkState (cs_identity s) (cs_tick s) (cs_next_goal_id s) (cs_next_task_id s)
    (cs_next_delta_id s) (cs_goals s) (cs_tasks s) (cs_world s) v (cs_deltas s).
Definition set_cs_deltas (next : Z) (v : gmap Z LearnedDelta) (s : CognitiveState)
  : CognitiveState :=
  mkState (cs_identity s) (cs_tick s) (cs_next_goal_id s) (cs_next_task_id s) next
    (cs_goals s) (cs_tasks s) (cs_world s) (cs_memory s) v.

Definition set_goal_status (status : GoalStatus) (tick : Z) (g : Goal) : Goal :=
  mkGoal (goal_id g) (goal_objective g) (goal_completion_criteria g) status
    (goal_created_tick g) tick.
Definition set_task_status (status : TaskStatus) (t : CognitiveTask) : CognitiveTask :=
  mkTask (task_id t) (task_goal_id t) (task_intent t) (task_graph t) status
    (task_steps_taken t) (task_verification_failures t) (task_last_observation t)
    (task_created_tick t) (task_updated_tick t).
Definition set_task_tick (tick : Z) (t : CognitiveTask) : CognitiveTask :=
  mkTask (task_id t) (task_goal_id t) (task_intent t) (task_graph t) (task_status t)
    (task_steps_taken t) (task_verification_failures t) (task_last_observation t)
    (task_created_tick t) tick.
Definition set_task_observation (v : string) (t : CognitiveTask) : CognitiveTask :=
  mkTask (task_id t) (task_goal_id t) (task_intent t) (task_graph t) (task_status t)
    (task_steps_taken t) (task_verification_failures t) (Some v)
    (task_created_tick t) (task_updated_tick t).
Definition set_task_counts (steps failures : Z) (t : CognitiveTask) : CognitiveTask :=
  mkTask (task_id t) (task_goal_id t) (task_intent t) (task_graph t) (task_status t)
    steps failures (task_last_observation t) (task_created_tick t) (task_updated_tick t).

(** ** The operations of [CognitiveState] *)
Definition cog_op := op CognitiveState CognitiveError.

Definition add_goal (objective : string) (completion_criteria : list string) : cog_op Z := λ s,
  if is_blank objective then (s, Err EmptyObjective)
  else
    let id := cs_next_goal_id s in
    match checked_add_u64 id 1 with
    | None => (s, Err CogOverflow)
    | Some next =>
        (set_cs_goals next
           (<[id := {| goal_id := id; goal_objective := objective;
                       goal_completion_criteria := completion_criteria;
                       goal_status := GoalActive;
                       goal_created_tick := cs_tick s; goal_updated_tick := cs_tick s |}]>
              (cs_goals s)) s,
         Ok id)
    end.

Definition submit_task (intent : Intent) (graph : TaskGraph) (goal : option Z) : cog_op Z := λ s,
  if is_blank (objective intent) then (s, Err EmptyObjective)
  else if max_steps intent =? 0 then (s, Err InvalidStepBudget)
  else
    let insert :=
      let id := cs_next_task_id s in
      match checked_add_u64 id 1 with
      | None => (s, Err CogOverflow)
      | Some next =>
          (set_cs_tasks next
             (<[id := {| task_id := id; task_goal_id := goal; task_intent := intent;
                         task_graph := graph; task_status := TaskPlanned;
                         task_steps_taken := 0; task_verification_failures := 0;
                         task_last_observation := None;
                         task_created_tick := cs_tick s; task_updated_tick := cs_tick s |}]>
                (cs_tasks s)) s,
           Ok id)
      end in
    match goal with
    | Some g => if decide (is_Some (cs_goals s !! g)) then insert else (s, Err (MissingGoal g))
    | None => insert
    end.

Definition set_world_fact (key value : string) : cog_op unit := λ s,
  if is_blank key then (s, Err EmptyWorldKey)
  else
    let revision := match cs_world s !! key with
                    | Some fact => saturating_add_u64 (fact_revision fact) 1
                    | None => 1
                    end in
    (set_cs_world
       (<[key := {| fact_key := key; fact_value := value; fact_revision := revision;
                    fact_updated_tick := cs_tick s |}]> (cs_world s)) s,
     Ok tt).

Definition install_delta (namespace : string) (generation : Z) (payload : bytes)
  : cog_op Z := λ s,
  if is_blank namespace then (s, Err EmptyDeltaNamespace)
  else
    let id := cs_next_delta_id s in
    match checked_add_u64 id 1 with
    | None => (s, Err CogOverflow)
    | Some next =>
        (set_cs_deltas next
           (<[id := {| delta_id := id; delta_namespace := namespace;
                       delta_generation := generation; delta_payload := payload;
                       delta_active := false |}]> (cs_deltas s)) s,
         Ok id)
    end.

(** ** Directives, observations and the traits *)
Inductive CognitiveDirective :=
| Recall (query : MemoryQuery)
| RecordMemory (kind : MemoryKind) (content : string) (tags : list string) (importance : Z)
| UpdateWorld (key value : string)
| Work (instruction : string)
| Complete (summary : string).

Record CognitiveObservation := mkObservation {
  ob_summary : string;
  ob_evidence : list string;
}.
Definition CognitiveObservation_new (summary : string) : CognitiveObservation :=
  {| ob_summary := summary; ob_evidence := [] |}.

Inductive VerificationDecision :=
| Accept
| Retry (reason : string)
| Reject (reason : string).

Record CognitiveContext := mkContext {
  cx_state : CognitiveState;
  cx_task : CognitiveTask;
  cx_budget : ReasoningBudget;
  cx_iteration : Z;
}.

(** The implementations keep state of their own ([&mut self]). *)
Class CognitivePlanner (P : Type) :=
  plan : P → CognitiveContext → P * result string CognitiveDirective.
Class CognitiveExecutor (X : Type) :=
  execute : X → CognitiveDirective → CognitiveContext → X * result string CognitiveObservation.
Class CognitiveVerifier (V : Type) :=
  verify : V → CognitiveDirective → CognitiveObservation → CognitiveContext →
           V * VerificationDecision.
Class DeltaActivationHook (H : Type) :=
  activate : H → LearnedDelta → H * result string unit.

Record CognitiveCycleReport := mkCycleReport {
  cr_task_id : Z;
  cr_budget : ReasoningBudget;
  cr_iterations : Z;
  cr_status : TaskStatus;
  cr_verification_failures : Z;
  cr_last_observation : option string;
}.

Definition report (t : CognitiveTask) (budget : ReasoningBudget) (iterations : Z)
  : CognitiveCycleReport :=
  {| cr_task_id := task_id t; cr_budget := budget; cr_iterations := iterations;
     cr_status := task_status t; cr_verification_failures := task_verification_failures t;
     cr_last_observation := task_last_observation t |}.

(** ** The operations of [CognitiveRuntime]

    [CognitiveRuntime] is a one-field struct around the state. *)

(** [tasks.get(&id).ok_or(MissingTask(id))?] *)
Definition get_task (id : Z) : cog_op CognitiveTask :=
  op_gets (λ s, ok_or (cs_tasks s !! id) (MissingTask id)).

(** Assignments through [tasks.get_mut(&id).ok_or(MissingTask(id))?]. *)
Definition modify_task (id : Z) (f : CognitiveTask → CognitiveTask) : cog_op unit := λ s,
  match cs_tasks s !! id with
  | None => (s, Err (MissingTask id))
  | Some t => (set_cs_tasks (cs_next_task_id s) (<[id := f t]> (cs_tasks s)) s, Ok tt)
  end.

(** [self.state.tick = self.state.tick.checked_add(1).ok_or(Overflow)?] *)
Definition advance_tick : cog_op unit := λ s,
  match checked_add_u64 (cs_tick s) 1 with
  | None => (s, Err CogOverflow)
  | Some tick => (set_cs_tick tick s, Ok tt)
  end.
Definition get_tick : cog_op Z := op_gets (λ s, Ok (cs_tick s)).

(** A memory operation under [?]. *)
Definition on_memory {A} (m : mem_op A) : cog_op A := λ s,
  let '(mem, r) := m (cs_memory s) in (set_cs_memory mem s, map_err CogMemory r).

(** [if let Some(goal) = goal_id.and_then(|id| goals.get_mut(&id))] *)
Definition close_goal (goal : option Z) (status : GoalStatus) : cog_op unit := λ s,
  match g ← goal; x ← cs_goals s !! g; Some (g, x) with
  | None => (s, Ok tt)
  | Some (g, x) =>
      (set_cs_goals (cs_next_goal_id s)
         (<[g := set_goal_status status (cs_tick s) x]> (cs_goals s)) s, Ok tt)
  end.

(** [matches!(status, Completed | Failed)] *)
Definition is_terminal (s : TaskStatus) : bool :=
  match s with TaskCompleted | TaskFailed => true | _ => false end.
Definition is_complete (d : CognitiveDirective) : bool :=
  match d with Complete _ => true | _ => false end.

Definition start_external_task (id : Z) : cog_op unit :=
  do! _ := advance_tick in
  do! t := get_task id in
  if is_terminal (task_status t) then op_ret tt
  else
    do! tick := get_tick in
    modify_task id (λ t, set_task_tick tick (set_task_status TaskRunning t)).

Definition pause_external_task (id : Z) (reason : string) : cog_op unit :=
  if is_blank reason then op_err (Executor "external task pause reason is empty")
  else
    do! _ := advance_tick in
    do! t := get_task id in
    if is_terminal (task_status t) then op_ret tt
    else
      do! tick := get_tick in
      do! _ := modify_task id (λ t,
        set_task_observation reason (set_task_tick tick (set_task_status TaskPaused t))) in
      do! _ := on_memory
        (store Episodic ("task " +:+ pretty id +:+ " paused: " +:+ reason)
           ["task"; "pause"]%string 400 tick) in
      op_ret tt.

Definition fail_task (id : Z) (reason : string) : cog_op unit :=
  do! t := get_task id in
  do! tick := get_tick in
  do! _ := modify_task id (λ t,
    set_task_observation reason (set_task_tick tick (set_task_status TaskFailed t))) in
  do! _ := close_goal (task_goal_id t) GoalFailed in
  do! _ := on_memory
    (store Episodic ("task " +:+ pretty id +:+ " failed: " +:+ reason)
       ["task"; "failure"]%string 800 tick) in
  op_ret tt.

(** The part of [commit_directive] that depends on the directive. *)
Definition commit_effect (id : Z) (d : CognitiveDirective) : cog_op unit :=
  do! tick := get_tick in
  match d with
  | Recall _ | Work _ => op_ret tt
  | RecordMemory kind content tags importance =>
      do! _ := on_memory (store kind content tags importance tick) in op_ret tt
  | UpdateWorld key value => set_world_fact key value
  | Complete summary =>
      do! t := get_task id in
      do! _ := close_goal (task_goal_id t) GoalCompleted in
      do! _ := on_memory
        (store Episodic ("task " +:+ pretty id +:+ " completed: " +:+ summary)
           ["task"; "completion"]%string 700 tick) in
      op_ret tt
  end.

(** What [commit_directive] writes to the task. *)
Definition commit_to_task (d : CognitiveDirective) (o : CognitiveObservation) (tick : Z)
    (t : CognitiveTask) : CognitiveTask :=
  let t := set_task_counts (saturating_add_u32 (task_steps_taken t) 1)
             (task_verification_failures t) t in
  let t := set_task_observation (ob_summary o) (set_task_tick tick t) in
  if is_complete d then set_task_status TaskCompleted t else t.

Definition commit_directive (id : Z) (d : CognitiveDirective) (o : CognitiveObservation)
  : cog_op unit :=
  do! _ := commit_effect id d in
  do! tick := get_tick in
  modify_task id (commit_to_task d o tick).

Definition complete_external_task (id : Z) (summary : string) : cog_op unit :=
  if is_blank summary then op_err (Executor "external task completion summary is empty")
  else
    do! _ := advance_tick in
    commit_directive id (Complete summary) (CognitiveObservation_new summary).

Definition iterations_for_budget (b : ReasoningBudget) : Z :=
  match b with Reflex => 1 | Standard => 2 | Deep => 4 | Recovery => 3 end.

(** *** Activating a delta *)
Section activation.
Context {H : Type} `{DeltaActivationHook H}.

Definition activate_delta (id : Z) : op (CognitiveState * H) CognitiveError unit := λ '(s, h),
  match cs_deltas s !! id with
  | None => ((s, h), Err (MissingDelta id))
  | Some delta =>
      let '(h', r) := activate h delta in
      match r with
      | Ok _ =>
          ((set_cs_deltas (cs_next_delta_id s)
              (<[id := mkDelta (delta_id delta) (delta_namespace delta)
                         (delta_generation delta) (delta_payload delta) true]> (cs_deltas s)) s,
            h'), Ok tt)
      | Err e => ((s, h'), Err (Executor e))
      | Panic => ((s, h'), Panic)
      end
  end.
End activation.

(** *** Advancing a task *)
Section advancing.
Context {P X V : Type} `{CognitivePlanner P, CognitiveExecutor X, CognitiveVerifier V}
  `{UnicodeTables}.

(** The runtime and the three implementations lent to [advance]. *)
Record Agents := mkAgents {
  ag_state : CognitiveState;
  ag_planner : P;
  ag_executor : X;
  ag_verifier : V;
}.
Definition agents_op := op Agents CognitiveError.

Definition on_state {A} (m : cog_op A) : agents_op A := λ w,
  let '(s, r) := m (ag_state w) in
  (mkAgents s (ag_planner w) (ag_executor w) (ag_verifier w), r).

(** The three calls, each on a context built from the state it borrows. *)
Definition call_plan (id : Z) (budget : ReasoningBudget) (iteration : Z)
  : agents_op CognitiveDirective := λ w,
  match cs_tasks (ag_state w) !! id with
  | None => (w, Err (MissingTask id))
  | Some t =>
      let '(p, r) := plan (ag_planner w) (mkContext (ag_state w) t budget iteration) in
      (mkAgents (ag_state w) p (ag_executor w) (ag_verifier w), map_err Planner r)
  end.
Definition call_execute (id : Z) (d : CognitiveDirective) (budget : ReasoningBudget)
    (iteration : Z) : agents_op CognitiveObservation := λ w,
  match cs_tasks (ag_state w) !! id with
  | None => (w, Err (MissingTask id))
  | Some t =>
      let '(x, r) := execute (ag_executor w) d (mkContext (ag_state w) t budget iteration) in
      (mkAgents (ag_state w) (ag_planner w) x (ag_verifier w), map_err Executor r)
  end.
Definition call_verify (id : Z) (d : CognitiveDirective) (o : CognitiveObservation)
    (budget : ReasoningBudget) (iteration : Z) : agents_op VerificationDecision := λ w,
  match cs_tasks (ag_state w) !! id with
  | None => (w, Err (MissingTask id))
  | Some t =>
      let '(v, decision) :=
        verify (ag_verifier w) d o (mkContext (ag_state w) t budget iteration) in
      (mkAgents (ag_state w) (ag_planner w) (ag_executor w) v, Ok decision)
  end.

Definition recall_evidence (h : MemoryHit) : string :=
  "memory:" +:+ pretty (mh_id h) +:+ ":" +:+ mr_content (mh_record h).

Definition execute_directive (id : Z) (d : CognitiveDirective) (budget : ReasoningBudget)
    (iteration : Z) : agents_op CognitiveObservation :=
  match d with
  | Recall query =>
      do! hits := on_state (do! tick := get_tick in on_memory (retrieve query tick)) in
      op_ret {| ob_summary := "recalled " +:+ pretty (len hits) +:+ " memories";
                ob_evidence := map recall_evidence hits |}
  | RecordMemory _ content _ _ =>
      op_ret (CognitiveObservation_new ("memory prepared: " +:+ content))
  | UpdateWorld key value =>
      op_ret (CognitiveObservation_new
                ("world update prepared: " +:+ key +:+ "=" +:+ value))
  | Complete summary =>
      op_ret (CognitiveObservation_new ("completion prepared: " +:+ summary))
  | Work _ => call_execute id d budget iteration
  end.

Definition retry_task (id : Z) (reason : string) : cog_op unit :=
  do! tick := get_tick in
  do! _ := modify_task id (λ t,
    set_task_tick tick (set_task_observation reason
      (set_task_counts (task_steps_taken t)
         (saturating_add_u32 (task_verification_failures t) 1) t))) in
  do! _ := on_memory
    (store Episodic ("verification retry: " +:+ reason)
       ["verification"; "retry"]%string 600 tick) in
  op_ret tt.

(** The body of the [for iteration in 0..max_iterations] loop and the rest of
    it, [n] iterations being left; the result is the count. *)
Fixpoint cycle (n : nat) (id : Z) (budget : ReasoningBudget) (iteration iterations : Z)
  : agents_op Z :=
  match n with
  | O => op_ret iterations
  | S n' =>
      do! t := on_state (get_task id) in
      if max_steps (task_intent t) <=? task_steps_taken t then
        do! _ := on_state (fail_task id "task step budget exhausted") in
        op_ret iterations
      else
        do! _ := on_state advance_tick in
        do! directive := call_plan id budget iteration in
        do! observation := execute_directive id directive budget iteration in
        do! decision := call_verify id directive observation budget iteration in
        let iterations := saturating_add_u32 iterations 1 in
        match decision with
        | Accept =>
            do! _ := on_state (commit_directive id directive observation) in
            if is_complete directive then op_ret iterations
            else cycle n' id budget (iteration + 1) iterations
        | Retry reason =>
            do! _ := on_state (retry_task id reason) in
            cycle n' id budget (iteration + 1) iterations
        | Reject reason =>
            do! _ := on_state (fail_task id reason) in
            op_ret iterations
        end
  end.

Definition advance (id : Z) (signals : CognitiveSignals) : agents_op CognitiveCycleReport :=
  let budget := choose_reasoning_budget signals in
  let max_iterations := iterations_for_budget budget in
  do! t := on_state (get_task id) in
  if is_terminal (task_status t) then op_ret (report t budget 0)
  else
    do! _ := on_state (modify_task id (set_task_status TaskRunning)) in
    do! iterations := cycle (Z.to_nat max_iterations) id budget 0 0 in
    do! t := on_state (get_task id) in
    op_ret (report t budget iterations).
End advancing.
Arguments Agents : clear implicits.
Arguments mkAgents {P X V}.

(** ** Restoring a state *)
Definition goal_ok (id : Z) (g : Goal) : bool :=
  negb (negb (id =? goal_id g) || is_blank (goal_objective g)).
Definition task_ok (id : Z) (t : CognitiveTask) : bool :=
  negb (negb (id =? task_id t) || is_blank (objective (task_intent t))
        || (max_steps (task_intent t) =? 0)
        || (max_steps (task_intent t) <? task_steps_taken t)).
Definition fact_ok (key : string) (f : WorldFact) : bool :=
  negb (negb (bool_decide (key = fact_key f)) || is_blank key || (fact_revision f =? 0)).
Definition delta_ok (id : Z) (d : LearnedDelta) : bool :=
  negb (negb (id =? delta_id d) || is_blank (delta_namespace d)).

(** [keys().next_back().is_some_and(|id| next <= *id)] *)
Definition counter_behind {A} (next : Z) (m : gmap Z A) : bool :=
  match btree_last_key m with Some k => next <=? k | None => false end.

Definition validate_task (s : CognitiveState) (p : Z * CognitiveTask)
  : result CognitiveError unit :=
  if negb (task_ok p.1 p.2) then Err CogOverflow
  else match task_goal_id p.2 with
       | Some g => if decide (is_Some (cs_goals s !! g)) then Ok tt else Err (MissingGoal g)
       | None => Ok tt
       end.

Definition validate_state (s : CognitiveState) : result CognitiveError unit :=
  if (cs_next_goal_id s =? 0) || (cs_next_task_id s =? 0) || (cs_next_delta_id s =? 0)
  then Err CogOverflow
  else if counter_behind (cs_next_goal_id s) (cs_goals s)
          || counter_behind (cs_next_task_id s) (cs_tasks s)
          || counter_behind (cs_next_delta_id s) (cs_deltas s)
  then Err CogOverflow
  else
    let? _ := check_all (λ p, if goal_ok p.1 p.2 then Ok tt else Err CogOverflow)
                (btree_iter (cs_goals s)) in
    let? _ := check_all (validate_task s) (btree_iter (cs_tasks s)) in
    let? _ := check_all (λ p, if fact_ok p.1 p.2 then Ok tt else Err CogOverflow)
                (btree_iter (cs_world s)) in
    check_all (λ p, if delta_ok p.1 p.2 then Ok tt else Err CogOverflow)
      (btree_iter (cs_deltas s)).

Definition from_state (s : CognitiveState) : result CognitiveError CognitiveState :=
  let? _ := validate_state s in Ok s.
End Cognition.
