(* ===== verification/CognitionSafety.v ===== *)
(** Invariants of the cognitive runtime: what [validate_state] accepts
    ([cognitive_wf]), that every operation keeps it where it does, and the frame
    of [advance]: which part of the state a run of the loop can touch. *)
From stdpp Require Import pretty.
From S2P Require Import Prelude Text Chars Collections Effects Core Memory Signals Cognition.
Import Memory Cognition.

Module CognitionSafety.

(** ** Well-formedness *)
Definition goal_wf (id : Z) (g : Goal) : Prop :=
  goal_id g = id ∧ is_blank (goal_objective g) = false.
Definition task_wf (id : Z) (t : CognitiveTask) : Prop :=
  task_id t = id ∧ is_blank (objective (task_intent t)) = false ∧
  max_steps (task_intent t) ≠ 0 ∧ task_steps_taken t ≤ max_steps (task_intent t).
Definition fact_wf (key : string) (f : WorldFact) : Prop :=
  fact_key f = key ∧ is_blank key = false ∧ 0 < fact_revision f.
Definition delta_wf (id : Z) (d : LearnedDelta) : Prop :=
  delta_id d = id ∧ is_blank (delta_namespace d) = false.

(** Every entry is well-formed and below the counter. *)
Definition table_wf {A} (R : Z → A → Prop) (next : Z) (m : gmap Z A) : Prop :=
  0 < next ∧ map_Forall (λ id a, R id a ∧ id < next) m.

Definition goal_links (goals : gmap Z Goal) (tasks : gmap Z CognitiveTask) : Prop :=
  map_Forall (λ _ t, ∀ g, task_goal_id t = Some g → is_Some (goals !! g)) tasks.

Record cognitive_wf (s : CognitiveState) : Prop := {
  wf_goals : table_wf goal_wf (cs_next_goal_id s) (cs_goals s);
  wf_tasks : table_wf task_wf (cs_next_task_id s) (cs_tasks s);
  wf_deltas : table_wf delta_wf (cs_next_delta_id s) (cs_deltas s);
  wf_world : map_Forall fact_wf (cs_world s);
  wf_links : goal_links (cs_goals s) (cs_tasks s);
}.

(** The memory keeps its own invariant: its fields are private to memory.rs. *)
Definition runtime_inv (s : CognitiveState) : Prop :=
  cognitive_wf s ∧ mem_wf (cs_memory s).

(** ** The ranges of the Rust types *)
Definition intent_typed (i : Intent) : Prop :=
  is_utf8 (objective i) ∧ Forall is_utf8 (completion_criteria i) ∧ in_u32 (max_steps i).
Definition node_typed (n : ActionNode) : Prop := in_u32 (an_id n) ∧ is_utf8 (an_capability n).
Definition goal_typed (id : Z) (g : Goal) : Prop :=
  in_u64 id ∧ in_u64 (goal_id g) ∧ is_utf8 (goal_objective g) ∧
  Forall is_utf8 (goal_completion_criteria g) ∧
  in_u64 (goal_created_tick g) ∧ in_u64 (goal_updated_tick g).
Definition task_typed (id : Z) (t : CognitiveTask) : Prop :=
  in_u64 id ∧ in_u64 (task_id t) ∧ (∀ g, task_goal_id t = Some g → in_u64 g) ∧
  intent_typed (task_intent t) ∧ Forall node_typed (tg_actions (task_graph t)) ∧
  in_u32 (task_steps_taken t) ∧ in_u32 (task_verification_failures t) ∧
  (∀ o, task_last_observation t = Some o → is_utf8 o) ∧
  in_u64 (task_created_tick t) ∧ in_u64 (task_updated_tick t).
Definition fact_typed (key : string) (f : WorldFact) : Prop :=
  is_utf8 key ∧ in_u64 (fact_revision f) ∧ is_utf8 (fact_key f) ∧ is_utf8 (fact_value f) ∧
  in_u64 (fact_updated_tick f).
Definition delta_typed (id : Z) (d : LearnedDelta) : Prop :=
  in_u64 id ∧ in_u64 (delta_id d) ∧ is_utf8 (delta_namespace d) ∧ in_u64 (delta_generation d).
Definition memory_text_typed (r : MemoryRecord) : Prop :=
  is_utf8 (mr_content r) ∧ Forall is_utf8 (mr_tags r).

Record state_typed (s : CognitiveState) : Prop := {
  ty_identity : length (cs_identity s) = 16%nat;
  ty_tick : in_u64 (cs_tick s);
  ty_counters : in_u64 (cs_next_goal_id s) ∧ in_u64 (cs_next_task_id s) ∧
                in_u64 (cs_next_delta_id s);
  ty_goals : map_Forall goal_typed (cs_goals s);
  ty_tasks : map_Forall task_typed (cs_tasks s);
  ty_world : map_Forall fact_typed (cs_world s);
  ty_memory : mem_typed (cs_memory s) ∧
              map_Forall (λ _ r, memory_text_typed r) (mem_records (cs_memory s));
  ty_deltas : map_Forall delta_typed (cs_deltas s);
}.

Section tables.
Context {A : Type} (R : Z → A → Prop).
Implicit Types m : gmap Z A.

Lemma table_wf_insert next m id a :
  table_wf R next m → R id a → id < next → table_wf R next (<[id := a]> m).
Proof. intros [Hn Hall] Ha Hid. split; [done|]. by apply map_Forall_insert_2. Qed.

Lemma table_wf_fresh next m a :
  table_wf R next m → R next a → table_wf R (next + 1) (<[next := a]> m).
Proof.
  intros [Hn Hall] Ha. split; [lia|]. apply map_Forall_insert_2; [split; [done|lia]|].
  intros i b Hb. destruct (Hall i b Hb). split; [done|lia].
Qed.

(** The two halves of the test in [validate_state]. *)
Lemma counter_behind_false next m :
  counter_behind next m = false ↔ map_Forall (λ id _, id < next) m.
Proof.
  unfold counter_behind. destruct (btree_last_key m) as [k|] eqn:Hk.
  - rewrite Z.leb_gt. split.
    + intros Hlt id a Ha. destruct (btree_last_key_max _ _ _ Ha) as (k' & Hk' & Hle).
      rewrite Hk in Hk'. injection Hk' as <-. destruct Hle as [->|Hle]; [done|].
      change (id ≤ k) in Hle. lia.
    + intros Hall. apply btree_last_key_elem in Hk as [a Ha]. by apply (Hall k a).
  - split; [|done]. intros _ id a Ha.
    destruct (btree_last_key_max _ _ _ Ha) as (k' & Hk' & _). congruence.
Qed.
End tables.

Lemma check_entries {K A E} `{Countable K, KeyOrder K} (f : K → A → bool) (e : E) (m : gmap K A) :
  check_all (λ p, if f p.1 p.2 then Ok tt else Err e) (btree_iter m) = Ok tt ↔
  map_Forall (λ k a, f k a = true) m.
Proof.
  rewrite check_all_Ok, Forall_forall. split.
  - intros Hf k a Ha. apply elem_of_btree_iter in Ha. specialize (Hf _ Ha). simpl in Hf.
    by destruct (f k a).
  - intros Hf [k a] Hin. apply elem_of_btree_iter in Hin. simpl. by rewrite (Hf k a).
Qed.

Lemma goal_ok_wf id g : goal_ok id g = true ↔ goal_wf id g.
Proof.
  unfold goal_ok, goal_wf. rewrite negb_true_iff, orb_false_iff, negb_false_iff, Z.eqb_eq. intuition.
Qed.
Lemma task_ok_wf id t : task_ok id t = true ↔ task_wf id t.
Proof.
  unfold task_ok, task_wf.
  rewrite negb_true_iff, !orb_false_iff, negb_false_iff, Z.eqb_eq, Z.eqb_neq, Z.ltb_ge. intuition.
Qed.
Lemma fact_ok_wf k f : 0 ≤ fact_revision f → fact_ok k f = true ↔ fact_wf k f.
Proof.
  intros Hr. unfold fact_ok, fact_wf.
  rewrite negb_true_iff, !orb_false_iff, negb_false_iff, bool_decide_eq_true, Z.eqb_neq.
  intuition (congruence || lia).
Qed.
Lemma delta_ok_wf id d : delta_ok id d = true ↔ delta_wf id d.
Proof.
  unfold delta_ok, delta_wf. rewrite negb_true_iff, orb_false_iff, negb_false_iff, Z.eqb_eq. intuition.
Qed.

Lemma validate_tasks_Ok s :
  check_all (validate_task s) (btree_iter (cs_tasks s)) = Ok tt ↔
  map_Forall task_wf (cs_tasks s) ∧ goal_links (cs_goals s) (cs_tasks s).
Proof.
  rewrite check_all_Ok, Forall_forall. unfold validate_task. split.
  - intros Hf. split; intros id t Ht; apply elem_of_btree_iter in Ht; specialize (Hf _ Ht);
      simpl in Hf; destruct (task_ok id t) eqn:Hok; try discriminate.
    + by apply task_ok_wf.
    + intros g Hg. rewrite Hg in Hf. by case_decide.
  - intros [Hwf Hl] [id t] Ht. apply elem_of_btree_iter in Ht. simpl.
    rewrite (proj2 (task_ok_wf id t) (Hwf id t Ht)). simpl.
    destruct (task_goal_id t) as [g|] eqn:Hg; [|done].
    by rewrite decide_True by (by apply (Hl id t Ht)).
Qed.

(** What the unsigned types give the test. *)
Definition counters_unsigned (s : CognitiveState) : Prop :=
  0 ≤ cs_next_goal_id s ∧ 0 ≤ cs_next_task_id s ∧ 0 ≤ cs_next_delta_id s ∧
  map_Forall (λ _ f, 0 ≤ fact_revision f) (cs_world s).

Lemma typed_unsigned s : state_typed s → counters_unsigned s.
Proof.
  intros Hty. destruct (ty_counters s Hty) as (Hg & Ht & Hd). unfold in_u64 in *.
  split_and!; try lia. intros k f Hf. pose proof (ty_world s Hty k f Hf) as (_ & Hr & _).
  unfold in_u64 in Hr. lia.
Qed.
Lemma wf_unsigned s : cognitive_wf s → counters_unsigned s.
Proof.
  intros [[Hg _] [Ht _] [Hd _] Hw _]. split_and!; try lia. intros k f Hf.
  destruct (Hw k f Hf) as (_ & _ & Hr). lia.
Qed.

Lemma validate_state_Ok s :
  counters_unsigned s → validate_state s = Ok tt ↔ cognitive_wf s.
Proof.
  intros (Hg & Ht & Hd & Hrev). unfold validate_state.
  transitivity (
    ((cs_next_goal_id s =? 0) || (cs_next_task_id s =? 0) || (cs_next_delta_id s =? 0)) = false ∧
    (counter_behind (cs_next_goal_id s) (cs_goals s)
     || counter_behind (cs_next_task_id s) (cs_tasks s)
     || counter_behind (cs_next_delta_id s) (cs_deltas s)) = false ∧
    map_Forall (λ k a, goal_ok k a = true) (cs_goals s) ∧
    (map_Forall task_wf (cs_tasks s) ∧ goal_links (cs_goals s) (cs_tasks s)) ∧
    map_Forall (λ k a, fact_ok k a = true) (cs_world s) ∧
    map_Forall (λ k a, delta_ok k a = true) (cs_deltas s)).
  - rewrite <- validate_tasks_Ok, <- !(check_entries _ CogOverflow).
    destruct (_ || _); [naive_solver|]. destruct (_ || _); [naive_solver|].
    destruct (check_all _ (btree_iter (cs_goals s))) as [[]| |]; [|naive_solver..].
    destruct (check_all _ (btree_iter (cs_tasks s))) as [[]| |]; [|naive_solver..].
    destruct (check_all _ (btree_iter (cs_world s))) as [[]| |]; naive_solver.
  - assert (map_Forall (λ k a, fact_ok k a = true) (cs_world s) ↔
            map_Forall fact_wf (cs_world s)) as ->.
    { unfold map_Forall. split; intros Hw k f Hf.
      all: specialize (Hw k f Hf); pose proof (Hrev k f Hf); by apply fact_ok_wf. }
    rewrite !orb_false_iff, !Z.eqb_neq, !counter_behind_false.
    unfold map_Forall. setoid_rewrite goal_ok_wf. setoid_rewrite delta_ok_wf. split.
    + intros (((?&?)&?)&((?&?)&?)&?&(?&?)&?&?).
      split; try done; (split; [lia|intros ???; split; eauto]).
    + intros [[? Hgs] [? Hts] [? Hds] Hw Hl]. split_and!; try lia; try done.
      all: intros id a Ha; first
        [by destruct (Hgs id a Ha)|by destruct (Hts id a Ha)|by destruct (Hds id a Ha)].
Qed.

(** ** The operations of the state *)
Lemma with_memory_wf mem s :
  runtime_inv s → mem_wf mem → runtime_inv (set_cs_memory mem s).
Proof. intros [[] ?] ?. by split. Qed.

Lemma with_tick_wf tick s : runtime_inv s → runtime_inv (set_cs_tick tick s).
Proof. intros [[] ?]. by split. Qed.

Lemma goal_links_goals goals goals' tasks :
  (∀ g, is_Some (goals !! g) → is_Some (goals' !! g)) →
  goal_links goals tasks → goal_links goals' tasks.
Proof. intros Hg Hl id t Ht g Hgt. by apply Hg, (Hl id t). Qed.

Lemma insert_is_Some {A} (m : gmap Z A) i a j : is_Some (m !! j) → is_Some (<[i := a]> m !! j).
Proof. intros Hj. apply lookup_insert_is_Some. destruct (decide (i = j)); eauto. Qed.

Lemma with_goal_wf next id g s :
  runtime_inv s → table_wf goal_wf next (<[id := g]> (cs_goals s)) →
  runtime_inv (set_cs_goals next (<[id := g]> (cs_goals s)) s).
Proof.
  intros [[] ?] Hg. split; [|done]. split; try done. cbn.
  eapply goal_links_goals; [|done]. intros. by apply insert_is_Some.
Qed.

Lemma with_task_wf next id t s :
  runtime_inv s → table_wf task_wf next (<[id := t]> (cs_tasks s)) →
  (∀ g, task_goal_id t = Some g → is_Some (cs_goals s !! g)) →
  runtime_inv (set_cs_tasks next (<[id := t]> (cs_tasks s)) s).
Proof.
  intros [[] ?] Ht Hg. split; [|done]. split; try done. cbn. by apply map_Forall_insert_2.
Qed.

Lemma CognitiveState_new_inv identity : runtime_inv (CognitiveState_new identity).
Proof.
  split; [|apply mem_new_wf].
  split; cbn; [split; [lia|]..| |]; intros ? ? Hl; by rewrite lookup_empty in Hl.
Qed.

Lemma checked_add_inv a b n : checked_add_u64 a b = Some n → n = a + b ∧ a + b < 2 ^ 64.
Proof. unfold checked_add_u64. destruct (Z.ltb_spec (a + b) (2 ^ 64)); naive_solver. Qed.

Lemma add_goal_maintains objective criteria : maintains runtime_inv (add_goal objective criteria).
Proof.
  intros s Hs. unfold add_goal. destruct (is_blank objective) eqn:Hb; [done|].
  destruct (checked_add_u64 _ 1) as [next|] eqn:Hadd; [|done]. apply checked_add_inv in Hadd as [-> _].
  pose proof (wf_goals s (proj1 Hs)). by apply with_goal_wf, table_wf_fresh.
Qed.

Lemma submit_task_maintains intent graph goal :
  0 ≤ max_steps intent → maintains runtime_inv (submit_task intent graph goal).
Proof.
  intros Hmax s Hs. unfold submit_task. destruct (is_blank (objective intent)) eqn:Hb; [done|].
  destruct (Z.eqb_spec (max_steps intent) 0) as [|Hm]; [done|].
  assert (∀ t, t = mkTask (cs_next_task_id s) goal intent graph TaskPlanned 0 0 None (cs_tick s)
                     (cs_tick s) →
    (∀ g, goal = Some g → is_Some (cs_goals s !! g)) →
    runtime_inv (set_cs_tasks (cs_next_task_id s + 1)
                   (<[cs_next_task_id s := t]> (cs_tasks s)) s)) as Hins.
  { intros t -> Hg. apply with_task_wf; [done| |done]. apply table_wf_fresh; [apply Hs|].
    by repeat split. }
  destruct (checked_add_u64 _ 1) as [next|] eqn:Hadd.
  - apply checked_add_inv in Hadd as [-> _].
    destruct goal as [g|]; [case_decide; [|done]|]; apply Hins; naive_solver.
  - destruct goal as [g|]; [by case_decide|done].
Qed.

Lemma set_world_fact_maintains key value : maintains runtime_inv (set_world_fact key value).
Proof.
  intros s [[] Hm]. unfold set_world_fact. destruct (is_blank key) eqn:Hb; [done|].
  split; [|done]. split; try done. cbn. apply map_Forall_insert_2; [|done].
  split_and!; [done..|]. cbn. destruct (cs_world s !! key) as [f|] eqn:Hf; [|lia].
  destruct (wf_world0 key f Hf) as (_ & _ & Hr). unfold saturating_add_u64. lia.
Qed.

Lemma install_delta_maintains namespace generation payload :
  maintains runtime_inv (install_delta namespace generation payload).
Proof.
  intros s [[] Hm]. unfold install_delta. destruct (is_blank namespace) eqn:Hb; [done|].
  destruct (checked_add_u64 _ 1) as [next|] eqn:Hadd; [|done]. apply checked_add_inv in Hadd as [-> _].
  split; [|done]. split; try done. cbn. by apply table_wf_fresh.
Qed.

(** ** The helpers of the runtime's operations *)
Lemma advance_tick_maintains : maintains runtime_inv advance_tick.
Proof.
  intros s Hs. unfold advance_tick. destruct (checked_add_u64 _ _); [|done].
  by apply with_tick_wf.
Qed.

Lemma on_memory_maintains {A} (m : mem_op A) :
  (∀ mem, mem_wf mem → mem_wf (m mem).1) → maintains runtime_inv (on_memory m).
Proof.
  intros Hm s Hs. unfold on_memory. specialize (Hm _ (proj2 Hs)).
  destruct (m (cs_memory s)) as [mem [a|e|]]; cbn in *; by apply with_memory_wf.
Qed.

Lemma modify_task_maintains id f :
  (∀ t, task_wf id t → task_wf id (f t)) → (∀ t, task_goal_id (f t) = task_goal_id t) →
  maintains runtime_inv (modify_task id f).
Proof.
  intros Hf Hg s Hs. unfold modify_task. destruct (cs_tasks s !! id) as [t|] eqn:Ht; [|done].
  pose proof (wf_tasks s (proj1 Hs)) as [Hn Hall]. destruct (Hall id t Ht) as [Hwf Hlt].
  apply with_task_wf; [done| |].
  - apply table_wf_insert; [done|by apply Hf|done].
  - intros g. rewrite Hg. by apply (wf_links s (proj1 Hs) id).
Qed.

Lemma close_goal_maintains goal status : maintains runtime_inv (close_goal goal status).
Proof.
  intros s Hs. unfold close_goal. destruct goal as [g|]; cbn; [|done].
  destruct (cs_goals s !! g) as [x|] eqn:Hg; cbn; [|done].
  pose proof (wf_goals s (proj1 Hs)) as [Hn Hall]. destruct (Hall g x Hg) as [Hx Hlt].
  apply with_goal_wf; [done|]. by apply table_wf_insert.
Qed.

#[export] Hint Resolve add_goal_maintains submit_task_maintains set_world_fact_maintains
  install_delta_maintains advance_tick_maintains close_goal_maintains : maintains.

Ltac inv_step :=
  repeat first
    [ progress intros
    | apply maintains_bind | apply maintains_if
    | apply on_memory_maintains; intros; first [by apply store_wf|by apply retrieve_wf]
    | apply modify_task_maintains; [by intros ? (?&?&?&?)|done]
    | solve [eauto with maintains nocore]
    | case_match ].

Lemma start_external_task_maintains id : maintains runtime_inv (start_external_task id).
Proof. unfold start_external_task, get_task, get_tick. inv_step. Qed.

Lemma pause_external_task_maintains id reason :
  maintains runtime_inv (pause_external_task id reason).
Proof. unfold pause_external_task, get_task, get_tick. inv_step. Qed.

Lemma fail_task_maintains id reason : maintains runtime_inv (fail_task id reason).
Proof. unfold fail_task, get_task, get_tick. inv_step. Qed.

Lemma retry_task_maintains id reason : maintains runtime_inv (retry_task id reason).
Proof. unfold retry_task, get_task, get_tick. inv_step. Qed.

Lemma commit_effect_maintains id d : maintains runtime_inv (commit_effect id d).
Proof. unfold commit_effect, get_task, get_tick. inv_step. Qed.

(** ** Running the loop *)

(** Facts about the tasks survive what does not assign to a task. *)
Definition tasks_are (ts : gmap Z CognitiveTask) (s : CognitiveState) : Prop := cs_tasks s = ts.

Lemma on_memory_tasks {A} (m : mem_op A) ts : maintains (tasks_are ts) (on_memory m).
Proof. intros s Hs. unfold on_memory. by destruct (m (cs_memory s)) as [mem [a|e|]]. Qed.
Lemma advance_tick_tasks ts : maintains (tasks_are ts) advance_tick.
Proof. intros s Hs. unfold advance_tick. by destruct (checked_add_u64 _ _). Qed.
Lemma set_world_fact_tasks ts key value : maintains (tasks_are ts) (set_world_fact key value).
Proof. intros s Hs. unfold set_world_fact. by destruct (is_blank key). Qed.
Lemma close_goal_tasks ts goal status : maintains (tasks_are ts) (close_goal goal status).
Proof.
  intros s Hs. unfold close_goal. destruct goal as [g|]; cbn; [|done].
  by destruct (cs_goals s !! g).
Qed.
#[export] Hint Resolve @on_memory_tasks advance_tick_tasks set_world_fact_tasks
  close_goal_tasks : maintains.

Lemma commit_effect_tasks ts id d : maintains (tasks_are ts) (commit_effect id d).
Proof. unfold commit_effect, get_task, get_tick. solve_maintains. Qed.

(** A goal that is there has the status. *)
Definition closed_as (goal : option Z) (status : GoalStatus) (s : CognitiveState) : Prop :=
  ∀ g x, goal = Some g → cs_goals s !! g = Some x → goal_status x = status.

(** What a closing operation leaves: the task with a terminal status, and its
    goal, when there is one, with the corresponding one. *)
Definition closed_with (id : Z) (status : TaskStatus) (gstatus : GoalStatus)
    (s : CognitiveState) : Prop :=
  ∃ t, cs_tasks s !! id = Some t ∧ task_status t = status ∧
       closed_as (task_goal_id t) gstatus s.

(** [close_goal] assigns to the goals only, and closes. *)
Lemma close_goal_run goal status s :
  ∃ goals, close_goal goal status s = (set_cs_goals (cs_next_goal_id s) goals s, Ok tt) ∧
    ∀ g x, goal = Some g → goals !! g = Some x → goal_status x = status.
Proof.
  unfold close_goal. destruct goal as [g|]; cbn.
  - destruct (cs_goals s !! g) as [x|] eqn:Hg; cbn.
    + eexists. split; [done|]. intros ? y [= <-]. rewrite lookup_insert_eq. by intros [= <-].
    + exists (cs_goals s). split; [by destruct s|]. intros ? y [= <-]. congruence.
  - exists (cs_goals s). by split; [destruct s|].
Qed.

Lemma fail_task_closes id reason :
  triple (λ s, is_Some (cs_tasks s !! id)) (fail_task id reason)
    (λ _, closed_with id TaskFailed GoalFailed) (λ _, True).
Proof.
  intros s [t Ht]. unfold fail_task, op_bind, get_task, get_tick, op_gets, modify_task.
  rewrite Ht. cbn [ok_or].
  edestruct (close_goal_run (task_goal_id t) GoalFailed) as (goals & -> & Hg).
  unfold on_memory. destruct (store _ _ _ _ _ _) as [mem [a|e|]]; cbn; [|done..].
  eexists. cbn. rewrite lookup_insert_eq. split_and!; [done..|exact Hg].
Qed.

Lemma commit_complete_closes id summary o :
  triple (λ s, is_Some (cs_tasks s !! id)) (commit_directive id (Complete summary) o)
    (λ _, closed_with id TaskCompleted GoalCompleted) (λ _, True).
Proof.
  intros s [t Ht].
  unfold commit_directive, commit_effect, op_bind, get_task, get_tick, op_gets, modify_task.
  rewrite Ht. cbn [ok_or].
  edestruct (close_goal_run (task_goal_id t) GoalCompleted) as (goals & -> & Hg).
  unfold on_memory. destruct (store _ _ _ _ _ _) as [mem [a|e|]]; cbn; [|done..].
  rewrite Ht. eexists. cbn. rewrite lookup_insert_eq. split_and!; [done..|exact Hg].
Qed.

(** The task's entry survives what keeps the task table. *)
Definition task_is (id : Z) (t : CognitiveTask) (s : CognitiveState) : Prop :=
  cs_tasks s !! id = Some t.

Lemma tasks_task {A} (m : cog_op A) id t :
  (∀ ts, maintains (tasks_are ts) m) → maintains (task_is id t) m.
Proof.
  intros Hm s Hs. specialize (Hm (cs_tasks s) s eq_refl). unfold tasks_are, task_is in *.
  destruct (m s) as [s' [a|e|]]; congruence.
Qed.

(** [modify_task] writes the entry it finds, and nothing else of the table. *)
Lemma modify_task_writes id f t :
  triple (task_is id t) (modify_task id f) (λ _, task_is id (f t)) (λ _, True).
Proof.
  intros s Hs. unfold modify_task, task_is in *. rewrite Hs. cbn. by rewrite lookup_insert_eq.
Qed.

(** A directive other than [Complete] leaves the task running. *)
Lemma commit_running id d o t :
  is_complete d = false →
  triple (task_is id t) (commit_directive id d o)
    (λ _ s, ∃ t', task_is id t' s ∧ task_status t' = task_status t) (λ _, True).
Proof.
  intros Hd. unfold commit_directive. eapply triple_bind.
  { eapply triple_weaken; [apply (tasks_task _ id t (λ ts, commit_effect_tasks ts id d))|done| |done].
    intros a s Hs. exact Hs. }
  intros []. eapply triple_bind; [by apply triple_gets|]. intros tick.
  eapply triple_weaken; [apply (modify_task_writes id _ t)|by intros s []| |done].
  intros [] s Hs. eexists. split; [exact Hs|]. unfold commit_to_task. by rewrite Hd.
Qed.

Lemma retry_running id reason t :
  triple (task_is id t) (retry_task id reason)
    (λ _ s, ∃ t', task_is id t' s ∧ task_status t' = task_status t) (λ _, True).
Proof.
  unfold retry_task. eapply triple_bind; [by apply triple_gets|]. intros tick.
  eapply triple_bind.
  { eapply triple_weaken; [apply (modify_task_writes id _ t)|by intros s []| |done].
    intros a s Hs. exact Hs. }
  intros []. eapply triple_bind.
  { eapply triple_weaken; [apply tasks_task; intros ts; apply on_memory_tasks|intros s Hs; exact Hs| |done].
    intros a s Hs. exact Hs. }
  intros rid. apply triple_ret. intros s Hs. eexists. split; [exact Hs|done].
Qed.

(** Committing within the step budget keeps the invariant. *)
Lemma commit_directive_inv id d o t :
  task_steps_taken t < max_steps (task_intent t) →
  triple (λ s, runtime_inv s ∧ task_is id t s) (commit_directive id d o)
    (λ _, runtime_inv) runtime_inv.
Proof.
  intros Hlt. unfold commit_directive. eapply triple_bind.
  { eapply triple_weaken.
    - apply (triple_and _ _ _ _ _ _ _ (commit_effect_maintains id d)
               (tasks_task _ id t (λ ts, commit_effect_tasks ts id d))).
    - done.
    - intros a s Hs. exact Hs.
    - by intros s []. }
  intros []. eapply triple_bind; [apply triple_gets; by intros s []|]. intros tick s [[Hs Ht] _].
  unfold modify_task, task_is in *. rewrite Ht.
  pose proof (wf_tasks s (proj1 Hs)) as [Hn Hall].
  destruct (Hall id t Ht) as [(Hid & Hb & Hm & _) Hid'].
  assert (task_wf id (commit_to_task d o tick t) ∧
          task_goal_id (commit_to_task d o tick t) = task_goal_id t) as [Hwf Hg].
  { unfold commit_to_task. destruct (is_complete d); (split; [|done]).
    all: split_and!; try done; cbn; unfold saturating_add_u32; lia. }
  apply with_task_wf; [done|by apply table_wf_insert|].
  intros g. rewrite Hg. by apply (wf_links s (proj1 Hs) id).
Qed.

(** ** The loop *)
Section loop.
Context {P X V : Type} `{CognitivePlanner P, CognitiveExecutor X, CognitiveVerifier V}
  `{UnicodeTables}.
Implicit Types w : Agents P X V.

Lemma on_state_triple {A} (m : cog_op A) Q R T :
  triple Q m R T →
  triple (λ w, Q (ag_state w)) (on_state (P:=P) (X:=X) (V:=V) m)
    (λ a w, R a (ag_state w)) (λ w, T (ag_state w)).
Proof.
  intros Hm w Hw. specialize (Hm _ Hw). unfold on_state.
  by destruct (m (ag_state w)) as [s' [a|e|]].
Qed.

(** The planner returned [d] for the task; the verifier accepted [d] for it. *)
Definition planned (id : Z) (d : CognitiveDirective) : Prop :=
  ∃ (p p' : P) cx, cs_tasks (cx_state cx) !! id = Some (cx_task cx) ∧ plan p cx = (p', Ok d).
Definition accepted (id : Z) (d : CognitiveDirective) : Prop :=
  ∃ (v v' : V) o cx, cs_tasks (cx_state cx) !! id = Some (cx_task cx) ∧
    verify v d o cx = (v', Accept).
Definition completion_accepted (id : Z) : Prop :=
  ∃ summary, planned id (Complete summary) ∧ accepted id (Complete summary).

(** The three calls only read the state. *)
Lemma call_plan_reads Q id b i :
  triple (λ w, Q (ag_state w)) (call_plan (P:=P) (X:=X) (V:=V) id b i)
    (λ d w, Q (ag_state w) ∧ planned id d) (λ w, Q (ag_state w)).
Proof.
  intros w Hw. unfold call_plan. destruct (cs_tasks _ !! id) as [t|] eqn:Ht; [|done].
  destruct (plan _ _) as [p [d|e|]] eqn:Hp; cbn; try done.
  split; [done|]. exists (ag_planner w), p. eexists. split; [|exact Hp]. exact Ht.
Qed.
Lemma call_execute_reads Q id d b i :
  maintains (λ w, Q (ag_state w)) (call_execute (P:=P) (X:=X) (V:=V) id d b i).
Proof.
  intros w Hw. unfold call_execute. destruct (cs_tasks _ !! id) as [t|]; [|done].
  destruct (execute _ _ _) as [x [o|e|]]; done.
Qed.
Lemma call_verify_reads Q id d o b i :
  triple (λ w, Q (ag_state w)) (call_verify (P:=P) (X:=X) (V:=V) id d o b i)
    (λ decision w, Q (ag_state w) ∧ (decision = Accept → accepted id d)) (λ w, Q (ag_state w)).
Proof.
  intros w Hw. unfold call_verify. destruct (cs_tasks _ !! id) as [t|] eqn:Ht; [|done].
  destruct (verify _ _ _ _) as [v decision] eqn:Hv. cbn. split; [done|]. intros ->.
  exists (ag_verifier w), v, o. eexists. split; [|exact Hv]. exact Ht.
Qed.

Lemma execute_directive_maintains Q id d b i :
  (∀ q tick, maintains Q (on_memory (retrieve q tick))) →
  maintains (λ w, Q (ag_state w)) (execute_directive (P:=P) (X:=X) (V:=V) id d b i).
Proof.
  intros HQ. unfold execute_directive. destruct d; try apply maintains_ret.
  - apply maintains_bind; [|intros; apply maintains_ret].
    apply (on_state_triple _ Q (λ _, Q) Q). apply maintains_bind; [apply maintains_gets|].
    intros. apply HQ.
  - apply call_execute_reads.
Qed.

(** The part of an iteration before the decision is acted on. *)
Definition ready (id : Z) (t : CognitiveTask) (s : CognitiveState) : Prop :=
  runtime_inv s ∧ task_is id t s.

Lemma ready_maintains {A} (m : cog_op A) id t :
  maintains runtime_inv m → (∀ ts, maintains (tasks_are ts) m) → maintains (ready id t) m.
Proof. intros Hm Ht. apply triple_and; [done|]. by apply tasks_task. Qed.

(** What the loop leaves when it returns [it], having started at [iterations]
    with [n] to go. *)
Definition cycle_post (n : nat) (id iterations it : Z) (s : CognitiveState) : Prop :=
  runtime_inv s ∧ iterations ≤ it ≤ iterations + Z.of_nat n ∧
  ∃ t, cs_tasks s !! id = Some t ∧
    match task_status t with
    | TaskRunning => it = iterations + Z.of_nat n
    | TaskCompleted => closed_as (task_goal_id t) GoalCompleted s ∧ completion_accepted id
    | TaskFailed => closed_as (task_goal_id t) GoalFailed s
    | _ => False
    end.

Definition closing_case (id : Z) (status : TaskStatus) (gstatus : GoalStatus) : Prop :=
  ((status, gstatus) = (TaskCompleted, GoalCompleted) ∧ completion_accepted id) ∨
  (status, gstatus) = (TaskFailed, GoalFailed).

Lemma cycle_post_closed n id iterations it s status gstatus :
  runtime_inv s → iterations ≤ it ≤ iterations + Z.of_nat n →
  closed_with id status gstatus s →
  closing_case id status gstatus → cycle_post n id iterations it s.
Proof.
  intros Hinv Hit (t & Ht & Hs & Hc) Hcase. split_and!; [done|lia|lia|].
  exists t. split; [done|]. rewrite Hs. by destruct Hcase as [[[= -> ->] ?]|[= -> ->]].
Qed.

(** The two shapes of the end of an iteration: close the task and leave the
    loop, or write to the running task and go on. *)
Lemma closing_step (m : cog_op unit) id t n iterations it status gstatus :
  maintains runtime_inv m ∨ triple (ready id t) m (λ _, runtime_inv) runtime_inv →
  triple (λ s, is_Some (cs_tasks s !! id)) m (λ _, closed_with id status gstatus) (λ _, True) →
  closing_case id status gstatus → iterations ≤ it ≤ iterations + Z.of_nat n →
  triple (λ w, ready id t (ag_state w)) (do! _ := on_state (P:=P) (X:=X) (V:=V) m in op_ret it)
    (λ it w, cycle_post n id iterations it (ag_state w)) (λ w, runtime_inv (ag_state w)).
Proof.
  intros Hinv Hm Hcase Hit. eapply triple_bind.
  - eapply (on_state_triple m (ready id t)
      (λ _ s, runtime_inv s ∧ closed_with id status gstatus s) runtime_inv).
    assert (triple (ready id t) m (λ _, runtime_inv) runtime_inv) as Hinv'.
    { destruct Hinv as [Hi|Hi]; [|done].
      eapply triple_weaken; [exact Hi|by intros s []|done|done]. }
    eapply triple_weaken; [apply (triple_and _ _ _ _ _ _ _ Hinv' Hm)| |done|by intros s []].
    intros s Hs. split; [done|]. destruct Hs as [_ Ht]. by exists t.
  - intros []. apply triple_ret. intros w [Hi Hc].
    by eapply cycle_post_closed.
Qed.

Lemma continuing_step (m : cog_op unit) (rest : agents_op Z) id t n iterations :
  maintains runtime_inv m ∨ triple (ready id t) m (λ _, runtime_inv) runtime_inv →
  triple (task_is id t) m (λ _ s, ∃ t', task_is id t' s ∧ task_status t' = task_status t)
    (λ _, True) →
  task_status t = TaskRunning →
  triple (λ w, ∃ t, ready id t (ag_state w) ∧ task_status t = TaskRunning) rest
    (λ it w, cycle_post n id (iterations + 1) it (ag_state w)) (λ w, runtime_inv (ag_state w)) →
  triple (λ w, ready id t (ag_state w)) (do! _ := on_state (P:=P) (X:=X) (V:=V) m in rest)
    (λ it w, cycle_post (S n) id iterations it (ag_state w)) (λ w, runtime_inv (ag_state w)).
Proof.
  intros Hinv Hm Hrun Hrest. eapply triple_bind.
  - eapply (on_state_triple m (ready id t) (λ _ s, runtime_inv s ∧
      ∃ t', task_is id t' s ∧ task_status t' = task_status t) runtime_inv).
    assert (triple (ready id t) m (λ _, runtime_inv) runtime_inv) as Hinv'.
    { destruct Hinv as [Hi|Hi]; [|done].
      eapply triple_weaken; [exact Hi|by intros s []|done|done]. }
    eapply triple_weaken; [apply (triple_and _ _ _ _ _ _ _ Hinv' Hm)| |done|by intros s []].
    intros s Hs. split; [done|apply Hs].
  - intros []. eapply triple_weaken; [exact Hrest| | |done].
    + intros w [Hi (t' & Ht' & Hs')]. exists t'. by rewrite Hs'.
    + intros it w (? & ? & t' & Ht' & Hst). split_and!; [done|lia|lia|].
      exists t'. split; [done|]. destruct (task_status t'); try done. lia.
Qed.

Lemma ready_err {A} (m : agents_op A) id t (Q : A → Agents P X V → Prop) :
  triple (λ w, ready id t (ag_state w)) m Q (λ w, ready id t (ag_state w)) →
  triple (λ w, ready id t (ag_state w)) m Q (λ w, runtime_inv (ag_state w)).
Proof. intros Hm. eapply triple_weaken; [exact Hm|done|done|by intros w []]. Qed.

(** Acting on the decision. *)
Lemma decision_step n id budget iteration iterations t d o decision :
  task_steps_taken t < max_steps (task_intent t) → task_status t = TaskRunning →
  planned id d → (decision = Accept → accepted id d) →
  (∀ iteration, triple (λ w, ∃ t, ready id t (ag_state w) ∧ task_status t = TaskRunning)
    (cycle (P:=P) (X:=X) (V:=V) n id budget iteration (iterations + 1))
    (λ it w, cycle_post n id (iterations + 1) it (ag_state w))
    (λ w, runtime_inv (ag_state w))) →
  triple (λ w, ready id t (ag_state w))
    match decision with
    | Accept =>
        do! _ := on_state (commit_directive id d o) in
        if is_complete d then op_ret (iterations + 1)
        else cycle n id budget (iteration + 1) (iterations + 1)
    | Retry reason =>
        do! _ := on_state (retry_task id reason) in
        cycle n id budget (iteration + 1) (iterations + 1)
    | Reject reason =>
        do! _ := on_state (fail_task id reason) in
        op_ret (iterations + 1)
    end
    (λ it w, cycle_post (S n) id iterations it (ag_state w)) (λ w, runtime_inv (ag_state w)).
Proof.
  intros Hlt Hrun Hplan Hacc IH.
  assert (triple (ready id t) (commit_directive id d o) (λ _, runtime_inv) runtime_inv) as Hcommit
    by (by apply commit_directive_inv).
  destruct decision as [|reason|reason]; [destruct (is_complete d) eqn:Hd|..].
  - destruct d; try discriminate Hd.
    eapply (closing_step _ id t); [by right|apply commit_complete_closes| |lia].
    left. split; [done|]. exists summary. by split; [|apply Hacc].
  - eapply continuing_step; [by right|by apply commit_running|done|apply IH].
  - eapply continuing_step; [left; apply retry_task_maintains|apply retry_running|done|apply IH].
  - eapply (closing_step _ id t); [left; apply fail_task_maintains|apply fail_task_closes|by right|lia].
Qed.

Lemma cycle_spec n : ∀ id budget iteration iterations,
  0 ≤ iterations → iterations + Z.of_nat n < 2 ^ 32 →
  triple (λ w, ∃ t, ready id t (ag_state w) ∧ task_status t = TaskRunning)
    (cycle (P:=P) (X:=X) (V:=V) n id budget iteration iterations)
    (λ it w, cycle_post n id iterations it (ag_state w)) (λ w, runtime_inv (ag_state w)).
Proof.
  induction n as [|n IH]; intros id budget iteration iterations Hpos Hbound.
  { apply triple_ret. intros w (t & [Hinv Ht] & Hrun). split_and!; [done|lia|lia|].
    exists t. split; [done|]. rewrite Hrun. lia. }
  intros w (t & Hready & Hrun). revert w Hready.
  change (triple (λ w, ready id t (ag_state w))
    (cycle (P:=P) (X:=X) (V:=V) (S n) id budget iteration iterations)
    (λ it w, cycle_post (S n) id iterations it (ag_state w)) (λ w, runtime_inv (ag_state w))).
  cbn [cycle]. eapply triple_bind.
  { eapply (on_state_triple (get_task id) (ready id t) (λ t' s, ready id t s ∧ t' = t) runtime_inv).
    intros s [Hinv Ht]. unfold get_task, op_gets. pose proof Ht as Ht'. unfold task_is in Ht'.
    rewrite Ht'. cbn. split; [by split|done]. }
  intros t'. apply triple_pure. intros ->.
  destruct (Z.leb_spec (max_steps (task_intent t)) (task_steps_taken t)) as [Hle|Hlt].
  { eapply (closing_step _ id t); [left; apply fail_task_maintains|apply fail_task_closes|by right|lia]. }
  eapply triple_bind.
  { apply ready_err, (on_state_triple advance_tick (ready id t) (λ _, ready id t) (ready id t)).
    apply ready_maintains; [apply advance_tick_maintains|apply advance_tick_tasks]. }
  intros []. eapply triple_bind; [apply ready_err, (call_plan_reads (ready id t))|].
  intros d. apply triple_pure. intros Hplan. eapply triple_bind.
  { apply ready_err, (execute_directive_maintains (ready id t)).
    intros q tick. apply ready_maintains; [|apply on_memory_tasks].
    apply on_memory_maintains. intros. by apply retrieve_wf. }
  intros o. eapply triple_bind; [apply ready_err, (call_verify_reads (ready id t))|].
  intros decision. apply triple_pure. intros Hacc. cbv zeta.
  assert (saturating_add_u32 iterations 1 = iterations + 1) as -> by (unfold saturating_add_u32; lia).
  apply decision_step; [done..|]. intros i. apply IH; lia.
Qed.
End loop.
End CognitionSafety.
