(* ===== verification/Reasoning.v ===== *)
(** Budgeted native reasoning: src/crates/ntd-runtime/src/reasoning.rs.

    Three small implementations of the cognitive traits around a probe, and the
    run of [advance] with them. *)
From stdpp Require Import pretty.
From S2P Require Import Prelude Text Chars Effects Core Memory Signals Cognition.
Import Memory Cognition.

Module Reasoning.

Class NativeReasoningProbe (Q : Type) :=
  probe : Q → CognitiveContext → Q * result string CognitiveObservation.

(** The derived [Debug] of [ReasoningBudget]. *)
Definition budget_debug (b : ReasoningBudget) : string :=
  match b with
  | Reflex => "Reflex" | Standard => "Standard" | Deep => "Deep" | Recovery => "Recovery"
  end.

Inductive BudgetedReasoningPlanner := TheReasoningPlanner.
#[export] Instance budgeted_plan : CognitivePlanner BudgetedReasoningPlanner :=
  λ p cx, (p, Ok (Work ("native reasoning probe iteration " +:+ pretty (cx_iteration cx)
                        +:+ " budget " +:+ budget_debug (cx_budget cx)))).

(** [NativeReasoningExecutor] borrows the probe. *)
Record NativeReasoningExecutor (Q : Type) := mkReasoningExecutor { re_probe : Q }.
Arguments mkReasoningExecutor {Q}.
Arguments re_probe {Q}.

#[export] Instance native_execute {Q} `{NativeReasoningProbe Q} :
  CognitiveExecutor (NativeReasoningExecutor Q) :=
  λ x d cx,
  match d with
  | Work _ => let '(q, r) := probe (re_probe x) cx in (mkReasoningExecutor q, r)
  | _ => (x, Err "budgeted native reasoning executor only accepts Work directives"%string)
  end.

Inductive NativeReasoningVerifier := TheReasoningVerifier.
#[export] Instance native_verify : CognitiveVerifier NativeReasoningVerifier :=
  λ v d o _,
  match d with
  | Work _ =>
      if is_blank (ob_summary o) || bool_decide (ob_evidence o = [])
      then (v, Reject "native reasoning probe returned unverified evidence")
      else (v, Accept)
  | _ => (v, Reject "unexpected directive in native reasoning loop")
  end.

Section run.
Context {Q : Type} `{NativeReasoningProbe Q} `{UnicodeTables}.

Definition run_budgeted_reasoning_cycle (id : Z) (signals : CognitiveSignals)
  : op (CognitiveState * Q) CognitiveError CognitiveCycleReport := λ '(s, q),
  let '(w, r) := advance id signals
                   (mkAgents s TheReasoningPlanner (mkReasoningExecutor q) TheReasoningVerifier) in
  ((ag_state w, re_probe (ag_executor w)), r).
End run.

End Reasoning.
