(* ===== verification/CognitionTheorems.v ===== *)
(** What the cognitive runtime guarantees: restoring accepts exactly the
    well-formed states, advancing a task keeps them so, settles the task and its
    goal together, and touches nothing else. *)
From stdpp Require Import pretty.
From S2P Require Import Prelude Text Chars Collections Effects Core Memory Signals Cognition.
From S2P Require Import CognitionSafety Reasoning.
Import Memory Cognition CognitionSafety Reasoning.

Module CognitionTheorems.

(** ** The frame *)
Definition same_task (t0 t : CognitiveTask) : Prop :=
  task_id t = task_id t0 ∧ task_goal_id t = task_goal_id t0 ∧ task_intent t = task_intent t0 ∧
  task_graph t = task_graph t0 ∧ task_created_tick t = task_created_tick t0.
Definition same_goal (g0 g : Goal) : Prop :=
  goal_id g = goal_id g0 ∧ goal_objective g = goal_objective g0 ∧
  goal_completion_criteria g = goal_completion_criteria g0 ∧
  goal_created_tick g = goal_created_tick g0.

(** What working on task [id] leaves as it was in [s0]. *)
Record frame (id : Z) (s0 s : CognitiveState) : Prop := {
  fr_identity : cs_identity s = cs_identity s0;
  fr_counters : cs_next_goal_id s = cs_next_goal_id s0 ∧ cs_next_task_id s = cs_next_task_id s0 ∧
                cs_next_delta_id s = cs_next_delta_id s0;
  fr_deltas : cs_deltas s = cs_deltas s0;
  fr_tick : cs_tick s0 ≤ cs_tick s;
  fr_tasks : ∀ i, i ≠ id → cs_tasks s !! i = cs_tasks s0 !! i;
  fr_task : option_Forall2 same_task (cs_tasks s0 !! id) (cs_tasks s !! id);
  fr_goals : ∀ g, (cs_tasks s0 !! id ≫= task_goal_id) ≠ Some g →
             cs_goals s !! g = cs_goals s0 !! g;
  fr_goal : ∀ g, option_Forall2 same_goal (cs_goals s0 !! g) (cs_goals s !! g);
}.

Lemma same_task_refl t : same_task t t.
Proof. by repeat split. Qed.
Lemma same_goal_refl g : same_goal g g.
Proof. by repeat split. Qed.

Lemma frame_refl id s : frame id s s.
Proof.
  split; try done.
  - destruct (cs_tasks s !! id); constructor. apply same_task_refl.
  - intros g. destruct (cs_goals s !! g); constructor. apply same_goal_refl.
Qed.

Section frame_ops.
Context (id : Z) (s0 : CognitiveState).

(** A step that changes the tick, the memory or the world only. *)
Lemma frame_side s s' :
  frame id s0 s → cs_identity s' = cs_identity s →
  (cs_next_goal_id s', cs_next_task_id s', cs_next_delta_id s')
    = (cs_next_goal_id s, cs_next_task_id s, cs_next_delta_id s) →
  cs_deltas s' = cs_deltas s → cs_tick s ≤ cs_tick s' → cs_tasks s' = cs_tasks s →
  cs_goals s' = cs_goals s → frame id s0 s'.
Proof.
  intros [Hi Hc Hd Ht Hts Htk Hgs Hg] Hi' [= Hc1 Hc2 Hc3] Hd' Ht' Hts' Hgs'.
  split; rewrite ?Hi', ?Hc1, ?Hc2, ?Hc3, ?Hd', ?Hts', ?Hgs'; try done. lia.
Qed.

Lemma frame_advance_tick : maintains (frame id s0) advance_tick.
Proof.
  intros s Hs. unfold advance_tick. destruct (checked_add_u64 _ 1) as [tick|] eqn:Hadd; [|done].
  apply checked_add_inv in Hadd as [-> _]. by apply (frame_side s); try done; cbn; lia.
Qed.

Lemma frame_on_memory {A} (m : mem_op A) : maintains (frame id s0) (on_memory m).
Proof.
  intros s Hs. unfold on_memory.
  destruct (m (cs_memory s)) as [mem [a|e|]]; cbn; by apply (frame_side s).
Qed.

Lemma frame_set_world_fact key value : maintains (frame id s0) (set_world_fact key value).
Proof.
  intros s Hs. unfold set_world_fact. destruct (is_blank key); [done|]. by apply (frame_side s).
Qed.

Lemma frame_modify_task f : (∀ t, same_task t (f t)) → maintains (frame id s0) (modify_task id f).
Proof.
  intros Hf s Hs. unfold modify_task. destruct (cs_tasks s !! id) as [t|] eqn:Ht; [|done].
  destruct Hs as [Hi Hc Hd Htk Hts Ht0 Hgs Hg]. split; try done; cbn.
  - intros i Hne. rewrite lookup_insert_ne by done. by apply Hts.
  - rewrite lookup_insert_eq. rewrite Ht in Ht0. inversion Ht0 as [t0 ? Hsame|]; subst.
    constructor. destruct Hsame as (?&?&?&?&?), (Hf t) as (?&?&?&?&?).
    split_and!; congruence.
Qed.

Lemma frame_close_goal goal status :
  (∀ g, goal = Some g → (cs_tasks s0 !! id ≫= task_goal_id) = Some g) →
  maintains (frame id s0) (close_goal goal status).
Proof.
  intros Hgoal s Hs. unfold close_goal. destruct goal as [g|]; cbn; [|done].
  destruct (cs_goals s !! g) as [x|] eqn:Hx; cbn; [|done].
  destruct Hs as [Hi Hc Hd Htk Hts Ht0 Hgs Hg]. split; try done; cbn.
  - intros g' Hne. rewrite lookup_insert_ne; [by apply Hgs|]. intros <-. by apply Hne, Hgoal.
  - intros g'. destruct (decide (g = g')) as [<-|Hne]; [|by rewrite lookup_insert_ne].
    rewrite lookup_insert_eq. specialize (Hg g). rewrite Hx in Hg.
    inversion Hg as [x0 ? Hsame|]; subst. by constructor.
Qed.

(** The goal of the task in the current state is the goal it had. *)
Lemma frame_get_task :
  triple (frame id s0) (get_task id)
    (λ t s, frame id s0 s ∧
       ∀ g, task_goal_id t = Some g → (cs_tasks s0 !! id ≫= task_goal_id) = Some g)
    (frame id s0).
Proof.
  intros s Hs. unfold get_task, op_gets. destruct (cs_tasks s !! id) as [t|] eqn:Ht; cbn; [|done].
  split; [done|]. intros g Hg. pose proof (fr_task _ _ _ Hs) as Ht0. rewrite Ht in Ht0.
  inversion Ht0 as [t0 ? (_ & Hsame & _) Heq|]; subst. cbn. congruence.
Qed.

Lemma frame_task_then {A} (k : CognitiveTask → cog_op A) :
  (∀ t, (∀ g, task_goal_id t = Some g → (cs_tasks s0 !! id ≫= task_goal_id) = Some g) →
    maintains (frame id s0) (k t)) →
  maintains (frame id s0) (do! t := get_task id in k t).
Proof.
  intros Hk. eapply triple_bind; [apply frame_get_task|]. intros t.
  apply triple_pure. by apply Hk.
Qed.
End frame_ops.

#[local] Hint Resolve frame_advance_tick frame_on_memory frame_set_world_fact : maintains.

Ltac frame_step :=
  repeat first
    [ progress intros
    | apply frame_task_then
    | apply maintains_bind | apply maintains_if
    | apply frame_modify_task; intros; by repeat split
    | apply frame_close_goal; assumption
    | solve [eauto with maintains nocore]
    | case_match ].

Lemma frame_fail_task id s0 reason : maintains (frame id s0) (fail_task id reason).
Proof. unfold fail_task, get_tick. frame_step. Qed.
Lemma frame_retry_task id s0 reason : maintains (frame id s0) (retry_task id reason).
Proof. unfold retry_task, get_tick. frame_step. Qed.
Lemma commit_same_task d o tick t : same_task t (commit_to_task d o tick t).
Proof. unfold commit_to_task. by destruct (is_complete d). Qed.
Lemma frame_commit_directive id s0 d o : maintains (frame id s0) (commit_directive id d o).
Proof.
  unfold commit_directive, commit_effect, get_tick. frame_step.
  apply frame_modify_task, commit_same_task.
Qed.

#[local] Hint Resolve frame_fail_task frame_retry_task frame_commit_directive : maintains.

Section loop_frame.
Context {P X V : Type} `{CognitivePlanner P, CognitiveExecutor X, CognitiveVerifier V}
  `{UnicodeTables}.

Lemma frame_on_state {A} id s0 (m : cog_op A) :
  maintains (frame id s0) m →
  maintains (λ w, frame id s0 (ag_state w)) (on_state (P:=P) (X:=X) (V:=V) m).
Proof. intros Hm. exact (on_state_triple m _ _ _ Hm). Qed.

Lemma frame_cycle n : ∀ id s0 budget iteration iterations,
  maintains (λ w, frame id s0 (ag_state w))
    (cycle (P:=P) (X:=X) (V:=V) n id budget iteration iterations).
Proof.
  induction n as [|n IH]; intros id s0 budget iteration iterations; cbn [cycle];
    [apply maintains_ret|].
  apply maintains_bind; [apply frame_on_state; unfold get_task; apply maintains_gets|intros t].
  apply maintains_if.
  { apply maintains_bind; [apply frame_on_state, frame_fail_task|intros; apply maintains_ret]. }
  apply maintains_bind; [apply frame_on_state, frame_advance_tick|intros _].
  apply maintains_bind; [|intros d].
  { eapply triple_weaken; [apply (call_plan_reads (frame id s0))|done|by intros ?? []|done]. }
  apply maintains_bind; [|intros o].
  { apply execute_directive_maintains. intros. apply frame_on_memory. }
  apply maintains_bind; [|intros decision].
  { eapply triple_weaken; [apply (call_verify_reads (frame id s0))|done|by intros ?? []|done]. }
  cbv zeta. destruct decision.
  - apply maintains_bind; [apply frame_on_state, frame_commit_directive|intros _].
    apply maintains_if; [apply maintains_ret|apply IH].
  - apply maintains_bind; [apply frame_on_state, frame_retry_task|intros; apply IH].
  - apply maintains_bind; [apply frame_on_state, frame_fail_task|intros; apply maintains_ret].
Qed.

Lemma frame_advance id s0 signals :
  maintains (λ w, frame id s0 (ag_state w)) (advance (P:=P) (X:=X) (V:=V) id signals).
Proof.
  unfold advance. cbv zeta.
  apply maintains_bind; [apply frame_on_state; unfold get_task; apply maintains_gets|intros t].
  apply maintains_if; [apply maintains_ret|].
  apply maintains_bind; [|intros _].
  { apply frame_on_state, frame_modify_task. by repeat split. }
  apply maintains_bind; [apply frame_cycle|intros it].
  apply maintains_bind; [apply frame_on_state; unfold get_task; apply maintains_gets|].
  intros. apply maintains_ret.
Qed.

Lemma iterations_bound b : 1 ≤ iterations_for_budget b ≤ 4.
Proof. by destruct b. Qed.

(** A run of [advance] on a task that is not terminal. *)
Lemma advance_spec id signals w t :
  runtime_inv (ag_state w) → task_is id t (ag_state w) → is_terminal (task_status t) = false →
  let budget := choose_reasoning_budget signals in
  match advance (P:=P) (X:=X) (V:=V) id signals w with
  | (w', Ok rep) =>
      cycle_post (P:=P) (V:=V) (Z.to_nat (iterations_for_budget budget)) id 0 (cr_iterations rep)
        (ag_state w') ∧
      ∃ t', task_is id t' (ag_state w') ∧ rep = report t' budget (cr_iterations rep)
  | (w', _) => runtime_inv (ag_state w')
  end.
Proof.
  intros Hinv Ht Hterm budget. pose proof (iterations_bound budget) as Hb.
  unfold advance. cbv zeta. fold budget.
  rewrite (op_bind_ok _ _ w w t) by (unfold on_state, get_task, op_gets; unfold task_is in Ht;
    rewrite Ht; by destruct w).
  rewrite Hterm.
  set (w1 := mkAgents (set_cs_tasks (cs_next_task_id (ag_state w))
     (<[id := set_task_status TaskRunning t]> (cs_tasks (ag_state w))) (ag_state w))
     (ag_planner w) (ag_executor w) (ag_verifier w)).
  assert (on_state (P:=P) (X:=X) (V:=V) (modify_task id (set_task_status TaskRunning)) w = (w1, Ok tt)) as Hmod.
  { unfold on_state, modify_task. unfold task_is in Ht. by rewrite Ht. }
  rewrite (op_bind_ok _ _ _ _ _ Hmod).
  assert (ready id (set_task_status TaskRunning t) (ag_state w1)) as Hready.
  { split; [|unfold task_is; cbn; by rewrite lookup_insert_eq].
    assert (maintains runtime_inv (modify_task id (set_task_status TaskRunning))) as Hm
      by (by apply modify_task_maintains).
    specialize (Hm _ Hinv). unfold modify_task in Hm. unfold task_is in Ht. by rewrite Ht in Hm. }
  unfold op_bind at 1.
  pose proof (cycle_spec (Z.to_nat (iterations_for_budget budget)) id budget 0 0 ltac:(lia) ltac:(lia)
                w1 (ex_intro _ _ (conj Hready eq_refl))) as Hc.
  destruct (cycle _ _ _ _ _ w1) as [w2 [it|e|]]; [|done..].
  pose proof Hc as (Hinv2 & _ & t' & Ht' & _).
  rewrite (op_bind_ok _ _ w2 w2 t') by (unfold on_state, get_task, op_gets; rewrite Ht'; by destruct w2).
  split; [exact Hc|]. by exists t'.
Qed.

(** A terminal task is reported and nothing changes. *)
Lemma advance_terminal id signals w t :
  task_is id t (ag_state w) → is_terminal (task_status t) = true →
  advance (P:=P) (X:=X) (V:=V) id signals w =
    (w, Ok (report t (choose_reasoning_budget signals) 0)).
Proof.
  intros Ht Hterm. unfold advance. cbv zeta.
  rewrite (op_bind_ok _ _ w w t) by (unfold on_state, get_task, op_gets; unfold task_is in Ht;
    rewrite Ht; by destruct w).
  by rewrite Hterm.
Qed.
End loop_frame.

(** ** Completing from outside *)

(** [commit_directive] has no step check: on a task that has used its budget
    the completion goes through and the task exceeds it. *)
Lemma complete_external_steps id summary s s' t :
  task_is id t s → 0 ≤ task_steps_taken t < 2 ^ 32 - 1 →
  complete_external_task id summary s = (s', Ok tt) →
  ∃ t', task_is id t' s' ∧ task_steps_taken t' = task_steps_taken t + 1 ∧
    task_intent t' = task_intent t ∧ task_status t' = TaskCompleted.
Proof.
  intros Ht Hn. unfold complete_external_task. destruct (is_blank summary); [done|].
  intros [(s1 & [] & Htick & Hc)|[(e & _ & ?)|[_ ?]]]%op_bind_inv; [|done..].
  unfold task_is in *.
  assert (cs_tasks s1 !! id = Some t) as Ht1.
  { unfold advance_tick in Htick. destruct (checked_add_u64 _ _); by simplify_eq/=. }
  unfold commit_directive in Hc.
  apply op_bind_inv in Hc as [(s2 & [] & He & Hc)|[(e & _ & ?)|[_ ?]]]; [|done..].
  pose proof (commit_effect_tasks (cs_tasks s1) id (Complete summary) s1 eq_refl) as Hts.
  rewrite He in Hts. unfold tasks_are in Hts.
  apply op_bind_inv in Hc as [(s3 & tick & Hg & Hc)|[(e & ? & ?)|[? ?]]]; [|done..].
  unfold get_tick, op_gets in Hg. injection Hg as <- <-.
  unfold modify_task in Hc. rewrite Hts, Ht1 in Hc. injection Hc as <-. cbn.
  rewrite lookup_insert_eq. eexists. split; [done|]. cbn. unfold saturating_add_u32.
  split_and!; [lia|done|done].
Qed.

Lemma complete_external_maintains id summary t s :
  runtime_inv s → task_is id t s → task_steps_taken t < max_steps (task_intent t) →
  runtime_inv (complete_external_task id summary s).1.
Proof.
  intros Hinv Ht Hlt. unfold complete_external_task. destruct (is_blank summary); [done|].
  assert (triple (ready id t)
    (do! _ := advance_tick in
     commit_directive id (Complete summary) (CognitiveObservation_new summary))
    (λ _, runtime_inv) runtime_inv) as Hm.
  { apply (triple_bind _ _ _ (λ _, ready id t)); [|intros []; by apply (commit_directive_inv id _ _ t)].
    eapply triple_weaken;
      [apply (ready_maintains advance_tick id t);
         [apply advance_tick_maintains|apply advance_tick_tasks]|done..|by intros s' []]. }
  specialize (Hm s (conj Hinv Ht)). by destruct (op_bind _ _ s) as [s' [[]|e|]].
Qed.

(** ** Reachable states *)
Inductive cognitive_step `{UnicodeTables} (s : CognitiveState) : CognitiveState → Prop :=
| step_goal objective criteria : cognitive_step s (add_goal objective criteria s).1
| step_submit intent graph goal :
    0 ≤ max_steps intent → cognitive_step s (submit_task intent graph goal s).1
| step_fact key value : cognitive_step s (set_world_fact key value s).1
| step_install namespace generation payload :
    cognitive_step s (install_delta namespace generation payload s).1
| step_activate {H : Type} `{DeltaActivationHook H} id (h : H) :
    cognitive_step s (activate_delta id (s, h)).1.1
| step_start id : cognitive_step s (start_external_task id s).1
| step_pause id reason : cognitive_step s (pause_external_task id reason s).1
| step_complete id summary t :
    cs_tasks s !! id = Some t → task_steps_taken t < max_steps (task_intent t) →
    cognitive_step s (complete_external_task id summary s).1
| step_advance {P X V : Type} `{CognitivePlanner P, CognitiveExecutor X, CognitiveVerifier V}
    id signals (p : P) (x : X) (v : V) :
    cognitive_step s (ag_state (advance id signals (mkAgents s p x v)).1).

Lemma activate_delta_maintains {H} `{DeltaActivationHook H} id s (h : H) :
  runtime_inv s → runtime_inv (activate_delta id (s, h)).1.1.
Proof.
  intros [[] Hm]. unfold activate_delta. destruct (cs_deltas s !! id) as [d|] eqn:Hd; [|done].
  destruct (activate h d) as [h' [[]|e|]]; try done. cbn. split; [|done]. split; try done. cbn.
  pose proof wf_deltas0 as [? Hall]. destruct (Hall id d Hd) as [[? ?] ?].
  by apply table_wf_insert.
Qed.

Lemma advance_maintains {P X V} `{CognitivePlanner P, CognitiveExecutor X, CognitiveVerifier V}
    `{UnicodeTables} id signals (w : Agents P X V) :
  runtime_inv (ag_state w) → runtime_inv (ag_state (advance id signals w).1).
Proof.
  intros Hinv. destruct (cs_tasks (ag_state w) !! id) as [t|] eqn:Ht.
  - destruct (is_terminal (task_status t)) eqn:Hterm.
    + by rewrite (advance_terminal id signals w t).
    + pose proof (advance_spec id signals w t Hinv Ht Hterm) as Hs. cbv zeta in Hs.
      destruct (advance id signals w) as [w' [rep|e|]]; [|done..]. by destruct Hs as [[? _] _].
  - unfold advance. cbv zeta. unfold op_bind at 1, on_state at 1, get_task, op_gets. by rewrite Ht.
Qed.

Lemma cognitive_step_inv `{UnicodeTables} s s' :
  runtime_inv s → cognitive_step s s' → runtime_inv s'.
Proof.
  intros Hs Hstep. destruct Hstep.
  - by apply (maintains_fst runtime_inv); [apply add_goal_maintains|].
  - by apply (maintains_fst runtime_inv); [apply submit_task_maintains|].
  - by apply (maintains_fst runtime_inv); [apply set_world_fact_maintains|].
  - by apply (maintains_fst runtime_inv); [apply install_delta_maintains|].
  - by apply activate_delta_maintains.
  - by apply (maintains_fst runtime_inv); [apply start_external_task_maintains|].
  - by apply (maintains_fst runtime_inv); [apply pause_external_task_maintains|].
  - by eapply complete_external_maintains.
  - by apply advance_maintains.
Qed.

(** ** Properties *)

(** CognitiveRuntime::from_state returns a typed state unchanged exactly when it
    satisfies the declarative invariant, and rejects every other. *)
Theorem from_state_accepts s :
  state_typed s → from_state s = Ok s ↔ cognitive_wf s.
Proof.
  intros Hty%typed_unsigned. rewrite <- validate_state_Ok by done. unfold from_state.
  destruct (validate_state s) as [[]| |]; naive_solver.
Qed.

(** C10: Every state reached from a new one by adding goals, submitting tasks, setting
    facts, installing and activating deltas, advancing tasks with any planner, executor and
    verifier, and starting, pausing or (below their step limit) completing external tasks is
    accepted by CognitiveRuntime::from_state, and its memory by
    SovereignMemory::from_parts. *)
Theorem cognitive_reachable_valid `{UnicodeTables} identity s :
  rtc cognitive_step (CognitiveState_new identity) s →
  from_state s = Ok s ∧ from_parts (mem_next_id (cs_memory s)) (mem_records (cs_memory s))
                          = Ok (cs_memory s).
Proof.
  intros Hs. assert (runtime_inv s) as [Hwf Hmem].
  { revert s Hs. apply (rtc_ind_r runtime_inv); [apply CognitiveState_new_inv|].
    intros s1 s2 _ Hstep Hinv. by apply (cognitive_step_inv s1). }
  split.
  - apply wf_unsigned in Hwf as Hu. unfold from_state.
    by rewrite (proj2 (validate_state_Ok s Hu) Hwf).
  - apply from_parts_Ok; [destruct Hmem; lia|]. by destruct (cs_memory s).
Qed.

Section properties.
Context {P X V : Type} `{CognitivePlanner P, CognitiveExecutor X, CognitiveVerifier V}
  `{UnicodeTables}.

(** A call of advance on a task of a valid state that returns reports the status the
    task now has, within the iterations of the chosen budget and the step limit of the
    intent: a terminal task is left alone, a running one has used exactly the iterations of
    the budget, a completed one was completed by a planned and accepted Complete directive
    and has closed its goal, a failed one has failed its goal, and no other status is
    possible; a call that errs leaves a valid state. *)
Theorem advance_settles id signals (w : Agents P X V) t :
  runtime_inv (ag_state w) → cs_tasks (ag_state w) !! id = Some t →
  let budget := choose_reasoning_budget signals in
  match advance id signals w with
  | (w', Ok rep) =>
      ∃ t', cs_tasks (ag_state w') !! id = Some t' ∧
        rep = report t' budget (cr_iterations rep) ∧
        0 ≤ cr_iterations rep ≤ iterations_for_budget budget ∧
        task_steps_taken t' ≤ max_steps (task_intent t') ∧
        if is_terminal (task_status t) then w' = w ∧ t' = t ∧ cr_iterations rep = 0
        else match task_status t' with
             | TaskRunning => cr_iterations rep = iterations_for_budget budget
             | TaskCompleted =>
                 (∀ g x, task_goal_id t' = Some g → cs_goals (ag_state w') !! g = Some x →
                    goal_status x = GoalCompleted) ∧
                 ∃ summary, planned (P:=P) id (Complete summary) ∧
                            accepted (V:=V) id (Complete summary)
             | TaskFailed =>
                 ∀ g x, task_goal_id t' = Some g → cs_goals (ag_state w') !! g = Some x →
                   goal_status x = GoalFailed
             | _ => False
             end
  | (w', _) => is_terminal (task_status t) = false ∧ runtime_inv (ag_state w')
  end.
Proof.
  intros Hinv Ht budget. pose proof (iterations_bound budget) as Hb.
  destruct (is_terminal (task_status t)) eqn:Hterm.
  - rewrite (advance_terminal id signals w t Ht Hterm). exists t.
    destruct (wf_tasks _ (proj1 Hinv)) as [_ Hall].
    destruct (Hall id t Ht) as [(_ & _ & _ & ?) _]. cbn. split_and!; try done; lia.
  - pose proof (advance_spec id signals w t Hinv Ht Hterm) as Hs. cbv zeta in Hs. fold budget in Hs.
    destruct (advance id signals w) as [w' [rep|e|]]; [|done..].
    destruct Hs as [(Hinv' & Hit & t1 & Ht1 & Hst) (t' & Ht' & Hrep)].
    unfold task_is in Ht'. rewrite Ht1 in Ht'. injection Ht' as <-. exists t1.
    destruct (wf_tasks _ (proj1 Hinv')) as [_ Hall].
    destruct (Hall id t1 Ht1) as [(_ & _ & _ & ?) _].
    split_and!; [done|done|lia|lia|done|]. destruct (task_status t1); try done. lia.
Qed.

(** Whatever its planner, executor and verifier do, advance changes no other task, no
    goal but that of its task, no id, intent or graph, no identity, delta or id counter, and
    never turns the clock back. *)
Theorem advance_frame id signals (w : Agents P X V) :
  let s := ag_state w in
  let s' := ag_state (advance id signals w).1 in
  cs_identity s' = cs_identity s ∧ cs_deltas s' = cs_deltas s ∧ cs_tick s ≤ cs_tick s' ∧
  (cs_next_goal_id s', cs_next_task_id s', cs_next_delta_id s')
    = (cs_next_goal_id s, cs_next_task_id s, cs_next_delta_id s) ∧
  (∀ i, i ≠ id → cs_tasks s' !! i = cs_tasks s !! i) ∧
  option_Forall2 same_task (cs_tasks s !! id) (cs_tasks s' !! id) ∧
  (∀ g, (cs_tasks s !! id ≫= task_goal_id) ≠ Some g → cs_goals s' !! g = cs_goals s !! g) ∧
  (∀ g, option_Forall2 same_goal (cs_goals s !! g) (cs_goals s' !! g)).
Proof.
  cbv zeta. pose proof (frame_advance id (ag_state w) signals w (frame_refl id _)) as Hf.
  destruct (advance id signals w) as [w' r]. cbn [fst].
  assert (frame id (ag_state w) (ag_state w')) as [Hi (Hc1 & Hc2 & Hc3) ?????] by (by destruct r).
  rewrite Hi, Hc1, Hc2, Hc3. done.
Qed.
End properties.

(** Completing an external task that has used all its steps succeeds and leaves a state
    that CognitiveRuntime::from_state rejects. *)
Theorem external_completion_overruns id summary s s' t :
  runtime_inv s → cs_tasks s !! id = Some t →
  0 ≤ task_steps_taken t < 2 ^ 32 - 1 → task_steps_taken t = max_steps (task_intent t) →
  complete_external_task id summary s = (s', Ok tt) →
  ¬ is_ok (from_state s').
Proof.
  intros Hinv Ht Hn Hmax Hc.
  destruct (complete_external_steps id summary s s' t Ht Hn Hc) as (t' & Ht' & Hst & Hint & _).
  unfold from_state. destruct (validate_state s') as [[]| |] eqn:Hv; [|by intros []..].
  exfalso. unfold validate_state in Hv.
  destruct (_ || _); [done|]. destruct (_ || _); [done|].
  destruct (check_all _ (btree_iter (cs_goals s'))) as [[]| |]; [|done..].
  destruct (check_all (validate_task s') (btree_iter (cs_tasks s'))) as [[]| |] eqn:Hts; [|done..].
  apply validate_tasks_Ok in Hts as [Hall _]. destruct (Hall id t' Ht') as (_ & _ & _ & Hle).
  rewrite Hint in Hle. lia.
Qed.

(** A budgeted reasoning cycle keeps the invariant and never completes its task: it
    ends failed, or running after exactly the iterations of its budget. *)
Theorem reasoning_cycle_never_completes {Q} `{NativeReasoningProbe Q} `{UnicodeTables}
    id signals s (q : Q) s' rep t :
  runtime_inv s → cs_tasks s !! id = Some t → is_terminal (task_status t) = false →
  run_budgeted_reasoning_cycle id signals (s, q) = (s', Ok rep) →
  runtime_inv s'.1 ∧ ∃ t', cs_tasks s'.1 !! id = Some t' ∧ cr_status rep = task_status t' ∧
    (task_status t' = TaskFailed ∨
     task_status t' = TaskRunning ∧
     cr_iterations rep = iterations_for_budget (choose_reasoning_budget signals)).
Proof.
  intros Hinv Ht Hterm. unfold run_budgeted_reasoning_cycle.
  pose proof (advance_spec id signals
    (mkAgents s TheReasoningPlanner (mkReasoningExecutor q) TheReasoningVerifier) t Hinv Ht Hterm) as Hs.
  cbv zeta in Hs. destruct (advance _ _ _) as [w' [rep'|e|]]; [|done..].
  intros [= <- <-]. destruct Hs as [(Hinv' & _ & t1 & Ht1 & Hst) (t' & Ht' & Hrep)].
  unfold task_is in Ht'. rewrite Ht1 in Ht'. injection Ht' as <-. split; [done|].
  pose proof (iterations_bound (choose_reasoning_budget signals)).
  exists t1. split_and!; [done|by rewrite Hrep|]. destruct (task_status t1); try done.
  - right. split; [done|]. lia.
  - destruct Hst as [_ (summary & (p & p' & cx & _ & Hp) & _)]. discriminate Hp.
  - by left.
Qed.

(** ** Concrete instances

    A planner and a verifier that follow a script, and a state with one task. *)
#[local] Instance no_tables : UnicodeTables := {| unicode_alphanumeric _ := false |}.
#[local] Instance script_plan : CognitivePlanner (list CognitiveDirective) :=
  λ ds _, match ds with d :: ds' => (ds', Ok d) | [] => ([], Err "no directive"%string) end.
#[local] Instance script_execute : CognitiveExecutor unit :=
  λ x _ _, (x, Ok {| ob_summary := "worked"; ob_evidence := ["log"%string] |}).
#[local] Instance script_verify : CognitiveVerifier (list VerificationDecision) :=
  λ vs _ _ _, match vs with v :: vs' => (vs', v) | [] => ([], Accept) end.
#[local] Instance constant_probe : NativeReasoningProbe unit :=
  λ q _, (q, Ok {| ob_summary := "probed"; ob_evidence := ["trace"%string] |}).

Definition sample_identity : bytes := replicate 16 zero_byte.
Definition sample_intent : Intent :=
  {| objective := "answer the user"; completion_criteria := []; max_steps := 1 |}.
Definition sample_state : CognitiveState :=
  (submit_task sample_intent {| tg_actions := [] |} (Some 1)
     (add_goal "be useful" [] (CognitiveState_new sample_identity)).1).1.
Definition failure_signals : CognitiveSignals := mkSignals 0 0 true.
Definition sample_agents := mkAgents sample_state
  [Work "look it up"; Complete "answered"] tt [Retry "not yet"; Accept].
(** The task has used its one step. *)
Definition spent_state : CognitiveState :=
  ag_state (advance 1 (mkSignals 0 0 false)
              (mkAgents sample_state [Work "look it up"] tt [Accept])).1.

Lemma sample_reachable : rtc cognitive_step (CognitiveState_new sample_identity) sample_state.
Proof.
  eapply rtc_r; [eapply rtc_once|].
  - apply (step_goal _ "be useful" []).
  - by apply (step_submit _ sample_intent {| tg_actions := [] |} (Some 1)).
Defined.

Lemma sample_inv : runtime_inv sample_state.
Proof.
  apply (maintains_fst runtime_inv); [by apply submit_task_maintains|].
  apply (maintains_fst runtime_inv); [apply add_goal_maintains|apply CognitiveState_new_inv].
Qed.

Lemma spent_inv : runtime_inv spent_state.
Proof. apply advance_maintains, sample_inv. Qed.

(** The facts about one entry are closed comparisons and UTF-8 checks. *)
Ltac closed_fact :=
  repeat match goal with
  | |- _ ∧ _ => split
  | |- goal_typed _ _ => unfold goal_typed; cbn [goal_id goal_objective goal_completion_criteria goal_created_tick goal_updated_tick]
  | |- task_typed _ _ => unfold task_typed; cbn [task_id task_goal_id task_intent task_graph task_steps_taken
      task_verification_failures task_last_observation task_created_tick task_updated_tick tg_actions]
  | |- intent_typed _ => unfold intent_typed; cbn [objective completion_criteria max_steps sample_intent]
  | |- is_utf8 _ => vm_compute; reflexivity
  | |- Forall _ [] => constructor
  | |- Forall _ (_ :: _) => constructor
  | |- ∀ _, None = Some _ → _ => done
  | |- ∀ _, Some _ = Some _ → _ => intros ? [= <-]
  | |- _ = true => vm_compute; reflexivity
  | |- in_u64 _ => by vm_compute
  | |- in_u32 _ => by vm_compute
  | |- in_u16 _ => by vm_compute
  end.
Lemma sample_typed : state_typed sample_state.
Proof.
  split; [done|by vm_compute|by vm_compute|..].
  - apply map_Forall_insert_2; [|apply map_Forall_empty]. closed_fact.
  - apply map_Forall_insert_2; [|apply map_Forall_empty]. closed_fact.
  - apply map_Forall_empty.
  - split; [apply mem_new_wf|apply map_Forall_empty].
  - apply map_Forall_empty.
Qed.

Lemma from_state_accepts_witness : from_state sample_state = Ok sample_state.
Proof. apply (from_state_accepts sample_state sample_typed), sample_inv. Defined.

Lemma cognitive_reachable_valid_witness : from_state sample_state = Ok sample_state.
Proof. apply (cognitive_reachable_valid sample_identity sample_state sample_reachable). Defined.

Lemma advance_settles_witness :
  match advance 1 failure_signals sample_agents with
  | (w', Ok rep) => cr_iterations rep = 2 ∧ cr_status rep = TaskCompleted ∧
      goal_status <$> cs_goals (ag_state w') !! 1 = Some GoalCompleted
  | _ => False
  end.
Proof.
  destruct (cs_tasks (ag_state sample_agents) !! 1) as [t|] eqn:Ht; [|vm_compute in Ht; discriminate].
  pose proof (advance_settles 1 failure_signals sample_agents t sample_inv Ht) as Hs.
  destruct (advance _ _ _) as [w' [rep|e|]] eqn:Ha; vm_compute in Ha; try discriminate.
  injection Ha as <- <-. vm_compute. done.
Defined.

Lemma spent_task : ∃ t, cs_tasks spent_state !! 1 = Some t ∧
  0 ≤ task_steps_taken t < 2 ^ 32 - 1 ∧ task_steps_taken t = max_steps (task_intent t).
Proof. eexists. split; [vm_compute; reflexivity|]. vm_compute. repeat split; congruence. Qed.

Lemma external_completion_overruns_witness :
  match complete_external_task 1 "answered" spent_state with
  | (s', Ok _) => is_ok (from_state spent_state) ∧ ¬ is_ok (from_state s')
  | _ => False
  end.
Proof.
  destruct spent_task as (t & Ht & Hn & Hmax).
  destruct (complete_external_task 1 "answered" spent_state) as [s' [[]|e|]] eqn:Hc;
    [|vm_compute in Hc; discriminate..].
  split; [vm_compute; done|].
  exact (external_completion_overruns 1 "answered" spent_state s' t spent_inv Ht Hn Hmax Hc).
Defined.

Lemma reasoning_cycle_never_completes_witness :
  match run_budgeted_reasoning_cycle 1 failure_signals (sample_state, tt) with
  | (s', Ok rep) => cr_status rep = TaskFailed
  | _ => False
  end.
Proof.
  destruct (run_budgeted_reasoning_cycle 1 failure_signals (sample_state, tt)) as [s' [rep|e|]] eqn:Hr;
    [|vm_compute in Hr; discriminate..].
  destruct (cs_tasks sample_state !! 1) as [t|] eqn:Ht; [|vm_compute in Ht; discriminate].
  destruct (reasoning_cycle_never_completes 1 failure_signals sample_state tt s' rep t sample_inv Ht)
    as (_ & t' & Ht' & -> & [Hf|[Hrun Hit]]); [by vm_compute in Ht; injection Ht as <-|exact Hr|exact Hf|].
  exfalso. vm_compute in Hr. injection Hr as _ <-. vm_compute in Hit. discriminate.
Defined.
End CognitionTheorems.
