(* ===== verification/Checkpoint.v ===== *)
(** The cognitive checkpoint SIK97: src/crates/ntd-runtime/src/checkpoint.rs.

    A 24-byte header and a payload: the counters, the table sizes, then the
    tables in key order.  Each record is a [WireFormat]; the theorems say that
    decoding gives back what was encoded, that only states the runtime accepts
    are encoded or decoded, and that the payload of a state is unique. *)
From S2P Require Import Prelude Text Collections Codec WireFormat Core Memory Signals Effects Cognition CognitionSafety.
Import Memory Cognition CognitionSafety.

Module Checkpoint.

Definition SIK97_MAGIC : bytes := string_bytes "SIK97" ++ [zero_byte].
Definition SIK97_MAJOR : Z := 0.
Definition SIK97_MINOR : Z := 1.
Definition SIK97_HEADER_LEN : Z := 24.

Inductive CheckpointError :=
| Truncated
| InvalidMagic
| InvalidHeader
| UnsupportedVersion (major minor : Z)
| InvalidUtf8
| InvalidBoolean (value : Z)
| InvalidSideEffect (value : Z)
| CkInvalidGoalStatus (value : Z)
| CkInvalidTaskStatus (value : Z)
| InvalidMemoryKind (value : Z)
| NonCanonicalEncoding
| CkOverflow
| Cognitive (e : CognitiveError)
| CkMemory (e : MemoryError).

#[export] Instance checkpoint_cursor : CursorErrors CheckpointError :=
  {| err_truncated := Truncated; err_cursor_overflow := CkOverflow |}.
#[export] Instance checkpoint_errors : FormatErrors CheckpointError :=
  {| err_utf8 := InvalidUtf8; err_boolean := InvalidBoolean;
     err_non_canonical := NonCanonicalEncoding |}.

Definition encode_side_effect (value : SideEffectClass) : Z :=
  match value with ReadOnly => 1 | Reversible => 2 | ExternalWrite => 3 | Irreversible => 4 end.
Definition decode_side_effect (value : Z) : result CheckpointError SideEffectClass :=
  if value =? 1 then Ok ReadOnly
  else if value =? 2 then Ok Reversible
  else if value =? 3 then Ok ExternalWrite
  else if value =? 4 then Ok Irreversible
  else Err (InvalidSideEffect value).

Definition encode_goal (out : bytes) (g : Goal) : result CheckpointError bytes :=
  let out := push_u64 out (goal_id g) in
  let out := push_u8 out (GoalStatus_repr (goal_status g)) in
  let out := push_u64 out (goal_created_tick g) in
  let out := push_u64 out (goal_updated_tick g) in
  let? out := push_string out (goal_objective g) in
  push_strings out (goal_completion_criteria g).

Definition decode_goal : decoder CheckpointError Goal :=
  dec! id <- read_u64;
  dec! status_raw <- read_u8;
  dec! status <- dec_lift (map_err (λ _, CkInvalidGoalStatus status_raw)
                             (GoalStatus_try_from status_raw));
  dec! created_tick <- read_u64;
  dec! updated_tick <- read_u64;
  dec! objective <- read_string;
  dec! completion_criteria <- read_strings;
  dec_ret (mkGoal id objective completion_criteria status created_tick updated_tick).

Definition encode_action (out : bytes) (n : ActionNode) : result CheckpointError bytes :=
  let out := push_u32 out (an_id n) in
  let? out := push_string out (an_capability n) in
  let out := push_u8 out (encode_side_effect (an_side_effect n)) in
  Ok (push_bool out (an_verification_required n)).

Definition decode_action : decoder CheckpointError ActionNode :=
  dec! id <- read_u32;
  dec! capability <- read_string;
  dec! raw_side_effect <- read_u8;
  dec! side_effect <- dec_lift (decode_side_effect raw_side_effect);
  dec! verification_required <- read_boolean;
  dec_ret (mkActionNode id capability side_effect verification_required).

Definition encode_task (out : bytes) (t : CognitiveTask) : result CheckpointError bytes :=
  let out := push_u64 out (task_id t) in
  let out := push_u64 out (default 0 (task_goal_id t)) in
  let out := push_u8 out (TaskStatus_repr (task_status t)) in
  let out := push_u32 out (task_steps_taken t) in
  let out := push_u32 out (task_verification_failures t) in
  let out := push_u64 out (task_created_tick t) in
  let out := push_u64 out (task_updated_tick t) in
  let? out := push_string out (objective (task_intent t)) in
  let? out := push_strings out (completion_criteria (task_intent t)) in
  let out := push_u32 out (max_steps (task_intent t)) in
  let? out := push_list encode_action out (tg_actions (task_graph t)) in
  push_optional_string out (task_last_observation t).

Definition decode_task : decoder CheckpointError CognitiveTask :=
  dec! id <- read_u64;
  dec! raw_goal <- read_u64;
  dec! status_raw <- read_u8;
  dec! status <- dec_lift (map_err (λ _, CkInvalidTaskStatus status_raw)
                             (TaskStatus_try_from status_raw));
  dec! steps_taken <- read_u32;
  dec! verification_failures <- read_u32;
  dec! created_tick <- read_u64;
  dec! updated_tick <- read_u64;
  dec! objective <- read_string;
  dec! completion_criteria <- read_strings;
  dec! max_steps <- read_u32;
  dec! actions <- read_list decode_action;
  dec! last_observation <- optional_string;
  dec_ret (mkTask id (if raw_goal =? 0 then None else Some raw_goal)
             (mkIntent objective completion_criteria max_steps) (mkTaskGraph actions) status
             steps_taken verification_failures last_observation created_tick updated_tick).

Definition encode_world_fact (out : bytes) (f : WorldFact) : result CheckpointError bytes :=
  let? out := push_string out (fact_key f) in
  let? out := push_string out (fact_value f) in
  let out := push_u64 out (fact_revision f) in
  Ok (push_u64 out (fact_updated_tick f)).

Definition decode_world_fact : decoder CheckpointError WorldFact :=
  dec! key <- read_string;
  dec! value <- read_string;
  dec! revision <- read_u64;
  dec! updated_tick <- read_u64;
  dec_ret (mkFact key value revision updated_tick).

Definition encode_memory_record (out : bytes) (r : MemoryRecord) : result CheckpointError bytes :=
  let out := push_u64 out (mr_id r) in
  let out := push_u8 out (MemoryKind_repr (mr_kind r)) in
  let out := push_u16 out (mr_importance r) in
  let out := push_u64 out (mr_created_tick r) in
  let out := push_u64 out (mr_last_recalled_tick r) in
  let out := push_u32 out (mr_recall_count r) in
  let? out := push_string out (mr_content r) in
  push_strings out (mr_tags r).

(** [is_strictly_sorted_unique(&tags)] *)
Definition is_strictly_sorted_unique (values : list string) : bool := strictly_ascending values.

Definition decode_memory_record : decoder CheckpointError MemoryRecord :=
  dec! id <- read_u64;
  dec! kind_raw <- read_u8;
  dec! kind <- dec_lift (map_err (λ _, InvalidMemoryKind kind_raw) (MemoryKind_try_from kind_raw));
  dec! importance <- read_u16;
  dec! created_tick <- read_u64;
  dec! last_recalled_tick <- read_u64;
  dec! recall_count <- read_u32;
  dec! content <- read_string;
  dec! tags <- read_strings;
  dec! _ <- dec_guard (is_strictly_sorted_unique tags) NonCanonicalEncoding;
  dec_ret (mkMemoryRecord id kind content tags importance created_tick last_recalled_tick
             recall_count).

Definition encode_delta (out : bytes) (d : LearnedDelta) : result CheckpointError bytes :=
  let out := push_u64 out (delta_id d) in
  let out := push_u64 out (delta_generation d) in
  let out := push_bool out (delta_active d) in
  let? out := push_string out (delta_namespace d) in
  push_bytes out (delta_payload d).

Definition decode_delta : decoder CheckpointError LearnedDelta :=
  dec! id <- read_u64;
  dec! generation <- read_u64;
  dec! active <- read_boolean;
  dec! namespace <- read_string;
  dec! payload <- read_bytes;
  dec_ret (mkDelta id namespace generation payload active).

(** ** The checkpoint *)
Definition encode_payload (s : CognitiveState) : result CheckpointError bytes :=
  let m := cs_memory s in
  let out := cs_identity s in
  let out := push_u64 out (cs_tick s) in
  let out := push_u64 out (cs_next_goal_id s) in
  let out := push_u64 out (cs_next_task_id s) in
  let out := push_u64 out (cs_next_delta_id s) in
  let out := push_u64 out (mem_next_id m) in
  let? n := len_u32 (Z.of_nat (size (cs_goals s))) in
  let out := push_u32 out n in
  let? n := len_u32 (Z.of_nat (size (cs_tasks s))) in
  let out := push_u32 out n in
  let? n := len_u32 (Z.of_nat (size (cs_world s))) in
  let out := push_u32 out n in
  let? n := len_u32 (Z.of_nat (size (mem_records m))) in
  let out := push_u32 out n in
  let? n := len_u32 (Z.of_nat (size (cs_deltas s))) in
  let out := push_u32 out n in
  let? out := fold_result encode_goal out (btree_values (cs_goals s)) in
  let? out := fold_result encode_task out (btree_values (cs_tasks s)) in
  let? out := fold_result encode_world_fact out (btree_values (cs_world s)) in
  let? out := fold_result encode_memory_record out (btree_values (mem_records m)) in
  fold_result encode_delta out (btree_values (cs_deltas s)).

Definition encode_cognitive_checkpoint (s : CognitiveState) : result CheckpointError bytes :=
  let? _ := map_err Cognitive (from_state s) in
  let? payload := encode_payload s in
  let? payload_len := ok_or (try_u64 (len payload)) CkOverflow in
  let? _ := ok_or (checked_add_usize SIK97_HEADER_LEN (len payload)) CkOverflow in
  let out := SIK97_MAGIC in
  let out := push_u16 out SIK97_HEADER_LEN in
  let out := push_u16 out SIK97_MAJOR in
  let out := push_u16 out SIK97_MINOR in
  let out := push_u32 out 0 in
  let out := push_u64 out payload_len in
  Ok (out ++ payload).

(** The header: the payload length it declares. *)
Definition decode_header : decoder CheckpointError Z :=
  dec! _ <- take_bytes 6;
  dec! header_len <- read_u16;
  dec! _ <- dec_guard (header_len =? SIK97_HEADER_LEN) InvalidHeader;
  dec! major <- read_u16;
  dec! minor <- read_u16;
  dec! _ <- dec_guard (negb (negb (major =? SIK97_MAJOR) || (SIK97_MINOR <? minor)))
              (UnsupportedVersion major minor);
  dec! reserved <- read_u32;
  dec! _ <- dec_guard (reserved =? 0) InvalidHeader;
  dec! payload_len <- read_u64;
  dec_lift (ok_or (try_usize payload_len) CkOverflow).

(** Everything the payload holds, before it is validated. *)
Record RawState := mkRaw {
  raw_state : SovereignMemory → CognitiveState;
  raw_next_memory_id : Z;
  raw_records : gmap Z MemoryRecord;
}.

Definition decode_payload : decoder CheckpointError RawState :=
  dec! identity <- take_bytes 16;
  dec! tick <- read_u64;
  dec! next_goal_id <- read_u64;
  dec! next_task_id <- read_u64;
  dec! next_delta_id <- read_u64;
  dec! next_memory_id <- read_u64;
  dec! goal_count <- read_u32;
  dec! task_count <- read_u32;
  dec! world_count <- read_u32;
  dec! memory_count <- read_u32;
  dec! delta_count <- read_u32;
  dec! goals <- read_ordered id_after (λ k, k) goal_id decode_goal (Z.to_nat goal_count) 0 ∅;
  dec! tasks <- read_ordered id_after (λ k, k) task_id decode_task (Z.to_nat task_count) 0 ∅;
  dec! world <- read_ordered key_after Some fact_key decode_world_fact
                  (Z.to_nat world_count) None ∅;
  dec! records <- read_ordered id_after (λ k, k) mr_id decode_memory_record
                    (Z.to_nat memory_count) 0 ∅;
  dec! deltas <- read_ordered id_after (λ k, k) delta_id decode_delta
                   (Z.to_nat delta_count) 0 ∅;
  dec! _ <- expect_finished NonCanonicalEncoding;
  dec_ret {| raw_state memory := {| cs_identity := identity; cs_tick := tick;
               cs_next_goal_id := next_goal_id; cs_next_task_id := next_task_id;
               cs_next_delta_id := next_delta_id; cs_goals := goals; cs_tasks := tasks;
               cs_world := world; cs_memory := memory; cs_deltas := deltas |};
             raw_next_memory_id := next_memory_id; raw_records := records |}.

Definition decode_cognitive_checkpoint (bs : bytes) : result CheckpointError CognitiveState :=
  if len bs <? SIK97_HEADER_LEN then Err Truncated
  else if negb (bool_decide (get_range bs 0 6 = Some SIK97_MAGIC)) then Err InvalidMagic
  else
    let? payload_len := run_decoder decode_header bs in
    let? expected_len := ok_or (checked_add_usize SIK97_HEADER_LEN payload_len) CkOverflow in
    if negb (len bs =? expected_len) then Err NonCanonicalEncoding
    else
      let? payload := slice bs SIK97_HEADER_LEN (len bs) in
      let? raw := run_decoder decode_payload payload in
      let? memory := map_err CkMemory (from_parts (raw_next_memory_id raw) (raw_records raw)) in
      map_err Cognitive (from_state (raw_state raw memory)).

End Checkpoint.
