(* ===== verification/CheckpointTheorems.v ===== *)
(** Round trips and canonicity of the cognitive checkpoint. *)
From S2P Require Import Prelude Text Collections Codec WireFormat WireTables Core Memory Signals Effects Cognition CognitionSafety CognitionTheorems Checkpoint.
Import Memory Cognition CognitionSafety CognitionTheorems Checkpoint.

Module CheckpointTheorems.

(** *** The enums *)
#[export] Instance goal_status_tag : EnumTag GoalStatus_repr GoalStatus_try_from.
Proof. unfold GoalStatus_try_from. enum_tag. Qed.
#[export] Instance task_status_tag : EnumTag TaskStatus_repr TaskStatus_try_from.
Proof. unfold TaskStatus_try_from. enum_tag. Qed.
#[export] Instance memory_kind_tag : EnumTag MemoryKind_repr MemoryKind_try_from.
Proof. unfold MemoryKind_try_from. enum_tag. Qed.
#[export] Instance side_effect_tag : EnumTag encode_side_effect decode_side_effect.
Proof. unfold decode_side_effect. enum_tag. Qed.

#[export] Instance goal_format : WireFormat encode_goal decode_goal.
Proof.
  refine {| wf_enc g := to_le 8 (goal_id g) ++ to_le 1 (GoalStatus_repr (goal_status g)) ++
              to_le 8 (goal_created_tick g) ++ to_le 8 (goal_updated_tick g) ++
              wf_enc push_string read_string (goal_objective g) ++
              wf_enc push_strings read_strings (goal_completion_criteria g);
            wf_typed g := in_u64 (goal_id g) ∧ in_u64 (goal_created_tick g) ∧
              in_u64 (goal_updated_tick g) ∧ is_utf8 (goal_objective g) ∧
              Forall is_utf8 (goal_completion_criteria g);
            wf_fits g := wf_fits push_string read_string (goal_objective g) ∧
              wf_fits push_strings read_strings (goal_completion_criteria g) |}.
  - intros g out r. unfold encode_goal, push_u64, push_u8. cbv zeta. emit_steps. tauto.
  - intros [] (?&?&?&?&?) [? ?]. unfold decode_goal. cbn in *. solve_fields.
  - unfold decode_goal. parse_fields Hv.
  - unfold decode_goal. solve_safe.
Defined.

#[export] Instance action_format : WireFormat encode_action decode_action.
Proof.
  refine {| wf_enc n := to_le 4 (an_id n) ++ wf_enc push_string read_string (an_capability n) ++
              to_le 1 (encode_side_effect (an_side_effect n)) ++
              to_le 1 (if an_verification_required n then 1 else 0);
            wf_typed n := in_u32 (an_id n) ∧ is_utf8 (an_capability n);
            wf_fits n := wf_fits push_string read_string (an_capability n) |}.
  - intros n out r. unfold encode_action, push_u32, push_u8, push_bool, push_u8. cbv zeta.
    emit_steps. tauto.
  - intros [] [? ?] ?. unfold decode_action. cbn in *. solve_fields.
  - unfold decode_action. parse_fields Hv.
  - unfold decode_action. solve_safe.
Defined.

#[export] Instance fact_format : WireFormat encode_world_fact decode_world_fact.
Proof.
  refine {| wf_enc f := wf_enc push_string read_string (fact_key f) ++
              wf_enc push_string read_string (fact_value f) ++
              to_le 8 (fact_revision f) ++ to_le 8 (fact_updated_tick f);
            wf_typed f := is_utf8 (fact_key f) ∧ is_utf8 (fact_value f) ∧
              in_u64 (fact_revision f) ∧ in_u64 (fact_updated_tick f);
            wf_fits f := wf_fits push_string read_string (fact_key f) ∧
              wf_fits push_string read_string (fact_value f) |}.
  - intros f out r. unfold encode_world_fact, push_u64. cbv zeta. emit_steps. tauto.
  - intros [] (?&?&?&?) [? ?]. unfold decode_world_fact. cbn in *. solve_fields.
  - unfold decode_world_fact. parse_fields Hv.
  - unfold decode_world_fact. solve_safe.
Defined.

#[export] Instance record_format : WireFormat encode_memory_record decode_memory_record.
Proof.
  refine {| wf_enc r := to_le 8 (mr_id r) ++ to_le 1 (MemoryKind_repr (mr_kind r)) ++
              to_le 2 (mr_importance r) ++ to_le 8 (mr_created_tick r) ++
              to_le 8 (mr_last_recalled_tick r) ++ to_le 4 (mr_recall_count r) ++
              wf_enc push_string read_string (mr_content r) ++
              wf_enc push_strings read_strings (mr_tags r);
            wf_typed r := in_u64 (mr_id r) ∧ in_u16 (mr_importance r) ∧
              in_u64 (mr_created_tick r) ∧ in_u64 (mr_last_recalled_tick r) ∧
              in_u32 (mr_recall_count r) ∧ is_utf8 (mr_content r) ∧
              Forall is_utf8 (mr_tags r) ∧ strictly_ascending (mr_tags r) = true;
            wf_fits r := wf_fits push_string read_string (mr_content r) ∧
              wf_fits push_strings read_strings (mr_tags r) |}.
  - intros x out r. unfold encode_memory_record, push_u64, push_u32, push_u16, push_u8. cbv zeta.
    emit_steps. tauto.
  - intros [] (?&?&?&?&?&?&?&?) [? ?]. unfold decode_memory_record. cbn in *. solve_fields.
  - unfold decode_memory_record. parse_fields Hv.
  - unfold decode_memory_record. solve_safe.
Defined.

#[export] Instance delta_format : WireFormat encode_delta decode_delta.
Proof.
  refine {| wf_enc d := to_le 8 (delta_id d) ++ to_le 8 (delta_generation d) ++
              to_le 1 (if delta_active d then 1 else 0) ++
              wf_enc push_string read_string (delta_namespace d) ++
              wf_enc push_bytes read_bytes (delta_payload d);
            wf_typed d := in_u64 (delta_id d) ∧ in_u64 (delta_generation d) ∧
              is_utf8 (delta_namespace d);
            wf_fits d := wf_fits push_string read_string (delta_namespace d) ∧
              wf_fits push_bytes read_bytes (delta_payload d) |}.
  - intros d out r. unfold encode_delta, push_u64, push_bool, push_u8. cbv zeta. emit_steps. tauto.
  - intros [] (?&?&?) [? ?]. unfold decode_delta. cbn in *. solve_fields.
  - unfold decode_delta. parse_fields Hv.
  - unfold decode_delta. solve_safe.
Defined.

(** *** Tasks *)
Lemma parses_actions : parses (read_list decode_action) (λ l v,
  l = wf_enc (push_list encode_action) (read_list decode_action) v ∧
  wf_typed (push_list encode_action) (read_list decode_action) v ∧
  wf_fits (push_list encode_action) (read_list decode_action) v).
Proof. exact (wf_parses (put:=push_list encode_action) (get:=read_list decode_action)). Qed.
Lemma reads_actions v :
  wf_typed (push_list encode_action) (read_list decode_action) v →
  wf_fits (push_list encode_action) (read_list decode_action) v →
  reads (read_list decode_action)
    (wf_enc (push_list encode_action) (read_list decode_action) v) v.
Proof. apply wf_reads. Qed.
Lemma safe_actions : safe (read_list decode_action).
Proof. exact (wf_safe (put:=push_list encode_action) (get:=read_list decode_action)). Qed.
#[local] Hint Resolve parses_actions : parses.
#[local] Hint Resolve reads_actions : reads.
#[local] Hint Resolve safe_actions : codec.

(** [unwrap_or(0)] and [(raw != 0).then_some(raw)] *)
Lemma goal_ref_round (g : option Z) :
  g ≠ Some 0 → (if default 0 g =? 0 then None else Some (default 0 g)) = g.
Proof. destruct g as [g|]; [|done]. cbn. intros Hg. by destruct (Z.eqb_spec g 0) as [->|]. Qed.

#[export] Instance task_format : WireFormat encode_task decode_task.
Proof.
  refine {| wf_enc t := to_le 8 (task_id t) ++ to_le 8 (default 0 (task_goal_id t)) ++
              to_le 1 (TaskStatus_repr (task_status t)) ++ to_le 4 (task_steps_taken t) ++
              to_le 4 (task_verification_failures t) ++ to_le 8 (task_created_tick t) ++
              to_le 8 (task_updated_tick t) ++
              wf_enc push_string read_string (objective (task_intent t)) ++
              wf_enc push_strings read_strings (completion_criteria (task_intent t)) ++
              to_le 4 (max_steps (task_intent t)) ++
              wf_enc (push_list encode_action) (read_list decode_action)
                (tg_actions (task_graph t)) ++
              wf_enc push_optional_string optional_string (task_last_observation t);
            wf_typed t := in_u64 (task_id t) ∧
              (in_u64 (default 0 (task_goal_id t)) ∧ task_goal_id t ≠ Some 0) ∧
              in_u32 (task_steps_taken t) ∧ in_u32 (task_verification_failures t) ∧
              in_u64 (task_created_tick t) ∧ in_u64 (task_updated_tick t) ∧
              is_utf8 (objective (task_intent t)) ∧
              Forall is_utf8 (completion_criteria (task_intent t)) ∧
              in_u32 (max_steps (task_intent t)) ∧
              wf_typed (push_list encode_action) (read_list decode_action)
                (tg_actions (task_graph t)) ∧
              wf_typed push_optional_string optional_string (task_last_observation t);
            wf_fits t := wf_fits push_string read_string (objective (task_intent t)) ∧
              wf_fits push_strings read_strings (completion_criteria (task_intent t)) ∧
              wf_fits (push_list encode_action) (read_list decode_action)
                (tg_actions (task_graph t)) ∧
              wf_fits push_optional_string optional_string (task_last_observation t) |}.
  - intros t out r. unfold encode_task, push_u64, push_u32, push_u8. cbv zeta.
    rewrite (put_then push_string read_string), (put_then push_strings read_strings).
    rewrite (put_then (push_list encode_action) (read_list decode_action)). emit_steps. tauto.
  - intros [id g [ob cr ms] [acts] st sn vf lo ct ut] (?&[? Hg]&?&?&?&?&?&?&?&?&?) (?&?&?&?).
    unfold decode_task. cbn in *.
    eapply reads_value; [solve_fields|]. cbv beta. by rewrite goal_ref_round.
  - unfold decode_task. parse_start Hv. repeat parse_step Hv. field_facts. parse_done Hv. cbn.
    rewrite ?app_nil_r, <- ?app_assoc.
    match goal with |- context [if ?z =? 0 then None else Some ?z] =>
      assert (default 0 (if z =? 0 then None else Some z) = z) as Hz
        by (destruct (Z.eqb_spec z 0) as [->|]; done);
      assert ((if z =? 0 then None else Some z) ≠ Some 0) by (destruct (Z.eqb_spec z 0); congruence)
    end.
    rewrite Hz. split_and!; first [reflexivity|assumption].
  - unfold decode_task. solve_safe.
Defined.

(** ** The payload *)
Definition payload_enc (s : CognitiveState) : bytes :=
  cs_identity s ++ to_le 8 (cs_tick s) ++ to_le 8 (cs_next_goal_id s) ++
  to_le 8 (cs_next_task_id s) ++ to_le 8 (cs_next_delta_id s) ++
  to_le 8 (mem_next_id (cs_memory s)) ++
  table_len (cs_goals s) ++ table_len (cs_tasks s) ++ table_len (cs_world s) ++
  table_len (mem_records (cs_memory s)) ++ table_len (cs_deltas s) ++
  table_enc (wf_enc encode_goal decode_goal) (cs_goals s) ++
  table_enc (wf_enc encode_task decode_task) (cs_tasks s) ++
  table_enc (wf_enc encode_world_fact decode_world_fact) (cs_world s) ++
  table_enc (wf_enc encode_memory_record decode_memory_record) (mem_records (cs_memory s)) ++
  table_enc (wf_enc encode_delta decode_delta) (cs_deltas s).

(** Every count and every length fits a [u32]. *)
Definition payload_fits (s : CognitiveState) : Prop :=
  table_fits (wf_fits encode_goal decode_goal) (cs_goals s) ∧
  table_fits (wf_fits encode_task decode_task) (cs_tasks s) ∧
  table_fits (wf_fits encode_world_fact decode_world_fact) (cs_world s) ∧
  table_fits (wf_fits encode_memory_record decode_memory_record) (mem_records (cs_memory s)) ∧
  table_fits (wf_fits encode_delta decode_delta) (cs_deltas s).

Lemma encode_payload_Ok s r : encode_payload s = Ok r ↔ payload_fits s ∧ r = payload_enc s.
Proof.
  unfold encode_payload, push_u64, push_u32. cbv zeta.
  rewrite !len_then.
  rewrite (each_then encode_goal decode_goal), (each_then encode_task decode_task),
    (each_then encode_world_fact decode_world_fact),
    (each_then encode_memory_record decode_memory_record), (each_Ok encode_delta decode_delta).
  rewrite <- ?app_assoc. unfold payload_fits, table_fits, payload_enc, table_enc, table_len. tauto.
Qed.

Record payload_ready (s : CognitiveState) : Prop := {
  pr_identity : len (cs_identity s) = 16;
  pr_counters : in_u64 (cs_tick s) ∧ in_u64 (cs_next_goal_id s) ∧ in_u64 (cs_next_task_id s) ∧
    in_u64 (cs_next_delta_id s) ∧ in_u64 (mem_next_id (cs_memory s));
  pr_goals : table_ready (wf_typed encode_goal decode_goal) (λ k, 0 < k) goal_id (cs_goals s);
  pr_tasks : table_ready (wf_typed encode_task decode_task) (λ k, 0 < k) task_id (cs_tasks s);
  pr_world : table_ready (wf_typed encode_world_fact decode_world_fact) (λ _, True) fact_key
    (cs_world s);
  pr_records : table_ready (wf_typed encode_memory_record decode_memory_record) (λ k, 0 < k) mr_id
    (mem_records (cs_memory s));
  pr_deltas : table_ready (wf_typed encode_delta decode_delta) (λ k, 0 < k) delta_id (cs_deltas s);
}.

Definition raw_of (s : CognitiveState) : RawState :=
  {| raw_state memory := {| cs_identity := cs_identity s; cs_tick := cs_tick s;
       cs_next_goal_id := cs_next_goal_id s; cs_next_task_id := cs_next_task_id s;
       cs_next_delta_id := cs_next_delta_id s; cs_goals := cs_goals s; cs_tasks := cs_tasks s;
       cs_world := cs_world s; cs_memory := memory; cs_deltas := cs_deltas s |};
     raw_next_memory_id := mem_next_id (cs_memory s);
     raw_records := mem_records (cs_memory s) |}.

Lemma decode_payload_reads s :
  payload_ready s → payload_fits s → reads_end decode_payload (payload_enc s) (raw_of s).
Proof.
  intros [Hid (?&?&?&?&?) Hg Ht Hw Hr Hd] (Fg & Ft & Fw & Fr & Fd).
  unfold decode_payload, payload_enc.
  eapply reads_end_bind; [by apply reads_take|].
  do 5 (eapply reads_end_bind; [by apply reads_u64|]).
  do 5 (eapply reads_end_bind; [by eapply table_len_reads|]).
  eapply reads_end_bind; [eapply reads_table; [apply _|done..]|].
  eapply reads_end_bind; [eapply reads_table; [apply _|done..]|].
  eapply reads_end_bind; [eapply reads_table; [apply _|done..]|].
  eapply reads_end_bind; [eapply reads_table; [apply _|done..]|].
  rewrite <- (app_nil_r (table_enc _ (cs_deltas s))).
  eapply reads_end_bind; [eapply reads_table; [apply _|done..]|].
  apply reads_end_finished. apply reads_reads_end, reads_ret.
Qed.

(** The state a raw payload describes. *)
Definition state_of (raw : RawState) : CognitiveState :=
  raw_state raw {| mem_next_id := raw_next_memory_id raw; mem_records := raw_records raw |}.

Lemma decode_payload_parses bs raw :
  run_decoder decode_payload bs = Ok raw →
  raw = raw_of (state_of raw) ∧ payload_ready (state_of raw) ∧ payload_fits (state_of raw) ∧
  bs = payload_enc (state_of raw).
Proof.
  unfold run_decoder. destruct (decode_payload (cursor_new bs)) as [[v c]| |] eqn:Hv; [|done..].
  intros [= <-]. change (cursor_new bs) with (at_ ([] ++ []) bs) in Hv.
  unfold decode_payload in Hv. do 11 parse_step Hv.
  repeat match goal with Hr : _ ∧ _ |- _ => destruct Hr end.
  do 5 table_step Hv. apply step_finished in Hv as [-> Hv].
  apply parses_step_ret in Hv as [-> _]. cbn. split; [done|]. split_and!.
  - by split.
  - by split_and!.
  - unfold payload_enc, table_len in *. cbn. subst. rewrite !app_nil_r. congruence.
Qed.

(** ** Typed states *)

(** The decoder reserves the id 0, the runtime's validation does not. *)
Definition positive_ids (s : CognitiveState) : Prop :=
  map_Forall (λ k _, k ≠ 0) (cs_goals s) ∧ map_Forall (λ k _, k ≠ 0) (cs_tasks s) ∧
  map_Forall (λ k _, k ≠ 0) (cs_deltas s).

Lemma typed_ready s :
  state_typed s → runtime_inv s → positive_ids s → payload_ready s.
Proof.
  intros [Ti Tt (Tg&Tk&Td) Tgs Tts Tws [[Tm Tms] Tmt] Tds] [[[_ Wg] [_ Wt] [_ Wd] Ww Wl] [_ Wm]]
    (Pg & Pt & Pd).
  split; [unfold len; by rewrite Ti|by split_and!|..].
  - intros k g Hg. destruct (Tgs k g Hg) as ([? _]&?&?&?&?&?), (Wg k g Hg) as [[? _] _].
    pose proof (Pg k g Hg). split_and!; [done|unfold in_u64 in *; cbn; lia|]. by split_and!.
  - intros k t Ht. pose proof (Pt k t Ht).
    destruct (Tts k t Ht) as ([? _]&?&Tgo&(?&?&?)&Tn&?&?&To&?&?), (Wt k t Ht) as [(?&_) _].
    split_and!; [done|unfold in_u64 in *; cbn; lia|]. split_and!; try done.
    + destruct (task_goal_id t) as [g|]; [by apply Tgo|by vm_compute].
    + intros Hg0. destruct (Wl k t Ht 0 Hg0) as [x Hx]. by apply (Pg 0 x).
    + destruct (task_last_observation t) as [o|]; [by apply To|done].
  - intros k f Hf. destruct (Tws k f Hf) as (?&?&?&?&?), (Ww k f Hf) as (?&_&_).
    split_and!; [done|done|]. by split_and!.
  - intros k r Hr. destruct (Tms k r Hr) as ([? _]&?&?&?&?&?), (Wm k r Hr) as [(?&?&?&?&?) _].
    destruct (Tmt k r Hr) as [? ?]. split_and!; [done|unfold in_u64 in *; cbn; lia|]. by split_and!.
  - intros k d Hd. destruct (Tds k d Hd) as ([? _]&?&?&?), (Wd k d Hd) as [[? _] _].
    pose proof (Pd k d Hd). split_and!; [done|unfold in_u64 in *; cbn; lia|]. by split_and!.
Qed.

Lemma ready_typed s : payload_ready s → state_typed s ∧ positive_ids s.
Proof.
  intros [Ti (Tt&Tg&Tk&Td&Tm) Tgs Tts Tws Tms Tds]. split; [split|].
  - unfold len in Ti. lia.
  - done.
  - done.
  - intros k g Hg. destruct (Tgs k g Hg) as (<-&?&(?&?&?&?&?)). by split_and!.
  - intros k t Ht. destruct (Tts k t Ht) as (<-&?&(?&[Hg ?]&?&?&?&?&?&?&?&?&Ho)). split_and!; try done.
    + intros g Hg'. by rewrite Hg' in Hg.
    + intros o Ho'. by rewrite Ho' in Ho.
  - intros k f Hf. destruct (Tws k f Hf) as (<-&_&(?&?&?&?)). by split_and!.
  - split; [split; [done|]|].
    + intros k r Hr. destruct (Tms k r Hr) as (<-&?&(?&?&?&?&?&?&?&?)). by split_and!.
    + intros k r Hr. destruct (Tms k r Hr) as (<-&?&(?&?&?&?&?&?&?&?)). by split.
  - intros k d Hd. destruct (Tds k d Hd) as (<-&?&(?&?&?)). by split_and!.
  - split_and!; intros k x Hx ->.
    + by destruct (Tgs 0 x Hx) as (_&?&_).
    + by destruct (Tts 0 x Hx) as (_&?&_).
    + by destruct (Tds 0 x Hx) as (_&?&_).
Qed.

(** ** The header *)
Definition header_enc (minor payload_len : Z) : bytes :=
  SIK97_MAGIC ++ to_le 2 SIK97_HEADER_LEN ++ to_le 2 SIK97_MAJOR ++ to_le 2 minor ++
  to_le 4 0 ++ to_le 8 payload_len.

Lemma len_checkpoint_header minor n : len (header_enc minor n) = 24.
Proof. unfold header_enc. repeat rewrite len_app. by rewrite !len_to_le. Qed.

Lemma decode_header_reads minor n :
  0 ≤ minor ≤ SIK97_MINOR → 0 ≤ n < 2 ^ 64 →
  reads decode_header (header_enc minor n) n.
Proof.
  intros Hm Hn. unfold SIK97_MINOR in Hm. unfold decode_header, header_enc.
  eapply reads_bind; [by apply reads_take|].
  eapply reads_bind; [apply reads_u16; by vm_compute|].
  eapply reads_bind_nil; [by apply reads_guard|].
  eapply reads_bind; [apply reads_u16; by vm_compute|].
  eapply reads_bind; [apply reads_u16; unfold in_u16; lia|].
  eapply reads_bind_nil; [apply reads_guard|].
  { unfold SIK97_MINOR. cbn. by destruct (Z.ltb_spec 1 minor); [lia|]. }
  eapply reads_bind; [apply reads_u32; by vm_compute|].
  eapply reads_bind_nil; [by apply reads_guard|].
  eapply reads_bind_last; [by apply reads_u64|]. apply reads_lift, try_u64_Ok. lia.
Qed.

Lemma decode_header_parses : parses decode_header (λ l n,
  ∃ magic minor, len magic = 6 ∧ 0 ≤ minor ≤ SIK97_MINOR ∧ 0 ≤ n ∧
    l = magic ++ to_le 2 SIK97_HEADER_LEN ++ to_le 2 SIK97_MAJOR ++ to_le 2 minor ++
        to_le 4 0 ++ to_le 8 n).
Proof.
  unfold decode_header. parse_start Hv. do 9 parse_step Hv.
  apply parses_lift in Hv as (l' & post' & -> & -> & -> & Hn).
  parse_facts idtac. unfold SIK97_MINOR in *.
  match goal with Hv : negb _ = true |- _ =>
    apply negb_true_iff, orb_false_iff in Hv as [?%negb_false_iff%Z.eqb_eq ?%Z.ltb_ge] end.
  unfold in_u16, in_u64 in *.
  exists (a ++ to_le 2 SIK97_HEADER_LEN ++ to_le 2 a2 ++ to_le 2 a3 ++ to_le 4 0 ++ to_le 8 a7), post'.
  rewrite <- !app_assoc. cbn [app]. split_and!; [done|by rewrite ?app_nil_r|].
  exists a, a3. subst a2. split_and!; try done; lia.
Qed.

Lemma from_state_Ok s s' : from_state s = Ok s' ↔ s' = s ∧ validate_state s = Ok tt.
Proof. unfold from_state. destruct (validate_state s) as [[]| |]; naive_solver. Qed.

Lemma encode_checkpoint_Ok s bs :
  encode_cognitive_checkpoint s = Ok bs ↔
  validate_state s = Ok tt ∧ payload_fits s ∧ 24 + len (payload_enc s) < 2 ^ 64 ∧
  bs = header_enc 1 (len (payload_enc s)) ++ payload_enc s.
Proof.
  unfold encode_cognitive_checkpoint, from_state.
  destruct (validate_state s) as [[]|e|]; cbn [map_err]; [|naive_solver..].
  destruct (encode_payload s) as [payload|e|] eqn:Hp.
  - apply encode_payload_Ok in Hp as [Hf ->]. unfold try_u64, checked_add_usize, checked_add_u64.
    pose proof (len_nonneg (payload_enc s)). change SIK97_HEADER_LEN with 24.
    destruct (Z.ltb_spec (len (payload_enc s)) (2 ^ 64)); cbn [ok_or].
    + destruct (Z.ltb_spec (24 + len (payload_enc s)) (2 ^ 64)); cbn [ok_or].
      * rewrite Ok_iff. unfold header_enc, push_u16, push_u32, push_u64. cbv zeta.
        rewrite <- !app_assoc. tauto.
      * split; [done|]. intros (_ & _ & ? & _). lia.
    + split; [done|]. intros (_ & _ & ? & _). lia.
  - split; [done|]. intros (_ & Hf & _). by rewrite (proj2 (encode_payload_Ok s _) (conj Hf eq_refl)) in Hp.
  - split; [done|]. intros (_ & Hf & _). by rewrite (proj2 (encode_payload_Ok s _) (conj Hf eq_refl)) in Hp.
Qed.

(** Decoding what a header of a readable version and the payload of a ready
    state make up. *)
Lemma decode_framed minor s :
  0 ≤ minor ≤ SIK97_MINOR → payload_ready s → payload_fits s → runtime_inv s →
  24 + len (payload_enc s) < 2 ^ 64 →
  decode_cognitive_checkpoint (header_enc minor (len (payload_enc s)) ++ payload_enc s) = Ok s.
Proof.
  intros Hminor Hr Hf [Hwf Hmem] Hlen. pose proof (len_nonneg (payload_enc s)).
  set (payload := payload_enc s) in *. set (h := header_enc minor (len payload)).
  assert (len h = 24) as Hh by apply len_checkpoint_header.
  assert (len (h ++ payload) = 24 + len payload) as Hall by (rewrite len_app; lia).
  unfold decode_cognitive_checkpoint. change SIK97_HEADER_LEN with 24.
  destruct (Z.ltb_spec (len (h ++ payload)) 24); [lia|].
  rewrite bool_decide_true.
  2: { unfold h, header_enc. rewrite <- app_assoc. by apply (get_range_app []). }
  cbn [negb]. rewrite (run_front _ _ _ (len payload)); [|apply decode_header_reads; [done|lia]|lia].
  unfold checked_add_usize, checked_add_u64. destruct (Z.ltb_spec (24 + len payload) (2 ^ 64)); [|lia].
  cbn [ok_or]. rewrite Hall, Z.eqb_refl. cbn [negb].
  replace (h ++ payload) with (h ++ payload ++ []) by (by rewrite app_nil_r).
  rewrite slice_app by lia.
  rewrite (run_decoder_reads _ payload (raw_of s)); [|lia|by apply decode_payload_reads].
  cbn [raw_of raw_next_memory_id raw_records].
  assert (from_parts (mem_next_id (cs_memory s)) (mem_records (cs_memory s)) = Ok (cs_memory s)) as ->.
  { apply from_parts_Ok; [destruct Hmem; lia|]. by destruct (cs_memory s). }
  cbn [map_err]. replace (raw_state (raw_of s) (cs_memory s)) with s by (by destruct s).
  by rewrite (proj2 (from_state_Ok s s) (conj eq_refl (proj2 (validate_state_Ok s (wf_unsigned s Hwf)) Hwf))).
Qed.

(** Whatever decodes is such a frame. *)
Lemma decode_sound bs s :
  decode_cognitive_checkpoint bs = Ok s →
  ∃ minor, 0 ≤ minor ≤ SIK97_MINOR ∧ payload_ready s ∧ payload_fits s ∧ runtime_inv s ∧
    24 + len (payload_enc s) < 2 ^ 64 ∧
    bs = header_enc minor (len (payload_enc s)) ++ payload_enc s.
Proof.
  unfold decode_cognitive_checkpoint. change SIK97_HEADER_LEN with 24.
  destruct (Z.ltb_spec (len bs) 24) as [|Hlen]; [done|].
  case_bool_decide as Hmagic; [|done]. cbn [negb].
  destruct (run_decoder decode_header bs) as [n| |] eqn:Hh; [|done..].
  apply (run_parses _ _ _ _ decode_header_parses) in Hh as
    (l & post & -> & magic & minor & Hml & Hminor & Hn & ->).
  unfold checked_add_usize, checked_add_u64.
  destruct (Z.ltb_spec (24 + n) (2 ^ 64)); [|done]. cbn [ok_or].
  rewrite <- app_assoc in Hmagic. assert (magic = SIK97_MAGIC) as ->.
  { assert (∀ k, get_range (magic ++ k) 0 6 = Some magic) as Hg.
    { intros k. apply (get_range_app [] magic k); [done|by rewrite Hml]. }
    rewrite Hg in Hmagic. by injection Hmagic. }
  change (SIK97_MAGIC ++ to_le 2 SIK97_HEADER_LEN ++ to_le 2 SIK97_MAJOR ++ to_le 2 minor ++
            to_le 4 0 ++ to_le 8 n) with (header_enc minor n) in *.
  destruct (Z.eqb_spec (len (header_enc minor n ++ post)) (24 + n)) as [Heq|]; [|done]. cbn [negb].
  rewrite len_app, len_checkpoint_header in Heq.
  assert (slice (E:=CheckpointError) (header_enc minor n ++ post) 24 (len (header_enc minor n ++ post)) = Ok post) as ->.
  { replace (header_enc minor n ++ post) with (header_enc minor n ++ post ++ []) at 1
      by (by rewrite app_nil_r).
    apply slice_app; [by rewrite len_checkpoint_header|]. by rewrite len_app, len_checkpoint_header. }
  destruct (run_decoder decode_payload post) as [raw| |] eqn:Hp; [|done..].
  apply decode_payload_parses in Hp as (Hraw & Hready & Hfits & ->).
  destruct (from_parts _ _) as [mem| |] eqn:Hmem; [|done..]. cbn [map_err].
  pose proof (pr_counters _ Hready) as (_ & _ & _ & _ & Hnext).
  unfold in_u64 in Hnext. cbn [state_of cs_memory mem_next_id] in Hnext.
  apply from_parts_Ok in Hmem as [-> Hmem]; [|rewrite Hraw; apply Hnext].
  destruct (from_state _) as [s'| |] eqn:Hs; [|done..]. intros [= <-].
  apply from_state_Ok in Hs as [-> Hv]. change (raw_state raw _) with (state_of raw) in *.
  apply ready_typed in Hready as Hty. destruct Hty as [Hty _].
  apply validate_state_Ok in Hv; [|by apply typed_unsigned].
  assert (len (payload_enc (state_of raw)) = n) as Hn' by lia.
  exists minor. rewrite Hn'. split_and!; try done; try lia; try apply Hminor. split; [done|].
  unfold state_of. by rewrite (f_equal (λ r, cs_memory (raw_state r
    {| mem_next_id := raw_next_memory_id raw; mem_records := raw_records raw |})) Hraw).
Qed.

(** ** Properties *)

(** C8: Whatever encode_cognitive_checkpoint produces for a typed state without zero ids,
    decode_cognitive_checkpoint reads back as the same state. *)
Theorem checkpoint_round_trip s bs :
  state_typed s → mem_wf (cs_memory s) → positive_ids s →
  encode_cognitive_checkpoint s = Ok bs → decode_cognitive_checkpoint bs = Ok s.
Proof.
  intros Hty Hmem Hpos (Hv & Hf & Hlen & ->)%encode_checkpoint_Ok.
  apply validate_state_Ok in Hv; [|by apply typed_unsigned].
  apply decode_framed; [by vm_compute|by apply typed_ready|done|by split|done].
Qed.

(** Bytes that decode to a cognitive state carry a canonical payload: the state is
    typed and valid, its memory well formed and its ids positive, and encoding it again
    gives the same payload behind a header of the same length. *)
Theorem checkpoint_decode_sound bs s :
  decode_cognitive_checkpoint bs = Ok s →
  state_typed s ∧ cognitive_wf s ∧ mem_wf (cs_memory s) ∧ positive_ids s ∧
  ∃ header canonical_header payload,
    bs = header ++ payload ∧ len header = SIK97_HEADER_LEN ∧
    encode_cognitive_checkpoint s = Ok (canonical_header ++ payload) ∧
    len canonical_header = SIK97_HEADER_LEN.
Proof.
  intros (minor & Hminor & Hr & Hf & [Hwf Hmem] & Hlen & ->)%decode_sound.
  destruct (ready_typed s Hr) as [Hty Hpos]. split_and!; try done.
  eexists _, (header_enc 1 (len (payload_enc s))), _. split; [reflexivity|].
  rewrite !len_checkpoint_header. split_and!; [done| |done].
  apply encode_checkpoint_Ok. split_and!; try done. by apply validate_state_Ok, Hwf; apply wf_unsigned.
Qed.

(** ** Concrete instances *)
Lemma sample_positive : positive_ids sample_state.
Proof.
  split_and!; [apply map_Forall_insert_2; [done|apply map_Forall_empty]..|apply map_Forall_empty].
Qed.

Lemma checkpoint_round_trip_witness :
  ∃ bs, encode_cognitive_checkpoint sample_state = Ok bs ∧ len bs = 215 ∧
        decode_cognitive_checkpoint bs = Ok sample_state.
Proof.
  destruct (encode_cognitive_checkpoint sample_state) as [bs|e|] eqn:He;
    [|vm_compute in He; discriminate..].
  exists bs. split_and!; [done| |].
  - vm_compute in He. injection He as <-. reflexivity.
  - exact (checkpoint_round_trip sample_state bs sample_typed (proj2 sample_inv) sample_positive He).
Defined.

Lemma checkpoint_decode_sound_witness :
  ∃ bs, decode_cognitive_checkpoint bs = Ok sample_state ∧ cognitive_wf sample_state.
Proof.
  destruct (encode_cognitive_checkpoint sample_state) as [bs|e|] eqn:He;
    [|vm_compute in He; discriminate..].
  assert (decode_cognitive_checkpoint bs = Ok sample_state) as Hd.
  { vm_compute in He. injection He as <-. vm_compute. reflexivity. }
  exists bs. split; [exact Hd|]. apply (checkpoint_decode_sound bs sample_state Hd).
Defined.

(** The validation accepts a goal with id 0, the encoder writes it, and the
    decoder refuses what was written. *)
Definition zero_goal_state : CognitiveState :=
  set_cs_goals 1 {[0 := mkGoal 0 "be useful" [] GoalActive 0 0]}
    (CognitiveState_new sample_identity).

Lemma zero_id_not_restorable :
  from_state zero_goal_state = Ok zero_goal_state ∧
  ∃ bs, encode_cognitive_checkpoint zero_goal_state = Ok bs ∧
        decode_cognitive_checkpoint bs = Err NonCanonicalEncoding.
Proof.
  split; [vm_compute; reflexivity|]. eexists. split; [vm_compute; reflexivity|].
  vm_compute. reflexivity.
Qed.
End CheckpointTheorems.
