(* ===== verification/Conversation.v ===== *)
(** The chat prompt compiler: src/crates/ntd-runtime/src/conversation.rs.

    [compile_with_memory] renders the turns, the recalled memory and the user's
    message, and gives up memory items first and then pairs of turns until the
    tokenizer's output fits the budget.  The tokenizer is any type with a
    [TextTokenizer] instance, with errors of any type. *)
From S2P Require Import Prelude Text.

Module Conversation.

Inductive ConversationRole := User | Assistant.
#[export] Instance ConversationRole_eq_dec : EqDecision ConversationRole.
Proof. solve_decision. Defined.

Record ConversationTurn := mkTurn { turn_role : ConversationRole; turn_content : string }.
#[export] Instance ConversationTurn_eq_dec : EqDecision ConversationTurn.
Proof. solve_decision. Defined.
Definition turn_user (content : string) : ConversationTurn := mkTurn User content.
Definition turn_assistant (content : string) : ConversationTurn := mkTurn Assistant content.

(** The part of the trait of tokenizer.rs this file calls. *)
Class TextTokenizer (E T : Type) := encode_text : T → string → bool → result E (list Z).

Record CompiledChatPrompt := mkPrompt {
  cp_text : string;
  cp_token_ids : list Z;
  cp_retained_history_turns : Z;
  cp_dropped_history_turns : Z;
  cp_retained_memory_items : Z;
  cp_dropped_memory_items : Z;
}.

Inductive ChatPromptError (E : Type) :=
| EmptyUserMessage
| EmptyTurn (index : Z)
| InvalidHistoryOrder (index : Z)
| InvalidTokenBudget
| ContextOverflow (required limit : Z)
| Tokenizer (e : E).
Arguments EmptyUserMessage {E}.
Arguments EmptyTurn {E}.
Arguments InvalidHistoryOrder {E}.
Arguments InvalidTokenBudget {E}.
Arguments ContextOverflow {E}.
Arguments Tokenizer {E}.

Definition newline : string := bytes_string [Byte.x0a].

Definition render_memory (memory : list string) : string :=
  match memory with
  | [] => EmptyString
  | _ => "Relevant memory:" +:+ newline +:+
         foldr (λ item rest, "- " +:+ item +:+ newline +:+ rest) newline memory
  end.
Definition role_prefix (role : ConversationRole) : string :=
  match role with User => "User: " | Assistant => "Assistant: " end.
Definition render_history (history : list ConversationTurn) : string :=
  foldr (λ turn rest, role_prefix (turn_role turn) +:+ turn_content turn +:+ newline +:+ rest)
    EmptyString history.
Definition render_prompt (history : list ConversationTurn) (memory : list string)
    (user_message : string) : string :=
  render_memory memory +:+ render_history history +:+
  "User: " +:+ user_message +:+ newline +:+ "Assistant:".

Section compiler.
Context {E T : Type} `{TextTokenizer E T}.

Definition check_turn (p : Z * ConversationTurn) : result (ChatPromptError E) unit :=
  let '(index, turn) := p in
  if is_blank (turn_content turn) then Err (EmptyTurn index)
  else
    let expected := if index mod 2 =? 0 then User else Assistant in
    if decide (turn_role turn = expected) then Ok tt else Err (InvalidHistoryOrder index).

Definition validate_inputs (history : list ConversationTurn) (memory : list string)
    (user_message : string) (max_prompt_tokens : Z) : result (ChatPromptError E) unit :=
  if is_blank user_message then Err EmptyUserMessage
  else if max_prompt_tokens =? 0 then Err InvalidTokenBudget
  else
    let? _ := check_all check_turn (enumerate history) in
    if negb (len history mod 2 =? 0) then Err (InvalidHistoryOrder (len history - 1))
    else check_all (λ item, if is_blank item then Err (EmptyTurn (len history)) else Ok tt) memory.

(** One pass of the inner loop's body: [Some] is the [return]. *)
Definition try_prompt (tokenizer : T) (history : list ConversationTurn) (memory : list string)
    (user_message : string) (limit : Z) (dropped retained : nat)
  : result (ChatPromptError E) (option CompiledChatPrompt) :=
  let retained_history := drop dropped history in
  let text := render_prompt retained_history (take retained memory) user_message in
  let? token_ids := map_err Tokenizer (encode_text tokenizer text true) in
  Ok (if len token_ids <=? limit then
        Some {| cp_text := text; cp_token_ids := token_ids;
                cp_retained_history_turns := len retained_history;
                cp_dropped_history_turns := Z.of_nat dropped;
                cp_retained_memory_items := Z.of_nat retained;
                cp_dropped_memory_items := len memory - Z.of_nat retained |}
      else None).

(** A loop left by [return]. *)
Fixpoint first_of {A B} (f : A → result (ChatPromptError E) (option B)) (l : list A)
  : result (ChatPromptError E) (option B) :=
  match l with
  | [] => Ok None
  | x :: l' =>
      let? found := f x in
      match found with Some b => Ok (Some b) | None => first_of f l' end
  end.

(** [(0..=n).step_by(2)] and [(0..=n).rev()] *)
Definition even_steps (n : nat) : list nat := map (λ k, 2 * k)%nat (seq 0 (S (n / 2))).
Definition downwards (n : nat) : list nat := reverse (seq 0 (S n)).

Definition compile_with_memory (tokenizer : T) (history : list ConversationTurn)
    (memory : list string) (user_message : string) (max_prompt_tokens : Z)
  : result (ChatPromptError E) CompiledChatPrompt :=
  let? _ := validate_inputs history memory user_message max_prompt_tokens in
  let? found :=
    first_of (λ dropped,
      first_of (try_prompt tokenizer history memory user_message max_prompt_tokens dropped)
        (downwards (length memory)))
      (even_steps (length history)) in
  match found with
  | Some prompt => Ok prompt
  | None =>
      let text := render_prompt [] [] user_message in
      let? token_ids := map_err Tokenizer (encode_text tokenizer text true) in
      Err (ContextOverflow (len token_ids) max_prompt_tokens)
  end.

Definition compile (tokenizer : T) (history : list ConversationTurn) (user_message : string)
    (max_prompt_tokens : Z) : result (ChatPromptError E) CompiledChatPrompt :=
  compile_with_memory tokenizer history [] user_message max_prompt_tokens.

(** ** The order of preference

    Fewer dropped turns first; for the same turns, more memory first. *)
Definition preferred (a b : nat * nat) : Prop :=
  (a.1 < b.1)%nat ∨ (a.1 = b.1 ∧ (b.2 < a.2)%nat).
Definition candidate (history : list ConversationTurn) (memory : list string) (c : nat * nat)
  : Prop :=
  Nat.Even c.1 ∧ (c.1 ≤ length history)%nat ∧ (c.2 ≤ length memory)%nat.

Section reference.
Context (tokenizer : T) (history : list ConversationTurn) (memory : list string)
  (user_message : string) (limit : Z).

(** The tokens of a candidate prompt, and that they are too many. *)
Definition tokens_of (c : nat * nat) : result E (list Z) :=
  encode_text tokenizer
    (render_prompt (drop c.1 history) (take c.2 memory) user_message) true.
Definition too_long (c : nat * nat) : Prop :=
  ∃ ids, tokens_of c = Ok ids ∧ limit < len ids.
Definition prompt_of (c : nat * nat) (ids : list Z) : CompiledChatPrompt :=
  {| cp_text := render_prompt (drop c.1 history) (take c.2 memory) user_message;
     cp_token_ids := ids;
     cp_retained_history_turns := len history - Z.of_nat c.1;
     cp_dropped_history_turns := Z.of_nat c.1;
     cp_retained_memory_items := Z.of_nat c.2;
     cp_dropped_memory_items := len memory - Z.of_nat c.2 |}.

Definition try_candidate (c : nat * nat) : result (ChatPromptError E) (option CompiledChatPrompt) :=
  try_prompt tokenizer history memory user_message limit c.1 c.2.

Definition candidates : list (nat * nat) :=
  concat (map (λ d, map (pair d) (downwards (length memory))) (even_steps (length history))).

Lemma first_of_app {A B} (f : A → result (ChatPromptError E) (option B)) l k :
  first_of f (l ++ k) =
  let? found := first_of f l in
  match found with Some b => Ok (Some b) | None => first_of f k end.
Proof.
  induction l as [|x l IH]; simpl; [done|]. destruct (f x) as [[b|]| |]; [done|apply IH|done|done].
Qed.

Lemma first_of_map {A A' B} (g : A' → A) (f : A → result (ChatPromptError E) (option B)) l :
  first_of f (map g l) = first_of (λ x, f (g x)) l.
Proof. induction l as [|x l IH]; simpl; [done|]. by rewrite IH. Qed.

(** The nested loops walk the candidates in order. *)
Lemma nested_candidates :
  first_of (λ dropped,
      first_of (try_prompt tokenizer history memory user_message limit dropped)
        (downwards (length memory)))
      (even_steps (length history)) = first_of try_candidate candidates.
Proof.
  unfold candidates. induction (even_steps (length history)) as [|d ds IH]; [done|].
  cbn [first_of map concat]. rewrite first_of_app, first_of_map, IH. done.
Qed.

Lemma elem_of_downwards n r : r ∈ downwards n ↔ (r ≤ n)%nat.
Proof. unfold downwards. rewrite elem_of_reverse, elem_of_seq. lia. Qed.

Lemma elem_of_even_steps n d : d ∈ even_steps n ↔ Nat.Even d ∧ (d ≤ n)%nat.
Proof.
  unfold even_steps. rewrite list_elem_of_fmap. setoid_rewrite elem_of_seq.
  pose proof (Nat.Div0.div_mod n 2) as Hn. pose proof (Nat.mod_upper_bound n 2) as Hm. split.
  - intros (k & -> & Hk). split; [by exists k|lia].
  - intros [[k ->] Hd]. exists k. split; [done|]. lia.
Qed.

Lemma elem_of_grid (ds rs : list nat) c :
  c ∈ concat (map (λ d, map (pair d) rs) ds) ↔ c.1 ∈ ds ∧ c.2 ∈ rs.
Proof.
  induction ds as [|d ds IH]; cbn [map concat].
  - rewrite !elem_of_nil. tauto.
  - rewrite elem_of_app, IH, elem_of_cons.
    assert (c ∈ map (pair d) rs ↔ c.1 = d ∧ c.2 ∈ rs) as ->; [|tauto].
    rewrite list_elem_of_fmap. destruct c as [a b]. cbn. naive_solver.
Qed.

Lemma elem_of_candidates c : c ∈ candidates ↔ candidate history memory c.
Proof.
  unfold candidates, candidate. rewrite elem_of_grid, elem_of_even_steps, elem_of_downwards. tauto.
Qed.

(** The candidates stand in order of preference. *)
Lemma StronglySorted_app_intro {A} (R : relation A) l k :
  StronglySorted R l → StronglySorted R k → (∀ x y, x ∈ l → y ∈ k → R x y) →
  StronglySorted R (l ++ k).
Proof.
  intros Hl Hk. induction Hl as [|x l Hl IH Hall]; intros Hlk; simpl; [done|].
  constructor; [apply IH; intros; apply Hlk; [by right|done]|].
  rewrite Forall_app. split; [done|]. apply Forall_forall. intros y Hy. apply Hlk; [by left|done].
Qed.

Lemma downwards_S n : downwards (S n) = S n :: downwards n.
Proof. unfold downwards. rewrite (seq_S (S n)), reverse_app. done. Qed.

Lemma downwards_sorted d n : StronglySorted preferred (map (pair d) (downwards n)).
Proof.
  induction n as [|n IH]; [repeat constructor|]. rewrite downwards_S. simpl.
  constructor; [done|]. apply Forall_forall. intros c (r & -> & Hr%elem_of_downwards)%list_elem_of_fmap.
  right. cbn. lia.
Qed.

Lemma candidates_sorted : StronglySorted preferred candidates.
Proof.
  unfold candidates, even_steps. generalize (S (length history / 2)) as n. intros n.
  assert (∀ k, StronglySorted preferred (concat (map (λ d, map (pair d) (downwards (length memory)))
    (map (λ j, 2 * j)%nat (seq k n))))) as H'; [|apply H'].
  induction n as [|n IH]; intros k; [constructor|].
  cbn [seq map concat]. apply StronglySorted_app_intro; [apply downwards_sorted|apply IH|].
  intros x y (r & -> & _)%list_elem_of_fmap [Hy _]%elem_of_grid. left. cbn [fst].
  apply list_elem_of_fmap in Hy as (j & -> & [Hj _]%elem_of_seq). lia.
Qed.

(** A search stops at the first element that is not [None], and says so. *)
Lemma first_of_spec {A B} (f : A → result (ChatPromptError E) (option B)) l :
  match first_of f l with
  | Ok None => ∀ x, x ∈ l → f x = Ok None
  | r => ∃ l1 x l2, l = l1 ++ x :: l2 ∧ (∀ y, y ∈ l1 → f y = Ok None) ∧ f x = r
  end.
Proof.
  induction l as [|x l IH]; simpl; [by intros x ?%elem_of_nil|].
  assert (∀ r, f x = r → r ≠ Ok None → ∃ l1 x0 l2, x :: l = l1 ++ x0 :: l2 ∧
    (∀ y, y ∈ l1 → f y = Ok None) ∧ f x0 = r) as Hhere.
  { intros r Hr _. exists [], x, l. split_and!; [done|by intros y ?%elem_of_nil|done]. }
  destruct (f x) as [[b|]|e|] eqn:Hf; [by apply Hhere| |by apply Hhere..].
  destruct (first_of f l) as [[b|]|e|].
  2: { intros y [->|Hy]%elem_of_cons; [done|by apply IH]. }
  all: destruct IH as (l1 & x0 & l2 & -> & Hl & Hx0); exists (x :: l1), x0, l2;
    split_and!; [done| |done]; intros y [->|Hy]%elem_of_cons; [done|by apply Hl].
Qed.

Lemma sorted_before l1 (c : nat * nat) l2 c' :
  StronglySorted preferred (l1 ++ c :: l2) → c' ∈ l1 ++ c :: l2 → preferred c' c → c' ∈ l1.
Proof.
  intros Hs [?|[->|Hin]%elem_of_cons]%elem_of_app Hp; [done|..]; exfalso.
  - unfold preferred in Hp. lia.
  - induction l1 as [|x l1 IH]; simpl in Hs; inversion_clear Hs as [|? ? Hs' Hall]; [|by apply IH].
    rewrite Forall_forall in Hall. specialize (Hall _ Hin). unfold preferred in *. lia.
Qed.

Lemma try_candidate_cases c :
  candidate history memory c →
  match tokens_of c with
  | Ok ids => try_candidate c = Ok (if len ids <=? limit then Some (prompt_of c ids) else None)
  | Err e => try_candidate c = Err (Tokenizer e)
  | Panic => try_candidate c = Panic
  end.
Proof.
  intros (_ & Hd & _). unfold try_candidate, try_prompt, tokens_of, prompt_of.
  destruct (encode_text _ _ _) as [ids|e|]; [|done..]. cbn.
  assert (len (drop c.1 history) = len history - Z.of_nat c.1) as ->; [|done].
  unfold len. rewrite length_drop. lia.
Qed.

Lemma try_None_too_long c :
  candidate history memory c → try_candidate c = Ok None → too_long c.
Proof.
  intros Hc Ht. pose proof (try_candidate_cases c Hc) as Hcases. rewrite Ht in Hcases.
  unfold too_long. destruct (tokens_of c) as [ids|e|]; [|done..]. exists ids. split; [done|].
  by destruct (Z.leb_spec (len ids) limit).
Qed.
End reference.

Lemma mod_2_even (n : nat) : (Z.of_nat n mod 2 =? 0) = Nat.even n.
Proof.
  rewrite <- Zeven_mod. apply eq_true_iff_eq. rewrite Z.even_spec, Nat.even_spec. split.
  - intros [k Hk]. exists (Z.to_nat k). lia.
  - intros [k ->]. exists (Z.of_nat k). lia.
Qed.

(** What the validation accepts. *)
Lemma validate_inputs_Ok history memory user_message limit :
  validate_inputs history memory user_message limit = Ok tt ↔
  is_blank user_message = false ∧ limit ≠ 0 ∧ Nat.Even (length history) ∧
  (∀ i turn, history !! i = Some turn → is_blank (turn_content turn) = false ∧
     turn_role turn = if Nat.even i then User else Assistant) ∧
  Forall (λ item, is_blank item = false) memory.
Proof.
  unfold validate_inputs. destruct (is_blank user_message); [naive_solver|].
  destruct (Z.eqb_spec limit 0) as [|Hlim]; [naive_solver|].
  assert (check_all check_turn (enumerate history) = Ok tt ↔
    ∀ i turn, history !! i = Some turn → is_blank (turn_content turn) = false ∧
      turn_role turn = if Nat.even i then User else Assistant) as Hturns.
  { rewrite check_all_Ok, Forall_enumerate. unfold check_turn.
    split; intros Hall i turn Hi; specialize (Hall i turn Hi); rewrite mod_2_even in *.
    - destruct (is_blank _); [done|]. by case_decide.
    - destruct Hall as [-> ->]. by rewrite decide_True. }
  assert (negb (len history mod 2 =? 0) = false ↔ Nat.Even (length history)) as Hev.
  { unfold len. rewrite mod_2_even, negb_false_iff. apply Nat.even_spec. }
  destruct (check_all check_turn _) as [[]|e|] eqn:Hc.
  - destruct (negb _); [|rewrite check_all_Ok].
    + split; [done|]. intros (_ & _ & He & _). by apply Hev in He.
    + transitivity (Forall (λ item, is_blank item = false) memory).
      * apply Forall_iff. intros item. by destruct (is_blank item).
      * split; [intros Hm|naive_solver]. split_and!; try done; [by apply Hev|by apply Hturns].
  - split; [done|]. intros (_ & _ & _ & Ht & _). apply Hturns in Ht. congruence.
  - split; [done|]. intros (_ & _ & _ & Ht & _). apply Hturns in Ht. congruence.
Qed.

(** ** Properties *)

(** compile_with_memory returns the first candidate prompt, in the order of
    preference (fewer dropped turns first, then more memory), whose tokens fit the limit; it
    reports ContextOverflow exactly when none fits, and a tokenizer error of the first
    candidate it reaches. *)
Theorem compile_first_fit (tokenizer : T) history memory user_message limit :
  validate_inputs history memory user_message limit = Ok tt →
  let fits c := candidate history memory c ∧
    ∀ c', candidate history memory c' → preferred c' c →
      too_long tokenizer history memory user_message limit c' in
  match compile_with_memory tokenizer history memory user_message limit with
  | Ok prompt => ∃ c ids, fits c ∧ tokens_of tokenizer history memory user_message c = Ok ids ∧
      len ids ≤ limit ∧ prompt = prompt_of history memory user_message c ids
  | Err (ContextOverflow required limit') => limit' = limit ∧ limit < required ∧
      ∀ c, candidate history memory c → too_long tokenizer history memory user_message limit c
  | Err (Tokenizer e) => ∃ c, fits c ∧
      tokens_of tokenizer history memory user_message c = Err e
  | Err _ => False
  | Panic => ∃ c, fits c ∧ tokens_of tokenizer history memory user_message c = Panic
  end.
Proof.
  intros Hv fits. unfold compile_with_memory. rewrite Hv, nested_candidates.
  pose proof (first_of_spec (try_candidate tokenizer history memory user_message limit)
                (candidates history memory)) as Hf.
  pose proof (candidates_sorted history memory) as Hs.
  assert (∀ l1 c l2, candidates history memory = l1 ++ c :: l2 →
    (∀ y, y ∈ l1 → try_candidate tokenizer history memory user_message limit y = Ok None) →
    fits c) as Hfits.
  { intros l1 c l2 Heq Hl1. split; [apply elem_of_candidates; rewrite Heq; set_solver|].
    intros c' Hc' Hp. apply try_None_too_long; [done|]. apply Hl1.
    rewrite Heq in Hs. apply (sorted_before l1 c l2 c' Hs); [|done].
    rewrite <- Heq. by apply elem_of_candidates. }
  destruct (first_of _ _) as [[prompt|]|e|] eqn:Hfirst.
  2: { assert (∀ c, candidate history memory c →
         too_long tokenizer history memory user_message limit c) as Hall.
       { intros c Hc. apply try_None_too_long; [done|]. apply Hf. by apply elem_of_candidates. }
       apply validate_inputs_Ok in Hv as (_ & _ & He & _).
       destruct (Hall (length history, 0)%nat) as (ids & Hids & Hlen).
       { unfold candidate. cbn [fst snd]. split_and!; [done|lia..]. }
       unfold tokens_of in Hids. cbn [fst snd] in Hids. rewrite drop_all in Hids.
       change (take 0 memory) with (@nil string) in Hids.
       rewrite Hids. cbn. done. }
  all: destruct Hf as (l1 & c & l2 & Heq & Hl1 & Hc); pose proof (Hfits l1 c l2 Heq Hl1) as Hfc;
    pose proof (try_candidate_cases tokenizer history memory user_message limit c (proj1 Hfc)) as Hcases;
    rewrite Hc in Hcases; destruct (tokens_of _ _ _ _ c) as [ids|e'|] eqn:Hids; try discriminate.
  - destruct (Z.leb_spec (len ids) limit); [|done]. injection Hcases as ->. by exists c, ids.
  - injection Hcases as ->. by exists c.
  - by exists c.
Qed.
End compiler.

(** ** A concrete instance: one token per byte *)
#[local] Instance byte_tokenizer : TextTokenizer unit unit :=
  λ _ text _, Ok (map Z_of_byte (string_bytes text)).
Definition sample_history : list ConversationTurn := [turn_user "hello"; turn_assistant "hi"].
Definition sample_items : list string := ["likes tea"; "lives in Hanoi"]%string.

Lemma compile_first_fit_witness :
  match compile_with_memory (E:=unit) tt sample_history sample_items "what now?" 90 with
  | Ok prompt => cp_dropped_history_turns prompt = 0 ∧ cp_retained_memory_items prompt = 1
  | _ => False
  end.
Proof.
  assert (validate_inputs (E:=unit) sample_history sample_items "what now?" 90 = Ok tt) as Hv
    by (vm_compute; reflexivity).
  pose proof (compile_first_fit (E:=unit) tt sample_history sample_items "what now?" 90 Hv) as Hf.
  destruct (compile_with_memory _ _ _ _ _) as [prompt|e|] eqn:Hc; vm_compute in Hc; try discriminate.
  injection Hc as <-. split; reflexivity.
Defined.
End Conversation.
