(* ===== verification/ActionFabric.v ===== *)
(** The action fabric: src/crates/ntd-runtime/src/action_fabric.rs.

    Plans of actions, the adapters that carry the actions out, and the three
    operations of the fabric: preparing a plan, executing its next action and
    rolling it back.  An adapter is a value of any type with a
    [CapabilityAdapter] instance (Rust's [Box<dyn CapabilityAdapter>]), a
    verifier one of any type with an [ActionVerifier] instance: neither is
    code of the crate. *)
From S2P Require Import Prelude Text Collections Core Capability Effects Cognition.

(** [ActionId] and [ActionPlanId] are one-field structs around a [u64]. *)
Abbreviation ActionId := Z.
Abbreviation ActionPlanId := Z.

Inductive ActionStatus :=
| Prepared | Running | Suspended | Retryable | Committed | RolledBack | Failed.
#[export] Instance ActionStatus_eq_dec : EqDecision ActionStatus.
Proof. solve_decision. Defined.

Inductive ActionPlanStatus :=
| PlanReady | PlanSuspended | PlanCompleted | PlanFailed | PlanRolledBack.
#[export] Instance ActionPlanStatus_eq_dec : EqDecision ActionPlanStatus.
Proof. solve_decision. Defined.

Inductive ActionFabricError :=
| FabricCapability (e : CapabilityError)
| DuplicateAdapter (capability : CapabilityId)
| MissingAdapter (capability : CapabilityId)
| MissingPlan (id : ActionPlanId)
| MissingActionPayload (node_id : Z)
| UnexpectedActionPayload (node_id : Z)
| SideEffectMismatch (node_id : Z) (planned registered : SideEffectClass)
| VerificationContractMismatch (node_id : Z)
| NonResumableSuspension (capability : CapabilityId)
| AdapterFailure (capability : CapabilityId) (reason : string)
| RollbackFailure (capability : CapabilityId) (reason : string)
| RollbackUnavailable (id : ActionId)
| TerminalPlan (status : ActionPlanStatus)
| InvalidActionStatus (v : Z)
| InvalidPlanStatus (v : Z)
| InvalidState
| Overflow.

Definition status_tag (s : ActionStatus) : Z :=
  match s with
  | Prepared => 1 | Running => 2 | Suspended => 3 | Retryable => 4 | Committed => 5
  | RolledBack => 6 | Failed => 7
  end.
Definition plan_status_tag (s : ActionPlanStatus) : Z :=
  match s with
  | PlanReady => 1 | PlanSuspended => 2 | PlanCompleted => 3 | PlanFailed => 4
  | PlanRolledBack => 5
  end.

Definition ActionStatus_try_from (value : Z) : result ActionFabricError ActionStatus :=
  match value with
  | 1 => Ok Prepared | 2 => Ok Running | 3 => Ok Suspended | 4 => Ok Retryable
  | 5 => Ok Committed | 6 => Ok RolledBack | 7 => Ok Failed
  | other => Err (InvalidActionStatus other)
  end.
Definition ActionPlanStatus_try_from (value : Z) : result ActionFabricError ActionPlanStatus :=
  match value with
  | 1 => Ok PlanReady | 2 => Ok PlanSuspended | 3 => Ok PlanCompleted | 4 => Ok PlanFailed
  | 5 => Ok PlanRolledBack
  | other => Err (InvalidPlanStatus other)
  end.

Record PlannedAction := mkAction {
  pa_id : ActionId;
  pa_node_id : Z;
  pa_capability : CapabilityId;
  pa_capability_version : Z;
  pa_side_effect : SideEffectClass;
  pa_verification_required : bool;
  pa_action : TypedAction;
  pa_status : ActionStatus;
  pa_attempts : Z;
  pa_output : option ActionOutput;
  pa_resume_token : option bytes;
  pa_rollback_token : option bytes;
  pa_last_error : option string;
}.

Record ActionPlanState := mkPlan {
  pl_id : ActionPlanId;
  pl_task_id : Z;
  pl_cursor : Z;
  pl_status : ActionPlanStatus;
  pl_actions : list PlannedAction;
}.

Record ActionFabricState := mkFabricState {
  fs_next_plan_id : Z;
  fs_next_action_id : Z;
  fs_plans : gmap Z ActionPlanState;
}.
Definition ActionFabricState_default : ActionFabricState := mkFabricState 1 1 ∅.

Inductive AdapterResult :=
| ACompleted (output : ActionOutput) (rollback_token : option bytes)
| ASuspended (resume_token : bytes) (note : string)
| ARetryable (reason : string) (resume_token : option bytes).

Inductive ActionVerification :=
| VAccept
| VRetry (reason : string)
| VReject (reason : string).

(** The traits: a method on [&mut self] returns the new [self]. *)
Class CapabilityAdapter (A : Type) := {
  adapter_execute : ActionId → TypedAction → A → A * result string AdapterResult;
  adapter_resume : ActionId → TypedAction → bytes → A → A * result string AdapterResult;
  adapter_rollback : ActionId → TypedAction → bytes → A → A * result string unit;
}.
Class ActionVerifier (V : Type) := {
  verifier_verify :
    CapabilityDescriptor → TypedAction → ActionOutput → V → V * ActionVerification;
}.

(** The bodies the trait gives [resume] and [rollback] by default. *)
Definition default_resume {A} (action_id : ActionId) (action : TypedAction)
    (resume_token : bytes) (self : A) : A * result string AdapterResult :=
  (self, Err "resume is not supported by this adapter"%string).
Definition default_rollback {A} (action_id : ActionId) (action : TypedAction)
    (rollback_token : bytes) (self : A) : A * result string unit :=
  (self, Err "rollback is not supported by this adapter"%string).

Record ActionStepReport := mkReport {
  sr_plan_id : ActionPlanId;
  sr_action_id : option ActionId;
  sr_action_status : option ActionStatus;
  sr_plan_status : ActionPlanStatus;
  sr_cursor : Z;
  sr_summary : string;
}.

Record ActionFabric (A : Type) := mkFabric {
  fb_registry : CapabilityRegistry;
  fb_adapters : gmap string A;
  fb_state : ActionFabricState;
}.
Arguments mkFabric {A}.
Arguments fb_registry {A}.
Arguments fb_adapters {A}.
Arguments fb_state {A}.

(** [?] on a [CapabilityError] goes through [From]. *)
Definition cap {A} (r : result CapabilityError A) : result ActionFabricError A :=
  map_err FabricCapability r.

(** ** Field updates *)
Definition set_status (status : ActionStatus) (a : PlannedAction) : PlannedAction :=
  mkAction (pa_id a) (pa_node_id a) (pa_capability a) (pa_capability_version a)
    (pa_side_effect a) (pa_verification_required a) (pa_action a) status (pa_attempts a)
    (pa_output a) (pa_resume_token a) (pa_rollback_token a) (pa_last_error a).
Definition set_attempts (attempts : Z) (a : PlannedAction) : PlannedAction :=
  mkAction (pa_id a) (pa_node_id a) (pa_capability a) (pa_capability_version a)
    (pa_side_effect a) (pa_verification_required a) (pa_action a) (pa_status a) attempts
    (pa_output a) (pa_resume_token a) (pa_rollback_token a) (pa_last_error a).
Definition set_output (output : option ActionOutput) (a : PlannedAction) : PlannedAction :=
  mkAction (pa_id a) (pa_node_id a) (pa_capability a) (pa_capability_version a)
    (pa_side_effect a) (pa_verification_required a) (pa_action a) (pa_status a) (pa_attempts a)
    output (pa_resume_token a) (pa_rollback_token a) (pa_last_error a).
Definition set_resume_token (token : option bytes) (a : PlannedAction) : PlannedAction :=
  mkAction (pa_id a) (pa_node_id a) (pa_capability a) (pa_capability_version a)
    (pa_side_effect a) (pa_verification_required a) (pa_action a) (pa_status a) (pa_attempts a)
    (pa_output a) token (pa_rollback_token a) (pa_last_error a).
Definition set_rollback_token (token : option bytes) (a : PlannedAction) : PlannedAction :=
  mkAction (pa_id a) (pa_node_id a) (pa_capability a) (pa_capability_version a)
    (pa_side_effect a) (pa_verification_required a) (pa_action a) (pa_status a) (pa_attempts a)
    (pa_output a) (pa_resume_token a) token (pa_last_error a).
Definition set_last_error (err : option string) (a : PlannedAction) : PlannedAction :=
  mkAction (pa_id a) (pa_node_id a) (pa_capability a) (pa_capability_version a)
    (pa_side_effect a) (pa_verification_required a) (pa_action a) (pa_status a) (pa_attempts a)
    (pa_output a) (pa_resume_token a) (pa_rollback_token a) err.

Definition plan_set_status (status : ActionPlanStatus) (p : ActionPlanState) : ActionPlanState :=
  mkPlan (pl_id p) (pl_task_id p) (pl_cursor p) status (pl_actions p).
Definition plan_set_cursor (cursor : Z) (p : ActionPlanState) : ActionPlanState :=
  mkPlan (pl_id p) (pl_task_id p) cursor (pl_status p) (pl_actions p).
Definition plan_set_actions (actions : list PlannedAction) (p : ActionPlanState)
  : ActionPlanState :=
  mkPlan (pl_id p) (pl_task_id p) (pl_cursor p) (pl_status p) actions.

Section fabric.
Context {A V : Type} `{CapabilityAdapter A, ActionVerifier V}.
Abbreviation fabric := (ActionFabric A).

Definition set_plans (self : fabric) (plans : gmap Z ActionPlanState) : fabric :=
  mkFabric (fb_registry self) (fb_adapters self)
    (mkFabricState (fs_next_plan_id (fb_state self)) (fs_next_action_id (fb_state self)) plans).
Definition put_plan (self : fabric) (id : ActionPlanId) (plan : ActionPlanState) : fabric :=
  set_plans self (<[id := plan]> (fs_plans (fb_state self))).
Definition set_adapters (self : fabric) (adapters : gmap string A) : fabric :=
  mkFabric (fb_registry self) adapters (fb_state self).
Definition get_plan (self : fabric) (id : ActionPlanId) : option ActionPlanState :=
  fs_plans (fb_state self) !! id.

Definition ActionFabric_new (registry : CapabilityRegistry) : fabric :=
  mkFabric registry ∅ ActionFabricState_default.

Definition register_adapter (capability : CapabilityId) (adapter : A)
  : op fabric ActionFabricError unit := λ self,
  match cap (get_descriptor (fb_registry self) capability) with
  | Ok _ =>
      match fb_adapters self !! capability with
      | Some _ => (self, Err (DuplicateAdapter capability))
      | None => (set_adapters self (<[capability := adapter]> (fb_adapters self)), Ok tt)
      end
  | Err e => (self, Err e)
  | Panic => (self, Panic)
  end.

(** *** Preparing a plan *)
Record ValidatedNode := mkValidated {
  vn_node : ActionNode;
  vn_action : TypedAction;
  vn_version : Z;
  vn_verification : bool;
}.

(** The body of the loop over [graph.actions]; the state is the nodes seen,
    the payloads left and the nodes validated. *)
Definition prepare_node (registry : CapabilityRegistry)
    (acc : gset Z * gmap Z TypedAction * list ValidatedNode) (node : ActionNode)
  : result ActionFabricError (gset Z * gmap Z TypedAction * list ValidatedNode) :=
  let '(seen_nodes, payloads, validated) := acc in
  if bool_decide (an_id node ∈ seen_nodes) then Err InvalidState
  else
    let? action := ok_or (payloads !! an_id node) (MissingActionPayload (an_id node)) in
    let payloads := delete (an_id node) payloads in
    let? descriptor := cap (validate_action registry (an_capability node) action) in
    if negb (bool_decide (an_side_effect node = cd_side_effect descriptor))
    then Err (SideEffectMismatch (an_id node) (an_side_effect node) (cd_side_effect descriptor))
    else if cd_verification_required descriptor && negb (an_verification_required node)
    then Err (VerificationContractMismatch (an_id node))
    else Ok ({[an_id node]} ∪ seen_nodes, payloads,
             validated ++ [mkValidated node action (cd_version descriptor)
               (an_verification_required node || cd_verification_required descriptor)]).

(** The body of the loop that gives the validated nodes their ids. *)
Definition plan_action (first_action_id : Z) (p : Z * ValidatedNode)
  : result ActionFabricError PlannedAction :=
  let '(offset, v) := p in
  let? offset := ok_or (try_u64 offset) Overflow in
  let? action_id := ok_or (checked_add_u64 first_action_id offset) Overflow in
  Ok (mkAction action_id (an_id (vn_node v)) (an_capability (vn_node v)) (vn_version v)
        (an_side_effect (vn_node v)) (vn_verification v) (vn_action v) Prepared 0
        None None None None).

Definition prepare_plan (task_id : Z) (graph : TaskGraph) (payloads : gmap Z TypedAction)
  : op fabric ActionFabricError ActionPlanId := λ self,
  let st := fb_state self in
  let prepared :=
    if (task_id =? 0) || TaskGraph_is_empty graph then Err InvalidState
    else
      let? ' (_, payloads, validated) :=
        fold_result (prepare_node (fb_registry self)) (∅, payloads, []) (tg_actions graph) in
      let? _ := match btree_iter payloads with
                | (unexpected, _) :: _ => Err (UnexpectedActionPayload unexpected)
                | [] => Ok tt
                end in
      let plan_id := fs_next_plan_id st in
      let? next_plan_id := ok_or (checked_add_u64 plan_id 1) Overflow in
      let? action_count := ok_or (try_u64 (len validated)) Overflow in
      let first_action_id := fs_next_action_id st in
      let? next_action_id := ok_or (checked_add_u64 first_action_id action_count) Overflow in
      let? actions := map_result (plan_action first_action_id) (enumerate validated) in
      Ok (plan_id, mkFabricState next_plan_id next_action_id
            (<[plan_id := mkPlan plan_id task_id 0 PlanReady actions]> (fs_plans st)))
  in
  match prepared with
  | Ok (plan_id, st') => (mkFabric (fb_registry self) (fb_adapters self) st', Ok plan_id)
  | Err e => (self, Err e)
  | Panic => (self, Panic)
  end.

Definition prepare_cognitive_task (task : Cognition.CognitiveTask)
    (payloads : gmap Z TypedAction) : op fabric ActionFabricError ActionPlanId :=
  prepare_plan (Cognition.task_id task) (Cognition.task_graph task) payloads.

(** *** Access to the plan being worked on *)

(** [let action = self.action_mut(plan_id, index)?; action.f = ..;]: the
    action updated by [f], and its id. *)
Definition action_mut (plan_id : ActionPlanId) (index : Z) (f : PlannedAction → PlannedAction)
  : op fabric ActionFabricError ActionId := λ self,
  match get_plan self plan_id with
  | None => (self, Err (MissingPlan plan_id))
  | Some plan =>
      match pl_actions plan !! Z.to_nat index with
      | None => (self, Err InvalidState)
      | Some action =>
          (put_plan self plan_id
             (plan_set_actions (<[Z.to_nat index := f action]> (pl_actions plan)) plan),
           Ok (pa_id action))
      end
  end.

Definition set_plan_status (plan_id : ActionPlanId) (status : ActionPlanStatus)
  : op fabric ActionFabricError unit := λ self,
  match get_plan self plan_id with
  | None => (self, Err (MissingPlan plan_id))
  | Some plan => (put_plan self plan_id (plan_set_status status plan), Ok tt)
  end.
Definition finish_plan (plan_id : ActionPlanId) (status : ActionPlanStatus)
  : op fabric ActionFabricError unit :=
  set_plan_status plan_id status.

Definition advance_cursor (plan_id : ActionPlanId)
  : op fabric ActionFabricError (Z * ActionPlanStatus) := λ self,
  match get_plan self plan_id with
  | None => (self, Err (MissingPlan plan_id))
  | Some plan =>
      let cursor := saturating_add_u64 (pl_cursor plan) 1 in
      let status := if len (pl_actions plan) <=? cursor then PlanCompleted else PlanReady in
      (put_plan self plan_id (plan_set_status status (plan_set_cursor cursor plan)),
       Ok (cursor, status))
  end.

(** [self.adapters.get_mut(&capability.0).ok_or(MissingAdapter)?] and a call
    on the adapter: the adapter is updated in place. *)
Definition call_adapter {X} (capability : CapabilityId) (call : A → A * result string X)
  : op fabric ActionFabricError (string + X) := λ self,
  match fb_adapters self !! capability with
  | None => (self, Err (MissingAdapter capability))
  | Some adapter =>
      let '(adapter, r) := call adapter in
      let self := set_adapters self (<[capability := adapter]> (fb_adapters self)) in
      match r with
      | Ok x => (self, Ok (inr x))
      | Err reason => (self, Ok (inl reason))
      | Panic => (self, Panic)
      end
  end.
(** The same call followed by [.map_err(RollbackFailure)?]. *)
Definition call_rollback (snapshot : PlannedAction) (token : bytes)
  : op fabric ActionFabricError unit :=
  do! r := call_adapter (pa_capability snapshot)
             (adapter_rollback (pa_id snapshot) (pa_action snapshot) token) in
  match r with
  | inr _ => op_ret tt
  | inl reason => op_err (RollbackFailure (pa_capability snapshot) reason)
  end.

(** *** Executing the next action *)
Definition rollback_current_if_possible (plan_id : ActionPlanId) (cursor : Z)
    (snapshot : PlannedAction) (descriptor : CapabilityDescriptor)
    (rollback_token : option bytes) : op fabric ActionFabricError bool :=
  if negb (cd_rollback_supported descriptor) then op_ret false
  else match rollback_token with
  | None => op_ret false
  | Some token =>
      do! _ := call_rollback snapshot token in
      do! _ := action_mut plan_id cursor (set_rollback_token (Some token)) in
      op_ret true
  end.

(** [descriptor.rollback_supported.then_some(rollback_token).flatten()] *)
Definition kept_token (descriptor : CapabilityDescriptor) (rollback_token : option bytes)
  : option bytes :=
  if cd_rollback_supported descriptor then rollback_token else None.

Definition reject_output (plan_id : ActionPlanId) (cursor : Z) (snapshot : PlannedAction)
    (descriptor : CapabilityDescriptor) (output : ActionOutput) (rollback_token : option bytes)
    (reason : string) : op fabric ActionFabricError ActionStepReport :=
  do! rolled_back :=
    rollback_current_if_possible plan_id cursor snapshot descriptor rollback_token in
  let action_status := if rolled_back then RolledBack else Failed in
  do! action_id := action_mut plan_id cursor
    (λ a, set_status action_status (set_last_error (Some reason) (set_output (Some output) a))) in
  do! _ := finish_plan plan_id PlanFailed in
  op_ret (mkReport plan_id (Some action_id) (Some action_status) PlanFailed cursor reason).

Definition accept_output (plan_id : ActionPlanId) (cursor : Z)
    (descriptor : CapabilityDescriptor) (output : ActionOutput) (rollback_token : option bytes)
  : op fabric ActionFabricError ActionStepReport :=
  do! action_id := action_mut plan_id cursor
    (λ a, set_last_error None (set_rollback_token (kept_token descriptor rollback_token)
            (set_resume_token None (set_output (Some output) (set_status Committed a))))) in
  do! ' (next_cursor, plan_status) := advance_cursor plan_id in
  op_ret (mkReport plan_id (Some action_id) (Some Committed) plan_status next_cursor
            (ao_summary output)).

Definition retry_output (plan_id : ActionPlanId) (cursor : Z)
    (descriptor : CapabilityDescriptor) (output : ActionOutput) (rollback_token : option bytes)
    (reason : string) : op fabric ActionFabricError ActionStepReport :=
  do! action_id := action_mut plan_id cursor
    (λ a, set_last_error (Some reason)
            (set_rollback_token (kept_token descriptor rollback_token)
               (set_resume_token None (set_output (Some output) (set_status Retryable a))))) in
  do! _ := set_plan_status plan_id PlanReady in
  op_ret (mkReport plan_id (Some action_id) (Some Retryable) PlanReady cursor reason).

(** An adapter that suspends, or keeps resume state, without being allowed to. *)
Definition fail_suspension (plan_id : ActionPlanId) (cursor : Z) (snapshot : PlannedAction)
    (message : string) : op fabric ActionFabricError ActionStepReport :=
  do! _ := action_mut plan_id cursor (λ a, set_last_error (Some message) (set_status Failed a)) in
  do! _ := finish_plan plan_id PlanFailed in
  op_err (NonResumableSuspension (pa_capability snapshot)).

Definition is_some {X} (o : option X) : bool := match o with Some _ => true | None => false end.

(** [verifier.verify(..)] where the snapshot asks for it. *)
Definition verify_output (snapshot : PlannedAction) (descriptor : CapabilityDescriptor)
    (output : ActionOutput) : op (fabric * V) ActionFabricError ActionVerification := λ s,
  if pa_verification_required snapshot
  then let '(verifier, v) := verifier_verify descriptor (pa_action snapshot) output s.2 in
       ((s.1, verifier), Ok v)
  else (s, Ok VAccept).

Definition apply_adapter_result (plan_id : ActionPlanId) (cursor : Z) (snapshot : PlannedAction)
    (descriptor : CapabilityDescriptor) (r : AdapterResult)
  : op (fabric * V) ActionFabricError ActionStepReport :=
  match r with
  | ASuspended resume_token note =>
      on_fst (
        if negb (cd_resumable descriptor)
        then fail_suspension plan_id cursor snapshot "adapter attempted unsupported suspension"
        else
          do! action_id := action_mut plan_id cursor
            (λ a, set_last_error (Some note)
                    (set_resume_token (Some resume_token) (set_status Suspended a))) in
          do! _ := set_plan_status plan_id PlanSuspended in
          op_ret (mkReport plan_id (Some action_id) (Some Suspended) PlanSuspended cursor note))
  | ARetryable reason resume_token =>
      on_fst (
        if is_some resume_token && negb (cd_resumable descriptor)
        then fail_suspension plan_id cursor snapshot
               "adapter returned resume state for non-resumable capability"
        else
          do! action_id := action_mut plan_id cursor
            (λ a, set_last_error (Some reason)
                    (set_resume_token resume_token (set_status Retryable a))) in
          do! _ := set_plan_status plan_id PlanReady in
          op_ret (mkReport plan_id (Some action_id) (Some Retryable) PlanReady cursor reason))
  | ACompleted output rollback_token =>
      do! verification := verify_output snapshot descriptor output in
      on_fst
        match verification with
        | VAccept => accept_output plan_id cursor descriptor output rollback_token
        | VRetry reason => retry_output plan_id cursor descriptor output rollback_token reason
        | VReject reason =>
            reject_output plan_id cursor snapshot descriptor output rollback_token reason
        end
  end.

Definition plan_terminal (status : ActionPlanStatus) : bool :=
  match status with PlanCompleted | PlanFailed | PlanRolledBack => true | _ => false end.
Definition action_done (status : ActionStatus) : bool :=
  match status with Committed | RolledBack | Failed => true | _ => false end.

(** [use_resume]: the resume token, where the call is to resume. *)
Definition resume_with (snapshot : PlannedAction) : option bytes :=
  match pa_status snapshot with
  | Suspended | Retryable => pa_resume_token snapshot
  | _ => None
  end.

(** What is checked of the current action before the state changes. *)
Definition check_current (registry : CapabilityRegistry) (authority : AuthorityGrant)
    (snapshot : PlannedAction) : result ActionFabricError CapabilityDescriptor :=
  let? descriptor :=
    cap (validate_action registry (pa_capability snapshot) (pa_action snapshot)) in
  let? _ := cap (permits authority descriptor) in
  if is_some (resume_with snapshot) && negb (cd_resumable descriptor)
  then Err (NonResumableSuspension (pa_capability snapshot))
  else if action_done (pa_status snapshot) then Err InvalidState
  else Ok descriptor.

(** The adapter's [Err]: the action is left to be retried. *)
Definition adapter_failed (plan_id : ActionPlanId) (cursor : Z) (reason : string)
  : op fabric ActionFabricError ActionStepReport :=
  do! action_id := action_mut plan_id cursor
    (λ a, set_resume_token None (set_last_error (Some reason) (set_status Retryable a))) in
  do! _ := set_plan_status plan_id PlanReady in
  op_ret (mkReport plan_id (Some action_id) (Some Retryable) PlanReady cursor reason).

Definition start_action (a : PlannedAction) : PlannedAction :=
  set_attempts (saturating_add_u32 (pa_attempts a) 1) (set_status Running a).

Definition run_action (plan_id : ActionPlanId) (cursor : Z) (snapshot : PlannedAction)
    (descriptor : CapabilityDescriptor) : op (fabric * V) ActionFabricError ActionStepReport :=
  do! _ := on_fst (action_mut plan_id cursor start_action) in
  do! _ := on_fst (set_plan_status plan_id PlanReady) in
  do! adapter_result := on_fst (call_adapter (pa_capability snapshot)
    match resume_with snapshot with
    | Some token => adapter_resume (pa_id snapshot) (pa_action snapshot) token
    | None => adapter_execute (pa_id snapshot) (pa_action snapshot)
    end) in
  match adapter_result with
  | inr r => apply_adapter_result plan_id cursor snapshot descriptor r
  | inl reason => on_fst (adapter_failed plan_id cursor reason)
  end.

Definition execute_next (plan_id : ActionPlanId) (authority : AuthorityGrant)
  : op (fabric * V) ActionFabricError ActionStepReport :=
  do! plan := op_gets (λ s, ok_or (get_plan s.1 plan_id) (MissingPlan plan_id)) in
  if plan_terminal (pl_status plan) then op_err (TerminalPlan (pl_status plan))
  else
    let cursor := pl_cursor plan in
    match pl_actions plan !! Z.to_nat cursor with
    | None =>
        do! _ := on_fst (finish_plan plan_id PlanCompleted) in
        op_ret (mkReport plan_id None None PlanCompleted cursor "plan already exhausted")
    | Some snapshot =>
        do! descriptor := op_gets (λ s, check_current (fb_registry s.1) authority snapshot) in
        run_action plan_id cursor snapshot descriptor
    end.

(** *** Rolling a plan back *)
Definition rollback_skips (action : PlannedAction) : bool :=
  bool_decide (pa_side_effect action = ReadOnly)
  || bool_decide (pa_status action = Prepared) || bool_decide (pa_status action = RolledBack).

(** The body of the loop over [snapshots.iter().enumerate().rev()]. *)
Definition rollback_action (plan_id : ActionPlanId) (p : Z * PlannedAction)
  : op fabric ActionFabricError unit :=
  let '(index, action) := p in
  if rollback_skips action then op_ret tt
  else
    do! descriptor := op_gets (λ self, cap (get_descriptor (fb_registry self)
                                              (pa_capability action))) in
    if negb (cd_rollback_supported descriptor) then op_err (RollbackUnavailable (pa_id action))
    else
      do! token := op_lift (ok_or (pa_rollback_token action)
                              (RollbackUnavailable (pa_id action))) in
      do! _ := call_rollback action token in
      do! _ := action_mut plan_id index (set_status RolledBack) in
      op_ret tt.

Definition rollback_plan (plan_id : ActionPlanId)
  : op fabric ActionFabricError ActionStepReport :=
  do! plan := op_gets (λ self, ok_or (get_plan self plan_id) (MissingPlan plan_id)) in
  do! _ := op_each (rollback_action plan_id) (reverse (enumerate (pl_actions plan))) in
  do! _ := finish_plan plan_id PlanRolledBack in
  do! plan := op_gets (λ self, ok_or (get_plan self plan_id) (MissingPlan plan_id)) in
  op_ret (mkReport plan_id None None (pl_status plan) (pl_cursor plan)
            "all known side effects rolled back").
End fabric.

(** ** Validation of a restored state *)
Definition check_action (registry : CapabilityRegistry) (plan : ActionPlanState) (index : Z)
    (action : PlannedAction) : result ActionFabricError unit :=
  let? descriptor := cap (validate_action registry (pa_capability action) (pa_action action)) in
  if negb (cd_version descriptor =? pa_capability_version action)
     || negb (bool_decide (cd_side_effect descriptor = pa_side_effect action))
  then Err InvalidState
  else if cd_verification_required descriptor && negb (pa_verification_required action)
  then Err InvalidState
  else if is_some (pa_resume_token action) && negb (cd_resumable descriptor)
  then Err InvalidState
  else if is_some (pa_rollback_token action) && negb (cd_rollback_supported descriptor)
  then Err InvalidState
  else if (index <? pl_cursor plan) && negb (bool_decide (pl_status plan = PlanRolledBack))
          && negb (bool_decide (pa_status action = Committed))
  then Err InvalidState
  else if (pl_cursor plan <? index) && negb (bool_decide (pa_status action = Prepared))
  then Err InvalidState
  else Ok tt.

(** The body of the loop over [plan.actions]; the state is the set of action
    ids and their maximum. *)
Definition visit_action (registry : CapabilityRegistry) (plan : ActionPlanState)
    (acc : gset Z * Z) (p : Z * PlannedAction) : result ActionFabricError (gset Z * Z) :=
  let '(action_ids, max_action_id) := acc in
  let '(index, action) := p in
  if (pa_id action =? 0) || bool_decide (pa_id action ∈ action_ids) then Err InvalidState
  else
    let? _ := check_action registry plan index action in
    Ok ({[pa_id action]} ∪ action_ids, Z.max max_action_id (pa_id action)).

Definition check_position (plan : ActionPlanState) : result ActionFabricError unit :=
  if bool_decide (pl_status plan = PlanCompleted)
     && (negb (pl_cursor plan =? len (pl_actions plan))
         || negb (forallb (λ a, bool_decide (pa_status a = Committed)) (pl_actions plan)))
  then Err InvalidState
  else if pl_cursor plan <? len (pl_actions plan)
  then
    let? current := or_panic (pl_actions plan !! Z.to_nat (pl_cursor plan)) in
    match pl_status plan, pa_status current with
    | PlanSuspended, Suspended => if is_some (pa_resume_token current) then Ok tt else Err InvalidState
    | PlanSuspended, _ => Err InvalidState
    | PlanReady, (Prepared | Retryable | Running) => Ok tt
    | PlanReady, _ => Err InvalidState
    | PlanFailed, (Failed | RolledBack) => Ok tt
    | PlanFailed, _ => Err InvalidState
    | _, _ => Ok tt
    end
  else Ok tt.

(** The body of the loop over [&state.plans]. *)
Definition visit_plan (registry : CapabilityRegistry) (acc : gset Z * Z)
    (p : Z * ActionPlanState) : result ActionFabricError (gset Z * Z) :=
  let '(key, plan) := p in
  if negb (key =? pl_id plan) || (pl_id plan =? 0) || (pl_task_id plan =? 0)
     || (len (pl_actions plan) <? pl_cursor plan)
  then Err InvalidState
  else
    let? acc := fold_result (visit_action registry plan) acc (enumerate (pl_actions plan)) in
    let? _ := check_position plan in
    Ok acc.

Definition validate_fabric_state (registry : CapabilityRegistry) (state : ActionFabricState)
  : result ActionFabricError unit :=
  if (fs_next_plan_id state =? 0) || (fs_next_action_id state =? 0) then Err InvalidState
  else if match btree_last_key (fs_plans state) with
          | Some id => fs_next_plan_id state <=? id
          | None => false
          end
  then Err InvalidState
  else
    let? ' (_, max_action_id) :=
      fold_result (visit_plan registry) (∅, 0) (btree_iter (fs_plans state)) in
    if fs_next_action_id state <=? max_action_id then Err InvalidState else Ok tt.

Definition ActionFabric_from_state {A} (registry : CapabilityRegistry) (state : ActionFabricState)
  : result ActionFabricError (ActionFabric A) :=
  let? _ := validate_fabric_state registry state in
  Ok (mkFabric registry ∅ state).
