(* ===== verification/ActionFabricStep.v ===== *)
(** The fabric as a state machine: what one call of [execute_next] may do.

    [action_step] and [plan_step] are the abstract specification of a step of a
    plan, free of adapters and of the error monad; [execute_next_cases] shows
    that every call of [execute_next] (src/crates/ntd-runtime/src/action_fabric.rs)
    either changes nothing and reports an error, or makes one such step. *)
From S2P Require Import Prelude Text Collections Core Capability Effects ActionFabric.

(** ** The abstract machine *)

(** What a call may make of the current action [a] of capability [d], short of
    committing it, and the status it gives the plan. *)
Inductive action_step (d : CapabilityDescriptor) (a : PlannedAction)
  : PlannedAction → ActionPlanStatus → Prop :=
| step_started : action_step d a (start_action a) PlanReady
| step_adapter_failed reason :
    action_step d a
      (set_resume_token None (set_last_error (Some reason) (set_status Retryable (start_action a))))
      PlanReady
| step_suspended token note :
    cd_resumable d = true →
    action_step d a
      (set_last_error (Some note) (set_resume_token (Some token)
         (set_status Suspended (start_action a))))
      PlanSuspended
| step_retryable reason token :
    (is_Some token → cd_resumable d = true) →
    action_step d a
      (set_last_error (Some reason) (set_resume_token token
         (set_status Retryable (start_action a))))
      PlanReady
| step_unsupported message :
    cd_resumable d = false →
    action_step d a (set_last_error (Some message) (set_status Failed (start_action a))) PlanFailed
| step_retry_output output token reason :
    pa_verification_required a = true →
    action_step d a
      (set_last_error (Some reason) (set_rollback_token (kept_token d token)
         (set_resume_token None (set_output (Some output) (set_status Retryable (start_action a))))))
      PlanReady
| step_reject_failed output reason :
    pa_verification_required a = true →
    action_step d a
      (set_status Failed (set_last_error (Some reason) (set_output (Some output) (start_action a))))
      PlanFailed
| step_reject_rolled_back output token reason :
    pa_verification_required a = true → cd_rollback_supported d = true →
    action_step d a
      (set_status RolledBack (set_last_error (Some reason) (set_output (Some output)
         (set_rollback_token (Some token) (start_action a)))))
      PlanFailed.

Definition with_current (p : ActionPlanState) (a : PlannedAction) (status : ActionPlanStatus)
  : ActionPlanState :=
  plan_set_status status
    (plan_set_actions (<[Z.to_nat (pl_cursor p) := a]> (pl_actions p)) p).

Definition commit_action (d : CapabilityDescriptor) (output : ActionOutput) (token : option bytes)
    (a : PlannedAction) : PlannedAction :=
  set_last_error None (set_rollback_token (kept_token d token)
    (set_resume_token None (set_output (Some output) (set_status Committed a)))).

Definition advanced (p : ActionPlanState) : ActionPlanState :=
  let cursor := saturating_add_u64 (pl_cursor p) 1 in
  plan_set_status (if len (pl_actions p) <=? cursor then PlanCompleted else PlanReady)
    (plan_set_cursor cursor p).

Inductive plan_step (registry : CapabilityRegistry) (authority : AuthorityGrant)
    (p : ActionPlanState) : ActionPlanState → Prop :=
| plan_exhausted :
    pl_actions p !! Z.to_nat (pl_cursor p) = None →
    plan_step registry authority p (plan_set_status PlanCompleted p)
| plan_stays a d a' status :
    pl_actions p !! Z.to_nat (pl_cursor p) = Some a →
    check_current registry authority a = Ok d →
    action_step d a a' status →
    plan_step registry authority p (with_current p a' status)
| plan_advances a d output token :
    pl_actions p !! Z.to_nat (pl_cursor p) = Some a →
    check_current registry authority a = Ok d →
    plan_step registry authority p
      (advanced (with_current p (commit_action d output token (start_action a)) PlanReady)).

(** ** The state with one plan in focus *)
#[local] Ltac show_report :=
  intros; simplify_eq/=; repeat split; try done; intros; first [done | by left | by right].
Section focus.
Context {A V : Type} `{CapabilityAdapter A, ActionVerifier V}.
Implicit Types (s : ActionFabric A) (v : V) (p : ActionPlanState).

Lemma get_put s k p : get_plan (put_plan s k p) k = Some p.
Proof. apply lookup_insert_eq. Qed.
Lemma get_put_ne s k k' p : k ≠ k' → get_plan (put_plan s k p) k' = get_plan s k'.
Proof. apply lookup_insert_ne. Qed.
Lemma put_put s k p q : put_plan (put_plan s k p) k q = put_plan s k q.
Proof. unfold put_plan, set_plans. simpl. by rewrite insert_insert_eq. Qed.
Lemma put_get s k p : get_plan s k = Some p → put_plan s k p = s.
Proof.
  intros Hp. unfold put_plan, set_plans. rewrite insert_id by done. by destruct s as [? ? []].
Qed.
Lemma put_set_adapters s k p ads :
  set_adapters (put_plan s k p) ads = put_plan (set_adapters s ads) k p.
Proof. done. Qed.

Lemma action_mut_focus s k p i f a :
  pl_actions p !! Z.to_nat i = Some a →
  action_mut k i f (put_plan s k p) =
    (put_plan s k (plan_set_actions (<[Z.to_nat i := f a]> (pl_actions p)) p), Ok (pa_id a)).
Proof. intros Ha. unfold action_mut. by rewrite get_put, Ha, put_put. Qed.

Lemma set_plan_status_focus s k p st :
  set_plan_status k st (put_plan s k p) = (put_plan s k (plan_set_status st p), Ok tt).
Proof. unfold set_plan_status. by rewrite get_put, put_put. Qed.

Lemma advance_cursor_focus s k p :
  advance_cursor k (put_plan s k p) =
    (put_plan s k (advanced p), Ok (pl_cursor (advanced p), pl_status (advanced p))).
Proof. unfold advance_cursor. by rewrite get_put, put_put. Qed.

Lemma call_adapter_cases {X} s capability (call : A → A * result string X) :
  (fb_adapters s !! capability = None ∧
   call_adapter capability call s = (s, Err (MissingAdapter capability))) ∨
  ∃ ad ad' r, fb_adapters s !! capability = Some ad ∧ call ad = (ad', r) ∧
    call_adapter capability call s =
      (set_adapters s (<[capability := ad']> (fb_adapters s)),
       match r with Ok x => Ok (inr x) | Err reason => Ok (inl reason) | Panic => Panic end).
Proof.
  unfold call_adapter. destruct (fb_adapters s !! capability) as [ad|]; [|by left].
  right. destruct (call ad) as [ad' r] eqn:Hc. exists ad, ad', r. by destruct r.
Qed.

(** Update the current action, then the status of the plan. *)
Lemma update_current s k p f st a (R : ActionId → ActionStepReport) :
  pl_actions p !! Z.to_nat (pl_cursor p) = Some a →
  (do! action_id := action_mut k (pl_cursor p) f in
   do! _ := set_plan_status k st in op_ret (R action_id)) (put_plan s k p) =
    (put_plan s k (with_current p (f a) st), Ok (R (pa_id a))).
Proof.
  intros Ha. unfold op_bind. rewrite (action_mut_focus _ _ _ _ _ _ Ha).
  by rewrite set_plan_status_focus.
Qed.

(** The state after [start_action]. *)
Definition started p a : ActionPlanState := with_current p (start_action a) PlanReady.

Lemma started_current p a :
  pl_actions p !! Z.to_nat (pl_cursor p) = Some a →
  pl_actions (started p a) !! Z.to_nat (pl_cursor (started p a)) = Some (start_action a).
Proof. intros Ha. simpl. apply list_lookup_insert_eq. by eapply lookup_lt_Some. Qed.

Lemma with_current_twice p a st a' st' :
  with_current (with_current p a st) a' st' = with_current p a' st'.
Proof.
  unfold with_current, plan_set_status, plan_set_actions. simpl. by rewrite list_insert_insert_eq.
Qed.
Lemma with_current_started p a a' st :
  with_current (started p a) a' st = with_current p a' st.
Proof. apply with_current_twice. Qed.

(** ** A call makes one step *)

(** The report of a call shows the plan it leaves; a plan that stays ready has
    an action to retry, or its cursor moved on. *)
Definition report_shows (k : ActionPlanId) p p' (rep : ActionStepReport) : Prop :=
  sr_plan_id rep = k ∧ sr_plan_status rep = pl_status p' ∧ sr_cursor rep = pl_cursor p' ∧
  (pl_status p' = PlanReady →
     sr_action_status rep = Some Retryable ∨
     pl_cursor p' = saturating_add_u64 (pl_cursor p) 1 ∧ pl_cursor p' < len (pl_actions p')).

(** What [run_action] leaves of the state [s] with the plan [p] in focus. *)
Definition stepped (registry : CapabilityRegistry) (authority : AuthorityGrant)
    (k : ActionPlanId) s p (capability : CapabilityId)
    (out : ActionFabric A * V * result ActionFabricError ActionStepReport) : Prop :=
  ∃ p' ads v', out.1 = (put_plan (set_adapters s ads) k p', v') ∧
    plan_step registry authority p p' ∧
    (∀ c, c ≠ capability → ads !! c = fb_adapters s !! c) ∧
    (∀ c, is_Some (ads !! c) ↔ is_Some (fb_adapters s !! c)) ∧
    ∀ rep, out.2 = Ok rep → report_shows k p p' rep.

Context (registry : CapabilityRegistry) (authority : AuthorityGrant) (k : ActionPlanId).
Context (p : ActionPlanState) (a : PlannedAction) (d : CapabilityDescriptor).
Hypothesis (Hcurrent : pl_actions p !! Z.to_nat (pl_cursor p) = Some a).
Hypothesis (Hchecked : check_current registry authority a = Ok d).

(** The adapters called are those of the action. *)
Definition only_adapter s (ads : gmap string A) : Prop :=
  (∀ c, c ≠ pa_capability a → ads !! c = fb_adapters s !! c) ∧
  (∀ c, is_Some (ads !! c) ↔ is_Some (fb_adapters s !! c)).

Lemma only_adapter_refl s : only_adapter s (fb_adapters s).
Proof. by split. Qed.

Lemma only_adapter_insert s ads ad :
  only_adapter s ads → is_Some (ads !! pa_capability a) →
  only_adapter s (<[pa_capability a := ad]> ads).
Proof.
  intros [Hne Hdom] Hin. split.
  - intros c Hc. rewrite lookup_insert_ne by done. by apply Hne.
  - intros c. destruct (decide (c = pa_capability a)) as [->|Hc].
    + rewrite lookup_insert_eq, <- Hdom. by split.
    + by rewrite lookup_insert_ne by done.
Qed.

Lemma stepped_stays s ads v a' st r :
  only_adapter s ads → action_step d a a' st →
  (∀ rep, r = Ok rep → report_shows k p (with_current p a' st) rep) →
  stepped registry authority k s p (pa_capability a)
    ((put_plan (set_adapters s ads) k (with_current p a' st), v), r).
Proof.
  intros [Hne Hdom] Hstep Hrep. exists (with_current p a' st), ads, v.
  split_and!; try done. by eapply plan_stays.
Qed.

(** The common shape of a call that leaves the cursor where it is. *)
Lemma stepped_update s ads v f st (R : ActionId → ActionStepReport) :
  only_adapter s ads → action_step d a (f (start_action a)) st →
  (∀ id, report_shows k p (with_current p (f (start_action a)) st) (R id)) →
  stepped registry authority k s p (pa_capability a)
    (on_fst (do! action_id := action_mut k (pl_cursor p) f in
             do! _ := set_plan_status k st in op_ret (R action_id))
       (put_plan (set_adapters s ads) k (started p a), v)).
Proof.
  intros Hads Hstep HR.
  rewrite (on_fst_ok _ _ _ _ _ (update_current _ k (started p a) f st _ R (started_current p a Hcurrent))).
  rewrite with_current_started. apply stepped_stays; [done..|]. intros rep [= <-]. apply HR.
Qed.

Lemma stepped_unsupported s ads v message :
  only_adapter s ads → cd_resumable d = false →
  stepped registry authority k s p (pa_capability a)
    (on_fst (fail_suspension k (pl_cursor p) a message)
       (put_plan (set_adapters s ads) k (started p a), v)).
Proof.
  intros Hads Hres. unfold fail_suspension, finish_plan.
  erewrite on_fst_ok.
  2:{ unfold op_bind at 1. rewrite (action_mut_focus _ k (started p a) _ _ _ (started_current p a Hcurrent)).
      unfold op_bind. rewrite set_plan_status_focus. reflexivity. }
  fold (with_current (started p a) (set_last_error (Some message) (set_status Failed (start_action a)))
          PlanFailed).
  rewrite with_current_started. apply stepped_stays; [done|by constructor|done].
Qed.

Lemma stepped_commit s ads v output token :
  only_adapter s ads →
  stepped registry authority k s p (pa_capability a)
    (on_fst (accept_output k (pl_cursor p) d output token)
       (put_plan (set_adapters s ads) k (started p a), v)).
Proof.
  intros [Hne Hdom]. unfold accept_output.
  erewrite on_fst_ok.
  2:{ unfold op_bind at 1. rewrite (action_mut_focus _ k (started p a) _ _ _ (started_current p a Hcurrent)).
      unfold op_bind. rewrite advance_cursor_focus. reflexivity. }
  change (plan_set_actions ?l (started p a)) with (with_current (started p a)
    (commit_action d output token (start_action a)) PlanReady).
  rewrite with_current_started.
  exists (advanced (with_current p (commit_action d output token (start_action a)) PlanReady)), ads, v.
  split_and!; [done|by eapply plan_advances|done|done|].
  intros rep [= <-]. repeat split. intros Hready. right. split; [done|]. cbn in Hready |- *.
  match goal with |- ?x < ?y => destruct (Z.leb_spec y x); [done|lia] end.
Qed.

Lemma call_rollback_cases s ads token :
  only_adapter s ads → is_Some (ads !! pa_capability a) →
  ∃ ads' r, only_adapter s ads' ∧
    call_rollback a token (put_plan (set_adapters s ads) k (started p a)) =
      (put_plan (set_adapters s ads') k (started p a), r).
Proof.
  intros Hads Hin. unfold call_rollback.
  destruct (call_adapter_cases (put_plan (set_adapters s ads) k (started p a)) (pa_capability a)
    (adapter_rollback (pa_id a) (pa_action a) token)) as [[Hnone _]|(ad & ad' & r & Had & _ & Hc)].
  { simpl in Hnone. destruct Hin as [ad Had]. congruence. }
  exists (<[pa_capability a := ad']> ads). unfold op_bind. rewrite Hc.
  destruct r as [u|reason|]; eexists; (split; [by apply only_adapter_insert|]); done.
Qed.

Lemma rollback_current_cases s ads token :
  only_adapter s ads → is_Some (ads !! pa_capability a) →
  ∃ ads' p1 r, only_adapter s ads' ∧
    rollback_current_if_possible k (pl_cursor p) a d token
      (put_plan (set_adapters s ads) k (started p a)) =
      (put_plan (set_adapters s ads') k p1, r) ∧
    (p1 = started p a ∧ r ≠ Ok true ∨
     ∃ t, cd_rollback_supported d = true ∧ r = Ok true ∧
       p1 = with_current p (set_rollback_token (Some t) (start_action a)) PlanReady).
Proof.
  intros Hads Hin. unfold rollback_current_if_possible.
  destruct (cd_rollback_supported d) eqn:Hrb; [|by exists ads, (started p a), (Ok false); auto].
  destruct token as [token|]; [|by exists ads, (started p a), (Ok false); auto].
  destruct (call_rollback_cases s ads token Hads Hin) as (ads' & r & Hads' & Hc).
  exists ads'. cbn [negb]. unfold op_bind at 1. rewrite Hc. destruct r as [[]|e|].
  - unfold op_bind. rewrite (action_mut_focus _ k (started p a) _ _ _ (started_current p a Hcurrent)).
    eexists _, (Ok true). split_and!; [done|reflexivity|]. right. exists token. split_and!; [done..|].
    change (plan_set_actions ?l (started p a)) with (with_current (started p a)
      (set_rollback_token (Some token) (start_action a)) PlanReady).
    apply with_current_started.
  - exists (started p a), (Err e). split_and!; auto.
  - exists (started p a), Panic. split_and!; auto.
Qed.

Lemma stepped_reject s ads v output token reason :
  only_adapter s ads → is_Some (ads !! pa_capability a) →
  pa_verification_required a = true →
  stepped registry authority k s p (pa_capability a)
    (on_fst (reject_output k (pl_cursor p) a d output token reason)
       (put_plan (set_adapters s ads) k (started p a), v)).
Proof.
  intros Hads Hin Hver. unfold reject_output, finish_plan.
  destruct (rollback_current_cases s ads token Hads Hin)
    as (ads' & p1 & r & Hads' & Hc & Hcases).
  unfold on_fst. cbn [fst snd]. unfold op_bind at 1. rewrite Hc.
  destruct Hcases as [[-> Hr]|(t & Hrb & -> & ->)].
  - destruct r as [[]|e|]; [done|..].
    + refine (stepped_update s ads' v
        (λ a, set_status Failed (set_last_error (Some reason) (set_output (Some output) a)))
        PlanFailed (λ id, mkReport k (Some id) (Some Failed) PlanFailed (pl_cursor p) reason)
        Hads' _ _); [by apply step_reject_failed|show_report].
    + apply stepped_stays; [done|apply step_started|done].
    + apply stepped_stays; [done|apply step_started|done].
  - rewrite (update_current _ k (with_current p (set_rollback_token (Some t) (start_action a))
      PlanReady) _ _ (set_rollback_token (Some t) (start_action a))
      (λ id, mkReport k (Some id) (Some RolledBack) PlanFailed (pl_cursor p) reason)).
    2:{ simpl. apply list_lookup_insert_eq. by eapply lookup_lt_Some. }
    rewrite with_current_twice. apply stepped_stays; [done| |show_report].
    by apply step_reject_rolled_back.
Qed.

Lemma stepped_result s ads v r :
  only_adapter s ads → is_Some (ads !! pa_capability a) →
  stepped registry authority k s p (pa_capability a)
    (apply_adapter_result k (pl_cursor p) a d r (put_plan (set_adapters s ads) k (started p a), v)).
Proof.
  intros Hads Hin. destruct r as [output token|token note|reason token]; cbn [apply_adapter_result].
  - unfold op_bind, verify_output. destruct (pa_verification_required a) eqn:Hver.
    + cbn [fst snd]. destruct (verifier_verify d (pa_action a) output v) as [v' [|reason|reason]].
      * by apply stepped_commit.
      * apply stepped_update; [done|by apply step_retry_output|show_report].
      * by apply stepped_reject.
    + by apply stepped_commit.
  - destruct (cd_resumable d) eqn:Hres; cbn [negb].
    + apply stepped_update; [done|by apply step_suspended|show_report].
    + by apply stepped_unsupported.
  - destruct (is_some token && negb (cd_resumable d)) eqn:Hres.
    + apply andb_true_iff in Hres as [_ Hres%negb_true_iff]. by apply stepped_unsupported.
    + apply stepped_update; [done| |show_report]. apply step_retryable.
      intros [t ->]. by apply negb_false_iff in Hres.
Qed.

Lemma stepped_run s v :
  get_plan s k = Some p →
  stepped registry authority k s p (pa_capability a) (run_action k (pl_cursor p) a d (s, v)).
Proof.
  intros Hp. unfold run_action. rewrite <- (put_get s k p Hp) at 2.
  rewrite (op_bind_ok _ _ _ _ _ (on_fst_ok _ _ _ v _ (action_mut_focus s k p _ start_action a Hcurrent))).
  rewrite (op_bind_ok _ _ _ _ _ (on_fst_ok _ _ _ v _ (set_plan_status_focus s k _ PlanReady))).
  fold (with_current p (start_action a) PlanReady). fold (started p a).
  pose proof (only_adapter_refl s) as Hads0.
  replace (put_plan s k (started p a))
    with (put_plan (set_adapters s (fb_adapters s)) k (started p a)) by (by destruct s).
  unfold op_bind, on_fst at 1. cbn [fst snd].
  match goal with |- context [call_adapter ?c ?f ?st] =>
    destruct (call_adapter_cases st c f) as [[Hnone ->]|(ad & ad' & r & Had & _ & ->)] end.
  - apply stepped_stays; [done|apply step_started|done].
  - assert (Hads : only_adapter s (<[pa_capability a := ad']> (fb_adapters s)))
      by (apply only_adapter_insert; [done|by exists ad]).
    change (set_adapters (put_plan _ _ _) ?m) with (put_plan (set_adapters s m) k (started p a)).
    change (fb_adapters (put_plan _ _ _)) with (fb_adapters s).
    destruct r as [r|reason|].
    + apply stepped_result; [done|]. rewrite lookup_insert_eq. by eexists.
    + apply stepped_update; [done|apply step_adapter_failed|show_report].
    + apply stepped_stays; [done|apply step_started|done].
Qed.
End focus.

(** ** [execute_next]: an error that changes nothing, or one step *)
Lemma execute_next_cases {A V} `{CapabilityAdapter A, ActionVerifier V}
    (s : ActionFabric A) (v : V) k authority s' v' r :
  execute_next k authority (s, v) = ((s', v'), r) →
  (s' = s ∧ v' = v ∧ (∀ rep, r ≠ Ok rep)) ∨
  ∃ p p' ads, get_plan s k = Some p ∧ plan_terminal (pl_status p) = false ∧
    plan_step (fb_registry s) authority p p' ∧ s' = put_plan (set_adapters s ads) k p' ∧
    (∀ c, (∀ a, pl_actions p !! Z.to_nat (pl_cursor p) = Some a → c ≠ pa_capability a) →
       ads !! c = fb_adapters s !! c) ∧
    (∀ c, is_Some (ads !! c) ↔ is_Some (fb_adapters s !! c)) ∧
    ∀ rep, r = Ok rep → report_shows k p p' rep.
Proof.
  unfold execute_next, op_bind at 1, op_gets at 1. cbn [fst snd].
  destruct (get_plan s k) as [p|] eqn:Hp; cbn [ok_or]; [|by intros [= <- <- <-]; left].
  destruct (plan_terminal (pl_status p)) eqn:Hterm; [by intros [= <- <- <-]; left|].
  destruct (pl_actions p !! Z.to_nat (pl_cursor p)) as [a|] eqn:Ha.
  - unfold op_bind at 1, op_gets at 1. cbn [fst snd].
    destruct (check_current (fb_registry s) authority a) as [d|e|] eqn:Hc;
      [|by intros [= <- <- <-]; left..].
    intros Hrun. right.
    destruct (stepped_run (V:=V) (fb_registry s) authority k p a d Ha Hc s v Hp)
      as (p' & ads & v1 & Hout & Hstep & Hne & Hdom & Hrep).
    rewrite Hrun in *. simpl in Hout. injection Hout as -> ->.
    exists p, p', ads. split_and!; try done. intros c Hc'. apply Hne. by apply Hc'.
  - rewrite <- (put_get s k p Hp) at 1. unfold finish_plan.
    rewrite (op_bind_ok _ _ _ _ _ (on_fst_ok _ _ _ v _ (set_plan_status_focus s k p PlanCompleted))).
    intros [= <- <- <-]. right. exists p, (plan_set_status PlanCompleted p), (fb_adapters s).
    split_and!; try done; [by apply plan_exhausted|show_report].
Qed.
