(* ===== verification/ActionFabricSafety.v ===== *)
(** The invariant of the action fabric, and what its operations guarantee.

    [fabric_wf] is the declarative reading of [validate_fabric_state]
    (src/crates/ntd-runtime/src/action_fabric.rs), and the operations of the
    fabric preserve it on every outcome, errors included; [execute_next] calls
    no adapter but the one its current action names, under an authority that
    permits it, and never touches a committed action. *)
From S2P Require Import Prelude Text Collections Core Capability Effects ActionFabric ActionFabricStep.

(** ** The invariant *)
Record action_wf (registry : CapabilityRegistry) (a : PlannedAction) : Prop := {
  aw_id : pa_id a ≠ 0;
  aw_descriptor : ∃ d,
    validate_action registry (pa_capability a) (pa_action a) = Ok d ∧
    cd_version d = pa_capability_version a ∧ cd_side_effect d = pa_side_effect a ∧
    (cd_verification_required d = true → pa_verification_required a = true) ∧
    (is_Some (pa_resume_token a) → cd_resumable d = true) ∧
    (is_Some (pa_rollback_token a) → cd_rollback_supported d = true);
}.

(** The action under the cursor fits the status of its plan. *)
Definition current_fits (status : ActionPlanStatus) (a : PlannedAction) : Prop :=
  match status with
  | PlanReady => pa_status a ∈ [Prepared; Retryable; Running]
  | PlanSuspended => pa_status a = Suspended ∧ is_Some (pa_resume_token a)
  | PlanFailed => pa_status a ∈ [Failed; RolledBack]
  | PlanCompleted | PlanRolledBack => True
  end.

Record plan_wf (registry : CapabilityRegistry) (p : ActionPlanState) : Prop := {
  pw_id : pl_id p ≠ 0;
  pw_task : pl_task_id p ≠ 0;
  pw_cursor : pl_cursor p ≤ len (pl_actions p);
  pw_actions : ∀ i a, pl_actions p !! i = Some a →
    action_wf registry a ∧
    (Z.of_nat i < pl_cursor p → pl_status p ≠ PlanRolledBack → pa_status a = Committed) ∧
    (pl_cursor p < Z.of_nat i → pa_status a = Prepared);
  pw_completed : pl_status p = PlanCompleted →
    pl_cursor p = len (pl_actions p) ∧ Forall (λ a, pa_status a = Committed) (pl_actions p);
  pw_current : ∀ a, pl_actions p !! Z.to_nat (pl_cursor p) = Some a → current_fits (pl_status p) a;
}.

Definition plan_ids (p : ActionPlanState) : list ActionId := map pa_id (pl_actions p).
Definition action_ids (plans : gmap Z ActionPlanState) : list ActionId :=
  concat (map (λ kp, plan_ids kp.2) (btree_iter plans)).

Record fabric_wf (registry : CapabilityRegistry) (st : ActionFabricState) : Prop := {
  fw_next_plan : fs_next_plan_id st ≠ 0;
  fw_next_action : fs_next_action_id st ≠ 0;
  fw_plans : ∀ k p, fs_plans st !! k = Some p →
    k = pl_id p ∧ k < fs_next_plan_id st ∧ plan_wf registry p;
  fw_ids_distinct : NoDup (action_ids (fs_plans st));
  fw_ids_below : Forall (λ i, i < fs_next_action_id st) (action_ids (fs_plans st));
}.

(** What the Rust types already guarantee. *)
Record plan_typed (p : ActionPlanState) : Prop := {
  pt_cursor : 0 ≤ pl_cursor p;
  pt_len : len (pl_actions p) < 2 ^ 64;
  pt_ids : Forall (λ i, 0 ≤ i) (plan_ids p);
}.
Record fabric_typed (st : ActionFabricState) : Prop := {
  ft_next_plan : in_u64 (fs_next_plan_id st);
  ft_next_action : in_u64 (fs_next_action_id st);
  ft_plans : map_Forall (λ _, plan_typed) (fs_plans st);
}.

(** ** [validate_fabric_state] decides the invariant *)
Lemma cap_Ok {A} (r : result CapabilityError A) a : cap r = Ok a ↔ r = Ok a.
Proof. destruct r; naive_solver. Qed.

Lemma is_some_true {X} (o : option X) : is_some o = true ↔ is_Some o.
Proof. destruct o as [x|]; split; [by exists x|done|done|by intros [y [=]]]. Qed.

(** A chain of [if]s that reports an error. *)
Lemma if_err_Ok {E A} (c : bool) (e : E) (k : result E A) a :
  (if c then Err e else k) = Ok a ↔ c = false ∧ k = Ok a.
Proof. destruct c; naive_solver. Qed.

(** Membership in a list of constructors. *)
Ltac list_member := by repeat (first [apply list_elem_of_here | apply list_elem_of_further]).

(** A guard [if b && !c] that reports an error. *)
Lemma guard_false b c : b && negb c = false ↔ (b = true → c = true).
Proof. destruct b, c; naive_solver. Qed.

Lemma ex_Ok {E A} (a : A) (P : A → Prop) : (∃ b, Ok (E:=E) a = Ok b ∧ P b) ↔ P a.
Proof. naive_solver. Qed.

Lemma check_action_Ok registry plan index a :
  check_action registry plan index a = Ok tt ↔
  (∃ d,
    validate_action registry (pa_capability a) (pa_action a) = Ok d ∧
    cd_version d = pa_capability_version a ∧ cd_side_effect d = pa_side_effect a ∧
    (cd_verification_required d = true → pa_verification_required a = true) ∧
    (is_Some (pa_resume_token a) → cd_resumable d = true) ∧
    (is_Some (pa_rollback_token a) → cd_rollback_supported d = true)) ∧
  (index < pl_cursor plan → pl_status plan ≠ PlanRolledBack → pa_status a = Committed) ∧
  (pl_cursor plan < index → pa_status a = Prepared).
Proof.
  unfold check_action.
  destruct (validate_action registry (pa_capability a) (pa_action a)) as [d| |]; cbn [cap map_err];
    [|split; [done|naive_solver]..].
  rewrite ex_Ok, !if_err_Ok, !guard_false, <- !is_some_true.
  rewrite orb_false_iff, !negb_false_iff, Z.eqb_eq, andb_true_iff, !Z.ltb_lt,
    negb_true_iff, bool_decide_eq_false, !bool_decide_eq_true.
  tauto.
Qed.

(** The state of the two loops after the ids [used]. *)
Definition max_list (l : list Z) : Z := foldr Z.max 0 l.
Definition acc_of (used : list Z) : gset Z * Z := (list_to_set used, max_list used).

Lemma max_list_snoc l x : 0 ≤ x → max_list (l ++ [x]) = Z.max (max_list l) x.
Proof.
  intros Hx. unfold max_list. rewrite foldr_app. simpl. rewrite Z.max_l by lia.
  induction l as [|y l IH]; simpl; lia.
Qed.

Lemma max_list_lt l n : 0 < n → (max_list l < n ↔ Forall (λ i, i < n) l).
Proof.
  intros Hn. induction l as [|x l IH]; simpl; [by split|].
  rewrite Forall_cons, <- IH. unfold max_list. lia.
Qed.

Lemma acc_of_snoc used x :
  0 ≤ x → acc_of (used ++ [x]) = ({[x]} ∪ list_to_set used, Z.max (max_list used) x).
Proof.
  intros Hx. unfold acc_of. rewrite max_list_snoc by done. f_equal.
  rewrite list_to_set_app_L. set_solver.
Qed.

Lemma visit_action_Ok registry plan used index a acc :
  0 ≤ pa_id a →
  visit_action registry plan (acc_of used) (index, a) = Ok acc ↔
  pa_id a ≠ 0 ∧ pa_id a ∉ used ∧ check_action registry plan index a = Ok tt ∧
  acc = acc_of (used ++ [pa_id a]).
Proof.
  intros Hid. rewrite acc_of_snoc by done. unfold visit_action, acc_of.
  rewrite if_err_Ok, orb_false_iff, Z.eqb_neq, bool_decide_eq_false, elem_of_list_to_set.
  destruct (check_action registry plan index a) as [[]| |]; naive_solver.
Qed.

Lemma visit_actions_Ok registry plan used l acc :
  NoDup used → Forall (λ p, 0 ≤ pa_id p.2) l →
  fold_result (visit_action registry plan) (acc_of used) l = Ok acc ↔
  Forall (λ p, pa_id p.2 ≠ 0 ∧ check_action registry plan p.1 p.2 = Ok tt) l ∧
  NoDup (used ++ map (λ p, pa_id p.2) l) ∧ acc = acc_of (used ++ map (λ p, pa_id p.2) l).
Proof.
  revert used. induction l as [|[index a] l IH]; intros used Hused Hl;
    cbn [fold_result map].
  - rewrite app_nil_r, Forall_nil. naive_solver.
  - apply Forall_cons in Hl as [Ha Hl]. rewrite Forall_cons. cbn [fst snd] in *.
    rewrite (cons_middle (pa_id a) used), app_assoc.
    destruct (visit_action registry plan (acc_of used) (index, a)) as [acc1| |] eqn:Hv.
    + apply visit_action_Ok in Hv as (Hne & Hin & Hc & ->); [|done].
      cbn iota beta. rewrite IH; [naive_solver| |done]. apply NoDup_snoc. done.
    + split; [done|]. intros ([[Hne Hc] _] & Hnd & _).
      apply NoDup_app in Hnd as [Hnd _]. apply NoDup_snoc in Hnd as [Hin _].
      assert (visit_action registry plan (acc_of used) (index, a) = Ok (acc_of (used ++ [pa_id a])))
        by (by apply visit_action_Ok). congruence.
    + split; [done|]. intros ([[Hne Hc] _] & Hnd & _).
      apply NoDup_app in Hnd as [Hnd _]. apply NoDup_snoc in Hnd as [Hin _].
      assert (visit_action registry plan (acc_of used) (index, a) = Ok (acc_of (used ++ [pa_id a])))
        by (by apply visit_action_Ok). congruence.
Qed.

Lemma check_position_Ok plan :
  0 ≤ pl_cursor plan →
  check_position plan = Ok tt ↔
  (pl_status plan = PlanCompleted →
    pl_cursor plan = len (pl_actions plan) ∧ Forall (λ a, pa_status a = Committed) (pl_actions plan)) ∧
  ∀ a, pl_actions plan !! Z.to_nat (pl_cursor plan) = Some a → current_fits (pl_status plan) a.
Proof.
  intros Hcur. unfold check_position. rewrite if_err_Ok.
  assert (Hall : forallb (λ a, bool_decide (pa_status a = Committed)) (pl_actions plan) = true ↔
    Forall (λ a, pa_status a = Committed) (pl_actions plan)).
  { rewrite forallb_forall, Forall_forall. setoid_rewrite <- list_elem_of_In.
    by setoid_rewrite bool_decide_eq_true. }
  rewrite andb_false_iff, bool_decide_eq_false, orb_false_iff, !negb_false_iff, Z.eqb_eq, Hall.
  assert (Hcompleted : ∀ P : Prop, (pl_status plan ≠ PlanCompleted ∨ P) ↔
    (pl_status plan = PlanCompleted → P)) by (intros P; destruct (pl_status plan); naive_solver).
  rewrite Hcompleted. apply and_iff_compat_l.
  destruct (Z.ltb_spec (pl_cursor plan) (len (pl_actions plan))) as [Hlt|Hge].
  - destruct (lookup_lt_is_Some_2 (pl_actions plan) (Z.to_nat (pl_cursor plan))) as [a Ha];
      [unfold len in Hlt; lia|].
    rewrite Ha. cbn [or_panic].
    transitivity (current_fits (pl_status plan) a); [|naive_solver].
    unfold current_fits, is_Some.
    destruct (pl_status plan), (pa_status a), (pa_resume_token a); cbn [is_some];
      try (by split); split; intros Hok; solve [done|eauto|set_solver].
  - split; [|done]. intros _ a Ha%lookup_lt_Some. unfold len in Hge. lia.
Qed.

Lemma enumerate_ids (l : list PlannedAction) :
  map (λ p, pa_id p.2) (enumerate l) = map pa_id l.
Proof. rewrite <- (enumerate_snd l) at 2. by rewrite map_map. Qed.

Lemma visit_plan_Ok registry used key p acc :
  plan_typed p → NoDup used →
  visit_plan registry (acc_of used) (key, p) = Ok acc ↔
  key = pl_id p ∧ plan_wf registry p ∧ NoDup (used ++ plan_ids p) ∧
  acc = acc_of (used ++ plan_ids p).
Proof.
  intros [Hcur Hlen Hids] Hused. unfold visit_plan.
  rewrite if_err_Ok, !orb_false_iff, negb_false_iff, Z.eqb_eq, !Z.eqb_neq, Z.ltb_ge.
  assert (Forall (λ q, 0 ≤ pa_id q.2) (enumerate (pl_actions p))) as Hpos.
  { unfold plan_ids in Hids. change (map ?f ?l) with (f <$> l) in Hids.
    rewrite Forall_fmap, Forall_lookup in Hids. apply Forall_enumerate. intros i a Ha.
    by apply (Hids i). }
  pose proof (visit_actions_Ok registry p used (enumerate (pl_actions p)) acc Hused Hpos) as Hvis.
  rewrite enumerate_ids in Hvis. fold (plan_ids p) in Hvis.
  pose proof (check_position_Ok p Hcur) as Hpos'.
  assert ((let? acc0 := fold_result (visit_action registry p) (acc_of used)
             (enumerate (pl_actions p)) in let? _ := check_position p in Ok acc0) = Ok acc ↔
    fold_result (visit_action registry p) (acc_of used) (enumerate (pl_actions p)) = Ok acc ∧
    check_position p = Ok tt) as ->.
  { destruct (fold_result _ _ _), (check_position p) as [[]| |]; naive_solver. }
  rewrite Hvis, Hpos', Forall_enumerate. cbn [fst snd]. setoid_rewrite check_action_Ok. split.
  - intros ((((-> & Hid) & Htask) & Hc) & (Hacts & Hnd & ->) & Hcomp & Hcurr).
    split_and!; try done. constructor; try done. intros i a Ha.
    destruct (Hacts i a Ha) as (? & ? & ? & ?). split_and!; [by constructor|done..].
  - intros (-> & [Hid Htask Hc Hacts Hcomp Hcurr] & Hnd & ->). split_and!; try done.
    intros i a Ha. destruct (Hacts i a Ha) as ([? ?] & ? & ?). by split_and!.
Qed.

Lemma visit_plans_Ok registry used l acc :
  Forall (λ kp, plan_typed kp.2) l → NoDup used →
  fold_result (visit_plan registry) (acc_of used) l = Ok acc ↔
  Forall (λ kp, kp.1 = pl_id kp.2 ∧ plan_wf registry kp.2) l ∧
  NoDup (used ++ concat (map (λ kp, plan_ids kp.2) l)) ∧
  acc = acc_of (used ++ concat (map (λ kp, plan_ids kp.2) l)).
Proof.
  revert used. induction l as [|[key p] l IH]; intros used Hl Hused;
    cbn [fold_result map concat].
  - rewrite app_nil_r, Forall_nil. naive_solver.
  - apply Forall_cons in Hl as [Hp Hl]. cbn [fst snd] in *. rewrite Forall_cons, app_assoc.
    cbn [fst snd].
    pose proof (λ acc, visit_plan_Ok registry used key p acc Hp Hused) as Hv.
    destruct (visit_plan registry (acc_of used) (key, p)) as [acc1|e|].
    + destruct (proj1 (Hv acc1) eq_refl) as (Hk & Hwf & Hnd & ->). rewrite IH by done.
      naive_solver.
    + split; [done|]. intros ([[Hk Hwf] _] & [Hnd _]%NoDup_app & _).
      discriminate (proj2 (Hv _) (conj Hk (conj Hwf (conj Hnd eq_refl)))).
    + split; [done|]. intros ([[Hk Hwf] _] & [Hnd _]%NoDup_app & _).
      discriminate (proj2 (Hv _) (conj Hk (conj Hwf (conj Hnd eq_refl)))).
Qed.

Lemma validate_Ok registry st :
  fabric_typed st → (validate_fabric_state registry st = Ok tt ↔ fabric_wf registry st).
Proof.
  intros [Hnp Hna Hplans]. unfold validate_fabric_state.
  rewrite !if_err_Ok, orb_false_iff, !Z.eqb_neq.
  assert (Forall (λ kp, plan_typed kp.2) (btree_iter (fs_plans st))) as Htyped.
  { apply Forall_forall. intros [k p] Hin%elem_of_btree_iter. by apply (Hplans k). }
  pose proof (λ acc, visit_plans_Ok registry [] (btree_iter (fs_plans st)) acc Htyped
                (NoDup_nil_2 (A:=Z))) as Hv.
  change (acc_of []) with (∅ : gset Z, 0) in Hv. cbn [app] in Hv.
  fold (action_ids (fs_plans st)) in Hv.
  assert (match btree_last_key (fs_plans st) with
          | Some id => fs_next_plan_id st <=? id | None => false end = false ↔
    ∀ k p, fs_plans st !! k = Some p → k < fs_next_plan_id st) as Hlast.
  { split.
    - intros Hm k p Hk. destruct (btree_last_key_max _ _ _ Hk) as (k' & Hk' & Hle).
      rewrite Hk', Z.leb_gt in Hm. destruct Hle as [->|Hle]; [done|]. simpl in Hle. lia.
    - intros Hlt. destruct (btree_last_key (fs_plans st)) as [k|] eqn:Hk; [|done].
      apply btree_last_key_elem in Hk as [p Hp]. apply Z.leb_gt. by eapply Hlt. }
  rewrite Hlast. split.
  - intros ([Hp0 Ha0] & Hbelow & Hfold).
    destruct (fold_result _ _ _) as [[ids mx]| |] eqn:Hf; [|done..].
    destruct (proj1 (Hv _) eq_refl) as (Hall & Hnd & [= -> ->]).
    apply if_err_Ok in Hfold as [Hmax%Z.leb_gt _].
    rewrite Forall_forall in Hall.
    constructor; [done|done| |done|apply max_list_lt; unfold in_u64 in *; lia].
    intros k p Hk. destruct (Hall (k, p)) as [? ?]; [by apply elem_of_btree_iter|].
    split_and!; [done|by eapply Hbelow|done].
  - intros [Hp0 Ha0 Hp Hnd Hmax]. split_and!; [done|done|by intros k p (? & ? & ?)%Hp|].
    rewrite (proj2 (Hv (acc_of (action_ids (fs_plans st))))).
    + unfold acc_of. cbn iota beta. apply if_err_Ok. split; [|done]. apply Z.leb_gt.
      apply max_list_lt; [|done]. unfold in_u64 in *. lia.
    + split_and!; [|done|done]. apply Forall_forall. intros [k p] Hin%elem_of_btree_iter.
      destruct (Hp k p Hin) as (? & ? & ?). done.
Qed.

(** ** Steps preserve the invariant *)

(** The ids depend on the plans through their id lists only. *)
Lemma action_ids_perm plans :
  action_ids plans ≡ₚ concat (map snd (map_to_list (plan_ids <$> plans))).
Proof.
  unfold action_ids, btree_iter.
  rewrite map_to_list_fmap, merge_sort_Permutation.
  change (map snd ?l) with (snd <$> l). rewrite <- list_fmap_compose.
  done.
Qed.

Lemma action_ids_update plans k p p' :
  plans !! k = Some p → plan_ids p' = plan_ids p →
  action_ids (<[k := p']> plans) ≡ₚ action_ids plans.
Proof.
  intros Hp Hids. rewrite !action_ids_perm, fmap_insert, Hids.
  by rewrite insert_id by (by rewrite lookup_fmap, Hp).
Qed.

Lemma action_ids_insert plans k p :
  plans !! k = None → action_ids (<[k := p]> plans) ≡ₚ plan_ids p ++ action_ids plans.
Proof.
  intros Hp. rewrite !action_ids_perm, fmap_insert, map_to_list_insert; [done|].
  by rewrite lookup_fmap, Hp.
Qed.

Lemma fabric_wf_update registry st k p p' :
  fabric_wf registry st → fs_plans st !! k = Some p →
  pl_id p' = pl_id p → plan_ids p' = plan_ids p → plan_wf registry p' →
  fabric_wf registry
    (mkFabricState (fs_next_plan_id st) (fs_next_action_id st) (<[k := p']> (fs_plans st))).
Proof.
  intros [Hnp Hna Hplans Hnd Hbelow] Hp Hid Hids Hwf. constructor; simpl; try done.
  - intros k' q. rewrite lookup_insert_Some. intros [[<- <-]|[_ Hq]]; [|by apply Hplans].
    destruct (Hplans k p Hp) as (-> & ? & _). by rewrite Hid.
  - by rewrite (action_ids_update _ _ _ _ Hp Hids).
  - by rewrite (action_ids_update _ _ _ _ Hp Hids).
Qed.

Lemma fabric_typed_update st k p' :
  fabric_typed st → plan_typed p' →
  fabric_typed
    (mkFabricState (fs_next_plan_id st) (fs_next_action_id st) (<[k := p']> (fs_plans st))).
Proof. intros [? ? ?] ?. constructor; simpl; try done. by apply map_Forall_insert_2. Qed.

(** The part of an action the fabric never changes. *)
Definition same_contract (a a' : PlannedAction) : Prop :=
  pa_id a' = pa_id a ∧ pa_node_id a' = pa_node_id a ∧ pa_capability a' = pa_capability a ∧
  pa_capability_version a' = pa_capability_version a ∧ pa_side_effect a' = pa_side_effect a ∧
  pa_verification_required a' = pa_verification_required a ∧ pa_action a' = pa_action a.

Lemma check_current_Ok registry authority a d :
  check_current registry authority a = Ok d ↔
  validate_action registry (pa_capability a) (pa_action a) = Ok d ∧ permits authority d = Ok tt ∧
  (is_Some (resume_with a) → cd_resumable d = true) ∧ action_done (pa_status a) = false.
Proof.
  unfold check_current.
  destruct (validate_action registry (pa_capability a) (pa_action a)) as [d0| |]; cbn [cap map_err];
    [|split; [done|naive_solver]..].
  destruct (permits authority d0) as [[]| |] eqn:Hperm; cbn [cap map_err].
  2,3: split; [done|]; intros ([= ->] & Hp & _); congruence.
  rewrite !if_err_Ok, guard_false, is_some_true. naive_solver.
Qed.

Lemma action_step_contract d a a' st : action_step d a a' st → same_contract a a'.
Proof. by intros []. Qed.

Lemma action_step_wf registry d a a' st :
  validate_action registry (pa_capability a) (pa_action a) = Ok d →
  action_wf registry a → action_step d a a' st → action_wf registry a' ∧ current_fits st a'.
Proof.
  intros Hd [Hid (d' & Hd' & Hv & Hs & Hver & Hres & Hrb)] Hstep.
  assert (d' = d) as -> by congruence.
  destruct Hstep; (split; [constructor; [done|]; exists d; split_and!|]); simpl; try done;
    try (intros [? [=]]; done); try list_member; try (split; [done|by eexists]).
  unfold kept_token. destruct (cd_rollback_supported d); [done|by intros [? [=]]].
Qed.

Lemma commit_wf registry d a output token :
  validate_action registry (pa_capability a) (pa_action a) = Ok d →
  action_wf registry a → action_wf registry (commit_action d output token (start_action a)).
Proof.
  intros Hd [Hid (d' & Hd' & Hv & Hs & Hver & Hres & Hrb)].
  assert (d' = d) as -> by congruence.
  constructor; [done|]. exists d. split_and!; try done; simpl; [by intros []|].
  unfold kept_token. destruct (cd_rollback_supported d); [done|by intros []].
Qed.

Lemma plan_ids_with_current p a a' st :
  pl_actions p !! Z.to_nat (pl_cursor p) = Some a → same_contract a a' →
  plan_ids (with_current p a' st) = plan_ids p.
Proof.
  intros Ha [Hid _]. unfold plan_ids. simpl. change (map pa_id ?l) with (pa_id <$> l).
  rewrite list_fmap_insert, Hid. apply list_insert_id. by rewrite list_lookup_fmap, Ha.
Qed.

(** Replacing the current action, for a plan that is not terminal. *)
Lemma with_current_wf registry p a a' st :
  plan_typed p → plan_wf registry p → plan_terminal (pl_status p) = false →
  pl_actions p !! Z.to_nat (pl_cursor p) = Some a → st ≠ PlanCompleted → st ≠ PlanRolledBack →
  action_wf registry a' → current_fits st a' → plan_wf registry (with_current p a' st).
Proof.
  intros [Hc0 _ _] [Hid Htask Hcur Hacts Hcomp Hcurr] Hterm Ha Hst1 Hst2 Hwf Hfit.
  pose proof (lookup_lt_Some _ _ _ Ha) as Hlt.
  constructor; simpl; try done.
  - unfold len in *. by rewrite length_insert.
  - intros i b. rewrite list_lookup_insert_Some. intros [(<- & <- & _)|[Hne Hb]].
    + split_and!; [done|lia..].
    + destruct (Hacts i b Hb) as (? & Hbefore & Hafter). split_and!; [done| |done].
      intros Hi _. apply Hbefore; [done|]. by destruct (pl_status p).
  - intros b. rewrite list_lookup_insert_eq by done. by intros [= <-].
Qed.

Lemma advanced_cursor p :
  plan_typed p → pl_cursor p < len (pl_actions p) → pl_cursor (advanced p) = pl_cursor p + 1.
Proof. intros [? ? _] ?. simpl. unfold saturating_add_u64. lia. Qed.

(** Committing the current action and moving past it. *)
Lemma advanced_wf registry p a a' :
  plan_typed p → plan_wf registry p → plan_terminal (pl_status p) = false →
  pl_actions p !! Z.to_nat (pl_cursor p) = Some a →
  action_wf registry a' → pa_status a' = Committed →
  plan_wf registry (advanced (with_current p a' PlanReady)) ∧
  pl_cursor (advanced (with_current p a' PlanReady)) = pl_cursor p + 1.
Proof.
  intros Hty [Hid Htask Hcur Hacts Hcomp Hcurr] Hterm Ha Hwf' Hcommitted.
  pose proof (lookup_lt_Some _ _ _ Ha) as Hlt. pose proof (pt_cursor _ Hty) as Hc0.
  assert (pl_cursor p < len (pl_actions p)) as Hlt' by (unfold len; lia).
  set (q := with_current p a' PlanReady).
  assert (len (pl_actions q) = len (pl_actions p)) as Hlen
    by (unfold len; simpl; by rewrite length_insert).
  assert (saturating_add_u64 (pl_cursor q) 1 = pl_cursor p + 1) as Hadv.
  { pose proof (pt_len _ Hty). unfold saturating_add_u64. simpl. lia. }
  assert (Hq : ∀ i b, pl_actions q !! i = Some b → action_wf registry b ∧
    (Z.of_nat i < pl_cursor p + 1 → pa_status b = Committed) ∧
    (pl_cursor p < Z.of_nat i → pa_status b = Prepared)).
  { intros i b. simpl. rewrite list_lookup_insert_Some. intros [(<- & <- & _)|[Hne Hb]].
    - split_and!; [done..|lia].
    - destruct (Hacts i b Hb) as (? & Hbefore & ?). split_and!; [done| |done].
      intros Hi. apply Hbefore; [lia|by destruct (pl_status p)]. }
  split; [|exact Hadv].
  constructor; cbn [advanced plan_set_status plan_set_cursor pl_id pl_task_id pl_cursor pl_actions
    pl_status]; rewrite ?Hadv, ?Hlen; try done; [lia|..].
  - intros i b Hb. destruct (Hq i b Hb) as (Hwf & Hbefore & Hafter). split_and!; [done|auto|].
    intros Hi. apply Hafter. lia.
  - destruct (Z.leb_spec (len (pl_actions p)) (pl_cursor p + 1)) as [Hge|]; [|done].
    intros _. split; [lia|]. apply Forall_lookup. intros i b Hb. apply (Hq i b Hb).
    apply lookup_lt_Some in Hb. unfold len in *. lia.
  - intros b Hb. destruct (Z.leb_spec (len (pl_actions p)) (pl_cursor p + 1)) as [Hge|]; [done|].
    destruct (Hq _ b Hb) as (_ & _ & Hafter). simpl. rewrite Hafter by lia. list_member.
Qed.

Lemma plan_step_wf registry authority p p' :
  plan_typed p → plan_wf registry p → plan_terminal (pl_status p) = false →
  plan_step registry authority p p' →
  plan_typed p' ∧ plan_wf registry p' ∧ pl_id p' = pl_id p ∧ plan_ids p' = plan_ids p.
Proof.
  intros Hty Hwf Hterm Hstep.
  assert (Htyped : ∀ q, 0 ≤ pl_cursor q → len (pl_actions q) = len (pl_actions p) →
    plan_ids q = plan_ids p → plan_typed q).
  { intros q Hq Hlen Hids. destruct Hty. constructor; [done|by rewrite Hlen|by rewrite Hids]. }
  pose proof (pt_cursor _ Hty) as Hc0. pose proof Hwf as [Hid Htask Hcur Hacts Hcomp Hcurr].
  destruct Hstep as [Hnone|a d a' st Ha Hchk Hstep|a d output token Ha Hchk].
  - split_and!; [by apply Htyped| |done..]. apply lookup_ge_None in Hnone.
    assert (pl_cursor p = len (pl_actions p)) as Hend by (unfold len in *; lia).
    assert (∀ i b, pl_actions p !! i = Some b → pa_status b = Committed) as Hdone.
    { intros i b Hb. pose proof (lookup_lt_Some _ _ _ Hb). apply (Hacts i b Hb);
        [unfold len in Hend; lia|by destruct (pl_status p)]. }
    constructor; simpl; try done.
    + intros i b Hb. destruct (Hacts i b Hb) as (? & ? & ?). split_and!; try done.
      intros _ _. by apply (Hdone i).
    + intros _. split; [done|]. apply Forall_lookup. apply Hdone.
  - apply check_current_Ok in Hchk as (Hval & _).
    destruct (Hacts _ _ Ha) as [Hawf _].
    destruct (action_step_wf registry d a a' st Hval Hawf Hstep) as [Hawf' Hfit].
    pose proof (action_step_contract _ _ _ _ Hstep) as Hsame.
    pose proof (plan_ids_with_current p a a' st Ha Hsame) as Hids.
    split_and!; [apply Htyped; [done| |done]| |done|done].
    + simpl. unfold len. by rewrite length_insert.
    + eapply with_current_wf; try done; by destruct Hstep.
  - apply check_current_Ok in Hchk as (Hval & _).
    destruct (Hacts _ _ Ha) as [Hawf _].
    pose proof (plan_ids_with_current p a (commit_action d output token (start_action a))
      PlanReady Ha) as Hids. specialize (Hids ltac:(by split_and!)).
    destruct (advanced_wf registry p a (commit_action d output token (start_action a)))
      as [Hwf' Hadv]; [done..|by apply commit_wf|done|].
    split_and!; [apply Htyped; [rewrite Hadv; lia| |exact Hids]|exact Hwf'|done|exact Hids].
    unfold len. simpl. by rewrite length_insert.
Qed.

(** ** Preparing a plan *)

(** What [prepare_plan] requires of a node, its payload and its capability. *)
Definition payload_fits (registry : CapabilityRegistry) (node : ActionNode) (action : TypedAction)
    (d : CapabilityDescriptor) : Prop :=
  validate_action registry (an_capability node) action = Ok d ∧
  an_side_effect node = cd_side_effect d ∧
  (cd_verification_required d = true → an_verification_required node = true).

(** The action made of a node. *)
Definition planned_from (id : Z) (node : ActionNode) (action : TypedAction)
    (d : CapabilityDescriptor) : PlannedAction :=
  mkAction id (an_id node) (an_capability node) (cd_version d) (an_side_effect node)
    (an_verification_required node) action Prepared 0 None None None None.

Lemma prepare_node_Ok registry seen payloads validated node acc :
  prepare_node registry (seen, payloads, validated) node = Ok acc ↔
  ∃ action d, an_id node ∉ seen ∧ payloads !! an_id node = Some action ∧
    payload_fits registry node action d ∧
    acc = ({[an_id node]} ∪ seen, delete (an_id node) payloads,
           validated ++ [mkValidated node action (cd_version d) (an_verification_required node)]).
Proof.
  unfold prepare_node, payload_fits. rewrite if_err_Ok, bool_decide_eq_false.
  destruct (payloads !! an_id node) as [action|]; cbn [ok_or];
    [|by split; [intros [_ ?]|intros (? & ? & _ & ? & _)]].
  destruct (validate_action registry (an_capability node) action) as [d| |] eqn:Hd;
    cbn [cap map_err];
    [|by split; [intros [_ ?]|intros (? & ? & _ & [= <-] & [? _] & _); congruence]..].
  rewrite !if_err_Ok, negb_false_iff, bool_decide_eq_true, guard_false.
  assert (Hor : (cd_verification_required d = true → an_verification_required node = true) →
    an_verification_required node || cd_verification_required d = an_verification_required node).
  { destruct (an_verification_required node), (cd_verification_required d); naive_solver. }
  split.
  - intros (Hs & He & Hv & [= <-]). exists action, d. by rewrite Hor.
  - intros (a & d' & Hs & [= <-] & (Hd' & He & Hv) & ->).
    assert (d' = d) as -> by congruence. by rewrite Hor.
Qed.

Lemma prepare_nodes_Ok registry seen payloads validated nodes seen' payloads' validated' :
  fold_result (prepare_node registry) (seen, payloads, validated) nodes =
    Ok (seen', payloads', validated') →
  NoDup (map an_id nodes) ∧ (∀ i, i ∈ map an_id nodes → i ∉ seen) ∧
  (∀ i, payloads' !! i = if decide (i ∈ map an_id nodes) then None else payloads !! i) ∧
  ∃ new, validated' = validated ++ new ∧
    Forall2 (λ node v, ∃ action d, payloads !! an_id node = Some action ∧
      payload_fits registry node action d ∧
      v = mkValidated node action (cd_version d) (an_verification_required node)) nodes new.
Proof.
  revert seen payloads validated. induction nodes as [|node nodes IH]; intros seen payloads validated;
    cbn [fold_result map].
  - intros [= <- <- <-]. split_and!; [constructor|set_solver|done|]. exists []. by rewrite app_nil_r.
  - destruct (prepare_node _ _ _) as [acc| |] eqn:Hn; [|done..].
    apply prepare_node_Ok in Hn as (action & d & Hseen & Hpay & Hfits & ->).
    intros (Hnd & Hdis & Hpay' & new & -> & Hnew)%IH.
    assert (an_id node ∉ map an_id nodes) as Hnot by set_solver.
    split_and!; [by constructor|set_solver|..].
    + intros i. rewrite Hpay'. destruct (decide (i = an_id node)) as [->|Hne].
      * rewrite decide_False, (decide_True (P:=an_id node ∈ _)) by (done || left).
        by rewrite lookup_delete_eq.
      * rewrite lookup_delete_ne by done.
        destruct (decide (i ∈ map an_id nodes)); [rewrite decide_True|rewrite decide_False];
          [done|by right|done|]. by rewrite elem_of_cons; intros [].
    + eexists (_ :: new). split; [by rewrite <- app_assoc|]. constructor; [by exists action, d|].
      eapply Forall2_impl; [exact Hnew|]. intros n v (act & d' & Hp & ? & ->).
      apply lookup_delete_Some in Hp as [_ Hp]. by exists act, d'.
Qed.

Lemma plan_action_Ok first i v a :
  0 ≤ i → plan_action first (i, v) = Ok a ↔
  i < 2 ^ 64 ∧ first + i < 2 ^ 64 ∧
  a = mkAction (first + i) (an_id (vn_node v)) (an_capability (vn_node v)) (vn_version v)
        (an_side_effect (vn_node v)) (vn_verification v) (vn_action v) Prepared 0 None None None None.
Proof.
  intros Hi. unfold plan_action, try_u64, checked_add_u64.
  destruct (Z.ltb_spec i (2 ^ 64)); cbn [ok_or]; [|split; [done|lia]].
  destruct (Z.ltb_spec (first + i) (2 ^ 64)); cbn [ok_or]; [|split; [done|lia]].
  split; [by intros [= <-]|by intros (_ & _ & ->)].
Qed.

(** The plan a call of [prepare_plan] adds. *)
Definition prepared_plan (registry : CapabilityRegistry) (st : ActionFabricState) (task_id : Z)
    (graph : TaskGraph) (payloads : gmap Z TypedAction) (p : ActionPlanState) : Prop :=
  pl_id p = fs_next_plan_id st ∧ pl_task_id p = task_id ∧ pl_cursor p = 0 ∧
  pl_status p = PlanReady ∧ length (pl_actions p) = length (tg_actions graph) ∧
  ∀ i node, tg_actions graph !! i = Some node → ∃ action d,
    payloads !! an_id node = Some action ∧ payload_fits registry node action d ∧
    pl_actions p !! i = Some (planned_from (fs_next_action_id st + Z.of_nat i) node action d).

Lemma prepare_plan_Ok {A} (s s' : ActionFabric A) task_id graph payloads id :
  prepare_plan task_id graph payloads s = (s', Ok id) →
  task_id ≠ 0 ∧ tg_actions graph ≠ [] ∧ NoDup (map an_id (tg_actions graph)) ∧
  (∀ i, is_Some (payloads !! i) ↔ i ∈ map an_id (tg_actions graph)) ∧
  let st := fb_state s in
  id = fs_next_plan_id st ∧ id + 1 < 2 ^ 64 ∧
  fs_next_action_id st + len (tg_actions graph) < 2 ^ 64 ∧
  ∃ p, prepared_plan (fb_registry s) st task_id graph payloads p ∧
    s' = mkFabric (fb_registry s) (fb_adapters s)
           (mkFabricState (id + 1) (fs_next_action_id st + len (tg_actions graph))
              (<[id := p]> (fs_plans st))).
Proof.
  unfold prepare_plan. set (st := fb_state s).
  destruct ((task_id =? 0) || TaskGraph_is_empty graph) eqn:Hguard; [done|].
  apply orb_false_iff in Hguard as [Htask%Z.eqb_neq Hne].
  destruct (fold_result _ _ _) as [[[seen payloads'] validated]| |] eqn:Hfold; [|done..].
  apply prepare_nodes_Ok in Hfold as (Hnd & _ & Hpay & new & Hval & Hnew).
  cbn [app] in Hval. subst validated.
  destruct (btree_iter payloads') as [|[unexpected ?] ?] eqn:Hrest; [|done].
  unfold checked_add_u64, try_u64.
  destruct (Z.ltb_spec (fs_next_plan_id st + 1) (2 ^ 64)) as [Hp|]; [|done].
  destruct (Z.ltb_spec (len new) (2 ^ 64)) as [Hlen|]; [|done].
  cbn [ok_or].
  destruct (Z.ltb_spec (fs_next_action_id st + len new) (2 ^ 64)) as [Ha|]; [|done]. cbn [ok_or].
  destruct (map_result _ _) as [actions| |] eqn:Hmap; [|done..].
  intros [= <- <-]. apply map_result_Ok in Hmap.
  pose proof (Forall2_length _ _ _ Hnew) as Hl1. pose proof (Forall2_length _ _ _ Hmap) as Hl2.
  assert (length (enumerate new) = length new) as Hl3
    by (rewrite <- (length_map snd), enumerate_snd; done).
  assert (len new = len (tg_actions graph)) as Hl by (unfold len; lia). rewrite <- Hl.
  split_and!; try done.
  - intros Hnil. unfold TaskGraph_is_empty in Hne. by rewrite Hnil in Hne.
  - intros i. split.
    + intros [act Hi]. destruct (decide (i ∈ map an_id (tg_actions graph))) as [|Hout]; [done|].
      specialize (Hpay i). rewrite decide_False in Hpay by done.
      assert ((i, act) ∈ btree_iter payloads') as Hin by (apply elem_of_btree_iter; congruence).
      rewrite Hrest in Hin. set_solver.
    + intros (node & -> & Hin)%list_elem_of_fmap.
      apply list_elem_of_lookup in Hin as [i Hi].
      destruct (Forall2_lookup_l _ _ _ _ _ Hnew Hi) as (v & _ & act & d & Hact & _). by exists act.
  - eexists. split; [|reflexivity]. unfold prepared_plan. simpl. split_and!; try done; [lia|].
    intros i node Hi.
    destruct (Forall2_lookup_l _ _ _ _ _ Hnew Hi) as (v & Hv & act & d & Hact & Hfits & ->).
    assert (enumerate new !! i = Some (Z.of_nat i, mkValidated node act (cd_version d)
      (an_verification_required node))) as Hen by (apply enumerate_lookup; by eexists).
    destruct (Forall2_lookup_l _ _ _ _ _ Hmap Hen) as (a & Hai & Hact').
    apply plan_action_Ok in Hact' as (_ & _ & ->); [|lia]. by exists act, d.
Qed.
