(* ===== verification/ActionFabricTheorems.v ===== *)
(** The guarantees of the action fabric (src/crates/ntd-runtime/src/action_fabric.rs):
    its operations keep a state that [validate_fabric_state] accepts, effects
    happen only under an authority that permits them, and what is committed
    stays committed. *)
From S2P Require Import Prelude Text Collections Core Capability Effects ActionFabric ActionFabricStep ActionFabricSafety.

Section invariant.
Context {A V : Type} `{CapabilityAdapter A, ActionVerifier V}.
Implicit Types (s : ActionFabric A) (v : V).

Definition fabric_inv s : Prop :=
  fabric_typed (fb_state s) ∧ fabric_wf (fb_registry s) (fb_state s).

Lemma fabric_inv_validates s :
  fabric_inv s → validate_fabric_state (fb_registry s) (fb_state s) = Ok tt.
Proof. intros [Ht Hwf]. by apply validate_Ok. Qed.

Lemma fabric_inv_new registry : fabric_inv (ActionFabric_new registry).
Proof. split; by constructor; repeat constructor. Qed.

Lemma set_adapters_inv s ads : fabric_inv s → fabric_inv (set_adapters s ads).
Proof. intros [Ht Hwf]. by split. Qed.

Lemma register_adapter_inv s s' capability adapter r :
  register_adapter capability adapter s = (s', r) → fabric_inv s →
  fabric_inv s' ∧ fb_registry s' = fb_registry s ∧ fb_state s' = fb_state s.
Proof.
  unfold register_adapter. destruct (cap _) as [d| |]; [|by intros [= <- _]..].
  destruct (fb_adapters s !! capability); by intros [= <- _].
Qed.

Lemma put_plan_inv s k p p' ads :
  fabric_inv s → get_plan s k = Some p → pl_id p' = pl_id p → plan_ids p' = plan_ids p →
  plan_typed p' → plan_wf (fb_registry s) p' →
  fabric_inv (put_plan (set_adapters s ads) k p').
Proof.
  intros [Ht Hwf] Hp Hid Hids Hty Hpwf. split; simpl.
  - by apply fabric_typed_update.
  - by apply (fabric_wf_update _ _ k p).
Qed.

Lemma get_plan_inv s k p :
  fabric_inv s → get_plan s k = Some p → plan_typed p ∧ plan_wf (fb_registry s) p ∧ k = pl_id p.
Proof.
  intros [Ht Hwf] Hp. split_and!.
  - by apply (ft_plans _ Ht k).
  - by apply (fw_plans _ _ Hwf k).
  - by apply (fw_plans _ _ Hwf k).
Qed.

Lemma execute_next_inv s v k authority s' v' r :
  fabric_inv s → execute_next k authority (s, v) = ((s', v'), r) →
  fabric_inv s' ∧ fb_registry s' = fb_registry s.
Proof.
  intros Hinv [(-> & _)|(p & p' & ads & Hp & Hterm & Hstep & -> & _)]%execute_next_cases; [done|].
  destruct (get_plan_inv s k p Hinv Hp) as (Hty & Hwf & _).
  destruct (plan_step_wf _ _ _ _ Hty Hwf Hterm Hstep) as (Hty' & Hwf' & Hid & Hids).
  split; [by eapply put_plan_inv|done].
Qed.

(** The ids of a prepared plan are consecutive. *)
Lemma prepared_plan_ids registry st task_id graph payloads p i x :
  prepared_plan registry st task_id graph payloads p →
  plan_ids p !! i = Some x →
  x = fs_next_action_id st + Z.of_nat i ∧ (i < length (tg_actions graph))%nat.
Proof.
  intros (_ & _ & _ & _ & Hlen & Hacts). unfold plan_ids.
  change (map pa_id ?l) with (pa_id <$> l). rewrite list_lookup_fmap_Some.
  intros (a & -> & Ha). pose proof (lookup_lt_Some _ _ _ Ha) as Hi. split; [|lia].
  destruct (lookup_lt_is_Some_2 (tg_actions graph) i) as [node Hnode]; [lia|].
  destruct (Hacts i node Hnode) as (act & d & _ & _ & Ha'). by simplify_eq.
Qed.

Lemma prepared_plan_wf registry st task_id graph payloads p :
  prepared_plan registry st task_id graph payloads p →
  in_u64 (fs_next_action_id st) → fs_next_action_id st ≠ 0 → fs_next_plan_id st ≠ 0 →
  task_id ≠ 0 → fs_next_action_id st + len (tg_actions graph) < 2 ^ 64 →
  plan_wf registry p ∧ plan_typed p ∧ NoDup (plan_ids p) ∧
  Forall (λ i, fs_next_action_id st ≤ i < fs_next_action_id st + len (tg_actions graph))
    (plan_ids p).
Proof.
  intros Hprep Hna Hna0 Hnp0 Htask Hbound.
  pose proof (λ i x, prepared_plan_ids _ _ _ _ _ _ i x Hprep) as Hids.
  destruct Hprep as (Hid & Htid & Hcur & Hst & Hlen & Hacts). unfold in_u64, len in *.
  assert (Hall : Forall (λ i, fs_next_action_id st ≤ i <
    fs_next_action_id st + Z.of_nat (length (tg_actions graph))) (plan_ids p)).
  { apply Forall_lookup. intros i x [-> Hi]%Hids. lia. }
  assert (Hact : ∀ i a, pl_actions p !! i = Some a →
    action_wf registry a ∧ pa_status a = Prepared).
  { intros i a Ha. pose proof (lookup_lt_Some _ _ _ Ha) as Hi.
    destruct (lookup_lt_is_Some_2 (tg_actions graph) i) as [node Hnode]; [lia|].
    destruct (Hacts i node Hnode) as (act & d & _ & (Hval & Hse & Hver) & Ha'). simplify_eq.
    split; [|done]. constructor; simpl; [lia|]. exists d.
    split_and!; try done; by intros []. }
  split_and!; [| |apply NoDup_alt|done].
  - constructor; try congruence; unfold len; rewrite ?Hcur; [lia| |].
    + intros i a Ha. destruct (Hact i a Ha). split_and!; [done|lia|done].
    + intros a Ha. destruct (Hact _ a Ha) as [_ Hp]. rewrite Hst. simpl. rewrite Hp. list_member.
  - constructor; [lia|unfold len; lia|]. eapply Forall_impl; [exact Hall|]. simpl. lia.
  - intros i j x [-> _]%Hids [? _]%Hids. lia.
Qed.

Lemma prepare_plan_inv s s' task_id graph payloads r :
  prepare_plan task_id graph payloads s = (s', r) → fabric_inv s →
  fabric_inv s' ∧ fb_registry s' = fb_registry s ∧ (is_ok r = false → s' = s).
Proof.
  intros Hprep Hinv. destruct r as [id|e|].
  - apply prepare_plan_Ok in Hprep as (Htask & _ & _ & _ & -> & Hp & Ha & p & Hplan & ->).
    split; [|done]. destruct Hinv as [[Hnp Hna Hpt] [Hnp0 Hna0 Hplans Hnd Hbelow]].
    destruct (prepared_plan_wf _ _ _ _ _ _ Hplan) as (Hwf & Hty & Hnd' & Hids); try done.
    assert (fs_plans (fb_state s) !! fs_next_plan_id (fb_state s) = None) as Hfresh.
    { destruct (_ !! _) as [q|] eqn:Hq; [|done]. destruct (Hplans _ _ Hq) as (_ & ? & _). lia. }
    rewrite Forall_forall in Hbelow, Hids. unfold in_u64 in *. len_facts. split; constructor; simpl; try lia.
    + unfold in_u64. lia.
    + unfold in_u64. lia.
    + by apply map_Forall_insert_2.
    + intros k q. rewrite lookup_insert_Some. intros [[<- <-]|[_ Hq]].
      * destruct Hplan as (-> & _). split_and!; [done|lia|done].
      * destruct (Hplans k q Hq) as (? & ? & ?). split_and!; [done|lia|done].
    + rewrite action_ids_insert by done. apply NoDup_app. split_and!; [done| |done].
      intros x Hx Hx'. specialize (Hids x Hx). specialize (Hbelow x Hx'). simpl in *. lia.
    + rewrite action_ids_insert by done. apply Forall_forall.
      intros x [Hx|Hx]%elem_of_app; [specialize (Hids x Hx)|specialize (Hbelow x Hx)]; simpl in *; lia.
  - unfold prepare_plan in Hprep. destruct (if _ : bool then _ else _) as [[]| |]; simplify_eq; done.
  - unfold prepare_plan in Hprep. destruct (if _ : bool then _ else _) as [[]| |]; simplify_eq; done.
Qed.

(** ** Rolling back *)
Definition rolled (a : PlannedAction) : PlannedAction :=
  if rollback_skips a then a else set_status RolledBack a.
(** The plan with the actions from [j] on rolled back. *)
Definition rolled_from (j : nat) (p : ActionPlanState) : ActionPlanState :=
  plan_set_actions (take j (pl_actions p) ++ map rolled (drop j (pl_actions p))) p.

Lemma rolled_from_all p : rolled_from (length (pl_actions p)) p = p.
Proof.
  unfold rolled_from. rewrite firstn_all, drop_all, app_nil_r. by destruct p.
Qed.

Lemma rolled_from_step p j a :
  pl_actions p !! j = Some a →
  rolled_from j p =
    plan_set_actions (<[j := rolled a]> (pl_actions (rolled_from (S j) p))) p ∧
  pl_actions (rolled_from (S j) p) !! j = Some a.
Proof.
  intros Ha. unfold rolled_from, plan_set_actions. simpl.
  assert (length (take j (pl_actions p)) = j) as Hj.
  { rewrite length_take. apply lookup_lt_Some in Ha. lia. }
  rewrite (drop_S _ a j Ha), (take_S_r _ _ _ Ha), <- app_assoc. simpl. split.
  - do 2 f_equal. rewrite <- Hj at 2. by rewrite insert_app_r_alt, Hj, Nat.sub_diag by lia.
  - rewrite lookup_app_r by lia. by rewrite Hj, Nat.sub_diag.
Qed.

(** What the loop requires of the actions it does not skip. *)
Definition can_roll_back registry (a : PlannedAction) : Prop :=
  rollback_skips a = true ∨
  is_Some (pa_rollback_token a) ∧
  ∃ d, get_descriptor registry (pa_capability a) = Ok d ∧ cd_rollback_supported d = true.

Lemma rollback_action_cases s ads k p j a s' r :
  pl_actions p !! j = Some a →
  rollback_action k (Z.of_nat j, a)
    (put_plan (set_adapters s ads) k (rolled_from (S j) p)) = (s', r) →
  ∃ ads' i, s' = put_plan (set_adapters s ads') k (rolled_from i p) ∧ (i = j ∨ i = S j) ∧
    (r = Ok tt → i = j ∧ can_roll_back (fb_registry s) a).
Proof.
  intros Ha. destruct (rolled_from_step p j a Ha) as [Hstep Hlook].
  unfold rollback_action, rolled in *. destruct (rollback_skips a) eqn:Hskip.
  { intros [= <- <-]. exists ads, j. split_and!; [|by left|by split; [|left]].
    by rewrite Hstep, list_insert_id by done. }
  unfold op_bind at 1, op_gets. simpl fb_registry.
  destruct (get_descriptor (fb_registry s) (pa_capability a)) as [d|e|] eqn:Hd; cbn [cap map_err].
  2,3: intros [= <- <-]; exists ads, (S j); split_and!; auto; done.
  destruct (cd_rollback_supported d) eqn:Hrb; cbn [negb].
  2: intros [= <- <-]; exists ads, (S j); split_and!; auto; done.
  unfold op_bind at 1, op_lift. destruct (pa_rollback_token a) as [token|] eqn:Htok; cbn [ok_or].
  2: intros [= <- <-]; exists ads, (S j); split_and!; auto; done.
  unfold op_bind at 1. unfold call_rollback, op_bind at 1.
  match goal with |- context [call_adapter ?c ?f ?st] =>
    destruct (call_adapter_cases st c f) as [[Hnone ->]|(ad & ad' & r' & Had & _ & ->)] end.
  { intros [= <- <-]; exists ads, (S j); split_and!; auto; done. }
  change (set_adapters (put_plan _ _ _) ?m)
    with (put_plan (set_adapters s m) k (rolled_from (S j) p)).
  set (ads' := <[pa_capability a := ad']> _). destruct r' as [[]|reason|]; cbn beta iota.
  2,3: intros [= <- <-]; exists ads', (S j); split_and!; auto; done.
  unfold op_ret at 1, op_bind.
  rewrite (action_mut_focus _ k _ (Z.of_nat j) _ a) by (by rewrite Nat2Z.id). rewrite Nat2Z.id.
  intros [= <- <-]. exists ads', j. split_and!; [by rewrite Hstep|by left|].
  intros _. split; [done|]. right. split; [by exists token|by exists d].
Qed.

Lemma rollback_loop_cases s k p j ads s' r :
  (j ≤ length (pl_actions p))%nat →
  op_each (rollback_action k) (reverse (enumerate (take j (pl_actions p))))
    (put_plan (set_adapters s ads) k (rolled_from j p)) = (s', r) →
  ∃ ads' i, s' = put_plan (set_adapters s ads') k (rolled_from i p) ∧ (i ≤ j)%nat ∧
    (r = Ok tt → i = 0%nat ∧ Forall (can_roll_back (fb_registry s)) (take j (pl_actions p))).
Proof.
  revert ads. induction j as [|j IH]; intros ads Hj.
  { intros [= <- <-]. exists ads, 0%nat. split_and!; [done|lia|]. intros _. by split; [|constructor]. }
  destruct (lookup_lt_is_Some_2 (pl_actions p) j) as [a Ha]; [lia|].
  rewrite (take_S_r _ _ _ Ha), enumerate_snoc, reverse_app. cbn [reverse rev_append app op_each].
  assert (len (take j (pl_actions p)) = Z.of_nat j) as ->
    by (unfold len; rewrite length_take; lia).
  intros [(s1 & [] & Hone & Hrest)|[(e & Hone & ->)|[Hone ->]]]%op_bind_inv;
    apply rollback_action_cases in Hone as (ads1 & i1 & -> & Hi & Hok); try done.
  - destruct (Hok eq_refl) as [-> Hcan]. apply IH in Hrest as (ads2 & i & -> & Hi2 & Hok2); [|lia].
    exists ads2, i. split_and!; [done|lia|]. intros Hr. destruct (Hok2 Hr) as [-> Hall].
    split; [done|]. apply Forall_app. by rewrite Forall_singleton.
  - exists ads1, i1. split_and!; [done|lia|done].
  - exists ads1, i1. split_and!; [done|lia|done].
Qed.

(** Every outcome of [rollback_plan]: a suffix of the actions is rolled back,
    and all of them where it returns. *)
Lemma rollback_plan_cases s k s' r :
  rollback_plan k s = (s', r) →
  (get_plan s k = None ∧ s' = s ∧ r = Err (MissingPlan k)) ∨
  ∃ p ads i, get_plan s k = Some p ∧
    match r with
    | Ok rep =>
        s' = put_plan (set_adapters s ads) k (plan_set_status PlanRolledBack (rolled_from 0 p)) ∧
        Forall (can_roll_back (fb_registry s)) (pl_actions p) ∧
        rep = mkReport k None None PlanRolledBack (pl_cursor p)
                "all known side effects rolled back"
    | _ => s' = put_plan (set_adapters s ads) k (rolled_from i p)
    end.
Proof.
  unfold rollback_plan, op_bind at 1, op_gets at 1.
  destruct (get_plan s k) as [p|] eqn:Hp; cbn [ok_or]; [|intros [= <- <-]; by left].
  intros Hrun. right. exists p.
  assert (put_plan (set_adapters s (fb_adapters s)) k p = s) as Hs
    by (transitivity (put_plan s k p); [by destruct s|by apply put_get]).
  pose proof (rollback_loop_cases s k p (length (pl_actions p)) (fb_adapters s)) as Hcases.
  rewrite firstn_all, rolled_from_all, Hs in Hcases.
  apply op_bind_inv in Hrun as [(s1 & [] & Hloop & Hrest)|[(e & Hloop & ->)|[Hloop ->]]];
    apply Hcases in Hloop as (ads & i & -> & _ & Hok); try done.
  - destruct (Hok eq_refl) as [-> Hall].
    unfold finish_plan, op_bind, op_gets in Hrest. rewrite set_plan_status_focus, get_put in Hrest.
    injection Hrest as <- <-. exists ads, 0%nat. by split_and!.
  - by exists ads, i.
  - by exists ads, i.
Qed.

Lemma rolled_wf registry a : action_wf registry a → action_wf registry (rolled a).
Proof.
  unfold rolled. destruct (rollback_skips a); [done|]. intros [Hid Hd]. by constructor.
Qed.

Lemma rolled_from_lookup p j i a :
  pl_actions p !! i = Some a →
  pl_actions (rolled_from j p) !! i = Some (if decide (j ≤ i)%nat then rolled a else a).
Proof.
  intros Ha. pose proof (lookup_lt_Some _ _ _ Ha) as Hi. simpl.
  change (map rolled ?l) with (rolled <$> l). destruct (decide (j ≤ i)%nat) as [Hle|Hgt].
  - rewrite lookup_app_r by (rewrite length_take; lia). rewrite list_lookup_fmap, lookup_drop.
    rewrite length_take, Nat.min_l by lia. replace (j + (i - j))%nat with i by lia. by rewrite Ha.
  - rewrite lookup_app_l by (rewrite length_take; lia). rewrite lookup_take_lt by lia. done.
Qed.

Lemma rolled_from_0_lookup p i a' :
  pl_actions (rolled_from 0 p) !! i = Some a' ↔
  ∃ a, pl_actions p !! i = Some a ∧ a' = rolled a.
Proof.
  simpl. rewrite drop_0. change (map rolled ?l) with (rolled <$> l).
  rewrite list_lookup_fmap_Some. naive_solver.
Qed.

Lemma rollback_plan_wf registry p :
  plan_typed p → plan_wf registry p →
  let q := plan_set_status PlanRolledBack (rolled_from 0 p) in
  plan_typed q ∧ plan_wf registry q ∧ plan_ids q = plan_ids p.
Proof.
  intros [Hc Hl Hid] [Hpid Htask Hcur Hacts Hcomp Hcurr] q.
  assert (Hlen : len (pl_actions q) = len (pl_actions p)).
  { unfold len. simpl. by rewrite drop_0, length_map. }
  assert (Hids : plan_ids q = plan_ids p).
  { unfold plan_ids. simpl. rewrite drop_0, map_map. apply map_ext. intros a.
    unfold rolled. by destruct (rollback_skips a). }
  split_and!; [constructor; [done|by rewrite Hlen|by rewrite Hids]| |done].
  constructor; try done; [by rewrite Hlen|]. intros i b Hb.
  apply rolled_from_0_lookup in Hb as (a & Ha & ->). destruct (Hacts i a Ha) as (Hwf & _ & Hafter).
  split_and!; [by apply rolled_wf|done|]. intros Hi. unfold rolled, rollback_skips.
  rewrite (Hafter Hi). rewrite bool_decide_eq_true_2 with (P := Prepared = Prepared) by done.
  rewrite orb_true_r. by apply Hafter.
Qed.
End invariant.
