(* ===== verification/ActionFabricProperties.v ===== *)
(** The properties of the action fabric (src/crates/ntd-runtime/src/action_fabric.rs),
    and a small fabric on which they are evaluated. *)
From S2P Require Import Prelude Text Collections Core Capability Effects ActionFabric ActionFabricStep ActionFabricSafety ActionFabricTheorems.

(** ** Reachable fabrics

    The states a fabric goes through when its methods are called, with any
    arguments and any adapters and verifier; a [rollback_plan] that fails
    half way is left out (see [partial_rollback_not_restorable]). *)
Inductive fabric_reachable {A V} `{CapabilityAdapter A, ActionVerifier V}
    (registry : CapabilityRegistry) : ActionFabric A → Prop :=
| reach_new : fabric_reachable registry (ActionFabric_new registry)
| reach_register s capability adapter s' r :
    fabric_reachable registry s → register_adapter capability adapter s = (s', r) →
    fabric_reachable registry s'
| reach_prepare s task_id graph payloads s' r :
    fabric_reachable registry s → prepare_plan task_id graph payloads s = (s', r) →
    fabric_reachable registry s'
| reach_execute s (v v' : V) k authority s' r :
    fabric_reachable registry s → execute_next k authority (s, v) = ((s', v'), r) →
    fabric_reachable registry s'
| reach_rollback s k s' rep :
    fabric_reachable registry s → rollback_plan k s = (s', Ok rep) →
    fabric_reachable registry s'.

Section properties.
Context {A V : Type} `{CapabilityAdapter A, ActionVerifier V}.
Implicit Types (s : ActionFabric A) (v : V).

Lemma rollback_plan_inv s k s' rep :
  fabric_inv s → rollback_plan k s = (s', Ok rep) → fabric_inv s' ∧ fb_registry s' = fb_registry s.
Proof.
  intros Hinv [(_ & _ & ?)|(p & ads & i & Hp & -> & _ & _)]%rollback_plan_cases; [done|].
  destruct (get_plan_inv s k p Hinv Hp) as (Hty & Hwf & _).
  destruct (rollback_plan_wf _ p Hty Hwf) as (Hty' & Hwf' & Hids).
  split; [|done]. by eapply put_plan_inv.
Qed.

Lemma reachable_inv registry s :
  fabric_reachable (V:=V) registry s → fabric_inv s ∧ fb_registry s = registry.
Proof.
  induction 1 as [|s capability adapter s' r _ [IH <-] Hop|s task_id graph payloads s' r _ [IH <-] Hop
    |s v v' k authority s' r _ [IH <-] Hop|s k s' rep _ [IH <-] Hop].
  - split; [apply fabric_inv_new|done].
  - apply register_adapter_inv in Hop as (? & ? & _); done.
  - apply prepare_plan_inv in Hop as (? & ? & _); done.
  - by apply execute_next_inv in Hop.
  - by apply rollback_plan_inv in Hop.
Qed.

(** validate_fabric_state accepts a state exactly when it satisfies the declarative
    invariant: keys and ids agree, ids are distinct and below the counters, every action
    fits its registered capability, and statuses fit the cursor. *)
Theorem validate_fabric_state_spec registry st :
  fabric_typed st → (validate_fabric_state registry st = Ok tt ↔ fabric_wf registry st).
Proof. apply validate_Ok. Qed.

(** C6: Every state a fabric reaches by registering adapters, preparing plans, executing
    actions and completed rollbacks is accepted by validate_fabric_state, so
    ActionFabric::from_state restores it. *)
Theorem fabric_reachable_restorable registry s :
  fabric_reachable (V:=V) registry s →
  validate_fabric_state registry (fb_state s) = Ok tt ∧
  ActionFabric_from_state registry (fb_state s) = Ok (mkFabric (A:=A) registry ∅ (fb_state s)).
Proof.
  intros [Hinv <-]%reachable_inv. pose proof (fabric_inv_validates s Hinv) as Hv.
  split; [done|]. unfold ActionFabric_from_state. by rewrite Hv.
Qed.

(** C5: Every call of execute_next either reports an error and leaves fabric and verifier
    as they were, or makes one step of the abstract plan machine plan_step, and a report
    it returns shows the status and cursor the plan now has. *)
Theorem execute_next_refines s v k authority s' v' r :
  execute_next k authority (s, v) = ((s', v'), r) →
  (s' = s ∧ v' = v ∧ is_ok r = false) ∨
  ∃ p p', get_plan s k = Some p ∧ get_plan s' k = Some p' ∧
    plan_terminal (pl_status p) = false ∧ plan_step (fb_registry s) authority p p' ∧
    ∀ rep, r = Ok rep →
      sr_plan_id rep = k ∧ sr_plan_status rep = pl_status p' ∧ sr_cursor rep = pl_cursor p'.
Proof.
  intros [(-> & -> & Hr)|(p & p' & ads & Hp & Hterm & Hstep & -> & _ & _ & Hrep)]%execute_next_cases.
  - left. split_and!; [done..|]. destruct r as [rep| |]; [by destruct (Hr rep)|done..].
  - right. exists p, p'. split_and!; try done; [apply get_put|]. intros rep Hr. by destruct (Hrep rep Hr) as (? & ? & ? & _).
Qed.

(** On every outcome, errors included, execute_next keeps the fabric invariant, so
    that validate_fabric_state accepts the state it leaves. *)
Theorem execute_next_preserves_inv s v k authority s' v' r :
  fabric_inv s → execute_next k authority (s, v) = ((s', v'), r) →
  fabric_inv s' ∧ fb_registry s' = fb_registry s ∧
  validate_fabric_state (fb_registry s') (fb_state s') = Ok tt.
Proof.
  intros Hinv Hrun. destruct (execute_next_inv _ _ _ _ _ _ _ Hinv Hrun) as [Hinv' Hreg].
  split_and!; [done..|by apply fabric_inv_validates].
Qed.

(** C4: If a call of execute_next changes any adapter, the plan was not terminal, its
    current action is valid for a registered capability the given authority permits, and no
    adapter but that capability's was touched. *)
Theorem execute_next_authorized s v k authority s' v' r :
  execute_next k authority (s, v) = ((s', v'), r) →
  fb_adapters s' ≠ fb_adapters s →
  ∃ p a d, get_plan s k = Some p ∧ plan_terminal (pl_status p) = false ∧
    pl_actions p !! Z.to_nat (pl_cursor p) = Some a ∧ action_done (pa_status a) = false ∧
    validate_action (fb_registry s) (pa_capability a) (pa_action a) = Ok d ∧
    permits authority d = Ok tt ∧
    ∀ c, c ≠ pa_capability a → fb_adapters s' !! c = fb_adapters s !! c.
Proof.
  intros [(-> & _)|(p & p' & ads & Hp & Hterm & Hstep & -> & Hads & _)]%execute_next_cases Hne;
    [done|].
  destruct (pl_actions p !! Z.to_nat (pl_cursor p)) as [a|] eqn:Ha.
  - assert (∃ d, check_current (fb_registry s) authority a = Ok d) as [d Hd].
    { destruct Hstep; simplify_eq; eauto. }
    apply check_current_Ok in Hd as (Hval & Hperm & _ & Hdone).
    exists p, a, d. split_and!; try done. intros c Hc. apply Hads. by intros ? [= <-].
  - destruct Hne. simpl. apply map_eq. intros c. by apply Hads.
Qed.

Lemma plan_step_stable registry authority p p' :
  plan_typed p → plan_step registry authority p p' →
  pl_cursor p ≤ pl_cursor p' ∧
  ∀ i a, pl_actions p !! i = Some a → ∃ a', pl_actions p' !! i = Some a' ∧
    same_contract a a' ∧ (pa_status a = Committed → a' = a).
Proof.
  intros [Hc Hl _] Hstep.
  assert (Hsame : ∀ a, same_contract a a) by (intros a; by split_and!).
  assert (Hins : ∀ a a' i b, pl_actions p !! Z.to_nat (pl_cursor p) = Some a →
    action_done (pa_status a) = false → same_contract a a' → pl_actions p !! i = Some b →
    ∃ b', <[Z.to_nat (pl_cursor p) := a']> (pl_actions p) !! i = Some b' ∧ same_contract b b' ∧
      (pa_status b = Committed → b' = b)).
  { intros a a' i b Ha Hdone Hs Hb. destruct (decide (i = Z.to_nat (pl_cursor p))) as [->|Hne].
    - simplify_eq. exists a'. rewrite list_lookup_insert_eq by (by eapply lookup_lt_Some).
      split_and!; [done..|]. intros Hcom. by rewrite Hcom in Hdone.
    - exists b. rewrite list_lookup_insert_ne by done. by split_and!. }
  destruct Hstep as [Hnone|a d a' st Ha Hchk Hstep|a d output token Ha Hchk].
  - split; [done|]. intros i a Ha. by exists a.
  - split; [done|]. intros i b. apply (Hins a); [done| |by eapply action_step_contract].
    by apply check_current_Ok in Hchk as (_ & _ & _ & ?).
  - split.
    + apply lookup_lt_Some in Ha. simpl. unfold saturating_add_u64, len in *. lia.
    + intros i b. apply (Hins a); [done| |by split_and!].
      by apply check_current_Ok in Hchk as (_ & _ & _ & ?).
Qed.

(** execute_next leaves every other plan as it was, never moves a cursor back, never
    changes the contract of an action (id, capability, version, side effect, payload) and
    never alters a committed action. *)
Theorem execute_next_stable s v k authority s' v' r k0 p0 :
  fabric_inv s → execute_next k authority (s, v) = ((s', v'), r) → get_plan s k0 = Some p0 →
  ∃ p1, get_plan s' k0 = Some p1 ∧ (k0 ≠ k → p1 = p0) ∧ pl_cursor p0 ≤ pl_cursor p1 ∧
    ∀ i a, pl_actions p0 !! i = Some a → ∃ a', pl_actions p1 !! i = Some a' ∧
      same_contract a a' ∧ (pa_status a = Committed → a' = a).
Proof.
  intros Hinv Hrun Hk0.
  assert (Hrefl : ∀ i a, pl_actions p0 !! i = Some a → ∃ a', pl_actions p0 !! i = Some a' ∧
    same_contract a a' ∧ (pa_status a = Committed → a' = a)) by (intros i a ?; by exists a).
  apply execute_next_cases in Hrun as [(-> & _)|(p & p' & ads & Hp & _ & Hstep & -> & _)].
  { exists p0. by split_and!. }
  destruct (decide (k0 = k)) as [->|Hne].
  - simplify_eq. destruct (get_plan_inv s k p Hinv Hp) as (Hty & _).
    exists p'. destruct (plan_step_stable _ _ _ _ Hty Hstep). split_and!; try done. apply get_put.
  - exists p0. rewrite get_put_ne by done. by split_and!.
Qed.

(** prepare_plan changes nothing when it fails; when it returns a plan id, the id is
    fresh, payloads and node ids match one to one, and the new plan holds one prepared
    action per node, in order, with consecutive ids, the registered version and the node's
    side effect and verification flag. *)
Theorem prepare_plan_spec s task_id graph payloads s' r :
  fabric_inv s → prepare_plan task_id graph payloads s = (s', r) →
  fabric_inv s' ∧
  match r with
  | Ok id =>
      get_plan s id = None ∧ (∀ k, k ≠ id → get_plan s' k = get_plan s k) ∧
      NoDup (map an_id (tg_actions graph)) ∧
      (∀ i, is_Some (payloads !! i) ↔ i ∈ map an_id (tg_actions graph)) ∧
      ∃ p, get_plan s' id = Some p ∧
        prepared_plan (fb_registry s) (fb_state s) task_id graph payloads p
  | _ => s' = s
  end.
Proof.
  intros Hinv Hprep. destruct (prepare_plan_inv _ _ _ _ _ _ Hprep Hinv) as (Hinv' & _ & Herr).
  split; [done|]. destruct r as [id|e|]; [|by apply Herr..].
  apply prepare_plan_Ok in Hprep as (_ & _ & Hnd & Hpay & -> & _ & _ & p & Hplan & ->).
  split_and!; [| |done|done|].
  - destruct (get_plan s _) as [q|] eqn:Hq; [|done]. destruct Hinv as [_ Hwf].
    destruct (fw_plans _ _ Hwf _ _ Hq) as (_ & ? & _). lia.
  - intros k Hk. by apply lookup_insert_ne.
  - exists p. split; [by apply lookup_insert_eq|done].
Qed.

(** C7: From a valid state, rollback_plan touches no other plan; when it returns, every
    action that is not read-only, prepared or rolled back had a rollback token and is now
    rolled back, and the state is still valid; when it fails, a suffix of the actions is
    rolled back and the plan status is unchanged. *)
Theorem rollback_plan_spec s k s' r :
  fabric_inv s → rollback_plan k s = (s', r) →
  (∀ k0, k0 ≠ k → get_plan s' k0 = get_plan s k0) ∧
  match r with
  | Ok _ =>
      fabric_inv s' ∧
      ∃ p p', get_plan s k = Some p ∧ get_plan s' k = Some p' ∧
        pl_status p' = PlanRolledBack ∧ pl_cursor p' = pl_cursor p ∧
        length (pl_actions p') = length (pl_actions p) ∧
        ∀ i a, pl_actions p !! i = Some a →
          pl_actions p' !! i = Some (rolled a) ∧ can_roll_back (fb_registry s) a
  | _ =>
      s' = s ∨
      ∃ p p' j, get_plan s k = Some p ∧ get_plan s' k = Some p' ∧ pl_status p' = pl_status p ∧
        ∀ i a, pl_actions p !! i = Some a →
          pl_actions p' !! i = Some (if decide (j ≤ i)%nat then rolled a else a)
  end.
Proof.
  intros Hinv Hrun. pose proof (rollback_plan_cases _ _ _ _ Hrun) as Hcases.
  assert (Hpartial : ∀ p i ads, get_plan s k = Some p →
    s' = put_plan (set_adapters s ads) k (rolled_from i p) →
    (∀ k0, k0 ≠ k → get_plan s' k0 = get_plan s k0) ∧
    (s' = s ∨ ∃ p p' j, get_plan s k = Some p ∧ get_plan s' k = Some p' ∧
       pl_status p' = pl_status p ∧ ∀ i a, pl_actions p !! i = Some a →
       pl_actions p' !! i = Some (if decide (j ≤ i)%nat then rolled a else a))).
  { intros p i ads Hp ->. split; [intros k0 Hk0; by rewrite get_put_ne|]. right.
    exists p, (rolled_from i p), i. split_and!; [done|apply get_put|done|].
    intros l a Ha. by apply rolled_from_lookup. }
  destruct Hcases as [(_ & -> & ->)|(p & ads & i & Hp & Hr)]; [by split; [|left]|].
  destruct r as [rep|e|]; [|by apply (Hpartial p i ads)..].
  destruct Hr as (-> & Hcan & _). split; [intros k0 Hk0; by rewrite get_put_ne|].
  split; [by eapply rollback_plan_inv|].
  exists p, (plan_set_status PlanRolledBack (rolled_from 0 p)).
  split_and!; [done|apply get_put|done|done|by simpl; rewrite drop_0, length_map|].
  intros l a Ha. split; [apply rolled_from_0_lookup; by exists a|].
  rewrite Forall_lookup in Hcan. by apply (Hcan l).
Qed.

(** When the current action is suspended and its adapter is missing, execute_next
    fails but leaves the action running with its resume token in place, so the next call
    will execute it from the start instead of resuming it. *)
Theorem missing_adapter_drops_resume s v k authority p a d :
  get_plan s k = Some p → plan_terminal (pl_status p) = false →
  pl_actions p !! Z.to_nat (pl_cursor p) = Some a → pa_status a = Suspended →
  check_current (fb_registry s) authority a = Ok d →
  fb_adapters s !! pa_capability a = None →
  ∃ s' p' a', execute_next k authority (s, v) = ((s', v), Err (MissingAdapter (pa_capability a))) ∧
    get_plan s' k = Some p' ∧ pl_actions p' !! Z.to_nat (pl_cursor p') = Some a' ∧
    pa_status a' = Running ∧ pa_resume_token a' = pa_resume_token a ∧ resume_with a' = None.
Proof.
  intros Hp Hterm Ha Hsus Hchk Hnone.
  exists (put_plan s k (started p a)), (started p a), (start_action a).
  split_and!; [|apply get_put|by apply started_current|done..].
  unfold execute_next, op_bind at 1, op_gets at 1. cbn [fst snd]. rewrite Hp. cbn [ok_or].
  rewrite Hterm, Ha. unfold op_bind at 1, op_gets at 1. cbn [fst snd]. rewrite Hchk.
  unfold run_action. rewrite <- (put_get s k p Hp) at 1.
  rewrite (op_bind_ok _ _ _ _ _ (on_fst_ok _ _ _ v _ (action_mut_focus s k p _ start_action a Ha))).
  rewrite (op_bind_ok _ _ _ _ _ (on_fst_ok _ _ _ v _ (set_plan_status_focus s k _ PlanReady))).
  unfold op_bind, on_fst at 1, call_adapter. cbn [fst snd].
  change (fb_adapters (put_plan _ _ _)) with (fb_adapters s). by rewrite Hnone.
Qed.
End properties.

(** ** A concrete fabric

    One capability, an adapter that plays back a script and a verifier that
    plays back its verdicts. *)
Record Script := mkScript {
  sc_results : list (result string AdapterResult);
  sc_rollbacks : list (result string unit);
  sc_resumed : list bytes;
}.
Definition play (self : Script) (resumed : list bytes) : Script * result string AdapterResult :=
  match sc_results self with
  | r :: rest => (mkScript rest (sc_rollbacks self) (sc_resumed self ++ resumed), r)
  | [] => (self, Err "end of script"%string)
  end.
#[export] Instance script_adapter : CapabilityAdapter Script := {|
  adapter_execute _ _ self := play self [];
  adapter_resume _ _ token self := play self [token];
  adapter_rollback _ _ _ self :=
    match sc_rollbacks self with
    | r :: rest => (mkScript (sc_results self) rest (sc_resumed self), r)
    | [] => (self, Ok tt)
    end;
|}.
#[export] Instance script_verifier : ActionVerifier (list ActionVerification) := {|
  verifier_verify _ _ _ self :=
    match self with v :: rest => (rest, v) | [] => ([], VAccept) end;
|}.

Definition write_capability : CapabilityDescriptor :=
  mkDescriptor "file.write" 3 File Reversible true true true ["disk"%string].
Definition sample_registry : CapabilityRegistry := {["file.write" := write_capability]}.
Definition sample_grant : AuthorityGrant := with_scope AuthorityGrant_new "disk".
Definition sample_token : bytes := [Byte.x07; Byte.x08].
Definition sample_output : ActionOutput := ActionOutput_text "written" "ok".
Definition sample_script : Script :=
  mkScript [Ok (ACompleted sample_output (Some sample_token)); Ok (ASuspended sample_token "later");
            Ok (ACompleted sample_output (Some sample_token))]
    [Ok tt; Err "busy"%string] [].
Definition write_node (id : Z) : ActionNode := mkActionNode id "file.write" Reversible true.
Definition sample_graph : TaskGraph := mkTaskGraph [write_node 5; write_node 9].
Definition sample_payloads : gmap Z TypedAction :=
  <[5 := FileWrite "a" [Byte.x41]]> (<[9 := FileWrite "b" []]> ∅).

Definition fabric0 : ActionFabric Script := ActionFabric_new sample_registry.
Definition fabric1 : ActionFabric Script :=
  (register_adapter "file.write" sample_script fabric0).1.
Definition fabric2 : ActionFabric Script := (prepare_plan 77 sample_graph sample_payloads fabric1).1.
Definition next (s : ActionFabric Script)
  : ActionFabric Script * list ActionVerification * result ActionFabricError ActionStepReport :=
  execute_next 1 sample_grant (s, []).
Definition fabric3 : ActionFabric Script := (next fabric2).1.1.
Definition fabric4 : ActionFabric Script := (next fabric3).1.1.
Definition fabric5 : ActionFabric Script := (next fabric4).1.1.

Lemma sample_prepared : prepare_plan 77 sample_graph sample_payloads fabric1 = (fabric2, Ok 1).
Proof. vm_compute. reflexivity. Qed.
Lemma sample_committed : next fabric2 =
  ((fabric3, []), Ok (mkReport 1 (Some 1) (Some Committed) PlanReady 1 "written")).
Proof. vm_compute. reflexivity. Qed.
Lemma sample_suspended : next fabric3 =
  ((fabric4, []), Ok (mkReport 1 (Some 2) (Some Suspended) PlanSuspended 1 "later")).
Proof. vm_compute. reflexivity. Qed.
Lemma sample_completed : next fabric4 =
  ((fabric5, []), Ok (mkReport 1 (Some 2) (Some Committed) PlanCompleted 2 "written")).
Proof. vm_compute. reflexivity. Qed.

Definition fabric6 : ActionFabric Script := (rollback_plan 1 fabric5).1.

(** On a concrete completed plan whose second rollback fails, rollback_plan leaves a
    state that validate_fabric_state rejects, although it accepted the state before. *)
Theorem partial_rollback_not_restorable :
  rollback_plan 1 fabric5 = (fabric6, Err (RollbackFailure "file.write" "busy")) ∧
  validate_fabric_state sample_registry (fb_state fabric5) = Ok tt ∧
  validate_fabric_state sample_registry (fb_state fabric6) = Err InvalidState.
Proof. vm_compute. by split_and!. Qed.

(** The same plan, with rollbacks that succeed. *)
Definition fabric5_quiet : ActionFabric Script :=
  set_adapters fabric5 {["file.write" := mkScript [] [] []]}.
Definition fabric7 : ActionFabric Script := (rollback_plan 1 fabric5_quiet).1.
Lemma sample_rolled_back : rollback_plan 1 fabric5_quiet =
  (fabric7, Ok (mkReport 1 None None PlanRolledBack 2 "all known side effects rolled back")).
Proof. vm_compute. reflexivity. Qed.

Lemma fabric1_inv : fabric_inv fabric1.
Proof. exact (proj1 (register_adapter_inv _ _ _ _ _ (surjective_pairing _) (fabric_inv_new _))). Qed.
Lemma fabric2_inv : fabric_inv fabric2.
Proof. exact (proj1 (prepare_plan_inv _ _ _ _ _ _ sample_prepared fabric1_inv)). Qed.
Lemma fabric3_inv : fabric_inv fabric3.
Proof. exact (proj1 (execute_next_inv _ _ _ _ _ _ _ fabric2_inv sample_committed)). Qed.
Lemma fabric4_inv : fabric_inv fabric4.
Proof. exact (proj1 (execute_next_inv _ _ _ _ _ _ _ fabric3_inv sample_suspended)). Qed.
Lemma fabric5_inv : fabric_inv fabric5.
Proof. exact (proj1 (execute_next_inv _ _ _ _ _ _ _ fabric4_inv sample_completed)). Qed.
Lemma fabric5_quiet_inv : fabric_inv fabric5_quiet.
Proof. exact (set_adapters_inv fabric5 _ fabric5_inv). Qed.

Lemma validate_fabric_state_spec_witness :
  validate_fabric_state sample_registry (fb_state fabric4) = Ok tt ∧
  fabric_wf sample_registry (fb_state fabric4).
Proof.
  assert (validate_fabric_state sample_registry (fb_state fabric4) = Ok tt) as Hv
    by (vm_compute; reflexivity).
  split; [exact Hv|].
  exact (proj1 (validate_fabric_state_spec sample_registry (fb_state fabric4) (proj1 fabric4_inv)) Hv).
Defined.

Lemma fabric_reachable_restorable_witness :
  validate_fabric_state sample_registry (fb_state fabric5) = Ok tt.
Proof.
  refine (proj1 (fabric_reachable_restorable (V:=list ActionVerification) sample_registry fabric5 _)).
  eapply reach_execute; [|exact sample_completed].
  eapply reach_execute; [|exact sample_suspended].
  eapply reach_execute; [|exact sample_committed].
  eapply reach_prepare; [|exact sample_prepared].
  eapply (reach_register _ fabric0 "file.write" sample_script); [apply reach_new|].
  apply surjective_pairing.
Defined.

Lemma execute_next_refines_witness :
  ∃ p p', get_plan fabric3 1 = Some p ∧ get_plan fabric4 1 = Some p' ∧
    plan_step sample_registry sample_grant p p' ∧ pl_status p' = PlanSuspended.
Proof.
  destruct (execute_next_refines _ _ _ _ _ _ _ sample_suspended)
    as [(_ & _ & ?)|(p & p' & Hp & Hp' & _ & Hstep & Hrep)]; [discriminate|].
  exists p, p'. split; [exact Hp|]. split; [exact Hp'|]. split; [exact Hstep|].
  destruct (Hrep _ eq_refl) as (_ & Hst & _). symmetry. exact Hst.
Defined.

Lemma execute_next_preserves_inv_witness :
  fabric_inv fabric2 ∧ validate_fabric_state sample_registry (fb_state fabric3) = Ok tt.
Proof.
  split; [exact fabric2_inv|].
  exact (proj2 (proj2 (execute_next_preserves_inv _ _ _ _ _ _ _ fabric2_inv sample_committed))).
Defined.

Lemma execute_next_authorized_witness :
  fb_adapters fabric3 ≠ fb_adapters fabric2 ∧ ∃ d, permits sample_grant d = Ok tt.
Proof.
  assert (fb_adapters fabric3 ≠ fb_adapters fabric2) as Hne.
  { intros Heq. apply (f_equal (λ m, sc_results <$> m !! "file.write"%string)) in Heq.
    vm_compute in Heq. discriminate. }
  split; [exact Hne|].
  destruct (execute_next_authorized _ _ _ _ _ _ _ sample_committed Hne)
    as (p & a & d & _ & _ & _ & _ & _ & Hperm & _).
  exists d. exact Hperm.
Defined.

Lemma execute_next_stable_witness :
  ∃ p0 p1, get_plan fabric4 1 = Some p0 ∧ get_plan fabric5 1 = Some p1 ∧ pl_cursor p0 ≤ pl_cursor p1.
Proof.
  destruct (get_plan fabric4 1) as [p0|] eqn:Hp0; [|vm_compute in Hp0; discriminate].
  destruct (execute_next_stable _ _ _ _ _ _ _ 1 p0 fabric4_inv sample_completed Hp0)
    as (p1 & Hp1 & _ & Hle & _).
  exists p0, p1. split; [reflexivity|]. split; [exact Hp1|exact Hle].
Defined.

Lemma prepare_plan_spec_witness :
  fabric_inv fabric1 ∧ ∃ p, get_plan fabric2 1 = Some p ∧
    prepared_plan sample_registry (fb_state fabric1) 77 sample_graph sample_payloads p.
Proof.
  split; [exact fabric1_inv|].
  destruct (prepare_plan_spec _ _ _ _ _ _ fabric1_inv sample_prepared) as (_ & _ & _ & _ & _ & Hp).
  exact Hp.
Defined.

Lemma rollback_plan_spec_witness :
  ∃ p', get_plan fabric7 1 = Some p' ∧ pl_status p' = PlanRolledBack ∧ fabric_inv fabric7.
Proof.
  destruct (rollback_plan_spec fabric5_quiet _ _ _ fabric5_quiet_inv sample_rolled_back)
    as (_ & Hinv & p & p' & _ & Hp' & Hst & _).
  exists p'. split; [exact Hp'|]. split; [exact Hst|exact Hinv].
Defined.

Lemma missing_adapter_drops_resume_witness :
  ∃ s' p' a', execute_next 1 sample_grant (set_adapters fabric4 ∅, @nil ActionVerification) =
      ((s', []), Err (MissingAdapter "file.write")) ∧
    get_plan s' 1 = Some p' ∧ pl_actions p' !! Z.to_nat (pl_cursor p') = Some a' ∧
    pa_resume_token a' = Some sample_token ∧ resume_with a' = None.
Proof.
  set (s := set_adapters fabric4 ∅).
  destruct (get_plan s 1) as [p|] eqn:Hp; [|vm_compute in Hp; discriminate].
  destruct (pl_actions p !! Z.to_nat (pl_cursor p)) as [a|] eqn:Ha.
  2: { vm_compute in Hp. injection Hp as <-. vm_compute in Ha. discriminate. }
  assert (plan_terminal (pl_status p) = false ∧ pa_status a = Suspended ∧
    pa_capability a = "file.write"%string ∧ pa_resume_token a = Some sample_token ∧
    check_current sample_registry sample_grant a = Ok write_capability)
    as (Hterm & Hsus & Hcap & Htok & Hchk).
  { vm_compute in Hp. injection Hp as <-. vm_compute in Ha. injection Ha as <-.
    vm_compute. repeat split. }
  destruct (missing_adapter_drops_resume s (@nil ActionVerification) 1 sample_grant p a
    write_capability Hp Hterm Ha Hsus Hchk eq_refl) as (s' & p' & a' & Hrun & Hp' & Ha' & _ & Htok' & Hres).
  exists s', p', a'. rewrite Hcap in Hrun. rewrite Htok in Htok'.
  split; [exact Hrun|]. split; [exact Hp'|]. split; [exact Ha'|]. split; [exact Htok'|exact Hres].
Defined.
