(* ===== verification/ActionValues.v ===== *)
(** The codec of an adapter's output, which the action checkpoint
    (src/crates/ntd-runtime/src/action_checkpoint.rs) and the wire protocol
    (src/crates/ntd-pc-fabric/src/wire.rs) share up to their error types. *)
From S2P Require Import Prelude Text Collections Codec WireFormat WireTables Core Capability Effects ActionFabric.

Section values.
Context {E : Type} `{FormatErrors E} (bad_tag : Z → E).

(** One entry of [ActionValue::Fields]. *)
Definition encode_field (out : bytes) (field : string * string)
  : result E bytes :=
  let? out := push_string out field.1 in push_string out field.2.

Definition encode_action_value (out : bytes) (value : ActionValue)
  : result E bytes :=
  match value with
  | VNone => Ok (push_u8 out 0)
  | VText value => push_string (push_u8 out 1) value
  | VBytes value => push_bytes (push_u8 out 2) value
  | VTextList values => push_strings (push_u8 out 3) values
  | VFields fields =>
      let out := push_u8 out 4 in
      let? n := len_u32 (Z.of_nat (size fields)) in
      fold_result encode_field (push_u32 out n) (btree_iter fields)
  end.

(** The loop over the fields: the order is tested between key and value. *)
Fixpoint decode_fields (n : nat) (previous : option string) (fields : gmap string string)
  : decoder E (gmap string string) :=
  match n with
  | O => dec_ret fields
  | S n' =>
      dec! key <- read_string;
      dec! _ <- dec_guard (key_after previous key) err_non_canonical;
      dec! value <- read_string;
      dec! _ <- dec_guard (bool_decide (fields !! key = None)) err_non_canonical;
      decode_fields n' (Some key) (<[key := value]> fields)
  end.

Definition decode_action_value : decoder E ActionValue :=
  dec! tag <- read_u8;
  match tag with
  | 0 => dec_ret VNone
  | 1 => dec! value <- read_string; dec_ret (VText value)
  | 2 => dec! value <- read_bytes; dec_ret (VBytes value)
  | 3 => dec! values <- read_strings; dec_ret (VTextList values)
  | 4 => dec! count <- read_u32;
         dec! count <- dec_lift (ok_or (try_usize count) err_cursor_overflow);
         dec! fields <- decode_fields (Z.to_nat count) None ∅;
         dec_ret (VFields fields)
  | other => dec_lift (Err (bad_tag other))
  end.

Definition encode_output (out : bytes) (output : ActionOutput)
  : result E bytes :=
  let? out := push_string out (ao_summary output) in
  let? out := encode_action_value out (ao_value output) in
  push_strings out (ao_evidence output).
Definition decode_output : decoder E ActionOutput :=
  dec! summary <- read_string;
  dec! value <- decode_action_value;
  dec! evidence <- read_strings;
  dec_ret (mkOutput summary value evidence).

Lemma encode_output_no_panic out o : no_panic (encode_output out o).
Proof.
  unfold encode_output. np_step; [apply push_string_no_panic|]. np_step; [|apply push_strings_no_panic].
  destruct (ao_value o); cbn [encode_action_value]; auto with no_panic nocore.
  - done.
  - cbv zeta. unfold len_u32. np_step; [apply ok_or_no_panic|].
    apply (fold_result_no_panic (λ _, True)); [done|]. intros. split; [|done].
    unfold encode_field. np_step; auto with no_panic nocore.
Qed.
End values.
#[export] Hint Resolve encode_output_no_panic : no_panic.

(** ** Formats *)
Section formats.
Context {E : Type} `{FormatErrors E} (bad_tag : Z → E).
(** The encodings of the fields. *)
Notation enc_string := (wf_enc push_string read_string).
Notation enc_strings := (wf_enc push_strings read_strings).
Notation enc_bytes := (wf_enc push_bytes read_bytes).
Notation fits_string := (wf_fits push_string read_string).
Notation fits_strings := (wf_fits push_strings read_strings).
Notation fits_bytes := (wf_fits push_bytes read_bytes).

(** ** Action values

    The loop over the fields tests the key before it reads the value; when it
    succeeds it is the loop over the pairs, which [WireTables] treats. *)
Definition decode_field : decoder E (string * string) :=
  dec! key <- read_string; dec! value <- read_string; dec_ret (key, value).

#[export] Instance field_format : WireFormat encode_field decode_field.
Proof.
  refine {| wf_enc f := enc_string f.1 ++ enc_string f.2; wf_typed f := is_utf8 f.1 ∧ is_utf8 f.2;
            wf_fits f := fits_string f.1 ∧ fits_string f.2 |}.
  - intros f out r. unfold encode_field. emit_steps. tauto.
  - intros [k v] [? ?] [? ?]. unfold decode_field. cbn [fst snd] in *. solve_fields.
  - unfold decode_field. parse_fields Hv.
  - unfold decode_field. solve_safe.
Defined.

Definition with_keys (m : gmap string string) : gmap string (string * string) :=
  map_imap (λ k v, Some (k, v)) m.
Lemma lookup_with_keys m k : with_keys m !! k = (λ v, (k, v)) <$> m !! k.
Proof. unfold with_keys. rewrite map_lookup_imap. by destruct (m !! k). Qed.
Lemma snd_with_keys m : snd <$> with_keys m = m.
Proof. apply map_eq. intros k. rewrite lookup_fmap, lookup_with_keys. by destruct (m !! k). Qed.
Lemma with_keys_snd (m : gmap string (string * string)) :
  keyed fst m → with_keys (snd <$> m) = m.
Proof.
  intros Hk. apply map_eq. intros k. rewrite lookup_with_keys, lookup_fmap.
  destruct (m !! k) as [[k' v]|] eqn:Hm; [|done]. by rewrite <- (Hk k _ Hm).
Qed.
Lemma keyed_with_keys m : keyed fst (with_keys m).
Proof.
  intros k a. rewrite lookup_with_keys. destruct (m !! k); [|done]. by intros [= <-].
Qed.
Lemma size_with_keys m : size (with_keys m) = size m.
Proof. rewrite <- (snd_with_keys m) at 2. by rewrite map_size_fmap. Qed.
Lemma values_with_keys m : btree_values (with_keys m) = btree_iter m.
Proof.
  apply (strict_sorted_unique fst).
  - rewrite keyed_values_keys by apply keyed_with_keys. apply btree_keys_strict.
  - apply btree_keys_strict.
  - intros [k v]. rewrite elem_of_btree_values, elem_of_btree_iter.
    setoid_rewrite lookup_with_keys. split.
    + intros (k' & Hk). destruct (m !! k') eqn:Hm; [|done]. by injection Hk as <- <-.
    + intros Hk. exists k. by rewrite Hk.
Qed.

Lemma decode_fields_ordered n previous m c r c' :
  decode_fields n previous (snd <$> m) c = Ok (r, c') ↔
  ∃ m', read_ordered key_after Some fst decode_field n previous m c = Ok (m', c') ∧
        r = snd <$> m'.
Proof.
  revert previous m c. induction n as [|n IH]; intros previous m c; cbn [decode_fields read_ordered].
  { unfold dec_ret. split; [intros [= <- <-]; by exists m|intros (? & [= -> ->] & ->); done]. }
  unfold decode_field at 1. unfold dec_bind. destruct (read_string c) as [[key c1]|e|]; [|split; [done|by intros (? & ? & ?)]..].
  destruct (key_after previous key) eqn:Hk.
  2: { cbn [dec_guard]. unfold dec_guard. destruct (read_string c1) as [[v c2]|e|]; [|split; [done|by intros (? & ? & ?)]..].
       unfold dec_ret. cbn [fst]. rewrite Hk. split; [done|by intros (? & ? & ?)]. }
  unfold dec_guard, dec_lift, dec_ret. destruct (read_string c1) as [[v c2]|e|]; [|split; [done|by intros (? & ? & ?)]..].
  cbn [fst]. rewrite Hk. rewrite lookup_fmap.
  destruct (m !! key) as [x|] eqn:Hm; cbn [fmap option_fmap option_map].
  - rewrite !bool_decide_false by done. split; [done|by intros (? & ? & ?)].
  - rewrite !bool_decide_true by done.
    change (<[key:=v]> (snd <$> m)) with (<[key:=(key, v).2]> (snd <$> m)).
    rewrite <- fmap_insert. apply IH.
Qed.

Lemma decode_fields_reads m :
  map_Forall (λ k v, is_utf8 k ∧ is_utf8 v) m →
  table_fits (wf_fits encode_field decode_field) (with_keys m) →
  reads (decode_fields (size m) None ∅) (table_enc (wf_enc encode_field decode_field) (with_keys m)) m.
Proof.
  intros Hm Hf pre post Hlen.
  rewrite <- (snd_with_keys m) at 3. rewrite <- size_with_keys.
  rewrite <- (fmap_empty (M:=gmap string) (snd (A:=string) (B:=string))). apply decode_fields_ordered.
  exists (with_keys m). split; [|done].
  rewrite <- (Nat2Z.id (size (with_keys m))).
  eapply (reads_table key_after Some None (λ _, True) fst encode_field decode_field); [|done..].
  intros k a. rewrite lookup_with_keys. destruct (m !! k) as [v|] eqn:Hk; [|done].
  intros [= <-]. split_and!; [done..|]. by apply (Hm k).
Qed.

Lemma decode_fields_parses n :
  in_u32 n →
  parses (decode_fields (Z.to_nat n) None ∅) (λ l m,
    l = table_enc (wf_enc encode_field decode_field) (with_keys m) ∧ to_le 4 n = table_len m ∧
    map_Forall (λ k v, is_utf8 k ∧ is_utf8 v) m ∧
    table_fits (wf_fits encode_field decode_field) (with_keys m)).
Proof.
  intros Hn pre rest r c. rewrite <- (fmap_empty (M:=gmap string) (snd (A:=string) (B:=string))).
  intros (m' & Hm & ->)%decode_fields_ordered.
  eapply (parses_table key_after Some None (λ _, True) fst encode_field decode_field) in Hm
    as (l & post & -> & -> & Hl & Hlen & Hty & Hf); [|done].
  assert (with_keys (snd <$> m') = m') as Hw.
  { apply with_keys_snd. intros k a Ha. by destruct (Hty k a Ha). }
  exists l, post. rewrite Hw. unfold table_len in *. rewrite map_size_fmap. split_and!; try done.
  intros k v. rewrite lookup_fmap. destruct (m' !! k) as [[k' v']|] eqn:Hk; [|done].
  intros [= <-]. destruct (Hty k _ Hk) as (<- & _ & Ht). apply Ht.
Qed.

Lemma safe_fields n previous m : safe (decode_fields n previous m).
Proof.
  revert previous m. induction n as [|n IH]; intros previous m; cbn [decode_fields]; solve_safe.
Qed.
#[local] Hint Resolve safe_fields : codec.

Definition value_enc (v : ActionValue) : bytes :=
  match v with
  | VNone => to_le 1 0
  | VText t => to_le 1 1 ++ enc_string t
  | VBytes b => to_le 1 2 ++ enc_bytes b
  | VTextList l => to_le 1 3 ++ enc_strings l
  | VFields m =>
      to_le 1 4 ++ table_len m ++ table_enc (wf_enc encode_field decode_field) (with_keys m)
  end.
Definition value_typed (v : ActionValue) : Prop :=
  match v with
  | VNone | VBytes _ => True
  | VText t => is_utf8 t
  | VTextList l => Forall is_utf8 l
  | VFields m => map_Forall (λ k v, is_utf8 k ∧ is_utf8 v) m
  end.
Definition value_fits (v : ActionValue) : Prop :=
  match v with
  | VNone => True
  | VText t => fits_string t
  | VBytes b => fits_bytes b
  | VTextList l => fits_strings l
  | VFields m => table_fits (wf_fits encode_field decode_field) (with_keys m)
  end.

#[export] Instance action_value_format : WireFormat encode_action_value (decode_action_value bad_tag).
Proof.
  refine {| wf_enc := value_enc; wf_typed := value_typed; wf_fits := value_fits |}.
  - intros v out r. destruct v; cbn [encode_action_value value_fits value_enc];
      unfold push_u32, push_u8; cbv zeta; emit_steps; try tauto.
    rewrite len_then, (each_Ok encode_field decode_field). rewrite <- ?app_assoc.
    unfold table_fits, table_len, table_enc. rewrite values_with_keys, size_with_keys. tauto.
  - intros v Ht Hf. unfold decode_action_value.
    destruct v as [| | | |m]; cbn [value_typed value_fits value_enc] in *;
      [eapply reads_bind_last; [by apply reads_u8|]; apply reads_ret|
       (eapply reads_bind; [apply reads_u8; by vm_compute|]); cbv iota beta; solve_fields..].
    assert (Z.of_nat (size m) < 2 ^ 32) as Hsize by (rewrite <- size_with_keys; apply Hf).
    eapply reads_bind; [apply reads_u32; unfold in_u32; lia|].
    eapply reads_bind_nil; [apply reads_lift, try_u64_Ok; lia|].
    eapply reads_bind_last; [|apply reads_ret]. rewrite Nat2Z.id. by apply decode_fields_reads.
  - unfold decode_action_value. parse_start Hv. parse_step Hv. destruct Hr as [-> _].
    destruct a as [|p|p]; [by parse_done Hv| |done].
    do 3 (try destruct p as [p|p|]; try done);
      repeat parse_step Hv; parse_facts field_facts;
      [parse_done Hv; cbn [value_enc value_typed value_fits]; rewrite ?app_nil_r, <- ?app_assoc;
       by split_and!| |parse_done Hv; cbn [value_enc value_typed value_fits];
       rewrite ?app_nil_r, <- ?app_assoc; by split_and!..].
    eapply parses_step in Hv; [|by apply decode_fields_parses].
    destruct Hv as (l & post' & m & -> & (-> & Hn & Hty & Hf) & Hv). parse_done Hv.
    cbn [value_enc value_typed value_fits]. rewrite ?app_nil_r, <- ?app_assoc, <- Hn. by split_and!.
  - unfold decode_action_value. solve_safe.
Defined.

Notation enc_value := (wf_enc encode_action_value (decode_action_value bad_tag)).
#[local] Hint Extern 1 (reads (decode_action_value _) _ _) =>
  apply (format_reads encode_action_value (decode_action_value bad_tag)) : reads.
#[local] Hint Extern 1 (parses (decode_action_value _) _) =>
  apply (format_parses encode_action_value (decode_action_value bad_tag)) : parses.
#[local] Hint Extern 1 (safe (decode_action_value _)) =>
  apply (format_safe encode_action_value (decode_action_value bad_tag)) : codec.

#[export] Instance output_format : WireFormat encode_output (decode_output bad_tag).
Proof.
  refine {| wf_enc o := enc_string (ao_summary o) ++ enc_value (ao_value o) ++
              enc_strings (ao_evidence o);
            wf_typed o := is_utf8 (ao_summary o) ∧
              wf_typed encode_action_value (decode_action_value bad_tag) (ao_value o) ∧
              Forall is_utf8 (ao_evidence o);
            wf_fits o := fits_string (ao_summary o) ∧
              wf_fits encode_action_value (decode_action_value bad_tag) (ao_value o) ∧
              fits_strings (ao_evidence o) |}.
  - intros o out r. unfold encode_output. emit_steps.
    rewrite (put_then encode_action_value (decode_action_value bad_tag)). emit_steps. tauto.
  - intros [] (?&?&?) (?&?&?). unfold decode_output. cbn in *. solve_fields.
  - unfold decode_output. parse_fields Hv.
  - unfold decode_output. solve_safe.
Defined.
End formats.

#[export] Hint Resolve safe_fields : codec.
