(* ===== verification/Wire.v ===== *)
(** The paired-PC messages PCF97: src/crates/ntd-pc-fabric/src/wire.rs.

    Capabilities, requests, results and artifact chunks, their validation, their
    digests and their canonical frames. *)
From S2P Require Import Prelude Text Collections Codec WireFormat WireTables Core Capability Effects ActionFabric ActionValues Artifact.

Module Wire.
Import Artifact.

#[export] Instance pc_cursor : CursorErrors PcFabricError :=
  {| err_truncated := InvalidMessage; err_cursor_overflow := Overflow |}.
#[export] Instance pc_errors : FormatErrors PcFabricError :=
  {| err_utf8 := InvalidMessage; err_boolean _ := InvalidMessage;
     err_non_canonical := InvalidMessage |}.

Definition PCF97_MAGIC : bytes := string_bytes "PCF97" ++ [zero_byte].
Definition PCF97_MAJOR : Z := 0.
Definition PCF97_MINOR : Z := 1.
Definition PCF97_HEADER_LEN : Z := 16.

Definition nonempty (value : string) : result PcFabricError unit :=
  if is_blank value then Err InvalidMessage else Ok tt.

(** ** Capabilities *)
Record RemoteCapability := mkRemoteCapability {
  rc_id : string;
  rc_version : Z;
  rc_side_effect : SideEffectClass;
  rc_verification_required : bool;
  rc_rollback_supported : bool;
  rc_resumable : bool;
  rc_required_scopes : list string;
}.

Definition validate_remote_capability (c : RemoteCapability) : result PcFabricError unit :=
  if is_blank (rc_id c) || (rc_version c =? 0) then Err InvalidMessage
  else if existsb is_blank (rc_required_scopes c) then Err InvalidMessage
  else if negb (strictly_ascending (rc_required_scopes c)) then Err InvalidMessage
  else if bool_decide (rc_side_effect c = Irreversible) && rc_rollback_supported c
  then Err InvalidMessage
  else Ok tt.

(** The loop of [validate_capabilities] carries the previous id. *)
Definition check_capability (previous : option string) (c : RemoteCapability)
  : result PcFabricError (option string) :=
  let? _ := validate_remote_capability c in
  if match previous with Some prior => bool_decide (String.le (rc_id c) prior) | None => false end
  then Err InvalidMessage
  else Ok (Some (rc_id c)).
Definition validate_capabilities (l : list RemoteCapability) : result PcFabricError unit :=
  let? _ := fold_result check_capability None l in Ok tt.

(** ** Actions and requests *)
Inductive RemoteAction :=
| RObserve (surface : string)
| RExecute (program : string) (args : list string) (working_dir : option string)
| RArtifactRead (path : string)
| RArtifactWrite (path : string) (contents : bytes).

Definition validate_remote_action (a : RemoteAction) : result PcFabricError unit :=
  match a with
  | RObserve surface => nonempty surface
  | RExecute program _ working_dir =>
      let? _ := nonempty program in
      match working_dir with Some d => nonempty d | None => Ok tt end
  | RArtifactRead path | RArtifactWrite path _ => nonempty path
  end.

Definition encode_action (out : bytes) (action : RemoteAction) : result PcFabricError bytes :=
  let? _ := validate_remote_action action in
  match action with
  | RObserve surface => push_string (push_u8 out 1) surface
  | RExecute program args working_dir =>
      let? out := push_string (push_u8 out 2) program in
      let? out := push_strings out args in
      push_optional_string out working_dir
  | RArtifactRead path => push_string (push_u8 out 3) path
  | RArtifactWrite path contents =>
      let? out := push_string (push_u8 out 4) path in push_bytes out contents
  end.

Definition decode_action_body (tag : Z) : decoder PcFabricError RemoteAction :=
  match tag with
  | 1 => dec! surface <- read_string; dec_ret (RObserve surface)
  | 2 => dec! program <- read_string; dec! args <- read_strings;
         dec! working_dir <- optional_string; dec_ret (RExecute program args working_dir)
  | 3 => dec! path <- read_string; dec_ret (RArtifactRead path)
  | 4 => dec! path <- read_string; dec! contents <- read_bytes; dec_ret (RArtifactWrite path contents)
  | _ => dec_lift (Err InvalidMessage)
  end.
Definition decode_action : decoder PcFabricError RemoteAction :=
  dec! tag <- read_u8;
  dec! action <- decode_action_body tag;
  dec! _ <- dec_lift (validate_remote_action action);
  dec_ret action.

Record RemoteRequest := mkRequest {
  rq_request_id : Z;
  rq_capability : string;
  rq_capability_version : Z;
  rq_action : RemoteAction;
  rq_request_digest : bytes;
}.

(** What [digest_request] hashes. *)
Definition request_preimage (r : RemoteRequest) : result PcFabricError bytes :=
  let out := string_bytes "NTD97-PCF97-REQUEST" in
  let out := push_u64 out (rq_request_id r) in
  let? out := push_string out (rq_capability r) in
  let out := push_u32 out (rq_capability_version r) in
  encode_action out (rq_action r).
Definition digest_request `{Sha2} (r : RemoteRequest) : result PcFabricError bytes :=
  let? preimage := request_preimage r in Ok (sha2_digest preimage).

Definition RemoteRequest_new `{Sha2} (request_id : Z) (capability : string) (capability_version : Z)
    (action : RemoteAction) : result PcFabricError RemoteRequest :=
  if (request_id =? 0) || (capability_version =? 0) then Err InvalidMessage
  else
    let? _ := nonempty capability in
    let? _ := validate_remote_action action in
    let request := mkRequest request_id capability capability_version action (zeros 32) in
    let? digest := digest_request request in
    Ok (mkRequest request_id capability capability_version action digest).

Definition validate_request `{Sha2} (r : RemoteRequest) : result PcFabricError unit :=
  if (rq_request_id r =? 0) || (rq_capability_version r =? 0) then Err InvalidMessage
  else
    let? _ := nonempty (rq_capability r) in
    let? _ := validate_remote_action (rq_action r) in
    let? digest := digest_request r in
    if negb (bytes_eqb digest (rq_request_digest r)) then Err InvalidMessage else Ok tt.

Definition encode_request (out : bytes) (r : RemoteRequest) : result PcFabricError bytes :=
  let out := push_u64 out (rq_request_id r) in
  let? out := push_string out (rq_capability r) in
  let out := push_u32 out (rq_capability_version r) in
  let? out := encode_action out (rq_action r) in
  Ok (out ++ rq_request_digest r).

Definition decode_request `{Sha2} : decoder PcFabricError RemoteRequest :=
  dec! request_id <- read_u64;
  dec! capability <- read_string;
  dec! capability_version <- read_u32;
  dec! action <- decode_action;
  dec! request_digest <- take_bytes 32;
  dec! _ <- dec_lift
    (validate_request (mkRequest request_id capability capability_version action request_digest));
  dec_ret (mkRequest request_id capability capability_version action request_digest).

(** ** Artifacts *)
Definition encode_artifact (out : bytes) (d : ArtifactDescriptor) : result PcFabricError bytes :=
  let? _ := validate_artifact d in
  let out := push_u64 out (ad_transfer_id d) in
  let? out := push_string out (ad_name d) in
  let out := push_u64 out (ad_length d) in
  let out := out ++ ad_sha256 d in
  Ok (push_u32 out (ad_chunk_size d)).

Definition decode_artifact : decoder PcFabricError ArtifactDescriptor :=
  dec! transfer_id <- read_u64;
  dec! name <- read_string;
  dec! length <- read_u64;
  dec! sha256 <- take_bytes 32;
  dec! chunk_size <- read_u32;
  dec! _ <- dec_lift (validate_artifact (mkArtifact transfer_id name length sha256 chunk_size));
  dec_ret (mkArtifact transfer_id name length sha256 chunk_size).

Definition check_artifact (previous : Z) (d : ArtifactDescriptor) : result PcFabricError Z :=
  let? _ := validate_artifact d in
  if ad_transfer_id d <=? previous then Err InvalidArtifact else Ok (ad_transfer_id d).
Definition validate_artifacts (l : list ArtifactDescriptor) : result PcFabricError unit :=
  let? _ := fold_result check_artifact 0 l in Ok tt.

Definition transfer_le (a b : ArtifactDescriptor) : Prop := ad_transfer_id a ≤ ad_transfer_id b.
#[export] Instance transfer_le_dec : RelDecision transfer_le.
Proof. intros a b. unfold transfer_le. apply _. Defined.

(** [sort_by_key(transfer_id)], then [validate_artifacts]. *)
Definition normalize_artifacts (l : list ArtifactDescriptor)
  : result PcFabricError (list ArtifactDescriptor) :=
  let l := merge_sort transfer_le l in
  let? _ := validate_artifacts l in Ok l.

(** ** Results *)
Inductive RemoteResultStatus :=
| Completed
| Retryable (reason : string)
| Rejected (reason : string).

Definition encode_status (out : bytes) (s : RemoteResultStatus) : result PcFabricError bytes :=
  match s with
  | Completed => Ok (push_u8 out 1)
  | Retryable reason => push_string (push_u8 out 2) reason
  | Rejected reason => push_string (push_u8 out 3) reason
  end.
Definition decode_status : decoder PcFabricError RemoteResultStatus :=
  dec! tag <- read_u8;
  match tag with
  | 1 => dec_ret Completed
  | 2 => dec! reason <- read_string; dec_ret (Retryable reason)
  | 3 => dec! reason <- read_string; dec_ret (Rejected reason)
  | _ => dec_lift (Err InvalidMessage)
  end.

(** [encode_output] is the one of ActionValues.v. *)
Definition decode_remote_output : decoder PcFabricError ActionOutput :=
  decode_output (λ _, InvalidMessage).

Record RemoteResult := mkResult {
  rr_request_id : Z;
  rr_capability : string;
  rr_capability_version : Z;
  rr_request_digest : bytes;
  rr_status : RemoteResultStatus;
  rr_output : ActionOutput;
  rr_artifacts : list ArtifactDescriptor;
  rr_result_digest : bytes;
}.

Definition set_result_digest (d : bytes) (r : RemoteResult) : RemoteResult :=
  mkResult (rr_request_id r) (rr_capability r) (rr_capability_version r) (rr_request_digest r)
    (rr_status r) (rr_output r) (rr_artifacts r) d.

Definition result_preimage (r : RemoteResult) : result PcFabricError bytes :=
  let out := string_bytes "NTD97-PCF97-RESULT" in
  let out := push_u64 out (rr_request_id r) in
  let? out := push_string out (rr_capability r) in
  let out := push_u32 out (rr_capability_version r) in
  let out := out ++ rr_request_digest r in
  let? out := encode_status out (rr_status r) in
  let? out := encode_output out (rr_output r) in
  push_list encode_artifact out (rr_artifacts r).
Definition digest_result `{Sha2} (r : RemoteResult) : result PcFabricError bytes :=
  let? preimage := result_preimage r in Ok (sha2_digest preimage).

Definition validate_fields (r : RemoteResult) : result PcFabricError unit :=
  if (rr_request_id r =? 0) || (rr_capability_version r =? 0) then Err InvalidMessage
  else
    let? _ := nonempty (rr_capability r) in
    let? _ := match rr_status r with
              | Completed => Ok tt
              | Retryable reason | Rejected reason => nonempty reason
              end in
    validate_artifacts (rr_artifacts r).

Definition validate_result `{Sha2} (r : RemoteResult) : result PcFabricError unit :=
  let? _ := validate_fields r in
  let? digest := digest_result r in
  if negb (bytes_eqb digest (rr_result_digest r)) then Err InvalidMessage else Ok tt.

Definition RemoteResult_new `{Sha2} (request : RemoteRequest) (status : RemoteResultStatus)
    (output : ActionOutput) (artifacts : list ArtifactDescriptor)
  : result PcFabricError RemoteResult :=
  let? _ := validate_request request in
  let? artifacts := normalize_artifacts artifacts in
  let r := mkResult (rq_request_id request) (rq_capability request) (rq_capability_version request)
             (rq_request_digest request) status output artifacts (zeros 32) in
  let? _ := validate_fields r in
  let? digest := digest_result r in
  Ok (set_result_digest digest r).

Definition result_completed `{Sha2} (request : RemoteRequest) (output : ActionOutput)
    (artifacts : list ArtifactDescriptor) : result PcFabricError RemoteResult :=
  RemoteResult_new request Completed output artifacts.
Definition result_retryable `{Sha2} (request : RemoteRequest) (reason : string)
  : result PcFabricError RemoteResult :=
  let? _ := nonempty reason in
  RemoteResult_new request (Retryable reason) (mkOutput "remote action retryable" VNone []) [].
Definition result_rejected `{Sha2} (request : RemoteRequest) (reason : string)
  : result PcFabricError RemoteResult :=
  let? _ := nonempty reason in
  RemoteResult_new request (Rejected reason) (mkOutput "remote action rejected" VNone []) [].

Definition verify_against `{Sha2} (r : RemoteResult) (request : RemoteRequest)
  : result PcFabricError unit :=
  let? _ := validate_request request in
  let? _ := validate_result r in
  if negb (rr_request_id r =? rq_request_id request)
     || negb (bool_decide (rr_capability r = rq_capability request))
     || negb (rr_capability_version r =? rq_capability_version request)
     || negb (bytes_eqb (rr_request_digest r) (rq_request_digest request))
  then Err InvalidMessage
  else Ok tt.

Definition encode_result (out : bytes) (r : RemoteResult) : result PcFabricError bytes :=
  let out := push_u64 out (rr_request_id r) in
  let? out := push_string out (rr_capability r) in
  let out := push_u32 out (rr_capability_version r) in
  let out := out ++ rr_request_digest r in
  let? out := encode_status out (rr_status r) in
  let? out := encode_output out (rr_output r) in
  let? out := push_list encode_artifact out (rr_artifacts r) in
  Ok (out ++ rr_result_digest r).

Definition decode_result `{Sha2} : decoder PcFabricError RemoteResult :=
  dec! request_id <- read_u64;
  dec! capability <- read_string;
  dec! capability_version <- read_u32;
  dec! request_digest <- take_bytes 32;
  dec! status <- decode_status;
  dec! output <- decode_remote_output;
  dec! artifacts <- read_list decode_artifact;
  dec! result_digest <- take_bytes 32;
  dec! _ <- dec_lift (validate_result (mkResult request_id capability capability_version
              request_digest status output artifacts result_digest));
  dec_ret (mkResult request_id capability capability_version request_digest status output
             artifacts result_digest).

(** ** Messages *)
Definition encode_side_effect (value : SideEffectClass) : Z :=
  match value with ReadOnly => 1 | Reversible => 2 | ExternalWrite => 3 | Irreversible => 4 end.
Definition decode_side_effect (value : Z) : result PcFabricError SideEffectClass :=
  if value =? 1 then Ok ReadOnly
  else if value =? 2 then Ok Reversible
  else if value =? 3 then Ok ExternalWrite
  else if value =? 4 then Ok Irreversible
  else Err InvalidMessage.

Definition encode_capability (out : bytes) (c : RemoteCapability) : result PcFabricError bytes :=
  let? _ := validate_remote_capability c in
  let? out := push_string out (rc_id c) in
  let out := push_u32 out (rc_version c) in
  let out := push_u8 out (encode_side_effect (rc_side_effect c)) in
  let out := push_bool out (rc_verification_required c) in
  let out := push_bool out (rc_rollback_supported c) in
  let out := push_bool out (rc_resumable c) in
  push_strings out (rc_required_scopes c).

Definition decode_capability : decoder PcFabricError RemoteCapability :=
  dec! id <- read_string;
  dec! version <- read_u32;
  dec! raw_side_effect <- read_u8;
  dec! side_effect <- dec_lift (decode_side_effect raw_side_effect);
  dec! verification_required <- read_boolean;
  dec! rollback_supported <- read_boolean;
  dec! resumable <- read_boolean;
  dec! required_scopes <- read_strings;
  dec! _ <- dec_lift (validate_remote_capability (mkRemoteCapability id version side_effect
              verification_required rollback_supported resumable required_scopes));
  dec_ret (mkRemoteCapability id version side_effect verification_required rollback_supported
             resumable required_scopes).

Inductive RemoteMessage :=
| Capabilities (l : list RemoteCapability)
| Request (r : RemoteRequest)
| Result (r : RemoteResult)
| ArtifactChunkMessage (c : ArtifactChunk)
| ArtifactPull (transfer_id offset : Z)
| CapabilityQuery.

(** The tag and the payload of a message. *)
Definition message_payload `{Sha2} (m : RemoteMessage) : result PcFabricError (Z * bytes) :=
  match m with
  | Capabilities l =>
      let? _ := validate_capabilities l in
      let? payload := push_list encode_capability [] l in Ok (1, payload)
  | Request r =>
      let? _ := validate_request r in
      let? payload := encode_request [] r in Ok (2, payload)
  | Result r =>
      let? _ := validate_result r in
      let? payload := encode_result [] r in Ok (3, payload)
  | ArtifactChunkMessage c =>
      if ac_transfer_id c =? 0 then Err InvalidArtifact
      else
        let out := push_u64 (push_u64 [] (ac_transfer_id c)) (ac_offset c) in
        let? payload := push_bytes out (ac_data c) in Ok (4, payload)
  | ArtifactPull transfer_id offset =>
      if transfer_id =? 0 then Err InvalidArtifact
      else Ok (5, push_u64 (push_u64 [] transfer_id) offset)
  | CapabilityQuery => Ok (6, [])
  end.

Definition encode_message `{Sha2} (m : RemoteMessage) : result PcFabricError bytes :=
  let? '(tag, payload) := message_payload m in
  let? payload_len := len_u32 (len payload) in
  let? _ := ok_or (checked_add_usize PCF97_HEADER_LEN (len payload)) Overflow in
  let out := PCF97_MAGIC in
  let out := push_u16 out PCF97_MAJOR in
  let out := push_u16 out PCF97_MINOR in
  let out := push_u8 out tag in
  let out := push_u8 out 0 in
  let out := push_u32 out payload_len in
  Ok (out ++ payload).

(** A little-endian integer at a fixed position of the header. *)
Definition word_at (bs : bytes) (a b : Z) : result PcFabricError Z :=
  let? raw := slice bs a b in Ok (from_le raw).

Definition decode_body `{Sha2} (tag : Z) : decoder PcFabricError RemoteMessage :=
  match tag with
  | 1 => dec! l <- read_list decode_capability;
         dec! _ <- dec_lift (validate_capabilities l);
         dec_ret (Capabilities l)
  | 2 => dec! r <- decode_request; dec_ret (Request r)
  | 3 => dec! r <- decode_result; dec_ret (Result r)
  | 4 => dec! transfer_id <- read_u64; dec! offset <- read_u64; dec! data <- read_bytes;
         dec_ret (ArtifactChunkMessage (mkChunk transfer_id offset data))
  | 5 => dec! transfer_id <- read_u64; dec! offset <- read_u64;
         dec_ret (ArtifactPull transfer_id offset)
  | 6 => dec_ret CapabilityQuery
  | _ => dec_lift (Err InvalidMessage)
  end.

Definition decode_message `{Sha2} (bs : bytes) : result PcFabricError RemoteMessage :=
  if (len bs <? PCF97_HEADER_LEN) || negb (bool_decide (get_range bs 0 6 = Some PCF97_MAGIC))
  then Err InvalidFrame
  else
    let? major := word_at bs 6 8 in
    let? minor := word_at bs 8 10 in
    let? reserved := word_at bs 11 12 in
    if negb (major =? PCF97_MAJOR) || (PCF97_MINOR <? minor) || negb (reserved =? 0)
    then Err InvalidFrame
    else
      let? tag := word_at bs 10 11 in
      let? raw_len := word_at bs 12 16 in
      let? payload_len := ok_or (try_usize raw_len) Overflow in
      let? expected := ok_or (checked_add_usize PCF97_HEADER_LEN payload_len) Overflow in
      if negb (len bs =? expected) then Err InvalidFrame
      else
        let? payload := slice bs PCF97_HEADER_LEN (len bs) in
        run_decoder
          (dec! m <- decode_body tag; dec! _ <- expect_finished InvalidMessage; dec_ret m) payload.
End Wire.
