(* ===== verification/WireTheorems.v ===== *)
(** The formats of the paired-PC messages, their round trip, and what the
    digests bind. *)
From S2P Require Import Prelude Text Collections Codec WireFormat WireTables Core Capability Effects ActionFabric ActionValues Artifact Wire Hash.

Module WireTheorems.
Import Artifact Wire.

Notation enc_string := (wf_enc (E:=PcFabricError) push_string read_string).
Notation enc_strings := (wf_enc (E:=PcFabricError) push_strings read_strings).
Notation enc_bytes := (wf_enc (E:=PcFabricError) push_bytes read_bytes).
Notation enc_opt_string := (wf_enc (E:=PcFabricError) push_optional_string optional_string).
Notation fits_string := (wf_fits (E:=PcFabricError) push_string read_string).
Notation fits_strings := (wf_fits (E:=PcFabricError) push_strings read_strings).
Notation fits_bytes := (wf_fits (E:=PcFabricError) push_bytes read_bytes).
Notation fits_opt_string := (wf_fits (E:=PcFabricError) push_optional_string optional_string).
Notation typed_opt_string := (wf_typed (E:=PcFabricError) push_optional_string optional_string).

(** ** The parts of a message *)
#[export] Instance remote_side_effect_tag : EnumTag encode_side_effect decode_side_effect.
Proof. unfold decode_side_effect. enum_tag. Qed.

(** A check before the rest of a writer. *)
Lemma check_then {A} (m : result PcFabricError unit) (k : result PcFabricError A) r :
  (let? _ := m in k) = Ok r ↔ m = Ok tt ∧ k = Ok r.
Proof. destruct m as [[]| |]; naive_solver. Qed.

Definition action_enc (a : RemoteAction) : bytes :=
  match a with
  | RObserve s => to_le 1 1 ++ enc_string s
  | RExecute p args d => to_le 1 2 ++ enc_string p ++ enc_strings args ++ enc_opt_string d
  | RArtifactRead p => to_le 1 3 ++ enc_string p
  | RArtifactWrite p c => to_le 1 4 ++ enc_string p ++ enc_bytes c
  end.
Definition action_typed (a : RemoteAction) : Prop :=
  match a with
  | RObserve s | RArtifactRead s | RArtifactWrite s _ => is_utf8 s
  | RExecute p args d => is_utf8 p ∧ Forall is_utf8 args ∧ typed_opt_string d
  end.
Definition action_fits (a : RemoteAction) : Prop :=
  match a with
  | RObserve s | RArtifactRead s => fits_string s
  | RExecute p args d => fits_string p ∧ fits_strings args ∧ fits_opt_string d
  | RArtifactWrite s c => fits_string s ∧ fits_bytes c
  end.

Lemma action_body_parses tag : parses (decode_action_body tag) (λ l a,
  to_le 1 tag ++ l = action_enc a ∧ action_typed a ∧ action_fits a).
Proof.
  parse_start Hv. destruct tag as [|p|p]; try done. do 3 (try destruct p as [p|p|]; try done);
    repeat parse_step Hv; field_facts; parse_done Hv; cbn [action_enc action_typed action_fits];
    rewrite ?app_nil_l, ?app_nil_r, <- ?app_assoc; split_and!; first [reflexivity|assumption].
Qed.
#[local] Hint Resolve action_body_parses : parses.
Lemma action_body_safe tag : safe (decode_action_body tag).
Proof. unfold decode_action_body. solve_safe. Qed.
#[local] Hint Resolve action_body_safe : codec.

Lemma validate_action_no_panic a : no_panic (validate_remote_action a).
Proof. destruct a; cbn; unfold nonempty; repeat case_match; done. Qed.
Lemma validate_artifact_no_panic d : no_panic (validate_artifact d).
Proof. unfold validate_artifact. by destruct (_ || _). Qed.
Lemma validate_capability_no_panic c : no_panic (validate_remote_capability c).
Proof. unfold validate_remote_capability. repeat case_match; done. Qed.
#[local] Hint Resolve validate_action_no_panic validate_artifact_no_panic
  validate_capability_no_panic : no_panic.

#[export] Instance remote_action_format : WireFormat encode_action decode_action.
Proof.
  refine {| wf_enc := action_enc; wf_typed := action_typed;
            wf_fits a := validate_remote_action a = Ok tt ∧ action_fits a |}.
  - intros a out r. unfold encode_action. rewrite check_then.
    destruct a; cbn [action_fits action_enc]; unfold push_u8; emit_steps; tauto.
  - intros a Ht [Hv Hf]. unfold decode_action.
    destruct a; cbn [action_typed action_fits action_enc] in *; destruct_and?;
      (eapply reads_bind; [apply reads_u8; by vm_compute|]); cbn [decode_action_body];
      (eapply reads_bind_last; [solve_fields|]); cbv beta;
      (eapply reads_bind_nil; [by apply reads_lift|]); apply reads_ret.
  - unfold decode_action. parse_start Hv. parse_step Hv. destruct Hr as [-> _].
    do 2 parse_step Hv. destruct Hr as (Hl & Ht & Hf), Hr0 as [-> Hval]. destruct a1.
    parse_done Hv. rewrite app_nil_r. by split_and!.
  - unfold decode_action. solve_safe.
Defined.

#[export] Instance artifact_format : WireFormat encode_artifact decode_artifact.
Proof.
  refine {| wf_enc d := to_le 8 (ad_transfer_id d) ++ enc_string (ad_name d) ++
              to_le 8 (ad_length d) ++ ad_sha256 d ++ to_le 4 (ad_chunk_size d);
            wf_typed := descriptor_typed;
            wf_fits d := validate_artifact d = Ok tt ∧ fits_string (ad_name d) |}.
  - intros d out r. unfold encode_artifact, push_u64, push_u32. rewrite check_then. cbv zeta.
    emit_steps. tauto.
  - intros [] (?&?&?&?&?) [Hv ?]. unfold decode_artifact. cbn in *. solve_fields.
    eapply reads_bind_nil; [by apply reads_lift|]. apply reads_ret.
  - unfold decode_artifact. parse_start Hv. repeat parse_step Hv. field_facts. parse_done Hv. cbn.
    destruct a4. rewrite ?app_nil_r, <- ?app_assoc. unfold descriptor_typed. cbn.
    split_and!; first [reflexivity|assumption].
  - unfold decode_artifact. solve_safe.
Defined.

#[export] Instance status_format : WireFormat encode_status decode_status.
Proof.
  refine {| wf_enc s := match s with
              | Completed => to_le 1 1
              | Retryable r => to_le 1 2 ++ enc_string r
              | Rejected r => to_le 1 3 ++ enc_string r end;
            wf_typed s := match s with Completed => True | Retryable r | Rejected r => is_utf8 r end;
            wf_fits s := match s with Completed => True | Retryable r | Rejected r => fits_string r end |}.
  - intros s out r. destruct s; cbn [encode_status]; unfold push_u8; emit_steps; tauto.
  - intros [] Ht Hf; unfold decode_status;
      [eapply reads_bind_last; [by apply reads_u8|]; apply reads_ret|
       (eapply reads_bind; [apply reads_u8; by vm_compute|]); cbv iota beta; solve_fields..].
  - unfold decode_status. parse_start Hv. parse_step Hv. destruct Hr as [-> _].
    destruct a as [|p|p]; try done. do 2 (try destruct p as [p|p|]; try done);
      repeat parse_step Hv; field_facts; parse_done Hv; rewrite ?app_nil_r, <- ?app_assoc;
      split_and!; first [reflexivity|assumption|done].
  - unfold decode_status. solve_safe.
Defined.

#[export] Instance capability_format : WireFormat encode_capability decode_capability.
Proof.
  refine {| wf_enc c := enc_string (rc_id c) ++ to_le 4 (rc_version c) ++
              to_le 1 (encode_side_effect (rc_side_effect c)) ++
              to_le 1 (if rc_verification_required c then 1 else 0) ++
              to_le 1 (if rc_rollback_supported c then 1 else 0) ++
              to_le 1 (if rc_resumable c then 1 else 0) ++ enc_strings (rc_required_scopes c);
            wf_typed c := is_utf8 (rc_id c) ∧ in_u32 (rc_version c) ∧
              Forall is_utf8 (rc_required_scopes c);
            wf_fits c := validate_remote_capability c = Ok tt ∧ fits_string (rc_id c) ∧
              fits_strings (rc_required_scopes c) |}.
  - intros c out r. unfold encode_capability, push_bool, push_u32, push_u8. rewrite check_then.
    cbv zeta. emit_steps. tauto.
  - intros [] (?&?&?) (Hv & ?&?). unfold decode_capability. cbn in *. solve_fields.
    eapply reads_bind_nil; [by apply reads_lift|]. apply reads_ret.
  - unfold decode_capability. parse_start Hv. repeat parse_step Hv. field_facts. parse_done Hv. cbn.
    rewrite ?app_nil_r, <- ?app_assoc. split_and!; first [reflexivity|assumption|by destruct a7|idtac].
  - unfold decode_capability. solve_safe.
Defined.

(** ** Requests *)
Definition core_enc (r : RemoteRequest) : bytes :=
  to_le 8 (rq_request_id r) ++ enc_string (rq_capability r) ++ to_le 4 (rq_capability_version r) ++
  wf_enc encode_action decode_action (rq_action r).
Definition core_typed (r : RemoteRequest) : Prop :=
  in_u64 (rq_request_id r) ∧ is_utf8 (rq_capability r) ∧ in_u32 (rq_capability_version r) ∧
  action_typed (rq_action r).
Definition core_fits (r : RemoteRequest) : Prop :=
  fits_string (rq_capability r) ∧ wf_fits encode_action decode_action (rq_action r).
Definition request_typed (r : RemoteRequest) : Prop :=
  core_typed r ∧ len (rq_request_digest r) = 32.

#[local] Hint Extern 1 (reads decode_action _ _) =>
  apply (format_reads encode_action decode_action) : reads.
#[local] Hint Extern 1 (parses decode_action _) =>
  apply (format_parses encode_action decode_action) : parses.
#[local] Hint Extern 1 (safe decode_action) =>
  apply (format_safe encode_action decode_action) : codec.

Lemma request_preimage_Ok r bs :
  request_preimage r = Ok bs ↔
  core_fits r ∧ bs = string_bytes "NTD97-PCF97-REQUEST" ++ core_enc r.
Proof.
  unfold request_preimage, push_u64, push_u32. cbv zeta.
  rewrite (put_then push_string read_string), (put_Ok encode_action decode_action).
  rewrite <- ?app_assoc. unfold core_fits, core_enc. tauto.
Qed.

(** The fields of a request are determined by what is hashed. *)
Definition decode_core : decoder PcFabricError (Z * string * Z * RemoteAction) :=
  dec! i <- read_u64; dec! c <- read_string; dec! v <- read_u32; dec! a <- decode_action;
  dec_ret (i, c, v, a).
Definition core_of (r : RemoteRequest) : Z * string * Z * RemoteAction :=
  (rq_request_id r, rq_capability r, rq_capability_version r, rq_action r).
Lemma core_reads r : core_typed r → core_fits r → reads decode_core (core_enc r) (core_of r).
Proof.
  destruct r. intros (?&?&?&?) (?&?). unfold decode_core, core_enc, core_of. cbn in *. solve_fields.
Qed.

(** ** Results *)
Notation status_enc := (wf_enc encode_status decode_status).
Notation output_enc := (wf_enc encode_output decode_remote_output).
Notation artifacts_enc := (wf_enc (push_list encode_artifact) (read_list decode_artifact)).

#[export] Instance remote_output_format : WireFormat encode_output decode_remote_output.
Proof. apply output_format. Defined.
#[export] Instance artifacts_format :
  WireFormat (push_list encode_artifact) (read_list decode_artifact).
Proof. apply list_format, artifact_format. Defined.
#[local] Hint Extern 1 (reads decode_status _ _) =>
  apply (format_reads encode_status decode_status) : reads.
#[local] Hint Extern 1 (parses decode_status _) =>
  apply (format_parses encode_status decode_status) : parses.
#[local] Hint Extern 1 (safe decode_status) =>
  apply (format_safe encode_status decode_status) : codec.
#[local] Hint Extern 1 (reads decode_remote_output _ _) =>
  apply (format_reads encode_output decode_remote_output) : reads.
#[local] Hint Extern 1 (parses decode_remote_output _) =>
  apply (format_parses encode_output decode_remote_output) : parses.
#[local] Hint Extern 1 (safe decode_remote_output) =>
  apply (format_safe encode_output decode_remote_output) : codec.
#[local] Hint Extern 1 (reads (read_list decode_artifact) _ _) =>
  apply (format_reads (push_list encode_artifact) (read_list decode_artifact)) : reads.
#[local] Hint Extern 1 (parses (read_list decode_artifact) _) =>
  apply (format_parses (push_list encode_artifact) (read_list decode_artifact)) : parses.
#[local] Hint Extern 1 (safe (read_list decode_artifact)) =>
  apply (format_safe (push_list encode_artifact) (read_list decode_artifact)) : codec.

Definition result_enc (r : RemoteResult) : bytes :=
  to_le 8 (rr_request_id r) ++ enc_string (rr_capability r) ++ to_le 4 (rr_capability_version r) ++
  rr_request_digest r ++ status_enc (rr_status r) ++ output_enc (rr_output r) ++
  artifacts_enc (rr_artifacts r).
Definition result_typed (r : RemoteResult) : Prop :=
  in_u64 (rr_request_id r) ∧ is_utf8 (rr_capability r) ∧ in_u32 (rr_capability_version r) ∧
  len (rr_request_digest r) = 32 ∧ wf_typed encode_status decode_status (rr_status r) ∧
  wf_typed encode_output decode_remote_output (rr_output r) ∧
  wf_typed (push_list encode_artifact) (read_list decode_artifact) (rr_artifacts r) ∧
  len (rr_result_digest r) = 32.
Definition result_fits (r : RemoteResult) : Prop :=
  fits_string (rr_capability r) ∧ wf_fits encode_status decode_status (rr_status r) ∧
  wf_fits encode_output decode_remote_output (rr_output r) ∧
  wf_fits (push_list encode_artifact) (read_list decode_artifact) (rr_artifacts r).

Lemma result_preimage_Ok r bs :
  result_preimage r = Ok bs ↔
  result_fits r ∧ bs = string_bytes "NTD97-PCF97-RESULT" ++ result_enc r.
Proof.
  unfold result_preimage, push_u64, push_u32. cbv zeta.
  rewrite (put_then push_string read_string), (put_then encode_status decode_status),
    (put_then encode_output decode_remote_output),
    (put_Ok (push_list encode_artifact) (read_list decode_artifact)).
  rewrite <- ?app_assoc. unfold result_fits, result_enc. tauto.
Qed.

(** The side conditions of [get_range_block] and [slice_block]. *)
Ltac block_side :=
  first [reflexivity | cbn [take concat]; rewrite ?len_app, ?len_nil; lia].

Section digests.
Context `{Sha2}.

(** [digest] of a preimage that has a closed form. *)
Lemma digest_Ok (m : result PcFabricError bytes) (φ : Prop) p d :
  (∀ bs, m = Ok bs ↔ φ ∧ bs = p) →
  (let? bs := m in Ok (sha2_digest bs)) = Ok d ↔ φ ∧ d = sha2_digest p.
Proof.
  intros Hm. destruct m as [bs| |]; [destruct (proj1 (Hm bs) eq_refl) as [? ->]; naive_solver|..].
  - split; [done|]. intros [Hf ->]. by pose proof (proj2 (Hm _) (conj Hf eq_refl)).
  - split; [done|]. intros [Hf ->]. by pose proof (proj2 (Hm _) (conj Hf eq_refl)).
Qed.
(** The comparison of a digest with the one carried. *)
Lemma digest_check (m : result PcFabricError bytes) (φ : Prop) p d :
  (∀ x, m = Ok x ↔ φ ∧ x = p) →
  (let? x := m in if negb (bytes_eqb x d) then Err InvalidMessage else Ok tt) = Ok tt ↔ φ ∧ d = p.
Proof.
  intros Hm. unfold bytes_eqb. destruct m as [bs| |].
  - destruct (proj1 (Hm bs) eq_refl) as [? ->]. case_bool_decide; cbn [negb]; naive_solver.
  - split; [done|]. intros [Hf ->]. by pose proof (proj2 (Hm _) (conj Hf eq_refl)).
  - split; [done|]. intros [Hf ->]. by pose proof (proj2 (Hm _) (conj Hf eq_refl)).
Qed.

Lemma digest_request_Ok r d :
  digest_request r = Ok d ↔
  core_fits r ∧ d = sha2_digest (string_bytes "NTD97-PCF97-REQUEST" ++ core_enc r).
Proof. apply digest_Ok, request_preimage_Ok. Qed.
Lemma digest_result_Ok r d :
  digest_result r = Ok d ↔
  result_fits r ∧ d = sha2_digest (string_bytes "NTD97-PCF97-RESULT" ++ result_enc r).
Proof. apply digest_Ok, result_preimage_Ok. Qed.

Lemma validate_request_Ok r :
  validate_request r = Ok tt ↔
  rq_request_id r ≠ 0 ∧ rq_capability_version r ≠ 0 ∧ is_blank (rq_capability r) = false ∧
  core_fits r ∧
  rq_request_digest r = sha2_digest (string_bytes "NTD97-PCF97-REQUEST" ++ core_enc r).
Proof.
  unfold validate_request, nonempty.
  destruct (Z.eqb_spec (rq_request_id r) 0), (Z.eqb_spec (rq_capability_version r) 0);
    cbn [orb]; [naive_solver..|].
  destruct (is_blank (rq_capability r)); [naive_solver|]. rewrite check_then.
  rewrite (digest_check _ _ _ _ (digest_request_Ok r)).
  assert (core_fits r → validate_remote_action (rq_action r) = Ok tt) by (intros [_ [? _]]; done).
  naive_solver.
Qed.
Lemma validate_request_no_panic r : no_panic (validate_request r).
Proof.
  unfold validate_request, digest_request, request_preimage, encode_action, nonempty.
  repeat np_step; auto with no_panic nocore.
Qed.

Lemma validate_result_Ok r :
  validate_result r = Ok tt ↔
  validate_fields r = Ok tt ∧ result_fits r ∧
  rr_result_digest r = sha2_digest (string_bytes "NTD97-PCF97-RESULT" ++ result_enc r).
Proof.
  unfold validate_result. by rewrite check_then, (digest_check _ _ _ _ (digest_result_Ok r)).
Qed.
Lemma validate_artifacts_no_panic l : no_panic (validate_artifacts l).
Proof.
  unfold validate_artifacts. np_step; [|done]. apply (fold_result_no_panic (λ _, True)); [done|].
  intros p d _ _. split; [|done]. unfold check_artifact. repeat np_step.
Qed.
Lemma validate_result_no_panic r : no_panic (validate_result r).
Proof.
  unfold validate_result, validate_fields, digest_result, result_preimage, nonempty.
  repeat np_step; try apply validate_artifacts_no_panic; auto with no_panic nocore.
  - destruct (rr_status r); cbn; [done|apply push_string_no_panic..].
  - apply push_list_no_panic. intros o d. unfold encode_artifact. repeat np_step.
Qed.
#[local] Hint Resolve validate_request_no_panic validate_result_no_panic : no_panic.

#[export] Instance request_format : WireFormat encode_request decode_request.
Proof.
  refine {| wf_enc r := core_enc r ++ rq_request_digest r;
            wf_typed r := request_typed r ∧ validate_request r = Ok tt; wf_fits := core_fits |}.
  - intros r out r'. unfold encode_request, push_u64, push_u32, core_enc, core_fits. cbv zeta.
    rewrite (put_then push_string read_string), (put_then encode_action decode_action). emit_steps.
    tauto.
  - intros [] [[(?&?&?&?) ?] Hv] [? ?]. unfold decode_request, core_enc. cbn in *.
    rewrite <- !app_assoc. solve_fields.
    eapply reads_bind_nil; [by apply reads_lift|]. apply reads_ret.
  - unfold decode_request. parse_start Hv. repeat parse_step Hv. field_facts. parse_done Hv.
    unfold core_enc, core_fits, request_typed, core_typed. cbn. destruct a4.
    rewrite ?app_nil_r, <- ?app_assoc. split_and!; first [reflexivity|assumption].
  - unfold decode_request. solve_safe.
Defined.

#[export] Instance result_format : WireFormat encode_result decode_result.
Proof.
  refine {| wf_enc r := result_enc r ++ rr_result_digest r;
            wf_typed r := result_typed r ∧ validate_result r = Ok tt; wf_fits := result_fits |}.
  - intros r out r'. unfold encode_result, push_u64, push_u32, result_enc, result_fits. cbv zeta.
    rewrite (put_then push_string read_string), (put_then encode_status decode_status),
      (put_then encode_output decode_remote_output),
      (put_then (push_list encode_artifact) (read_list decode_artifact)). emit_steps. tauto.
  - intros [] [(?&?&?&?&?&?&?&?) Hv] (?&?&?&?). unfold decode_result, result_enc. cbn in *.
    rewrite <- !app_assoc. solve_fields. eapply reads_bind_nil; [by apply reads_lift|]. apply reads_ret.
  - unfold decode_result. parse_start Hv. repeat parse_step Hv. field_facts. parse_done Hv.
    unfold result_enc, result_typed, result_fits. cbn.
    match goal with u : () |- _ => destruct u end.
    rewrite ?app_nil_r, <- ?app_assoc. split_and!; first [reflexivity|assumption].
  - unfold decode_result. solve_safe.
Defined.

(** ** Messages *)
Definition message_tag (m : RemoteMessage) : Z :=
  match m with
  | Capabilities _ => 1 | Request _ => 2 | Result _ => 3 | ArtifactChunkMessage _ => 4
  | ArtifactPull _ _ => 5 | CapabilityQuery => 6
  end.
Notation capabilities_enc := (wf_enc (push_list encode_capability) (read_list decode_capability)).
Definition message_enc (m : RemoteMessage) : bytes :=
  match m with
  | Capabilities l => capabilities_enc l
  | Request r => wf_enc encode_request decode_request r
  | Result r => wf_enc encode_result decode_result r
  | ArtifactChunkMessage c => to_le 8 (ac_transfer_id c) ++ to_le 8 (ac_offset c) ++ enc_bytes (ac_data c)
  | ArtifactPull id offset => to_le 8 id ++ to_le 8 offset
  | CapabilityQuery => []
  end.
(** What the types guarantee. *)
Definition message_typed (m : RemoteMessage) : Prop :=
  match m with
  | Capabilities l => wf_typed (push_list encode_capability) (read_list decode_capability) l
  | Request r => request_typed r
  | Result r => result_typed r
  | ArtifactChunkMessage c => in_u64 (ac_transfer_id c) ∧ in_u64 (ac_offset c)
  | ArtifactPull id offset => in_u64 id ∧ in_u64 offset
  | CapabilityQuery => True
  end.
(** What the encoder checks, and what the decoder checks: the decoder leaves
    out the transfer ids. *)
Definition message_checked (m : RemoteMessage) : Prop :=
  match m with
  | Capabilities l => validate_capabilities l = Ok tt ∧
      wf_fits (push_list encode_capability) (read_list decode_capability) l
  | Request r => validate_request r = Ok tt ∧ core_fits r
  | Result r => validate_result r = Ok tt ∧ result_fits r
  | ArtifactChunkMessage c => fits_bytes (ac_data c)
  | ArtifactPull _ _ | CapabilityQuery => True
  end.
Definition transfer_nonzero (m : RemoteMessage) : Prop :=
  match m with
  | ArtifactChunkMessage c => ac_transfer_id c ≠ 0
  | ArtifactPull id _ => id ≠ 0
  | _ => True
  end.

Lemma emit_tagged (w : bytes → result PcFabricError bytes) (t : Z) (fits : Prop) (l : bytes)
    (r : Z * bytes) :
  emits w fits l → (let? p := w [] in Ok (E:=PcFabricError) (t, p)) = Ok r ↔ fits ∧ r = (t, l).
Proof.
  intros Hw. pose proof (Hw []) as Hw0. cbn [app] in Hw0. destruct (w []) as [p|e|].
  - destruct (proj1 (Hw0 p) eq_refl) as [? ->]. naive_solver.
  - split; [done|]. intros [Hf _]. by pose proof (proj2 (Hw0 _) (conj Hf eq_refl)).
  - split; [done|]. intros [Hf _]. by pose proof (proj2 (Hw0 _) (conj Hf eq_refl)).
Qed.

Lemma message_payload_Ok m t p :
  message_payload m = Ok (t, p) ↔
  (transfer_nonzero m ∧ message_checked m) ∧ t = message_tag m ∧ p = message_enc m.
Proof.
  destruct m as [l|r|r|c|id offset|]; cbn [message_payload transfer_nonzero message_checked message_tag message_enc].
  - assert ((let? _ := validate_capabilities l in
             let? payload := push_list encode_capability [] l in Ok (1, payload)) = Ok (t, p) ↔
      validate_capabilities l = Ok tt ∧
      (let? payload := push_list encode_capability [] l in Ok (1, payload)) = Ok (t, p)) as ->
      by (destruct (validate_capabilities l) as [[]| |]; naive_solver).
    rewrite (emit_tagged (λ out, push_list encode_capability out l) _ _ _ _ (wf_emits l)). naive_solver.
  - assert ((let? _ := validate_request r in
             let? payload := encode_request [] r in Ok (2, payload)) = Ok (t, p) ↔
      validate_request r = Ok tt ∧
      (let? payload := encode_request [] r in Ok (2, payload)) = Ok (t, p)) as ->
      by (destruct (validate_request r) as [[]| |]; naive_solver).
    rewrite (emit_tagged (λ out, encode_request out r) _ _ _ _ (wf_emits r)).
    split; [intros (? & ? & [= -> ->])|intros ((_ & ? & ?) & -> & ->)]; done.
  - assert ((let? _ := validate_result r in
             let? payload := encode_result [] r in Ok (3, payload)) = Ok (t, p) ↔
      validate_result r = Ok tt ∧
      (let? payload := encode_result [] r in Ok (3, payload)) = Ok (t, p)) as ->
      by (destruct (validate_result r) as [[]| |]; naive_solver).
    rewrite (emit_tagged (λ out, encode_result out r) _ _ _ _ (wf_emits r)).
    split; [intros (? & ? & [= -> ->])|intros ((_ & ? & ?) & -> & ->)]; done.
  - destruct (Z.eqb_spec (ac_transfer_id c) 0); [naive_solver|].
    rewrite (emit_tagged (λ out, push_bytes (push_u64 (push_u64 out (ac_transfer_id c)) (ac_offset c)) (ac_data c))
      4 (fits_bytes (ac_data c)) (to_le 8 (ac_transfer_id c) ++ to_le 8 (ac_offset c) ++ enc_bytes (ac_data c))).
    + naive_solver.
    + intros out r. unfold push_u64. rewrite (put_Ok push_bytes read_bytes), <- !app_assoc. done.
  - destruct (Z.eqb_spec id 0); [naive_solver|]. unfold push_u64. cbn [app].
    split; [intros [= <- <-]|intros (_ & -> & ->)]; done.
  - split; [intros [= <- <-]|intros (_ & -> & ->)]; done.
Qed.

#[local] Hint Extern 1 (reads decode_request _ _) =>
  apply (format_reads encode_request decode_request) : reads.
#[local] Hint Extern 1 (reads decode_result _ _) =>
  apply (format_reads encode_result decode_result) : reads.
#[local] Hint Extern 1 (reads (read_list decode_capability) _ _) =>
  apply (format_reads (push_list encode_capability) (read_list decode_capability)) : reads.
#[local] Hint Extern 1 (parses decode_request _) =>
  apply (format_parses encode_request decode_request) : parses.
#[local] Hint Extern 1 (parses decode_result _) =>
  apply (format_parses encode_result decode_result) : parses.
#[local] Hint Extern 1 (parses (read_list decode_capability) _) =>
  apply (format_parses (push_list encode_capability) (read_list decode_capability)) : parses.

Lemma decode_body_reads m :
  message_typed m → message_checked m → reads (decode_body (message_tag m)) (message_enc m) m.
Proof.
  destruct m as [l|r|r|[]|id offset|];
    cbn [message_typed message_checked message_tag message_enc decode_body]; intros Ht Hc.
  - destruct Hc as [Hv Hf]. rewrite <- (app_nil_r (capabilities_enc l)).
    eapply reads_bind; [by apply format_reads|]. eapply reads_bind_nil; [by apply reads_lift|].
    apply reads_ret.
  - destruct Hc. eapply reads_bind_last; [by apply format_reads; [split|]|]. apply reads_ret.
  - destruct Hc. eapply reads_bind_last; [by apply format_reads; [split|]|]. apply reads_ret.
  - destruct Ht. cbn in *. solve_fields.
  - destruct Ht. solve_fields.
  - apply reads_ret.
Qed.

Lemma decode_body_parses tag : parses (decode_body tag) (λ l m,
  tag = message_tag m ∧ l = message_enc m ∧ message_typed m ∧ message_checked m).
Proof.
  parse_start Hv. destruct tag as [|p|p]; try done. do 3 (try destruct p as [p|p|]; try done);
    cbn [decode_body] in Hv; repeat parse_step Hv; field_facts; parse_done Hv;
    cbn [message_tag message_enc message_typed message_checked];
    rewrite ?app_nil_l, ?app_nil_r, <- ?app_assoc.
  all: repeat match goal with u : () |- _ => destruct u end.
  all: repeat match goal with
    | Ht : wf_typed encode_request _ _ |- _ => destruct Ht
    | Ht : wf_typed encode_result _ _ |- _ => destruct Ht
    end.
  all: split_and!; first [reflexivity|assumption|done].
Qed.

(** ** Frames *)
Definition frame_enc (minor tag : Z) (payload : bytes) : bytes :=
  PCF97_MAGIC ++ to_le 2 PCF97_MAJOR ++ to_le 2 minor ++ to_le 1 tag ++ to_le 1 0 ++
  to_le 4 (len payload) ++ payload.

Lemma encode_message_Ok m bs :
  encode_message m = Ok bs ↔
  transfer_nonzero m ∧ message_checked m ∧ len (message_enc m) < 2 ^ 32 ∧
  bs = frame_enc 1 (message_tag m) (message_enc m).
Proof.
  unfold encode_message. pose proof (message_payload_Ok m) as Hp.
  destruct (message_payload m) as [[t p]|e|].
  - destruct (proj1 (Hp t p) eq_refl) as ((Hn & Hc) & -> & ->). rewrite len_then.
    unfold checked_add_usize, checked_add_u64. change PCF97_HEADER_LEN with 16.
    destruct (Z.ltb_spec (16 + len (message_enc m)) (2 ^ 64)); cbn [ok_or]; [|split; [by intros [_ ?]|intros (_ & _ & ? & _); lia]].
    rewrite Ok_iff. unfold frame_enc, push_u8, push_u16, push_u32. cbv zeta.
    rewrite <- !app_assoc. tauto.
  - split; [done|]. intros (Hn & Hc & _). by pose proof (proj2 (Hp _ _) (conj (conj Hn Hc) (conj eq_refl eq_refl))).
  - split; [done|]. intros (Hn & Hc & _). by pose proof (proj2 (Hp _ _) (conj (conj Hn Hc) (conj eq_refl eq_refl))).
Qed.

Lemma word_at_block blocks i b a e :
  blocks !! i = Some b → a = len (concat (take i blocks)) → e = a + len b →
  word_at (concat blocks) a e = Ok (from_le b).
Proof. intros. unfold word_at. by erewrite slice_block. Qed.

(** [decode_message] on an input cut at the fields of the header. *)
Lemma decode_blocks magic major minor tag reserved size payload :
  len magic = 6 → len major = 2 → len minor = 2 → len tag = 1 → len reserved = 1 → len size = 4 →
  decode_message (magic ++ major ++ minor ++ tag ++ reserved ++ size ++ payload) =
  if negb (bool_decide (magic = PCF97_MAGIC)) then Err InvalidFrame
  else if negb (from_le major =? PCF97_MAJOR) || (PCF97_MINOR <? from_le minor)
          || negb (from_le reserved =? 0)
  then Err InvalidFrame
  else if negb (len payload =? from_le size) then Err InvalidFrame
  else run_decoder
         (dec! m <- decode_body (from_le tag); dec! _ <- expect_finished InvalidMessage; dec_ret m)
         payload.
Proof.
  intros H1 H2 H3 H4 H5 H6.
  rewrite <- (app_nil_r payload) at 1.
  change (magic ++ _) with (concat [magic; major; minor; tag; reserved; size; payload]).
  unfold decode_message. change PCF97_HEADER_LEN with 16.
  pose proof (len_nonneg payload).
  assert (len (concat [magic; major; minor; tag; reserved; size; payload]) = 16 + len payload)
    as Hlen by (cbn [concat]; rewrite !len_app, len_nil; lia).
  erewrite (get_range_block _ 0 magic), (word_at_block _ 1 major), (word_at_block _ 2 minor),
    (word_at_block _ 4 reserved), (word_at_block _ 3 tag), (word_at_block _ 5 size),
    (slice_block _ 6 payload) by block_side.
  assert (0 ≤ from_le size < 2 ^ 32) as Hsize
    by (pose proof (from_le_bound size) as Hb; rewrite H6 in Hb; exact Hb).
  unfold try_usize, try_u64, checked_add_usize, checked_add_u64.
  rewrite Hlen. destruct (Z.ltb_spec (16 + len payload) 16); [lia|]. cbn [orb].
  assert (bool_decide (Some magic = Some PCF97_MAGIC) = bool_decide (magic = PCF97_MAGIC)) as ->
    by (apply bool_decide_ext; naive_solver).
  destruct (negb (bool_decide _)); [done|]. destruct (_ || _); [done|].
  destruct (Z.ltb_spec (from_le size) (2 ^ 64)); [|lia]. cbn [ok_or].
  destruct (Z.ltb_spec (16 + from_le size) (2 ^ 64)); [|lia]. cbn [ok_or].
  assert ((16 + len payload =? 16 + from_le size) = (len payload =? from_le size)) as ->; [|done].
  destruct (Z.eqb_spec (len payload) (from_le size)) as [->|]; [apply Z.eqb_refl|].
  apply Z.eqb_neq. lia.
Qed.

Lemma decode_message_reads minor m :
  0 ≤ minor ≤ PCF97_MINOR → message_typed m → message_checked m → len (message_enc m) < 2 ^ 32 →
  decode_message (frame_enc minor (message_tag m) (message_enc m)) = Ok m.
Proof.
  intros Hm Ht Hc Hlen. unfold PCF97_MINOR in Hm. unfold frame_enc.
  pose proof (len_nonneg (message_enc m)).
  rewrite decode_blocks by (rewrite ?len_to_le; reflexivity).
  rewrite bool_decide_true by done. cbn [negb].
  rewrite (from_le_to_le 2 PCF97_MAJOR), (from_le_to_le 2 minor), (from_le_to_le 1 (message_tag m)),
    (from_le_to_le 1 0), (from_le_to_le 4 (len _)); [|lia|done|by destruct m|lia|done].
  change PCF97_MINOR with 1. rewrite !Z.eqb_refl. destruct (Z.ltb_spec 1 minor); [lia|]. cbn [negb orb].
  apply run_decoder_reads; [lia|]. rewrite <- (app_nil_r (message_enc m)).
  eapply reads_end_bind; [by apply decode_body_reads|]. apply reads_end_finished, reads_reads_end, reads_ret.
Qed.

Lemma decode_message_sound bs m :
  decode_message bs = Ok m →
  ∃ minor, 0 ≤ minor ≤ PCF97_MINOR ∧ message_typed m ∧ message_checked m ∧
    len (message_enc m) < 2 ^ 32 ∧ bs = frame_enc minor (message_tag m) (message_enc m).
Proof.
  intros Hd. destruct (Z.lt_ge_cases (len bs) 16) as [Hs|Hs].
  { unfold decode_message in Hd. change PCF97_HEADER_LEN with 16 in Hd.
    by destruct (Z.ltb_spec (len bs) 16); [|lia]. }
  assert (sum_list [6; 2; 2; 1; 1; 4]%nat ≤ length bs)%nat as Hb by (unfold len in Hs; simpl; lia).
  cut_blocks_at [6; 2; 2; 1; 1; 4]%nat Hb. cbn [concat] in Heq. rewrite app_nil_r, <- !app_assoc in Heq.
  subst bs. rewrite decode_blocks in Hd by (unfold len; lia).
  case_bool_decide as Hmagic; [|done]. subst l. cbn [negb] in Hd.
  destruct (Z.eqb_spec (from_le l0) PCF97_MAJOR) as [Hmaj|]; [|done].
  destruct (Z.ltb_spec PCF97_MINOR (from_le l1)); [done|].
  destruct (Z.eqb_spec (from_le l3) 0) as [Hres|]; [|done]. cbn [negb orb] in Hd.
  destruct (Z.eqb_spec (len rest) (from_le l4)) as [Hsize|]; [|done]. cbn [negb] in Hd.
  unfold run_decoder in Hd.
  destruct (dec_bind _ _ (cursor_new rest)) as [[v c]| |] eqn:Hv; [|done..].
  injection Hd as ->. change (cursor_new rest) with (at_ ([] ++ []) rest) in Hv.
  eapply parses_step in Hv; [|apply decode_body_parses].
  destruct Hv as (l' & post & a & -> & (Htag & -> & Ht & Hc) & Hv).
  apply step_finished in Hv as [-> Hv]. apply parses_step_ret in Hv as [-> _].
  pose proof (from_le_bound l1). pose proof (from_le_bound l4). rewrite app_nil_r in *.
  exists (from_le l1). unfold frame_enc.
  assert (len l4 = 4) as Hl4 by (unfold len; lia). rewrite Hl4 in *.
  split_and!; try done; try lia. rewrite Hsize, <- Htag, <- Hmaj, <- Hres.
  by rewrite !to_le_from_le by lia.
Qed.

(** ** Requests and their results *)
Lemma request_new_Ok id capability version action q :
  RemoteRequest_new id capability version action = Ok q ↔
  id ≠ 0 ∧ version ≠ 0 ∧ is_blank capability = false ∧ core_fits q ∧
  q = mkRequest id capability version action (rq_request_digest q) ∧
  rq_request_digest q = sha2_digest (string_bytes "NTD97-PCF97-REQUEST" ++ core_enc q).
Proof.
  unfold RemoteRequest_new, nonempty.
  destruct (Z.eqb_spec id 0), (Z.eqb_spec version 0); cbn [orb]; [naive_solver..|].
  destruct (is_blank capability); [naive_solver|]. rewrite check_then.
  set (q0 := mkRequest id capability version action (zeros 32)).
  pose proof (digest_request_Ok q0) as Hd.
  assert (∀ d, core_fits (mkRequest id capability version action d) ↔ core_fits q0) as Hf by done.
  assert (core_fits q0 → validate_remote_action action = Ok tt) as Ha by (intros [_ [? _]]; done).
  destruct (digest_request q0) as [d| |].
  - destruct (proj1 (Hd d) eq_refl) as [? ->]. split.
    + intros [? [= <-]]. by split_and!.
    + intros (_ & _ & _ & Hq & Heq & Hdig). split; [by apply Ha|]. rewrite Heq. f_equal. f_equal.
      rewrite Hdig. by rewrite Heq.
  - split; [naive_solver|]. intros (_ & _ & _ & Hq & Heq & _). rewrite Heq in Hq.
    by pose proof (proj2 (Hd _) (conj Hq eq_refl)).
  - split; [naive_solver|]. intros (_ & _ & _ & Hq & Heq & _). rewrite Heq in Hq.
    by pose proof (proj2 (Hd _) (conj Hq eq_refl)).
Qed.

Lemma request_new_validates id capability version action q :
  RemoteRequest_new id capability version action = Ok q → validate_request q = Ok tt.
Proof.
  intros (Hi & Hv & Hc & Hf & Hq & Hd)%request_new_Ok. apply validate_request_Ok.
  rewrite Hq at 1 2 3. by split_and!.
Qed.

Lemma verify_against_Ok r q :
  verify_against r q = Ok tt ↔
  validate_request q = Ok tt ∧ validate_result r = Ok tt ∧
  rr_request_id r = rq_request_id q ∧ rr_capability r = rq_capability q ∧
  rr_capability_version r = rq_capability_version q ∧ rr_request_digest r = rq_request_digest q.
Proof.
  unfold verify_against. rewrite !check_then. unfold bytes_eqb.
  destruct (Z.eqb_spec (rr_request_id r) (rq_request_id q)); cbn [negb orb]; [|naive_solver].
  case_bool_decide; cbn [negb orb]; [|naive_solver].
  destruct (Z.eqb_spec (rr_capability_version r) (rq_capability_version q)); cbn [negb orb];
    [|naive_solver].
  case_bool_decide; cbn [negb]; naive_solver.
Qed.

(** Two requests whose preimages differ and have the same digest. *)
Definition preimages_collide (q1 q2 : RemoteRequest) : Prop :=
  q1 ≠ q2 ∧ ∃ x y, request_preimage q1 = Ok x ∧ request_preimage q2 = Ok y ∧ x ≠ y ∧ sha2_digest x = sha2_digest y.
(** The digest binds the request. *)
Lemma request_digest_binds q1 q2 :
  request_typed q1 → request_typed q2 → len (core_enc q1) < 2 ^ 64 →
  validate_request q1 = Ok tt → validate_request q2 = Ok tt →
  rq_request_digest q1 = rq_request_digest q2 →
  q1 = q2 ∨ preimages_collide q1 q2.
Proof.
  intros [T1 _] [T2 _] Hlen (_ & _ & _ & F1 & E1)%validate_request_Ok
    (_ & _ & _ & F2 & E2)%validate_request_Ok Hd.
  destruct (decide (core_enc q1 = core_enc q2)) as [Heq|Hne].
  - left. pose proof (core_reads q1 T1 F1) as R1. pose proof (core_reads q2 T2 F2) as R2.
    rewrite <- Heq in R2. pose proof (reads_inj _ _ _ _ R1 R2 Hlen) as [= ].
    destruct q1, q2; cbn in *. congruence.
  - right. split; [by intros ->|]. eexists _, _.
    split_and!; [by apply request_preimage_Ok|by apply request_preimage_Ok| |by rewrite <- E1, <- E2].
    intros Hx. by apply app_inv_head in Hx.
Qed.

Lemma normalize_artifacts_Ok l l' :
  normalize_artifacts l = Ok l' ↔ l' = merge_sort transfer_le l ∧ validate_artifacts l' = Ok tt.
Proof.
  unfold normalize_artifacts. cbv zeta.
  destruct (validate_artifacts (merge_sort transfer_le l)) as [[]| |] eqn:Hv.
  - split; [by intros [= <-]|by intros [-> _]].
  - split; [done|]. intros [-> ?]. congruence.
  - split; [done|]. intros [-> ?]. congruence.
Qed.

(** A result made for a request verifies against it. *)
Lemma result_new_Ok q status output artifacts r :
  RemoteResult_new q status output artifacts = Ok r →
  verify_against r q = Ok tt ∧ rr_status r = status ∧ rr_output r = output ∧
  rr_artifacts r = merge_sort transfer_le artifacts.
Proof.
  unfold RemoteResult_new. destruct (validate_request q) as [[]| |] eqn:Hq; [|done..].
  destruct (normalize_artifacts artifacts) as [l| |] eqn:Hl; [|done..].
  apply normalize_artifacts_Ok in Hl as [-> Hl].
  destruct (validate_fields _) as [[]| |] eqn:Hf; [|done..].
  destruct (digest_result _) as [d| |] eqn:Hd; [|done..]. intros [= <-]. cbn.
  apply digest_result_Ok in Hd as [Hfit ->]. split; [|done]. apply verify_against_Ok.
  split_and!; try done. apply validate_result_Ok. by split_and!.
Qed.
End digests.

(** ** Properties *)

(** C15: Whatever encode_message produces for a typed message, decode_message reads back
    as the same message. *)
Theorem message_round_trip `{Sha2} m bs :
  message_typed m → encode_message m = Ok bs → decode_message bs = Ok m.
Proof.
  intros Ht (_ & Hc & Hlen & ->)%encode_message_Ok. by apply decode_message_reads.
Qed.

(** Bytes that decode to a message are the one frame of that typed message, up to the
    minor version; the encoder gives that frame back under its own version, except for a
    pull or a chunk of transfer 0, which it refuses. *)
Theorem message_decode_canonical `{Sha2} bs m :
  decode_message bs = Ok m →
  message_typed m ∧
  ∃ minor, 0 ≤ minor ≤ PCF97_MINOR ∧
    bs = frame_enc minor (message_tag m) (message_enc m) ∧
    (transfer_nonzero m → encode_message m = Ok (frame_enc PCF97_MINOR (message_tag m) (message_enc m))) ∧
    (¬ transfer_nonzero m → encode_message m = Err InvalidArtifact).
Proof.
  intros (minor & Hm & Ht & Hc & Hlen & ->)%decode_message_sound.
  split; [done|]. exists minor. split_and!; [apply Hm..|done| |].
  - intros Hn. by apply encode_message_Ok.
  - unfold encode_message. destruct m; cbn; try tauto.
    + intros ?%dec_stable. by destruct (Z.eqb_spec (ac_transfer_id c) 0).
    + intros ?%dec_stable. by destruct (Z.eqb_spec transfer_id 0).
Qed.

(** A result verifies against one typed request only, unless the preimages of the two
    requests exhibit a digest collision. *)
Theorem verify_binds_request `{Sha2} r q1 q2 :
  request_typed q1 → request_typed q2 → len (core_enc q1) < 2 ^ 64 →
  verify_against r q1 = Ok tt → verify_against r q2 = Ok tt →
  q1 = q2 ∨ preimages_collide q1 q2.
Proof.
  intros T1 T2 Hlen (V1 & _ & _ & _ & _ & D1)%verify_against_Ok
    (V2 & _ & _ & _ & _ & D2)%verify_against_Ok.
  apply request_digest_binds; [done..|]. by rewrite <- D1, <- D2.
Qed.

(** ** Concrete instances *)
#[local] Existing Instance sha2_sample.
Definition sample_action : RemoteAction := RExecute "cargo" ["test"; "--workspace"]%string (Some "/w"%string).
Definition sample_request : RemoteRequest :=
  match RemoteRequest_new 7 "pc.execute" 1 sample_action with
  | Ok q => q
  | _ => mkRequest 0 "" 0 sample_action []
  end.
Definition sample_result : RemoteResult :=
  match result_completed sample_request (mkOutput "build passed" (VText "ok") ["exit=0"]%string) [] with
  | Ok r => r
  | _ => mkResult 0 "" 0 [] Completed (mkOutput "" VNone []) [] []
  end.
Lemma sample_request_new : RemoteRequest_new 7 "pc.execute" 1 sample_action = Ok sample_request.
Proof. vm_compute. reflexivity. Qed.
Lemma sample_request_typed : request_typed sample_request.
Proof. vm_compute. by repeat (first [apply Forall_cons_2 | apply Forall_nil_2 | split]). Qed.
Lemma sample_verifies : verify_against sample_result sample_request = Ok tt.
Proof. vm_compute. reflexivity. Qed.

Lemma message_round_trip_witness :
  ∃ bs, encode_message (Request sample_request) = Ok bs ∧
        decode_message bs = Ok (Request sample_request).
Proof.
  destruct (encode_message (Request sample_request)) as [bs|e|] eqn:He;
    [|vm_compute in He; discriminate..].
  exists bs. split; [done|].
  exact (message_round_trip (Request sample_request) bs sample_request_typed He).
Defined.

Lemma message_decode_canonical_witness :
  ∃ bs, decode_message bs = Ok (ArtifactPull 0 5) ∧
        encode_message (ArtifactPull 0 5) = Err InvalidArtifact.
Proof.
  set (bs := frame_enc 0 5 (to_le 8 0 ++ to_le 8 5)).
  assert (decode_message bs = Ok (ArtifactPull 0 5)) as Hd by (vm_compute; reflexivity).
  exists bs. split; [exact Hd|].
  destruct (message_decode_canonical bs _ Hd) as (_ & minor & _ & _ & _ & He).
  apply He. cbn. lia.
Defined.

Lemma verify_binds_request_witness :
  verify_against sample_result sample_request = Ok tt ∧
  (sample_request = sample_request ∨ preimages_collide sample_request sample_request).
Proof.
  split; [exact sample_verifies|].
  exact (verify_binds_request sample_result sample_request sample_request sample_request_typed
           sample_request_typed ltac:(vm_compute; reflexivity) sample_verifies sample_verifies).
Defined.

(** The decoder accepts a pull of transfer 0, which the encoder refuses. *)
Lemma zero_pull_decodes :
  ∃ bs, decode_message bs = Ok (ArtifactPull 0 0) ∧
        encode_message (ArtifactPull 0 0) = Err InvalidArtifact.
Proof.
  exists (frame_enc 1 5 (to_le 8 0 ++ to_le 8 0)). split; vm_compute; reflexivity.
Qed.
End WireTheorems.
