(* ===== verification/PcSession.v ===== *)
(** Pairing, handshake and encrypted sessions:
    src/crates/ntd-pc-fabric/src/crypto.rs, and the handshake frames of
    connector.rs.

    Signatures, key agreement, key derivation and the cipher are those of
    third-party crates and are parameters ([PcCrypto]); [PcCryptoLaws] names the
    documented behaviour the theorems use. *)
From S2P Require Import Prelude Text Collections Codec Effects Hash Artifact Wire.

(** ed25519-dalek, x25519-dalek, hkdf and chacha20poly1305. *)
Class PcCrypto := {
  (** [SigningKey::from_bytes(seed).verifying_key()] *)
  ed25519_verify_key : bytes → bytes;
  (** [SigningKey::from_bytes(seed).sign(message)] *)
  ed25519_sign : bytes → bytes → bytes;
  (** [VerifyingKey::from_bytes(key).is_ok()] *)
  ed25519_key_ok : bytes → bool;
  (** [key.verify(message, signature).is_ok()] *)
  ed25519_verify : bytes → bytes → bytes → bool;
  (** [PublicKey::from(&StaticSecret::from(secret))] *)
  x25519_public : bytes → bytes;
  (** [secret.diffie_hellman(public)] *)
  x25519_shared : bytes → bytes → bytes;
  (** [Hkdf::<Sha256>::new(Some(salt), ikm).expand(info, [u8; 64])] *)
  hkdf_expand64 : bytes → bytes → bytes → option bytes;
  (** [ChaCha20Poly1305::new(key).encrypt(nonce, {msg, aad})] *)
  aead_encrypt : bytes → bytes → bytes → bytes → option bytes;
  aead_decrypt : bytes → bytes → bytes → bytes → option bytes;
}.

Class PcCryptoLaws `{PcCrypto} := {
  sign_verifies : ∀ seed m,
    ed25519_key_ok (ed25519_verify_key seed) = true ∧
    ed25519_verify (ed25519_verify_key seed) m (ed25519_sign seed m) = true;
  shared_agrees : ∀ a b, x25519_shared a (x25519_public b) = x25519_shared b (x25519_public a);
  hkdf_expands : ∀ salt ikm info, is_Some (hkdf_expand64 salt ikm info);
  (** A message of less than 2^31 bytes is encrypted, with a tag of 16 bytes. *)
  aead_encrypts : ∀ key nonce aad m, len m < 2 ^ 31 →
    ∃ c, aead_encrypt key nonce aad m = Some c ∧ len c = len m + 16;
  aead_decrypts : ∀ key nonce aad m c,
    aead_encrypt key nonce aad m = Some c → aead_decrypt key nonce aad c = Some m;
}.

Module PcSession.
Import Artifact Wire.

Section session.
Context `{Sha2, PcCrypto}.

Definition HANDSHAKE_DOMAIN : bytes := string_bytes "NTD97-PCF97-HANDSHAKE-v1".
Definition SESSION_KDF_INFO : bytes := string_bytes "NTD97-PCF97-SESSION-v1".
Definition SESSION_FRAME_MAGIC : bytes := string_bytes "PCS97" ++ [zero_byte].
Definition SESSION_FRAME_MAJOR : Z := 0.
Definition SESSION_FRAME_MINOR : Z := 1.
Definition SESSION_HEADER_LEN : Z := 38.

(** ** Identities *)
Record PairedIdentity := mkIdentity {
  id_signing_seed : bytes;
  id_peer_id : bytes;
  id_verify_key : bytes;
}.
Record PairingRecord := mkPairing {
  pr_remote_peer_id : bytes;
  pr_remote_verify_key : bytes;
}.

Definition peer_id_for_verify_key (verify_key : bytes) : bytes :=
  take 16 (sha2_digest (string_bytes "NTD97-PCF97-PEER" ++ verify_key)).

Definition identity_from_seed (signing_seed : bytes) : PairedIdentity :=
  let verify_key := ed25519_verify_key signing_seed in
  mkIdentity signing_seed (peer_id_for_verify_key verify_key) verify_key.
Definition pairing_record (self : PairedIdentity) : PairingRecord :=
  mkPairing (id_peer_id self) (id_verify_key self).
Definition identity_sign (self : PairedIdentity) (bs : bytes) : bytes :=
  ed25519_sign (id_signing_seed self) bs.

Definition from_public (remote_peer_id remote_verify_key : bytes)
  : result PcFabricError PairingRecord :=
  if negb (bytes_eqb (peer_id_for_verify_key remote_verify_key) remote_peer_id)
  then Err InvalidPairing
  else if negb (ed25519_key_ok remote_verify_key) then Err InvalidPairing
  else Ok (mkPairing remote_peer_id remote_verify_key).

Definition pairing_verify (self : PairingRecord) (bs signature : bytes)
  : result PcFabricError unit :=
  if negb (ed25519_key_ok (pr_remote_verify_key self)) then Err InvalidPairing
  else if ed25519_verify (pr_remote_verify_key self) bs signature then Ok tt
  else Err InvalidSignature.

Definition derive32 (label seed : bytes) : bytes := sha2_digest (HANDSHAKE_DOMAIN ++ label ++ seed).
Definition x25519_secret (entropy : bytes) : bytes := derive32 (string_bytes "x25519") entropy.
Definition entropy_challenge (entropy : bytes) : bytes := derive32 (string_bytes "challenge") entropy.

(** ** Hellos *)
Record ClientHello := mkClientHello {
  ch_client_peer_id : bytes;
  ch_expected_server_peer_id : bytes;
  ch_session_id : bytes;
  ch_ephemeral_public : bytes;
  ch_challenge : bytes;
  ch_signature : bytes;
}.
Record ServerHello := mkServerHello {
  sh_server_peer_id : bytes;
  sh_expected_client_peer_id : bytes;
  sh_session_id : bytes;
  sh_ephemeral_public : bytes;
  sh_challenge : bytes;
  sh_client_hello_digest : bytes;
  sh_signature : bytes;
}.

Definition client_signing_bytes (h : ClientHello) : bytes :=
  HANDSHAKE_DOMAIN ++ string_bytes "client" ++ ch_client_peer_id h ++
  ch_expected_server_peer_id h ++ ch_session_id h ++ ch_ephemeral_public h ++ ch_challenge h.
Definition server_signing_bytes (h : ServerHello) : bytes :=
  HANDSHAKE_DOMAIN ++ string_bytes "server" ++ sh_server_peer_id h ++
  sh_expected_client_peer_id h ++ sh_session_id h ++ sh_ephemeral_public h ++ sh_challenge h ++
  sh_client_hello_digest h.
Definition client_wire_bytes (h : ClientHello) : bytes := client_signing_bytes h ++ ch_signature h.
Definition server_wire_bytes (h : ServerHello) : bytes := server_signing_bytes h ++ sh_signature h.

Definition session_id_of (client_peer_id server_peer_id ephemeral_public challenge : bytes) : bytes :=
  take 16 (sha2_digest (string_bytes "NTD97-PCF97-SESSION-ID" ++ client_peer_id ++ server_peer_id ++
                        ephemeral_public ++ challenge)).

Inductive SessionRole := Client | Server.

Record SecureSession := mkSession {
  ss_session_id : bytes;
  ss_tx_key : bytes;
  ss_rx_key : bytes;
  ss_tx_sequence : Z;
  ss_rx_sequence : Z;
}.

Definition validate_identity_pair (local : PairedIdentity) (remote : PairingRecord)
  : result PcFabricError unit :=
  if negb (bytes_eqb (peer_id_for_verify_key (id_verify_key local)) (id_peer_id local))
  then Err InvalidIdentity
  else if negb (bytes_eqb (peer_id_for_verify_key (pr_remote_verify_key remote))
                          (pr_remote_peer_id remote))
  then Err InvalidPairing
  else if bytes_eqb (id_peer_id local) (pr_remote_peer_id remote) then Err InvalidPairing
  else Ok tt.

Definition derive_session (role : SessionRole) (session_id shared_secret : bytes)
    (client : ClientHello) (server : ServerHello) : result PcFabricError SecureSession :=
  let transcript := client_wire_bytes client ++ server_wire_bytes server in
  let salt := sha2_digest transcript in
  let? material := ok_or (hkdf_expand64 salt shared_secret SESSION_KDF_INFO) CryptoFailure in
  let first := take 32 material in
  let second := drop 32 material in
  let '(tx_key, rx_key) :=
    match role with Client => (first, second) | Server => (second, first) end in
  Ok (mkSession session_id tx_key rx_key 0 0).

(** ** The handshake *)
Record ClientHandshake := mkHandshake {
  hs_local : PairedIdentity;
  hs_remote : PairingRecord;
  hs_entropy : bytes;
  hs_hello : ClientHello;
}.

Definition handshake_begin (local : PairedIdentity) (remote : PairingRecord) (entropy : bytes)
  : result PcFabricError (ClientHandshake * ClientHello) :=
  let? _ := validate_identity_pair local remote in
  let secret := x25519_secret entropy in
  let ephemeral_public := x25519_public secret in
  let challenge := entropy_challenge entropy in
  let session_id := session_id_of (id_peer_id local) (pr_remote_peer_id remote) ephemeral_public
                      challenge in
  let hello := mkClientHello (id_peer_id local) (pr_remote_peer_id remote) session_id
                 ephemeral_public challenge (zeros 64) in
  let hello := mkClientHello (id_peer_id local) (pr_remote_peer_id remote) session_id
                 ephemeral_public challenge (identity_sign local (client_signing_bytes hello)) in
  Ok (mkHandshake local remote entropy hello, hello).

Definition handshake_finish (self : ClientHandshake) (server : ServerHello)
  : result PcFabricError SecureSession :=
  if negb (bytes_eqb (sh_server_peer_id server) (pr_remote_peer_id (hs_remote self)))
     || negb (bytes_eqb (sh_expected_client_peer_id server) (id_peer_id (hs_local self)))
     || negb (bytes_eqb (sh_session_id server) (ch_session_id (hs_hello self)))
     || negb (bytes_eqb (sh_client_hello_digest server)
                        (sha2_digest (client_wire_bytes (hs_hello self))))
  then Err InvalidHandshake
  else
    let? _ := pairing_verify (hs_remote self) (server_signing_bytes server) (sh_signature server) in
    let secret := x25519_secret (hs_entropy self) in
    let shared := x25519_shared secret (sh_ephemeral_public server) in
    derive_session Client (ch_session_id (hs_hello self)) shared (hs_hello self) server.

Definition handshake_accept (local : PairedIdentity) (remote : PairingRecord) (entropy : bytes)
    (client : ClientHello) : result PcFabricError (ServerHello * SecureSession) :=
  let? _ := validate_identity_pair local remote in
  if negb (bytes_eqb (ch_client_peer_id client) (pr_remote_peer_id remote))
     || negb (bytes_eqb (ch_expected_server_peer_id client) (id_peer_id local))
  then Err PeerMismatch
  else
    let? _ := pairing_verify remote (client_signing_bytes client) (ch_signature client) in
    let expected_session_id :=
      session_id_of (ch_client_peer_id client) (ch_expected_server_peer_id client)
        (ch_ephemeral_public client) (ch_challenge client) in
    if negb (bytes_eqb (ch_session_id client) expected_session_id) then Err InvalidHandshake
    else
      let secret := x25519_secret entropy in
      let ephemeral_public := x25519_public secret in
      let challenge := entropy_challenge entropy in
      let hello := mkServerHello (id_peer_id local) (pr_remote_peer_id remote)
                     (ch_session_id client) ephemeral_public challenge
                     (sha2_digest (client_wire_bytes client)) (zeros 64) in
      let hello := mkServerHello (id_peer_id local) (pr_remote_peer_id remote)
                     (ch_session_id client) ephemeral_public challenge
                     (sha2_digest (client_wire_bytes client))
                     (identity_sign local (server_signing_bytes hello)) in
      let shared := x25519_shared secret (ch_ephemeral_public client) in
      let? session := derive_session Server (ch_session_id client) shared client hello in
      Ok (hello, session).

(** ** Sealing and opening *)
Definition session_nonce (sequence : Z) : bytes := string_bytes "N97S" ++ to_le 8 sequence.

(** The header without its last field, which is the associated data. *)
Definition frame_prefix (session_id : bytes) (sequence : Z) : bytes :=
  SESSION_FRAME_MAGIC ++ to_le 2 SESSION_FRAME_MAJOR ++ to_le 2 SESSION_FRAME_MINOR ++
  session_id ++ to_le 8 sequence.

Definition set_tx (n : Z) (s : SecureSession) : SecureSession :=
  mkSession (ss_session_id s) (ss_tx_key s) (ss_rx_key s) n (ss_rx_sequence s).
Definition set_rx (n : Z) (s : SecureSession) : SecureSession :=
  mkSession (ss_session_id s) (ss_tx_key s) (ss_rx_key s) (ss_tx_sequence s) n.

Definition seal (plaintext : bytes) : op SecureSession PcFabricError bytes := λ s,
  let sequence := ss_tx_sequence s in
  match checked_add_u64 sequence 1 with
  | None => (s, Err Overflow)
  | Some next_sequence =>
      let nonce := session_nonce sequence in
      let header := frame_prefix (ss_session_id s) sequence in
      match aead_encrypt (ss_tx_key s) nonce header plaintext with
      | None => (s, Err CryptoFailure)
      | Some ciphertext =>
          match try_u32 (len ciphertext) with
          | None => (s, Err Overflow)
          | Some ciphertext_len =>
              (set_tx next_sequence s, Ok (header ++ to_le 4 ciphertext_len ++ ciphertext))
          end
      end
  end.

(** The checks of [open] before decryption: the ciphertext. *)
Definition open_checks (s : SecureSession) (frame : bytes) : result PcFabricError bytes :=
  if (len frame <? SESSION_HEADER_LEN)
     || negb (bool_decide (get_range frame 0 6 = Some SESSION_FRAME_MAGIC))
  then Err InvalidFrame
  else
    let? major := word_at frame 6 8 in
    let? minor := word_at frame 8 10 in
    if negb (major =? SESSION_FRAME_MAJOR) || (SESSION_FRAME_MINOR <? minor) then Err InvalidFrame
    else
      let? session_id := slice frame 10 26 in
      if negb (bytes_eqb session_id (ss_session_id s)) then Err PeerMismatch
      else
        let? sequence := word_at frame 26 34 in
        if negb (sequence =? ss_rx_sequence s)
        then Err (Replay (ss_rx_sequence s) sequence)
        else
          let? raw_len := word_at frame 34 38 in
          let? ciphertext_len := ok_or (try_usize raw_len) Overflow in
          let? expected := ok_or (checked_add_usize SESSION_HEADER_LEN ciphertext_len) Overflow in
          if negb (len frame =? expected) then Err InvalidFrame
          else slice frame SESSION_HEADER_LEN (len frame).

Definition open (frame : bytes) : op SecureSession PcFabricError bytes := λ s,
  match open_checks s frame with
  | Ok ciphertext =>
      let nonce := session_nonce (ss_rx_sequence s) in
      match slice (E:=PcFabricError) frame 0 (SESSION_HEADER_LEN - 4) with
      | Ok aad =>
          match aead_decrypt (ss_rx_key s) nonce aad ciphertext with
          | None => (s, Err CryptoFailure)
          | Some plaintext =>
              match checked_add_u64 (ss_rx_sequence s) 1 with
              | None => (s, Err Overflow)
              | Some n => (set_rx n s, Ok plaintext)
              end
          end
      | Err e => (s, Err e)
      | Panic => (s, Panic)
      end
  | Err e => (s, Err e)
  | Panic => (s, Panic)
  end.
End session.
End PcSession.
