(* ===== verification/PcSessionTheorems.v ===== *)
(** The handshake gives both sides the same session, and the session delivers
    each frame once, in order. *)
From S2P Require Import Prelude Text Collections Codec WireFormat Effects Hash Artifact Wire WireTheorems PcSession.

Module PcSessionTheorems.
Import Artifact Wire WireTheorems PcSession.

Section session.
Context `{Sha2, PcCrypto}.

(** ** Sessions *)
Record session_wf (s : SecureSession) : Prop := {
  se_id : len (ss_session_id s) = 16;
  se_tx : in_u64 (ss_tx_sequence s);
  se_rx : in_u64 (ss_rx_sequence s);
}.

(** The two ends of a channel. *)
Record mirrored (a b : SecureSession) : Prop := {
  mi_id : ss_session_id a = ss_session_id b;
  mi_tx_key : ss_tx_key a = ss_rx_key b;
  mi_rx_key : ss_rx_key a = ss_tx_key b;
  mi_tx : ss_tx_sequence a = ss_rx_sequence b;
  mi_rx : ss_rx_sequence a = ss_tx_sequence b;
}.
Lemma mirrored_sym a b : mirrored a b → mirrored b a.
Proof. by intros []. Qed.

Lemma seal_spec m s :
  match seal m s with
  | (s', Ok f) => ∃ c, aead_encrypt (ss_tx_key s) (session_nonce (ss_tx_sequence s))
        (frame_prefix (ss_session_id s) (ss_tx_sequence s)) m = Some c ∧
      len c < 2 ^ 32 ∧ ss_tx_sequence s + 1 < 2 ^ 64 ∧ s' = set_tx (ss_tx_sequence s + 1) s ∧
      f = frame_prefix (ss_session_id s) (ss_tx_sequence s) ++ to_le 4 (len c) ++ c
  | (s', _) => s' = s
  end.
Proof.
  unfold seal, checked_add_u64, try_u32. destruct (Z.ltb_spec (ss_tx_sequence s + 1) (2 ^ 64)); [|done].
  destruct (aead_encrypt _ _ _ _) as [c|]; [|done].
  destruct (Z.ltb_spec (len c) (2 ^ 32)); [|done]. by exists c.
Qed.

Lemma len_frame_prefix id n : len id = 16 → len (frame_prefix id n) = 34.
Proof. intros Hid. unfold frame_prefix. rewrite !len_app, !len_to_le, Hid. reflexivity. Qed.

(** [open_checks] on an input cut at the fields of the header. *)
Lemma open_blocks s magic major minor id sequence size c :
  len magic = 6 → len major = 2 → len minor = 2 → len id = 16 → len sequence = 8 → len size = 4 →
  open_checks s (magic ++ major ++ minor ++ id ++ sequence ++ size ++ c) =
  if negb (bool_decide (magic = SESSION_FRAME_MAGIC)) then Err InvalidFrame
  else if negb (from_le major =? SESSION_FRAME_MAJOR) || (SESSION_FRAME_MINOR <? from_le minor)
  then Err InvalidFrame
  else if negb (bytes_eqb id (ss_session_id s)) then Err PeerMismatch
  else if negb (from_le sequence =? ss_rx_sequence s)
  then Err (Replay (ss_rx_sequence s) (from_le sequence))
  else if negb (len c =? from_le size) then Err InvalidFrame
  else Ok c.
Proof.
  intros H1 H2 H3 H4 H5 H6.
  rewrite <- (app_nil_r c) at 1.
  change (magic ++ _) with (concat [magic; major; minor; id; sequence; size; c]).
  unfold open_checks. change SESSION_HEADER_LEN with 38.
  pose proof (len_nonneg c).
  assert (len (concat [magic; major; minor; id; sequence; size; c]) = 38 + len c)
    as Hlen by (cbn [concat]; rewrite !len_app, len_nil; lia).
  erewrite (get_range_block _ 0 magic), (word_at_block _ 1 major), (word_at_block _ 2 minor),
    (slice_block _ 3 id), (word_at_block _ 4 sequence), (word_at_block _ 5 size),
    (slice_block _ 6 c) by block_side.
  assert (0 ≤ from_le size < 2 ^ 32) as Hsize
    by (pose proof (from_le_bound size) as Hb; rewrite H6 in Hb; exact Hb).
  unfold try_usize, try_u64, checked_add_usize, checked_add_u64.
  rewrite Hlen. destruct (Z.ltb_spec (38 + len c) 38); [lia|]. cbn [orb].
  assert (bool_decide (Some magic = Some SESSION_FRAME_MAGIC) =
          bool_decide (magic = SESSION_FRAME_MAGIC)) as ->
    by (apply bool_decide_ext; naive_solver).
  destruct (negb (bool_decide _)); [done|]. destruct (_ || _); [done|].
  destruct (negb (bytes_eqb _ _)); [done|]. destruct (negb (_ =? ss_rx_sequence s)); [done|].
  destruct (Z.ltb_spec (from_le size) (2 ^ 64)); [|lia]. cbn [ok_or].
  destruct (Z.ltb_spec (38 + from_le size) (2 ^ 64)); [|lia]. cbn [ok_or].
  assert ((38 + len c =? 38 + from_le size) = (len c =? from_le size)) as ->; [|done].
  destruct (Z.eqb_spec (len c) (from_le size)) as [->|]; [apply Z.eqb_refl|].
  apply Z.eqb_neq. lia.
Qed.

(** A frame for a session: its sequence number and its ciphertext. *)
Definition frame_of (id : bytes) (minor sequence : Z) (c : bytes) : bytes :=
  SESSION_FRAME_MAGIC ++ to_le 2 SESSION_FRAME_MAJOR ++ to_le 2 minor ++ id ++ to_le 8 sequence ++
  to_le 4 (len c) ++ c.

Lemma open_checks_frame s id minor sequence c :
  len id = 16 → 0 ≤ minor ≤ 1 → in_u64 sequence → len c < 2 ^ 32 →
  open_checks s (frame_of id minor sequence c) =
  if negb (bytes_eqb id (ss_session_id s)) then Err PeerMismatch
  else if negb (sequence =? ss_rx_sequence s) then Err (Replay (ss_rx_sequence s) sequence)
  else Ok c.
Proof.
  intros Hid Hm Hs Hc. unfold frame_of. pose proof (len_nonneg c). unfold in_u64 in Hs.
  rewrite open_blocks by (rewrite ?len_to_le; done).
  rewrite bool_decide_true by done. cbn [negb].
  rewrite (from_le_to_le 2 SESSION_FRAME_MAJOR), (from_le_to_le 2 minor), (from_le_to_le 8 sequence),
    (from_le_to_le 4 (len c)); [|lia|lia|lia|done].
  unfold SESSION_FRAME_MINOR. rewrite !Z.eqb_refl. destruct (Z.ltb_spec 1 minor); [lia|].
  cbn [negb orb]. done.
Qed.

Lemma open_checks_sound s f c :
  open_checks s f = Ok c →
  ∃ minor, 0 ≤ minor ≤ 1 ∧ len c < 2 ^ 32 ∧ in_u64 (ss_rx_sequence s) ∧ len (ss_session_id s) = 16 ∧
    f = frame_of (ss_session_id s) minor (ss_rx_sequence s) c.
Proof.
  intros Hd. destruct (Z.lt_ge_cases (len f) 38) as [Hs|Hs].
  { unfold open_checks in Hd. change SESSION_HEADER_LEN with 38 in Hd.
    by destruct (Z.ltb_spec (len f) 38); [|lia]. }
  assert (sum_list [6; 2; 2; 16; 8; 4]%nat ≤ length f)%nat as Hb by (unfold len in Hs; simpl; lia).
  cut_blocks_at [6; 2; 2; 16; 8; 4]%nat Hb. cbn [concat] in Heq. rewrite app_nil_r, <- !app_assoc in Heq.
  subst f. rewrite open_blocks in Hd by (unfold len; lia).
  case_bool_decide as Hmagic; [|done]. subst l. cbn [negb] in Hd.
  destruct (Z.eqb_spec (from_le l0) SESSION_FRAME_MAJOR) as [Hmaj|]; [|done].
  destruct (Z.ltb_spec SESSION_FRAME_MINOR (from_le l1)) as [|Hmin]; [done|]. cbn [negb orb] in Hd.
  unfold bytes_eqb in Hd. case_bool_decide as Hid; [|done]. subst l2. cbn [negb] in Hd.
  destruct (Z.eqb_spec (from_le l3) (ss_rx_sequence s)) as [Hseq|]; [|done]. cbn [negb] in Hd.
  destruct (Z.eqb_spec (len rest) (from_le l4)) as [Hsize|]; [|done]. injection Hd as <-.
  pose proof (from_le_bound l1). pose proof (from_le_bound l3) as Hb3. pose proof (from_le_bound l4) as Hb4.
  assert (len l4 = 4) as Hl4 by (unfold len; lia). assert (len l3 = 8) as Hl3 by (unfold len; lia).
  rewrite Hl4 in Hb4. rewrite Hl3 in Hb3. unfold SESSION_FRAME_MINOR in Hmin.
  exists (from_le l1). unfold frame_of. split_and!; [lia|lia|lia| | |].
  - rewrite <- Hseq. exact Hb3.
  - unfold len. lia.
  - rewrite Hsize, <- Hseq, <- Hmaj. by rewrite !to_le_from_le by lia.
Qed.

(** The associated data of a frame. *)
Lemma frame_aad id minor sequence c :
  len id = 16 →
  slice (E:=PcFabricError) (frame_of id minor sequence c) 0 (SESSION_HEADER_LEN - 4) =
  Ok (SESSION_FRAME_MAGIC ++ to_le 2 SESSION_FRAME_MAJOR ++ to_le 2 minor ++ id ++ to_le 8 sequence).
Proof.
  intros Hid. unfold frame_of.
  replace (_ ++ to_le 2 SESSION_FRAME_MAJOR ++ _ ++ _ ++ _ ++ to_le 4 (len c) ++ c)
    with ([] ++ (SESSION_FRAME_MAGIC ++ to_le 2 SESSION_FRAME_MAJOR ++ to_le 2 minor ++ id ++
            to_le 8 sequence) ++ (to_le 4 (len c) ++ c)) by (by rewrite app_nil_l, <- !app_assoc).
  apply slice_app; [done|]. rewrite !len_app, !len_to_le, Hid. reflexivity.
Qed.

Lemma open_spec f s :
  match open f s with
  | (s', Ok m) => ∃ minor c, 0 ≤ minor ≤ 1 ∧ len c < 2 ^ 32 ∧ len (ss_session_id s) = 16 ∧
      f = frame_of (ss_session_id s) minor (ss_rx_sequence s) c ∧
      aead_decrypt (ss_rx_key s) (session_nonce (ss_rx_sequence s))
        (SESSION_FRAME_MAGIC ++ to_le 2 SESSION_FRAME_MAJOR ++ to_le 2 minor ++ ss_session_id s ++
         to_le 8 (ss_rx_sequence s)) c = Some m ∧
      in_u64 (ss_rx_sequence s) ∧ ss_rx_sequence s + 1 < 2 ^ 64 ∧
      s' = set_rx (ss_rx_sequence s + 1) s
  | (s', _) => s' = s
  end.
Proof.
  unfold open. destruct (open_checks s f) as [c| |] eqn:Hc; [|done..].
  apply open_checks_sound in Hc as (minor & Hm & Hl & Hu & Hid & ->).
  rewrite frame_aad by done. destruct (aead_decrypt _ _ _ _) as [m|] eqn:Hd; [|done].
  unfold checked_add_u64. destruct (Z.ltb_spec (ss_rx_sequence s + 1) (2 ^ 64)); [|done].
  by exists minor, c.
Qed.

(** ** The channel *)
Lemma open_seal `{!PcCryptoLaws} a b m a' f :
  session_wf a → mirrored a b → seal m a = (a', Ok f) →
  open f b = (set_rx (ss_rx_sequence b + 1) b, Ok m) ∧
  a' = set_tx (ss_tx_sequence a + 1) a ∧ mirrored a' (set_rx (ss_rx_sequence b + 1) b) ∧
  session_wf a'.
Proof.
  intros [Hid Htx Hrx] [Mid Mtx Mrx Ms Mr] Hs. pose proof (seal_spec m a) as Hspec. rewrite Hs in Hspec.
  destruct Hspec as (c & He & Hc & Hn & -> & ->).
  assert (frame_prefix (ss_session_id a) (ss_tx_sequence a) ++ to_le 4 (len c) ++ c =
    frame_of (ss_session_id a) SESSION_FRAME_MINOR (ss_tx_sequence a) c) as ->
    by (unfold frame_prefix, frame_of; by rewrite <- !app_assoc).
  split_and!; [|done|split; cbn; congruence|].
  - unfold open. rewrite open_checks_frame by done. unfold bytes_eqb.
    rewrite bool_decide_true, Ms, Z.eqb_refl by done. cbn [negb]. rewrite frame_aad by done.
    rewrite <- Mtx, <- Ms. apply aead_decrypts in He. unfold frame_prefix in He.
    rewrite He. unfold checked_add_u64. by destruct (Z.ltb_spec (ss_tx_sequence a + 1) (2 ^ 64)); [|lia].
  - split; cbn; [done| |done]. unfold in_u64 in *. lia.
Qed.

(** What can happen to one end: sealing and opening of anything. *)
Inductive session_step (s : SecureSession) : SecureSession → Prop :=
| step_seal m : session_step s (seal m s).1
| step_open f : session_step s (open f s).1.

Lemma session_step_monotone s s' :
  session_step s s' →
  ss_session_id s' = ss_session_id s ∧ ss_tx_key s' = ss_tx_key s ∧ ss_rx_key s' = ss_rx_key s ∧
  ss_tx_sequence s ≤ ss_tx_sequence s' ∧ ss_rx_sequence s ≤ ss_rx_sequence s'.
Proof.
  intros [m|f].
  - pose proof (seal_spec m s) as Hs. destruct (seal m s) as [s1 [f| |]]; cbn; [|subst; done..].
    destruct Hs as (c & _ & _ & _ & -> & _). cbn. split_and!; try done; lia.
  - pose proof (open_spec f s) as Hs. destruct (open f s) as [s1 [m| |]]; cbn; [|subst; done..].
    destruct Hs as (? & c & _ & _ & _ & _ & _ & _ & _ & ->). cbn. split_and!; try done; lia.
Qed.

Lemma session_steps_monotone s s' :
  rtc session_step s s' →
  ss_session_id s' = ss_session_id s ∧ ss_tx_key s' = ss_tx_key s ∧ ss_rx_key s' = ss_rx_key s ∧
  ss_tx_sequence s ≤ ss_tx_sequence s' ∧ ss_rx_sequence s ≤ ss_rx_sequence s'.
Proof.
  induction 1 as [s|s s1 s' Hstep _ IH]; [done|].
  apply session_step_monotone in Hstep. destruct Hstep as (? & ? & ? & ? & ?), IH as (? & ? & ? & ? & ?).
  split_and!; try congruence; lia.
Qed.

Lemma session_nonce_inj a b : in_u64 a → in_u64 b → session_nonce a = session_nonce b → a = b.
Proof.
  intros Ha Hb Hn. unfold session_nonce in Hn. apply app_inv_head in Hn.
  rewrite <- (from_le_to_le 8 a), <- (from_le_to_le 8 b) by done. by rewrite Hn.
Qed.

(** Sealing a list of messages, and opening a list of frames. *)
Fixpoint each_of {A} (f : A → op SecureSession PcFabricError bytes) (l : list A)
  : op SecureSession PcFabricError (list bytes) :=
  match l with
  | [] => op_ret []
  | x :: l' => do! y := f x in do! ys := each_of f l' in op_ret (y :: ys)
  end.

Lemma channel `{!PcCryptoLaws} ms a b a' frames :
  session_wf a → mirrored a b → each_of seal ms a = (a', Ok frames) →
  ∃ b', each_of open frames b = (b', Ok ms) ∧ mirrored a' b' ∧ session_wf a'.
Proof.
  revert a b a' frames. induction ms as [|m ms IH]; intros a b a' frames Hwf Hm Hs.
  { cbn in Hs. injection Hs as <- <-. exists b. by split_and!. }
  cbn [each_of] in Hs. unfold op_bind in Hs.
  destruct (seal m a) as [a1 [f|e|]] eqn:Hf; [|done..].
  destruct (each_of seal ms a1) as [a2 [fs|e|]] eqn:Hfs; [|done..].
  injection Hs as <- <-. destruct (open_seal a b m a1 f Hwf Hm Hf) as (Ho & _ & Hm1 & Hwf1).
  destruct (IH a1 _ a2 fs Hwf1 Hm1 Hfs) as (b' & Hb & Hm2 & Hwf2).
  exists b'. split; [|done]. cbn [each_of]. unfold op_bind. by rewrite Ho, Hb.
Qed.

(** ** The handshake *)
Lemma validate_identity_pair_Ok local remote :
  validate_identity_pair local remote = Ok tt ↔
  peer_id_for_verify_key (id_verify_key local) = id_peer_id local ∧
  peer_id_for_verify_key (pr_remote_verify_key remote) = pr_remote_peer_id remote ∧
  id_peer_id local ≠ pr_remote_peer_id remote.
Proof.
  unfold validate_identity_pair, bytes_eqb. repeat case_bool_decide; cbn [negb]; naive_solver.
Qed.

Lemma len_peer_id key : len (peer_id_for_verify_key key) = 16.
Proof.
  unfold peer_id_for_verify_key. pose proof (sha2_length (string_bytes "NTD97-PCF97-PEER" ++ key)).
  unfold len in *. rewrite length_take. lia.
Qed.
Lemma len_session_id a b c d : len (session_id_of a b c d) = 16.
Proof.
  unfold session_id_of. match goal with |- context [sha2_digest ?x] => pose proof (sha2_length x) end.
  unfold len in *. rewrite length_take. lia.
Qed.

Lemma derive_mirrored `{!PcCryptoLaws} id shared ch sh :
  len id = 16 →
  ∃ c s, derive_session Client id shared ch sh = Ok c ∧ derive_session Server id shared ch sh = Ok s ∧
    mirrored c s ∧ session_wf c ∧ session_wf s ∧
    (ss_tx_sequence c, ss_rx_sequence c) = (0, 0).
Proof.
  intros Hid. unfold derive_session.
  destruct (hkdf_expands (sha2_digest (client_wire_bytes ch ++ server_wire_bytes sh)) shared
              SESSION_KDF_INFO) as [material ->]. cbn [ok_or].
  eexists _, _. split; [reflexivity|]. split; [reflexivity|]. by split_and!.
Qed.

Lemma handshake_completes `{!PcCryptoLaws} client_seed server_seed client_entropy server_entropy :
  let c := identity_from_seed client_seed in
  let s := identity_from_seed server_seed in
  id_peer_id c ≠ id_peer_id s →
  ∃ st ch sh cs ss,
    handshake_begin c (pairing_record s) client_entropy = Ok (st, ch) ∧
    handshake_accept s (pairing_record c) server_entropy ch = Ok (sh, ss) ∧
    handshake_finish st sh = Ok cs ∧
    mirrored cs ss ∧ session_wf cs ∧ session_wf ss ∧ (ss_tx_sequence cs, ss_rx_sequence cs) = (0, 0).
Proof.
  intros c s Hne.
  assert (validate_identity_pair c (pairing_record s) = Ok tt) as Hcs
    by (by apply validate_identity_pair_Ok).
  assert (validate_identity_pair s (pairing_record c) = Ok tt) as Hsc
    by (apply validate_identity_pair_Ok; split_and!; [done|done|by apply not_eq_sym]).
  assert (∀ seed m, pairing_verify (pairing_record (identity_from_seed seed)) m
                      (identity_sign (identity_from_seed seed) m) = Ok tt) as Hsign.
  { intros seed m. unfold pairing_verify. cbn. destruct (sign_verifies seed m) as [-> Hv].
    unfold identity_sign. cbn. by rewrite Hv. }
  unfold handshake_begin. rewrite Hcs.
  set (ch := mkClientHello _ _ _ _ _ (identity_sign _ _)).
  exists (mkHandshake c (pairing_record s) client_entropy ch), ch.
  unfold handshake_accept. rewrite Hsc.
  assert (pairing_verify (pairing_record c) (client_signing_bytes ch) (ch_signature ch) = Ok tt) as ->
    by apply Hsign.
  unfold bytes_eqb. cbn [ch_client_peer_id ch_expected_server_peer_id ch pairing_record
    pr_remote_peer_id ch_session_id ch_ephemeral_public ch_challenge].
  rewrite !bool_decide_true by done. cbn [negb orb].
  set (sh := mkServerHello _ _ _ _ _ _ (identity_sign s _)).
  destruct (derive_mirrored (ch_session_id ch)
    (x25519_shared (x25519_secret server_entropy) (x25519_public (x25519_secret client_entropy))) ch sh
    (len_session_id _ _ _ _)) as (cs & ss & Hc & Hs & Hm & Wc & Ws & Hz).
  change (ch_session_id ch) with (session_id_of (id_peer_id c) (id_peer_id s)
    (x25519_public (x25519_secret client_entropy)) (entropy_challenge client_entropy)) in Hs.
  rewrite Hs. exists sh, cs, ss. split; [reflexivity|]. split; [reflexivity|]. split; [|done].
  unfold handshake_finish. cbn [hs_remote hs_local hs_hello hs_entropy].
  unfold bytes_eqb. rewrite !bool_decide_true by done. cbn [negb orb].
  assert (pairing_verify (pairing_record s) (server_signing_bytes sh) (sh_signature sh) = Ok tt) as ->
    by apply Hsign.
  cbn [sh_ephemeral_public sh]. by rewrite shared_agrees.
Qed.
End session.

(** ** Properties *)

(** C16: Two paired identities with different ids complete the handshake, and then, in both
    directions, the frames one side seals are opened by the other in order as the messages
    that were sealed. *)
Theorem handshake_opens_channel `{Sha2, PcCrypto, !PcCryptoLaws} client_seed server_seed client_entropy
    server_entropy ms :
  let c := identity_from_seed client_seed in
  let s := identity_from_seed server_seed in
  id_peer_id c ≠ id_peer_id s →
  ∃ st ch sh cs ss,
    handshake_begin c (pairing_record s) client_entropy = Ok (st, ch) ∧
    handshake_accept s (pairing_record c) server_entropy ch = Ok (sh, ss) ∧
    handshake_finish st sh = Ok cs ∧
    (∀ cs' frames, each_of seal ms cs = (cs', Ok frames) →
       ∃ ss', each_of open frames ss = (ss', Ok ms)) ∧
    (∀ ss' frames, each_of seal ms ss = (ss', Ok frames) →
       ∃ cs', each_of open frames cs = (cs', Ok ms)).
Proof.
  intros c s Hne.
  destruct (handshake_completes client_seed server_seed client_entropy server_entropy Hne)
    as (st & ch & sh & cs & ss & Hb & Ha & Hf & Hm & Wc & Ws & _).
  exists st, ch, sh, cs, ss. split_and!; [done..| |].
  - intros cs' frames Hs. destruct (channel ms cs ss cs' frames Wc Hm Hs) as (ss' & ? & _). by exists ss'.
  - intros ss' frames Hs.
    destruct (channel ms ss cs ss' frames Ws (mirrored_sym _ _ Hm) Hs) as (cs' & ? & _). by exists cs'.
Qed.

(** C17: A frame a session has opened is refused as a replay by every later state of that
    session, and leaves it as it was. *)
Theorem frame_opens_once `{Sha2, PcCrypto} s f m s1 s2 :
  open f s = (s1, Ok m) → rtc session_step s1 s2 →
  open f s2 = (s2, Err (Replay (ss_rx_sequence s2) (ss_rx_sequence s))).
Proof.
  intros Ho Hr. pose proof (open_spec f s) as Hs. rewrite Ho in Hs.
  destruct Hs as (minor & c & Hm & Hc & Hid & -> & _ & Hu & _ & ->).
  apply session_steps_monotone in Hr as (Heq & _ & _ & _ & Hle). cbn in Heq, Hle.
  unfold open. rewrite open_checks_frame by done. unfold bytes_eqb.
  rewrite Heq, bool_decide_true by done. cbn [negb].
  by destruct (Z.eqb_spec (ss_rx_sequence s) (ss_rx_sequence s2)); [lia|].
Qed.

(** No nonce is used twice under one key. *)
Theorem seal_nonces_distinct `{Sha2, PcCrypto} s m1 f1 s1 s2 m2 f2 s3 :
  in_u64 (ss_tx_sequence s) →
  seal m1 s = (s1, Ok f1) → rtc session_step s1 s2 → seal m2 s2 = (s3, Ok f2) →
  ss_tx_key s2 = ss_tx_key s ∧
  session_nonce (ss_tx_sequence s) ≠ session_nonce (ss_tx_sequence s2).
Proof.
  intros Hu H1 Hr H2. pose proof (seal_spec m1 s) as Hs. rewrite H1 in Hs.
  destruct Hs as (c & _ & _ & _ & -> & _).
  pose proof (seal_spec m2 s2) as Hs2. rewrite H2 in Hs2. destruct Hs2 as (c2 & _ & _ & Hb & _).
  apply session_steps_monotone in Hr as (_ & Hk & _ & Hle & _). cbn in Hk, Hle.
  split; [done|]. intros Hn. unfold in_u64 in Hu. apply session_nonce_inj in Hn; unfold in_u64; lia.
Qed.

(** ** Concrete instances

    A cryptography that satisfies the laws, over the SHA-256 of Hash.v: a
    keyed digest signs and authenticates, addition agrees on a key. *)
#[local] Existing Instance sha2_sample.
Definition add_bytes (a b : bytes) : bytes :=
  zip_with (λ x y, byte_of_Z ((Z_of_byte x + Z_of_byte y) mod 256)) a b.
Definition sample_tag (key nonce aad m : bytes) : bytes :=
  take 16 (sha2_digest (key ++ nonce ++ aad ++ m)).
#[local] Instance sample_crypto : PcCrypto := {|
  ed25519_verify_key seed := sha2_digest seed;
  ed25519_sign seed m := sha2_digest (sha2_digest seed ++ m) ++ sha2_digest (m ++ sha2_digest seed);
  ed25519_key_ok key := len key =? 32;
  ed25519_verify key m sig := bytes_eqb sig (sha2_digest (key ++ m) ++ sha2_digest (m ++ key));
  x25519_public secret := secret;
  x25519_shared := add_bytes;
  hkdf_expand64 salt ikm info :=
    Some (sha2_digest (salt ++ ikm ++ info) ++ sha2_digest (info ++ salt ++ ikm));
  aead_encrypt key nonce aad m := Some (m ++ sample_tag key nonce aad m);
  aead_decrypt key nonce aad c :=
    let n := Z.to_nat (len c - 16) in
    if bytes_eqb (drop n c) (sample_tag key nonce aad (take n c)) then Some (take n c) else None;
|}.

Lemma add_bytes_comm a b : add_bytes a b = add_bytes b a.
Proof.
  unfold add_bytes. revert b. induction a as [|x a IH]; intros [|y b]; cbn; try done.
  by rewrite Z.add_comm, IH.
Qed.
Lemma len_sample_tag key nonce aad m : len (sample_tag key nonce aad m) = 16.
Proof.
  unfold sample_tag. pose proof (sha2_length (key ++ nonce ++ aad ++ m)) as Hl. unfold len in *.
  rewrite length_take. lia.
Qed.

#[local] Instance sample_crypto_laws : PcCryptoLaws.
Proof.
  split.
  - intros seed m. cbn -[sha2_digest]. split.
    + apply Z.eqb_eq, sha2_length.
    + by apply bool_decide_eq_true.
  - intros a b. apply add_bytes_comm.
  - intros salt ikm info. by eexists.
  - intros key nonce aad m _. eexists. split; [reflexivity|]. by rewrite len_app, len_sample_tag.
  - intros key nonce aad m c [= <-]. cbn -[sample_tag].
    rewrite len_app, len_sample_tag. replace (Z.to_nat (len m + 16 - 16)) with (length m) by (unfold len; lia).
    rewrite drop_app_length, take_app_length. unfold bytes_eqb. by rewrite bool_decide_true.
Qed.

Definition sample_id : bytes := zeros 16.
Definition sample_session : SecureSession := mkSession sample_id (zeros 32) (zeros 32) 4 4.
Definition sample_frame : bytes :=
  match seal (string_bytes "hello") sample_session with (_, Ok f) => f | _ => [] end.
Lemma sample_open : open sample_frame sample_session = (set_rx 5 sample_session, Ok (string_bytes "hello")).
Proof. vm_compute. reflexivity. Qed.

Lemma handshake_opens_channel_witness :
  id_peer_id (identity_from_seed (zeros 32)) ≠ id_peer_id (identity_from_seed (zeros 31)) ∧
  ∃ st ch sh ss,
    handshake_begin (identity_from_seed (zeros 32)) (pairing_record (identity_from_seed (zeros 31)))
      (zeros 8) = Ok (st, ch) ∧
    handshake_accept (identity_from_seed (zeros 31)) (pairing_record (identity_from_seed (zeros 32)))
      (zeros 9) ch = Ok (sh, ss) ∧ is_ok (handshake_finish st sh) = true.
Proof.
  assert (id_peer_id (identity_from_seed (zeros 32)) ≠ id_peer_id (identity_from_seed (zeros 31))) as Hne
    by (vm_compute; discriminate).
  split; [exact Hne|].
  destruct (handshake_opens_channel (zeros 32) (zeros 31) (zeros 8) (zeros 9)
              [string_bytes "hello"] Hne) as (st & ch & sh & cs & ss & Hb & Ha & Hf & _).
  exists st, ch, sh, ss. rewrite Hf. by split_and!.
Defined.

Lemma frame_opens_once_witness :
  open sample_frame (set_rx 5 sample_session) = (set_rx 5 sample_session, Err (Replay 5 4)).
Proof. exact (frame_opens_once _ _ _ _ _ sample_open (rtc_refl _ _)). Defined.

Lemma seal_nonces_distinct_witness :
  ∃ f1 f2, seal (string_bytes "a") sample_session = (set_tx 5 sample_session, Ok f1) ∧
    seal (string_bytes "a") (set_tx 5 sample_session) = (set_tx 6 sample_session, Ok f2) ∧
    session_nonce 4 ≠ session_nonce 5.
Proof.
  destruct (seal (string_bytes "a") sample_session) as [s1 [f1|e|]] eqn:H1;
    [|vm_compute in H1; discriminate..].
  destruct (seal (string_bytes "a") (set_tx 5 sample_session)) as [s2 [f2|e|]] eqn:H2;
    [|vm_compute in H2; discriminate..].
  assert (s1 = set_tx 5 sample_session) as -> by (vm_compute in H1; injection H1 as <- _; reflexivity).
  assert (s2 = set_tx 6 sample_session) as -> by (vm_compute in H2; injection H2 as <- _; reflexivity).
  exists f1, f2. split; [done|]. split; [done|].
  refine (proj2 (seal_nonces_distinct _ _ _ _ _ _ _ _ _ H1 (rtc_refl _ _) H2)). by vm_compute.
Defined.
End PcSessionTheorems.
