(* ===== verification/PcHello.v ===== *)
(** The handshake frames PCH97 of src/crates/ntd-pc-fabric/src/connector.rs:
    the two hellos and their codecs.  The sockets they travel over are not
    modelled. *)
From S2P Require Import Prelude Text Collections Codec WireFormat Artifact Wire WireTheorems PcSession.

Module PcHello.
Import Artifact PcSession.

(** [FixedCursor] has errors of its own. *)
#[local] Instance fixed_cursor : CursorErrors PcFabricError :=
  {| err_truncated := InvalidHandshake; err_cursor_overflow := Overflow |}.

Definition HANDSHAKE_MAGIC : bytes := string_bytes "PCH97" ++ [zero_byte].
Definition HANDSHAKE_MAJOR : Z := 0.
Definition HANDSHAKE_MINOR : Z := 1.
Definition HANDSHAKE_HEADER_LEN : Z := 16.
Definition CLIENT_HELLO_TAG : Z := 1.
Definition SERVER_HELLO_TAG : Z := 2.
Definition CLIENT_HELLO_LEN : Z := 16 + 16 + 16 + 32 + 32 + 64.
Definition SERVER_HELLO_LEN : Z := 16 + 16 + 16 + 32 + 32 + 32 + 64.

Definition encode_handshake (tag : Z) (payload : bytes) : result PcFabricError bytes :=
  let? n := ok_or (try_u32 (len payload)) Overflow in
  let? _ := ok_or (checked_add_usize HANDSHAKE_HEADER_LEN (len payload)) Overflow in
  Ok (HANDSHAKE_MAGIC ++ to_le 2 HANDSHAKE_MAJOR ++ to_le 2 HANDSHAKE_MINOR ++ to_le 1 tag ++
      to_le 1 0 ++ to_le 4 n ++ payload).

Definition decode_handshake (bs : bytes) (expected_tag expected_payload_len : Z)
  : result PcFabricError bytes :=
  if (len bs <? HANDSHAKE_HEADER_LEN)
     || negb (bool_decide (get_range bs 0 6 = Some HANDSHAKE_MAGIC))
  then Err InvalidHandshake
  else
    let? major := Wire.word_at bs 6 8 in
    let? minor := Wire.word_at bs 8 10 in
    let? tag := Wire.word_at bs 10 11 in
    let? reserved := Wire.word_at bs 11 12 in
    if negb (major =? HANDSHAKE_MAJOR) || (HANDSHAKE_MINOR <? minor) || negb (tag =? expected_tag)
       || negb (reserved =? 0)
    then Err InvalidHandshake
    else
      let? raw_len := Wire.word_at bs 12 16 in
      let? payload_len := ok_or (try_usize raw_len) Overflow in
      if negb (payload_len =? expected_payload_len)
         || negb (len bs =? HANDSHAKE_HEADER_LEN + payload_len)
      then Err InvalidHandshake
      else slice bs HANDSHAKE_HEADER_LEN (len bs).

Definition encode_client_hello (h : ClientHello) : result PcFabricError bytes :=
  encode_handshake CLIENT_HELLO_TAG
    (ch_client_peer_id h ++ ch_expected_server_peer_id h ++ ch_session_id h ++
     ch_ephemeral_public h ++ ch_challenge h ++ ch_signature h).

Definition read_client_hello : decoder PcFabricError ClientHello :=
  dec! client_peer_id <- take_bytes 16;
  dec! expected_server_peer_id <- take_bytes 16;
  dec! session_id <- take_bytes 16;
  dec! ephemeral_public <- take_bytes 32;
  dec! challenge <- take_bytes 32;
  dec! signature <- take_bytes 64;
  dec_ret (mkClientHello client_peer_id expected_server_peer_id session_id ephemeral_public
             challenge signature).
Definition decode_client_hello (bs : bytes) : result PcFabricError ClientHello :=
  let? payload := decode_handshake bs CLIENT_HELLO_TAG CLIENT_HELLO_LEN in
  run_decoder read_client_hello payload.

Definition encode_server_hello (h : ServerHello) : result PcFabricError bytes :=
  encode_handshake SERVER_HELLO_TAG
    (sh_server_peer_id h ++ sh_expected_client_peer_id h ++ sh_session_id h ++
     sh_ephemeral_public h ++ sh_challenge h ++ sh_client_hello_digest h ++ sh_signature h).

Definition read_server_hello : decoder PcFabricError ServerHello :=
  dec! server_peer_id <- take_bytes 16;
  dec! expected_client_peer_id <- take_bytes 16;
  dec! session_id <- take_bytes 16;
  dec! ephemeral_public <- take_bytes 32;
  dec! challenge <- take_bytes 32;
  dec! client_hello_digest <- take_bytes 32;
  dec! signature <- take_bytes 64;
  dec_ret (mkServerHello server_peer_id expected_client_peer_id session_id ephemeral_public
             challenge client_hello_digest signature).
Definition decode_server_hello (bs : bytes) : result PcFabricError ServerHello :=
  let? payload := decode_handshake bs SERVER_HELLO_TAG SERVER_HELLO_LEN in
  run_decoder read_server_hello payload.

(** ** Typed hellos: arrays of their lengths *)
Definition client_hello_typed (h : ClientHello) : Prop :=
  len (ch_client_peer_id h) = 16 ∧ len (ch_expected_server_peer_id h) = 16 ∧
  len (ch_session_id h) = 16 ∧ len (ch_ephemeral_public h) = 32 ∧ len (ch_challenge h) = 32 ∧
  len (ch_signature h) = 64.
Definition server_hello_typed (h : ServerHello) : Prop :=
  len (sh_server_peer_id h) = 16 ∧ len (sh_expected_client_peer_id h) = 16 ∧
  len (sh_session_id h) = 16 ∧ len (sh_ephemeral_public h) = 32 ∧ len (sh_challenge h) = 32 ∧
  len (sh_client_hello_digest h) = 32 ∧ len (sh_signature h) = 64.

Definition hello_frame (minor tag : Z) (payload : bytes) : bytes :=
  HANDSHAKE_MAGIC ++ to_le 2 HANDSHAKE_MAJOR ++ to_le 2 minor ++ to_le 1 tag ++ to_le 1 0 ++
  to_le 4 (len payload) ++ payload.

Lemma encode_handshake_Ok tag payload :
  len payload < 2 ^ 32 → encode_handshake tag payload = Ok (hello_frame HANDSHAKE_MINOR tag payload).
Proof.
  intros Hl. unfold encode_handshake, try_u32, checked_add_usize, checked_add_u64.
  destruct (Z.ltb_spec (len payload) (2 ^ 32)); [|lia]. cbn [ok_or].
  change HANDSHAKE_HEADER_LEN with 16. by destruct (Z.ltb_spec (16 + len payload) (2 ^ 64)); [|lia].
Qed.

Lemma decode_handshake_blocks magic major minor tag reserved size payload expected n :
  len magic = 6 → len major = 2 → len minor = 2 → len tag = 1 → len reserved = 1 → len size = 4 →
  decode_handshake (magic ++ major ++ minor ++ tag ++ reserved ++ size ++ payload) expected n =
  if negb (bool_decide (magic = HANDSHAKE_MAGIC)) then Err InvalidHandshake
  else if negb (from_le major =? HANDSHAKE_MAJOR) || (HANDSHAKE_MINOR <? from_le minor)
          || negb (from_le tag =? expected) || negb (from_le reserved =? 0)
  then Err InvalidHandshake
  else if negb (from_le size =? n) || negb (len payload =? from_le size) then Err InvalidHandshake
  else Ok payload.
Proof.
  intros H1 H2 H3 H4 H5 H6. rewrite <- (app_nil_r payload) at 1.
  change (magic ++ _) with (concat [magic; major; minor; tag; reserved; size; payload]).
  unfold decode_handshake. change HANDSHAKE_HEADER_LEN with 16. pose proof (len_nonneg payload).
  assert (len (concat [magic; major; minor; tag; reserved; size; payload]) = 16 + len payload)
    as Hlen by (cbn [concat]; rewrite !len_app, len_nil; lia).
  erewrite (get_range_block _ 0 magic), (WireTheorems.word_at_block _ 1 major),
    (WireTheorems.word_at_block _ 2 minor), (WireTheorems.word_at_block _ 3 tag),
    (WireTheorems.word_at_block _ 4 reserved), (WireTheorems.word_at_block _ 5 size),
    (slice_block _ 6 payload) by WireTheorems.block_side.
  assert (0 ≤ from_le size < 2 ^ 32) as Hsize
    by (pose proof (from_le_bound size) as Hb; rewrite H6 in Hb; exact Hb).
  rewrite Hlen. destruct (Z.ltb_spec (16 + len payload) 16); [lia|]. cbn [orb].
  assert (bool_decide (Some magic = Some HANDSHAKE_MAGIC) = bool_decide (magic = HANDSHAKE_MAGIC)) as ->
    by (apply bool_decide_ext; naive_solver).
  destruct (negb (bool_decide _)); [done|]. destruct (_ || negb (from_le reserved =? 0)); [done|].
  unfold try_usize, try_u64. destruct (Z.ltb_spec (from_le size) (2 ^ 64)); [|lia]. cbn [ok_or].
  assert ((16 + len payload =? 16 + from_le size) = (len payload =? from_le size)) as ->; [|done].
  destruct (Z.eqb_spec (len payload) (from_le size)) as [->|]; [apply Z.eqb_refl|].
  apply Z.eqb_neq. lia.
Qed.

Lemma decode_handshake_frame minor tag payload :
  0 ≤ minor ≤ HANDSHAKE_MINOR → in_u8 tag → len payload < 2 ^ 32 →
  decode_handshake (hello_frame minor tag payload) tag (len payload) = Ok payload.
Proof.
  intros Hm Ht Hl. unfold HANDSHAKE_MINOR in Hm. unfold hello_frame. pose proof (len_nonneg payload).
  rewrite decode_handshake_blocks by (rewrite ?len_to_le; done).
  rewrite bool_decide_true by done.
  rewrite (from_le_to_le 2 HANDSHAKE_MAJOR), (from_le_to_le 2 minor), (from_le_to_le 1 tag),
    (from_le_to_le 1 0), (from_le_to_le 4 (len payload)); [|lia|done|done|lia|done].
  change HANDSHAKE_MINOR with 1. rewrite !Z.eqb_refl. by destruct (Z.ltb_spec 1 minor); [lia|].
Qed.

Lemma decode_handshake_sound bs tag n payload :
  decode_handshake bs tag n = Ok payload →
  ∃ minor, 0 ≤ minor ≤ HANDSHAKE_MINOR ∧ len payload = n ∧ bs = hello_frame minor tag payload.
Proof.
  intros Hd. destruct (Z.lt_ge_cases (len bs) 16) as [Hs|Hs].
  { unfold decode_handshake in Hd. change HANDSHAKE_HEADER_LEN with 16 in Hd.
    by destruct (Z.ltb_spec (len bs) 16); [|lia]. }
  assert (sum_list [6; 2; 2; 1; 1; 4]%nat ≤ length bs)%nat as Hb by (unfold len in Hs; simpl; lia).
  cut_blocks_at [6; 2; 2; 1; 1; 4]%nat Hb. cbn [concat] in Heq. rewrite app_nil_r, <- !app_assoc in Heq.
  subst bs. rewrite decode_handshake_blocks in Hd by (unfold len; lia).
  case_bool_decide as Hmagic; [|done]. subst l. cbn [negb] in Hd.
  destruct (Z.eqb_spec (from_le l0) HANDSHAKE_MAJOR) as [Hmaj|]; [|done].
  destruct (Z.ltb_spec HANDSHAKE_MINOR (from_le l1)) as [|Hmin]; [done|].
  destruct (Z.eqb_spec (from_le l2) tag) as [<-|]; [|done].
  destruct (Z.eqb_spec (from_le l3) 0) as [Hres|]; [|done]. cbn [negb orb] in Hd.
  destruct (Z.eqb_spec (from_le l4) n) as [<-|]; [|done]. cbn [negb orb] in Hd.
  destruct (Z.eqb_spec (len rest) (from_le l4)) as [Hsize|]; [|done]. injection Hd as <-.
  pose proof (from_le_bound l1). exists (from_le l1). split_and!; [lia|lia|done|].
  unfold hello_frame. rewrite Hsize, <- Hmaj, <- Hres. by rewrite !to_le_from_le by lia.
Qed.

(** ** Round trips *)
Lemma hello_round_trip :
  (∀ h, client_hello_typed h →
     ∃ bs, encode_client_hello h = Ok bs ∧ len bs = HANDSHAKE_HEADER_LEN + CLIENT_HELLO_LEN ∧
           decode_client_hello bs = Ok h) ∧
  (∀ h, server_hello_typed h →
     ∃ bs, encode_server_hello h = Ok bs ∧ len bs = HANDSHAKE_HEADER_LEN + SERVER_HELLO_LEN ∧
           decode_server_hello bs = Ok h).
Proof.
  split.
  - intros [a b c d e f] (Ha&Hb&Hc&Hd&He&Hf). cbn in *. unfold encode_client_hello. cbn.
    set (payload := a ++ b ++ c ++ d ++ e ++ f).
    assert (len payload = CLIENT_HELLO_LEN) as Hl
      by (unfold payload; rewrite !len_app, Ha, Hb, Hc, Hd, He, Hf; reflexivity).
    rewrite encode_handshake_Ok by (by rewrite Hl). eexists. split; [reflexivity|]. split.
    + unfold hello_frame. rewrite !len_app, !len_to_le, Hl. reflexivity.
    + unfold decode_client_hello. rewrite <- Hl, decode_handshake_frame; [|by vm_compute..|by rewrite Hl].
      apply run_decoder_reads; [by rewrite Hl|]. apply reads_reads_end.
      unfold read_client_hello, payload. solve_fields.
  - intros [a b c d e f g] (Ha&Hb&Hc&Hd&He&Hf&Hg). cbn in *. unfold encode_server_hello. cbn.
    set (payload := a ++ b ++ c ++ d ++ e ++ f ++ g).
    assert (len payload = SERVER_HELLO_LEN) as Hl
      by (unfold payload; rewrite !len_app, Ha, Hb, Hc, Hd, He, Hf, Hg; reflexivity).
    rewrite encode_handshake_Ok by (by rewrite Hl). eexists. split; [reflexivity|]. split.
    + unfold hello_frame. rewrite !len_app, !len_to_le, Hl. reflexivity.
    + unfold decode_server_hello. rewrite <- Hl, decode_handshake_frame; [|by vm_compute..|by rewrite Hl].
      apply run_decoder_reads; [by rewrite Hl|]. apply reads_reads_end.
      unfold read_server_hello, payload. solve_fields.
Qed.

(** Whatever decodes is a typed hello in such a frame. *)
Lemma decode_client_hello_sound bs h :
  decode_client_hello bs = Ok h → client_hello_typed h ∧
  ∃ minor, 0 ≤ minor ≤ HANDSHAKE_MINOR ∧ bs = hello_frame minor CLIENT_HELLO_TAG
    (ch_client_peer_id h ++ ch_expected_server_peer_id h ++ ch_session_id h ++
     ch_ephemeral_public h ++ ch_challenge h ++ ch_signature h).
Proof.
  unfold decode_client_hello.
  destruct (decode_handshake bs _ _) as [payload| |] eqn:Hp; [|done..].
  apply decode_handshake_sound in Hp as (minor & Hm & Hl & ->).
  unfold run_decoder. destruct (read_client_hello (cursor_new payload)) as [[v c]| |] eqn:Hv; [|done..].
  intros [= <-]. change (cursor_new payload) with (at_ ([] ++ []) payload) in Hv.
  unfold read_client_hello in Hv. repeat parse_step Hv. parse_facts idtac.
  apply parses_step_ret in Hv as [-> _].
  rewrite !len_app in Hl. unfold CLIENT_HELLO_LEN in Hl.
  assert (len post0 = 0) as Hpost by lia.
  assert (post0 = []) as -> by (by destruct post0).
  split; [by split_and!|]. exists minor. split; [done|]. by rewrite ?app_nil_r.
Qed.
End PcHello.
