(* ===== verification/PcAgent.v ===== *)
(** The desktop agent: [DesktopAgent] of src/crates/ntd-pc-fabric/src/agent.rs.

    Handlers are the trait as a type class.  The handlers of the crate itself run
    processes and read files; they are not modelled. *)
From S2P Require Import Prelude Text Collections Codec WireFormat Core Capability Effects ActionFabric Artifact Wire PcSession.

Module PcAgent.
Import Artifact Wire PcSession.

Record DesktopHandlerOutput := mkHandlerOutput {
  dh_output : ActionOutput;
  dh_artifacts : list (string * bytes);
}.
Definition DesktopHandlerOutput_new (output : ActionOutput) : DesktopHandlerOutput :=
  mkHandlerOutput output [].
Definition with_artifact (self : DesktopHandlerOutput) (name : string) (bs : bytes)
  : DesktopHandlerOutput :=
  mkHandlerOutput (dh_output self) (dh_artifacts self ++ [(name, bs)]).

Class DesktopCapabilityHandler (H : Type) := {
  handler_capability : H → RemoteCapability;
  handler_execute : RemoteAction → H → H * result PcFabricError DesktopHandlerOutput;
}.

(** [format!("{error:?}")] of the derived [Debug]. *)
Class PcDebug := debug_pc_error : PcFabricError → string.

Record DesktopAgent (H : Type) := mkAgent {
  da_session : SecureSession;
  da_handlers : gmap string H;
  da_outgoing_artifacts : gmap Z ArtifactSender;
  da_completed_requests : gmap Z RemoteResult;
  da_next_transfer_id : Z;
}.
Arguments mkAgent {H}.
Arguments da_session {H}.
Arguments da_handlers {H}.
Arguments da_outgoing_artifacts {H}.
Arguments da_completed_requests {H}.
Arguments da_next_transfer_id {H}.

Section agent.
Context {H : Type} `{DesktopCapabilityHandler H, Sha2, PcCrypto, PcDebug}.

Definition agent_op := op (DesktopAgent H) PcFabricError.

Definition set_session (s : SecureSession) (a : DesktopAgent H) : DesktopAgent H :=
  mkAgent s (da_handlers a) (da_outgoing_artifacts a) (da_completed_requests a)
    (da_next_transfer_id a).
Definition set_handlers (m : gmap string H) (a : DesktopAgent H) : DesktopAgent H :=
  mkAgent (da_session a) m (da_outgoing_artifacts a) (da_completed_requests a)
    (da_next_transfer_id a).
Definition set_outgoing (m : gmap Z ArtifactSender) (a : DesktopAgent H) : DesktopAgent H :=
  mkAgent (da_session a) (da_handlers a) m (da_completed_requests a) (da_next_transfer_id a).
Definition set_completed (m : gmap Z RemoteResult) (a : DesktopAgent H) : DesktopAgent H :=
  mkAgent (da_session a) (da_handlers a) (da_outgoing_artifacts a) m (da_next_transfer_id a).
Definition set_next_transfer (n : Z) (a : DesktopAgent H) : DesktopAgent H :=
  mkAgent (da_session a) (da_handlers a) (da_outgoing_artifacts a) (da_completed_requests a) n.

Definition DesktopAgent_new (session : SecureSession) : DesktopAgent H :=
  mkAgent session ∅ ∅ ∅ 1.

Definition register_handler (handler : H) : agent_op unit := λ self,
  let capability := handler_capability handler in
  match validate_remote_capability capability with
  | Ok _ =>
      if bool_decide (is_Some (da_handlers self !! rc_id capability)) then (self, Err InvalidMessage)
      else (set_handlers (<[rc_id capability := handler]> (da_handlers self)) self, Ok tt)
  | Err e => (self, Err e)
  | Panic => (self, Panic)
  end.

Definition capabilities (self : DesktopAgent H) : list RemoteCapability :=
  map handler_capability (btree_values (da_handlers self)).

(** One turn of the loop of [store_artifacts]. *)
Definition store_artifact (artifact : string * bytes) : agent_op ArtifactDescriptor := λ self,
  let transfer_id := da_next_transfer_id self in
  match checked_add_u64 transfer_id 1 with
  | None => (self, Err Overflow)
  | Some next =>
      let self := set_next_transfer next self in
      match ArtifactSender_new transfer_id artifact.1 artifact.2 DEFAULT_ARTIFACT_CHUNK with
      | Ok sender =>
          (set_outgoing (<[transfer_id := sender]> (da_outgoing_artifacts self)) self,
           Ok (sd_descriptor sender))
      | Err e => (self, Err e)
      | Panic => (self, Panic)
      end
  end.
Fixpoint store_artifacts (l : list (string * bytes)) : agent_op (list ArtifactDescriptor) :=
  match l with
  | [] => op_ret []
  | artifact :: l' =>
      do! d := store_artifact artifact in
      do! ds := store_artifacts l' in
      op_ret (d :: ds)
  end.

(** What [execute_request] makes of the handler's outcome: the result, and
    whether it is kept in [completed_requests]. *)
Definition conclude (request : RemoteRequest) (execution : result PcFabricError DesktopHandlerOutput)
  : agent_op (RemoteResult * bool) :=
  match execution with
  | Ok output =>
      do! descriptors := store_artifacts (dh_artifacts output) in
      do! r := op_lift (result_completed request (dh_output output) descriptors) in
      op_ret (r, true)
  | Err (PolicyDenied reason) =>
      do! r := op_lift (result_rejected request reason) in op_ret (r, true)
  | Err (Io reason) =>
      do! r := op_lift (result_retryable request reason) in op_ret (r, false)
  | Err e =>
      do! r := op_lift (result_rejected request (debug_pc_error e)) in op_ret (r, true)
  | Panic => op_lift Panic
  end.

Definition execute_request (request : RemoteRequest) : agent_op RemoteResult := λ self,
  match validate_request request with
  | Err e => (self, Err e)
  | Panic => (self, Panic)
  | Ok _ =>
      match da_completed_requests self !! rq_request_id request with
      | Some previous =>
          if negb (bytes_eqb (rr_request_digest previous) (rq_request_digest request))
          then (self, Err InvalidMessage)
          else (self, Ok previous)
      | None =>
          match da_handlers self !! rq_capability request with
          | None => (self, result_rejected request "remote capability is not installed")
          | Some handler =>
              let capability := handler_capability handler in
              if negb (rc_version capability =? rq_capability_version request)
              then (self, Err (CapabilityVersionMismatch (rq_capability request)
                                 (rc_version capability) (rq_capability_version request)))
              else
                let '(handler, execution) := handler_execute (rq_action request) handler in
                let self := set_handlers (<[rq_capability request := handler]> (da_handlers self)) self in
                match conclude request execution self with
                | (self, Ok (r, true)) =>
                    (set_completed (<[rq_request_id request := r]> (da_completed_requests self)) self,
                     Ok r)
                | (self, Ok (r, false)) => (self, Ok r)
                | (self, Err e) => (self, Err e)
                | (self, Panic) => (self, Panic)
                end
          end
      end
  end.

(** The session of the agent. *)
Definition on_session {A} (m : op SecureSession PcFabricError A) : agent_op A := λ self,
  let '(s, r) := m (da_session self) in (set_session s self, r).

Definition respond (message : RemoteMessage) : agent_op RemoteMessage :=
  match message with
  | CapabilityQuery => λ self, (self, Ok (Capabilities (capabilities self)))
  | Request request => do! r := execute_request request in op_ret (Result r)
  | ArtifactPull transfer_id offset => λ self,
      (self,
       let? sender := ok_or (da_outgoing_artifacts self !! transfer_id) InvalidArtifact in
       let? chunk := chunk_at sender offset in
       Ok (ArtifactChunkMessage chunk))
  | Capabilities _ | Result _ | ArtifactChunkMessage _ => op_err InvalidMessage
  end.

Definition handle_encrypted_frame (encrypted_frame : bytes) : agent_op bytes :=
  do! plaintext := on_session (open encrypted_frame) in
  do! message := op_lift (decode_message plaintext) in
  do! response := respond message in
  do! encoded := op_lift (encode_message response) in
  on_session (seal encoded).
End agent.
Arguments DesktopAgent_new {H}.
End PcAgent.
