(* ===== verification/PcAgentTheorems.v ===== *)
(** The agent runs a request at most once, answers the request it was given,
    and keeps its artifacts and results in order. *)
From S2P Require Import Prelude Text Collections Codec WireFormat Core Capability Effects ActionFabric Hash Artifact Wire WireTheorems PcSession PcSessionTheorems PcAgent.

Module PcAgentTheorems.
Import Artifact Wire WireTheorems PcSession PcSessionTheorems PcAgent.

Section agent.
Context {H : Type} `{DesktopCapabilityHandler H, Sha2, PcCrypto, PcDebug}.
Implicit Types a : DesktopAgent H.

(** A request that came over the wire. *)
Definition request_known (q : RemoteRequest) : Prop :=
  request_typed q ∧ len (core_enc q) < 2 ^ 64.

Record agent_inv a : Prop := {
  ai_session : session_wf (da_session a);
  ai_next : 1 ≤ da_next_transfer_id a < 2 ^ 64;
  ai_outgoing : ∀ k s, da_outgoing_artifacts a !! k = Some s →
    sender_wf s ∧ ad_transfer_id (sd_descriptor s) = k ∧ 1 ≤ k < da_next_transfer_id a;
  ai_completed : ∀ k r, da_completed_requests a !! k = Some r →
    ∃ q, request_known q ∧ rq_request_id q = k ∧ verify_against r q = Ok tt;
}.

(** What the storing of artifacts leaves alone. *)
Record same_requests a a' : Prop := {
  sq_session : da_session a' = da_session a;
  sq_handlers : da_handlers a' = da_handlers a;
  sq_completed : da_completed_requests a' = da_completed_requests a;
}.
Lemma same_requests_refl a : same_requests a a.
Proof. done. Qed.
Lemma same_requests_trans a b c : same_requests a b → same_requests b c → same_requests a c.
Proof. intros [] []. split; congruence. Qed.

Lemma store_artifact_spec x a a' r :
  store_artifact x a = (a', r) →
  same_requests a a' ∧ (agent_inv a → agent_inv a').
Proof.
  unfold store_artifact, checked_add_u64.
  destruct (Z.ltb_spec (da_next_transfer_id a + 1) (2 ^ 64)); [|by intros [= <- <-]].
  destruct (ArtifactSender_new _ _ _ _) as [s|e|] eqn:Hs; intros [= <- <-]; (split; [done|]);
    intros [Hse Hn Ho Hc]; split; cbn; try done; try lia.
  - apply sender_new_Ok in Hs as (Hwf & _ & Hd); [|done].
    intros k s' [[<- <-]|[Hne Hk]]%lookup_insert_Some; [rewrite Hd; cbn; split_and!; [done|done|lia|lia]|].
    destruct (Ho k s' Hk) as (? & ? & ?). split_and!; [done|done|lia|lia].
  - intros k s' Hk. destruct (Ho k s' Hk) as (? & ? & ?). split_and!; [done|done|lia|lia].
  - intros k s' Hk. destruct (Ho k s' Hk) as (? & ? & ?). split_and!; [done|done|lia|lia].
Qed.

Lemma store_artifacts_spec l a a' r :
  store_artifacts l a = (a', r) →
  same_requests a a' ∧ (agent_inv a → agent_inv a').
Proof.
  revert a a' r. induction l as [|x l IH]; intros a a' r; cbn [store_artifacts];
    [by intros [= <- <-]|].
  intros [(a1 & d & Hx & Hl)|[(e & Hx & _)|[Hx _]]]%op_bind_inv;
    [|by apply store_artifact_spec in Hx..].
  apply store_artifact_spec in Hx as [Hx1 Hx2].
  apply op_bind_inv in Hl as [(a2 & ds & Hl & [= <- _])|[(e & Hl & _)|[Hl _]]];
    apply IH in Hl as [Hl1 Hl2]; (split; [by eapply same_requests_trans|auto]).
Qed.

(** Whatever the handler's outcome, the conclusion answers the request. *)
Lemma conclude_spec q execution a a' x :
  conclude q execution a = (a', x) →
  same_requests a a' ∧ (agent_inv a → agent_inv a') ∧
  ∀ r kept, x = Ok (r, kept) → verify_against r q = Ok tt ∧
    (kept = true ∨ ∃ reason, rr_status r = Retryable reason).
Proof.
  assert (∀ (m : result PcFabricError RemoteResult) (kept : bool) a a' x,
    (∀ r, m = Ok r → verify_against r q = Ok tt ∧
       (kept = true ∨ ∃ reason, rr_status r = Retryable reason)) →
    (do! r := op_lift m in op_ret (r, kept)) a = (a', x) →
    a' = a ∧ ∀ r k, x = Ok (r, k) → verify_against r q = Ok tt ∧
      (k = true ∨ ∃ reason, rr_status r = Retryable reason)) as Hlift.
  { intros m kept b b' y Hm. unfold op_bind, op_lift, op_ret.
    destruct m as [r|e|]; intros [= <- <-]; (split; [done|]); intros r' k; [|done..].
    intros [= <- <-]. by apply Hm. }
  assert (∀ reason r, result_rejected q reason = Ok r → verify_against r q = Ok tt) as Hrej.
  { intros reason r. unfold result_rejected. destruct (nonempty reason) as [[]| |]; [|done..].
    by intros (? & _)%result_new_Ok. }
  unfold conclude. destruct execution as [out|e|].
  - intros [(a1 & ds & Hs & Hl)|[(e & Hs & ->)|[Hs ->]]]%op_bind_inv;
      apply store_artifacts_spec in Hs as [Hs1 Hs2]; [|by split_and!..].
    apply Hlift in Hl as [-> Hr]; [by split_and!|].
    intros r Hr. split; [by apply result_new_Ok in Hr as (? & _)|by left].
  - intros Hx. assert (a' = a ∧ ∀ r k, x = Ok (r, k) → verify_against r q = Ok tt ∧
      (k = true ∨ ∃ reason, rr_status r = Retryable reason)) as [-> Hr]; [|by split_and!].
    assert (∀ reason r, result_retryable q reason = Ok r →
      verify_against r q = Ok tt ∧ rr_status r = Retryable reason) as Hretry.
    { intros reason r. unfold result_retryable. destruct (nonempty reason) as [[]| |]; [|done..].
      by intros (? & ? & _)%result_new_Ok. }
    destruct e; revert Hx; apply Hlift; intros r Hr;
      first [split; [by eapply Hrej|by left]
            |apply Hretry in Hr as [? ?]; split; [done|right; by eexists]].
  - intros [= <- <-]. by split_and!.
Qed.

(** ** Executing a request *)
Lemma execute_request_cases q a a' x :
  execute_request q a = (a', x) →
  (a' = a ∧
    (validate_request q ≠ Ok tt ∧ ¬ is_ok x ∨
     (∃ r, da_completed_requests a !! rq_request_id q = Some r ∧ validate_request q = Ok tt ∧
        x = if bool_decide (rr_request_digest r = rq_request_digest q) then Ok r
            else Err InvalidMessage) ∨
     (da_completed_requests a !! rq_request_id q = None ∧ validate_request q = Ok tt ∧
        ∀ r, x = Ok r → verify_against r q = Ok tt ∧ da_handlers a !! rq_capability q = None))) ∨
  (∃ h h' execution a1 y,
     da_completed_requests a !! rq_request_id q = None ∧ validate_request q = Ok tt ∧
     da_handlers a !! rq_capability q = Some h ∧
     handler_execute (rq_action q) h = (h', execution) ∧
     conclude q execution (set_handlers (<[rq_capability q := h']> (da_handlers a)) a) = (a1, y) ∧
     match y with
     | Ok (r, true) => a' = set_completed (<[rq_request_id q := r]> (da_completed_requests a1)) a1 ∧ x = Ok r
     | Ok (r, false) => a' = a1 ∧ x = Ok r
     | _ => a' = a1 ∧ ¬ is_ok x
     end).
Proof.
  unfold execute_request. destruct (validate_request q) as [[]|e|] eqn:Hv;
    [|intros [= <- <-]; left; split; [done|]; left; by split; [|intros []]..].
  destruct (da_completed_requests a !! rq_request_id q) as [r|] eqn:Hc.
  { intros Hx. left. split; [by destruct (negb _); injection Hx as <- _|]. right; left. exists r.
    split_and!; try done. unfold bytes_eqb in Hx. case_bool_decide; by injection Hx as <- <-. }
  destruct (da_handlers a !! rq_capability q) as [h|] eqn:Hh.
  2: { intros [= <- <-]. left. split; [done|]. right; right. split_and!; try done.
       intros r. unfold result_rejected. destruct (nonempty _) as [[]| |]; [|done..].
       intros (? & _)%result_new_Ok. done. }
  destruct (negb _); [intros [= <- <-]; left; split; [done|]; right; right; by split_and!|].
  destruct (handler_execute (rq_action q) h) as [h' execution] eqn:Hex.
  destruct (conclude q execution _) as [a1 y] eqn:Hcon. intros Hx. right.
  exists h, h', execution, a1, y. split_and!; try done.
  destruct y as [[r []]|e|]; injection Hx as <- <-; try done; by split; [|intros []].
Qed.

(** The agent has recorded a result for another request of the same id, and the
    preimages of the two requests, which differ, have the same digest. *)
Definition request_collision a q : Prop :=
  ∃ r0 q0 x y, da_completed_requests a !! rq_request_id q = Some r0 ∧ verify_against r0 q0 = Ok tt ∧
    rq_request_id q0 = rq_request_id q ∧ q0 ≠ q ∧
    request_preimage q0 = Ok x ∧ request_preimage q = Ok y ∧ x ≠ y ∧ sha2_digest x = sha2_digest y.

(** What the agent returns answers the request, unless its digest collides with
    the one of a request recorded under its id. *)
Lemma execute_request_answers q a a' r :
  agent_inv a → request_known q → execute_request q a = (a', Ok r) →
  verify_against r q = Ok tt ∨ request_collision a q.
Proof.
  intros Hinv [Hq Hl] [(_ & [[_ []]|[(p & Hc & Hv & Hp)|(_ & _ & Hr)]])
    |(h & h' & ex & b & y & _ & _ & _ & _ & Hcon & Hy)]%execute_request_cases; [done|..].
  - case_bool_decide as Hd; [|done]. injection Hp as ->.
    destruct (ai_completed a Hinv _ _ Hc) as (q0 & [Hq0 Hl0] & Hid & Hv0).
    pose proof Hv0 as (V0 & _ & _ & _ & _ & D0)%verify_against_Ok.
    destruct (request_digest_binds q0 q) as [->|(Hne & x & y & ?)]; [done..|by rewrite <- D0|by left|].
    right. exists p, q0, x, y. naive_solver.
  - left. by apply Hr.
  - left. apply conclude_spec in Hcon as (_ & _ & Hok).
    destruct y as [[r' k]|e|]; [|by destruct Hy as [_ []]..].
    assert (r' = r) as -> by (destruct k; by destruct Hy as [_ [= ->]]).
    by apply (Hok r k).
Qed.

Lemma set_handlers_inv m a : agent_inv a → agent_inv (set_handlers m a).
Proof. by intros []. Qed.

Lemma execute_request_inv q a a' x :
  request_known q → agent_inv a → execute_request q a = (a', x) → agent_inv a'.
Proof.
  intros Hq Hinv [[-> _]|(h & h' & ex & a1 & y & _ & _ & _ & _ & Hc & Hy)]%execute_request_cases;
    [done|].
  apply conclude_spec in Hc as (_ & Hi & Hr). specialize (Hi (set_handlers_inv _ _ Hinv)).
  destruct y as [[r []]|e|]; [|by destruct Hy as [-> _]..]. destruct Hy as [-> _].
  destruct Hi as [Hs Hn Ho Hcp]. split; cbn; try done.
  intros k r' [[<- <-]|[_ Hk]]%lookup_insert_Some; [|by apply Hcp].
  exists q. destruct (Hr r true eq_refl) as [Hv _]. by split_and!.
Qed.

(** ** Everything the agent does *)
Lemma respond_inv m a a' x :
  message_typed m → len (message_enc m) < 2 ^ 64 → agent_inv a → respond m a = (a', x) →
  agent_inv a'.
Proof.
  intros Ht Hl Hinv. destruct m as [l|q|r|c|id off|]; cbn [respond]; try by intros [= <- <-].
  assert (request_known q) as Hq.
  { split; [done|]. cbn in Hl. change (wf_enc encode_request decode_request q)
      with (core_enc q ++ rq_request_digest q) in Hl.
    rewrite len_app in Hl. pose proof (len_nonneg (rq_request_digest q)). lia. }
  intros [(a1 & r & Hx & [= <- _])|[(e & Hx & _)|[Hx _]]]%op_bind_inv;
    by eapply execute_request_inv.
Qed.

Lemma on_session_inv {A} (m : op SecureSession PcFabricError A) a a' x :
  (∀ s, session_wf s → session_wf (m s).1) → agent_inv a → on_session m a = (a', x) → agent_inv a'.
Proof.
  intros Hm [Hs Hn Ho Hc]. unfold on_session. specialize (Hm _ Hs).
  destruct (m (da_session a)) as [s r]. by intros [= <- <-].
Qed.

Lemma seal_wf m s : session_wf s → session_wf (seal m s).1.
Proof.
  intros [Hid Ht Hr]. pose proof (seal_spec m s) as Hs. destruct (seal m s) as [s1 [f| |]]; cbn;
    [|by subst..]. destruct Hs as (c & _ & _ & Hb & -> & _). split; cbn; try done. unfold in_u64 in *. lia.
Qed.
Lemma open_wf f s : session_wf s → session_wf (open f s).1.
Proof.
  intros [Hid Ht Hr]. pose proof (open_spec f s) as Hs. destruct (open f s) as [s1 [m| |]]; cbn;
    [|by subst..]. destruct Hs as (? & c & _ & _ & _ & _ & _ & _ & Hb & ->).
  split; cbn; try done. unfold in_u64 in *. lia.
Qed.

Lemma handle_frame_inv f a a' x :
  agent_inv a → handle_encrypted_frame f a = (a', x) → agent_inv a'.
Proof.
  intros Hinv. unfold handle_encrypted_frame.
  intros [(a1 & p & Ho & Hx)|[(e & Ho & _)|[Ho _]]]%op_bind_inv;
    apply (on_session_inv _ _ _ _ (open_wf f) Hinv) in Ho as Hinv1; [|done..].
  apply op_bind_inv in Hx as [(a2 & m & Hm & Hx)|[(e & Hm & _)|[Hm _]]];
    unfold op_lift in Hm; injection Hm as -> Hm; [|done..].
  apply decode_message_sound in Hm as (_ & _ & Ht & _ & Hl & _).
  apply op_bind_inv in Hx as [(a3 & r & Hr & Hx)|[(e & Hr & _)|[Hr _]]];
    apply (respond_inv m) in Hr as Hinv3; try done; try lia.
  apply op_bind_inv in Hx as [(a4 & bs & Hb & Hx)|[(e & Hb & _)|[Hb _]]];
    unfold op_lift in Hb; injection Hb as -> Hb; [|done..].
  by apply (on_session_inv _ _ _ _ (seal_wf bs) Hinv3) in Hx.
Qed.

(** ** Reachable agents *)
Inductive agent_step a : DesktopAgent H → Prop :=
| step_register h : agent_step a (register_handler h a).1
| step_frame f : agent_step a (handle_encrypted_frame f a).1.

Lemma register_handler_spec h a a' x :
  register_handler h a = (a', x) → ∃ m, a' = set_handlers m a.
Proof.
  destruct a. unfold register_handler. destruct (validate_remote_capability _) as [[]| |];
    [case_bool_decide|..]; intros [= <- _]; by eexists.
Qed.

Lemma agent_step_inv a a' : agent_step a a' → agent_inv a → agent_inv a'.
Proof.
  intros [h|f] Hinv.
  - destruct (register_handler h a) as [a1 x] eqn:Hr. apply register_handler_spec in Hr as [m ->].
    by apply set_handlers_inv.
  - destruct (handle_encrypted_frame f a) as [a1 x] eqn:Hf. by eapply handle_frame_inv.
Qed.

(** A result once recorded stays. *)
Definition records a a' : Prop :=
  ∀ k r, da_completed_requests a !! k = Some r → da_completed_requests a' !! k = Some r.

Lemma execute_request_records q a a' x : execute_request q a = (a', x) → records a a'.
Proof.
  intros [[-> _]|(h & h' & ex & a1 & y & Hc & _ & _ & _ & Hcon & Hy)]%execute_request_cases k r Hk;
    [done|].
  apply conclude_spec in Hcon as ([_ _ Hsame] & _). cbn in Hsame.
  destruct y as [[r' []]|e|]; destruct Hy as [-> _]; cbn; rewrite Hsame; try done.
  rewrite lookup_insert_ne; [done|congruence].
Qed.

Lemma handle_frame_records f a a' x : handle_encrypted_frame f a = (a', x) → records a a'.
Proof.
  unfold handle_encrypted_frame.
  assert (∀ A (m : op SecureSession PcFabricError A) (b b' : DesktopAgent H) y, on_session m b = (b', y) →
    da_completed_requests b' = da_completed_requests b) as Hses.
  { intros A m b b' y. unfold on_session. destruct (m _). by intros [= <- _]. }
  assert (∀ m b b' y, respond m b = (b', y) → records b b') as Hresp.
  { intros m b b' y. destruct m as [l|q|r|c|id off|]; cbn [respond];
      try (unfold op_err; intros [= <- _] ? ? Hk; exact Hk).
    intros [(a1 & r & Hx & [= <- _])|[(e & Hx & _)|[Hx _]]]%op_bind_inv;
      by eapply execute_request_records. }
  intros [(a1 & p & Ho & Hx)|[(e & Ho & _)|[Ho _]]]%op_bind_inv k r Hk; apply Hses in Ho;
    rewrite <- Ho in Hk; [|done..].
  apply op_bind_inv in Hx as [(a2 & m & Hm & Hx)|[(e & Hm & _)|[Hm _]]];
    unfold op_lift in Hm; injection Hm as -> _; [|done..].
  apply op_bind_inv in Hx as [(a3 & y & Hr & Hx)|[(e & Hr & _)|[Hr _]]];
    apply Hresp in Hr; apply Hr in Hk; [|done..].
  apply op_bind_inv in Hx as [(a4 & bs & Hb & Hx)|[(e & Hb & _)|[Hb _]]];
    unfold op_lift in Hb; injection Hb as -> _; [|done..].
  apply Hses in Hx. cbn in Hx |- *. by rewrite Hx.
Qed.

Lemma agent_steps_records a a' : rtc agent_step a a' → records a a'.
Proof.
  induction 1 as [a|a a1 a' Hstep _ IH]; [by intros k r|]. intros k r Hk. apply IH.
  destruct Hstep as [h|f].
  - destruct (register_handler h a) as [a1 x] eqn:Hr. by apply register_handler_spec in Hr as [m ->].
  - destruct (handle_encrypted_frame f a) as [a1 x] eqn:Hf. by apply (handle_frame_records _ _ _ _ Hf).
Qed.

(** A request either found no handler, may be retried, or is recorded. *)
Lemma execute_request_recorded q a a1 r :
  execute_request q a = (a1, Ok r) →
  (a1 = a ∧ da_handlers a !! rq_capability q = None) ∨ (∃ reason, rr_status r = Retryable reason) ∨
  da_completed_requests a1 !! rq_request_id q = Some r ∧ rr_request_digest r = rq_request_digest q.
Proof.
  intros [(-> & [[_ []]|[(r' & Hc & _ & Hr)|(_ & _ & Hn)]])
    |(h & h' & ex & b & y & _ & _ & _ & _ & Hcon & Hy)]%execute_request_cases; [done|..].
  - case_bool_decide; [|done]. injection Hr as <-. by right; right.
  - left. by split; [|apply (Hn r)].
  - apply conclude_spec in Hcon as (_ & _ & Hok).
    destruct y as [[r' []]|e|]; [destruct Hy as [-> [= <-]]..|by destruct Hy as [_ []]|by destruct Hy as [_ []]].
    + destruct (Hok r true eq_refl) as [Hv _]. right; right. cbn.
      apply verify_against_Ok in Hv as (_ & _ & _ & _ & _ & ?). by rewrite lookup_insert_eq.
    + destruct (Hok r false eq_refl) as [_ [|?]]; [done|by right; left].
Qed.

(** The reply to a request that has been recorded. *)
Lemma execute_recorded q a r :
  validate_request q = Ok tt → da_completed_requests a !! rq_request_id q = Some r →
  execute_request q a =
    (a, if bool_decide (rr_request_digest r = rq_request_digest q) then Ok r else Err InvalidMessage).
Proof.
  intros Hv Hc. unfold execute_request, bytes_eqb. rewrite Hv, Hc. by case_bool_decide.
Qed.
End agent.

(** ** Properties *)

(** Every agent reached from a new one by registering handlers and handling arbitrary
    frames keeps its invariant: transfers are below the counter and offer what their digest
    names, and every recorded result verifies against a request with its id. *)
Theorem agent_reachable_inv {H} `{DesktopCapabilityHandler H, Sha2, PcCrypto, PcDebug} session
    (a : DesktopAgent H) :
  session_wf session → rtc agent_step (DesktopAgent_new session) a → agent_inv a.
Proof.
  intros Hs Hr. assert (agent_inv (H:=H) (DesktopAgent_new session)) as Hinv
    by (split; cbn; [done|lia|by intros k s ?%lookup_empty_Some..]).
  induction Hr as [a|a a1 a' Hstep _ IH]; [done|]. by eapply IH, agent_step_inv.
Qed.

(** C18: A request the agent has answered either met no handler and changed nothing, or may
    be retried, or is answered from the record ever after: any later request with its id
    gets the recorded result if its digest is the same and is refused otherwise, and changes
    nothing. *)
Theorem request_runs_once {H} `{DesktopCapabilityHandler H, Sha2, PcCrypto, PcDebug} q
    (a a1 : DesktopAgent H) r :
  execute_request q a = (a1, Ok r) →
  (a1 = a ∧ da_handlers a !! rq_capability q = None) ∨
  (∃ reason, rr_status r = Retryable reason) ∨
  ∀ a2 q', rtc agent_step a1 a2 → validate_request q' = Ok tt → rq_request_id q' = rq_request_id q →
    execute_request q' a2 =
      (a2, if bool_decide (rq_request_digest q = rq_request_digest q') then Ok r else Err InvalidMessage).
Proof.
  intros [?|[?|[Hc Hd]]]%execute_request_recorded; [by auto..|].
  right; right. intros a2 q' Hr Hv Hid. rewrite (execute_recorded q' a2 r); [|done|].
  - by rewrite Hd.
  - rewrite Hid. by apply (agent_steps_records a1 a2 Hr).
Qed.

(** A handler that succeeds with an artifact the agent cannot offer: the action
    has run, nothing is recorded, and the same request runs it again. *)
Lemma unstored_artifact_forgotten {H} `{DesktopCapabilityHandler H, Sha2, PcCrypto, PcDebug} q
    (a : DesktopAgent H) h h' output name bs :
  validate_request q = Ok tt → da_completed_requests a !! rq_request_id q = None →
  da_handlers a !! rq_capability q = Some h →
  rc_version (handler_capability h) = rq_capability_version q →
  handler_execute (rq_action q) h = (h', Ok (mkHandlerOutput output [(name, bs)])) →
  is_blank name = true → len bs < 2 ^ 64 → da_next_transfer_id a + 1 < 2 ^ 64 →
  ∃ a', execute_request q a = (a', Err InvalidArtifact) ∧
    da_handlers a' !! rq_capability q = Some h' ∧
    da_completed_requests a' !! rq_request_id q = None.
Proof.
  intros Hv Hc Hh Hver Hx Hb Hl Ht. unfold execute_request. rewrite Hv, Hc, Hh, Hver, Z.eqb_refl, Hx.
  cbn [negb]. unfold conclude. cbn [dh_artifacts store_artifacts].
  unfold op_bind at 1 2, store_artifact, checked_add_u64. cbn.
  destruct (Z.ltb_spec (da_next_transfer_id a + 1) (2 ^ 64)); [|lia].
  unfold ArtifactSender_new, try_u64. destruct (Z.ltb_spec (len bs) (2 ^ 64)); [|lia]. cbn.
  unfold validate_artifact. cbn. rewrite Hb, orb_true_r. cbn.
  eexists. split; [done|]. cbn. by rewrite lookup_insert_eq.
Qed.

(** ** Concrete instances

    A handler that counts its calls. *)
#[local] Existing Instances sha2_sample sample_crypto.
#[local] Instance sample_debug : PcDebug := λ _, "error".
#[local] Instance counting_handler : DesktopCapabilityHandler Z := {|
  handler_capability _ := mkRemoteCapability "pc.execute" 1 ExternalWrite true false false
    ["pc.execute"%string];
  handler_execute _ n := (n + 1, Ok (DesktopHandlerOutput_new (mkOutput "executed" (VText "ok") [])));
|}.
Definition sample_agent : DesktopAgent Z :=
  (register_handler 0 (DesktopAgent_new sample_session)).1.

Lemma sample_session_wf : session_wf sample_session.
Proof. by split; vm_compute. Qed.

Lemma agent_reachable_inv_witness : session_wf sample_session ∧ agent_inv sample_agent.
Proof.
  split; [exact sample_session_wf|].
  apply (agent_reachable_inv sample_session sample_agent sample_session_wf).
  apply rtc_once. exact (step_register _ 0).
Defined.

Definition sample_after : DesktopAgent Z := (execute_request sample_request sample_agent).1.
Definition sample_reply : RemoteResult :=
  match (execute_request sample_request sample_agent).2 with Ok r => r | _ => sample_result end.
Lemma sample_executes : execute_request sample_request sample_agent = (sample_after, Ok sample_reply).
Proof. vm_compute. reflexivity. Qed.

Lemma request_runs_once_witness :
  execute_request sample_request sample_agent = (sample_after, Ok sample_reply) ∧
  da_handlers sample_after !! "pc.execute"%string = Some 1 ∧
  execute_request sample_request sample_after = (sample_after, Ok sample_reply).
Proof.
  split; [exact sample_executes|]. split; [vm_compute; reflexivity|].
  destruct (request_runs_once _ _ _ _ sample_executes) as [[_ Hn]|[[reason Hr]|Hall]].
  - exfalso. assert (da_handlers sample_agent !! rq_capability sample_request = Some 0) as Hs
      by (vm_compute; reflexivity). congruence.
  - exfalso. assert (rr_status sample_reply = Completed) as Hs by (vm_compute; reflexivity). congruence.
  - rewrite (Hall sample_after sample_request (rtc_refl _ _)); [by rewrite bool_decide_true| |done].
    vm_compute. reflexivity.
Defined.
End PcAgentTheorems.
