(* ===== verification/PcAdapter.v ===== *)
(** The paired-PC adapter: src/crates/ntd-pc-fabric/src/adapter.rs.

    The transport is the trait as a type class.  The loop of [pull_artifact] has
    no bound of its own in the code: it takes fuel, and [None] is a loop that
    has not ended with the fuel given. *)
From stdpp Require Import pretty.
From S2P Require Import Prelude Text Collections Codec WireFormat Core Capability Effects ActionFabric Artifact Wire PcSession PcAgent.

Module PcAdapter.
Import Artifact Wire PcSession PcAgent.

Class PairedPcTransport (T : Type) :=
  transport_exchange : bytes → T → T * result PcFabricError bytes.

Record PairedPcAdapter (T : Type) := mkAdapter {
  pa_peer : string;
  pa_capability : string;
  pa_capability_version : Z;
  pa_session : SecureSession;
  pa_transport : T;
}.
Arguments mkAdapter {T}.
Arguments pa_peer {T}.
Arguments pa_capability {T}.
Arguments pa_capability_version {T}.
Arguments pa_session {T}.
Arguments pa_transport {T}.

(** [format!("{:02x?}", digest)]. *)
Definition hex_digit (n : Z) : string :=
  String.substring (Z.to_nat n) 1 "0123456789abcdef".
Definition hex_byte (b : Byte.byte) : string :=
  hex_digit (Z_of_byte b / 16) +:+ hex_digit (Z_of_byte b mod 16).
Definition hex_list (l : bytes) : string := "[" +:+ String.concat ", " (map hex_byte l) +:+ "]".

(** The loopback transport of the tests: the agent in the same process. *)
#[export] Instance loopback {H} `{DesktopCapabilityHandler H, Sha2, PcCrypto, PcDebug} :
  PairedPcTransport (DesktopAgent H) := handle_encrypted_frame.

Section adapter.
Context {T : Type} `{PairedPcTransport T, Sha2, PcCrypto, PcDebug}.

Definition adapter_op := op (PairedPcAdapter T) PcFabricError.
(** An operation with a loop that may not have ended. *)
Definition fuel_op (A : Type) : Type :=
  PairedPcAdapter T → option (PairedPcAdapter T * result PcFabricError A).

Definition set_link (s : SecureSession) (t : T) (a : PairedPcAdapter T) : PairedPcAdapter T :=
  mkAdapter (pa_peer a) (pa_capability a) (pa_capability_version a) s t.

Definition PairedPcAdapter_new (peer capability : string) (capability_version : Z)
    (session : SecureSession) (transport : T) : result PcFabricError (PairedPcAdapter T) :=
  if is_blank peer || is_blank capability || (capability_version =? 0) then Err InvalidMessage
  else Ok (mkAdapter peer capability capability_version session transport).

Definition adapter_session {A} (m : op SecureSession PcFabricError A) : adapter_op A := λ self,
  let '(s, r) := m (pa_session self) in (set_link s (pa_transport self) self, r).
Definition adapter_transport (frame : bytes) : adapter_op bytes := λ self,
  let '(t, r) := transport_exchange frame (pa_transport self) in
  (set_link (pa_session self) t self, r).

Definition exchange_message (message : RemoteMessage) : adapter_op RemoteMessage :=
  do! plaintext := op_lift (encode_message message) in
  do! outbound := adapter_session (seal plaintext) in
  do! inbound := adapter_transport outbound in
  do! plaintext := adapter_session (open inbound) in
  op_lift (decode_message plaintext).

Definition discover_capabilities : adapter_op (list RemoteCapability) :=
  do! response := exchange_message CapabilityQuery in
  match response with
  | Capabilities capabilities => op_ret capabilities
  | _ => op_err InvalidMessage
  end.

Definition map_action (self : PairedPcAdapter T) (action : TypedAction)
  : result PcFabricError RemoteAction :=
  match action with
  | PcObserve peer surface =>
      if String.eqb peer (pa_peer self) then Ok (RObserve surface) else Err PeerMismatch
  | PcExecute peer program args working_dir =>
      if String.eqb peer (pa_peer self) then Ok (RExecute program args working_dir)
      else Err PeerMismatch
  | PcArtifactRead peer path =>
      if String.eqb peer (pa_peer self) then Ok (RArtifactRead path) else Err PeerMismatch
  | PcArtifactWrite peer path contents =>
      if String.eqb peer (pa_peer self) then Ok (RArtifactWrite path contents) else Err PeerMismatch
  | _ => Err InvalidMessage
  end.

(** The loop of [pull_artifact], and [finish] after it. *)
Fixpoint pull_loop (fuel : nat) (descriptor : ArtifactDescriptor) (assembler : ArtifactAssembler)
  : fuel_op bytes := λ self,
  if negb (aa_next_offset assembler <? ad_length descriptor)
  then Some (self, assembler_finish assembler)
  else
    match fuel with
    | O => None
    | S fuel' =>
        match exchange_message (ArtifactPull (ad_transfer_id descriptor) (aa_next_offset assembler)) self with
        | (self, Ok (ArtifactChunkMessage chunk)) =>
            match assembler_push assembler chunk with
            | Ok assembler => pull_loop fuel' descriptor assembler self
            | Err e => Some (self, Err e)
            | Panic => Some (self, Panic)
            end
        | (self, Ok _) => Some (self, Err InvalidMessage)
        | (self, Err e) => Some (self, Err e)
        | (self, Panic) => Some (self, Panic)
        end
    end.

Definition pull_artifact (fuel : nat) (descriptor : ArtifactDescriptor) : fuel_op bytes := λ self,
  match ArtifactAssembler_new descriptor with
  | Ok assembler => pull_loop fuel descriptor assembler self
  | Err e => Some (self, Err e)
  | Panic => Some (self, Panic)
  end.

Definition artifact_note (artifact : ArtifactDescriptor) : string :=
  "artifact:" +:+ pretty (ad_transfer_id artifact) +:+ ":" +:+ ad_name artifact.

Definition materialize_artifact_output (fuel : nat) (action : TypedAction) (output : ActionOutput)
    (artifacts : list ArtifactDescriptor) : fuel_op ActionOutput := λ self,
  match action with
  | PcArtifactRead _ _ =>
      match artifacts with
      | [descriptor] =>
          match pull_artifact fuel descriptor self with
          | Some (self, Ok contents) =>
              Some (self, Ok (mkOutput (ao_summary output) (VBytes contents)
                                (ao_evidence output ++ ["sha256=" +:+ hex_list (ad_sha256 descriptor)])))
          | Some (self, Err e) => Some (self, Err e)
          | Some (self, Panic) => Some (self, Panic)
          | None => None
          end
      | _ => Some (self, Err InvalidArtifact)
      end
  | _ => Some (self, Ok (mkOutput (ao_summary output) (ao_value output)
                           (ao_evidence output ++ map artifact_note artifacts)))
  end.

(** [CapabilityAdapter::execute]; [resume] and [rollback] are the defaults. *)
Definition paired_execute (fuel : nat) (action_id : ActionId) (action : TypedAction)
    (self : PairedPcAdapter T) : option (PairedPcAdapter T * result string AdapterResult) :=
  match map_action self action with
  | Err e => Some (self, Err (debug_pc_error e))
  | Panic => Some (self, Panic)
  | Ok remote_action =>
      match RemoteRequest_new action_id (pa_capability self) (pa_capability_version self)
              remote_action with
      | Err e => Some (self, Err (debug_pc_error e))
      | Panic => Some (self, Panic)
      | Ok request =>
          match exchange_message (Request request) self with
          | (self, Err e) => Some (self, Err (debug_pc_error e))
          | (self, Panic) => Some (self, Panic)
          | (self, Ok (Result r)) =>
              match verify_against r request with
              | Err e => Some (self, Err (debug_pc_error e))
              | Panic => Some (self, Panic)
              | Ok _ =>
                  match rr_status r with
                  | Completed =>
                      match materialize_artifact_output fuel action (rr_output r) (rr_artifacts r) self with
                      | Some (self, Ok output) => Some (self, Ok (ACompleted output None))
                      | Some (self, Err e) => Some (self, Err (debug_pc_error e))
                      | Some (self, Panic) => Some (self, Panic)
                      | None => None
                      end
                  | Retryable reason => Some (self, Ok (ARetryable reason None))
                  | Rejected reason => Some (self, Err reason)
                  end
              end
          | (self, Ok _) => Some (self, Err "paired PC returned an unexpected message"%string)
          end
      end
  end.
Definition paired_resume := default_resume (A:=PairedPcAdapter T).
Definition paired_rollback := default_rollback (A:=PairedPcAdapter T).
End adapter.
End PcAdapter.
