(* ===== verification/PcAdapterTheorems.v ===== *)
(** The adapter and the agent together: the encrypted exchange is transparent,
    artifacts arrive whole, and what the adapter reports is authentic. *)
From stdpp Require Import pretty.
From S2P Require Import Prelude Text Collections Codec WireFormat Core Capability Effects ActionFabric Hash Artifact Wire WireTheorems PcSession PcSessionTheorems PcAgent PcAgentTheorems PcAdapter.

Module PcAdapterTheorems.
Import Artifact Wire WireTheorems PcSession PcSessionTheorems PcAgent PcAgentTheorems PcAdapter.

Section sessions.
Context `{Sha2, PcCrypto, !PcCryptoLaws}.

Lemma mirrored_wf a b : session_wf a → mirrored a b → session_wf b.
Proof. intros [] []. split; congruence. Qed.

Lemma seal_ready m s :
  len m < 2 ^ 31 → ss_tx_sequence s + 1 < 2 ^ 64 →
  ∃ f, seal m s = (set_tx (ss_tx_sequence s + 1) s, Ok f).
Proof.
  intros Hm Hs. unfold seal, checked_add_u64, try_u32.
  destruct (Z.ltb_spec (ss_tx_sequence s + 1) (2 ^ 64)); [|lia].
  destruct (aead_encrypts (ss_tx_key s) (session_nonce (ss_tx_sequence s))
              (frame_prefix (ss_session_id s) (ss_tx_sequence s)) m Hm) as (c & -> & Hc).
  destruct (Z.ltb_spec (len c) (2 ^ 32)); [|lia]. by eexists.
Qed.

(** Room for [n] exchanges. *)
Definition room (n : Z) (s : SecureSession) : Prop :=
  ss_tx_sequence s + n < 2 ^ 64 ∧ ss_rx_sequence s + n < 2 ^ 64.

(** A session after it has sent a message and received the answer. *)
Definition exchanged (s : SecureSession) : SecureSession :=
  set_rx (ss_rx_sequence s + 1) (set_tx (ss_tx_sequence s + 1) s).
(** The other side. *)
Definition answered (s : SecureSession) : SecureSession :=
  set_tx (ss_tx_sequence s + 1) (set_rx (ss_rx_sequence s + 1) s).

Lemma room_exchanged n s : room n s → 1 ≤ n → room (n - 1) (exchanged s).
Proof. intros [??] ?. split; cbn; lia. Qed.

(** A message that can be sent. *)
Definition sendable (m : RemoteMessage) : Prop :=
  message_typed m ∧ ∃ bs, encode_message m = Ok bs ∧ len bs < 2 ^ 31.

(** A check that evaluates: the encoded message is decoded again. *)
Definition sent (m : RemoteMessage) : result PcFabricError RemoteMessage :=
  let? bs := encode_message m in
  if len bs <? 2 ^ 31 then decode_message bs else Err Overflow.
Lemma sent_sendable m : sent m = Ok m → sendable m.
Proof.
  unfold sent. destruct (encode_message m) as [bs| |] eqn:He; [|done..].
  destruct (Z.ltb_spec (len bs) (2 ^ 31)); [|done].
  intros (_ & _ & Ht & _)%decode_message_sound. split; [done|]. by exists bs.
Qed.

Section exchange.
Context {T : Type} `{PairedPcTransport T}.

(** One exchange with a peer that opens the frame and answers. *)
Lemma exchange_peer m resp (self : PairedPcAdapter T) b t' :
  session_wf (pa_session self) → mirrored (pa_session self) b → room 1 (pa_session self) →
  sendable m → sendable resp →
  (∀ frame bs reply rbs,
     encode_message m = Ok bs → encode_message resp = Ok rbs →
     open frame b = (set_rx (ss_rx_sequence b + 1) b, Ok bs) →
     seal rbs (set_rx (ss_rx_sequence b + 1) b) = (answered b, Ok reply) →
     transport_exchange frame (pa_transport self) = (t', Ok reply)) →
  exchange_message m self = (set_link (exchanged (pa_session self)) t' self, Ok resp) ∧
  session_wf (exchanged (pa_session self)) ∧ mirrored (exchanged (pa_session self)) (answered b).
Proof.
  intros Hwf Hm [Ht Hr] (Tm & bs & Em & Lm) (Tr & rbs & Er & Lr) Hpeer.
  destruct (seal_ready bs (pa_session self) Lm Ht) as [f Hf].
  destruct (open_seal _ b bs _ f Hwf Hm Hf) as (Ho & _ & Hm1 & Hwf1).
  pose proof (mirrored_wf _ _ Hwf1 Hm1) as Hwfb.
  destruct (seal_ready rbs (set_rx (ss_rx_sequence b + 1) b) Lr) as [g Hg];
    [cbn; rewrite <- (mi_rx _ _ Hm); done|].
  destruct (open_seal _ (set_tx (ss_tx_sequence (pa_session self) + 1) (pa_session self)) rbs _ g Hwfb
              (mirrored_sym _ _ Hm1) Hg) as (Ho2 & _ & Hm2 & Hwf2).
  assert (∀ m bs, message_typed m → encode_message m = Ok bs → decode_message bs = Ok m) as Hdec.
  { intros m' bs' Hm' (_ & Hc & Hl & ->)%encode_message_Ok. by apply decode_message_reads. }
  split; [|split; [by apply (mirrored_wf _ _ Hwf2)|by apply mirrored_sym]].
  unfold exchange_message, op_bind, op_lift, adapter_session, adapter_transport.
  rewrite Em, Hf. cbn [pa_session set_link pa_transport].
  rewrite (Hpeer f bs g rbs Em Er Ho Hg). cbn [pa_session set_link pa_transport].
  rewrite Ho2. by rewrite (Hdec resp rbs Tr Er).
Qed.
End exchange.

(** ** An agent behind the loopback transport *)
Section loopback.
Context {D : Type} `{DesktopCapabilityHandler D, PcDebug}.
Implicit Types self : PairedPcAdapter (DesktopAgent D).

Record paired self : Prop := {
  pd_session : session_wf (pa_session self);
  pd_mirror : mirrored (pa_session self) (da_session (pa_transport self));
}.

(** The agent's answers do not look at its session. *)
Lemma store_artifacts_session l s (a : DesktopAgent D) :
  store_artifacts l (set_session s a) =
  (set_session s (store_artifacts l a).1, (store_artifacts l a).2).
Proof.
  revert a. induction l as [|x l IH]; intros a; [done|]. cbn [store_artifacts]. unfold op_bind.
  assert (store_artifact x (set_session s a) =
    (set_session s (store_artifact x a).1, (store_artifact x a).2)) as ->.
  { unfold store_artifact. cbn. destruct (checked_add_u64 _ _); [|done].
    by destruct (ArtifactSender_new _ _ _ _). }
  destruct (store_artifact x a) as [a1 [d| |]]; cbn; [|done..]. rewrite IH.
  by destruct (store_artifacts l a1) as [a2 [ds| |]].
Qed.

Lemma conclude_session q execution s (a : DesktopAgent D) :
  conclude q execution (set_session s a) =
  (set_session s (conclude q execution a).1, (conclude q execution a).2).
Proof.
  unfold conclude, op_bind, op_lift, op_ret. destruct execution as [out|[]|]; try done.
  1: rewrite store_artifacts_session;
     destruct (store_artifacts (dh_artifacts out) a) as [a1 [ds| |]]; cbn; [|done..];
     by destruct (result_completed q (dh_output out) ds).
  all: by repeat case_match; simplify_eq.
Qed.

Lemma execute_request_session q s (a : DesktopAgent D) :
  execute_request q (set_session s a) =
  (set_session s (execute_request q a).1, (execute_request q a).2).
Proof.
  unfold execute_request. cbn [da_completed_requests da_handlers set_session].
  destruct (validate_request q) as [[]| |]; [|done..].
  destruct (da_completed_requests a !! _); [by destruct (negb _)|].
  destruct (da_handlers a !! _) as [h|]; [|done]. destruct (negb _); [done|].
  destruct (handler_execute (rq_action q) h) as [h' execution].
  change (set_handlers (<[rq_capability q:=h']> (da_handlers a)) (set_session s a))
    with (set_session s (set_handlers (<[rq_capability q:=h']> (da_handlers a)) a)).
  rewrite conclude_session.
  by destruct (conclude q execution _) as [a1 [[r []]| |]].
Qed.

Lemma respond_session m s (a : DesktopAgent D) :
  respond m (set_session s a) = (set_session s (respond m a).1, (respond m a).2).
Proof.
  destruct m; cbn [respond]; try done. unfold op_bind. rewrite execute_request_session.
  by destruct (execute_request r a) as [a1 [r'| |]].
Qed.

Lemma exchange_loopback m resp self agent' :
  paired self → room 1 (pa_session self) → sendable m → sendable resp →
  respond m (pa_transport self) = (agent', Ok resp) →
  ∃ self', exchange_message m self = (self', Ok resp) ∧ paired self' ∧
    self' = set_link (exchanged (pa_session self))
              (set_session (answered (da_session (pa_transport self))) agent') self.
Proof.
  intros [Hwf Hm] Hr Hs Hs' Ha. set (b := da_session (pa_transport self)).
  destruct (exchange_peer m resp self b (set_session (answered b) agent') Hwf Hm Hr Hs Hs')
    as (He & Hwf' & Hm').
  - intros frame bs reply rbs Em Er Ho Hseal. unfold transport_exchange, loopback, handle_encrypted_frame, op_bind, op_lift, on_session.
    fold b. rewrite Ho.
    assert (decode_message bs = Ok m) as ->.
    { destruct Hs as [Tm _]. apply encode_message_Ok in Em as (_ & Hc & Hl & ->).
      by apply decode_message_reads. }
    rewrite respond_session, Ha. cbn. rewrite Er. cbn. by rewrite Hseal.
  - eexists. split; [exact He|]. split; [|done]. by split.
Qed.

(** *** Pulling an artifact *)
Lemma frame_sendable m :
  message_typed m → transfer_nonzero m → message_checked m → len (message_enc m) < 2 ^ 30 → sendable m.
Proof.
  intros Ht Hn Hc Hl. split; [done|]. eexists. split; [apply encode_message_Ok; split_and!; [done|done|lia|done]|].
  unfold frame_enc. rewrite !len_app, !len_to_le. change (len PCF97_MAGIC) with 6. lia.
Qed.

Lemma pull_sendable id offset : in_u64 id → id ≠ 0 → in_u64 offset → sendable (ArtifactPull id offset).
Proof.
  intros ???. apply frame_sendable; try done.
Qed.

Lemma chunk_sendable s offset :
  sender_wf s → in_u64 (ad_transfer_id (sd_descriptor s)) → 0 ≤ offset ≤ len (sd_bytes s) →
  sendable (ArtifactChunkMessage (chunk_of s offset)).
Proof.
  intros Hs Hid Ho. pose proof (sw_bound s Hs). pose proof (sw_chunk s Hs).
  pose proof (sw_valid s Hs) as (Hne & _)%validate_artifact_Ok.
  pose proof (len_block s offset ltac:(lia) ltac:(lia)) as Hl.
  apply frame_sendable; cbn.
  - split; [done|unfold in_u64; lia].
  - done.
  - change (len (block s offset) < 2 ^ 32). lia.
  - change (len (to_le 8 (ad_transfer_id (sd_descriptor s)) ++ to_le 8 offset ++
                 to_le 4 (len (block s offset)) ++ block s offset) < 2 ^ 30).
    rewrite !len_app, !len_to_le. lia.
Qed.

(** Only the link of the adapter has moved. *)
Definition relinked self self' : Prop :=
  ∃ s' b', self' = set_link s' (set_session b' (pa_transport self)) self.

Lemma relinked_trans a b c : relinked a b → relinked b c → relinked a c.
Proof. intros (s & x & ->) (s' & x' & ->). by exists s', x'. Qed.

Lemma pull_loop_completes s fuel offset self :
  sender_wf s → in_u64 (ad_transfer_id (sd_descriptor s)) →
  da_outgoing_artifacts (pa_transport self) !! ad_transfer_id (sd_descriptor s) = Some s →
  paired self → 0 ≤ offset ≤ len (sd_bytes s) →
  len (sd_bytes s) - offset ≤ Z.of_nat fuel → room (len (sd_bytes s) - offset) (pa_session self) →
  ∃ self', pull_loop fuel (sd_descriptor s) (received s offset) self = Some (self', Ok (sd_bytes s)) ∧
    paired self' ∧ relinked self self'.
Proof.
  intros Hs Hid. pose proof (sw_valid s Hs) as (Hne & _)%validate_artifact_Ok.
  pose proof (sw_bound s Hs). pose proof (sw_length s Hs) as Hlen.
  revert offset self. induction fuel as [|fuel IH]; intros offset self Ha Hp Ho Hf Hr;
    cbn [pull_loop received aa_next_offset]; rewrite Hlen;
    destruct (Z.ltb_spec offset (len (sd_bytes s))); cbn [negb].
  2, 4: exists self; replace offset with (len (sd_bytes s)) by lia; rewrite finish_received by done;
    (split; [done|]); split; [done|]; exists (pa_session self), (da_session (pa_transport self));
    by destruct self as [???? []].
  - lia.
  - destruct (exchange_loopback (ArtifactPull (ad_transfer_id (sd_descriptor s)) offset)
      (ArtifactChunkMessage (chunk_of s offset)) self (pa_transport self))
      as (self1 & He & Hp1 & Heq); [done|destruct Hr; split; lia|
        by apply pull_sendable; [..|unfold in_u64; lia]|by apply chunk_sendable| |].
    { cbn [respond]. rewrite Ha. cbn [ok_or]. by rewrite chunk_at_Ok. }
    rewrite He, push_received by done. destruct (block_progress s offset Hs ltac:(lia)) as [Hb Hb'].
    destruct (IH (offset + len (block s offset)) self1) as (self' & Hl & Hp' & Hre); try lia.
    + by rewrite Heq.
    + done.
    + rewrite Heq. cbn. destruct Hr. split; cbn; lia.
    + exists self'. split; [done|]. split; [done|]. eapply relinked_trans; [|done].
      rewrite Heq. by eexists _, _.
Qed.

(** *** Executing a request remotely *)
Lemma request_sendable_known q : sendable (Request q) → request_known q.
Proof.
  intros [Ht (bs & (_ & _ & Hl & _)%encode_message_Ok & _)]. split; [done|]. cbn in Hl.
  change (wf_enc encode_request decode_request q) with (core_enc q ++ rq_request_digest q) in Hl.
  rewrite len_app in Hl. pose proof (len_nonneg (rq_request_digest q)). lia.
Qed.

(** What the adapter reports of a result without artifacts to fetch. *)
Definition reported (r : RemoteResult) : result string AdapterResult :=
  match rr_status r with
  | Completed => Ok (ACompleted (mkOutput (ao_summary (rr_output r)) (ao_value (rr_output r))
                       (ao_evidence (rr_output r) ++ map artifact_note (rr_artifacts r))) None)
  | Retryable reason => Ok (ARetryable reason None)
  | Rejected reason => Err reason
  end.

Lemma paired_execute_loopback fuel id action self remote q agent' r :
  paired self → room 1 (pa_session self) → (∀ peer path, action ≠ PcArtifactRead peer path) →
  map_action self action = Ok remote →
  RemoteRequest_new id (pa_capability self) (pa_capability_version self) remote = Ok q →
  sendable (Request q) → sendable (Result r) →
  execute_request q (pa_transport self) = (agent', Ok r) → verify_against r q = Ok tt →
  ∃ self', paired_execute fuel id action self = Some (self', reported r) ∧ paired self' ∧
    self' = set_link (exchanged (pa_session self))
              (set_session (answered (da_session (pa_transport self))) agent') self.
Proof.
  intros Hp Hr Hact Hm Hq Hs Hs' Hx Hv.
  destruct (exchange_loopback (Request q) (Result r) self agent') as (self' & He & Hp' & Heq); [done..| |].
  { cbn [respond]. unfold op_bind. by rewrite Hx. }
  exists self'. split; [|done]. unfold paired_execute, reported. rewrite Hm, Hq, He, Hv.
  destruct (rr_status r); [|done..]. unfold materialize_artifact_output.
  destruct action; try done. by destruct (Hact peer path).
Qed.
End loopback.
End sessions.

(** ** Whatever the transport *)
Section any_transport.
Context {T : Type} `{PairedPcTransport T, Sha2, PcCrypto, PcDebug}.
Implicit Types self : PairedPcAdapter T.

Lemma exchange_typed m self self' resp :
  exchange_message m self = (self', Ok resp) → message_typed resp.
Proof.
  unfold exchange_message.
  intros [(? & ? & _ & Hx)|[(e & _ & ?)|[_ ?]]]%op_bind_inv; [|done..].
  apply op_bind_inv in Hx as [(? & ? & _ & Hx)|[(e & _ & ?)|[_ ?]]]; [|done..].
  apply op_bind_inv in Hx as [(? & ? & _ & Hx)|[(e & _ & ?)|[_ ?]]]; [|done..].
  apply op_bind_inv in Hx as [(? & ? & _ & Hx)|[(e & _ & ?)|[_ ?]]]; [|done..].
  unfold op_lift in Hx. injection Hx as _ Hx. by apply decode_message_sound in Hx as (_ & _ & Ht & _).
Qed.

Lemma pull_loop_authentic fuel d assembler self self' bs :
  assembler_wf d assembler → pull_loop fuel d assembler self = Some (self', Ok bs) →
  len bs = ad_length d ∧ sha2_digest bs = ad_sha256 d.
Proof.
  revert assembler self. induction fuel as [|fuel IH]; intros assembler self Hwf; cbn [pull_loop];
    destruct (negb _); try done.
  1, 2: intros [= _ Hf]; apply finish_Ok in Hf as (-> & Hn & Hd); destruct Hwf as [<- Ho _]; split; [lia|done].
  destruct (exchange_message _ self) as [self1 [[]| |]]; try done.
  destruct (assembler_push assembler c) as [a'| |] eqn:Hp; try done. apply IH. by eapply push_wf.
Qed.

Lemma pull_artifact_authentic fuel d self self' bs :
  0 ≤ ad_length d → pull_artifact fuel d self = Some (self', Ok bs) →
  len bs = ad_length d ∧ sha2_digest bs = ad_sha256 d.
Proof.
  intros Hd. unfold pull_artifact. destruct (ArtifactAssembler_new d) as [a| |] eqn:Ha; [|done..].
  apply pull_loop_authentic. by apply assembler_new_wf.
Qed.
End any_transport.

(** ** Properties *)

(** C19: Pulling an artifact of less than 2^63 bytes from a paired agent that offers it, by
    sessions whose counters have room for an exchange per byte, ends within one exchange per
    byte and returns exactly the bytes offered, with the two sessions still paired and
    nothing else changed on either side. *)
Theorem pull_artifact_completes {D} `{DesktopCapabilityHandler D, Sha2, PcCrypto, !PcCryptoLaws, PcDebug}
    fuel s (self : PairedPcAdapter (DesktopAgent D)) :
  paired self → agent_inv (pa_transport self) →
  da_outgoing_artifacts (pa_transport self) !! ad_transfer_id (sd_descriptor s) = Some s →
  len (sd_bytes s) < 2 ^ 63 → len (sd_bytes s) ≤ Z.of_nat fuel → room (len (sd_bytes s)) (pa_session self) →
  ∃ self', pull_artifact fuel (sd_descriptor s) self = Some (self', Ok (sd_bytes s)) ∧
    paired self' ∧ relinked self self'.
Proof.
  intros Hp Hinv Hs Hv Hf Hr. destruct (ai_outgoing _ Hinv _ _ Hs) as (Hwf & _ & Hk).
  pose proof (ai_next _ Hinv). unfold pull_artifact. rewrite assembler_new_received by done.
  pose proof (len_nonneg (sd_bytes s)).
  apply pull_loop_completes; try done; try lia; [unfold in_u64; lia|]. by rewrite Z.sub_0_r.
Qed.

(** C20: Over the encrypted channel the adapter runs an action, other than an artifact read,
    exactly as the agent runs the request it maps to, when the agent answers it and the
    messages can be sent: it reports what the result says and leaves the agent in the state
    execute_request leaves it in, and unless the result is retryable or the agent has no
    handler, repeating the action with the same id reports the same without running
    anything. The one alternative is that the agent has recorded a result for a different
    request of the same id whose preimage has the same digest. *)
Theorem paired_execute_remote {D} `{DesktopCapabilityHandler D, Sha2, PcCrypto, !PcCryptoLaws, PcDebug}
    fuel id action (self : PairedPcAdapter (DesktopAgent D)) remote q agent' r :
  paired self → agent_inv (pa_transport self) → room 2 (pa_session self) →
  (∀ peer path, action ≠ PcArtifactRead peer path) →
  map_action self action = Ok remote →
  RemoteRequest_new id (pa_capability self) (pa_capability_version self) remote = Ok q →
  sendable (Request q) → sendable (Result r) →
  execute_request q (pa_transport self) = (agent', Ok r) →
  request_collision (pa_transport self) q ∨
  ∃ self' b, paired_execute fuel id action self = Some (self', reported r) ∧ paired self' ∧
    pa_transport self' = set_session b agent' ∧
    (is_Some (da_handlers (pa_transport self) !! rq_capability q) →
     (∀ reason, rr_status r ≠ Retryable reason) →
     ∃ self'' b', paired_execute fuel id action self' = Some (self'', reported r) ∧
       pa_transport self'' = set_session b' agent').
Proof.
  intros Hp Hinv [Hr1 Hr2] Hact Hm Hq Hs Hs' Hx.
  destruct (execute_request_answers q (pa_transport self) agent' r) as [Hv|?];
    [done|by apply request_sendable_known|done| |by left]. right.
  destruct (paired_execute_loopback fuel id action self remote q agent' r) as (self' & He & Hp' & Heq);
    [done|split; lia|done..|].
  exists self', (answered (da_session (pa_transport self))). split_and!; [done|done|by rewrite Heq|].
  intros [h Hh] Hnr.
  apply execute_request_recorded in Hx as [[_ Hn]|[[reason ?]|[Hc Hd]]]; [congruence|by destruct (Hnr reason)|].
  destruct (paired_execute_loopback fuel id action self' remote q (pa_transport self') r)
    as (self'' & He' & _ & Heq'); try done.
  - rewrite Heq. split; cbn; lia.
  - by rewrite Heq.
  - by rewrite Heq.
  - rewrite (execute_recorded q (pa_transport self') r).
    + by rewrite bool_decide_true.
    + by apply (request_new_validates _ _ _ _ _ Hq).
    + by rewrite Heq.
  - exists self'', (answered (da_session (pa_transport self'))). split; [done|]. rewrite Heq', Heq. done.
Qed.

(** Whatever the transport delivers, an action the adapter reports as completed was
    completed by a result that verifies against its own request, and the bytes of a read
    artifact have the length and the digest that result declares. *)
Theorem paired_execute_authentic {T} `{PairedPcTransport T, Sha2, PcCrypto, PcDebug} fuel id action
    (self self' : PairedPcAdapter T) output token :
  paired_execute fuel id action self = Some (self', Ok (ACompleted output token)) →
  token = None ∧ ∃ remote q r,
    map_action self action = Ok remote ∧
    RemoteRequest_new id (pa_capability self) (pa_capability_version self) remote = Ok q ∧
    verify_against r q = Ok tt ∧ rr_status r = Completed ∧
    ao_summary output = ao_summary (rr_output r) ∧
    match action with
    | PcArtifactRead _ _ => ∃ d contents, rr_artifacts r = [d] ∧ ao_value output = VBytes contents ∧
        len contents = ad_length d ∧ sha2_digest contents = ad_sha256 d
    | _ => ao_value output = ao_value (rr_output r)
    end.
Proof.
  unfold paired_execute. destruct (map_action self action) as [remote| |] eqn:Hm; [|done..].
  destruct (RemoteRequest_new _ _ _ _) as [q| |] eqn:Hq; [|done..].
  destruct (exchange_message (Request q) self) as [self1 [[| |r| | |]| |]] eqn:He; try done.
  apply exchange_typed in He.
  destruct (verify_against r q) as [[]| |] eqn:Hv; [|done..].
  destruct (rr_status r) eqn:Hst; [|done..]. unfold materialize_artifact_output.
  intros Hx. assert (token = None ∧ match action with
     | PcArtifactRead _ _ => ∃ d contents, rr_artifacts r = [d] ∧ ao_value output = VBytes contents ∧
         ao_summary output = ao_summary (rr_output r) ∧
         len contents = ad_length d ∧ sha2_digest contents = ad_sha256 d
     | _ => ao_summary output = ao_summary (rr_output r) ∧ ao_value output = ao_value (rr_output r)
     end) as [-> Hout].
  - destruct action; try by injection Hx as _ <- <-.
    destruct (rr_artifacts r) as [|d []] eqn:Ha; try done.
    destruct (pull_artifact fuel d self1) as [[self2 [contents| |]]|] eqn:Hp; try done.
    injection Hx as _ <- <-. split; [done|]. exists d, contents.
    apply pull_artifact_authentic in Hp as [? ?]; [by split_and!|].
    destruct He as (_ & _ & _ & _ & _ & _ & Hl & _). rewrite Ha in Hl.
    apply Forall_cons in Hl as [(_ & _ & [? _] & _) _]. done.
  - split; [done|]. exists remote, q, r.
    destruct action; try by destruct Hout.
    destruct Hout as (d & contents & ? & ? & ? & ? & ?). split_and!; try done. by exists d, contents.
Qed.
(** ** A peer that answers with empty chunks

    [ArtifactAssembler::push] accepts a chunk without data, so such a peer keeps
    the loop of [pull_artifact] going for as long as the session can count. *)
Definition idle_peer `{Sha2, PcCrypto} (id : Z) : PairedPcTransport SecureSession := λ frame b,
  match open frame b with
  | (b, Ok _) =>
      match encode_message (ArtifactChunkMessage (mkChunk id 0 [])) with
      | Ok rbs => seal rbs b
      | Err e => (b, Err e)
      | Panic => (b, Panic)
      end
  | (b, Err e) => (b, Err e)
  | (b, Panic) => (b, Panic)
  end.

Lemma idle_peer_never_ends `{Sha2, PcCrypto, !PcCryptoLaws} fuel d (self : PairedPcAdapter SecureSession) :
  session_wf (pa_session self) → mirrored (pa_session self) (pa_transport self) →
  room (Z.of_nat fuel) (pa_session self) → in_u64 (ad_transfer_id d) → validate_artifact d = Ok tt →
  0 < ad_length d < 2 ^ 63 → in_u32 (ad_chunk_size d) →
  pull_artifact (H:=idle_peer (ad_transfer_id d)) fuel d self = None.
Proof.
  intros Hwf Hm Hr Hid Hv Hl Hc. unfold pull_artifact, ArtifactAssembler_new, try_usize, try_u64.
  rewrite Hv. destruct (Z.ltb_spec (ad_length d) (2 ^ 64)); [|lia]. cbn [ok_or]. rewrite with_capacity_fits by lia.
  apply validate_artifact_Ok in Hv as (Hne & _).
  revert self Hwf Hm Hr. induction fuel as [|fuel IH]; intros self Hwf Hm Hr; cbn [pull_loop aa_next_offset];
    (destruct (Z.ltb_spec 0 (ad_length d)); [|lia]); [done|]. cbn [negb].
  destruct (exchange_peer (H2:=idle_peer (ad_transfer_id d)) (ArtifactPull (ad_transfer_id d) 0)
    (ArtifactChunkMessage (mkChunk (ad_transfer_id d) 0 [])) self (pa_transport self)
    (answered (pa_transport self)) Hwf Hm) as (He & Hwf' & Hm').
  - destruct Hr. split; lia.
  - by apply pull_sendable.
  - by apply frame_sendable.
  - intros frame bs reply rbs _ Er Ho Hs. unfold transport_exchange, idle_peer. by rewrite Ho, Er.
  - rewrite He. assert (assembler_push (mkAssembler d [] 0) (mkChunk (ad_transfer_id d) 0 []) =
      Ok (mkAssembler d [] 0)) as ->.
    { unfold assembler_push, try_usize, try_u64, checked_add_u64. cbn. unfold in_u32 in Hc.
      rewrite Z.eqb_refl. cbn. destruct (Z.ltb_spec (ad_chunk_size d) (2 ^ 64)); [|lia]. cbn [ok_or].
      change (len []) with 0. destruct (Z.ltb_spec (ad_chunk_size d) 0); [lia|].
      change (0 <? 2 ^ 64) with true. cbn [ok_or]. change (0 + 0 <? 2 ^ 64) with true. cbn [ok_or].
      change (0 + 0) with 0. by destruct (Z.ltb_spec (ad_length d) 0); [lia|]. }
    apply IH; [done..|]. destruct Hr. split; cbn; lia.
Qed.

(** ** Concrete instances *)
#[local] Existing Instances sha2_sample sample_crypto sample_crypto_laws sample_debug counting_handler.

Definition sample_execute : TypedAction :=
  PcExecute "workstation" "cargo" ["test"; "--workspace"]%string (Some "/w"%string).
Definition sample_adapter : PairedPcAdapter (DesktopAgent Z) :=
  mkAdapter "workstation" "pc.execute" 1 sample_session sample_agent.
Definition sample_offering : PairedPcAdapter (DesktopAgent Z) :=
  mkAdapter "workstation" "pc.execute" 1 sample_session
    (store_artifact ("result.txt"%string, sample_bytes) sample_agent).1.
Definition sample_sender : ArtifactSender :=
  mkSender (mkArtifact 1 "result.txt" 7 (sha2_digest sample_bytes) DEFAULT_ARTIFACT_CHUNK) sample_bytes.

Lemma sample_agent_inv : agent_inv sample_agent.
Proof.
  eapply agent_step_inv; [apply (step_register _ 0)|].
  split; cbn; [apply sample_session_wf|lia|by intros k s ?%lookup_empty_Some..].
Qed.
Lemma sample_paired : paired sample_adapter.
Proof. split; [apply sample_session_wf|by split]. Qed.
Lemma sample_offering_paired : paired sample_offering ∧ agent_inv (pa_transport sample_offering).
Proof.
  unfold sample_offering.
  destruct (store_artifact ("result.txt"%string, sample_bytes) sample_agent) as [a r] eqn:Hs.
  apply store_artifact_spec in Hs as [Hs Hi]. split; [|by apply Hi, sample_agent_inv].
  split; [apply sample_session_wf|]. cbn. rewrite (sq_session _ _ Hs). by split.
Qed.

Lemma pull_artifact_completes_witness :
  ∃ self', pull_artifact 7 (sd_descriptor sample_sender) sample_offering = Some (self', Ok sample_bytes).
Proof.
  destruct sample_offering_paired as [Hp Hi].
  destruct (pull_artifact_completes 7 sample_sender sample_offering Hp Hi) as (self' & Hx & _);
    [by vm_compute..| |by exists self'].
  split; by vm_compute.
Defined.

Lemma paired_execute_remote_witness :
  ∃ self', paired_execute 0 7 sample_execute sample_adapter = Some (self', reported sample_reply) ∧
    paired self'.
Proof.
  destruct (paired_execute_remote 0 7 sample_execute sample_adapter sample_action sample_request
    sample_after sample_reply) as [(r0 & q0 & x & y & Hc & _)|(self' & b & He & Hp & _)];
    [..|vm_compute in Hc; discriminate Hc|exists self'; exact (conj He Hp)].
  - exact sample_paired.
  - exact sample_agent_inv.
  - split; by vm_compute.
  - discriminate.
  - reflexivity.
  - exact sample_request_new.
  - apply sent_sendable. vm_compute. reflexivity.
  - apply sent_sendable. vm_compute. reflexivity.
  - exact sample_executes.
Defined.

Definition sample_ran := paired_execute 0 7 sample_execute sample_adapter.
Definition ran_output (x : option (PairedPcAdapter (DesktopAgent Z) * result string AdapterResult))
  : ActionOutput :=
  match x with Some (_, Ok (ACompleted output _)) => output | _ => ActionOutput_text "" "" end.
Definition ran_adapter (x : option (PairedPcAdapter (DesktopAgent Z) * result string AdapterResult))
  : PairedPcAdapter (DesktopAgent Z) :=
  match x with Some (self, _) => self | None => sample_adapter end.
Definition sample_output : ActionOutput := ran_output sample_ran.
Definition sample_next : PairedPcAdapter (DesktopAgent Z) := ran_adapter sample_ran.
Lemma sample_ran_completed :
  sample_ran = Some (sample_next, Ok (ACompleted sample_output None)).
Proof. vm_compute. reflexivity. Qed.

Lemma paired_execute_authentic_witness :
  ∃ q r, verify_against r q = Ok tt ∧ ao_value sample_output = ao_value (rr_output r).
Proof.
  destruct (paired_execute_authentic _ _ _ _ _ _ _ sample_ran_completed)
    as (_ & remote & q & r & _ & _ & Hv & _ & _ & Ho).
  exists q, r. exact (conj Hv Ho).
Defined.
End PcAdapterTheorems.
