(* ===== verification/TextTokenizer.v ===== *)
(** The vocabulary tokenizer: the first half of
    src/crates/ntd-runtime/src/tokenizer.rs.

    [encode] takes the longest token at each offset.  Its loop takes fuel, and
    [None] is a loop that has not ended with the fuel given. *)
From S2P Require Import Prelude Text.

Module TextTokenizer.

Inductive TokenizerError :=
| EmptyVocabulary
| EmptyToken (token : Z)
| DuplicateToken (first second : Z)
| InvalidSpecialToken (token : Z)
| InvalidScoreCount (expected actual : Z)
| InvalidTokenTypeCount (expected actual : Z)
| InvalidTokenType (token token_type : Z)
| NonFiniteScore (token : Z)
| MissingByteToken (b : byte)
| InvalidBpeMerge (merge : string)
| DuplicateBpeMerge (merge : string)
| MissingTokenPiece (piece : bytes)
| InvalidGpt2ByteChar (character : bytes)
| UnmatchedInput (offset : Z)
| InvalidTokenId (token : Z)
| InvalidUtf8
| Overflow.

#[export] Instance byte_countable : Countable byte :=
  inj_countable' Byte.to_N (λ n, default zero_byte (Byte.of_N n)) ltac:(by intros []).

Notation tok_result := (result TokenizerError).

(** ** Vocabularies *)

(** One turn of the loop of [validate_vocabulary]. *)
Definition see_token (seen : gmap bytes Z) (p : Z * bytes) : tok_result (gmap bytes Z) :=
  let? id := ok_or (try_u32 p.1) Overflow in
  if bool_decide (p.2 = []) then Err (EmptyToken id)
  else
    match seen !! p.2 with
    | Some first => Err (DuplicateToken first id)
    | None => Ok (<[p.2 := id]> seen)
    end.
Definition validate_vocabulary (tokens : list bytes) : tok_result unit :=
  if bool_decide (tokens = []) then Err EmptyVocabulary
  else let? _ := fold_result see_token ∅ (enumerate tokens) in Ok tt.

Definition check_special (n : Z) (special : option Z) : tok_result unit :=
  match special with
  | Some id =>
      let? index := ok_or (try_usize id) (InvalidSpecialToken id) in
      if n <=? index then Err (InvalidSpecialToken id) else Ok tt
  | None => Ok tt
  end.
Definition validate_specials (tokens : list bytes) (bos_token eos_token unknown_token : option Z)
  : tok_result unit :=
  check_all (check_special (len tokens)) [bos_token; eos_token; unknown_token].

Record VocabularyTokenizer := mkVocabulary {
  vt_tokens : list bytes;
  vt_bos_token : option Z;
  vt_eos_token : option Z;
  vt_unknown_token : option Z;
}.

Definition VocabularyTokenizer_new (tokens : list bytes) (bos_token eos_token unknown_token : option Z)
  : tok_result VocabularyTokenizer :=
  let? _ := validate_vocabulary tokens in
  let? _ := validate_specials tokens bos_token eos_token unknown_token in
  Ok (mkVocabulary tokens bos_token eos_token unknown_token).

Definition is_special (self : VocabularyTokenizer) (id : Z) : bool :=
  bool_decide (vt_bos_token self = Some id) || bool_decide (vt_eos_token self = Some id)
  || bool_decide (vt_unknown_token self = Some id).

(** ** Encoding *)
Definition starts_with (rest token : bytes) : bool := bool_decide (token `prefix_of` rest).

(** One turn of the loop over the vocabulary: the best length and id so far. *)
Definition best_step (self : VocabularyTokenizer) (rest : bytes) (best : option (Z * Z)) (p : Z * bytes)
  : tok_result (option (Z * Z)) :=
  let? id := ok_or (try_u32 p.1) Overflow in
  if is_special self id then Ok best
  else if negb (starts_with rest p.2) then Ok best
  else
    match best with
    | Some (best_len, best_id) =>
        if (len p.2 <? best_len) || ((best_len =? len p.2) && (best_id <? id)) then Ok best
        else Ok (Some (len p.2, id))
    | None => Ok (Some (len p.2, id))
    end.
Definition best_match (self : VocabularyTokenizer) (rest : bytes) : tok_result (option (Z * Z)) :=
  fold_result (best_step self rest) None (enumerate (vt_tokens self)).

Fixpoint encode_loop (fuel : nat) (self : VocabularyTokenizer) (bs : bytes) (offset : Z)
    (output : list Z) : option (tok_result (list Z)) :=
  if negb (offset <? len bs) then Some (Ok output)
  else
    match fuel with
    | O => None
    | S fuel' =>
        match best_match self (drop (Z.to_nat offset) bs) with
        | Ok (Some (matched_len, id)) =>
            match checked_add_usize offset matched_len with
            | Some offset => encode_loop fuel' self bs offset (output ++ [id])
            | None => Some (Err Overflow)
            end
        | Ok None =>
            match vt_unknown_token self with
            | Some unknown =>
                match checked_add_usize offset 1 with
                | Some offset => encode_loop fuel' self bs offset (output ++ [unknown])
                | None => Some (Err Overflow)
                end
            | None => Some (Err (UnmatchedInput offset))
            end
        | Err e => Some (Err e)
        | Panic => Some Panic
        end
    end.
Definition opt_list (o : option Z) : list Z := match o with Some x => [x] | None => [] end.
Definition vocabulary_encode (fuel : nat) (self : VocabularyTokenizer) (text : string) (add_bos : bool)
  : option (tok_result (list Z)) :=
  encode_loop fuel self (string_bytes text) 0 (if add_bos then opt_list (vt_bos_token self) else []).

(** ** Decoding *)
Definition decode_step (self : VocabularyTokenizer) (skip_special : bool) (bs : bytes) (id : Z)
  : tok_result bytes :=
  if skip_special && is_special self id then Ok bs
  else
    let? index := ok_or (try_usize id) (InvalidTokenId id) in
    let? token := ok_or (vt_tokens self !! Z.to_nat index) (InvalidTokenId id) in
    Ok (bs ++ token).
Definition vocabulary_decode (self : VocabularyTokenizer) (token_ids : list Z) (skip_special : bool)
  : tok_result string :=
  let? bs := fold_result (decode_step self skip_special) [] token_ids in
  ok_or (from_utf8 bs) InvalidUtf8.

(** ** What a tokenizer is *)
Record vocabulary_wf (self : VocabularyTokenizer) : Prop := {
  vw_nonempty : Forall (λ t, t ≠ []) (vt_tokens self);
  vw_nodup : NoDup (vt_tokens self);
  vw_count : 0 < len (vt_tokens self) ≤ 2 ^ 32;
  vw_special : ∀ id, is_special self id = true → id < len (vt_tokens self);
}.

Lemma see_tokens_Ok l seen :
  fold_result see_token ∅ (enumerate l) = Ok seen →
  Forall (λ t, t ≠ []) l ∧ NoDup l ∧ len l ≤ 2 ^ 32 ∧ (∀ t, is_Some (seen !! t) ↔ t ∈ l).
Proof.
  revert seen. induction l as [|x l IH] using rev_ind; intros seen.
  { intros [= <-]. split_and!; [constructor|constructor|rewrite len_nil; lia|].
    intros t. rewrite lookup_empty. split; [by intros []|by intros ?%elem_of_nil]. }
  rewrite enumerate_snoc, fold_result_snoc.
  destruct (fold_result see_token ∅ (enumerate l)) as [m| |] eqn:Hm; [|done..].
  destruct (IH m eq_refl) as (Hne & Hnd & Hl & Hs). unfold see_token, try_u32. cbn.
  destruct (Z.ltb_spec (len l) (2 ^ 32)); [|done]. cbn. case_bool_decide as Hx; [done|].
  destruct (m !! x) as [first|] eqn:Hmx; [done|]. intros [= <-].
  assert (x ∉ l) by (rewrite <- Hs, Hmx; by intros []).
  split_and!.
  - by apply Forall_app_2; [|constructor].
  - by apply NoDup_snoc.
  - rewrite len_app, len_cons, len_nil. lia.
  - intros t. rewrite lookup_insert_is_Some, Hs, elem_of_app, list_elem_of_singleton.
    destruct (decide (x = t)) as [->|]; naive_solver.
Qed.

Lemma validate_vocabulary_Ok tokens :
  validate_vocabulary tokens = Ok tt →
  Forall (λ t, t ≠ []) tokens ∧ NoDup tokens ∧ 0 < len tokens ≤ 2 ^ 32.
Proof.
  unfold validate_vocabulary. case_bool_decide as Hne; [done|].
  destruct (fold_result see_token ∅ (enumerate tokens)) as [seen| |] eqn:Hs; [|done..]. intros _.
  apply see_tokens_Ok in Hs as (? & ? & ? & _). split_and!; try done.
  pose proof (len_nonneg tokens). destruct (decide (len tokens = 0)) as [He|]; [|lia].
  by apply len_zero_nil in He.
Qed.

Lemma validate_specials_Ok tokens bos eos unk :
  validate_specials tokens bos eos unk = Ok tt →
  ∀ id, Some id = bos ∨ Some id = eos ∨ Some id = unk → id < len tokens.
Proof.
  unfold validate_specials. rewrite check_all_Ok. intros Hf id Hid.
  assert (check_special (len tokens) (Some id) = Ok tt) as Hc.
  { rewrite Forall_forall in Hf. apply Hf. destruct Hid as [-> | [-> | ->]]; set_solver. }
  unfold check_special, try_usize, try_u64 in Hc. destruct (Z.ltb_spec id (2 ^ 64)); [|done].
  cbn in Hc. by destruct (Z.leb_spec (len tokens) id).
Qed.

Lemma vocabulary_new_wf tokens bos eos unk self :
  VocabularyTokenizer_new tokens bos eos unk = Ok self →
  vocabulary_wf self ∧ self = mkVocabulary tokens bos eos unk.
Proof.
  unfold VocabularyTokenizer_new.
  destruct (validate_vocabulary tokens) as [[]| |] eqn:Hv; [|done..].
  destruct (validate_specials tokens bos eos unk) as [[]| |] eqn:Hs; [|done..]. intros [= <-].
  apply validate_vocabulary_Ok in Hv as (? & ? & ?). split; [|done]. split; cbn; try done.
  intros id Hid. eapply validate_specials_Ok in Hs; [exact Hs|].
  unfold is_special in Hid. cbn in Hid. rewrite !orb_true_iff, !bool_decide_eq_true in Hid. naive_solver.
Qed.

(** ** Longest matches *)
Section encoding.
Context (self : VocabularyTokenizer) (Hwf : vocabulary_wf self).

(** Token [t] with index [i] may be taken at [rest]. *)
Definition fits_at (l : list bytes) (rest : bytes) (i : nat) (t : bytes) : Prop :=
  l !! i = Some t ∧ is_special self (Z.of_nat i) = false ∧ t `prefix_of` rest.
Definition no_fit (l : list bytes) (rest : bytes) : Prop := ∀ i t, ¬ fits_at l rest i t.
(** The longest of them, the first of the longest. *)
Definition longest (l : list bytes) (rest : bytes) (i : nat) (t : bytes) : Prop :=
  fits_at l rest i t ∧
  ∀ j u, fits_at l rest j u → len u < len t ∨ (len u = len t ∧ (i ≤ j)%nat).

Definition best_in (l : list bytes) (rest : bytes) (best : option (Z * Z)) : Prop :=
  match best with
  | None => no_fit l rest
  | Some (n, id) => ∃ i t, id = Z.of_nat i ∧ n = len t ∧ longest l rest i t
  end.

Lemma fits_at_snoc l x rest i t :
  fits_at (l ++ [x]) rest i t ↔
  fits_at l rest i t ∨
  (i = length l ∧ t = x ∧ is_special self (len l) = false ∧ x `prefix_of` rest).
Proof.
  unfold fits_at. rewrite lookup_snoc_Some. split.
  - intros ([[Hi Hl]|[-> ->]] & Hs & Hp); [left; by split_and!|right]. by split_and!.
  - intros [(Hl & Hs & Hp)|(-> & -> & Hs & Hp)]; split_and!; try done; [left|by right].
    split; [by eapply lookup_lt_Some|done].
Qed.

Lemma best_match_in rest l :
  len l ≤ 2 ^ 32 →
  ∃ best, fold_result (best_step self rest) None (enumerate l) = Ok best ∧ best_in l rest best.
Proof.
  induction l as [|x l IH] using rev_ind; intros Hl.
  { exists None. split; [done|]. by intros i t [? _]. }
  rewrite len_app, len_cons, len_nil in Hl. destruct IH as (best & Hb & Hin); [lia|].
  rewrite enumerate_snoc, fold_result_snoc, Hb. unfold best_step, try_u32, starts_with. cbn [fst snd].
  destruct (Z.ltb_spec (len l) (2 ^ 32)); [|lia]. cbn [ok_or].
  assert (best_in l rest best → (∀ i t, fits_at (l ++ [x]) rest i t ↔ fits_at l rest i t) →
    best_in (l ++ [x]) rest best) as Hsame.
  { intros _ He. destruct best as [[n id]|]; cbn in *.
    - destruct Hin as (i & t & ? & ? & ? & Hmax). exists i, t. split_and!; try done.
      split; [by apply He|]. intros j u ?%He. by apply Hmax.
    - intros i t ?%He. by eapply Hin. }
  destruct (is_special self (len l)) eqn:Hsp.
  { exists best. split; [done|]. apply Hsame; [done|]. intros i t. rewrite fits_at_snoc.
    split; [intros [?|(_ & _ & ? & _)]; [done|congruence]|by left]. }
  case_bool_decide as Hp; cbn [negb].
  2: { exists best. split; [done|]. apply Hsame; [done|]. intros i t. rewrite fits_at_snoc.
       split; [by intros [?|(_ & _ & _ & ?)]|by left]. }
  assert (fits_at (l ++ [x]) rest (length l) x) as Hx by (apply fits_at_snoc; right; by split_and!).
  destruct best as [[n id]|]; cbn in Hin.
  - destruct Hin as (i & t & -> & -> & Hf & Hmax).
    assert (i < length l)%nat as Hi by (destruct Hf as (? & _); by eapply lookup_lt_Some).
    destruct (Z.ltb_spec (len x) (len t)); cbn [orb].
    + eexists. split; [done|]. exists i, t. split_and!; try done. split; [apply fits_at_snoc; by left|].
      intros j u [Hj|(-> & -> & _)]%fits_at_snoc; [by apply Hmax|by left].
    + destruct (Z.eqb_spec (len t) (len x)) as [Heq|]; cbn [andb].
      * destruct (Z.ltb_spec (Z.of_nat i) (len l)); [|unfold len in *; lia].
        eexists. split; [done|]. exists i, t. split_and!; try done. split; [apply fits_at_snoc; by left|].
        intros j u [Hj|(-> & -> & _)]%fits_at_snoc; [by apply Hmax|right; lia].
      * eexists. split; [done|]. exists (length l), x. split_and!; try done. split; [done|].
        intros j u [Hj|(-> & -> & _)]%fits_at_snoc; [|right; lia].
        destruct (Hmax j u Hj); left; lia.
  - eexists. split; [done|]. exists (length l), x. split_and!; try done. split; [done|].
    intros j u [Hj|(-> & -> & _)]%fits_at_snoc; [by destruct (Hin j u)|right; lia].
Qed.

(** ** What encoding a text means *)
Notation tokens := (vt_tokens self).
Inductive greedy : bytes → list Z → Prop :=
| greedy_nil : greedy [] []
| greedy_token i t rest ids :
    longest tokens (t ++ rest) i t → greedy rest ids → greedy (t ++ rest) (Z.of_nat i :: ids)
| greedy_unknown unknown b rest ids :
    no_fit tokens (b :: rest) → vt_unknown_token self = Some unknown → greedy rest ids →
    greedy (b :: rest) (unknown :: ids).

Lemma encode_loop_spec fuel bs offset output :
  len bs < 2 ^ 64 → 0 ≤ offset ≤ len bs → len bs - offset ≤ Z.of_nat fuel →
  ∃ r, encode_loop fuel self bs offset output = Some r ∧
  match r with
  | Ok out => ∃ ids, out = output ++ ids ∧ greedy (drop (Z.to_nat offset) bs) ids
  | Err e => ∃ o, e = UnmatchedInput o ∧ offset ≤ o < len bs ∧ vt_unknown_token self = None ∧
      no_fit tokens (drop (Z.to_nat o) bs)
  | Panic => False
  end.
Proof.
  intros Hb. revert offset output. induction fuel as [|fuel IH]; intros offset output Ho Hf;
    cbn [encode_loop]; destruct (Z.ltb_spec offset (len bs)) as [Hlt|Hge]; cbn [negb].
  2, 4: eexists; split; [done|]; exists []; rewrite app_nil_r; split; [done|];
    rewrite drop_ge by (unfold len in *; lia); constructor.
  - lia.
  - destruct (best_match_in (drop (Z.to_nat offset) bs) tokens) as (best & Hbest & Hin);
      [by apply (vw_count self Hwf)|].
    unfold best_match. rewrite Hbest. destruct best as [[n id]|]; cbn in Hin.
    + destruct Hin as (i & t & -> & -> & Hl). pose proof Hl as [(Ht & _ & [rest Hrest]) _].
      assert (0 < len t) as Hpos.
      { pose proof (vw_nonempty self Hwf) as Hne. rewrite Forall_lookup in Hne.
        specialize (Hne _ _ Ht). pose proof (len_nonneg t).
        destruct (decide (len t = 0)) as [?%len_zero_nil|]; [done|lia]. }
      assert (len t + len rest = len bs - offset) as Hlen.
      { apply (f_equal len) in Hrest. rewrite len_app in Hrest. rewrite <- Hrest.
        unfold len in *. rewrite length_drop. lia. }
      pose proof (len_nonneg rest). unfold checked_add_usize, checked_add_u64.
      destruct (Z.ltb_spec (offset + len t) (2 ^ 64)); [|lia].
      destruct (IH (offset + len t) (output ++ [Z.of_nat i])) as (r & Hr & Hspec); [lia..|].
      exists r. split; [done|]. destruct r as [out|e|]; [| |done].
      * destruct Hspec as (ids & -> & Hg). exists (Z.of_nat i :: ids). rewrite <- app_assoc. split; [done|].
        rewrite Hrest in Hl |- *. constructor; [done|].
        replace (Z.to_nat (offset + len t)) with (Z.to_nat offset + length t)%nat in Hg
          by (unfold len; lia).
        by rewrite <- drop_drop, Hrest, drop_app_length in Hg.
      * destruct Hspec as (o & ? & [? ?] & ? & ?). exists o. split_and!; (done || lia).
    + destruct (vt_unknown_token self) as [u|] eqn:Hu; [|eexists; split; [done|];
        exists offset; by split_and!].
      unfold checked_add_usize, checked_add_u64. destruct (Z.ltb_spec (offset + 1) (2 ^ 64)); [|lia].
      destruct (IH (offset + 1) (output ++ [u])) as (r & Hr & Hspec); [lia..|].
      exists r. split; [done|]. destruct r as [out|e|]; [| |done].
      * destruct Hspec as (ids & -> & Hg). exists (u :: ids). rewrite <- app_assoc. split; [done|].
        destruct (drop (Z.to_nat offset) bs) as [|b rest] eqn:Hd.
        { apply (f_equal length) in Hd. rewrite length_drop in Hd. cbn in Hd. unfold len in *. lia. }
        replace (Z.to_nat (offset + 1)) with (Z.to_nat offset + 1)%nat in Hg by lia.
        rewrite <- drop_drop, Hd in Hg. by constructor.
      * destruct Hspec as (o & ? & ? & ? & ?). congruence.
Qed.

Lemma decode_greedy skip bs ids out :
  greedy bs ids → (∀ u, vt_unknown_token self = Some u → u ∉ ids) →
  fold_result (decode_step self skip) out ids = Ok (out ++ bs).
Proof.
  intros Hg. revert out.
  induction Hg as [|i t rest ids [(Ht & Hs & _) _] Hg IH|u b rest ids _ Hu Hg IH]; intros out Hn.
  - by rewrite app_nil_r.
  - cbn [fold_result]. unfold decode_step at 1. rewrite Hs, andb_false_r.
    pose proof (lookup_lt_Some _ _ _ Ht). pose proof (vw_count self Hwf).
    unfold try_usize, try_u64. destruct (Z.ltb_spec (Z.of_nat i) (2 ^ 64)); [|unfold len in *; lia].
    cbn [ok_or]. rewrite Nat2Z.id, Ht. cbn [ok_or]. rewrite IH, <- app_assoc; [done|].
    intros u Hu Hin. apply (Hn u Hu). by right.
  - destruct (Hn u Hu). by left.
Qed.
End encoding.

(** ** Properties *)

(** Encoding ends, and each token it emits is the longest token without a special role
    that the text has at its place, the one with the least id among equals; where none fits
    it emits the unknown token for one byte or reports the offset. *)
Theorem vocabulary_encode_longest tokens bos eos unknown self text add_bos :
  VocabularyTokenizer_new tokens bos eos unknown = Ok self → len (string_bytes text) < 2 ^ 64 →
  ∃ r, vocabulary_encode (length (string_bytes text)) self text add_bos = Some r ∧
  match r with
  | Ok out => ∃ ids, out = (if add_bos then opt_list bos else []) ++ ids ∧
      greedy self (string_bytes text) ids
  | Err e => ∃ o, e = UnmatchedInput o ∧ 0 ≤ o < len (string_bytes text) ∧ unknown = None ∧
      no_fit self tokens (drop (Z.to_nat o) (string_bytes text))
  | Panic => False
  end.
Proof.
  intros [Hwf ->]%vocabulary_new_wf Hl. unfold vocabulary_encode. pose proof (len_nonneg (string_bytes text)).
  apply (encode_loop_spec _ Hwf (length (string_bytes text)) (string_bytes text) 0); [done|lia|unfold len; lia].
Qed.

(** Decoding an encoding that needed no unknown token gives the text back. *)
Theorem vocabulary_round_trip tokens bos eos unknown self text add_bos ids :
  VocabularyTokenizer_new tokens bos eos unknown = Ok self → len (string_bytes text) < 2 ^ 64 →
  is_utf8 text →
  vocabulary_encode (length (string_bytes text)) self text add_bos = Some (Ok ids) →
  (∀ u, unknown = Some u → u ∉ ids) →
  vocabulary_decode self ids true = Ok text ∧
  (add_bos = false → vocabulary_decode self ids false = Ok text).
Proof.
  intros [Hwf Heq]%vocabulary_new_wf Hl Ht Hx Hn. unfold vocabulary_encode in Hx.
  pose proof (len_nonneg (string_bytes text)).
  edestruct (encode_loop_spec _ Hwf (length (string_bytes text)) (string_bytes text) 0)
    as (r & Hr & Hs); [done|lia|unfold len; lia|].
  rewrite Hr in Hx. injection Hx as ->. cbn in Hs. destruct Hs as (ids' & -> & Hg). rewrite drop_0 in Hg.
  assert (∀ u, vt_unknown_token self = Some u → u ∉ ids') as Hn'.
  { intros u Hu Hin. apply (Hn u); [by rewrite Heq in Hu|]. apply elem_of_app. by right. }
  assert (∀ skip, fold_result (decode_step self skip) [] ids' = Ok (string_bytes text)) as Hd
    by (intros skip; by apply (decode_greedy _ Hwf skip _ _ [])).
  unfold vocabulary_decode. split.
  - assert (fold_result (decode_step self true) [] ((if add_bos then opt_list (vt_bos_token self) else []) ++ ids')
      = Ok (string_bytes text)) as ->; [|by rewrite (from_utf8_string _ Ht)].
    destruct add_bos; [|apply Hd]. destruct (vt_bos_token self) as [b|] eqn:Hb; [|apply Hd].
    cbn [opt_list app fold_result]. unfold decode_step at 1. unfold is_special at 1.
    rewrite Hb, bool_decide_true by done. apply Hd.
  - intros ->. cbn [app]. by rewrite Hd, (from_utf8_string _ Ht).
Qed.

(** ** Concrete instances *)
Definition sample_tokens : list bytes :=
  map string_bytes ["<s>"; "hello"; "hell"; " "; "o"; "world"]%string.
Definition sample_tokenizer : VocabularyTokenizer := mkVocabulary sample_tokens (Some 0) None None.
Lemma sample_tokenizer_new : VocabularyTokenizer_new sample_tokens (Some 0) None None = Ok sample_tokenizer.
Proof. vm_compute. reflexivity. Qed.

Lemma vocabulary_encode_longest_witness :
  ∃ ids, vocabulary_encode 11 sample_tokenizer "hello world" true = Some (Ok (0 :: ids)) ∧
    greedy sample_tokenizer (string_bytes "hello world") ids.
Proof.
  destruct (vocabulary_encode_longest _ _ _ _ _ "hello world" true sample_tokenizer_new
              ltac:(vm_compute; reflexivity)) as (r & Hr & Hs).
  exists [1; 3; 5]. split; [vm_compute; reflexivity|].
  destruct r as [out|e|]; [|vm_compute in Hr; discriminate..].
  destruct Hs as (ids & -> & Hg). vm_compute in Hr. injection Hr as <-. exact Hg.
Defined.

Lemma vocabulary_round_trip_witness :
  vocabulary_decode sample_tokenizer [0; 1; 3; 5] true = Ok "hello world"%string.
Proof.
  refine (proj1 (vocabulary_round_trip _ _ _ _ _ "hello world" true [0; 1; 3; 5] sample_tokenizer_new _ _ _ _));
    [vm_compute; reflexivity..|discriminate].
Defined.
End TextTokenizer.
