(* ===== verification/SpmTokenizer.v ===== *)
(** The SentencePiece tokenizer: the second half of
    src/crates/ntd-runtime/src/tokenizer.rs.

    [encode] merges neighbouring symbols of a doubly linked list in the order a
    binary heap gives them.  The loops take fuel; [None] is a loop that has not
    ended with the fuel given.  A score is the bit pattern of its [f32]. *)
From S2P Require Import Prelude Text Chars NativeTensor TextTokenizer.

Module SpmTokenizer.
Import TextTokenizer.

Definition TOKEN_TYPE_NORMAL : Z := 1.
Definition TOKEN_TYPE_UNKNOWN : Z := 2.
Definition TOKEN_TYPE_CONTROL : Z := 3.
Definition TOKEN_TYPE_USER_DEFINED : Z := 4.
Definition TOKEN_TYPE_UNUSED : Z := 5.
Definition TOKEN_TYPE_BYTE : Z := 6.
Definition SPM_SPACE : bytes := map byte_of_Z [0xE2; 0x96; 0x81].

Record LlamaSpmConfig := mkSpmConfig {
  sc_bos_token : option Z;
  sc_eos_token : option Z;
  sc_unknown_token : option Z;
  sc_add_space_prefix : bool;
  sc_add_bos_token : bool;
  sc_add_eos_token : bool;
}.

Record LlamaSpmTokenizer := mkSpm {
  sp_tokens : list bytes;
  sp_score_bits : list Z;
  sp_token_types : list Z;
  sp_config : LlamaSpmConfig;
  sp_token_to_id : gmap bytes Z;
  sp_byte_tokens : list (option Z);
}.

(** ** Byte pieces *)
Definition hex_nibble (value : byte) : option Z :=
  let v := Z_of_byte value in
  if (48 <=? v) && (v <=? 57) then Some (v - 48)
  else if (97 <=? v) && (v <=? 102) then Some (v - 97 + 10)
  else if (65 <=? v) && (v <=? 70) then Some (v - 65 + 10)
  else None.

Definition parse_byte_piece (token : bytes) : option byte :=
  match token with
  | [b] => Some b
  | [a; b; c; d; e; f] =>
      if negb (bool_decide ([a; b; c] = string_bytes "<0x")) || negb (bool_decide (f = Byte.x3e))
      then None
      else
        match hex_nibble d, hex_nibble e with
        | Some high, Some low => Some (byte_of_Z (Z.lor (Z.shiftl high 4) low))
        | _, _ => None
        end
  | _ => None
  end.

(** ** Construction *)

(** One turn of the loop of [new]: the index of the tokens, and the byte tokens. *)
Definition index_token (score_bits token_types : list Z) (st : gmap bytes Z * list (option Z))
    (p : Z * bytes) : tok_result (gmap bytes Z * list (option Z)) :=
  let '(index, token) := p in
  let? id := ok_or (try_u32 index) Overflow in
  let? score := or_panic (score_bits !! Z.to_nat index) in
  if negb (f32_is_finite score) then Err (NonFiniteScore id)
  else
    let? token_type := or_panic (token_types !! Z.to_nat index) in
    if negb ((TOKEN_TYPE_NORMAL <=? token_type) && (token_type <=? TOKEN_TYPE_BYTE))
    then Err (InvalidTokenType id token_type)
    else
      let token_to_id := <[token := id]> st.1 in
      if token_type =? TOKEN_TYPE_BYTE then
        match parse_byte_piece token with
        | Some b => Ok (token_to_id, <[Z.to_nat (Z_of_byte b) := Some id]> st.2)
        | None => Ok (token_to_id, st.2)
        end
      else Ok (token_to_id, st.2).

Definition LlamaSpmTokenizer_new (tokens : list bytes) (score_bits token_types : list Z)
    (config : LlamaSpmConfig) : tok_result LlamaSpmTokenizer :=
  let? _ := validate_vocabulary tokens in
  let? _ := validate_specials tokens (sc_bos_token config) (sc_eos_token config)
              (sc_unknown_token config) in
  if negb (len score_bits =? len tokens) then Err (InvalidScoreCount (len tokens) (len score_bits))
  else if negb (len token_types =? len tokens)
  then Err (InvalidTokenTypeCount (len tokens) (len token_types))
  else
    let? '(token_to_id, byte_tokens) :=
      fold_result (index_token score_bits token_types) (∅, replicate 256 None) (enumerate tokens) in
    Ok (mkSpm tokens score_bits token_types config token_to_id byte_tokens).

(** ** Symbols and bigrams *)
Definition normalize_spm (text : string) (add_space_prefix : bool) : bytes :=
  (if add_space_prefix && negb (string_is_empty text) then SPM_SPACE else []) ++
  concat (map (λ c, if bool_decide (c = [Byte.x20]) then SPM_SPACE else c) (string_chars text)).

Definition utf8_char_len (first : byte) : Z :=
  let b := Z_of_byte first in
  if Z.land b 128 =? 0 then 1
  else if Z.land b 224 =? 192 then 2
  else if Z.land b 240 =? 224 then 3
  else if Z.land b 248 =? 240 then 4
  else 1.

Record SpmSymbol := mkSymbol {
  sy_start : Z;
  sy_len : Z;
  sy_prev : option Z;
  sy_next : option Z;
}.
Definition set_prev (p : option Z) (s : SpmSymbol) : SpmSymbol :=
  mkSymbol (sy_start s) (sy_len s) p (sy_next s).
Definition set_next (n : option Z) (s : SpmSymbol) : SpmSymbol :=
  mkSymbol (sy_start s) (sy_len s) (sy_prev s) n.
Definition set_len (l : Z) (s : SpmSymbol) : SpmSymbol :=
  mkSymbol (sy_start s) l (sy_prev s) (sy_next s).

(** [symbols[i]] read and updated. *)
Definition symbol_at (symbols : list SpmSymbol) (i : Z) : tok_result SpmSymbol :=
  or_panic (symbols !! Z.to_nat i).
Definition update_at (symbols : list SpmSymbol) (i : Z) (f : SpmSymbol → SpmSymbol)
  : tok_result (list SpmSymbol) :=
  let? s := symbol_at symbols i in Ok (<[Z.to_nat i := f s]> symbols).

Fixpoint split_loop (fuel : nat) (text : bytes) (offset : Z) (symbols : list SpmSymbol)
  : option (list SpmSymbol) :=
  match drop (Z.to_nat offset) text with
  | [] => Some symbols
  | first :: _ =>
      match fuel with
      | O => None
      | S fuel' =>
          let n := Z.min (utf8_char_len first) (len text - offset) in
          let index := len symbols in
          let symbol := mkSymbol offset n (if index =? 0 then None else Some (index - 1)) None in
          let symbols := alter (set_next (Some index)) (Z.to_nat index - 1)%nat symbols ++ [symbol] in
          split_loop fuel' text (offset + n) symbols
      end
  end.
Definition split_utf8_symbols (fuel : nat) (text : bytes) : option (list SpmSymbol) :=
  split_loop fuel text 0 [].

Record SpmBigram := mkBigram {
  bg_left : Z;
  bg_right : Z;
  bg_score : Z;
  bg_size : Z;
}.
(** [f32::total_cmp] orders bit patterns as these integers. *)
Definition total_key (bits : Z) : Z := if bits <? 2 ^ 31 then bits else 2 ^ 31 - 1 - bits.
(** [Ord for SpmBigram]. *)
Definition bigram_cmp (a b : SpmBigram) : comparison :=
  match total_key (bg_score a) ?= total_key (bg_score b) with
  | Eq => match bg_left b ?= bg_left a with Eq => bg_right b ?= bg_right a | c => c end
  | c => c
  end.

(** [BinaryHeap<SpmBigram>] as the list of its elements: [pop] takes one that is
    not below any other; which one, among equals, is not specified. *)
Class SpmHeap := {
  heap_pop : list SpmBigram → option (SpmBigram * list SpmBigram);
  heap_pop_None : ∀ q, heap_pop q = None ↔ q = [];
  heap_pop_Some : ∀ q b q', heap_pop q = Some (b, q') →
    q ≡ₚ b :: q' ∧ Forall (λ x, bigram_cmp b x ≠ Lt) q';
}.

Definition is_merge_token_type (token_type : Z) : bool :=
  (token_type =? TOKEN_TYPE_NORMAL) || (token_type =? TOKEN_TYPE_USER_DEFINED).
Definition is_output_token_type (token_type : Z) : bool :=
  (token_type =? TOKEN_TYPE_NORMAL) || (token_type =? TOKEN_TYPE_UNKNOWN)
  || (token_type =? TOKEN_TYPE_USER_DEFINED).

(** ** Computations with fuel *)
Definition fuelled (A : Type) : Type := option (tok_result A).
Definition fuel_bind {A B} (m : fuelled A) (k : A → fuelled B) : fuelled B :=
  match m with
  | Some (Ok a) => k a
  | Some (Err e) => Some (Err e)
  | Some Panic => Some Panic
  | None => None
  end.
Notation "'fuel!' x ':=' m 'in' k" := (fuel_bind m (λ x, k))
  (at level 10, x name, m at level 100, k at level 200).
Notation "'fuel!' ' p ':=' m 'in' k" := (fuel_bind m (λ p, k))
  (at level 10, p strict pattern, m at level 100, k at level 200).

(** The queue and the reverse merges. *)
Definition Merges : Type := list SpmBigram * gmap bytes (bytes * bytes).

Section spm.
Context `{SpmHeap}.
Variable self : LlamaSpmTokenizer.

Definition try_add_bigram (norm : bytes) (symbols : list SpmSymbol) (left right : Z) (st : Merges)
  : tok_result Merges :=
  let? l := symbol_at symbols left in
  let? r := symbol_at symbols right in
  if (sy_len l =? 0) || (sy_len r =? 0) then Ok st
  else
    let? left_end := ok_or (checked_add_usize (sy_start l) (sy_len l)) Overflow in
    if negb (left_end =? sy_start r) then Ok st
    else
      let? end_ := ok_or (checked_add_usize left_end (sy_len r)) Overflow in
      let? text := ok_or (get_range norm (sy_start l) end_) Overflow in
      match sp_token_to_id self !! text with
      | None => Ok st
      | Some token_id =>
          let? token_index := ok_or (try_usize token_id) (InvalidTokenId token_id) in
          let? token_type := or_panic (sp_token_types self !! Z.to_nat token_index) in
          if negb (is_merge_token_type token_type) then Ok st
          else
            let? score := or_panic (sp_score_bits self !! Z.to_nat token_index) in
            let? left_text := slice norm (sy_start l) left_end in
            let? right_text := slice norm left_end end_ in
            Ok (mkBigram left right score (len text) :: st.1, <[text := (left_text, right_text)]> st.2)
      end.

(** The loop over the neighbours at the start. *)
Definition first_bigrams (norm : bytes) (symbols : list SpmSymbol) : tok_result Merges :=
  fold_result (λ st right, try_add_bigram norm symbols (right - 1) right st) ([], ∅)
    (map Z.of_nat (seq 1 (length symbols - 1))).

(** The body of the merge loop, for the bigram that was popped. *)
Definition merge_bigram (norm : bytes) (b : SpmBigram) (symbols : list SpmSymbol) (st : Merges)
  : tok_result (list SpmSymbol * Merges) :=
  let? l := symbol_at symbols (bg_left b) in
  let? r := symbol_at symbols (bg_right b) in
  if (sy_len l =? 0) || (sy_len r =? 0) then Ok (symbols, st)
  else
    let? size := ok_or (checked_add_usize (sy_len l) (sy_len r)) Overflow in
    if negb (size =? bg_size b) then Ok (symbols, st)
    else if negb (bool_decide (sy_next l = Some (bg_right b))) then Ok (symbols, st)
    else
      let right_next := sy_next r in
      let? symbols := update_at symbols (bg_left b) (λ s, set_next right_next (set_len (bg_size b) s)) in
      let? symbols := update_at symbols (bg_right b) (set_len 0) in
      let? symbols :=
        match right_next with
        | Some next => update_at symbols next (set_prev (Some (bg_left b)))
        | None => Ok symbols
        end in
      let? l := symbol_at symbols (bg_left b) in
      let? st :=
        match sy_prev l with
        | Some prev => try_add_bigram norm symbols prev (bg_left b) st
        | None => Ok st
        end in
      let? st :=
        match sy_next l with
        | Some next => try_add_bigram norm symbols (bg_left b) next st
        | None => Ok st
        end in
      Ok (symbols, st).

Fixpoint merge_loop (fuel : nat) (norm : bytes) (symbols : list SpmSymbol) (st : Merges)
  : fuelled (list SpmSymbol * Merges) :=
  match heap_pop st.1 with
  | None => Some (Ok (symbols, st))
  | Some (b, queue) =>
      match fuel with
      | O => None
      | S fuel' =>
          fuel! ' (symbols, st) := Some (merge_bigram norm b symbols (queue, st.2)) in
          merge_loop fuel' norm symbols st
      end
  end.

(** ** Emitting pieces *)
Definition emit_bytes (text : bytes) (output : list Z) : tok_result (list Z) :=
  fold_result (λ output b,
    let? token := ok_or (default None (sp_byte_tokens self !! Z.to_nat (Z_of_byte b)))
                    (MissingByteToken b) in
    Ok (output ++ [token])) output text.

Fixpoint emit_piece (fuel : nat) (text : bytes) (reverse_merges : gmap bytes (bytes * bytes))
    (output : list Z) : fuelled (list Z) :=
  fuel! known :=
    match sp_token_to_id self !! text with
    | Some token_id => Some (
        let? index := ok_or (try_usize token_id) (InvalidTokenId token_id) in
        let? token_type := or_panic (sp_token_types self !! Z.to_nat index) in
        Ok (if is_output_token_type token_type then Some token_id else None))
    | None => Some (Ok None)
    end in
  match known with
  | Some token_id => Some (Ok (output ++ [token_id]))
  | None =>
      match reverse_merges !! text with
      | Some (first, second) =>
          match fuel with
          | O => None
          | S fuel' =>
              fuel! output := emit_piece fuel' first reverse_merges output in
              emit_piece fuel' second reverse_merges output
          end
      | None => Some (emit_bytes text output)
      end
  end.

(** The walk over the remaining symbols. *)
Fixpoint walk_loop (fuel : nat) (norm : bytes) (symbols : list SpmSymbol)
    (reverse_merges : gmap bytes (bytes * bytes)) (current : option Z) (output : list Z)
  : fuelled (list Z) :=
  match current with
  | None => Some (Ok output)
  | Some index =>
      match fuel with
      | O => None
      | S fuel' =>
          fuel! symbol := Some (symbol_at symbols index) in
          fuel! output :=
            if 0 <? sy_len symbol then
              fuel! end_ := Some (ok_or (checked_add_usize (sy_start symbol) (sy_len symbol)) Overflow) in
              fuel! piece := Some (slice norm (sy_start symbol) end_) in
              emit_piece (length norm) piece reverse_merges output
            else Some (Ok output) in
          walk_loop fuel' norm symbols reverse_merges (sy_next symbol) output
      end
  end.

Definition encode_normalized (norm : bytes) (output : list Z) : fuelled (list Z) :=
  match split_utf8_symbols (length norm) norm with
  | None => None
  | Some symbols =>
      fuel! st := Some (first_bigrams norm symbols) in
      fuel! ' (symbols, st) := merge_loop (3 * length norm) norm symbols st in
      if bool_decide (symbols = []) then Some (Ok output)
      else walk_loop (length norm) norm symbols st.2 (Some 0) output
  end.

Definition spm_encode (text : string) (add_special_tokens : bool) : fuelled (list Z) :=
  let config := sp_config self in
  let norm := normalize_spm text (sc_add_space_prefix config) in
  let output := if add_special_tokens && sc_add_bos_token config then opt_list (sc_bos_token config)
                else [] in
  fuel! output :=
    if negb (bool_decide (norm = [])) then encode_normalized norm output else Some (Ok output) in
  Some (Ok (if add_special_tokens && sc_add_eos_token config then output ++ opt_list (sc_eos_token config)
            else output)).

(** ** Decoding *)
Fixpoint append_unescaped_spm (token : bytes) : bytes :=
  match token with
  | [] => []
  | a :: token1 =>
      match token1 with
      | b :: c :: token3 =>
          if bool_decide ([a; b; c] = SPM_SPACE) then Byte.x20 :: append_unescaped_spm token3
          else a :: append_unescaped_spm token1
      | _ => a :: append_unescaped_spm token1
      end
  end.

Definition skipped (skip_special : bool) (id token_type : Z) : bool :=
  let config := sp_config self in
  skip_special &&
  (bool_decide (sc_bos_token config = Some id) || bool_decide (sc_eos_token config = Some id)
   || bool_decide (sc_unknown_token config = Some id) || (token_type =? TOKEN_TYPE_CONTROL)
   || (token_type =? TOKEN_TYPE_UNUSED)).

(** One turn of the loop of [decode_after]: the bytes so far, and
    [strip_dummy_prefix]. *)
Definition spm_decode_step (skip_special : bool) (st : bytes * bool) (id : Z)
  : tok_result (bytes * bool) :=
  let '(bs, strip_dummy_prefix) := st in
  let? index := ok_or (try_usize id) (InvalidTokenId id) in
  let? token := ok_or (sp_tokens self !! Z.to_nat index) (InvalidTokenId id) in
  let? token_type := or_panic (sp_token_types self !! Z.to_nat index) in
  if skipped skip_special id token_type
  then Ok (bs, sc_add_space_prefix (sp_config self) && bool_decide (sc_bos_token (sp_config self) = Some id))
  else
    let before := length bs in
    let? bs :=
      if token_type =? TOKEN_TYPE_BYTE then
        let? b := ok_or (parse_byte_piece token) (InvalidTokenType id token_type) in Ok (bs ++ [b])
      else Ok (bs ++ append_unescaped_spm token) in
    Ok (if strip_dummy_prefix && bool_decide (bs !! before = Some Byte.x20)
        then take before bs ++ drop (S before) bs else bs, false).

Definition decode_after (previous_token : option Z) (token_ids : list Z) (skip_special : bool)
  : tok_result string :=
  let strip := sc_add_space_prefix (sp_config self)
               && bool_decide (previous_token = sc_bos_token (sp_config self)) in
  let? '(bs, _) := fold_result (spm_decode_step skip_special) ([], strip) token_ids in
  ok_or (from_utf8 bs) InvalidUtf8.
Definition spm_decode (token_ids : list Z) (skip_special : bool) : tok_result string :=
  decode_after None token_ids skip_special.
End spm.
End SpmTokenizer.
