(* ===== verification/SpmTheorems.v ===== *)
(** The SentencePiece tokenizer ends, and its output spells the normalized
    text. *)
From S2P Require Import Prelude Text Chars NativeTensor TextTokenizer SpmTokenizer.

Module SpmTheorems.
Import TextTokenizer SpmTokenizer.

(** ** The linked list of symbols

    [seg symbols prev pos chain next fin]: the symbols with the indices [chain]
    are linked, between [prev] and [next], and cover the text from [pos] to
    [fin] without gaps. *)
Fixpoint seg (symbols : list SpmSymbol) (prev : option Z) (pos : Z) (chain : list Z)
    (next : option Z) (fin : Z) : Prop :=
  match chain with
  | [] => pos = fin
  | i :: rest => ∃ s, symbols !! Z.to_nat i = Some s ∧ 0 ≤ i ∧ sy_start s = pos ∧ 0 < sy_len s ∧
      sy_prev s = prev ∧ sy_next s = (match rest with j :: _ => Some j | [] => next end) ∧
      seg symbols (Some i) (pos + sy_len s) rest next fin
  end.

Definition first_or (chain : list Z) (next : option Z) : option Z :=
  match chain with j :: _ => Some j | [] => next end.
Definition last_or (chain : list Z) (prev : option Z) : option Z :=
  match last chain with Some j => Some j | None => prev end.

Lemma seg_app symbols prev pos c1 c2 next fin :
  seg symbols prev pos (c1 ++ c2) next fin ↔
  ∃ mid, seg symbols prev pos c1 (first_or c2 next) mid ∧
         seg symbols (last_or c1 prev) mid c2 next fin.
Proof.
  revert prev pos. induction c1 as [|i c1 IH]; intros prev pos; cbn [app seg].
  { split; [by exists pos|by intros (mid & -> & ?)]. }
  assert (∀ k, (match k ++ c2 with j :: _ => Some j | [] => next end) =
               (match k with j :: _ => Some j | [] => first_or c2 next end)) as Hm by (by intros []).
  rewrite Hm. split.
  - intros (s & ? & ? & ? & ? & ? & ? & (mid & ? & Hl)%IH). exists mid. split; [by exists s|].
    unfold last_or in *. rewrite last_cons. by destruct (last c1).
  - intros (mid & (s & ? & ? & ? & ? & ? & ? & ?) & Hl). exists s. split_and!; try done.
    apply IH. exists mid. split; [done|]. unfold last_or in *. rewrite last_cons in Hl.
    by destruct (last c1).
Qed.

Lemma seg_ext symbols symbols' prev pos chain next fin :
  (∀ i, i ∈ chain → symbols' !! Z.to_nat i = symbols !! Z.to_nat i) →
  seg symbols prev pos chain next fin → seg symbols' prev pos chain next fin.
Proof.
  revert prev pos. induction chain as [|i chain IH]; intros prev pos He; cbn [seg]; [done|].
  intros (s & ? & ? & ? & ? & ? & ? & ?). exists s. rewrite He by left.
  split_and!; try done. apply IH; [|done]. intros j Hj. apply He. by right.
Qed.

Lemma seg_bounds symbols prev pos chain next fin :
  seg symbols prev pos chain next fin → pos + len chain ≤ fin.
Proof.
  revert prev pos. induction chain as [|i chain IH]; intros prev pos; cbn [seg]; [intros ->; rewrite len_nil; lia|].
  intros (s & _ & _ & _ & ? & _ & _ & Hs%IH). rewrite len_cons. lia.
Qed.

Lemma seg_nonneg symbols prev pos chain next fin i :
  seg symbols prev pos chain next fin → i ∈ chain → 0 ≤ i < len symbols.
Proof.
  revert prev pos. induction chain as [|j chain IH]; intros prev pos; cbn [seg]; [by intros _ ?%elem_of_nil|].
  intros (s & Hs & ? & _ & _ & _ & _ & Hr) [->|Hi]%elem_of_cons; [|by eapply IH].
  apply lookup_lt_Some in Hs. unfold len. lia.
Qed.

Record chain_inv (n : Z) (symbols : list SpmSymbol) (chain : list Z) : Prop := {
  ci_seg : seg symbols None 0 chain None n;
  ci_nodup : NoDup chain;
  ci_live : ∀ i s, 0 ≤ i → symbols !! Z.to_nat i = Some s → sy_len s ≠ 0 → i ∈ chain;
  ci_first : first_or chain None = if bool_decide (symbols = []) then None else Some 0;
}.

(** ** Splitting *)
Lemma utf8_char_len_pos b : 1 ≤ utf8_char_len b ≤ 4.
Proof. unfold utf8_char_len. repeat case_match; lia. Qed.

Notation indices k := (map Z.of_nat (seq 0 k)).
Lemma indices_S k : indices (S k) = indices k ++ [Z.of_nat k].
Proof. by rewrite seq_S, map_app. Qed.
Lemma elem_of_indices i k : i ∈ indices k ↔ 0 ≤ i < Z.of_nat k.
Proof.
  rewrite list_elem_of_fmap. setoid_rewrite elem_of_seq. split; [intros (j & -> & ?); lia|].
  intros ?. exists (Z.to_nat i). lia.
Qed.
Lemma indices_NoDup k : NoDup (indices k).
Proof. apply NoDup_fmap_2; [by intros ?? ?%Nat2Z.inj|apply NoDup_seq]. Qed.

(** One more symbol at the end. *)
Lemma seg_extend symbols n m :
  seg symbols None 0 (indices (length symbols)) None n → 0 < m →
  seg (alter (set_next (Some (len symbols))) (Z.to_nat (len symbols) - 1)%nat symbols ++
       [mkSymbol n m (if len symbols =? 0 then None else Some (len symbols - 1)) None])
    None 0 (indices (S (length symbols))) None (n + m).
Proof.
  intros Hs Hm. destruct (length symbols) as [|k] eqn:Hk.
  { apply nil_length_inv in Hk as ->. cbn in Hs. subst n. eexists. by split_and!. }
  unfold len. rewrite Hk. rewrite (indices_S (S k)). rewrite indices_S in Hs |- *. rewrite <- app_assoc.
  apply seg_app in Hs as (mid & H1 & (s & Hl & ? & ? & ? & ? & ? & ?)).
  rewrite Nat2Z.id in Hl. replace (Z.to_nat (Z.of_nat (S k)) - 1)%nat with k by lia.
  destruct (Z.eqb_spec (Z.of_nat (S k)) 0); [lia|].
  apply seg_app. exists mid. split.
  - apply (seg_ext symbols); [|done]. intros i Hi%elem_of_indices.
    rewrite lookup_app_l by (rewrite length_alter; lia). apply list_lookup_alter_ne. lia.
  - cbn [seg app]. exists (set_next (Some (Z.of_nat (S k))) s). split_and!; try done.
    { rewrite Nat2Z.id, lookup_app_l by (rewrite length_alter; lia).
      by rewrite list_lookup_alter_eq, Hl. }
    eexists. split_and!.
    + rewrite lookup_app_r by (rewrite length_alter; lia).
      replace (Z.to_nat (Z.of_nat (S k)) - length _)%nat with 0%nat by (rewrite length_alter; lia). done.
    + lia.
    + cbn in *. lia.
    + done.
    + cbn. f_equal. lia.
    + done.
    + cbn in *. lia.
Qed.

Lemma split_loop_spec fuel text offset symbols :
  0 ≤ offset ≤ len text → len text - offset ≤ Z.of_nat fuel →
  seg symbols None 0 (indices (length symbols)) None offset →
  ∃ symbols', split_loop fuel text offset symbols = Some symbols' ∧
    seg symbols' None 0 (indices (length symbols')) None (len text).
Proof.
  revert offset symbols. induction fuel as [|fuel IH]; intros offset symbols Ho Hf Hs; cbn [split_loop];
    destruct (drop (Z.to_nat offset) text) as [|first rest] eqn:Hd.
  1, 3: exists symbols; split; [done|]; apply (f_equal length) in Hd; rewrite length_drop in Hd; cbn in Hd;
    by replace (len text) with offset by (unfold len in *; lia).
  all: apply (f_equal length) in Hd; rewrite length_drop in Hd; cbn in Hd.
  - unfold len in *. lia.
  - pose proof (utf8_char_len_pos first).
    apply IH; [unfold len in *; lia..|].
    rewrite length_app, length_alter. cbn [length]. rewrite Nat.add_1_r.
    apply seg_extend; [done|unfold len in *; lia].
Qed.

Lemma split_spec text :
  ∃ symbols, split_utf8_symbols (length text) text = Some symbols ∧
    chain_inv (len text) symbols (indices (length symbols)).
Proof.
  destruct (split_loop_spec (length text) text 0 []) as (symbols & Hs & Hseg);
    [pose proof (len_nonneg text); lia|unfold len; lia|done|].
  exists symbols. split; [done|]. split; [done|apply indices_NoDup| |].
  - intros i s Hi Hl _. apply elem_of_indices. apply lookup_lt_Some in Hl. lia.
  - case_bool_decide as He; [by rewrite He|]. by destruct symbols.
Qed.

(** ** Tokenizers as [new] builds them *)
Record spm_wf (self : LlamaSpmTokenizer) : Prop := {
  sw_scores : length (sp_score_bits self) = length (sp_tokens self);
  sw_types : length (sp_token_types self) = length (sp_tokens self);
  sw_index : ∀ t id, sp_token_to_id self !! t = Some id →
    0 ≤ id < 2 ^ 32 ∧ sp_tokens self !! Z.to_nat id = Some t;
  sw_bytes : ∀ b id, sp_byte_tokens self !! Z.to_nat (Z_of_byte b) = Some (Some id) →
    0 ≤ id < 2 ^ 32 ∧ ∃ t, sp_tokens self !! Z.to_nat id = Some t ∧
      sp_token_types self !! Z.to_nat id = Some TOKEN_TYPE_BYTE ∧ parse_byte_piece t = Some b;
}.

(** One more token indexed. *)
Lemma index_token_wf score_bits token_types tokens token st st' :
  index_token score_bits token_types st (len tokens, token) = Ok st' →
  (∀ t id, st.1 !! t = Some id → 0 ≤ id < 2 ^ 32 ∧ tokens !! Z.to_nat id = Some t) →
  (∀ b id, st.2 !! Z.to_nat (Z_of_byte b) = Some (Some id) →
    0 ≤ id < 2 ^ 32 ∧ ∃ t, tokens !! Z.to_nat id = Some t ∧
      token_types !! Z.to_nat id = Some TOKEN_TYPE_BYTE ∧ parse_byte_piece t = Some b) →
  (∀ t id, st'.1 !! t = Some id → 0 ≤ id < 2 ^ 32 ∧ (tokens ++ [token]) !! Z.to_nat id = Some t) ∧
  (∀ b id, st'.2 !! Z.to_nat (Z_of_byte b) = Some (Some id) →
    0 ≤ id < 2 ^ 32 ∧ ∃ t, (tokens ++ [token]) !! Z.to_nat id = Some t ∧
      token_types !! Z.to_nat id = Some TOKEN_TYPE_BYTE ∧ parse_byte_piece t = Some b).
Proof.
  intros Hi H1 H2. unfold index_token, try_u32 in Hi. pose proof (len_nonneg tokens).
  destruct (Z.ltb_spec (len tokens) (2 ^ 32)); [cbn [ok_or] in Hi|done].
  destruct (score_bits !! _); cbn [or_panic] in Hi; [|done].
  destruct (negb (f32_is_finite _)); [done|].
  destruct (token_types !! Z.to_nat (len tokens)) as [ty|] eqn:Hty; cbn [or_panic] in Hi; [|done].
  destruct (negb _); [done|].
  assert ((tokens ++ [token]) !! Z.to_nat (len tokens) = Some token) as Hlast.
  { rewrite to_nat_len, lookup_app_r, Nat.sub_diag by done. done. }
  assert (∀ id t, tokens !! Z.to_nat id = Some t → (tokens ++ [token]) !! Z.to_nat id = Some t) as Hmono.
  { intros id t Ht. by apply lookup_app_l_Some. }
  assert (∀ t id, <[token:=len tokens]> st.1 !! t = Some id →
    0 ≤ id < 2 ^ 32 ∧ (tokens ++ [token]) !! Z.to_nat id = Some t) as H1'.
  { intros t id [[<- <-]|[_ Ht]]%lookup_insert_Some; [by split|]. apply H1 in Ht as [??]. split; [done|auto]. }
  assert (∀ b id, st.2 !! Z.to_nat (Z_of_byte b) = Some (Some id) →
    0 ≤ id < 2 ^ 32 ∧ ∃ t, (tokens ++ [token]) !! Z.to_nat id = Some t ∧
      token_types !! Z.to_nat id = Some TOKEN_TYPE_BYTE ∧ parse_byte_piece t = Some b) as H2'.
  { intros b id (? & t & ? & ?)%H2. split; [done|]. exists t. split; [auto|done]. }
  destruct (Z.eqb_spec ty TOKEN_TYPE_BYTE) as [->|]; [|by simplify_eq].
  destruct (parse_byte_piece token) as [c|] eqn:Hc; [|by simplify_eq].
  simplify_eq. split; [done|]. cbn. intros b id [(Heq & [= <-] & _)|[_ ?]]%list_lookup_insert_Some; [|auto].
  split; [done|]. exists token. split_and!; [done|done|]. rewrite Hc. f_equal.
  apply Z2Nat.inj in Heq; [|apply byte.unsigned_range..]. by apply byte.unsigned_inj in Heq.
Qed.

Lemma spm_new_wf tokens score_bits token_types config self :
  LlamaSpmTokenizer_new tokens score_bits token_types config = Ok self →
  spm_wf self ∧ sp_tokens self = tokens ∧ sp_config self = config.
Proof.
  unfold LlamaSpmTokenizer_new.
  destruct (validate_vocabulary tokens) as [[]| |]; [|done..].
  destruct (validate_specials tokens _ _ _) as [[]| |]; [|done..].
  destruct (Z.eqb_spec (len score_bits) (len tokens)) as [Hs|]; [|done].
  destruct (Z.eqb_spec (len token_types) (len tokens)) as [Hty|]; [|done]. cbn [negb].
  destruct (fold_result _ _ (enumerate tokens)) as [[m v]| |] eqn:Hf; [|done..]. intros [= <-].
  unfold len in Hs, Hty. split; [|done].
  assert ((∀ t id, m !! t = Some id → 0 ≤ id < 2 ^ 32 ∧ tokens !! Z.to_nat id = Some t) ∧
    (∀ b id, v !! Z.to_nat (Z_of_byte b) = Some (Some id) →
    0 ≤ id < 2 ^ 32 ∧ ∃ t, tokens !! Z.to_nat id = Some t ∧
      token_types !! Z.to_nat id = Some TOKEN_TYPE_BYTE ∧ parse_byte_piece t = Some b)) as [? ?].
  { clear Hs Hty. assert (∀ b (id : Z), replicate 256 None !! Z.to_nat (Z_of_byte b) ≠ Some (Some id)) as Hnone
      by (by intros b id [? _]%lookup_replicate).
    revert Hf Hnone. generalize (replicate 256 (@None Z)). intros none Hf Hnone. revert m v Hf. induction tokens as [|t l IH] using rev_ind; intros m v Hf.
    - change (enumerate []) with (@nil (Z * bytes)) in Hf. cbn [fold_result] in Hf. simplify_eq. split; [by intros ?? ?%lookup_empty_Some|].
      by intros b id ?%Hnone.
    - rewrite enumerate_snoc, fold_result_snoc in Hf.
      destruct (fold_result _ _ (enumerate l)) as [[m' v']| |]; [|done..].
      destruct (IH _ _ eq_refl) as [??]. by apply (index_token_wf _ _ _ _ _ _ Hf). }
  split; cbn; [lia|lia|done|done].
Qed.

(** What a token stands for in the normalized text. *)
Definition surface (self : LlamaSpmTokenizer) (id : Z) : option bytes :=
  token ← sp_tokens self !! Z.to_nat id;
  token_type ← sp_token_types self !! Z.to_nat id;
  if token_type =? TOKEN_TYPE_BYTE then b ← parse_byte_piece token; Some [b] else Some token.
Definition spells (self : LlamaSpmTokenizer) (ids : list Z) (bs : bytes) : Prop :=
  ∃ pieces, Forall2 (λ id p, surface self id = Some p) ids pieces ∧ bs = concat pieces.

Lemma spells_nil self : spells self [] [].
Proof. exists []. by split; [constructor|]. Qed.
Lemma spells_app self a b x y : spells self a x → spells self b y → spells self (a ++ b) (x ++ y).
Proof.
  intros (p & Hp & ->) (q & Hq & ->). exists (p ++ q). split; [by apply Forall2_app|].
  by rewrite concat_app.
Qed.

Lemma get_range_join {A} (l x y : list A) a b c :
  get_range l a b = Some x → get_range l b c = Some y → get_range l a c = Some (x ++ y).
Proof.
  intros (Ha & Hb & ->)%get_range_Some (Hb' & Hc & ->)%get_range_Some.
  apply get_range_Some. split_and!; [lia..|].
  replace (drop (Z.to_nat b) l) with (drop (Z.to_nat (b - a)) (drop (Z.to_nat a) l))
    by (rewrite drop_drop; f_equal; lia).
  rewrite take_take_drop. f_equal. lia.
Qed.

Section merging.
Context `{SpmHeap} (self : LlamaSpmTokenizer) (Hwf : spm_wf self).
Context (norm : bytes) (Hnorm : len norm < 2 ^ 64).

(** ** Merging *)
Record merges_wf (symbols : list SpmSymbol) (st : Merges) : Prop := {
  mw_queue : Forall (λ b, 0 ≤ bg_left b < len symbols ∧ 0 ≤ bg_right b < len symbols ∧
    bg_left b ≠ bg_right b) st.1;
  mw_reverse : ∀ t l r, st.2 !! t = Some (l, r) → t = l ++ r ∧ l ≠ [] ∧ r ≠ [];
}.

Lemma seg_lookup symbols prev pos chain next fin i :
  seg symbols prev pos chain next fin → i ∈ chain →
  ∃ s, symbols !! Z.to_nat i = Some s ∧ 0 < sy_len s ∧ pos ≤ sy_start s ∧ sy_start s + sy_len s ≤ fin.
Proof.
  revert prev pos. induction chain as [|j chain IH]; intros prev pos; cbn [seg]; [by intros _ ?%elem_of_nil|].
  intros (s & Hs & ? & ? & ? & _ & _ & Hr) [->|Hi]%elem_of_cons.
  - exists s. apply seg_bounds in Hr. pose proof (len_nonneg chain). split_and!; [done|lia..].
  - destruct (IH _ _ Hr Hi) as (s' & ? & ? & ? & ?). exists s'. split_and!; (done || lia).
Qed.

Lemma seg_disjoint symbols prev pos chain next fin i j s s' :
  seg symbols prev pos chain next fin → i ∈ chain → j ∈ chain → i ≠ j →
  symbols !! Z.to_nat i = Some s → symbols !! Z.to_nat j = Some s' → sy_len s + sy_len s' ≤ fin - pos.
Proof.
  revert prev pos. induction chain as [|k chain IH]; intros prev pos; cbn [seg]; [by intros _ ?%elem_of_nil|].
  intros (t & Ht & _ & Hst & ? & _ & _ & Hr) Hi Hj Hne Hs Hs'.
  apply elem_of_cons in Hi as [->|Hi], Hj as [->|Hj]; [done|..].
  - rewrite Hs in Ht. injection Ht as <-. destruct (seg_lookup _ _ _ _ _ _ _ Hr Hj) as (? & ? & ? & ? & ?).
    simplify_eq. lia.
  - rewrite Hs' in Ht. injection Ht as <-. destruct (seg_lookup _ _ _ _ _ _ _ Hr Hi) as (? & ? & ? & ? & ?).
    simplify_eq. lia.
  - specialize (IH _ _ Hr Hi Hj Hne Hs Hs'). lia.
Qed.

Lemma try_add_spec symbols left right st l r :
  0 ≤ left < len symbols → 0 ≤ right < len symbols →
  symbols !! Z.to_nat left = Some l → symbols !! Z.to_nat right = Some r →
  0 ≤ sy_start l → 0 ≤ sy_len l → 0 ≤ sy_len r →
  sy_start l + sy_len l ≤ len norm → sy_start r + sy_len r ≤ len norm → merges_wf symbols st →
  ∃ st', try_add_bigram self norm symbols left right st = Ok st' ∧ merges_wf symbols st' ∧
    (length st'.1 ≤ S (length st.1))%nat.
Proof.
  intros Hil Hir Hl Hr ???? Hle Hst. unfold try_add_bigram, symbol_at. rewrite Hl, Hr. cbn [or_panic].
  destruct (Z.eqb_spec (sy_len l) 0), (Z.eqb_spec (sy_len r) 0); cbn [orb];
    try (exists st; split_and!; [done|done|lia]).
  unfold checked_add_usize, checked_add_u64.
  destruct (Z.ltb_spec (sy_start l + sy_len l) (2 ^ 64)); [|lia]. cbn [ok_or].
  destruct (Z.eqb_spec (sy_start l + sy_len l) (sy_start r)) as [Heq|]; cbn [negb];
    [|exists st; split_and!; [done|done|lia]].
  rewrite Heq. destruct (Z.ltb_spec (sy_start r + sy_len r) (2 ^ 64)); [|lia]. cbn [ok_or].
  destruct (slice_in_range (E:=TokenizerError) norm (sy_start l) (sy_start r)) as (lt & Hlt & _); [lia..|].
  destruct (slice_in_range (E:=TokenizerError) norm (sy_start r) (sy_start r + sy_len r)) as (rt & Hrt & _); [lia..|].
  pose proof (proj1 (slice_Ok _ _ _ _) Hlt) as Glt. pose proof (proj1 (slice_Ok _ _ _ _) Hrt) as Grt.
  pose proof (get_range_len _ _ _ _ Glt). pose proof (get_range_len _ _ _ _ Grt).
  rewrite (get_range_join _ _ _ _ _ _ Glt Grt).
  cbn [ok_or]. destruct (sp_token_to_id self !! (lt ++ rt)) as [id|] eqn:Hid;
    [|exists st; split_and!; [done|done|lia]].
  apply (sw_index _ Hwf) in Hid as [Hid Htok]. unfold try_usize, try_u64.
  destruct (Z.ltb_spec id (2 ^ 64)); [|lia]. cbn [ok_or]. pose proof (lookup_lt_Some _ _ _ Htok).
  destruct (lookup_lt_is_Some_2 (sp_token_types self) (Z.to_nat id)) as [ty ->];
    [rewrite (sw_types _ Hwf); done|]. cbn [or_panic].
  destruct (negb _); [exists st; split_and!; [done|done|lia]|].
  destruct (lookup_lt_is_Some_2 (sp_score_bits self) (Z.to_nat id)) as [score ->];
    [rewrite (sw_scores _ Hwf); done|]. cbn [or_panic]. rewrite Hlt, Hrt.
  eexists. split; [done|]. split; [|done]. destruct Hst as [Hq Hm]. split; cbn.
  - constructor; [|done]. cbn. split_and!; [lia..|]. intros ->. rewrite Hl in Hr. injection Hr as <-. lia.
  - intros t x y [[<- [= <- <-]]|[_ ?]]%lookup_insert_Some; [|by apply Hm].
    split_and!; [done|..]; intros ->; rewrite len_nil in *; lia.
Qed.

(** What a merge does to the symbols. *)
Definition merged (symbols : list SpmSymbol) (left right : Z) (l r : SpmSymbol) : list SpmSymbol :=
  let symbols := <[Z.to_nat left := set_next (sy_next r) (set_len (sy_len l + sy_len r) l)]> symbols in
  let symbols := <[Z.to_nat right := set_len 0 r]> symbols in
  match sy_next r with
  | Some next => alter (set_prev (Some left)) (Z.to_nat next) symbols
  | None => symbols
  end.

Lemma length_merged symbols left right l r : length (merged symbols left right l r) = length symbols.
Proof. unfold merged. destruct (sy_next r); by rewrite ?length_alter, !length_insert. Qed.

Lemma merged_lookup_ne symbols left right l r j :
  0 ≤ left → 0 ≤ right → (∀ n, sy_next r = Some n → 0 ≤ n) → 0 ≤ j →
  j ≠ left → j ≠ right → sy_next r ≠ Some j →
  merged symbols left right l r !! Z.to_nat j = symbols !! Z.to_nat j.
Proof.
  intros ?? Hn ????. unfold merged. destruct (sy_next r) as [n|].
  - specialize (Hn n eq_refl). rewrite list_lookup_alter_ne by (intros ?; assert (n = j) by lia; congruence).
    by rewrite !list_lookup_insert_ne by lia.
  - by rewrite !list_lookup_insert_ne by lia.
Qed.

Lemma merged_lookup_left symbols left right l r :
  0 ≤ left → 0 ≤ right → left ≠ right → (∀ n, sy_next r = Some n → 0 ≤ n ∧ n ≠ left) →
  symbols !! Z.to_nat left = Some l →
  merged symbols left right l r !! Z.to_nat left =
    Some (set_next (sy_next r) (set_len (sy_len l + sy_len r) l)).
Proof.
  intros ??? Hn Hl. unfold merged.
  assert (<[Z.to_nat right := set_len 0 r]>
    (<[Z.to_nat left := set_next (sy_next r) (set_len (sy_len l + sy_len r) l)]> symbols) !! Z.to_nat left =
    Some (set_next (sy_next r) (set_len (sy_len l + sy_len r) l))) as Hs.
  { rewrite list_lookup_insert_ne by lia. apply list_lookup_insert_eq. by eapply lookup_lt_Some. }
  destruct (sy_next r) as [n|]; [|done]. destruct (Hn n eq_refl).
  by rewrite list_lookup_alter_ne by lia.
Qed.

Lemma merged_inv symbols left right l r chain :
  chain_inv (len norm) symbols chain →
  symbols !! Z.to_nat left = Some l → symbols !! Z.to_nat right = Some r →
  left ∈ chain → sy_next l = Some right →
  ∃ chain', chain_inv (len norm) (merged symbols left right l r) chain' ∧
    length chain = S (length chain') ∧ left ∈ chain' ∧
    merged symbols left right l r !! Z.to_nat left =
      Some (set_next (sy_next r) (set_len (sy_len l + sy_len r) l)).
Proof.
  intros [Hseg Hnd Hlive Hfirst] Hl Hr Hin Hnext.
  assert (∀ i, i ∈ chain → 0 ≤ i) as Hpc by (intros i Hi; eapply seg_nonneg in Hi as [? _]; [done|exact Hseg]).
  apply list_elem_of_split in Hin as (c1 & c2 & ->).
  apply seg_app in Hseg as (mid & H1 & (l' & Hl' & Hlp & Hst & Hpos & Hprev & Hn & H2)).
  rewrite Hl in Hl'. injection Hl' as <-. rewrite Hn in Hnext.
  destruct c2 as [|right' c2]; [done|]. injection Hnext as ->. cbn [first_or] in *.
  destruct H2 as (r' & Hr' & Hrp & Hst' & Hpos' & Hprev' & Hn' & H3).
  rewrite Hr in Hr'. injection Hr' as <-.
  apply NoDup_app in Hnd as (Hd1 & Hd12 & Hd2). apply NoDup_cons in Hd2 as [Hdl Hd2].
  apply NoDup_cons in Hd2 as [Hdr Hd2]. apply not_elem_of_cons in Hdl as [Hlr Hdl].
  assert (∀ n, sy_next r = Some n → 0 ≤ n ∧ n ≠ left ∧ n ∈ c2) as Hnx.
  { rewrite Hn'. intros n Hj. destruct c2 as [|j c2]; [done|]. injection Hj as ->.
    split_and!; [apply Hpc; set_solver|set_solver|by left]. }
  assert (merged symbols left right l r !! Z.to_nat left =
    Some (set_next (sy_next r) (set_len (sy_len l + sy_len r) l))) as Hleft
    by (apply merged_lookup_left; try done; intros n Hj; by destruct (Hnx n Hj) as (? & ? & _)).
  assert (∀ j, 0 ≤ j → j ≠ left → j ≠ right → sy_next r ≠ Some j →
    merged symbols left right l r !! Z.to_nat j = symbols !! Z.to_nat j) as Hother
    by (intros; apply merged_lookup_ne; try done; intros n Hj; by destruct (Hnx n Hj)).
  exists (c1 ++ left :: c2). split_and!; [|rewrite !length_app; cbn; lia|set_solver|done]. split.
  - apply seg_app. exists mid. split.
    + apply (seg_ext symbols); [|done]. intros i Hi. specialize (Hd12 i Hi).
      apply Hother; [apply Hpc; set_solver|set_solver|set_solver|].
      intros Hj. destruct (Hnx i Hj) as (_ & _ & ?). set_solver.
    + eexists. split; [exact Hleft|]. cbn [sy_start sy_len sy_prev sy_next set_next set_len].
      rewrite Hn'. split_and!; try done; [lia|]. rewrite Z.add_assoc.
      destruct c2 as [|n c2]; [done|]. cbn [seg] in H3 |- *.
      destruct H3 as (s & Hs & ? & ? & ? & ? & ? & H3). apply NoDup_cons in Hd2 as [Hdn Hd2].
      exists (set_prev (Some left) s). split_and!; try done.
      * unfold merged. rewrite Hn'. rewrite list_lookup_alter_eq.
        assert (n ≠ left ∧ n ≠ right) as [? ?] by set_solver.
        by rewrite !list_lookup_insert_ne, Hs by lia.
      * apply (seg_ext symbols); [|done]. intros i Hi. apply Hother; [apply Hpc; set_solver|..].
        -- set_solver.
        -- set_solver.
        -- rewrite Hn'. intros [= <-]. done.
  - apply NoDup_app. split_and!; [done|set_solver|]. apply NoDup_cons. split; [set_solver|done].
  - intros i s Hi Hs Hne. destruct (decide (i = left)) as [->|Hil]; [set_solver|].
    destruct (decide (i = right)) as [->|Hir].
    { unfold merged in Hs. exfalso. 
      assert (<[Z.to_nat right := set_len 0 r]>
        (<[Z.to_nat left := set_next (sy_next r) (set_len (sy_len l + sy_len r) l)]> symbols) !! Z.to_nat right =
        Some (set_len 0 r)) as Hz.
      { apply list_lookup_insert_eq. rewrite length_insert. by eapply lookup_lt_Some. }
      destruct (sy_next r) as [n|] eqn:Hj; [|rewrite Hz in Hs; by injection Hs as <-].
      destruct (Hnx n eq_refl) as (? & _ & Hc2). assert (n ≠ right) by set_solver.
      rewrite list_lookup_alter_ne in Hs by lia. rewrite Hz in Hs. by injection Hs as <-. }
    assert (i ∈ c1 ++ left :: right :: c2); [|set_solver].
    destruct (decide (sy_next r = Some i)) as [Hj|Hj]; [destruct (Hnx i Hj) as (_ & _ & ?); set_solver|].
    rewrite Hother in Hs by done. by eapply Hlive.
  - assert ((merged symbols left right l r = []) ↔ symbols = []) as Hnil.
    { by rewrite <- !length_zero_iff_nil, length_merged. }
    rewrite (bool_decide_ext _ _ Hnil), <- Hfirst. by destruct c1.
Qed.

(** The code's three updates make the merged list. *)
Lemma merge_updates symbols left right l r :
  left ≠ right → 0 ≤ left → 0 ≤ right →
  symbols !! Z.to_nat left = Some l → symbols !! Z.to_nat right = Some r →
  (∀ n, sy_next r = Some n → 0 ≤ n < len symbols) →
  (let? symbols := update_at symbols left (λ s, set_next (sy_next r) (set_len (sy_len l + sy_len r) s)) in
   let? symbols := update_at symbols right (set_len 0) in
   match sy_next r with
   | Some next => update_at symbols next (set_prev (Some left))
   | None => Ok symbols
   end) = Ok (merged symbols left right l r).
Proof.
  intros Hne ?? Hl Hr Hn. unfold update_at, symbol_at. rewrite Hl. cbn [or_panic].
  rewrite list_lookup_insert_ne, Hr by lia. cbn [or_panic]. unfold merged.
  destruct (sy_next r) as [n|]; [|done]. specialize (Hn n eq_refl).
  set (k := <[Z.to_nat right := _]> _). destruct (lookup_lt_is_Some_2 k (Z.to_nat n)) as [s Hs].
  { unfold k, len in *. rewrite !length_insert. lia. }
  rewrite Hs. cbn [or_panic]. f_equal. unfold k in *.
  apply list_eq. intros i. destruct (decide (i = Z.to_nat n)) as [->|].
  - rewrite list_lookup_alter_eq, Hs, list_lookup_insert_eq; [done|]. by eapply lookup_lt_Some.
  - by rewrite list_lookup_alter_ne, list_lookup_insert_ne by done.
Qed.

Lemma merges_wf_length symbols symbols' st :
  len symbols' = len symbols → merges_wf symbols st → merges_wf symbols' st.
Proof. intros Hl []. split; [by rewrite Hl|done]. Qed.

(** A step between neighbours of a chain. *)
Lemma try_add_chain symbols chain left right st :
  chain_inv (len norm) symbols chain → left ∈ chain → right ∈ chain → merges_wf symbols st →
  ∃ st', try_add_bigram self norm symbols left right st = Ok st' ∧ merges_wf symbols st' ∧
    (length st'.1 ≤ S (length st.1))%nat.
Proof.
  intros [Hseg _ _ _] Hl Hr Hst.
  destruct (seg_lookup _ _ _ _ _ _ _ Hseg Hl) as (l & ? & ? & ? & ?).
  destruct (seg_lookup _ _ _ _ _ _ _ Hseg Hr) as (r & ? & ? & ? & ?).
  pose proof (seg_nonneg _ _ _ _ _ _ _ Hseg Hl). pose proof (seg_nonneg _ _ _ _ _ _ _ Hseg Hr).
  apply (try_add_spec symbols left right st l r); (done || lia).
Qed.

(** The neighbours of a chain's members are members. *)
Lemma chain_neighbours symbols prev pos chain next fin i s :
  seg symbols prev pos chain next fin → i ∈ chain → symbols !! Z.to_nat i = Some s →
  (∀ p, sy_prev s = Some p → p ∈ chain ∨ prev = Some p) ∧
  (∀ n, sy_next s = Some n → n ∈ chain ∨ next = Some n).
Proof.
  revert prev pos. induction chain as [|j chain IH]; intros prev pos; cbn [seg]; [by intros _ ?%elem_of_nil|].
  intros (s' & Hs' & _ & _ & _ & Hp & Hn & Hr) [->|Hi]%elem_of_cons Hs.
  - rewrite Hs in Hs'. injection Hs' as <-. rewrite Hp, Hn. split.
    + intros p ->. by right.
    + intros n. destruct chain as [|k chain]; intros Hk; [by right|]. injection Hk as ->. left. set_solver.
  - destruct (IH _ _ Hr Hi Hs) as [IHp IHn]. split.
    + intros p Hsp. destruct (IHp p Hsp) as [?|[= ->]]; left; set_solver.
    + intros n Hsn. destruct (IHn n Hsn) as [?|?]; [left; set_solver|by right].
Qed.

Lemma merge_bigram_spec b symbols st chain :
  chain_inv (len norm) symbols chain → merges_wf symbols st →
  0 ≤ bg_left b < len symbols → 0 ≤ bg_right b < len symbols → bg_left b ≠ bg_right b →
  ∃ symbols' st' chain', merge_bigram self norm b symbols st = Ok (symbols', st') ∧
    chain_inv (len norm) symbols' chain' ∧ merges_wf symbols' st' ∧
    (length st'.1 + 2 * length chain' ≤ length st.1 + 2 * length chain)%nat.
Proof.
  intros Hinv Hst Hbl Hbr Hne. unfold merge_bigram, symbol_at at 1 2.
  destruct (lookup_lt_is_Some_2 symbols (Z.to_nat (bg_left b))) as [l Hl]; [unfold len in *; lia|].
  destruct (lookup_lt_is_Some_2 symbols (Z.to_nat (bg_right b))) as [r Hr]; [unfold len in *; lia|].
  rewrite Hl, Hr. cbn [or_panic].
  destruct (Z.eqb_spec (sy_len l) 0) as [|Hl0]; cbn [orb]; [by exists symbols, st, chain|].
  destruct (Z.eqb_spec (sy_len r) 0) as [|Hr0]; [by exists symbols, st, chain|].
  pose proof (ci_live _ _ _ Hinv _ _ (proj1 Hbl) Hl Hl0) as Hlc.
  pose proof (ci_live _ _ _ Hinv _ _ (proj1 Hbr) Hr Hr0) as Hrc.
  pose proof (ci_seg _ _ _ Hinv) as Hseg.
  pose proof (seg_disjoint _ _ _ _ _ _ _ _ _ _ Hseg Hlc Hrc Hne Hl Hr).
  unfold checked_add_usize, checked_add_u64. destruct (Z.ltb_spec (sy_len l + sy_len r) (2 ^ 64)); [|lia].
  cbn [ok_or]. destruct (Z.eqb_spec (sy_len l + sy_len r) (bg_size b)) as [Hsz|]; cbn [negb];
    [|by exists symbols, st, chain].
  case_bool_decide as Hnext; cbn [negb]; [|by exists symbols, st, chain].
  destruct (merged_inv symbols (bg_left b) (bg_right b) l r chain) as (chain' & Hinv' & Hlen & Hin' & Hleft);
    [done..|].
  pose proof (merge_updates symbols (bg_left b) (bg_right b) l r Hne (proj1 Hbl) (proj1 Hbr) Hl Hr) as Hup.
  specialize (Hup ltac:(intros n Hn; destruct (chain_neighbours _ _ _ _ _ _ _ _ Hseg Hrc Hr) as [_ Hx];
    destruct (Hx n Hn); [by eapply seg_nonneg|done])).
  rewrite <- Hsz.
  destruct (update_at symbols _ _) as [s1| |]; [|by discriminate Hup..].
  destruct (update_at s1 _ _) as [s2| |]; [|by discriminate Hup..]. rewrite Hup.
  unfold symbol_at. rewrite Hleft. cbn [or_panic sy_prev sy_next set_next set_len].
  set (symbols' := merged _ _ _ _ _) in *.
  assert (len symbols' = len symbols) as Hls by (unfold len, symbols'; by rewrite length_merged).
  apply (merges_wf_length _ symbols') in Hst; [|done].
  destruct (chain_neighbours _ _ _ _ _ _ _ _ (ci_seg _ _ _ Hinv') Hin' Hleft) as [Hp Hn]. cbn in Hp, Hn.
  assert (∃ st1, match sy_prev l with
      | Some prev => try_add_bigram self norm symbols' prev (bg_left b) st
      | None => Ok st end = Ok st1 ∧ merges_wf symbols' st1 ∧ (length st1.1 ≤ S (length st.1))%nat)
    as (st1 & -> & Hst1 & Hl1).
  { destruct (sy_prev l) as [p|]; [|exists st; split_and!; [done|done|lia]].
    destruct (Hp p eq_refl); [|done]. by eapply try_add_chain. }
  assert (∃ st2, match sy_next r with
      | Some next => try_add_bigram self norm symbols' (bg_left b) next st1
      | None => Ok st1 end = Ok st2 ∧ merges_wf symbols' st2 ∧ (length st2.1 ≤ S (length st1.1))%nat)
    as (st2 & -> & Hst2 & Hl2).
  { destruct (sy_next r) as [n|]; [|exists st1; split_and!; [done|done|lia]].
    destruct (Hn n eq_refl); [|done]. by eapply try_add_chain. }
  exists symbols', st2, chain'. split_and!; [done|done|done|lia].
Qed.

(** The loop ends: each bigram taken costs one, and a merge, which may add two,
    removes a symbol. *)
Lemma merge_loop_spec fuel symbols st chain :
  chain_inv (len norm) symbols chain → merges_wf symbols st →
  (length st.1 + 2 * length chain ≤ fuel)%nat →
  ∃ symbols' st' chain', merge_loop self fuel norm symbols st = Some (Ok (symbols', st')) ∧
    chain_inv (len norm) symbols' chain' ∧ merges_wf symbols' st'.
Proof.
  revert symbols st chain. induction fuel as [|fuel IH]; intros symbols st chain Hinv Hst Hf;
    cbn [merge_loop]; destruct (heap_pop st.1) as [[b queue]|] eqn:Hpop.
  2, 4: by exists symbols, st, chain.
  all: apply heap_pop_Some in Hpop as [Hperm _].
  - apply Permutation_length in Hperm. cbn in Hperm. lia.
  - destruct Hst as [Hq Hr]. rewrite Hperm in Hq. apply Forall_cons in Hq as [(? & ? & ?) Hq].
    destruct (merge_bigram_spec b symbols (queue, st.2) chain) as (s' & st' & c' & Hm & Hinv' & Hst' & Hlen);
      [done|by split|done..|].
    cbn [fuel_bind]. rewrite Hm. cbn [fuel_bind].
    apply Permutation_length in Hperm. cbn in Hperm, Hlen.
    by apply (IH s' st' c'); [done|done|lia].
Qed.

Lemma first_bigrams_spec symbols :
  chain_inv (len norm) symbols (indices (length symbols)) →
  ∃ st, first_bigrams self norm symbols = Ok st ∧ merges_wf symbols st ∧ (length st.1 ≤ length symbols)%nat.
Proof.
  intros Hinv. unfold first_bigrams.
  assert (∀ l st, (∀ i, i ∈ l → (1 ≤ i < length symbols)%nat) → merges_wf symbols st →
    ∃ st', fold_result (λ st right, try_add_bigram self norm symbols (right - 1) right st) st
             (map Z.of_nat l) = Ok st' ∧ merges_wf symbols st' ∧ (length st'.1 ≤ length st.1 + length l)%nat)
    as Hfold.
  { induction l as [|i l IH]; intros st Hl Hst; [exists st; split_and!; [done|done|lia]|].
    cbn [map fold_result]. destruct (try_add_chain symbols _ (Z.of_nat i - 1) (Z.of_nat i) st Hinv) as (st1 & -> & Hst1 & Hl1).
    - apply elem_of_indices. pose proof (Hl i ltac:(by left)). lia.
    - apply elem_of_indices. pose proof (Hl i ltac:(by left)). lia.
    - done.
    - destruct (IH st1) as (st' & ? & ? & ?); [intros j ?; apply Hl; by right|done|].
      exists st'. split_and!; [done|done|cbn; lia]. }
  destruct (Hfold (seq 1 (length symbols - 1)) ([], ∅)) as (st & ? & ? & Hl).
  - intros i ?%elem_of_seq. lia.
  - split; [constructor|]. cbn. by intros t l r ?%lookup_empty_Some.
  - exists st. rewrite length_seq in Hl. cbn in Hl. split_and!; [done|done|lia].
Qed.

(** ** Emitting *)

(** What emission may do: spell the text, or miss a byte token. *)
Definition emitted (text : bytes) (output : list Z) (r : tok_result (list Z)) : Prop :=
  match r with
  | Ok out => ∃ ids, out = output ++ ids ∧ spells self ids text
  | Err e => ∃ b, e = MissingByteToken b ∧ b ∈ text ∧
      default None (sp_byte_tokens self !! Z.to_nat (Z_of_byte b)) = None
  | Panic => False
  end.

Lemma surface_byte b id :
  sp_byte_tokens self !! Z.to_nat (Z_of_byte b) = Some (Some id) → surface self id = Some [b].
Proof. intros (_ & t & Ht & Hty & Hb)%(sw_bytes _ Hwf). unfold surface. by rewrite Ht, Hty; cbn; rewrite Hb. Qed.

Lemma emit_bytes_spec text output : emitted text output (emit_bytes self text output).
Proof.
  revert output. induction text as [|b text IH]; intros output; unfold emit_bytes; cbn [fold_result].
  { exists []. split; [by rewrite app_nil_r|apply spells_nil]. }
  destruct (sp_byte_tokens self !! Z.to_nat (Z_of_byte b)) as [[id|]|] eqn:Hb; cbn.
  2, 3: exists b; split_and!; [done|by left|by rewrite Hb].
  specialize (IH (output ++ [id])). unfold emit_bytes in IH.
  destruct (fold_result _ (output ++ [id]) text) as [out|e|]; [| |done].
  - destruct IH as (ids & -> & Hs). exists (id :: ids). rewrite <- app_assoc. split; [done|].
    change (id :: ids) with ([id] ++ ids). change (b :: text) with ([b] ++ text). apply spells_app; [|done].
    exists [[b]]. split; [|done]. constructor; [by apply surface_byte|constructor].
  - destruct IH as (c & ? & ? & ?). exists c. split_and!; [done|by right|done].
Qed.

Lemma emit_piece_spec fuel text rm output :
  (∀ t l r, rm !! t = Some (l, r) → t = l ++ r ∧ l ≠ [] ∧ r ≠ []) → (length text ≤ fuel)%nat →
  ∃ r, emit_piece self fuel text rm output = Some r ∧ emitted text output r.
Proof.
  intros Hrm. revert text output. induction fuel as [|fuel IH]; intros text output Hf; cbn [emit_piece].
  all: destruct (sp_token_to_id self !! text) as [id|] eqn:Hid; cbn [fuel_bind];
    [destruct ((sw_index _ Hwf) _ _ Hid) as [Hb Htok]; unfold try_usize, try_u64;
     (destruct (Z.ltb_spec id (2 ^ 64)); [|lia]); cbn [ok_or]; pose proof (lookup_lt_Some _ _ _ Htok);
     (destruct (lookup_lt_is_Some_2 (sp_token_types self) (Z.to_nat id)) as [ty Hty];
       [rewrite (sw_types _ Hwf); done|]); rewrite Hty; cbn [or_panic fuel_bind];
     destruct (is_output_token_type ty) eqn:Hout;
     [eexists; split; [done|]; exists [id]; split; [done|]; exists [text]; split; [|cbn; by rewrite app_nil_r];
      constructor; [|constructor]; unfold surface; rewrite Htok, Hty; cbn;
      destruct (Z.eqb_spec ty TOKEN_TYPE_BYTE) as [->|]; [done|done]|]
    |].
  all: destruct (rm !! text) as [[l r]|] eqn:Hlr; [|eexists; split; [done|apply emit_bytes_spec]].
  all: destruct (Hrm _ _ _ Hlr) as (-> & Hl & Hr); rewrite length_app in Hf;
    assert (0 < length l)%nat by (destruct l; [done|cbn; lia]);
    assert (0 < length r)%nat by (destruct r; [done|cbn; lia]).
  1, 2: lia.
  all: destruct (IH l output) as (r1 & -> & HE1); [lia|]; destruct r1 as [out1|e|]; [| |done]; cbn [fuel_bind].
  2, 4: eexists; split; [done|]; destruct HE1 as (b & ? & ? & ?); exists b; split_and!; [done|set_solver|done].
  all: destruct HE1 as (ids1 & -> & Hs1); destruct (IH r (output ++ ids1)) as (r2 & -> & HE2); [lia|];
    exists r2; (split; [done|]); destruct r2 as [out2|e|]; [| |done].
  2, 4: destruct HE2 as (b & ? & ? & ?); exists b; split_and!; [done|set_solver|done].
  all: destruct HE2 as (ids2 & -> & Hs2); exists (ids1 ++ ids2); rewrite <- app_assoc; split; [done|];
    by apply spells_app.
Qed.

Lemma walk_loop_spec fuel symbols prev pos chain rm output :
  seg symbols prev pos chain None (len norm) → 0 ≤ pos ≤ len norm → (length chain ≤ fuel)%nat →
  (∀ t l r, rm !! t = Some (l, r) → t = l ++ r ∧ l ≠ [] ∧ r ≠ []) →
  ∃ r, walk_loop self fuel norm symbols rm (first_or chain None) output = Some r ∧
    emitted (drop (Z.to_nat pos) norm) output r.
Proof.
  intros Hseg Hp Hf Hrm. revert prev pos fuel output Hseg Hp Hf.
  induction chain as [|i chain IH]; intros prev pos fuel output Hseg Hp Hf; cbn [first_or].
  { cbn in Hseg. exists (Ok output). split; [by destruct fuel|]. exists []. split; [by rewrite app_nil_r|].
    rewrite drop_ge by (unfold len in *; lia). apply spells_nil. }
  destruct fuel as [|fuel]; [cbn in Hf; lia|]. cbn [walk_loop].
  destruct Hseg as (s & Hs & _ & Hst & Hpos & _ & Hn & Hseg). pose proof (seg_bounds _ _ _ _ _ _ Hseg).
  pose proof (len_nonneg chain). unfold symbol_at. rewrite Hs. cbn [or_panic fuel_bind].
  destruct (Z.ltb_spec 0 (sy_len s)); [|lia]. unfold checked_add_usize, checked_add_u64. rewrite Hst.
  destruct (Z.ltb_spec (pos + sy_len s) (2 ^ 64)); [|lia]. cbn [ok_or fuel_bind].
  destruct (slice_in_range (E:=TokenizerError) norm pos (pos + sy_len s)) as (piece & Hpiece & Hlen); [lia..|].
  rewrite Hpiece. cbn [fuel_bind].
  assert (drop (Z.to_nat pos) norm = piece ++ drop (Z.to_nat (pos + sy_len s)) norm) as Hd.
  { apply slice_Ok, get_range_split in Hpiece as [Heq Hlp].
    rewrite Heq at 1. rewrite drop_app_length'; [done|]. unfold len in Hlp. lia. }
  destruct (emit_piece_spec (length norm) piece rm output Hrm) as (r1 & -> & HE1).
  { unfold len in *. lia. }
  destruct r1 as [out1|e|]; [| |done]; cbn [fuel_bind].
  - destruct HE1 as (ids1 & -> & Hs1).
    assert (sy_next s = first_or chain None) as -> by done.
    destruct (IH (Some i) (pos + sy_len s) fuel (output ++ ids1) Hseg) as (r2 & -> & HE2); [lia|cbn in Hf; lia|].
    exists r2. split; [done|]. rewrite Hd. destruct r2 as [out2|e|]; [| |done].
    + destruct HE2 as (ids2 & -> & Hs2). exists (ids1 ++ ids2). rewrite <- app_assoc. split; [done|].
      by apply spells_app.
    + destruct HE2 as (b & ? & ? & ?). exists b. split_and!; [done|set_solver|done].
  - eexists. split; [done|]. destruct HE1 as (b & ? & ? & ?). exists b. rewrite Hd. split_and!; [done|set_solver|done].
Qed.

Lemma encode_normalized_spec output :
  ∃ r, encode_normalized self norm output = Some r ∧ emitted norm output r.
Proof.
  unfold encode_normalized. destruct (split_spec norm) as (symbols & -> & Hinv).
  destruct (first_bigrams_spec symbols Hinv) as (st & -> & Hst & Hl). cbn [fuel_bind].
  pose proof (seg_bounds _ _ _ _ _ _ (ci_seg _ _ _ Hinv)) as Hk.
  assert (length symbols ≤ length norm)%nat as Hkn.
  { unfold len in Hk. rewrite length_map, length_seq in Hk. lia. }
  destruct (merge_loop_spec (3 * length norm) symbols st _ Hinv Hst) as (s' & st' & chain & -> & Hinv' & Hst').
  { rewrite length_map, length_seq. lia. }
  cbn [fuel_bind]. pose proof (ci_seg _ _ _ Hinv') as Hseg. pose proof (ci_first _ _ _ Hinv') as Hfirst.
  pose proof (seg_bounds _ _ _ _ _ _ Hseg) as Hc. case_bool_decide as Hnil.
  - eexists. split; [done|]. destruct chain; [|done]. cbn in Hseg.
    assert (norm = []) as Hn by (symmetry in Hseg; by apply len_zero_nil).
    exists []. rewrite app_nil_r, Hn. split; [done|apply spells_nil].
  - rewrite <- Hfirst. apply (walk_loop_spec (length norm) s' None 0); [done|pose proof (len_nonneg norm); lia|unfold len in Hc; lia|].
    apply (mw_reverse _ _ Hst').
Qed.
End merging.

(** ** Properties *)

Lemma spm_encode_spec `{SpmHeap} tokens score_bits token_types config self text add_special_tokens :
  LlamaSpmTokenizer_new tokens score_bits token_types config = Ok self →
  len (normalize_spm text (sc_add_space_prefix config)) < 2 ^ 64 →
  ∃ r, spm_encode self text add_special_tokens = Some r ∧
  match r with
  | Ok out => ∃ ids,
      out = (if add_special_tokens && sc_add_bos_token config then opt_list (sc_bos_token config) else []) ++
        ids ++ (if add_special_tokens && sc_add_eos_token config then opt_list (sc_eos_token config) else []) ∧
      spells self ids (normalize_spm text (sc_add_space_prefix config))
  | Err e => ∃ b, e = MissingByteToken b ∧ b ∈ normalize_spm text (sc_add_space_prefix config) ∧
      default None (sp_byte_tokens self !! Z.to_nat (Z_of_byte b)) = None
  | Panic => False
  end.
Proof.
  intros (Hwf & _ & <-)%spm_new_wf Hl. unfold spm_encode.
  set (norm := normalize_spm text (sc_add_space_prefix (sp_config self))) in *.
  set (bos := if add_special_tokens && sc_add_bos_token (sp_config self) then opt_list (sc_bos_token (sp_config self)) else []).
  assert (∃ r, (if negb (bool_decide (norm = [])) then encode_normalized self norm bos else Some (Ok bos)) = Some r ∧
    emitted self norm bos r) as (r & -> & He).
  { case_bool_decide as Hn; cbn [negb]; [|by apply encode_normalized_spec].
    exists (Ok bos). split; [done|]. exists []. rewrite app_nil_r, Hn. split; [done|apply spells_nil]. }
  destruct r as [out|e|]; cbn [fuel_bind]; [|by eexists|done].
  destruct He as (ids & -> & Hs). eexists. split; [done|]. exists ids. split; [|done].
  rewrite app_assoc. by destruct (add_special_tokens && sc_add_eos_token (sp_config self)); [|rewrite app_nil_r].
Qed.

(** Encoding ends within three merge steps and one walk step per byte, for every heap
    that pops a greatest element, and never panics: the pieces of the tokens it emits spell
    the normalized text between the tokens of the configuration, and the only error is a
    byte of the text that has no byte token. *)
Theorem spm_encode_spells `{SpmHeap} tokens score_bits token_types config self text add_special_tokens :
  LlamaSpmTokenizer_new tokens score_bits token_types config = Ok self →
  len (normalize_spm text (sc_add_space_prefix config)) < 2 ^ 64 →
  ∃ r, spm_encode self text add_special_tokens = Some r ∧
  match r with
  | Ok out => ∃ ids,
      out = (if add_special_tokens && sc_add_bos_token config then opt_list (sc_bos_token config) else []) ++
        ids ++ (if add_special_tokens && sc_add_eos_token config then opt_list (sc_eos_token config) else []) ∧
      spells self ids (normalize_spm text (sc_add_space_prefix config))
  | Err e => ∃ b, e = MissingByteToken b ∧ b ∈ normalize_spm text (sc_add_space_prefix config) ∧
      default None (sp_byte_tokens self !! Z.to_nat (Z_of_byte b)) = None
  | Panic => False
  end.
Proof. apply spm_encode_spec. Qed.

(** ** Concrete instances *)

(** A queue that gives the first of the greatest bigrams. *)
Fixpoint first_greatest (b : SpmBigram) (q : list SpmBigram) : SpmBigram * list SpmBigram :=
  match q with
  | [] => (b, [])
  | c :: q =>
      let '(m, rest) := first_greatest c q in
      match bigram_cmp b m with Lt => (m, b :: rest) | _ => (b, m :: rest) end
  end.

Lemma bigram_cmp_trans a b c : bigram_cmp a b ≠ Lt → bigram_cmp b c ≠ Lt → bigram_cmp a c ≠ Lt.
Proof.
  unfold bigram_cmp.
  repeat match goal with |- context [?x ?= ?y] => destruct (Z.compare_spec x y) end; (done || lia).
Qed.
Lemma bigram_cmp_total a b : bigram_cmp a b = Lt → bigram_cmp b a ≠ Lt.
Proof.
  unfold bigram_cmp.
  repeat match goal with |- context [?x ?= ?y] => destruct (Z.compare_spec x y) end; (done || lia).
Qed.
Lemma bigram_cmp_refl a : bigram_cmp a a ≠ Lt.
Proof. unfold bigram_cmp. by rewrite !Z.compare_refl. Qed.

Lemma first_greatest_spec b q m rest :
  first_greatest b q = (m, rest) → b :: q ≡ₚ m :: rest ∧ Forall (λ x, bigram_cmp m x ≠ Lt) rest.
Proof.
  revert b m rest. induction q as [|c q IH]; intros b m rest; cbn; [by intros [= <- <-]|].
  destruct (first_greatest c q) as [m' r'] eqn:Hr. apply IH in Hr as [Hp Hall].
  destruct (bigram_cmp b m') eqn:Hc; intros [= <- <-]; rewrite Hp.
  - split; [done|]. assert (bigram_cmp b m' ≠ Lt) by (by rewrite Hc). constructor; [done|].
    eapply Forall_impl; [exact Hall|]. intros x ?. by eapply bigram_cmp_trans.
  - split; [constructor|]. constructor; [by apply bigram_cmp_total|done].
  - split; [done|]. assert (bigram_cmp b m' ≠ Lt) by (by rewrite Hc). constructor; [done|].
    eapply Forall_impl; [exact Hall|]. intros x ?. by eapply bigram_cmp_trans.
Qed.

Definition pop_greatest (q : list SpmBigram) : option (SpmBigram * list SpmBigram) :=
  match q with [] => None | b :: q => Some (first_greatest b q) end.
#[local] Program Instance first_heap : SpmHeap := {| heap_pop := pop_greatest |}.
Next Obligation. intros []; [done|]. by split. Qed.
Next Obligation. intros [|c q] b q'; cbn; [done|]. intros [= Hq]. by apply first_greatest_spec. Qed.

Definition sample_spm_tokens : list bytes :=
  map string_bytes ["<s>"; "<0x21>"; "h"; "e"; "l"; "o"; "he"; "ll"; "hell"; "hello"]%string ++
  [SPM_SPACE; SPM_SPACE ++ string_bytes "hello"].
Definition sample_spm_config : LlamaSpmConfig := mkSpmConfig (Some 0) None None true true false.
Definition sample_spm_scores : list Z := map (λ i, 16256 * 65536 + i) [0; 0; 0; 0; 0; 0; 1; 3; 2; 4; 0; 5].
Definition sample_spm_types : list Z := [3; 6; 1; 1; 1; 1; 1; 1; 1; 1; 1; 1].
Definition sample_spm : LlamaSpmTokenizer :=
  ok_default (mkSpm [] [] [] sample_spm_config ∅ [])
    (LlamaSpmTokenizer_new sample_spm_tokens sample_spm_scores sample_spm_types sample_spm_config).
Lemma sample_spm_new :
  LlamaSpmTokenizer_new sample_spm_tokens sample_spm_scores sample_spm_types sample_spm_config = Ok sample_spm.
Proof. vm_compute. reflexivity. Qed.

Lemma spm_encode_spells_witness :
  ∃ ids, spm_encode sample_spm "hello!" true = Some (Ok ([0] ++ ids ++ [])) ∧
    spells sample_spm ids (normalize_spm "hello!" true).
Proof.
  destruct (spm_encode_spells (H:=first_heap) _ _ _ _ _ "hello!" true sample_spm_new) as (r & Hr & Hs);
    [vm_compute; reflexivity|].
  destruct r as [out|e|]; [|vm_compute in Hr; discriminate..].
  destruct Hs as (ids & -> & Hs). exists ids. split; [exact Hr|exact Hs].
Defined.
Lemma sample_spm_encode : spm_encode sample_spm "hello!" true = Some (Ok [0; 11; 1]).
Proof. vm_compute. reflexivity. Qed.
End SpmTheorems.

