(* ===== verification/Gpt2.v ===== *)
(** The byte-pair tokenizer of GPT-2: src/crates/ntd-runtime/src/gpt2.rs.

    A [char] is the block of its UTF-8 encoding.  The general category of a
    character is a table of a third-party crate, hence a class.  Loops take fuel;
    [None] is a loop that has not ended with the fuel given. *)
From S2P Require Import Prelude Text Chars NativeTokenizer TextTokenizer SpmTokenizer.

Module Gpt2.
Import TextTokenizer SpmTokenizer.

(** The crate unicode_general_category. *)
Class GeneralCategories := {
  GeneralCategory : Type;
  GeneralCategory_eq_dec :: EqDecision GeneralCategory;
  UppercaseLetter : GeneralCategory;
  LowercaseLetter : GeneralCategory;
  TitlecaseLetter : GeneralCategory;
  ModifierLetter : GeneralCategory;
  OtherLetter : GeneralCategory;
  DecimalNumber : GeneralCategory;
  LetterNumber : GeneralCategory;
  OtherNumber : GeneralCategory;
  get_general_category : bytes → GeneralCategory;
}.

Record Gpt2BpeConfig := mkGpt2Config {
  gc_bos_token : option Z;
  gc_eos_token : option Z;
  gc_unknown_token : option Z;
  gc_add_bos_token : bool;
  gc_add_eos_token : bool;
}.

Record Gpt2BpeTokenizer := mkGpt2 {
  gt_tokens : list bytes;
  gt_config : Gpt2BpeConfig;
  gt_token_to_id : gmap bytes Z;
  gt_merge_ranks : gmap (bytes * bytes) Z;
  gt_byte_encoder : list bytes;
  gt_byte_decoder : gmap bytes byte;
}.

(** ** The byte alphabet *)

(** [char::from_u32], below U+0800. *)
Definition char_of_code (code : Z) : bytes :=
  if code <? 128 then [byte_of_Z code]
  else [byte_of_Z (Z.lor 192 (Z.shiftr code 6)); byte_of_Z (Z.lor 128 (Z.land code 63))].

Definition assign_byte (st : list bytes * list bool) (b : nat) : list bytes * list bool :=
  (<[b := char_of_code (Z.of_nat b)]> st.1, <[b := true]> st.2).
(** [for byte in from..=to]. *)
Definition assign_range (from to : nat) (st : list bytes * list bool) : list bytes * list bool :=
  foldl assign_byte st (seq from (to + 1 - from)).
Definition assign_fallback (assigned : list bool) (st : list bytes * Z) (b : nat) : list bytes * Z :=
  let '(output, fallback) := st in
  if default false (assigned !! b) then (output, fallback)
  else (<[b := char_of_code (256 + fallback)]> output, fallback + 1).
Definition gpt2_byte_encoder : list bytes :=
  let st := (replicate 256 [zero_byte], replicate 256 false) in
  let st := assign_range 33 126 st in
  let st := assign_range 161 172 st in
  let '(output, assigned) := assign_range 174 255 st in
  (foldl (assign_fallback assigned) (output, 0) (seq 0 256)).1.
Definition gpt2_byte_decoder : gmap bytes byte :=
  foldl (λ m p, <[p.2 := byte_of_Z p.1]> m) ∅ (enumerate gpt2_byte_encoder).

(** ** Construction *)
Definition index_pieces (tokens : list bytes) : tok_result (gmap bytes Z) :=
  fold_result (λ m p, let? id := ok_or (try_u32 p.1) Overflow in Ok (<[p.2 := id]> m))
    ∅ (enumerate tokens).

Definition parse_merge (merge : string) : option (string * string) :=
  p ← split_once_space merge;
  if string_is_empty p.1 || string_is_empty p.2 || contains_space p.2 then None else Some p.

(** One turn of the loop over the merges. *)
Definition add_merge (token_to_id : gmap bytes Z) (ranks : gmap (bytes * bytes) Z) (p : Z * string)
  : tok_result (gmap (bytes * bytes) Z) :=
  let '(rank, merge) := p in
  match parse_merge merge with
  | None => Err (TextTokenizer.InvalidBpeMerge merge)
  | Some (left_, right_) =>
      let key := (string_bytes left_, string_bytes right_) in
      match ranks !! key, token_to_id !! (key.1 ++ key.2) with
      | Some _, _ => Err (TextTokenizer.DuplicateBpeMerge merge)
      | None, None => Err (TextTokenizer.InvalidBpeMerge merge)
      | None, Some _ => Ok (<[key := rank]> ranks)
      end
  end.

Definition check_piece (token_to_id : gmap bytes Z) (character : bytes) : tok_result unit :=
  match token_to_id !! character with Some _ => Ok tt | None => Err (MissingTokenPiece character) end.

Definition Gpt2BpeTokenizer_new (tokens : list bytes) (merges : list string) (config : Gpt2BpeConfig)
  : tok_result Gpt2BpeTokenizer :=
  let? _ := validate_vocabulary tokens in
  let? _ := validate_specials tokens (gc_bos_token config) (gc_eos_token config)
              (gc_unknown_token config) in
  let? token_to_id := index_pieces tokens in
  let? merge_ranks := fold_result (add_merge token_to_id) ∅ (enumerate merges) in
  let? _ := check_all (check_piece token_to_id) gpt2_byte_encoder in
  Ok (mkGpt2 tokens config token_to_id merge_ranks gpt2_byte_encoder gpt2_byte_decoder).

(** ** Splitting a text into words *)
Section categories.
Context `{GeneralCategories}.

Definition is_letter (c : bytes) : bool :=
  let k := get_general_category c in
  bool_decide (k = UppercaseLetter) || bool_decide (k = LowercaseLetter)
  || bool_decide (k = TitlecaseLetter) || bool_decide (k = ModifierLetter)
  || bool_decide (k = OtherLetter).
Definition is_number (c : bytes) : bool :=
  let k := get_general_category c in
  bool_decide (k = DecimalNumber) || bool_decide (k = LetterNumber) || bool_decide (k = OtherNumber).
Definition is_other (c : bytes) : bool := negb (is_whitespace c) && negb (is_letter c) && negb (is_number c).

(** The number of characters at the front that satisfy [p]: the inner loops. *)
Fixpoint count_while (p : bytes → bool) (l : list bytes) : nat :=
  match l with c :: l' => if p c then S (count_while p l') else O | [] => O end.

Definition ascii_char (z : Z) : bytes := [byte_of_Z z].
Definition is_char (z : Z) (c : bytes) : bool := bool_decide (c = ascii_char z).

(** The contractions 's 't 'm 'd and 're 've 'll. *)
Definition contraction (rest : list bytes) : option nat :=
  match rest with
  | current :: next :: tl =>
      if is_char 39 current then
        if is_char 115 next || is_char 116 next || is_char 109 next || is_char 100 next then Some 2%nat
        else
          match tl with
          | third :: _ =>
              if (is_char 114 next && is_char 101 third) || (is_char 118 next && is_char 101 third)
                 || (is_char 108 next && is_char 108 third)
              then Some 3%nat else None
          | [] => None
          end
      else None
  | _ => None
  end.

(** A run of characters of one class, behind a space or not. *)
Definition class_run (p : bytes → bool) (rest : list bytes) : option nat :=
  let skip := match rest with current :: _ => if is_char 32 current then 1%nat else 0%nat | [] => 0%nat end in
  match rest !! skip with
  | Some c => if p c then Some (skip + count_while p (drop skip rest))%nat else None
  | None => None
  end.

Definition blank_run (rest : list bytes) : nat :=
  let whitespace_count := count_while is_whitespace rest in
  if ((1 <? whitespace_count) && (whitespace_count <? length rest))%nat then (whitespace_count - 1)%nat
  else if (0 <? whitespace_count)%nat then whitespace_count
  else 1%nat.

(** One turn of the loop: how far [position] moves, at [characters[position..]]. *)
Definition next_word (rest : list bytes) : nat :=
  match contraction rest with
  | Some n => n
  | None =>
      match class_run is_letter rest with
      | Some n => n
      | None =>
          match class_run is_number rest with
          | Some n => n
          | None =>
              match class_run is_other rest with
              | Some n => n
              | None => blank_run rest
              end
          end
      end
  end.

Fixpoint pretokenize_loop (fuel : nat) (rest : list bytes) (output : list string) : option (list string) :=
  match rest with
  | [] => Some output
  | _ :: _ =>
      match fuel with
      | O => None
      | S fuel' =>
          let n := next_word rest in
          pretokenize_loop fuel' (drop n rest) (output ++ [chars_string (take n rest)])
      end
  end.
Definition gpt2_pretokenize (text : string) : option (list string) :=
  let characters := string_chars text in pretokenize_loop (length characters) characters [].
End categories.

(** ** Encoding *)
Definition byte_encode (self : Gpt2BpeTokenizer) (text : string) : tok_result bytes :=
  fold_result (λ encoded b,
    let? c := or_panic (gt_byte_encoder self !! Z.to_nat (Z_of_byte b)) in Ok (encoded ++ c))
    [] (string_bytes text).

(** One turn of the loop over the pairs: the best rank and index so far. *)
Definition pair_step (self : Gpt2BpeTokenizer) (symbols : list bytes) (best : option (Z * Z)) (index : Z)
  : tok_result (option (Z * Z)) :=
  let? a := or_panic (symbols !! Z.to_nat index) in
  let? b := or_panic (symbols !! Z.to_nat (index + 1)) in
  match gt_merge_ranks self !! (a, b) with
  | None => Ok best
  | Some rank =>
      match best with
      | Some (best_rank, best_index) =>
          if (best_rank <? rank) || ((best_rank =? rank) && (best_index <? index)) then Ok best
          else Ok (Some (rank, index))
      | None => Ok (Some (rank, index))
      end
  end.
Definition best_pair (self : Gpt2BpeTokenizer) (symbols : list bytes) : tok_result (option (Z * Z)) :=
  fold_result (pair_step self symbols) None (map Z.of_nat (seq 0 (length symbols - 1))).

(** [symbols.remove(index + 1)] appended to [symbols[index]]. *)
Definition merge_pair (symbols : list bytes) (index : Z) : tok_result (list bytes) :=
  let i := Z.to_nat index in
  let? right_ := or_panic (symbols !! S i) in
  let symbols := delete (S i) symbols in
  let? left_ := or_panic (symbols !! i) in
  Ok (<[i := left_ ++ right_]> symbols).

Fixpoint bpe_loop (fuel : nat) (self : Gpt2BpeTokenizer) (symbols : list bytes) : fuelled (list bytes) :=
  fuel! best := Some (best_pair self symbols) in
  match best with
  | None => Some (Ok symbols)
  | Some (_, index) =>
      match fuel with
      | O => None
      | S fuel' =>
          fuel! symbols := Some (merge_pair symbols index) in
          bpe_loop fuel' self symbols
      end
  end.

Definition emit_symbol (self : Gpt2BpeTokenizer) (output : list Z) (symbol : bytes) : tok_result (list Z) :=
  let? token := ok_or (gt_token_to_id self !! symbol) (MissingTokenPiece symbol) in
  Ok (output ++ [token]).

Definition encode_word (self : Gpt2BpeTokenizer) (encoded : bytes) (output : list Z) : fuelled (list Z) :=
  fuel! encoded_text := Some (ok_or (from_utf8 encoded) TextTokenizer.InvalidUtf8) in
  let symbols := string_chars encoded_text in
  fuel! symbols := bpe_loop (length symbols) self symbols in
  Some (fold_result (emit_symbol self) output symbols).

Fixpoint encode_words (self : Gpt2BpeTokenizer) (words : list string) (output : list Z) : fuelled (list Z) :=
  match words with
  | [] => Some (Ok output)
  | word :: words =>
      fuel! encoded := Some (byte_encode self word) in
      fuel! output := encode_word self encoded output in
      encode_words self words output
  end.

Definition gpt2_encode `{GeneralCategories} (self : Gpt2BpeTokenizer) (text : string)
    (add_special_tokens : bool) : fuelled (list Z) :=
  let config := gt_config self in
  let output := if add_special_tokens && gc_add_bos_token config then opt_list (gc_bos_token config) else [] in
  match gpt2_pretokenize text with
  | None => None
  | Some words =>
      fuel! output := encode_words self words output in
      Some (Ok (output ++ if add_special_tokens && gc_add_eos_token config
                          then opt_list (gc_eos_token config) else []))
  end.

(** ** Decoding *)
Definition gpt2_is_special (self : Gpt2BpeTokenizer) (id : Z) : bool :=
  bool_decide (gc_bos_token (gt_config self) = Some id)
  || bool_decide (gc_eos_token (gt_config self) = Some id)
  || bool_decide (gc_unknown_token (gt_config self) = Some id).

Definition decode_char (self : Gpt2BpeTokenizer) (bs : bytes) (character : bytes) : tok_result bytes :=
  let? b := ok_or (gt_byte_decoder self !! character) (InvalidGpt2ByteChar character) in
  Ok (bs ++ [b]).

Definition gpt2_decode_step (self : Gpt2BpeTokenizer) (skip_special : bool) (bs : bytes) (id : Z)
  : tok_result bytes :=
  if skip_special && gpt2_is_special self id then Ok bs
  else
    let? index := ok_or (try_usize id) (InvalidTokenId id) in
    let? token := ok_or (gt_tokens self !! Z.to_nat index) (InvalidTokenId id) in
    let? token_text := ok_or (from_utf8 token) TextTokenizer.InvalidUtf8 in
    fold_result (decode_char self) bs (string_chars token_text).
Definition gpt2_decode (self : Gpt2BpeTokenizer) (token_ids : list Z) (skip_special : bool)
  : tok_result string :=
  let? bs := fold_result (gpt2_decode_step self skip_special) [] token_ids in
  ok_or (from_utf8 bs) TextTokenizer.InvalidUtf8.
End Gpt2.
