(* ===== verification/Gpt2Theorems.v ===== *)
(** The byte-pair tokenizer of GPT-2 encodes every text, by the least merges in
    order, and decodes what it encoded. *)
From S2P Require Import Prelude Text Chars NativeTokenizer TextTokenizer SpmTokenizer Gpt2.

Module Gpt2Theorems.
Import TextTokenizer SpmTokenizer Gpt2.

(** ** The alphabet: one character per byte *)
Definition enc (b : byte) : bytes := default [] (gpt2_byte_encoder !! Z.to_nat (Z_of_byte b)).
Definition good_char (c : bytes) : bool :=
  match c with
  | [b0] => between 0 127 b0
  | [b0; b1] => negb (between 0 127 b0) && between 194 223 b0 && is_cont b1
  | _ => false
  end.
Definition all_bytes : list byte := map (λ n, byte_of_Z (Z.of_nat n)) (seq 0 256).

Lemma all_bytes_all b : b ∈ all_bytes.
Proof.
  apply list_elem_of_fmap. exists (Z.to_nat (Z_of_byte b)). pose proof (Z_of_byte_range b).
  split; [|apply elem_of_seq; lia]. rewrite Z2Nat.id by lia. symmetry. apply byte.of_Z_unsigned.
Qed.

Definition check_byte (b : byte) : bool :=
  bool_decide (gpt2_byte_encoder !! Z.to_nat (Z_of_byte b) = Some (enc b))
  && good_char (enc b) && bool_decide (gpt2_byte_decoder !! enc b = Some b).
Lemma alphabet_checked : forallb check_byte all_bytes = true.
Proof. vm_compute. reflexivity. Qed.

Lemma encoder_length : length gpt2_byte_encoder = 256%nat.
Proof. vm_compute. reflexivity. Qed.
#[local] Opaque gpt2_byte_encoder gpt2_byte_decoder.

Lemma enc_spec b :
  gpt2_byte_encoder !! Z.to_nat (Z_of_byte b) = Some (enc b) ∧ good_char (enc b) = true ∧
  gpt2_byte_decoder !! enc b = Some b.
Proof.
  pose proof alphabet_checked as Hall. rewrite forallb_forall in Hall.
  specialize (Hall b). rewrite <- list_elem_of_In in Hall. specialize (Hall (all_bytes_all b)).
  unfold check_byte in Hall. apply andb_true_iff in Hall as [Hall H3]. apply andb_true_iff in Hall as [H1 H2].
  apply bool_decide_eq_true_1 in H1, H3. split; [exact H1|]. split; [exact H2|exact H3].
Qed.

Lemma encoder_covered : Forall (λ c, ∃ b, c = enc b) gpt2_byte_encoder.
Proof.
  apply Forall_lookup. intros i c Hi. exists (byte_of_Z (Z.of_nat i)).
  pose proof (lookup_lt_Some _ _ _ Hi) as Hlt. rewrite encoder_length in Hlt.
  unfold enc, Z_of_byte, byte_of_Z. rewrite byte.unsigned_of_Z. unfold byte.wrap.
  rewrite Z.mod_small, Nat2Z.id, Hi by lia. done.
Qed.

Definition spell (bs : bytes) : bytes := concat (map enc bs).

Lemma chars_good c l : good_char c = true → chars (c ++ l) = c :: chars l.
Proof.
  destruct c as [|b0 [|b1 [|]]]; cbn; try done; [by intros ->|].
  rewrite !andb_true_iff, negb_true_iff. intros ((-> & Hb) & _).
  replace (between 192 223 b0) with true; [done|]. unfold between in *. lia.
Qed.
Lemma utf8_good c l : good_char c = true → utf8_valid (c ++ l) = utf8_valid l.
Proof.
  destruct c as [|b0 [|b1 [|]]]; cbn; try done; [by intros ->|].
  rewrite !andb_true_iff, negb_true_iff. by intros ((-> & ->) & ->).
Qed.
Lemma chars_spell bs : chars (spell bs) = map enc bs.
Proof. induction bs as [|b bs IH]; [done|]. cbn. rewrite chars_good by apply enc_spec. by f_equal. Qed.
Lemma spell_utf8 bs : utf8_valid (spell bs) = true.
Proof. induction bs as [|b bs IH]; [done|]. cbn. by rewrite utf8_good by apply enc_spec. Qed.
Lemma spell_app a b : spell (a ++ b) = spell a ++ spell b.
Proof. unfold spell. by rewrite map_app, concat_app. Qed.

(** ** Splitting *)
Section splitting.
Context `{GeneralCategories}.

Lemma count_while_le p l : (count_while p l ≤ length l)%nat.
Proof. induction l as [|c l IH]; cbn; [lia|]. destruct (p c); lia. Qed.

Lemma contraction_bounds rest n : contraction rest = Some n → (1 ≤ n ≤ length rest)%nat.
Proof.
  unfold contraction. destruct rest as [|c [|d tl]]; try done. destruct (is_char 39 c); [|done].
  destruct (_ || _); [intros [= <-]; cbn; lia|]. destruct tl as [|e tl]; [done|].
  destruct (_ || _); [intros [= <-]; cbn; lia|done].
Qed.
Lemma class_run_bounds p rest n : class_run p rest = Some n → (1 ≤ n ≤ length rest)%nat.
Proof.
  unfold class_run. set (skip := match rest with [] => _ | _ => _ end). clearbody skip.
  destruct (rest !! skip) as [c|] eqn:Hc; [|done]. destruct (p c) eqn:Hp; [|done]. intros [= <-].
  pose proof (count_while_le p (drop skip rest)) as Hle. rewrite length_drop in Hle.
  pose proof (lookup_lt_Some _ _ _ Hc). rewrite (drop_S _ _ _ Hc) in *. cbn. rewrite Hp.
  cbn in Hle. rewrite Hp in Hle. lia.
Qed.
Lemma blank_run_bounds rest : rest ≠ [] → (1 ≤ blank_run rest ≤ length rest)%nat.
Proof.
  intros Hne. unfold blank_run. pose proof (count_while_le is_whitespace rest).
  assert (length rest ≠ 0)%nat by (by destruct rest).
  destruct (Nat.ltb_spec 1 (count_while is_whitespace rest)), (Nat.ltb_spec (count_while is_whitespace rest) (length rest));
    cbn [andb]; destruct (Nat.ltb_spec 0 (count_while is_whitespace rest)); lia.
Qed.
Lemma next_word_bounds rest : rest ≠ [] → (1 ≤ next_word rest ≤ length rest)%nat.
Proof.
  intros Hne. unfold next_word.
  repeat match goal with |- context [match ?o with Some _ => _ | None => _ end] =>
    let E := fresh "E" in destruct o eqn:E; [eauto using contraction_bounds, class_run_bounds|] end.
  by apply blank_run_bounds.
Qed.

Lemma pretokenize_loop_spec fuel rest output :
  (length rest ≤ fuel)%nat →
  ∃ words, pretokenize_loop fuel rest output = Some (output ++ words) ∧
    concat (map string_bytes words) = concat rest.
Proof.
  revert rest output. induction fuel as [|fuel IH]; intros rest output Hf.
  { destruct rest; [|cbn in Hf; lia]. exists []. by rewrite app_nil_r. }
  destruct rest as [|c rest]; [exists []; by rewrite app_nil_r|]. cbn [pretokenize_loop].
  set (l := c :: rest) in *. destruct (next_word_bounds l) as [H1 H2]; [done|].
  destruct (IH (drop (next_word l) l) (output ++ [chars_string (take (next_word l) l)])) as (words & Hw & Hc).
  { rewrite length_drop. lia. }
  exists (chars_string (take (next_word l) l) :: words). rewrite Hw, <- app_assoc. split; [done|].
  cbn [map concat]. unfold chars_string at 1. rewrite string_bytes_string, Hc, <- concat_app. by rewrite take_drop.
Qed.
Lemma pretokenize_spec text :
  ∃ words, gpt2_pretokenize text = Some words ∧ concat (map string_bytes words) = string_bytes text.
Proof.
  unfold gpt2_pretokenize, string_chars.
  destruct (pretokenize_loop_spec (length (chars (string_bytes text))) (chars (string_bytes text)) [])
    as (words & Hw & Hc); [lia|]. exists words. by rewrite Hw, Hc, concat_chars.
Qed.
End splitting.

(** ** Tokenizers as [new] builds them *)
Record gpt2_wf (self : Gpt2BpeTokenizer) : Prop := {
  gw_index : ∀ t id, gt_token_to_id self !! t = Some id →
    0 ≤ id < 2 ^ 32 ∧ gt_tokens self !! Z.to_nat id = Some t;
  gw_merges : ∀ a b r, gt_merge_ranks self !! (a, b) = Some r → is_Some (gt_token_to_id self !! (a ++ b));
  gw_bytes : ∀ b, is_Some (gt_token_to_id self !! enc b);
  gw_encoder : gt_byte_encoder self = gpt2_byte_encoder;
  gw_decoder : gt_byte_decoder self = gpt2_byte_decoder;
}.

Lemma index_pieces_spec tokens m t id :
  index_pieces tokens = Ok m → m !! t = Some id → 0 ≤ id < 2 ^ 32 ∧ tokens !! Z.to_nat id = Some t.
Proof.
  unfold index_pieces. revert m. induction tokens as [|x l IH] using rev_ind; intros m.
  { intros [= <-] Hm. by apply lookup_empty_Some in Hm. }
  rewrite enumerate_snoc, fold_result_snoc. destruct (fold_result _ _ (enumerate l)) as [m'| |]; [|done..].
  cbn. unfold try_u32. pose proof (len_nonneg l). destruct (Z.ltb_spec (len l) (2 ^ 32)); [|done]. cbn.
  intros [= <-] [[<- <-]|[_ Hm]]%lookup_insert_Some.
  - split; [lia|]. by rewrite to_nat_len, lookup_app_r, Nat.sub_diag by done.
  - destruct (IH m' eq_refl Hm). split; [done|]. by apply lookup_app_l_Some.
Qed.

Lemma merges_spec token_to_id merges m a b r :
  fold_result (add_merge token_to_id) ∅ merges = Ok m → m !! (a, b) = Some r →
  is_Some (token_to_id !! (a ++ b)).
Proof.
  intros Hm. revert a b r.
  apply (fold_result_inv (λ m, ∀ a b r, m !! (a, b) = Some r → is_Some (token_to_id !! (a ++ b)))
    (add_merge token_to_id) ∅ merges m); [by intros ??? ?%lookup_empty_Some| |done].
  intros m0 [rank merge] m1 IH _ Hs a b r. unfold add_merge in Hs.
  destruct (parse_merge merge) as [[l r']|]; [|done]. cbn [fst snd] in Hs.
  destruct (m0 !! _); [done|]. destruct (token_to_id !! _) eqn:Ht; [|done]. injection Hs as <-.
  intros [[[= <- <-] _]|[_ ?]]%lookup_insert_Some; [by eexists|by eapply IH].
Qed.

Lemma gpt2_new_wf tokens merges config self :
  Gpt2BpeTokenizer_new tokens merges config = Ok self →
  gpt2_wf self ∧ gt_tokens self = tokens ∧ gt_config self = config.
Proof.
  unfold Gpt2BpeTokenizer_new. destruct (validate_vocabulary tokens) as [[]| |]; [|done..].
  destruct (validate_specials tokens _ _ _) as [[]| |]; [|done..].
  destruct (index_pieces tokens) as [m| |] eqn:Hi; [|done..].
  destruct (fold_result (add_merge m) ∅ _) as [ranks| |] eqn:Hm; [|done..].
  destruct (check_all (check_piece m) gpt2_byte_encoder) as [[]| |] eqn:Hc; [|done..]. intros [= <-].
  split; [|split; reflexivity].
  split; cbn [gt_token_to_id gt_merge_ranks gt_byte_encoder gt_byte_decoder gt_tokens]; [..|reflexivity|reflexivity].
  - intros t id. by apply index_pieces_spec.
  - intros a b r. exact (merges_spec _ _ _ _ _ _ Hm).
  - intros b. apply check_all_Ok in Hc. destruct (enc_spec b) as (Hb%list_elem_of_lookup_2 & _).
    rewrite Forall_forall in Hc. apply Hc in Hb. unfold check_piece in Hb. by destruct (m !! enc b).
Qed.

(** ** Merging *)
Section merging.
Context (self : Gpt2BpeTokenizer) (Hwf : gpt2_wf self).
Notation ranks := (gt_merge_ranks self).

(** The pair at an index has a rank. *)
Definition pair_at (symbols : list bytes) (i : nat) (r : Z) : Prop :=
  ∃ a b, symbols !! i = Some a ∧ symbols !! S i = Some b ∧ ranks !! (a, b) = Some r.
(** The pair at [i] has the least rank, and is the first that has it. *)
Definition best_at (symbols : list bytes) (i : nat) (r : Z) : Prop :=
  pair_at symbols i r ∧ ∀ j q, pair_at symbols j q → r < q ∨ (r = q ∧ (i ≤ j)%nat).

(** Merging the best pair. *)
Inductive bpe_step : list bytes → list bytes → Prop :=
| bpe_merge pre a b post r :
    best_at (pre ++ a :: b :: post) (length pre) r →
    bpe_step (pre ++ a :: b :: post) (pre ++ (a ++ b) :: post).
Definition bpe_normal (symbols : list bytes) : Prop := ∀ i r, ¬ pair_at symbols i r.

Lemma pair_step_spec symbols best i :
  (S i < length symbols)%nat →
  ∃ best', pair_step self symbols best (Z.of_nat i) = Ok best' ∧
    ((∀ r, ¬ pair_at symbols i r) ∧ best' = best ∨
     ∃ r, pair_at symbols i r ∧
       best' = match best with
               | Some (q, j) => if (q <? r) || ((q =? r) && (j <? Z.of_nat i)) then best else Some (r, Z.of_nat i)
               | None => Some (r, Z.of_nat i)
               end).
Proof.
  intros Hi. destruct (lookup_lt_is_Some_2 symbols i) as [a Ha]; [lia|].
  destruct (lookup_lt_is_Some_2 symbols (S i)) as [b Hb]; [done|].
  unfold pair_step. replace (Z.to_nat (Z.of_nat i + 1)) with (S i) by lia. rewrite Nat2Z.id, Ha, Hb. cbn [or_panic].
  destruct (ranks !! (a, b)) as [r|] eqn:Hr.
  - assert (pair_at symbols i r) by (exists a, b; done).
    destruct best as [[q j]|]; [destruct (_ || _) eqn:Hc|]; eexists; (split; [done|]); right; exists r; split; try done;
      by rewrite Hc.
  - eexists. split; [done|]. left. split; [|done]. intros r (a' & b' & Ha' & Hb' & Hr'). congruence.
Qed.

Definition best_below (symbols : list bytes) (n : nat) (best : option (Z * Z)) : Prop :=
  match best with
  | None => ∀ i r, (i < n)%nat → ¬ pair_at symbols i r
  | Some (r, z) => ∃ i, z = Z.of_nat i ∧ (i < n)%nat ∧ pair_at symbols i r ∧
      ∀ j q, (j < n)%nat → pair_at symbols j q → r < q ∨ (r = q ∧ (i ≤ j)%nat)
  end.

Lemma pair_at_fun symbols i r q : pair_at symbols i r → pair_at symbols i q → r = q.
Proof. intros (a & b & Ha & Hb & Hr) (a' & b' & Ha' & Hb' & Hq). congruence. Qed.

Lemma best_below_S symbols n best :
  (S n < length symbols)%nat → best_below symbols n best →
  ∃ best', pair_step self symbols best (Z.of_nat n) = Ok best' ∧ best_below symbols (S n) best'.
Proof.
  intros Hn Hb. destruct (pair_step_spec symbols best n Hn) as (best' & Hs & Hcase).
  exists best'. split; [done|]. clear Hs.
  assert (∀ j, (j < S n)%nat → (j < n)%nat ∨ j = n) as Hj by lia.
  destruct Hcase as [[Hno ->]|(r & Hr & ->)].
  - destruct best as [[q z]|]; cbn in *.
    + destruct Hb as (i & -> & Hi & Hp & Hmin). exists i. split_and!; [done|lia|done|].
      intros j q' [Hlt| ->]%Hj Hq'; [by apply (Hmin j q')|by apply Hno in Hq'].
    + intros i r [Hlt| ->]%Hj; [by apply Hb|apply Hno].
  - destruct best as [[q z]|]; cbn in *.
    + destruct Hb as (i & -> & Hi & Hp & Hmin).
      destruct (_ || _) eqn:Hc.
      * exists i. split_and!; [done|lia|done|]. intros j q' [Hlt| ->]%Hj Hq'; [by apply (Hmin j q')|].
        pose proof (pair_at_fun _ _ _ _ Hr Hq') as <-. lia.
      * exists n. split_and!; [done|lia|done|]. intros j q' [Hlt| ->]%Hj Hq'.
        -- destruct (Hmin j q' Hlt Hq'); lia.
        -- right. by rewrite (pair_at_fun _ _ _ _ Hr Hq').
    + exists n. split_and!; [done|lia|done|]. intros j q' [Hlt| ->]%Hj Hq'; [by apply Hb in Hq'|].
      right. by rewrite (pair_at_fun _ _ _ _ Hr Hq').
Qed.

Lemma best_pair_below symbols n :
  (n < length symbols)%nat ∨ n = 0%nat →
  ∃ best, fold_result (pair_step self symbols) None (map Z.of_nat (seq 0 n)) = Ok best ∧ best_below symbols n best.
Proof.
  induction n as [|n IH]; intros Hn; [exists None; split; [done|]; intros i r; lia|].
  destruct IH as (best & Hb & Hbest); [lia|]. rewrite seq_S, map_app. cbn [map].
  rewrite fold_result_snoc, Hb. by apply best_below_S; [lia|].
Qed.

Lemma pair_at_lt symbols i r : pair_at symbols i r → (i < length symbols - 1)%nat.
Proof. intros (a & b & _ & Hb%lookup_lt_Some & _). lia. Qed.

Lemma best_pair_spec symbols :
  (best_pair self symbols = Ok None ∧ bpe_normal symbols) ∨
  ∃ i r, best_pair self symbols = Ok (Some (r, Z.of_nat i)) ∧ best_at symbols i r.
Proof.
  unfold best_pair. destruct (best_pair_below symbols (length symbols - 1)) as ([[r z]|] & -> & Hb); [lia|right|left].
  - destruct Hb as (i & -> & _ & Hp & Hmin). exists i, r. split; [done|]. split; [done|].
    intros j q Hq. apply Hmin; [by apply (pair_at_lt _ _ q)|done].
  - split; [done|]. intros i r Hp. by apply (Hb i r); [apply (pair_at_lt _ _ r)|].
Qed.

Lemma merge_pair_spec symbols i r :
  best_at symbols i r →
  ∃ symbols', merge_pair symbols (Z.of_nat i) = Ok symbols' ∧ bpe_step symbols symbols' ∧
    length symbols = S (length symbols').
Proof.
  intros Hbest. pose proof Hbest as [(a & b & Ha & Hb & _) _].
  pose proof (take_drop_middle _ _ _ Ha) as Hs. pose proof (lookup_lt_Some _ _ _ Ha).
  rewrite (drop_S _ _ _ Hb) in Hs. set (pre := take i symbols) in *. set (post := drop (S (S i)) symbols) in *.
  assert (length pre = i) as Hl by (unfold pre; rewrite length_take; lia).
  exists (pre ++ (a ++ b) :: post). rewrite <- Hs. clearbody pre post. subst i.
  unfold merge_pair. rewrite Nat2Z.id.
  assert ((pre ++ a :: b :: post) !! S (length pre) = Some b) as ->
    by (rewrite lookup_app_r by lia; by replace (S (length pre) - length pre)%nat with 1%nat by lia).
  cbn [or_panic].
  assert (delete (S (length pre)) (pre ++ a :: b :: post) = pre ++ a :: post) as ->.
  { replace (pre ++ a :: b :: post) with ((pre ++ [a]) ++ b :: post) by (by rewrite <- app_assoc).
    replace (S (length pre)) with (length (pre ++ [a])) by (rewrite length_app; cbn; lia).
    rewrite delete_middle. by rewrite <- app_assoc. }
  rewrite list_lookup_middle by done. cbn [or_panic].
  rewrite <- (Nat.add_0_r (length pre)) at 1. rewrite insert_app_r. cbn [list_insert insert].
  split; [done|]. split; [|rewrite !length_app; cbn; lia].
  econstructor. by rewrite Hs.
Qed.

Lemma bpe_loop_spec fuel symbols :
  (length symbols ≤ fuel)%nat →
  ∃ symbols', bpe_loop fuel self symbols = Some (Ok symbols') ∧ rtc bpe_step symbols symbols' ∧
    bpe_normal symbols'.
Proof.
  revert symbols. induction fuel as [|fuel IH]; intros symbols Hf; cbn [bpe_loop];
    destruct (best_pair_spec symbols) as [[-> Hn]|(i & r & -> & Hb)]; cbn [fuel_bind].
  1, 3: by exists symbols.
  - destruct Hb as [Hp%pair_at_lt _]. lia.
  - destruct (merge_pair_spec symbols i r Hb) as (s & -> & Hstep & Hl). cbn [fuel_bind].
    destruct (IH s) as (s' & -> & Hrtc & Hn); [lia|]. exists s'. split_and!; [done|by eapply rtc_l|done].
Qed.
End merging.

(** ** Encoding and decoding *)
Section coding.
Context (self : Gpt2BpeTokenizer) (Hwf : gpt2_wf self).

(** The symbols spell the bytes, and each is a token. *)
Definition pieces (symbols : list bytes) (bs : bytes) : Prop :=
  ∃ blocks, symbols = map spell blocks ∧ concat blocks = bs ∧
    Forall (λ s, is_Some (gt_token_to_id self !! s)) symbols.

Lemma pieces_bytes bs : pieces (map enc bs) bs.
Proof.
  exists (map (λ b, [b]) bs). split_and!.
  - rewrite map_map. apply map_ext. intros b. unfold spell. cbn [map concat]. by rewrite app_nil_r.
  - induction bs as [|b bs IH]; [done|]. cbn. by rewrite IH.
  - apply Forall_map, Forall_true. intros b. apply (gw_bytes _ Hwf).
Qed.

Lemma pieces_step s s' bs : bpe_step self s s' → pieces s bs → pieces s' bs.
Proof.
  intros [pre a b post r [(a' & b' & Ha & Hb & Hr) _]] (blocks & Heq & Hc & Hall).
  rewrite list_lookup_middle in Ha by done. injection Ha as <-.
  rewrite lookup_app_r in Hb by lia. replace (S (length pre) - length pre)%nat with 1%nat in Hb by lia.
  injection Hb as <-. symmetry in Heq. apply map_eq_app in Heq as (bp & rest & -> & <- & Heq).
  apply map_eq_cons in Heq as (x & rest' & -> & <- & Heq).
  apply map_eq_cons in Heq as (y & bq & -> & <- & <-).
  exists (bp ++ (x ++ y) :: bq). split_and!.
  - rewrite map_app. cbn [map]. by rewrite spell_app.
  - rewrite <- Hc, !concat_app. cbn. by rewrite <- app_assoc.
  - apply Forall_app in Hall as [Hpre Hrest]. apply Forall_cons in Hrest as [_ Hrest].
    apply Forall_cons in Hrest as [_ Hpost].
    apply Forall_app_2; [done|]. constructor; [|done]. by apply (gw_merges _ Hwf _ _ r).
Qed.
Lemma pieces_rtc s s' bs : rtc (bpe_step self) s s' → pieces s bs → pieces s' bs.
Proof. induction 1 as [|s1 s2 s3 Hs _ IH]; [done|]. intros Hp. apply IH. by eapply pieces_step. Qed.

(** The tokens of a word: those of the normal form of its bytes. *)
Definition token_of (s : bytes) (id : Z) : Prop := 0 ≤ id < 2 ^ 32 ∧ gt_tokens self !! Z.to_nat id = Some s.
Definition word_tokens (w : bytes) (ids : list Z) : Prop :=
  ∃ symbols, rtc (bpe_step self) (map enc w) symbols ∧ bpe_normal self symbols ∧ Forall2 token_of symbols ids.

Lemma byte_encode_spec text : byte_encode self text = Ok (spell (string_bytes text)).
Proof.
  unfold byte_encode. rewrite (gw_encoder _ Hwf). generalize (string_bytes text) as bs.
  assert (∀ bs acc, fold_result (λ encoded b, let? c := or_panic (E:=TokenizerError)
    (gpt2_byte_encoder !! Z.to_nat (Z_of_byte b)) in Ok (encoded ++ c)) acc bs = Ok (acc ++ spell bs)) as Hgen.
  { induction bs as [|b bs IH]; intros acc; cbn [fold_result]; [unfold spell; cbn; by rewrite app_nil_r|].
    rewrite (proj1 (enc_spec b)). cbn [or_panic]. rewrite IH. unfold spell. cbn. by rewrite <- app_assoc. }
  intros bs. by rewrite Hgen.
Qed.

Lemma emit_symbols_spec symbols :
  Forall (λ s, is_Some (gt_token_to_id self !! s)) symbols →
  ∃ ids, Forall2 token_of symbols ids ∧
    ∀ output, fold_result (emit_symbol self) output symbols = Ok (output ++ ids).
Proof.
  induction 1 as [|s symbols [id Hid] _ (ids & Hids & IH)].
  - exists []. split; [done|]. intros output. by rewrite app_nil_r.
  - exists (id :: ids). split; [constructor; [by apply (gw_index _ Hwf)|done]|]. intros output.
    cbn [fold_result]. unfold emit_symbol at 1. rewrite Hid. cbn [ok_or]. by rewrite IH, <- app_assoc.
Qed.

Lemma encode_word_spec w :
  ∃ ids, word_tokens w ids ∧ ∀ output, encode_word self (spell w) output = Some (Ok (output ++ ids)).
Proof.
  destruct (bpe_loop_spec self (length (map enc w)) (map enc w)) as (symbols & Hloop & Hrtc & Hn); [done|].
  destruct (pieces_rtc _ _ _ Hrtc (pieces_bytes w)) as (_ & _ & _ & Hall).
  destruct (emit_symbols_spec symbols Hall) as (ids & Hids & Hemit). exists ids. split; [by exists symbols|].
  intros output. unfold encode_word, from_utf8. rewrite spell_utf8. cbn [fuel_bind ok_or].
  unfold string_chars. rewrite string_bytes_string, chars_spell, Hloop. cbn [fuel_bind]. by rewrite Hemit.
Qed.

Lemma encode_words_spec words :
  ∃ idss, Forall2 (λ w ids, word_tokens (string_bytes w) ids) words idss ∧
    ∀ output, encode_words self words output = Some (Ok (output ++ concat idss)).
Proof.
  induction words as [|w words (idss & Hall & IH)].
  - exists []. split; [done|]. intros output. cbn. by rewrite app_nil_r.
  - destruct (encode_word_spec (string_bytes w)) as (ids & Hids & Hw). exists (ids :: idss).
    split; [by constructor|]. intros output. cbn [encode_words]. rewrite byte_encode_spec. cbn [fuel_bind].
    rewrite Hw. cbn [fuel_bind concat]. by rewrite IH, <- app_assoc.
Qed.

Definition add_bos (add_special_tokens : bool) : list Z :=
  if add_special_tokens && gc_add_bos_token (gt_config self) then opt_list (gc_bos_token (gt_config self)) else [].
Definition add_eos (add_special_tokens : bool) : list Z :=
  if add_special_tokens && gc_add_eos_token (gt_config self) then opt_list (gc_eos_token (gt_config self)) else [].

Lemma gpt2_encode_words `{GeneralCategories} text :
  ∃ words idss, gpt2_pretokenize text = Some words ∧ concat (map string_bytes words) = string_bytes text ∧
    Forall2 (λ w ids, word_tokens (string_bytes w) ids) words idss ∧
    ∀ add_special_tokens, gpt2_encode self text add_special_tokens =
      Some (Ok (add_bos add_special_tokens ++ concat idss ++ add_eos add_special_tokens)).
Proof.
  destruct (pretokenize_spec text) as (words & Hw & Hc).
  destruct (encode_words_spec words) as (idss & Hids & Hrun). exists words, idss. split_and!; [done..|].
  intros add. unfold gpt2_encode. rewrite Hw. fold (add_bos add) (add_eos add).
  rewrite Hrun. cbn [fuel_bind]. by rewrite <- app_assoc.
Qed.

Lemma decode_chars bs acc : fold_result (decode_char self) acc (map enc bs) = Ok (acc ++ bs).
Proof.
  revert acc. induction bs as [|b bs IH]; intros acc; cbn [map fold_result]; [by rewrite app_nil_r|].
  unfold decode_char at 1. rewrite (gw_decoder _ Hwf). destruct (enc_spec b) as (_ & _ & ->). cbn [ok_or].
  by rewrite IH, <- app_assoc.
Qed.

(** Decoding the tokens of some pieces gives the bytes the pieces spell. *)
Lemma decode_pieces symbols bs ids skip acc :
  pieces symbols bs → Forall2 token_of symbols ids →
  (skip = true → Forall (λ id, gpt2_is_special self id = false) ids) →
  fold_result (gpt2_decode_step self skip) acc ids = Ok (acc ++ bs).
Proof.
  intros (blocks & -> & <- & _) Hids Hskip. revert ids acc Hids Hskip.
  induction blocks as [|block blocks IH]; intros ids acc Hids Hskip; cbn [map] in Hids.
  { apply Forall2_nil_inv_l in Hids as ->. cbn. by rewrite app_nil_r. }
  apply Forall2_cons_inv_l in Hids as (id & ids' & [Hid Ht] & Hrest & ->). cbn [fold_result].
  assert (skip && gpt2_is_special self id = false) as Hsp.
  { destruct skip; [|done]. by apply Forall_cons in Hskip as [-> _]. }
  unfold gpt2_decode_step at 1. rewrite Hsp. unfold try_usize, try_u64.
  destruct (Z.ltb_spec id (2 ^ 64)); [|lia]. cbn [ok_or]. rewrite Ht. cbn [ok_or].
  unfold from_utf8. rewrite spell_utf8. cbn [ok_or]. unfold string_chars.
  rewrite string_bytes_string, chars_spell, decode_chars. cbn [concat]. rewrite app_assoc. apply IH; [done|].
  intros Hs. by apply Forall_cons in Hskip as [_ ?].
Qed.

Lemma decode_words words idss skip acc :
  Forall2 (λ w ids, word_tokens (string_bytes w) ids) words idss →
  (skip = true → Forall (λ id, gpt2_is_special self id = false) (concat idss)) →
  fold_result (gpt2_decode_step self skip) acc (concat idss) = Ok (acc ++ concat (map string_bytes words)).
Proof.
  intros Hall. revert acc. induction Hall as [|w ids words idss (symbols & Hrtc & _ & Hids) _ IH]; intros acc Hskip;
    cbn [concat map]; [by rewrite app_nil_r|].
  cbn [concat] in Hskip. rewrite fold_result_app.
  rewrite (decode_pieces symbols (string_bytes w)); [|by eapply pieces_rtc, pieces_bytes|done|].
  - rewrite IH; [by rewrite app_assoc|]. intros Hs. by apply Hskip, Forall_app in Hs as [_ ?].
  - intros Hs. by apply Hskip, Forall_app in Hs as [? _].
Qed.
End coding.

(** ** Properties *)

(** C31: For a tokenizer the constructor accepts, encoding ends without an error on every
    text: the words the pretokenizer cuts are the text, and the tokens of each word are the
    pieces that byte-pair encoding leaves when it merges the pair of least rank, first place
    first, until no pair has a rank. *)
Theorem gpt2_encode_bpe `{GeneralCategories} tokens merges config self text add_special_tokens :
  Gpt2BpeTokenizer_new tokens merges config = Ok self →
  ∃ words idss, gpt2_pretokenize text = Some words ∧ concat (map string_bytes words) = string_bytes text ∧
    Forall2 (λ w ids, word_tokens self (string_bytes w) ids) words idss ∧
    gpt2_encode self text add_special_tokens =
      Some (Ok (add_bos self add_special_tokens ++ concat idss ++ add_eos self add_special_tokens)).
Proof.
  intros (Hwf & _)%gpt2_new_wf. destruct (gpt2_encode_words self Hwf text) as (words & idss & ? & ? & ? & Henc).
  exists words, idss. split_and!; auto.
Qed.

Lemma decode_specials self ids acc :
  Forall (λ id, gpt2_is_special self id = true) ids → fold_result (gpt2_decode_step self true) acc ids = Ok acc.
Proof.
  induction 1 as [|id ids Hid _ IH]; [done|]. cbn [fold_result]. unfold gpt2_decode_step at 1. by rewrite Hid.
Qed.
Lemma bos_special self add : Forall (λ id, gpt2_is_special self id = true) (add_bos self add).
Proof.
  unfold add_bos, gpt2_is_special. destruct (_ && _); [|constructor].
  destruct (gc_bos_token (gt_config self)) as [id|]; [|constructor]. constructor; [|constructor].
  by rewrite bool_decide_true by done.
Qed.
Lemma eos_special self add : Forall (λ id, gpt2_is_special self id = true) (add_eos self add).
Proof.
  unfold add_eos, gpt2_is_special. destruct (_ && _); [|constructor].
  destruct (gc_eos_token (gt_config self)) as [id|]; [|constructor]. constructor; [|constructor].
  rewrite (bool_decide_true (Some id = Some id)) by done. by rewrite orb_true_r.
Qed.

(** Decoding the encoding of a text gives the text back, and also with the special
    tokens added and skipped when none of the tokens of the text is special. *)
Theorem gpt2_round_trip `{GeneralCategories} tokens merges config self text :
  Gpt2BpeTokenizer_new tokens merges config = Ok self → is_utf8 text →
  ∃ ids, (∀ add, gpt2_encode self text add = Some (Ok (add_bos self add ++ ids ++ add_eos self add))) ∧
    gpt2_decode self ids false = Ok text ∧
    (Forall (λ id, gpt2_is_special self id = false) ids →
     ∀ add, gpt2_decode self (add_bos self add ++ ids ++ add_eos self add) true = Ok text).
Proof.
  intros (Hwf & _)%gpt2_new_wf Htext.
  destruct (gpt2_encode_words self Hwf text) as (words & idss & _ & Hc & Hids & Henc).
  exists (concat idss). split; [done|]. unfold gpt2_decode. split.
  - rewrite (decode_words self Hwf words) by done. cbn [app]. by rewrite Hc, from_utf8_string.
  - intros Hn add. rewrite fold_result_app, decode_specials by apply bos_special.
    rewrite fold_result_app, (decode_words self Hwf words) by done.
    rewrite decode_specials by apply eos_special. cbn [app]. by rewrite Hc, from_utf8_string.
Qed.

(** ** Witnesses *)

#[local] Transparent gpt2_byte_encoder gpt2_byte_decoder.

(** The categories of the ASCII letters and digits. *)
Inductive sample_category := SUpper | SLower | STitle | SModifier | SLetter | SDigit | SLetterNumber | SNumber | SOther.
#[local] Instance sample_category_eq_dec : EqDecision sample_category.
Proof. solve_decision. Defined.
#[local] Instance sample_categories : GeneralCategories := {|
  GeneralCategory := sample_category;
  UppercaseLetter := SUpper; LowercaseLetter := SLower; TitlecaseLetter := STitle;
  ModifierLetter := SModifier; OtherLetter := SLetter; DecimalNumber := SDigit;
  LetterNumber := SLetterNumber; OtherNumber := SNumber;
  get_general_category c :=
    match c with
    | [b] => if between 65 90 b then SUpper else if between 97 122 b then SLower
             else if between 48 57 b then SDigit else SOther
    | _ => SOther
    end |}.
Definition sample_merges : list string := ["l l"; "h e"; "he ll"].
Definition sample_config : Gpt2BpeConfig := mkGpt2Config (Some 259) (Some 259) None true false.
Definition sample_tokens : list bytes :=
  gpt2_byte_encoder ++ map string_bytes ["ll"; "he"; "hell"; "<|end|>"].
Definition sample_gpt2 : Gpt2BpeTokenizer :=
  ok_default (mkGpt2 [] sample_config ∅ ∅ [] ∅) (Gpt2BpeTokenizer_new sample_tokens sample_merges sample_config).
Lemma sample_gpt2_ok : is_ok (Gpt2BpeTokenizer_new sample_tokens sample_merges sample_config) = true.
Proof. vm_compute. reflexivity. Qed.
Lemma sample_gpt2_new : Gpt2BpeTokenizer_new sample_tokens sample_merges sample_config = Ok sample_gpt2.
Proof.
  pose proof sample_gpt2_ok as Hok. unfold sample_gpt2.
  destruct (Gpt2BpeTokenizer_new sample_tokens sample_merges sample_config); [reflexivity|discriminate Hok..].
Qed.
Example sample_hello : gpt2_encode sample_gpt2 "hello 42" true = Some (Ok [259; 258; 111; 32; 52; 50]).
Proof. vm_compute. reflexivity. Qed.

Lemma gpt2_encode_bpe_witness :
  ∃ words idss, gpt2_pretokenize "hello 42" = Some words ∧
    gpt2_encode sample_gpt2 "hello 42" true = Some (Ok (add_bos sample_gpt2 true ++ concat idss ++ add_eos sample_gpt2 true)).
Proof.
  destruct (gpt2_encode_bpe sample_tokens sample_merges sample_config sample_gpt2 "hello 42" true sample_gpt2_new)
    as (words & idss & Hw & _ & _ & He).
  exists words, idss. split; [exact Hw|exact He].
Defined.
Lemma gpt2_round_trip_witness :
  ∃ ids, gpt2_encode sample_gpt2 "hello 42" false = Some (Ok (add_bos sample_gpt2 false ++ ids ++ add_eos sample_gpt2 false)) ∧
    gpt2_decode sample_gpt2 ids false = Ok "hello 42".
Proof.
  destruct (gpt2_round_trip sample_tokens sample_merges sample_config sample_gpt2 "hello 42" sample_gpt2_new
    ltac:(vm_compute; reflexivity)) as (ids & He & Hd & _).
  exists ids. split; [exact (He false)|exact Hd].
Defined.
End Gpt2Theorems.
