(* ===== verification/ActionCheckpoint.v ===== *)
(** The action-fabric checkpoint TAF97: src/crates/ntd-runtime/src/action_checkpoint.rs.

    The same frame as the cognitive checkpoint around the plans of the fabric;
    the state written and the state read are validated against the capability
    registry. *)
From S2P Require Import Prelude Text Collections Codec WireFormat Core Capability ActionValues Effects ActionFabric.

Module ActionCheckpoint.

Definition TAF97_MAGIC : bytes := string_bytes "TAF97" ++ [zero_byte].
Definition TAF97_MAJOR : Z := 0.
Definition TAF97_MINOR : Z := 4.
Definition TAF97_HEADER_LEN : Z := 24.

Inductive ActionCheckpointError :=
| AcTruncated
| AcInvalidMagic
| AcInvalidHeader
| AcUnsupportedVersion (major minor : Z)
| AcInvalidUtf8
| AcInvalidBoolean (value : Z)
| InvalidActionTag (value : Z)
| InvalidValueTag (value : Z)
| AcInvalidSideEffect (value : Z)
| AcNonCanonicalEncoding
| AcOverflow
| Fabric (e : ActionFabricError).

#[export] Instance action_cursor : CursorErrors ActionCheckpointError :=
  {| err_truncated := AcTruncated; err_cursor_overflow := AcOverflow |}.
#[export] Instance action_errors : FormatErrors ActionCheckpointError :=
  {| err_utf8 := AcInvalidUtf8; err_boolean := AcInvalidBoolean;
     err_non_canonical := AcNonCanonicalEncoding |}.

Definition encode_side_effect (value : SideEffectClass) : Z :=
  match value with ReadOnly => 1 | Reversible => 2 | ExternalWrite => 3 | Irreversible => 4 end.
Definition decode_side_effect (value : Z) : result ActionCheckpointError SideEffectClass :=
  if value =? 1 then Ok ReadOnly
  else if value =? 2 then Ok Reversible
  else if value =? 3 then Ok ExternalWrite
  else if value =? 4 then Ok Irreversible
  else Err (AcInvalidSideEffect value).

Definition encode_typed_action (out : bytes) (action : TypedAction)
  : result ActionCheckpointError bytes :=
  match action with
  | WebSearch query max_results =>
      let? out := push_string (push_u8 out 1) query in Ok (push_u16 out max_results)
  | WebFetch url => push_string (push_u8 out 2) url
  | BrowserObserve target => push_string (push_u8 out 3) target
  | BrowserInteract target operation value =>
      let? out := push_string (push_u8 out 4) target in
      let? out := push_string out operation in
      push_optional_string out value
  | FileRead path => push_string (push_u8 out 5) path
  | FileWrite path contents =>
      let? out := push_string (push_u8 out 6) path in push_bytes out contents
  | DeviceObserve surface => push_string (push_u8 out 7) surface
  | DeviceInteract surface operation argument =>
      let? out := push_string (push_u8 out 8) surface in
      let? out := push_string out operation in
      push_optional_string out argument
  | AppAction app action payload =>
      let? out := push_string (push_u8 out 9) app in
      let? out := push_string out action in
      push_bytes out payload
  | CustomAction type_name payload =>
      let? out := push_string (push_u8 out 10) type_name in push_bytes out payload
  | PcObserve peer surface =>
      let? out := push_string (push_u8 out 11) peer in push_string out surface
  | PcExecute peer program args working_dir =>
      let? out := push_string (push_u8 out 12) peer in
      let? out := push_string out program in
      let? out := push_strings out args in
      push_optional_string out working_dir
  | PcArtifactRead peer path =>
      let? out := push_string (push_u8 out 13) peer in push_string out path
  | PcArtifactWrite peer path contents =>
      let? out := push_string (push_u8 out 14) peer in
      let? out := push_string out path in
      push_bytes out contents
  | ArtifactDownload url path =>
      let? out := push_string (push_u8 out 15) url in push_string out path
  | ArtifactUpload url path =>
      let? out := push_string (push_u8 out 16) url in push_string out path
  end.

Definition decode_typed_action : decoder ActionCheckpointError TypedAction :=
  dec! tag <- read_u8;
  match tag with
  | 1 => dec! query <- read_string; dec! max_results <- read_u16;
         dec_ret (WebSearch query max_results)
  | 2 => dec! url <- read_string; dec_ret (WebFetch url)
  | 3 => dec! target <- read_string; dec_ret (BrowserObserve target)
  | 4 => dec! target <- read_string; dec! operation <- read_string;
         dec! value <- optional_string; dec_ret (BrowserInteract target operation value)
  | 5 => dec! path <- read_string; dec_ret (FileRead path)
  | 6 => dec! path <- read_string; dec! contents <- read_bytes; dec_ret (FileWrite path contents)
  | 7 => dec! surface <- read_string; dec_ret (DeviceObserve surface)
  | 8 => dec! surface <- read_string; dec! operation <- read_string;
         dec! argument <- optional_string; dec_ret (DeviceInteract surface operation argument)
  | 9 => dec! app <- read_string; dec! action <- read_string; dec! payload <- read_bytes;
         dec_ret (AppAction app action payload)
  | 10 => dec! type_name <- read_string; dec! payload <- read_bytes;
          dec_ret (CustomAction type_name payload)
  | 11 => dec! peer <- read_string; dec! surface <- read_string; dec_ret (PcObserve peer surface)
  | 12 => dec! peer <- read_string; dec! program <- read_string; dec! args <- read_strings;
          dec! working_dir <- optional_string; dec_ret (PcExecute peer program args working_dir)
  | 13 => dec! peer <- read_string; dec! path <- read_string; dec_ret (PcArtifactRead peer path)
  | 14 => dec! peer <- read_string; dec! path <- read_string; dec! contents <- read_bytes;
          dec_ret (PcArtifactWrite peer path contents)
  | 15 => dec! url <- read_string; dec! path <- read_string; dec_ret (ArtifactDownload url path)
  | 16 => dec! url <- read_string; dec! path <- read_string; dec_ret (ArtifactUpload url path)
  | other => dec_lift (Err (InvalidActionTag other))
  end.

Definition push_optional_output : bytes → option ActionOutput → result ActionCheckpointError bytes :=
  push_option encode_output.
Definition optional_output : decoder ActionCheckpointError (option ActionOutput) :=
  read_option (decode_output InvalidValueTag).

Definition encode_planned_action (out : bytes) (a : PlannedAction)
  : result ActionCheckpointError bytes :=
  let out := push_u64 out (pa_id a) in
  let out := push_u32 out (pa_node_id a) in
  let? out := push_string out (pa_capability a) in
  let out := push_u32 out (pa_capability_version a) in
  let out := push_u8 out (encode_side_effect (pa_side_effect a)) in
  let out := push_bool out (pa_verification_required a) in
  let? out := encode_typed_action out (pa_action a) in
  let out := push_u8 out (status_tag (pa_status a)) in
  let out := push_u32 out (pa_attempts a) in
  let? out := push_optional_output out (pa_output a) in
  let? out := push_optional_bytes out (pa_resume_token a) in
  let? out := push_optional_bytes out (pa_rollback_token a) in
  push_optional_string out (pa_last_error a).

Definition decode_planned_action : decoder ActionCheckpointError PlannedAction :=
  dec! id <- read_u64;
  dec! node_id <- read_u32;
  dec! capability <- read_string;
  dec! capability_version <- read_u32;
  dec! raw_side_effect <- read_u8;
  dec! side_effect <- dec_lift (decode_side_effect raw_side_effect);
  dec! verification_required <- read_boolean;
  dec! action <- decode_typed_action;
  dec! status_raw <- read_u8;
  dec! status <- dec_lift (map_err Fabric (ActionStatus_try_from status_raw));
  dec! attempts <- read_u32;
  dec! output <- optional_output;
  dec! resume_token <- optional_bytes;
  dec! rollback_token <- optional_bytes;
  dec! last_error <- optional_string;
  dec_ret (mkAction id node_id capability capability_version side_effect verification_required
             action status attempts output resume_token rollback_token last_error).

Definition encode_plan (out : bytes) (p : ActionPlanState) : result ActionCheckpointError bytes :=
  let out := push_u64 out (pl_id p) in
  let out := push_u64 out (pl_task_id p) in
  let? cursor := ok_or (try_u64 (pl_cursor p)) AcOverflow in
  let out := push_u64 out cursor in
  let out := push_u8 out (plan_status_tag (pl_status p)) in
  push_list encode_planned_action out (pl_actions p).

Definition decode_plan : decoder ActionCheckpointError ActionPlanState :=
  dec! id <- read_u64;
  dec! task_id <- read_u64;
  dec! raw_cursor <- read_u64;
  dec! cursor <- dec_lift (ok_or (try_usize raw_cursor) AcOverflow);
  dec! status_raw <- read_u8;
  dec! status <- dec_lift (map_err Fabric (ActionPlanStatus_try_from status_raw));
  dec! actions <- read_list decode_planned_action;
  dec_ret (mkPlan id task_id cursor status actions).

(** ** The checkpoint *)
Definition encode_payload (s : ActionFabricState) : result ActionCheckpointError bytes :=
  let out := push_u64 [] (fs_next_plan_id s) in
  let out := push_u64 out (fs_next_action_id s) in
  let? n := len_u32 (Z.of_nat (size (fs_plans s))) in
  fold_result encode_plan (push_u32 out n) (btree_values (fs_plans s)).

Definition encode_action_fabric_checkpoint (registry : CapabilityRegistry) (s : ActionFabricState)
  : result ActionCheckpointError bytes :=
  let? _ := map_err Fabric (validate_fabric_state registry s) in
  let? payload := encode_payload s in
  let? payload_len := ok_or (try_u64 (len payload)) AcOverflow in
  let? _ := ok_or (checked_add_usize TAF97_HEADER_LEN (len payload)) AcOverflow in
  let out := TAF97_MAGIC in
  let out := push_u16 out TAF97_HEADER_LEN in
  let out := push_u16 out TAF97_MAJOR in
  let out := push_u16 out TAF97_MINOR in
  let out := push_u32 out 0 in
  let out := push_u64 out payload_len in
  Ok (out ++ payload).

Definition decode_header : decoder ActionCheckpointError Z :=
  dec! magic <- take_bytes 6;
  dec! _ <- dec_guard (bytes_eqb magic TAF97_MAGIC) AcInvalidMagic;
  dec! header_len <- read_u16;
  dec! _ <- dec_guard (header_len =? TAF97_HEADER_LEN) AcInvalidHeader;
  dec! major <- read_u16;
  dec! minor <- read_u16;
  dec! _ <- dec_guard (negb (negb (major =? TAF97_MAJOR) || (TAF97_MINOR <? minor)))
              (AcUnsupportedVersion major minor);
  dec! reserved <- read_u32;
  dec! _ <- dec_guard (reserved =? 0) AcInvalidHeader;
  dec! payload_len <- read_u64;
  dec_lift (ok_or (try_usize payload_len) AcOverflow).

Definition decode_payload : decoder ActionCheckpointError ActionFabricState :=
  dec! next_plan_id <- read_u64;
  dec! next_action_id <- read_u64;
  dec! count <- read_u32;
  dec! plans <- read_ordered id_after (λ k, k) pl_id decode_plan (Z.to_nat count) 0 ∅;
  dec! _ <- expect_finished AcNonCanonicalEncoding;
  dec_ret (mkFabricState next_plan_id next_action_id plans).

Definition decode_action_fabric_checkpoint (registry : CapabilityRegistry) (bs : bytes)
  : result ActionCheckpointError ActionFabricState :=
  if len bs <? TAF97_HEADER_LEN then Err AcTruncated
  else
    let? payload_len := run_decoder decode_header bs in
    let? expected := ok_or (checked_add_usize TAF97_HEADER_LEN payload_len) AcOverflow in
    if negb (len bs =? expected) then Err AcNonCanonicalEncoding
    else
      let? payload := slice bs TAF97_HEADER_LEN (len bs) in
      let? state := run_decoder decode_payload payload in
      let? _ := map_err Fabric (validate_fabric_state registry state) in
      Ok state.

End ActionCheckpoint.
