(* ===== verification/ActionCheckpointTheorems.v ===== *)
(** Round trips and canonicity of the action-fabric checkpoint. *)
From S2P Require Import Prelude Text Collections Codec WireFormat WireTables Core Capability Effects ActionFabric ActionValues ActionFabricStep ActionFabricSafety ActionFabricTheorems ActionFabricProperties ActionCheckpoint.
Import ActionCheckpoint.

Module ActionCheckpointTheorems.

#[export] Instance plan_action_status_tag : EnumTag status_tag ActionStatus_try_from.
Proof.
  split; [by intros []|by intros []| |intros v; unfold ActionStatus_try_from; repeat (case_match; try done)].
  intros v a. unfold ActionStatus_try_from. repeat (case_match; try done); by intros [= <-].
Qed.
#[export] Instance plan_status_enum : EnumTag plan_status_tag ActionPlanStatus_try_from.
Proof.
  split; [by intros []|by intros []| |intros v; unfold ActionPlanStatus_try_from; repeat (case_match; try done)].
  intros v a. unfold ActionPlanStatus_try_from. repeat (case_match; try done); by intros [= <-].
Qed.
#[export] Instance planned_side_effect_tag : EnumTag encode_side_effect decode_side_effect.
Proof. unfold decode_side_effect. enum_tag. Qed.

(** The encodings of the fields. *)
Notation enc_string := (wf_enc (E:=ActionCheckpointError) push_string read_string).
Notation enc_strings := (wf_enc (E:=ActionCheckpointError) push_strings read_strings).
Notation enc_bytes := (wf_enc (E:=ActionCheckpointError) push_bytes read_bytes).
Notation enc_opt_string := (wf_enc (E:=ActionCheckpointError) push_optional_string optional_string).
Notation enc_opt_bytes := (wf_enc (E:=ActionCheckpointError) push_optional_bytes optional_bytes).
Notation fits_string := (wf_fits (E:=ActionCheckpointError) push_string read_string).
Notation fits_strings := (wf_fits (E:=ActionCheckpointError) push_strings read_strings).
Notation fits_bytes := (wf_fits (E:=ActionCheckpointError) push_bytes read_bytes).
Notation fits_opt_string := (wf_fits (E:=ActionCheckpointError) push_optional_string optional_string).
Notation fits_opt_bytes := (wf_fits (E:=ActionCheckpointError) push_optional_bytes optional_bytes).
Notation typed_opt_string := (wf_typed (E:=ActionCheckpointError) push_optional_string optional_string).

(** ** Typed actions *)
Definition action_enc (a : TypedAction) : bytes :=
  match a with
  | WebSearch query n => to_le 1 1 ++ enc_string query ++ to_le 2 n
  | WebFetch url => to_le 1 2 ++ enc_string url
  | BrowserObserve t => to_le 1 3 ++ enc_string t
  | BrowserInteract t op v => to_le 1 4 ++ enc_string t ++ enc_string op ++ enc_opt_string v
  | FileRead p => to_le 1 5 ++ enc_string p
  | FileWrite p c => to_le 1 6 ++ enc_string p ++ enc_bytes c
  | DeviceObserve s => to_le 1 7 ++ enc_string s
  | DeviceInteract s op x => to_le 1 8 ++ enc_string s ++ enc_string op ++ enc_opt_string x
  | AppAction app act p => to_le 1 9 ++ enc_string app ++ enc_string act ++ enc_bytes p
  | CustomAction t p => to_le 1 10 ++ enc_string t ++ enc_bytes p
  | PcObserve p s => to_le 1 11 ++ enc_string p ++ enc_string s
  | PcExecute p g args d =>
      to_le 1 12 ++ enc_string p ++ enc_string g ++ enc_strings args ++ enc_opt_string d
  | PcArtifactRead p x => to_le 1 13 ++ enc_string p ++ enc_string x
  | PcArtifactWrite p x c => to_le 1 14 ++ enc_string p ++ enc_string x ++ enc_bytes c
  | ArtifactDownload u p => to_le 1 15 ++ enc_string u ++ enc_string p
  | ArtifactUpload u p => to_le 1 16 ++ enc_string u ++ enc_string p
  end.

Definition action_typed (a : TypedAction) : Prop :=
  match a with
  | WebSearch query n => is_utf8 query ∧ in_u16 n
  | WebFetch x | BrowserObserve x | FileRead x | DeviceObserve x => is_utf8 x
  | FileWrite x _ | CustomAction x _ => is_utf8 x
  | BrowserInteract x y z | DeviceInteract x y z => is_utf8 x ∧ is_utf8 y ∧ typed_opt_string z
  | AppAction x y _ | PcArtifactWrite x y _ => is_utf8 x ∧ is_utf8 y
  | PcObserve x y | PcArtifactRead x y | ArtifactDownload x y | ArtifactUpload x y =>
      is_utf8 x ∧ is_utf8 y
  | PcExecute p g args d => is_utf8 p ∧ is_utf8 g ∧ Forall is_utf8 args ∧ typed_opt_string d
  end.

Definition action_fits (a : TypedAction) : Prop :=
  match a with
  | WebSearch x _ | WebFetch x | BrowserObserve x | FileRead x | DeviceObserve x => fits_string x
  | FileWrite x c | CustomAction x c => fits_string x ∧ fits_bytes c
  | BrowserInteract x y z | DeviceInteract x y z =>
      fits_string x ∧ fits_string y ∧ fits_opt_string z
  | AppAction x y c | PcArtifactWrite x y c => fits_string x ∧ fits_string y ∧ fits_bytes c
  | PcObserve x y | PcArtifactRead x y | ArtifactDownload x y | ArtifactUpload x y =>
      fits_string x ∧ fits_string y
  | PcExecute p g args d =>
      fits_string p ∧ fits_string g ∧ fits_strings args ∧ fits_opt_string d
  end.

#[export] Instance typed_action_format : WireFormat encode_typed_action decode_typed_action.
Proof.
  refine {| wf_enc := action_enc; wf_typed := action_typed; wf_fits := action_fits |}.
  - intros a out r. destruct a; cbn [encode_typed_action action_fits action_enc];
      unfold push_u16, push_u8; emit_steps; tauto.
  - intros a Ht Hf. unfold decode_typed_action.
    destruct a; cbn [action_typed action_fits action_enc] in *; destruct_and?;
      (eapply reads_bind; [apply reads_u8; by vm_compute|]); cbv iota beta; solve_fields.
  - unfold decode_typed_action. parse_start Hv. parse_step Hv. destruct Hr as [-> _].
    destruct a as [|p|p]; try done; do 5 (try destruct p as [p|p|]; try done);
      repeat parse_step Hv; field_facts; parse_done Hv; cbn [action_enc action_typed action_fits];
      rewrite ?app_nil_r, <- ?app_assoc; split_and!; first [reflexivity|assumption].
  - unfold decode_typed_action. solve_safe.
Defined.

#[local] Hint Extern 1 (reads decode_typed_action _ _) => apply (format_reads encode_typed_action decode_typed_action) : reads.
#[local] Hint Extern 1 (parses decode_typed_action _) => apply (format_parses encode_typed_action decode_typed_action) : parses.
#[local] Hint Extern 1 (safe decode_typed_action) => apply (format_safe encode_typed_action decode_typed_action) : codec.

Notation enc_action := (wf_enc encode_typed_action decode_typed_action).

#[export] Instance optional_output_format : WireFormat push_optional_output optional_output.
Proof. apply option_format, output_format. Defined.
Notation enc_output := (wf_enc push_optional_output optional_output).
#[local] Hint Extern 1 (reads optional_output _ _) => apply (format_reads push_optional_output optional_output) : reads.
#[local] Hint Extern 1 (parses optional_output _) => apply (format_parses push_optional_output optional_output) : parses.
#[local] Hint Extern 1 (safe optional_output) => apply (format_safe push_optional_output optional_output) : codec.

Definition planned_enc (a : PlannedAction) : bytes :=
  to_le 8 (pa_id a) ++ to_le 4 (pa_node_id a) ++ enc_string (pa_capability a) ++
  to_le 4 (pa_capability_version a) ++ to_le 1 (encode_side_effect (pa_side_effect a)) ++
  to_le 1 (if pa_verification_required a then 1 else 0) ++ enc_action (pa_action a) ++
  to_le 1 (status_tag (pa_status a)) ++ to_le 4 (pa_attempts a) ++ enc_output (pa_output a) ++
  enc_opt_bytes (pa_resume_token a) ++ enc_opt_bytes (pa_rollback_token a) ++
  enc_opt_string (pa_last_error a).
Definition planned_typed (a : PlannedAction) : Prop :=
  in_u64 (pa_id a) ∧ in_u32 (pa_node_id a) ∧ is_utf8 (pa_capability a) ∧
  in_u32 (pa_capability_version a) ∧
  wf_typed encode_typed_action decode_typed_action (pa_action a) ∧ in_u32 (pa_attempts a) ∧
  wf_typed push_optional_output optional_output (pa_output a) ∧
  typed_opt_string (pa_last_error a).
Definition planned_fits (a : PlannedAction) : Prop :=
  fits_string (pa_capability a) ∧ wf_fits encode_typed_action decode_typed_action (pa_action a) ∧
  wf_fits push_optional_output optional_output (pa_output a) ∧
  fits_opt_bytes (pa_resume_token a) ∧ fits_opt_bytes (pa_rollback_token a) ∧
  fits_opt_string (pa_last_error a).

#[export] Instance planned_action_format : WireFormat encode_planned_action decode_planned_action.
Proof.
  refine {| wf_enc := planned_enc; wf_typed := planned_typed; wf_fits := planned_fits |}.
  - intros a out r. unfold encode_planned_action, push_u64, push_u32, push_bool, push_u8. cbv zeta.
    emit_steps. rewrite (put_then encode_typed_action decode_typed_action),
      (put_then push_optional_output optional_output). emit_steps.
    unfold planned_fits, planned_enc. tauto.
  - intros [] (?&?&?&?&?&?&?&?) (?&?&?&?&?&?). unfold decode_planned_action, planned_enc.
    cbn in *. solve_fields.
  - unfold decode_planned_action. parse_start Hv. repeat parse_step Hv. field_facts. parse_done Hv.
    unfold planned_enc, planned_typed, planned_fits. cbn.
    rewrite ?app_nil_r, <- ?app_assoc. split_and!; first [reflexivity|assumption].
  - unfold decode_planned_action. solve_safe.
Defined.
#[export] Instance planned_actions_format :
  WireFormat (push_list encode_planned_action) (read_list decode_planned_action).
Proof. apply list_format, planned_action_format. Defined.
#[local] Hint Extern 1 (reads (read_list decode_planned_action) _ _) => apply (format_reads (push_list encode_planned_action) (read_list decode_planned_action)) : reads.
#[local] Hint Extern 1 (parses (read_list decode_planned_action) _) => apply (format_parses (push_list encode_planned_action) (read_list decode_planned_action)) : parses.
#[local] Hint Extern 1 (safe (read_list decode_planned_action)) => apply (format_safe (push_list encode_planned_action) (read_list decode_planned_action)) : codec.

#[export] Instance plan_format : WireFormat encode_plan decode_plan.
Proof.
  refine {| wf_enc p := to_le 8 (pl_id p) ++ to_le 8 (pl_task_id p) ++ to_le 8 (pl_cursor p) ++
              to_le 1 (plan_status_tag (pl_status p)) ++
              wf_enc (push_list encode_planned_action) (read_list decode_planned_action)
                (pl_actions p);
            wf_typed p := in_u64 (pl_id p) ∧ in_u64 (pl_task_id p) ∧ 0 ≤ pl_cursor p ∧
              wf_typed (push_list encode_planned_action) (read_list decode_planned_action)
                (pl_actions p);
            wf_fits p := pl_cursor p < 2 ^ 64 ∧
              wf_fits (push_list encode_planned_action) (read_list decode_planned_action)
                (pl_actions p) |}.
  - intros p out r. unfold encode_plan, push_u64, push_u8, try_u64. cbv zeta.
    destruct (Z.ltb_spec (pl_cursor p) (2 ^ 64)); cbn [ok_or].
    + rewrite (put_Ok (push_list encode_planned_action) (read_list decode_planned_action)).
      rewrite <- ?app_assoc. tauto.
    + split; [done|lia].
  - intros [i t c st acts] (?&?&?&?) (?&?). unfold decode_plan. cbn in *.
    assert (in_u64 c) by (unfold in_u64; lia). solve_fields.
    eapply reads_bind_nil; [by apply reads_lift, try_u64_Ok|]. solve_fields.
  - unfold decode_plan. parse_start Hv. repeat parse_step Hv. parse_facts field_facts.
    parse_done Hv. unfold in_u64 in *. cbn. rewrite ?app_nil_r, <- ?app_assoc.
    split_and!; first [reflexivity|assumption|lia].
  - unfold decode_plan. solve_safe.
Defined.

(** ** The payload *)
Notation plan_enc := (wf_enc encode_plan decode_plan).
Notation plan_fits := (wf_fits encode_plan decode_plan).
Notation plan_ready := (wf_typed encode_plan decode_plan).

Definition payload_enc (s : ActionFabricState) : bytes :=
  to_le 8 (fs_next_plan_id s) ++ to_le 8 (fs_next_action_id s) ++ table_len (fs_plans s) ++
  table_enc plan_enc (fs_plans s).

Record payload_ready (s : ActionFabricState) : Prop := {
  pr_next_plan : in_u64 (fs_next_plan_id s);
  pr_next_action : in_u64 (fs_next_action_id s);
  pr_plans : table_ready plan_ready (λ k, 0 < k) pl_id (fs_plans s);
}.

Lemma fabric_encode_payload_Ok s r :
  encode_payload s = Ok r ↔ table_fits plan_fits (fs_plans s) ∧ r = payload_enc s.
Proof.
  unfold encode_payload, push_u64, push_u32. cbv zeta.
  rewrite len_then, (each_Ok encode_plan decode_plan), <- ?app_assoc.
  unfold table_fits, payload_enc, table_enc, table_len. tauto.
Qed.

Lemma fabric_decode_payload_reads s :
  payload_ready s → table_fits plan_fits (fs_plans s) →
  reads_end decode_payload (payload_enc s) s.
Proof.
  intros [Hp Ha Hplans] Hf. unfold decode_payload, payload_enc.
  do 2 (eapply reads_end_bind; [by apply reads_u64|]).
  eapply reads_end_bind; [by eapply table_len_reads|].
  rewrite <- (app_nil_r (table_enc _ (fs_plans s))).
  eapply reads_end_bind; [eapply reads_table; [apply _|done..]|].
  apply reads_end_finished. destruct s. apply reads_reads_end, reads_ret.
Qed.

Lemma fabric_decode_payload_parses bs s :
  run_decoder decode_payload bs = Ok s →
  payload_ready s ∧ table_fits plan_fits (fs_plans s) ∧ bs = payload_enc s.
Proof.
  unfold run_decoder. destruct (decode_payload (cursor_new bs)) as [[v c]| |] eqn:Hv; [|done..].
  intros [= <-]. change (cursor_new bs) with (at_ ([] ++ []) bs) in Hv.
  unfold decode_payload in Hv. do 3 parse_step Hv.
  repeat match goal with Hr : _ ∧ _ |- _ => destruct Hr end.
  table_step Hv. apply step_finished in Hv as [-> Hv].
  apply parses_step_ret in Hv as [-> _]. cbn. split_and!; [by split|done|].
  unfold payload_enc, table_len in *. cbn. subst. rewrite !app_nil_r. congruence.
Qed.

(** ** Typed states *)

(** What the Rust types guarantee of every plan. *)
Definition plans_typed (s : ActionFabricState) : Prop :=
  map_Forall (λ _ p, plan_ready p ∧ len (pl_actions p) < 2 ^ 64) (fs_plans s).

Lemma ready_plan_typed p : plan_ready p → len (pl_actions p) < 2 ^ 64 → plan_typed p.
Proof.
  intros (_ & _ & Hc & Ha) Hl. split; [done|done|]. unfold plan_ids.
  apply Forall_map. eapply Forall_impl; [exact Ha|]. intros a [Hid _]. apply Hid.
Qed.

Lemma state_fabric_typed s :
  in_u64 (fs_next_plan_id s) → in_u64 (fs_next_action_id s) → plans_typed s → fabric_typed s.
Proof.
  intros Hp Ha Hplans. split; [done|done|]. intros k p Hk. destruct (Hplans k p Hk).
  by apply ready_plan_typed.
Qed.

Lemma fabric_typed_ready registry s :
  fabric_typed s → plans_typed s → fabric_wf registry s → payload_ready s.
Proof.
  intros [Hp Ha _] Hplans Hwf. split; [done|done|]. intros k p Hk.
  destruct (Hplans k p Hk) as [Hr _], (fw_plans registry s Hwf k p Hk) as (-> & _ & Hpw).
  pose proof (pw_id registry p Hpw). split_and!; [done| |done].
  destruct Hr as ([? _] & _). lia.
Qed.

Lemma fabric_ready_typed s :
  payload_ready s → table_fits plan_fits (fs_plans s) → fabric_typed s ∧ plans_typed s.
Proof.
  intros [Hp Ha Hplans] [_ Hf].
  assert (plans_typed s) as Ht.
  { intros k p Hk. destruct (Hplans k p Hk) as (_ & _ & Hr). split; [done|].
    rewrite Forall_forall in Hf.
    destruct (Hf p) as (_ & Hlen & _); [apply elem_of_btree_values; by exists k|].
    unfold wf_fits in Hlen. lia. }
  split; [by apply state_fabric_typed|done].
Qed.

(** ** The header *)
Definition header_enc (minor payload_len : Z) : bytes :=
  TAF97_MAGIC ++ to_le 2 TAF97_HEADER_LEN ++ to_le 2 TAF97_MAJOR ++ to_le 2 minor ++
  to_le 4 0 ++ to_le 8 payload_len.

Lemma fabric_len_header minor n : len (header_enc minor n) = 24.
Proof. unfold header_enc. repeat rewrite len_app. by rewrite !len_to_le. Qed.

Lemma fabric_decode_header_reads minor n :
  0 ≤ minor ≤ TAF97_MINOR → 0 ≤ n < 2 ^ 64 →
  reads decode_header (header_enc minor n) n.
Proof.
  intros Hm Hn. unfold TAF97_MINOR in Hm. unfold decode_header, header_enc.
  eapply reads_bind; [by apply reads_take|].
  eapply reads_bind_nil; [apply reads_guard, bool_decide_eq_true; reflexivity|].
  eapply reads_bind; [apply reads_u16; by vm_compute|].
  eapply reads_bind_nil; [by apply reads_guard|].
  eapply reads_bind; [apply reads_u16; by vm_compute|].
  eapply reads_bind; [apply reads_u16; unfold in_u16; lia|].
  eapply reads_bind_nil; [apply reads_guard|].
  { unfold TAF97_MINOR. cbn. by destruct (Z.ltb_spec 4 minor); [lia|]. }
  eapply reads_bind; [apply reads_u32; by vm_compute|].
  eapply reads_bind_nil; [by apply reads_guard|].
  eapply reads_bind_last; [by apply reads_u64|]. apply reads_lift, try_u64_Ok. lia.
Qed.

Lemma fabric_decode_header_parses : parses decode_header (λ l n,
  ∃ minor, 0 ≤ minor ≤ TAF97_MINOR ∧ 0 ≤ n ∧ l = header_enc minor n).
Proof.
  unfold decode_header. parse_start Hv. do 10 parse_step Hv.
  apply parses_lift in Hv as (l' & post' & -> & -> & -> & Hn).
  parse_facts idtac. unfold TAF97_MINOR in *.
  match goal with Hv : negb _ = true |- _ =>
    apply negb_true_iff, orb_false_iff in Hv as [?%negb_false_iff%Z.eqb_eq ?%Z.ltb_ge] end.
  unfold in_u16, in_u64 in *.
  subst a3. exists (header_enc a4 a8), post'. unfold header_enc.
  rewrite ?app_nil_l, ?app_nil_r, <- ?app_assoc. split_and!; [done|done|].
  exists a4. split_and!; first [lia|done].
Qed.

Lemma fabric_encode_checkpoint_Ok registry s bs :
  encode_action_fabric_checkpoint registry s = Ok bs ↔
  validate_fabric_state registry s = Ok tt ∧ table_fits plan_fits (fs_plans s) ∧
  24 + len (payload_enc s) < 2 ^ 64 ∧
  bs = header_enc 4 (len (payload_enc s)) ++ payload_enc s.
Proof.
  unfold encode_action_fabric_checkpoint.
  destruct (validate_fabric_state registry s) as [[]|e|]; cbn [map_err]; [|naive_solver..].
  destruct (encode_payload s) as [payload|e|] eqn:Hp.
  - apply fabric_encode_payload_Ok in Hp as [Hf ->]. unfold try_u64, checked_add_usize, checked_add_u64.
    pose proof (len_nonneg (payload_enc s)). change TAF97_HEADER_LEN with 24.
    destruct (Z.ltb_spec (len (payload_enc s)) (2 ^ 64)); cbn [ok_or].
    + destruct (Z.ltb_spec (24 + len (payload_enc s)) (2 ^ 64)); cbn [ok_or].
      * rewrite Ok_iff. unfold header_enc, push_u16, push_u32, push_u64. cbv zeta.
        rewrite <- !app_assoc. tauto.
      * split; [done|]. intros (_ & _ & ? & _). lia.
    + split; [done|]. intros (_ & _ & ? & _). lia.
  - split; [done|]. intros (_ & Hf & _). by rewrite (proj2 (fabric_encode_payload_Ok s _) (conj Hf eq_refl)) in Hp.
  - split; [done|]. intros (_ & Hf & _). by rewrite (proj2 (fabric_encode_payload_Ok s _) (conj Hf eq_refl)) in Hp.
Qed.

(** Decoding what a header of a readable version and the payload of a ready
    state make up. *)
Lemma fabric_decode_framed registry minor s :
  0 ≤ minor ≤ TAF97_MINOR → payload_ready s → table_fits plan_fits (fs_plans s) →
  validate_fabric_state registry s = Ok tt → 24 + len (payload_enc s) < 2 ^ 64 →
  decode_action_fabric_checkpoint registry
    (header_enc minor (len (payload_enc s)) ++ payload_enc s) = Ok s.
Proof.
  intros Hminor Hr Hf Hv Hlen. pose proof (len_nonneg (payload_enc s)).
  set (payload := payload_enc s) in *. set (h := header_enc minor (len payload)).
  assert (len h = 24) as Hh by apply fabric_len_header.
  assert (len (h ++ payload) = 24 + len payload) as Hall by (rewrite len_app; lia).
  unfold decode_action_fabric_checkpoint. change TAF97_HEADER_LEN with 24.
  destruct (Z.ltb_spec (len (h ++ payload)) 24); [lia|].
  rewrite (run_front _ _ _ (len payload)); [|apply fabric_decode_header_reads; [done|lia]|lia].
  unfold checked_add_usize, checked_add_u64. destruct (Z.ltb_spec (24 + len payload) (2 ^ 64)); [|lia].
  cbn [ok_or]. rewrite Hall, Z.eqb_refl. cbn [negb].
  replace (h ++ payload) with (h ++ payload ++ []) by (by rewrite app_nil_r).
  rewrite slice_app by lia.
  rewrite (run_decoder_reads _ payload s); [|lia|by apply fabric_decode_payload_reads].
  by rewrite Hv.
Qed.

(** Whatever decodes is such a frame. *)
Lemma fabric_decode_sound registry bs s :
  decode_action_fabric_checkpoint registry bs = Ok s →
  ∃ minor, 0 ≤ minor ≤ TAF97_MINOR ∧ payload_ready s ∧ table_fits plan_fits (fs_plans s) ∧
    validate_fabric_state registry s = Ok tt ∧ 24 + len (payload_enc s) < 2 ^ 64 ∧
    bs = header_enc minor (len (payload_enc s)) ++ payload_enc s.
Proof.
  unfold decode_action_fabric_checkpoint. change TAF97_HEADER_LEN with 24.
  destruct (Z.ltb_spec (len bs) 24) as [|Hlen]; [done|].
  destruct (run_decoder decode_header bs) as [n| |] eqn:Hh; [|done..].
  apply (run_parses _ _ _ _ fabric_decode_header_parses) in Hh as
    (l & post & -> & minor & Hminor & Hn & ->).
  unfold checked_add_usize, checked_add_u64.
  destruct (Z.ltb_spec (24 + n) (2 ^ 64)); [|done]. cbn [ok_or].
  destruct (Z.eqb_spec (len (header_enc minor n ++ post)) (24 + n)) as [Heq|]; [|done]. cbn [negb].
  rewrite len_app, fabric_len_header in Heq.
  assert (slice (E:=ActionCheckpointError) (header_enc minor n ++ post) 24
            (len (header_enc minor n ++ post)) = Ok post) as ->.
  { replace (header_enc minor n ++ post) with (header_enc minor n ++ post ++ []) at 1
      by (by rewrite app_nil_r).
    apply slice_app; [by rewrite fabric_len_header|]. by rewrite len_app, fabric_len_header. }
  destruct (run_decoder decode_payload post) as [st| |] eqn:Hp; [|done..].
  apply fabric_decode_payload_parses in Hp as (Hready & Hfits & ->).
  destruct (validate_fabric_state registry st) as [[]| |] eqn:Hv; [|done..]. intros [= <-].
  assert (len (payload_enc st) = n) as Hn' by lia.
  exists minor. rewrite Hn'. split_and!; try done; lia || apply Hminor.
Qed.

(** ** Properties *)

(** C9: Whatever encode_action_fabric_checkpoint produces for a typed fabric state,
    decode_action_fabric_checkpoint reads back under the same registry as the same state. *)
Theorem action_checkpoint_round_trip registry s bs :
  fabric_typed s → plans_typed s →
  encode_action_fabric_checkpoint registry s = Ok bs →
  decode_action_fabric_checkpoint registry bs = Ok s.
Proof.
  intros Hty Hplans (Hv & Hf & Hlen & ->)%fabric_encode_checkpoint_Ok.
  apply fabric_decode_framed; [by vm_compute| |done..].
  eapply fabric_typed_ready; [done..|]. by apply validate_Ok.
Qed.

(** Bytes that decode to a fabric state carry a canonical payload: the state is typed,
    satisfies the fabric invariant for the registry, and encoding it again gives the same
    payload behind a header of the same length. *)
Theorem action_checkpoint_decode_sound registry bs s :
  decode_action_fabric_checkpoint registry bs = Ok s →
  fabric_typed s ∧ plans_typed s ∧ fabric_wf registry s ∧
  ∃ header canonical_header payload,
    bs = header ++ payload ∧ len header = TAF97_HEADER_LEN ∧
    encode_action_fabric_checkpoint registry s = Ok (canonical_header ++ payload) ∧
    len canonical_header = TAF97_HEADER_LEN.
Proof.
  intros (minor & Hminor & Hr & Hf & Hv & Hlen & ->)%fabric_decode_sound.
  destruct (fabric_ready_typed s Hr Hf) as [Hty Hpl]. split_and!; [done|done|by apply validate_Ok|].
  eexists _, (header_enc 4 (len (payload_enc s))), _. split; [reflexivity|].
  rewrite !fabric_len_header. split_and!; [done| |done]. by apply fabric_encode_checkpoint_Ok.
Qed.

(** ** Concrete instances *)
Definition sample_plan : ActionPlanState :=
  default (mkPlan 0 0 0 PlanReady []) (fs_plans (fb_state fabric4) !! 1).
Lemma sample_plans : fs_plans (fb_state fabric4) = {[1 := sample_plan]}.
Proof. vm_compute. reflexivity. Qed.

Lemma sample_plans_typed : plans_typed (fb_state fabric4).
Proof.
  unfold plans_typed. rewrite sample_plans. apply map_Forall_singleton.
  split; [|by vm_compute]. repeat (first [apply Forall_cons_2 | apply Forall_nil_2 | split]);
    vm_compute; done.
Qed.

Lemma action_checkpoint_round_trip_witness :
  ∃ bs, encode_action_fabric_checkpoint sample_registry (fb_state fabric4) = Ok bs ∧
        decode_action_fabric_checkpoint sample_registry bs = Ok (fb_state fabric4).
Proof.
  destruct (encode_action_fabric_checkpoint sample_registry (fb_state fabric4)) as [bs|e|] eqn:He;
    [|vm_compute in He; discriminate..].
  exists bs. split; [done|].
  exact (action_checkpoint_round_trip sample_registry _ bs (proj1 fabric4_inv) sample_plans_typed He).
Defined.

Lemma action_checkpoint_decode_sound_witness :
  ∃ bs, decode_action_fabric_checkpoint sample_registry bs = Ok (fb_state fabric4) ∧
        fabric_wf sample_registry (fb_state fabric4).
Proof.
  destruct (encode_action_fabric_checkpoint sample_registry (fb_state fabric4)) as [bs|e|] eqn:He;
    [|vm_compute in He; discriminate..].
  assert (decode_action_fabric_checkpoint sample_registry bs = Ok (fb_state fabric4)) as Hd.
  { vm_compute in He. injection He as <-. vm_compute. reflexivity. }
  exists bs. split; [exact Hd|].
  apply (action_checkpoint_decode_sound sample_registry bs (fb_state fabric4) Hd).
Defined.
End ActionCheckpointTheorems.
