(* ===== verification/Continuity.v ===== *)
(** Continuity bundles of the mobile shell, format MCS97:
    src/crates/ntd-mobile-shell/src/continuity.rs.

    A bundle holds a cognitive checkpoint, an action checkpoint and the
    capabilities the latter was taken under.  The errors of the parts are kept
    as values; the program keeps their debug text. *)
From S2P Require Import Prelude Text Collections Codec WireFormat Core Capability Cognition Checkpoint ActionFabric ActionCheckpoint.

Module Continuity.
Import Cognition Checkpoint ActionCheckpoint.

Definition MCS97_MAGIC : bytes := string_bytes "MCS97" ++ [zero_byte].
Definition MCS97_MAJOR : Z := 0.
Definition MCS97_MINOR : Z := 2.
Definition MCS97_HEADER_LEN : Z := 24.

Inductive MobileContinuityState :=
| Interactive | ActiveExecution | Checkpointed | SuspendedByOs | WaitingCondition
| WaitingApproval | Reconstructing | VerifyingResume | Completed | FailedRecoverable.
#[export] Instance MobileContinuityState_eq_dec : EqDecision MobileContinuityState.
Proof. solve_decision. Defined.

Inductive WakeReason :=
| UserInteraction | ForegroundExecution | ScheduledWork | WakeRetryBackoff | Reboot
| ApprovalResolved | NetworkAvailable | Charging | ManualRecovery.
#[export] Instance WakeReason_eq_dec : EqDecision WakeReason.
Proof. solve_decision. Defined.

(** The error of a part. *)
Inductive PartError :=
| PeCheckpoint (e : CheckpointError)
| PeCognitive (e : CognitiveError)
| PeAction (e : ActionCheckpointError)
| PeFabric (e : ActionFabricError)
| PeCapability (e : CapabilityError).

Inductive MobileContinuityError :=
| McTruncated
| McInvalidMagic
| McInvalidHeader
| McUnsupportedVersion (major minor : Z)
| McInvalidUtf8
| McInvalidBoolean (value : Z)
| InvalidContinuityState (value : Z)
| InvalidWakeReason (value : Z)
| McNonCanonicalEncoding
| InvalidIdentity
| InvalidRetryBackoff
| InvalidApproval
| TaskActionMismatch (task_id : Z)
| McOverflow
| CognitiveCheckpoint (e : PartError)
| McActionCheckpoint (e : PartError).

#[export] Instance continuity_cursor : CursorErrors MobileContinuityError :=
  {| err_truncated := McTruncated; err_cursor_overflow := McOverflow |}.
#[export] Instance continuity_errors : FormatErrors MobileContinuityError :=
  {| err_utf8 := McInvalidUtf8; err_boolean := McInvalidBoolean;
     err_non_canonical := McNonCanonicalEncoding |}.

(** [state as u8] and [try_from]. *)
Definition continuity_repr (s : MobileContinuityState) : Z :=
  match s with
  | Interactive => 1 | ActiveExecution => 2 | Checkpointed => 3 | SuspendedByOs => 4
  | WaitingCondition => 5 | WaitingApproval => 6 | Reconstructing => 7 | VerifyingResume => 8
  | Completed => 9 | FailedRecoverable => 10
  end.
Definition continuity_try_from (value : Z) : result MobileContinuityError MobileContinuityState :=
  if value =? 1 then Ok Interactive
  else if value =? 2 then Ok ActiveExecution
  else if value =? 3 then Ok Checkpointed
  else if value =? 4 then Ok SuspendedByOs
  else if value =? 5 then Ok WaitingCondition
  else if value =? 6 then Ok WaitingApproval
  else if value =? 7 then Ok Reconstructing
  else if value =? 8 then Ok VerifyingResume
  else if value =? 9 then Ok Completed
  else if value =? 10 then Ok FailedRecoverable
  else Err (InvalidContinuityState value).

Definition wake_repr (w : WakeReason) : Z :=
  match w with
  | UserInteraction => 1 | ForegroundExecution => 2 | ScheduledWork => 3 | WakeRetryBackoff => 4
  | Reboot => 5 | ApprovalResolved => 6 | NetworkAvailable => 7 | Charging => 8
  | ManualRecovery => 9
  end.
Definition wake_try_from (value : Z) : result MobileContinuityError WakeReason :=
  if value =? 1 then Ok UserInteraction
  else if value =? 2 then Ok ForegroundExecution
  else if value =? 3 then Ok ScheduledWork
  else if value =? 4 then Ok WakeRetryBackoff
  else if value =? 5 then Ok Reboot
  else if value =? 6 then Ok ApprovalResolved
  else if value =? 7 then Ok NetworkAvailable
  else if value =? 8 then Ok Charging
  else if value =? 9 then Ok ManualRecovery
  else Err (InvalidWakeReason value).

Record PendingApproval := mkApproval {
  ap_task_id : Z;
  ap_plan_id : Z;
  ap_action_id : Z;
  ap_capability : string;
  ap_rationale : string;
}.

Record RetryBackoff := mkRetry {
  rb_attempts : Z;
  rb_not_before_epoch_ms : Z;
  rb_base_delay_ms : Z;
  rb_max_delay_ms : Z;
}.

Definition next_delay_ms (self : RetryBackoff) : Z :=
  let exponent := Z.min (rb_attempts self) 20 in
  Z.min (saturating_mul_u64 (rb_base_delay_ms self) (Z.shiftl 1 exponent)) (rb_max_delay_ms self).

Definition validate_retry (self : RetryBackoff) : result MobileContinuityError unit :=
  if (rb_base_delay_ms self =? 0) || (rb_max_delay_ms self <? rb_base_delay_ms self)
  then Err InvalidRetryBackoff else Ok tt.

Record MobileContinuityBundle := mkBundle {
  mb_identity : bytes;
  mb_state : MobileContinuityState;
  mb_wake_reason : WakeReason;
  mb_checkpoint_sequence : Z;
  mb_cognitive_checkpoint : bytes;
  mb_action_checkpoint : bytes;
  mb_capabilities : list CapabilityDescriptor;
  mb_pending_approval : option PendingApproval;
  mb_retry : option RetryBackoff;
}.

Record RestoredMobileSession (A : Type) := mkSession {
  rs_cognitive : CognitiveState;
  rs_actions : ActionFabric A;
  rs_state : MobileContinuityState;
  rs_wake_reason : WakeReason;
  rs_checkpoint_sequence : Z;
  rs_pending_approval : option PendingApproval;
  rs_retry : option RetryBackoff;
}.
Arguments mkSession {A}.
Arguments rs_cognitive {A}.
Arguments rs_actions {A}.
Arguments rs_state {A}.
Arguments rs_wake_reason {A}.
Arguments rs_checkpoint_sequence {A}.
Arguments rs_pending_approval {A}.
Arguments rs_retry {A}.

(** ** Validation *)
Definition registry_from_snapshot (descriptors : list CapabilityDescriptor)
  : result MobileContinuityError CapabilityRegistry :=
  fold_result (λ registry d,
    map_err (λ e, McActionCheckpoint (PeCapability e)) (register registry d))
    CapabilityRegistry_new descriptors.

Definition validate_approval (approval : PendingApproval) : result MobileContinuityError unit :=
  if (ap_task_id approval =? 0) || (ap_plan_id approval =? 0) || (ap_action_id approval =? 0)
     || is_blank (ap_capability approval) || is_blank (ap_rationale approval)
  then Err InvalidApproval else Ok tt.

Definition decode_actions (registry : CapabilityRegistry) (bs : bytes)
  : result MobileContinuityError ActionFabricState :=
  map_err (λ e, McActionCheckpoint (PeAction e)) (decode_action_fabric_checkpoint registry bs).

Definition validate_option {A} (validate : A → result MobileContinuityError unit) (o : option A)
  : result MobileContinuityError unit :=
  match o with Some a => validate a | None => Ok tt end.

Definition validate_bundle (bundle : MobileContinuityBundle) : result MobileContinuityError unit :=
  if (mb_checkpoint_sequence bundle =? 0) || bool_decide (mb_cognitive_checkpoint bundle = [])
     || bool_decide (mb_action_checkpoint bundle = [])
  then Err McNonCanonicalEncoding
  else if negb (strictly_ascending (map cd_id (mb_capabilities bundle)))
  then Err McNonCanonicalEncoding
  else
    let? registry := registry_from_snapshot (mb_capabilities bundle) in
    let? _ := decode_actions registry (mb_action_checkpoint bundle) in
    let? _ := validate_option validate_retry (mb_retry bundle) in
    let? _ := validate_option (λ approval,
      let? _ := validate_approval approval in
      if negb (bool_decide (mb_state bundle = WaitingApproval)) then Err InvalidApproval else Ok tt)
      (mb_pending_approval bundle) in
    if bool_decide (mb_state bundle = WaitingApproval)
       && bool_decide (mb_pending_approval bundle = None)
    then Err InvalidApproval else Ok tt.

Definition approved_action (approval : PendingApproval) (action : PlannedAction) : bool :=
  (pa_id action =? ap_action_id approval)
  && bool_decide (pa_capability action = ap_capability approval).

Definition validate_links (cognitive : CognitiveState) (actions : ActionFabricState)
    (approval : option PendingApproval) : result MobileContinuityError unit :=
  let? _ := check_all (λ plan,
    if bool_decide (cs_tasks cognitive !! pl_task_id plan = None)
    then Err (TaskActionMismatch (pl_task_id plan)) else Ok tt) (btree_values (fs_plans actions)) in
  validate_option (λ approval,
    let? _ := validate_approval approval in
    let? plan := ok_or (fs_plans actions !! ap_plan_id approval) InvalidApproval in
    if negb (pl_task_id plan =? ap_task_id approval)
       || negb (existsb (approved_action approval) (pl_actions plan))
    then Err InvalidApproval else Ok tt) approval.

(** ** Building and restoring *)
Definition build_mobile_continuity_bundle (cognitive : CognitiveState) (registry : CapabilityRegistry)
    (actions : ActionFabricState) (state : MobileContinuityState) (wake_reason : WakeReason)
    (checkpoint_sequence : Z) (pending_approval : option PendingApproval)
    (retry : option RetryBackoff) : result MobileContinuityError MobileContinuityBundle :=
  if checkpoint_sequence =? 0 then Err McNonCanonicalEncoding
  else
    let? _ := validate_option validate_retry retry in
    let? cognitive_checkpoint :=
      map_err (λ e, CognitiveCheckpoint (PeCheckpoint e)) (encode_cognitive_checkpoint cognitive) in
    let? action_checkpoint :=
      map_err (λ e, McActionCheckpoint (PeAction e))
        (encode_action_fabric_checkpoint registry actions) in
    let capabilities := descriptors registry in
    let? _ := validate_links cognitive actions pending_approval in
    let bundle := mkBundle (cs_identity cognitive) state wake_reason checkpoint_sequence
      cognitive_checkpoint action_checkpoint capabilities pending_approval retry in
    let? _ := validate_bundle bundle in
    Ok bundle.

Definition restore_mobile_continuity_bundle {A} (bundle : MobileContinuityBundle)
  : result MobileContinuityError (RestoredMobileSession A) :=
  let? _ := validate_bundle bundle in
  let? registry := registry_from_snapshot (mb_capabilities bundle) in
  let? cognitive_state :=
    map_err (λ e, CognitiveCheckpoint (PeCheckpoint e))
      (decode_cognitive_checkpoint (mb_cognitive_checkpoint bundle)) in
  if negb (bool_decide (cs_identity cognitive_state = mb_identity bundle)) then Err InvalidIdentity
  else
    let? cognitive :=
      map_err (λ e, CognitiveCheckpoint (PeCognitive e)) (from_state cognitive_state) in
    let? action_state := decode_actions registry (mb_action_checkpoint bundle) in
    let? _ := validate_links cognitive action_state (mb_pending_approval bundle) in
    let? actions :=
      map_err (λ e, McActionCheckpoint (PeFabric e)) (ActionFabric_from_state registry action_state) in
    Ok (mkSession cognitive actions (mb_state bundle) (mb_wake_reason bundle)
          (mb_checkpoint_sequence bundle) (mb_pending_approval bundle) (mb_retry bundle)).

(** ** Encoding *)
Definition encode_side_effect (value : SideEffectClass) : Z :=
  match value with ReadOnly => 1 | Reversible => 2 | ExternalWrite => 3 | Irreversible => 4 end.
Definition decode_side_effect (value : Z) : result MobileContinuityError SideEffectClass :=
  if value =? 1 then Ok ReadOnly
  else if value =? 2 then Ok Reversible
  else if value =? 3 then Ok ExternalWrite
  else if value =? 4 then Ok Irreversible
  else Err McNonCanonicalEncoding.

(** One turn of the loop of [push_capabilities]. *)
Definition push_capability (out : bytes) (d : CapabilityDescriptor)
  : result MobileContinuityError bytes :=
  let? out := push_string out (cd_id d) in
  let out := push_u32 out (cd_version d) in
  let out := push_u8 out (domain_tag (cd_domain d)) in
  let out := push_u8 out (encode_side_effect (cd_side_effect d)) in
  let out := push_bool out (cd_verification_required d) in
  let out := push_bool out (cd_rollback_supported d) in
  let out := push_bool out (cd_resumable d) in
  push_strings out (cd_required_scopes d).
Definition push_capabilities : bytes → list CapabilityDescriptor → result MobileContinuityError bytes :=
  push_list push_capability.

Definition push_approval (out : bytes) (approval : PendingApproval)
  : result MobileContinuityError bytes :=
  let out := push_u64 out (ap_task_id approval) in
  let out := push_u64 out (ap_plan_id approval) in
  let out := push_u64 out (ap_action_id approval) in
  let? out := push_string out (ap_capability approval) in
  push_string out (ap_rationale approval).
Definition push_optional_approval : bytes → option PendingApproval → result MobileContinuityError bytes :=
  push_option push_approval.

Definition push_retry (out : bytes) (retry : RetryBackoff) : result MobileContinuityError bytes :=
  let out := push_u32 out (rb_attempts retry) in
  let out := push_u64 out (rb_not_before_epoch_ms retry) in
  let out := push_u64 out (rb_base_delay_ms retry) in
  Ok (push_u64 out (rb_max_delay_ms retry)).
Definition push_optional_retry : bytes → option RetryBackoff → result MobileContinuityError bytes :=
  push_option push_retry.

Definition encode_payload (bundle : MobileContinuityBundle) : result MobileContinuityError bytes :=
  let payload := mb_identity bundle in
  let payload := push_u8 payload (continuity_repr (mb_state bundle)) in
  let payload := push_u8 payload (wake_repr (mb_wake_reason bundle)) in
  let payload := push_u16 payload 0 in
  let payload := push_u64 payload (mb_checkpoint_sequence bundle) in
  let? payload := push_bytes payload (mb_cognitive_checkpoint bundle) in
  let? payload := push_bytes payload (mb_action_checkpoint bundle) in
  let? payload := push_capabilities payload (mb_capabilities bundle) in
  let? payload := push_optional_approval payload (mb_pending_approval bundle) in
  push_optional_retry payload (mb_retry bundle).

Definition encode_mobile_continuity_bundle (bundle : MobileContinuityBundle)
  : result MobileContinuityError bytes :=
  let? _ := validate_bundle bundle in
  let? payload := encode_payload bundle in
  let? payload_len := ok_or (try_u64 (len payload)) McOverflow in
  let? _ := ok_or (checked_add_usize MCS97_HEADER_LEN (len payload)) McOverflow in
  let out := MCS97_MAGIC in
  let out := push_u16 out MCS97_HEADER_LEN in
  let out := push_u16 out MCS97_MAJOR in
  let out := push_u16 out MCS97_MINOR in
  let out := push_u32 out 0 in
  let out := push_u64 out payload_len in
  Ok (out ++ payload).

(** ** Decoding *)
Definition capability_error {A} (r : result CapabilityError A) : result MobileContinuityError A :=
  map_err (λ e, McActionCheckpoint (PeCapability e)) r.

Definition read_scope : decoder MobileContinuityError AuthorityScope :=
  dec! s <- read_string; dec_lift (capability_error (AuthorityScope_new s)).

(** [descriptor.normalize()?] on the fields read. *)
Definition normalized (id : CapabilityId) (version : Z) (domain : CapabilityDomain)
    (side_effect : SideEffectClass) (verification_required rollback_supported resumable : bool)
    (required_scopes : list AuthorityScope) : result MobileContinuityError CapabilityDescriptor :=
  let? d := capability_error (CapabilityDescriptor_new id version domain side_effect) in
  let d := mkDescriptor (cd_id d) (cd_version d) (cd_domain d) (cd_side_effect d)
             verification_required rollback_supported resumable required_scopes in
  let '(d, r) := normalize d in
  let? _ := capability_error r in Ok d.

(** One turn of the loop of [capabilities]: the id as it was read, and the
    descriptor. *)
Definition read_capability (previous : option string)
  : decoder MobileContinuityError (string * CapabilityDescriptor) :=
  dec! id <- read_string;
  dec! _ <- dec_guard (negb (is_blank id) && key_after previous id) McNonCanonicalEncoding;
  dec! version <- read_u32;
  dec! raw_domain <- read_u8;
  dec! domain <- dec_lift (capability_error (CapabilityDomain_try_from raw_domain));
  dec! raw_side_effect <- read_u8;
  dec! side_effect <- dec_lift (decode_side_effect raw_side_effect);
  dec! verification_required <- read_boolean;
  dec! rollback_supported <- read_boolean;
  dec! resumable <- read_boolean;
  dec! required_scopes <- read_list read_scope;
  dec! d <- dec_lift (normalized id version domain side_effect verification_required
                        rollback_supported resumable required_scopes);
  dec_ret (id, d).
Fixpoint capabilities_loop (n : nat) (previous : option string)
  : decoder MobileContinuityError (list CapabilityDescriptor) :=
  match n with
  | O => dec_ret []
  | S n' =>
      dec! p <- read_capability previous;
      dec! ds <- capabilities_loop n' (Some p.1);
      dec_ret (p.2 :: ds)
  end.
Definition read_capabilities : decoder MobileContinuityError (list CapabilityDescriptor) :=
  dec! n <- read_u32;
  dec! count <- dec_lift (ok_or (try_usize n) McOverflow);
  capabilities_loop (Z.to_nat count) None.

Definition read_approval : decoder MobileContinuityError PendingApproval :=
  dec! task_id <- read_u64;
  dec! plan_id <- read_u64;
  dec! action_id <- read_u64;
  dec! capability <- read_string;
  dec! rationale <- read_string;
  dec_ret (mkApproval task_id plan_id action_id capability rationale).
Definition optional_approval : decoder MobileContinuityError (option PendingApproval) :=
  read_option read_approval.

Definition read_retry : decoder MobileContinuityError RetryBackoff :=
  dec! attempts <- read_u32;
  dec! not_before_epoch_ms <- read_u64;
  dec! base_delay_ms <- read_u64;
  dec! max_delay_ms <- read_u64;
  dec_ret (mkRetry attempts not_before_epoch_ms base_delay_ms max_delay_ms).
Definition optional_retry : decoder MobileContinuityError (option RetryBackoff) :=
  read_option read_retry.

Definition decode_header : decoder MobileContinuityError Z :=
  dec! magic <- take_bytes 6;
  dec! _ <- dec_guard (bytes_eqb magic MCS97_MAGIC) McInvalidMagic;
  dec! header_len <- read_u16;
  dec! _ <- dec_guard (header_len =? MCS97_HEADER_LEN) McInvalidHeader;
  dec! major <- read_u16;
  dec! minor <- read_u16;
  dec! _ <- dec_guard (negb (negb (major =? MCS97_MAJOR) || (MCS97_MINOR <? minor)))
              (McUnsupportedVersion major minor);
  dec! reserved <- read_u32;
  dec! _ <- dec_guard (reserved =? 0) McInvalidHeader;
  dec! payload_len <- read_u64;
  dec_lift (ok_or (try_usize payload_len) McOverflow).

Definition decode_payload : decoder MobileContinuityError MobileContinuityBundle :=
  dec! identity <- take_bytes 16;
  dec! raw_state <- read_u8;
  dec! state <- dec_lift (continuity_try_from raw_state);
  dec! raw_wake <- read_u8;
  dec! wake_reason <- dec_lift (wake_try_from raw_wake);
  dec! reserved <- read_u16;
  dec! _ <- dec_guard (reserved =? 0) McNonCanonicalEncoding;
  dec! checkpoint_sequence <- read_u64;
  dec! cognitive_checkpoint <- read_bytes;
  dec! action_checkpoint <- read_bytes;
  dec! capabilities <- read_capabilities;
  dec! pending_approval <- optional_approval;
  dec! retry <- optional_retry;
  dec! _ <- expect_finished McNonCanonicalEncoding;
  dec_ret (mkBundle identity state wake_reason checkpoint_sequence cognitive_checkpoint
             action_checkpoint capabilities pending_approval retry).

Definition decode_mobile_continuity_bundle (bs : bytes)
  : result MobileContinuityError MobileContinuityBundle :=
  if len bs <? MCS97_HEADER_LEN then Err McTruncated
  else
    let? payload_len := run_decoder decode_header bs in
    let? expected := ok_or (checked_add_usize MCS97_HEADER_LEN payload_len) McOverflow in
    if negb (len bs =? expected) then Err McNonCanonicalEncoding
    else
      let? payload := slice bs MCS97_HEADER_LEN (len bs) in
      let? bundle := run_decoder decode_payload payload in
      let? _ := validate_bundle bundle in
      Ok bundle.
End Continuity.
