(* ===== verification/ContinuityTheorems.v ===== *)
(** Continuity bundles: what is built is encoded, decoded and restored as the
    same session, and whatever is restored is consistent. *)
From S2P Require Import Prelude Text Collections Codec WireFormat WireTables Core Capability Memory Cognition CognitionSafety CognitionTheorems Checkpoint CheckpointTheorems ActionFabric ActionFabricStep ActionFabricSafety ActionFabricTheorems ActionFabricProperties ActionCheckpoint ActionCheckpointTheorems Continuity.

Module ContinuityTheorems.
Import Memory Cognition CognitionSafety CognitionTheorems CheckpointTheorems ActionCheckpointTheorems Checkpoint ActionCheckpoint Continuity.

#[export] Instance continuity_tag : EnumTag continuity_repr continuity_try_from.
Proof. unfold continuity_try_from. enum_tag. Qed.
#[export] Instance wake_tag : EnumTag wake_repr wake_try_from.
Proof. unfold wake_try_from. enum_tag. Qed.
#[export] Instance continuity_side_effect_tag : EnumTag encode_side_effect decode_side_effect.
Proof. unfold decode_side_effect. enum_tag. Qed.
Lemma domain_try_from_tag d : CapabilityDomain_try_from (domain_tag d) = Ok d.
Proof. by destruct d. Qed.

(** ** Approvals and retries *)
#[export] Instance approval_format : WireFormat push_approval read_approval.
Proof.
  refine {| wf_enc a := to_le 8 (ap_task_id a) ++ to_le 8 (ap_plan_id a) ++ to_le 8 (ap_action_id a) ++
              wf_enc push_string read_string (ap_capability a) ++
              wf_enc push_string read_string (ap_rationale a);
            wf_typed a := in_u64 (ap_task_id a) ∧ in_u64 (ap_plan_id a) ∧ in_u64 (ap_action_id a) ∧
              is_utf8 (ap_capability a) ∧ is_utf8 (ap_rationale a);
            wf_fits a := wf_fits push_string read_string (ap_capability a) ∧
              wf_fits push_string read_string (ap_rationale a) |}.
  - intros a out r. unfold push_approval, push_u64. cbv zeta. emit_steps. tauto.
  - intros [] ? ?. unfold read_approval. cbn in *. destruct_and?. solve_fields.
  - unfold read_approval. parse_fields Hv.
  - unfold read_approval. solve_safe.
Defined.

#[export] Instance retry_format : WireFormat push_retry read_retry.
Proof.
  refine {| wf_enc a := to_le 4 (rb_attempts a) ++ to_le 8 (rb_not_before_epoch_ms a) ++
              to_le 8 (rb_base_delay_ms a) ++ to_le 8 (rb_max_delay_ms a);
            wf_typed a := in_u32 (rb_attempts a) ∧ in_u64 (rb_not_before_epoch_ms a) ∧
              in_u64 (rb_base_delay_ms a) ∧ in_u64 (rb_max_delay_ms a);
            wf_fits a := True |}.
  - intros a out r. unfold push_retry, push_u64, push_u32. cbv zeta. emit_steps. tauto.
  - intros [] ? ?. unfold read_retry. cbn in *. destruct_and?. solve_fields.
  - unfold read_retry. parse_fields Hv.
  - unfold read_retry. solve_safe.
Defined.

#[export] Instance optional_approval_format : WireFormat push_optional_approval optional_approval.
Proof. apply option_format, approval_format. Defined.
#[export] Instance optional_retry_format : WireFormat push_optional_retry optional_retry.
Proof. apply option_format, retry_format. Defined.

(** ** Capabilities *)
Notation enc_string := (wf_enc (E:=MobileContinuityError) push_string read_string).
Notation enc_strings := (wf_enc (E:=MobileContinuityError) push_strings read_strings).
Notation enc_bytes := (wf_enc (E:=MobileContinuityError) push_bytes read_bytes).
Notation fits_string := (wf_fits (E:=MobileContinuityError) push_string read_string).
Notation fits_strings := (wf_fits (E:=MobileContinuityError) push_strings read_strings).
Notation fits_bytes := (wf_fits (E:=MobileContinuityError) push_bytes read_bytes).

Definition cap_enc (d : CapabilityDescriptor) : bytes :=
  enc_string (cd_id d) ++ to_le 4 (cd_version d) ++ to_le 1 (domain_tag (cd_domain d)) ++
  to_le 1 (encode_side_effect (cd_side_effect d)) ++
  to_le 1 (if cd_verification_required d then 1 else 0) ++
  to_le 1 (if cd_rollback_supported d then 1 else 0) ++
  to_le 1 (if cd_resumable d then 1 else 0) ++ enc_strings (cd_required_scopes d).
Definition cap_fits (d : CapabilityDescriptor) : Prop :=
  fits_string (cd_id d) ∧ fits_strings (cd_required_scopes d).
Definition descriptor_typed (d : CapabilityDescriptor) : Prop :=
  is_utf8 (cd_id d) ∧ in_u32 (cd_version d) ∧ Forall is_utf8 (cd_required_scopes d).
Definition caps_enc (ds : list CapabilityDescriptor) : bytes :=
  to_le 4 (len ds) ++ concat (map cap_enc ds).
Definition caps_fits (ds : list CapabilityDescriptor) : Prop := len ds < 2 ^ 32 ∧ Forall cap_fits ds.

Lemma push_capability_emits d : emits (λ out, push_capability out d) (cap_fits d) (cap_enc d).
Proof.
  intros out r. unfold push_capability, push_bool, push_u32, push_u8. cbv zeta. emit_steps.
  unfold cap_fits, cap_enc. tauto.
Qed.

Lemma emits_then {E} w fits l (k : bytes → result E bytes) out r :
  emits w fits l → (let? o := w out in k o) = Ok r ↔ fits ∧ k (out ++ l) = Ok r.
Proof.
  intros Hw. destruct (w out) as [o|e|] eqn:Ho.
  - apply Hw in Ho as [? ->]. tauto.
  - split; [done|]. intros [Hf _]. by rewrite (proj2 (Hw out _) (conj Hf eq_refl)) in Ho.
  - split; [done|]. intros [Hf _]. by rewrite (proj2 (Hw out _) (conj Hf eq_refl)) in Ho.
Qed.

Lemma push_capabilities_emits ds : emits (λ out, push_capabilities out ds) (caps_fits ds) (caps_enc ds).
Proof.
  unfold push_capabilities, push_list.
  apply (emits_check (len_u32 (len ds)) (λ n out, fold_result push_capability (push_u32 out n) ds) _ _ _ _
           (len_u32_Ok _)).
  apply (emits_push (λ out, fold_result push_capability out ds)). apply emits_each, push_capability_emits.
Qed.

Lemma scope_reads s :
  is_utf8 s → fits_string s → trimmed s → s ≠ EmptyString → reads read_scope (enc_string s) s.
Proof.
  intros Hu Hf Ht Hne. unfold read_scope. eapply reads_bind_last; [by apply reads_string|].
  apply reads_lift. unfold AuthorityScope_new. unfold trimmed in Ht. rewrite Ht.
  by apply string_is_empty_false in Hne as ->.
Qed.

Lemma capability_reads previous d :
  descriptor_typed d → descriptor_wf d → cap_fits d → key_after previous (cd_id d) = true →
  reads (read_capability previous) (cap_enc d) (cd_id d, d).
Proof.
  intros (Hu & Hv & Hs) Hwf [Hf [Hls Hfs]] Hp. pose proof Hwf as [[Ht Hne] Hv0 Hsc Ha Hr].
  assert (is_blank (cd_id d) = false) as Hb.
  { rewrite is_blank_spec. unfold trimmed in Ht. rewrite Ht. by apply bool_decide_eq_false. }
  unfold read_capability, cap_enc. eapply reads_bind; [by apply reads_string|].
  eapply reads_bind_nil; [apply reads_guard; by rewrite Hb, Hp|].
  eapply reads_bind; [by apply reads_u32|]. eapply reads_bind; [apply reads_u8; by destruct (cd_domain d)|].
  eapply reads_bind_nil; [apply reads_lift; by rewrite domain_try_from_tag|]. cbv beta.
  eapply reads_bind; [apply reads_u8, tag_byte|]. eapply reads_bind_nil; [apply reads_lift, tag_try|].
  do 3 (eapply reads_bind; [apply reads_boolean|]).
  rewrite <- (app_nil_r (enc_strings _)). eapply reads_bind.
  { unfold read_list. pose proof (len_nonneg (cd_required_scopes d)).
    change (enc_strings (cd_required_scopes d)) with
      (to_le 4 (len (cd_required_scopes d)) ++ concat (map enc_string (cd_required_scopes d))).
    eapply reads_bind; [apply reads_u32; unfold in_u32; lia|]. apply reads_vec; [lia|].
    rewrite Forall_forall in *. intros s Hin. destruct (Hsc s Hin). by apply scope_reads; auto. }
  eapply reads_bind_nil; [apply reads_lift|apply reads_ret].
  unfold normalized, CapabilityDescriptor_new. rewrite Hb.
  destruct (Z.eqb_spec (cd_version d) 0); [done|]. cbn.
  assert (mkDescriptor (cd_id d) (cd_version d) (cd_domain d) (cd_side_effect d)
    (cd_verification_required d) (cd_rollback_supported d) (cd_resumable d) (cd_required_scopes d) = d) as ->
    by (by destruct d).
  by rewrite normalize_fixed.
Qed.

Definition ids_after (previous : option string) (ds : list CapabilityDescriptor) : Prop :=
  match ds with [] => True | d :: _ => key_after previous (cd_id d) = true end.

Lemma key_after_Some a b : key_after (Some a) b = true ↔ String.le a b ∧ a ≠ b.
Proof.
  destruct (string_sequence) as [_ Hn]. rewrite (Hn a b I). cbn. tauto.
Qed.

Lemma capabilities_loop_reads previous ds :
  Forall descriptor_typed ds → Forall descriptor_wf ds → Forall cap_fits ds →
  strictly_ascending (map cd_id ds) = true → ids_after previous ds →
  reads (capabilities_loop (length ds) previous) (concat (map cap_enc ds)) ds.
Proof.
  intros Ht Hw Hf. revert previous.
  induction ds as [|d ds IH]; intros previous Ha Hp; cbn [length capabilities_loop map concat];
    [apply reads_ret|].
  apply Forall_cons in Ht as [? Ht], Hw as [? Hw], Hf as [? Hf].
  eapply reads_bind; [by apply capability_reads|]. cbn [fst snd].
  eapply reads_bind_last; [|apply reads_ret]. apply IH; [done..| |].
  - destruct ds; [done|]. cbn in Ha |- *. by apply andb_true_iff in Ha as [_ ?].
  - destruct ds as [|e ds]; [done|]. cbn in Ha |- *. apply andb_true_iff in Ha as [Ha _].
    apply bool_decide_eq_true in Ha. by apply key_after_Some.
Qed.

Lemma capabilities_reads ds :
  Forall descriptor_typed ds → Forall descriptor_wf ds → caps_fits ds →
  strictly_ascending (map cd_id ds) = true → reads read_capabilities (caps_enc ds) ds.
Proof.
  intros Ht Hw [Hl Hf] Ha. pose proof (len_nonneg ds). unfold read_capabilities, caps_enc.
  eapply reads_bind; [apply reads_u32; unfold in_u32; lia|].
  eapply reads_bind_nil; [apply reads_lift, try_u64_Ok; lia|]. rewrite to_nat_len.
  apply capabilities_loop_reads; try done. by destruct ds.
Qed.

(** ** The payload *)
Notation enc_approval := (wf_enc push_optional_approval optional_approval).
Notation enc_retry := (wf_enc push_optional_retry optional_retry).
Notation fits_approval := (wf_fits push_optional_approval optional_approval).
Notation approval_typed := (wf_typed push_optional_approval optional_approval).
Notation retry_typed := (wf_typed push_optional_retry optional_retry).

Definition payload_enc (b : MobileContinuityBundle) : bytes :=
  mb_identity b ++ to_le 1 (continuity_repr (mb_state b)) ++ to_le 1 (wake_repr (mb_wake_reason b)) ++
  to_le 2 0 ++ to_le 8 (mb_checkpoint_sequence b) ++ enc_bytes (mb_cognitive_checkpoint b) ++
  enc_bytes (mb_action_checkpoint b) ++ caps_enc (mb_capabilities b) ++
  enc_approval (mb_pending_approval b) ++ enc_retry (mb_retry b).
Definition payload_fits (b : MobileContinuityBundle) : Prop :=
  fits_bytes (mb_cognitive_checkpoint b) ∧ fits_bytes (mb_action_checkpoint b) ∧
  caps_fits (mb_capabilities b) ∧ fits_approval (mb_pending_approval b).

(** What the Rust types guarantee of a bundle, and the normal form of its
    capabilities. *)
Record bundle_typed (b : MobileContinuityBundle) : Prop := {
  bt_identity : len (mb_identity b) = 16;
  bt_sequence : in_u64 (mb_checkpoint_sequence b);
  bt_capabilities : Forall descriptor_typed (mb_capabilities b);
  bt_normal : Forall descriptor_wf (mb_capabilities b);
  bt_approval : approval_typed (mb_pending_approval b);
  bt_retry : retry_typed (mb_retry b);
}.

Lemma bundle_payload_Ok b r : encode_payload b = Ok r ↔ payload_fits b ∧ r = payload_enc b.
Proof.
  unfold encode_payload, push_u8, push_u16, push_u64. cbv zeta.
  rewrite !(put_then push_bytes read_bytes), (emits_then _ _ _ _ _ _ (push_capabilities_emits _)),
    (put_then push_optional_approval optional_approval), (put_Ok push_optional_retry optional_retry).
  rewrite <- ?app_assoc. unfold payload_fits, payload_enc.
  assert (wf_fits push_optional_retry optional_retry (mb_retry b)) by (by destruct (mb_retry b)). tauto.
Qed.

Lemma bundle_payload_reads b :
  bundle_typed b → payload_fits b → strictly_ascending (map cd_id (mb_capabilities b)) = true →
  reads_end decode_payload (payload_enc b) b.
Proof.
  intros [Hi Hs Hc Hn Ha Hr] (Hf1 & Hf2 & Hf3 & Hf4) Hasc. unfold decode_payload, payload_enc.
  eapply reads_end_bind; [by apply reads_take|].
  eapply reads_end_bind; [apply reads_u8, tag_byte|]. eapply reads_end_bind_nil; [apply reads_lift, tag_try|].
  eapply reads_end_bind; [apply reads_u8, tag_byte|]. eapply reads_end_bind_nil; [apply reads_lift, tag_try|].
  eapply reads_end_bind; [apply reads_u16; by vm_compute|]. eapply reads_end_bind_nil; [by apply reads_guard|].
  eapply reads_end_bind; [by apply reads_u64|]. do 2 (eapply reads_end_bind; [by apply reads_bytes|]).
  eapply reads_end_bind; [by apply capabilities_reads|].
  eapply reads_end_bind; [by apply (format_reads push_optional_approval optional_approval)|].
  rewrite <- (app_nil_r (enc_retry _)).
  eapply reads_end_bind; [apply (format_reads push_optional_retry optional_retry); [done|by destruct (mb_retry b)]|].
  apply reads_end_finished. destruct b. apply reads_reads_end, reads_ret.
Qed.

(** ** The frame *)
Definition header_enc (minor payload_len : Z) : bytes :=
  MCS97_MAGIC ++ to_le 2 MCS97_HEADER_LEN ++ to_le 2 MCS97_MAJOR ++ to_le 2 minor ++
  to_le 4 0 ++ to_le 8 payload_len.

Lemma continuity_len_header minor n : len (header_enc minor n) = 24.
Proof. unfold header_enc. repeat rewrite len_app. by rewrite !len_to_le. Qed.

Lemma continuity_decode_header_reads minor n :
  0 ≤ minor ≤ MCS97_MINOR → 0 ≤ n < 2 ^ 64 → reads decode_header (header_enc minor n) n.
Proof.
  intros Hm Hn. unfold MCS97_MINOR in Hm. unfold decode_header, header_enc.
  eapply reads_bind; [by apply reads_take|].
  eapply reads_bind_nil; [apply reads_guard, bool_decide_eq_true; reflexivity|].
  eapply reads_bind; [apply reads_u16; by vm_compute|].
  eapply reads_bind_nil; [by apply reads_guard|].
  eapply reads_bind; [apply reads_u16; by vm_compute|].
  eapply reads_bind; [apply reads_u16; unfold in_u16; lia|].
  eapply reads_bind_nil; [apply reads_guard|].
  { unfold MCS97_MINOR. cbn. by destruct (Z.ltb_spec 2 minor); [lia|]. }
  eapply reads_bind; [apply reads_u32; by vm_compute|].
  eapply reads_bind_nil; [by apply reads_guard|].
  eapply reads_bind_last; [by apply reads_u64|]. apply reads_lift, try_u64_Ok. lia.
Qed.

Lemma encode_bundle_Ok b bs :
  encode_mobile_continuity_bundle b = Ok bs ↔
  validate_bundle b = Ok tt ∧ payload_fits b ∧ 24 + len (payload_enc b) < 2 ^ 64 ∧
  bs = header_enc 2 (len (payload_enc b)) ++ payload_enc b.
Proof.
  unfold encode_mobile_continuity_bundle.
  destruct (validate_bundle b) as [[]|e|]; [|naive_solver..].
  destruct (encode_payload b) as [payload|e|] eqn:Hp.
  - apply bundle_payload_Ok in Hp as [Hf ->]. unfold try_u64, checked_add_usize, checked_add_u64.
    pose proof (len_nonneg (payload_enc b)). change MCS97_HEADER_LEN with 24.
    destruct (Z.ltb_spec (len (payload_enc b)) (2 ^ 64)); cbn [ok_or].
    + destruct (Z.ltb_spec (24 + len (payload_enc b)) (2 ^ 64)); cbn [ok_or].
      * rewrite Ok_iff. unfold header_enc, push_u16, push_u32, push_u64. cbv zeta.
        rewrite <- !app_assoc. tauto.
      * split; [done|]. intros (_ & _ & ? & _). lia.
    + split; [done|]. intros (_ & _ & ? & _). lia.
  - split; [done|]. intros (_ & Hf & _). by rewrite (proj2 (bundle_payload_Ok b _) (conj Hf eq_refl)) in Hp.
  - split; [done|]. intros (_ & Hf & _). by rewrite (proj2 (bundle_payload_Ok b _) (conj Hf eq_refl)) in Hp.
Qed.

Lemma validate_ascending b :
  validate_bundle b = Ok tt → strictly_ascending (map cd_id (mb_capabilities b)) = true.
Proof.
  unfold validate_bundle. destruct (_ || _); [done|].
  by destruct (strictly_ascending (map cd_id (mb_capabilities b))).
Qed.

Lemma bundle_codec b bs :
  bundle_typed b → encode_mobile_continuity_bundle b = Ok bs →
  decode_mobile_continuity_bundle bs = Ok b.
Proof.
  intros Ht (Hv & Hf & Hlen & ->)%encode_bundle_Ok. pose proof (len_nonneg (payload_enc b)).
  set (payload := payload_enc b) in *. set (h := header_enc 2 (len payload)).
  assert (len h = 24) as Hh by apply continuity_len_header.
  assert (len (h ++ payload) = 24 + len payload) as Hall by (rewrite len_app; lia).
  unfold decode_mobile_continuity_bundle. change MCS97_HEADER_LEN with 24.
  destruct (Z.ltb_spec (len (h ++ payload)) 24); [lia|].
  rewrite (run_front _ _ _ (len payload)); [|apply continuity_decode_header_reads; [by vm_compute|lia]|lia].
  unfold checked_add_usize, checked_add_u64. destruct (Z.ltb_spec (24 + len payload) (2 ^ 64)); [|lia].
  cbn [ok_or]. rewrite Hall, Z.eqb_refl. cbn [negb].
  replace (h ++ payload) with (h ++ payload ++ []) by (by rewrite app_nil_r).
  rewrite slice_app by lia.
  rewrite (run_decoder_reads _ payload b); [by rewrite Hv|lia|].
  apply bundle_payload_reads; [done..|by apply validate_ascending].
Qed.

(** ** The registry of a bundle *)
Lemma register_wf reg d reg' :
  registry_wf reg → register reg d = Ok reg' → registry_wf reg'.
Proof.
  intros Hreg. unfold register. destruct (normalize d) as [d' r] eqn:Hn. destruct r as [[]| |]; [|done..].
  pose proof (normalize_wf _ _ Hn). destruct (reg !! cd_id d'); [done|]. intros [= <-].
  by apply map_Forall_insert_2.
Qed.

Lemma snapshot_wf ds reg : registry_from_snapshot ds = Ok reg → registry_wf reg.
Proof.
  unfold registry_from_snapshot. intros Hf.
  revert Hf. apply (fold_result_inv registry_wf); [apply map_Forall_empty|].
  intros r d r' Hr _ Hd%map_err_Ok. by eapply register_wf.
Qed.

Lemma registry_keyed reg : registry_wf reg → keyed cd_id reg.
Proof. intros Hreg k d Hd. by destruct (Hreg k d Hd). Qed.

Lemma registry_values reg : registry_wf reg → Forall descriptor_wf (descriptors reg).
Proof.
  intros Hreg. apply Forall_forall. intros d (k & Hd)%elem_of_btree_values. by destruct (Hreg k d Hd).
Qed.

Lemma register_all ds (m : CapabilityRegistry) :
  NoDup (map cd_id ds) → Forall descriptor_wf ds → (∀ d, d ∈ ds → m !! cd_id d = None) →
  fold_result (λ registry d,
    map_err (λ e, McActionCheckpoint (PeCapability e)) (register registry d)) m ds =
  Ok (table_of cd_id m ds).
Proof.
  revert m. induction ds as [|d ds IH]; intros m Hnd Hwf Hfree; [done|].
  cbn [fold_result map] in *. apply NoDup_cons in Hnd as [Hni Hnd]. apply Forall_cons in Hwf as [Hd Hwf].
  unfold register at 1. rewrite normalize_fixed, Hfree by (by left || done). cbn [map_err].
  apply IH; [done..|]. intros e He. apply (lookup_insert_None (M:=gmap string)).
  split; [by apply Hfree; right|]. intros Heq. apply Hni. rewrite Heq. by apply list_elem_of_fmap_2.
Qed.

Lemma snapshot_descriptors reg :
  registry_wf reg → registry_from_snapshot (descriptors reg) = Ok reg.
Proof.
  intros Hreg. pose proof (registry_keyed reg Hreg) as Hk. unfold registry_from_snapshot.
  rewrite register_all; [|by (unfold descriptors; rewrite keyed_values_keys; [apply btree_keys_NoDup|])|
    by apply registry_values|intros; apply lookup_empty].
  f_equal. by apply table_of_values.
Qed.

(** ** Links *)
Definition approval_linked (actions : ActionFabricState) (approval : PendingApproval) : Prop :=
  0 ≠ ap_task_id approval ∧ 0 ≠ ap_plan_id approval ∧ 0 ≠ ap_action_id approval ∧
  trim (ap_capability approval) ≠ EmptyString ∧ trim (ap_rationale approval) ≠ EmptyString ∧
  ∃ plan action, fs_plans actions !! ap_plan_id approval = Some plan ∧
    pl_task_id plan = ap_task_id approval ∧ action ∈ pl_actions plan ∧
    pa_id action = ap_action_id approval ∧ pa_capability action = ap_capability approval.
Definition linked (cognitive : CognitiveState) (actions : ActionFabricState)
    (approval : option PendingApproval) : Prop :=
  map_Forall (λ _ plan, is_Some (cs_tasks cognitive !! pl_task_id plan)) (fs_plans actions) ∧
  (∀ a, approval = Some a → approval_linked actions a).

Lemma validate_approval_Ok a :
  validate_approval a = Ok tt ↔
  0 ≠ ap_task_id a ∧ 0 ≠ ap_plan_id a ∧ 0 ≠ ap_action_id a ∧
  trim (ap_capability a) ≠ EmptyString ∧ trim (ap_rationale a) ≠ EmptyString.
Proof.
  unfold validate_approval. rewrite !is_blank_spec.
  destruct (Z.eqb_spec (ap_task_id a) 0), (Z.eqb_spec (ap_plan_id a) 0), (Z.eqb_spec (ap_action_id a) 0);
    cbn [orb]; repeat case_bool_decide; cbn [orb]; naive_solver.
Qed.

Lemma validate_links_Ok cognitive actions approval :
  validate_links cognitive actions approval = Ok tt ↔ linked cognitive actions approval.
Proof.
  unfold validate_links, linked.
  assert (check_all (λ plan, if bool_decide (cs_tasks cognitive !! pl_task_id plan = None)
    then Err (TaskActionMismatch (pl_task_id plan)) else Ok tt) (btree_values (fs_plans actions)) = Ok tt ↔
    map_Forall (λ _ plan, is_Some (cs_tasks cognitive !! pl_task_id plan)) (fs_plans actions)) as Hall.
  { rewrite check_all_Ok, Forall_forall. setoid_rewrite elem_of_btree_values. split.
    - intros Hp k p Hk. specialize (Hp p (ex_intro _ k Hk)). case_bool_decide as Hd; [done|].
      by apply not_eq_None_Some.
    - intros Hp p [k Hk]. case_bool_decide as Hd; [|done]. pose proof (Hp k p Hk) as [? ?]. congruence. }
  rewrite <- Hall. destruct (check_all _ _) as [[]| |]; [|naive_solver..].
  destruct approval as [a|]; cbn [validate_option]; [|naive_solver].
  transitivity (approval_linked actions a); [|naive_solver].
  unfold approval_linked. pose proof (validate_approval_Ok a) as Hv.
  destruct (validate_approval a) as [[]| |]; [|naive_solver..].
  destruct (fs_plans actions !! ap_plan_id a) as [plan|] eqn:Hplan; cbn [ok_or]; [|naive_solver].
  destruct (Z.eqb_spec (pl_task_id plan) (ap_task_id a)); cbn [negb orb]; [|naive_solver].
  assert (existsb (approved_action a) (pl_actions plan) = true ↔
    ∃ action, action ∈ pl_actions plan ∧ pa_id action = ap_action_id a ∧
      pa_capability action = ap_capability a) as Hex.
  { rewrite existsb_exists. setoid_rewrite <- list_elem_of_In. unfold approved_action.
    setoid_rewrite andb_true_iff. setoid_rewrite Z.eqb_eq. setoid_rewrite bool_decide_eq_true. done. }
  destruct (existsb _ _); cbn [negb]; naive_solver.
Qed.

(** ** Bundles *)
Definition retry_ok (r : RetryBackoff) : Prop :=
  rb_base_delay_ms r ≠ 0 ∧ rb_base_delay_ms r ≤ rb_max_delay_ms r.

Lemma validate_retry_Ok r : validate_retry r = Ok tt ↔ retry_ok r.
Proof.
  unfold validate_retry, retry_ok.
  destruct (Z.eqb_spec (rb_base_delay_ms r) 0), (Z.ltb_spec (rb_max_delay_ms r) (rb_base_delay_ms r));
    cbn [orb]; split; (done || lia).
Qed.

(** One check and the rest of the checks. *)
Lemma check_before {E A} (m : result E A) (k : A → result E unit) φ ψ :
  (∀ a, m = Ok a → (k a = Ok tt ↔ ψ)) → ((∃ a, m = Ok a) ↔ φ) → (let? a := m in k a) = Ok tt ↔ φ ∧ ψ.
Proof.
  intros Hk Hm. destruct m as [a|e|]; rewrite <- Hm.
  - rewrite (Hk a eq_refl). split; [intros ?; split; [by exists a|done]|tauto].
  - split; [done|by intros [[? ?] _]].
  - split; [done|by intros [[? ?] _]].
Qed.
Lemma option_check {A} (f : A → result MobileContinuityError unit) (P : A → Prop) o :
  (∀ a, f a = Ok tt ↔ P a) → (∃ u, validate_option f o = Ok u) ↔ (∀ a, o = Some a → P a).
Proof.
  intros Hf. destruct o as [a|]; cbn; [|by split; [|by exists tt]]. split.
  - intros [[] ?] a' [= <-]. by apply Hf.
  - intros Hp. exists tt. by apply Hf, Hp.
Qed.

Lemma validate_bundle_Ok b :
  validate_bundle b = Ok tt ↔
  (mb_checkpoint_sequence b ≠ 0 ∧ mb_cognitive_checkpoint b ≠ [] ∧ mb_action_checkpoint b ≠ []) ∧
  strictly_ascending (map cd_id (mb_capabilities b)) = true ∧
  (∃ registry actions, registry_from_snapshot (mb_capabilities b) = Ok registry ∧
     decode_action_fabric_checkpoint registry (mb_action_checkpoint b) = Ok actions) ∧
  (∀ r, mb_retry b = Some r → retry_ok r) ∧
  (∀ a, mb_pending_approval b = Some a → validate_approval a = Ok tt) ∧
  (mb_state b = WaitingApproval ↔ is_Some (mb_pending_approval b)).
Proof.
  unfold validate_bundle.
  destruct (Z.eqb_spec (mb_checkpoint_sequence b) 0); cbn [orb]; [split; [done|tauto]|].
  case_bool_decide; cbn [orb]; [split; [done|tauto]|]. case_bool_decide; [split; [done|tauto]|].
  destruct (strictly_ascending _); cbn [negb]; [|by split; [|intros (_ & ? & _)]].
  match goal with |- ?l = Ok tt ↔ _ => enough (l = Ok tt ↔
    (∃ registry actions, registry_from_snapshot (mb_capabilities b) = Ok registry ∧
     decode_action_fabric_checkpoint registry (mb_action_checkpoint b) = Ok actions) ∧
    (∀ r, mb_retry b = Some r → retry_ok r) ∧
    (∀ a, mb_pending_approval b = Some a → validate_approval a = Ok tt) ∧
    (mb_state b = WaitingApproval ↔ is_Some (mb_pending_approval b))) by tauto end.
  destruct (registry_from_snapshot _) as [reg| |];
    [|by split; [|intros [(? & ? & ? & _) _]]..]. unfold decode_actions.
  apply check_before.
  2: { split; [intros [a Ha%map_err_Ok]; by exists reg, a|]. intros (? & a & [= <-] & Ha). exists a.
       by rewrite Ha. }
  intros actions _. apply check_before; [|apply option_check, validate_retry_Ok]. intros _ _.
  destruct (mb_pending_approval b) as [a|]; cbn [validate_option].
  - rewrite (bool_decide_false (Some a = None)) by done. rewrite andb_false_r.
    destruct (validate_approval a) as [[]| |] eqn:Ha.
    + case_bool_decide; cbn [negb]; [|split; [done|intros [_ [_ Hs]]]; by destruct (Hs (mk_is_Some _ _ eq_refl))].
      split; [|done]. intros _. split; [by intros ? [= <-]|]. split; [by eexists|done].
    + split; [done|]. intros [Hs _]. specialize (Hs a eq_refl). congruence.
    + split; [done|]. intros [Hs _]. specialize (Hs a eq_refl). congruence.
  - rewrite (bool_decide_true (None = None)) by done. rewrite andb_true_r.
    case_bool_decide as Hw; split; [done| | |done].
    + intros [_ [Hi _]]. by destruct (Hi Hw).
    + intros _. split; [done|]. split; [done|by intros []].
Qed.

Lemma build_Ok cognitive registry actions state wake seq approval retry b :
  build_mobile_continuity_bundle cognitive registry actions state wake seq approval retry = Ok b →
  encode_cognitive_checkpoint cognitive = Ok (mb_cognitive_checkpoint b) ∧
  encode_action_fabric_checkpoint registry actions = Ok (mb_action_checkpoint b) ∧
  linked cognitive actions approval ∧ validate_bundle b = Ok tt ∧
  b = mkBundle (cs_identity cognitive) state wake seq (mb_cognitive_checkpoint b)
        (mb_action_checkpoint b) (descriptors registry) approval retry.
Proof.
  unfold build_mobile_continuity_bundle. destruct (seq =? 0); [done|].
  destruct (validate_option validate_retry retry) as [[]| |]; [|done..].
  destruct (encode_cognitive_checkpoint cognitive) as [cc| |]; [|done..]. cbn [map_err].
  destruct (encode_action_fabric_checkpoint registry actions) as [ac| |]; [|done..]. cbn [map_err].
  destruct (validate_links cognitive actions approval) as [[]| |] eqn:Hl; [|done..].
  destruct (validate_bundle _) as [[]| |] eqn:Hv; [|done..]. intros [= <-]. cbn.
  by apply validate_links_Ok in Hl.
Qed.

(** What the types guarantee of the arguments of [build]. *)
Record parts_typed (cognitive : CognitiveState) (registry : CapabilityRegistry)
    (actions : ActionFabricState) : Prop := {
  pt_cognitive : state_typed cognitive ∧ mem_wf (cs_memory cognitive);
  pt_registry : registry_wf registry ∧ map_Forall (λ _, descriptor_typed) registry;
  pt_actions : fabric_typed actions ∧ plans_typed actions;
}.

Lemma parts_decode cognitive registry actions cc ac :
  parts_typed cognitive registry actions → positive_ids cognitive →
  encode_cognitive_checkpoint cognitive = Ok cc →
  encode_action_fabric_checkpoint registry actions = Ok ac →
  decode_cognitive_checkpoint cc = Ok cognitive ∧ validate_state cognitive = Ok tt ∧
  decode_action_fabric_checkpoint registry ac = Ok actions ∧
  validate_fabric_state registry actions = Ok tt.
Proof.
  intros [[Hty Hmem] _ [Hfty Hpl]] Hpos (Hv & Hf & Hlen & ->)%encode_checkpoint_Ok
    (Hv' & Hf' & Hlen' & ->)%fabric_encode_checkpoint_Ok.
  pose proof Hv as Hwf. apply validate_state_Ok in Hwf; [|by apply typed_unsigned].
  split_and!; [|done| |done].
  - apply decode_framed; [by vm_compute|by apply typed_ready|done|by split|done].
  - apply fabric_decode_framed; [by vm_compute| |done..].
    eapply fabric_typed_ready; [done..|]. by apply validate_Ok.
Qed.

(** ** Properties *)

(** C21: For a continuity bundle built from a typed session without zero ids: whatever bytes
    it encodes to decode to the same bundle, and restoring it gives the cognitive state, the
    fabric and the wake-up data it was built from. *)
Theorem continuity_round_trip A cognitive registry actions state wake seq approval retry b :
  parts_typed cognitive registry actions → positive_ids cognitive → in_u64 seq →
  approval_typed approval → retry_typed retry →
  build_mobile_continuity_bundle cognitive registry actions state wake seq approval retry = Ok b →
  (∀ bs, encode_mobile_continuity_bundle b = Ok bs → decode_mobile_continuity_bundle bs = Ok b) ∧
  restore_mobile_continuity_bundle (A:=A) b =
    Ok (mkSession cognitive (mkFabric registry ∅ actions) state wake seq approval retry).
Proof.
  intros Hparts Hpos Hseq Hap Hrt (Hcc & Hac & Hl & Hv & Hb)%build_Ok.
  destruct (parts_decode _ _ _ _ _ Hparts Hpos Hcc Hac) as (Hdc & Hvs & Hda & Hvf).
  pose proof Hparts as [[Hty _] [Hreg Hregt] _].
  assert (mb_capabilities b = descriptors registry) as Hcaps by (by rewrite Hb). split.
  - intros bs. apply bundle_codec. split; rewrite ?Hcaps.
    + rewrite Hb. cbn. unfold len. by rewrite (ty_identity _ Hty).
    + by rewrite Hb.
    + apply Forall_forall. intros d (k & Hd)%elem_of_btree_values. by apply (Hregt k d).
    + by apply registry_values.
    + by rewrite Hb.
    + by rewrite Hb.
  - unfold restore_mobile_continuity_bundle, decode_actions.
    rewrite Hv, Hcaps, snapshot_descriptors by done. rewrite Hdc. cbn [map_err].
    assert (mb_identity b = cs_identity cognitive) as -> by (by rewrite Hb).
    rewrite bool_decide_true by done. cbn [negb]. unfold from_state. rewrite Hvs. cbn [map_err].
    rewrite Hda. cbn [map_err]. assert (mb_pending_approval b = approval) as -> by (by rewrite Hb).
    rewrite (proj2 (validate_links_Ok _ _ _) Hl). unfold ActionFabric_from_state. rewrite Hvf. cbn [map_err].
    by rewrite Hb.
Qed.

(** What holds of a restored session. *)
Record session_wf {A} (s : RestoredMobileSession A) : Prop := {
  se_cognitive : state_typed (rs_cognitive s) ∧ cognitive_wf (rs_cognitive s) ∧ mem_wf (cs_memory (rs_cognitive s));
  se_registry : registry_wf (fb_registry (rs_actions s));
  se_actions : fabric_wf (fb_registry (rs_actions s)) (fb_state (rs_actions s));
  se_links : linked (rs_cognitive s) (fb_state (rs_actions s)) (rs_pending_approval s);
  se_waiting : rs_state s = WaitingApproval ↔ is_Some (rs_pending_approval s);
  se_retry : ∀ r, rs_retry s = Some r → retry_ok r;
  se_sequence : rs_checkpoint_sequence s ≠ 0;
}.

(** C22: Whatever bundle a session is restored from, the session is consistent: its
    cognitive state, its registry and its fabric satisfy their invariants, every plan
    belongs to a task of the cognitive state, and a pending approval names an action of a
    plan of its task. *)
Theorem restored_session_consistent A b (session : RestoredMobileSession A) :
  restore_mobile_continuity_bundle b = Ok session → session_wf session.
Proof.
  unfold restore_mobile_continuity_bundle, decode_actions.
  destruct (validate_bundle b) as [[]| |] eqn:Hv; [|done..].
  apply validate_bundle_Ok in Hv as ((Hseq & _ & _) & _ & _ & Hretry & _ & Hwait).
  destruct (registry_from_snapshot _) as [registry| |] eqn:Hreg; [|done..].
  destruct (decode_cognitive_checkpoint _) as [s| |] eqn:Hdc; [|done..]. cbn [map_err].
  case_bool_decide; [cbn [negb]|done].
  destruct (from_state s) as [s'| |] eqn:Hfs; [|done..]. cbn [map_err].
  apply from_state_Ok in Hfs as [-> _].
  destruct (decode_action_fabric_checkpoint _ _) as [actions| |] eqn:Hda; [|done..]. cbn [map_err].
  destruct (validate_links _ _ _) as [[]| |] eqn:Hl; [|done..].
  unfold ActionFabric_from_state.
  destruct (validate_fabric_state registry actions) as [[]| |] eqn:Hvf; [|done..]. cbn [map_err].
  intros [= <-].
  apply fabric_decode_sound in Hda as (_ & _ & Hr & Hf & _).
  apply decode_sound in Hdc as (_ & _ & Hready & _ & [Hwf Hmem] & _).
  destruct (ready_typed s Hready) as [Hty _]. split; cbn; try done.
  - by eapply snapshot_wf.
  - apply validate_Ok; [|done]. by apply (fabric_ready_typed actions).
  - by apply validate_links_Ok.
Qed.

(** ** Concrete instances *)
Definition sample_actions : ActionFabricState :=
  mkFabricState 2 3 {[1 := mkPlan 1 1 1 PlanSuspended (pl_actions sample_plan)]}.
Definition sample_approval : PendingApproval := mkApproval 1 1 2 "file.write" "write requested".
Definition sample_retry : RetryBackoff := mkRetry 3 0 1000 60000.
Definition sample_build : result MobileContinuityError MobileContinuityBundle :=
  build_mobile_continuity_bundle sample_state sample_registry sample_actions WaitingApproval
    ApprovalResolved 7 (Some sample_approval) (Some sample_retry).
Definition sample_bundle : MobileContinuityBundle :=
  ok_default (mkBundle [] Interactive Reboot 0 [] [] [] None None) sample_build.
Definition sample_session : RestoredMobileSession unit :=
  mkSession sample_state (mkFabric sample_registry ∅ sample_actions) WaitingApproval ApprovalResolved 7
    (Some sample_approval) (Some sample_retry).
Lemma sample_built : sample_build = Ok sample_bundle.
Proof. vm_compute. reflexivity. Qed.

Lemma sample_parts : parts_typed sample_state sample_registry sample_actions.
Proof.
  split; [split; [apply sample_typed|apply sample_inv]| |].
  - split.
    + apply (snapshot_wf (descriptors sample_registry)). vm_compute. reflexivity.
    + apply map_Forall_insert_2; [|apply map_Forall_empty]. split_and!; [by vm_compute..|repeat constructor].
  - assert (plans_typed sample_actions) as Hp.
    { apply map_Forall_singleton. split; [|by vm_compute].
      repeat (first [apply Forall_cons_2 | apply Forall_nil_2 | split]); vm_compute; done. }
    split; [|done]. by apply state_fabric_typed.
Qed.

Definition sample_bytes : bytes := ok_default [] (encode_mobile_continuity_bundle sample_bundle).
Lemma sample_encoded : encode_mobile_continuity_bundle sample_bundle = Ok sample_bytes.
Proof. vm_compute. reflexivity. Qed.

Lemma continuity_round_trip_witness :
  restore_mobile_continuity_bundle (A:=unit) sample_bundle = Ok sample_session ∧
  ∃ bs, encode_mobile_continuity_bundle sample_bundle = Ok bs ∧
        decode_mobile_continuity_bundle bs = Ok sample_bundle.
Proof.
  destruct (continuity_round_trip unit sample_state sample_registry sample_actions WaitingApproval
    ApprovalResolved 7 (Some sample_approval) (Some sample_retry) sample_bundle
    sample_parts sample_positive ltac:(by vm_compute) ltac:(by vm_compute) ltac:(by vm_compute) sample_built)
    as [Hcodec Hrestore].
  split; [exact Hrestore|]. exists sample_bytes. split; [exact sample_encoded|].
  exact (Hcodec sample_bytes sample_encoded).
Defined.

Lemma sample_restored : restore_mobile_continuity_bundle (A:=unit) sample_bundle = Ok sample_session.
Proof. vm_compute. reflexivity. Qed.
Lemma restored_session_consistent_witness : session_wf sample_session.
Proof. exact (restored_session_consistent unit sample_bundle sample_session sample_restored). Defined.
End ContinuityTheorems.
