(* ===== verification/Float32.v ===== *)
(** Rust's [f32] as the binary32 of the specification of floating-point
    arithmetic in the Standard Library (one NaN, no payloads), with the
    conversions the tensor code uses.

    Addition, multiplication, division and square root are those of IEEE 754.
    [exp], [sin], [cos] and [powf] are functions of the platform whose precision
    Rust leaves open: they are a class. *)
From Stdlib Require Import SpecFloat.
From S2P Require Import Prelude.

Abbreviation f32 := spec_float.
#[export] Instance spec_float_eq_dec : EqDecision spec_float.
Proof. solve_decision. Defined.

Definition f32_prec : Z := 24.
Definition f32_emax : Z := 128.
Definition f32_zero : f32 := S754_zero false.
Definition f32_neg_infinity : f32 := S754_infinity true.

Definition f32_add : f32 → f32 → f32 := SFadd f32_prec f32_emax.
Definition f32_sub : f32 → f32 → f32 := SFsub f32_prec f32_emax.
Definition f32_mul : f32 → f32 → f32 := SFmul f32_prec f32_emax.
Definition f32_div : f32 → f32 → f32 := SFdiv f32_prec f32_emax.
Definition f32_sqrt : f32 → f32 := SFsqrt f32_prec f32_emax.
Definition f32_neg : f32 → f32 := SFopp.
Definition f32_lt : f32 → f32 → bool := SFltb.
Definition f32_le : f32 → f32 → bool := SFleb.
Definition f32_eq : f32 → f32 → bool := SFeqb.

(** [z as f32]: rounded to nearest, ties to even. *)
Definition f32_of_Z (z : Z) : f32 := binary_normalize f32_prec f32_emax z 0 false.
(** The dyadic number [m * 2 ^ e]. *)
Definition f32_dyadic (m e : Z) : f32 := binary_normalize f32_prec f32_emax m e false.
Definition f32_one : f32 := f32_of_Z 1.

(** [f32::from_bits]. *)
Definition f32_from_bits (bits : Z) : f32 :=
  let s := Z.testbit bits 31 in
  let e := Z.land (Z.shiftr bits 23) 255 in
  let m := Z.land bits (2 ^ 23 - 1) in
  if e =? 255 then if m =? 0 then S754_infinity s else S754_nan
  else if e =? 0 then match m with Zpos p => S754_finite s p (-149) | _ => S754_zero s end
  else match m + 2 ^ 23 with Zpos p => S754_finite s p (e - 150) | _ => S754_nan end.

Definition f32_is_nan (x : f32) : bool := match x with S754_nan => true | _ => false end.
Definition f32_is_finite (x : f32) : bool :=
  match x with S754_zero _ | S754_finite _ _ _ => true | _ => false end.

(** The integer part of a finite number, towards zero. *)
Definition f32_trunc (x : f32) : Z :=
  match x with
  | S754_finite s m e =>
      let a := if 0 <=? e then Zpos m * 2 ^ e else Zpos m / 2 ^ (- e) in
      if s then - a else a
  | _ => 0
  end.
(** [x.fract() != 0.0], on finite numbers. *)
Definition f32_has_fract (x : f32) : bool :=
  match x with
  | S754_finite _ m e => if 0 <=? e then false else negb (Zpos m mod 2 ^ (- e) =? 0)
  | _ => false
  end.
(** [x as usize]: saturating, and 0 for NaN. *)
Definition f32_as_usize (x : f32) : Z :=
  match x with
  | S754_infinity false => 2 ^ 64 - 1
  | S754_finite _ _ _ => Z.min (Z.max (f32_trunc x) 0) (2 ^ 64 - 1)
  | _ => 0
  end.

(** [f32::max]: the other operand when one is NaN. *)
Definition f32_max (a b : f32) : f32 :=
  if f32_is_nan a then b else if f32_is_nan b then a else if f32_lt a b then b else a.
(** [iter().sum::<f32>()]. *)
Definition f32_sum (l : list f32) : f32 := foldl f32_add (S754_zero true) l.

(** [f32::clamp(min, max)]; a NaN stays a NaN. *)
Definition f32_clamp (x lo hi : f32) : f32 :=
  let x := if f32_lt x lo then lo else x in if f32_lt hi x then hi else x.

(** [f32::to_bits]; the NaN is the quiet one. *)
Definition f32_to_bits (x : f32) : Z :=
  let sign (s : bool) := if s then 2 ^ 31 else 0 in
  match x with
  | S754_zero s => sign s
  | S754_infinity s => sign s + 0x7f800000
  | S754_nan => 0x7fc00000
  | S754_finite s m e => sign s + if 2 ^ 23 <=? Zpos m then (e + 149) * 2 ^ 23 + Zpos m else Zpos m
  end.
(** [f32::total_cmp]: the bits as a signed integer, the negative ones reversed. *)
Definition f32_total_key (x : f32) : Z :=
  let bits := f32_to_bits x in if bits <? 2 ^ 31 then bits else 2 ^ 31 - 1 - bits.
Definition f32_total_cmp (a b : f32) : comparison := f32_total_key a ?= f32_total_key b.

(** [f64] and the conversions. *)
Abbreviation f64 := spec_float.
Definition f64_prec : Z := 53.
Definition f64_emax : Z := 1024.
Definition f64_add : f64 → f64 → f64 := SFadd f64_prec f64_emax.
Definition f64_div : f64 → f64 → f64 := SFdiv f64_prec f64_emax.
Definition f64_of_Z (z : Z) : f64 := binary_normalize f64_prec f64_emax z 0 false.
Definition convert (prec emax : Z) (x : spec_float) : spec_float :=
  match x with
  | S754_finite s m e => binary_normalize prec emax (if s then Zneg m else Zpos m) e s
  | _ => x
  end.
(** [f64::from_bits] *)
Definition f64_from_bits (bits : Z) : f64 :=
  let s := Z.testbit bits 63 in
  let e := Z.land (Z.shiftr bits 52) 2047 in
  let m := Z.land bits (2 ^ 52 - 1) in
  if e =? 2047 then if m =? 0 then S754_infinity s else S754_nan
  else if e =? 0 then match m with Zpos p => S754_finite s p (-1074) | _ => S754_zero s end
  else match m + 2 ^ 52 with Zpos p => S754_finite s p (e - 1075) | _ => S754_nan end.
Definition f64_is_finite (x : f64) : bool := f32_is_finite x.
Definition f64_of_f32 (x : f32) : f64 := convert f64_prec f64_emax x.
Definition f32_of_f64 (x : f64) : f32 := convert f32_prec f32_emax x.

Class Libm := {
  f32_exp : f32 → f32;
  f32_sin : f32 → f32;
  f32_cos : f32 → f32;
  f32_powf : f32 → f32 → f32;
}.

(** The natural logarithms, of the platform like the functions above. *)
Class Logarithms := {
  f32_ln : f32 → f32;
  f64_ln : f64 → f64;
}.

Lemma f32_as_usize_range x : in_u64 (f32_as_usize x).
Proof. unfold in_u64. destruct x as [|[]| |]; unfold f32_as_usize; lia. Qed.

Example f32_one_tenth : f32_div f32_one (f32_of_Z 10) = f32_from_bits 0x3dcccccd.
Proof. vm_compute. reflexivity. Qed.
Example f32_bits_one_tenth : f32_to_bits (f32_from_bits 0x3dcccccd) = 0x3dcccccd.
Proof. vm_compute. reflexivity. Qed.
Example f32_total_order : map (λ x, f32_total_key (f32_from_bits x)) [0xff800000; 0x80000000; 0; 1] =
  [-0x7f800001; -1; 0; 1].
Proof. vm_compute. reflexivity. Qed.
