(* ===== verification/Tensor.v ===== *)
(** Tensors and the reference kernels: src/crates/ntd-runtime/src/tensor.rs.

    A kernel reads and writes its data by computed indices; an index out of
    range, a division by zero, or a reservation of more bytes than [isize::MAX]
    ([with_capacity]) is [Panic]. *)
From S2P Require Import Prelude Float32 Ir.

Module TensorOps.

(** The struct [Tensor]; [shape] and [data] are its fields. *)
Record Tensor := mkTensor {
  shape : list Z;
  data : list f32;
}.
#[export] Instance Tensor_eq_dec : EqDecision Tensor.
Proof. solve_decision. Defined.

Inductive QuantizationParams :=
| QNone
| QSymmetricI8 (scale : f32)
| QAffineI8 (scale : f32) (zero_point : Z).

Inductive TensorLoadError :=
| LoadInvalidShape
| ByteLengthMismatch (expected actual : Z)
| LoadInvalidQuantization
| UnsupportedQuantizationDType (dtype : DType)
| LoadInvalidBool (value : Z).

Inductive TensorError :=
| InvalidShape
| ElementCountMismatch (expected actual : Z)
| Arity (expected actual : Z)
| ShapeMismatch
| UnsupportedOp (op : TensorOp)
| InvalidIndex
| NoProvider.

Notation tensor_result := (result TensorError).

(** ** Shapes *)
Definition element_count_usize (s : list Z) : tensor_result Z :=
  fold_result (λ count d, ok_or (checked_mul_usize count d) InvalidShape) 1 s.
Definition Tensor_new (s : list Z) (d : list f32) : tensor_result Tensor :=
  let? expected := element_count_usize s in
  if negb (len d =? expected) then Err (ElementCountMismatch expected (len d)) else Ok (mkTensor s d).
Definition Tensor_scalar (value : f32) : Tensor := mkTensor [] [value].
Definition rank (self : Tensor) : Z := len (shape self).

Definition require_arity (inputs : list Tensor) (expected : Z) : tensor_result unit :=
  if len inputs =? expected then Ok tt else Err (Arity expected (len inputs)).

(** [l[i]] and [l[i] = x] for an index [i] of type [usize]. *)
Definition at_index {E A} (l : list A) (i : Z) : result E A := or_panic (l !! Z.to_nat i).
Definition set_index {E A} (l : list A) (i : Z) (x : A) : result E (list A) :=
  if i <? len l then Ok (<[Z.to_nat i := x]> l) else Panic.
(** [0..n] *)
Definition upto (n : Z) : list Z := map Z.of_nat (seq 0 (Z.to_nat n)).
(** [for i in from..to] *)
Definition range (from to : Z) : list Z := map (λ i, from + i) (upto (to - from)).

(** ** Loading *)
Definition dtype_width (dtype : DType) : Z :=
  match dtype with
  | F32 | I32 => 4
  | F16 | Bf16 => 2
  | I64 => 8
  | I8 | U8 | Bool_ => 1
  end.

(** [value as i8], [i32::from_le_bytes] and [i64::from_le_bytes]. *)
Definition signed_of (n : Z) (z : Z) : Z := if z <? 2 ^ (n - 1) then z else z - 2 ^ n.

(** The loop of [f16_to_f32] over a subnormal fraction: at most ten turns. *)
Fixpoint normalize_f16 (fuel : nat) (frac exp : Z) : Z * Z :=
  match fuel with
  | O => (frac, exp)
  | S fuel' =>
      if Z.land frac 0x400 =? 0 then normalize_f16 fuel' (Z.shiftl frac 1) (exp - 1) else (frac, exp)
  end.
Definition f16_bits_to_f32_bits (bits : Z) : Z :=
  let sign := Z.shiftl (Z.land bits 0x8000) 16 in
  let exponent := Z.land (Z.shiftr bits 10) 0x1f in
  let fraction := Z.land bits 0x3ff in
  if exponent =? 0 then
    if fraction =? 0 then sign
    else
      let '(frac, exp) := normalize_f16 10 fraction (-14) in
      let frac := Z.land frac 0x3ff in
      let f32_exp := if 0 <=? exp + 127 then exp + 127 else 0 in
      Z.lor (Z.lor sign (Z.shiftl f32_exp 23)) (Z.shiftl frac 13)
  else if exponent =? 0x1f then Z.lor (Z.lor sign 0x7f800000) (Z.shiftl fraction 13)
  else Z.lor (Z.lor sign (Z.shiftl (exponent + 112) 23)) (Z.shiftl fraction 13).
Definition f16_to_f32 (bits : Z) : f32 := f32_from_bits (f16_bits_to_f32_bits bits).

(** [bytes.chunks_exact(n)]. *)
Fixpoint chunks_exact_fuel {A} (fuel n : nat) (l : list A) : list (list A) :=
  match fuel with
  | O => []
  | S fuel' => if (length l <? n)%nat then [] else take n l :: chunks_exact_fuel fuel' n (drop n l)
  end.
Definition chunks_exact {A} (n : Z) (l : list A) : list (list A) :=
  chunks_exact_fuel (length l) (Z.to_nat n) l.

Definition decode_bool (value : byte) : result TensorLoadError f32 :=
  if Z_of_byte value =? 0 then Ok f32_zero
  else if Z_of_byte value =? 1 then Ok f32_one
  else Err (LoadInvalidBool (Z_of_byte value)).

Definition decode_unquantized (dtype : DType) (elements : Z) (bs : bytes)
  : result TensorLoadError (list f32) :=
  let width := dtype_width dtype in
  let? expected := ok_or (checked_mul_usize elements width) LoadInvalidShape in
  if negb (len bs =? expected) then Err (ByteLengthMismatch expected (len bs))
  else
    let? _ := with_capacity 4 elements in
    match dtype with
    | F32 => Ok (map (λ c, f32_from_bits (from_le c)) (chunks_exact 4 bs))
    | F16 => Ok (map (λ c, f16_to_f32 (from_le c)) (chunks_exact 2 bs))
    | Bf16 => Ok (map (λ c, f32_from_bits (Z.shiftl (from_le c) 16)) (chunks_exact 2 bs))
    | I8 => Ok (map (λ b, f32_of_Z (signed_of 8 (Z_of_byte b))) bs)
    | U8 => Ok (map (λ b, f32_of_Z (Z_of_byte b)) bs)
    | I32 => Ok (map (λ c, f32_of_Z (signed_of 32 (from_le c))) (chunks_exact 4 bs))
    | I64 => Ok (map (λ c, f32_of_Z (signed_of 64 (from_le c))) (chunks_exact 8 bs))
    | Bool_ => map_result decode_bool bs
    end.

Definition decode_i8_quantized (elements : Z) (bs : bytes) (scale : f32) (zero_point : Z)
  : result TensorLoadError (list f32) :=
  if negb (len bs =? elements) then Err (ByteLengthMismatch elements (len bs))
  else Ok (map (λ b, f32_mul (f32_of_Z (signed_of 8 (Z_of_byte b) - zero_point)) scale) bs).

Definition validate_scale (scale : f32) : result TensorLoadError unit :=
  if f32_is_finite scale && f32_lt f32_zero scale then Ok tt else Err LoadInvalidQuantization.

Definition TensorLoader_load (dtype : DType) (s : list Z) (quantization : QuantizationParams)
    (bs : bytes) : result TensorLoadError Tensor :=
  let? s := map_result (λ d, ok_or (try_usize d) LoadInvalidShape) s in
  let? elements := map_err (λ _, LoadInvalidShape) (element_count_usize s) in
  if match quantization with QNone => false | _ => negb (bool_decide (dtype = I8)) end
  then Err (UnsupportedQuantizationDType dtype)
  else
    let? d :=
      match quantization with
      | QNone => decode_unquantized dtype elements bs
      | QSymmetricI8 scale =>
          let? _ := validate_scale scale in decode_i8_quantized elements bs scale 0
      | QAffineI8 scale zero_point =>
          let? _ := validate_scale scale in
          if negb ((-128 <=? zero_point) && (zero_point <=? 127)) then Err LoadInvalidQuantization
          else decode_i8_quantized elements bs scale zero_point
      end in
    map_err (λ _, LoadInvalidShape) (Tensor_new s d).

(** ** Kernels *)
Definition elementwise_binary (inputs : list Tensor) (op : f32 → f32 → f32) : tensor_result Tensor :=
  let? _ := require_arity inputs 2 in
  let? a := at_index inputs 0 in
  let? b := at_index inputs 1 in
  if negb (bool_decide (shape a = shape b)) then Err ShapeMismatch
  else Tensor_new (shape a) (zip_with op (data a) (data b)).

(** [sum += lhs[row * k + inner] * rhs[inner * n + col]] *)
Definition mul_add (lhs rhs : list f32) (k n row col : Z) (sum : f32) (inner : Z) : tensor_result f32 :=
  let? a := at_index lhs (row * k + inner) in
  let? b := at_index rhs (inner * n + col) in
  Ok (f32_add sum (f32_mul a b)).

(** The two outer loops of a product of matrices, around the computation of one
    element. *)
Definition fill_matrix (m n : Z) (element : Z → Z → tensor_result f32) (out : list f32)
  : tensor_result (list f32) :=
  fold_result (λ out row,
    fold_result (λ out col, let? sum := element row col in set_index out (row * n + col) sum)
      out (upto n)) out (upto m).

Definition matrix_dims (lhs rhs : Tensor) : tensor_result (Z * Z * Z) :=
  match shape lhs, shape rhs with
  | [m; k], [k'; n] => if negb (k =? k') then Err ShapeMismatch else Ok (m, k, n)
  | _, _ => Err ShapeMismatch
  end.

Definition matmul (inputs : list Tensor) : tensor_result Tensor :=
  let? _ := require_arity inputs 2 in
  let? lhs := at_index inputs 0 in
  let? rhs := at_index inputs 1 in
  let? '(m, k, n) := matrix_dims lhs rhs in
  let? output_len := ok_or (checked_mul_usize m n) InvalidShape in
  let? _ := with_capacity 4 output_len in
  let? d := fill_matrix m n (λ row col,
              fold_result (mul_add (data lhs) (data rhs) k n row col) f32_zero (upto k))
              (replicate (Z.to_nat output_len) f32_zero) in
  Tensor_new [m; n] d.

(** [*shape.last()?], which must not be 0. *)
Definition last_width (t : Tensor) : tensor_result Z :=
  let? width := ok_or (last (shape t)) InvalidShape in
  if width =? 0 then Err InvalidShape else Ok width.

Definition norm_weight (inputs : list Tensor) (width : Z) : tensor_result (option Tensor) :=
  if 2 <=? len inputs then
    let? weight := at_index inputs 1 in
    if negb (bool_decide (shape weight = [width])) then Err ShapeMismatch else Ok (Some weight)
  else Ok None.
(** [1.0e-5]. *)
Definition default_epsilon : f32 := f32_from_bits 0x3727c5ac.
Definition norm_epsilon (inputs : list Tensor) : tensor_result f32 :=
  if len inputs =? 3 then
    let? epsilon := at_index inputs 2 in
    if negb (rank epsilon =? 0) || negb (len (data epsilon) =? 1) then Err ShapeMismatch
    else
      let? value := at_index (data epsilon) 0 in
      if negb (f32_is_finite value) || f32_le value f32_zero then Err InvalidShape else Ok value
  else Ok default_epsilon.

Definition norm_row (weight : option Tensor) (width : Z) (epsilon : f32) (row : list f32)
  : tensor_result (list f32) :=
  let mean_square := f32_div (f32_sum (map (λ v, f32_mul v v) row)) (f32_of_Z width) in
  let inv_rms := f32_div f32_one (f32_sqrt (f32_add mean_square epsilon)) in
  map_result (λ p,
    let? scale := match weight with Some t => at_index (data t) p.1 | None => Ok f32_one end in
    Ok (f32_mul (f32_mul p.2 inv_rms) scale)) (enumerate row).

Definition rms_norm (inputs : list Tensor) : tensor_result Tensor :=
  if bool_decide (inputs = []) || (3 <? len inputs) then Err (Arity 3 (len inputs))
  else
    let? input := at_index inputs 0 in
    let? width := last_width input in
    let? weight := norm_weight inputs width in
    let? epsilon := norm_epsilon inputs in
    let? rows := map_result (norm_row weight width epsilon) (chunks_exact width (data input)) in
    Tensor_new (shape input) (concat rows).

(** [*raw_index], checked to be a natural number. *)
Definition natural_index (raw : f32) : tensor_result Z :=
  if negb (f32_is_finite raw) || f32_lt raw f32_zero || f32_has_fract raw then Err InvalidIndex
  else Ok (f32_as_usize raw).

Definition gather (inputs : list Tensor) : tensor_result Tensor :=
  let? _ := require_arity inputs 2 in
  let? table := at_index inputs 0 in
  let? indices := at_index inputs 1 in
  match shape table, shape indices with
  | [rows; width], [_] =>
      let? capacity := ok_or (checked_mul_usize (len (data indices)) width) InvalidShape in
      let? _ := with_capacity 4 capacity in
      let? parts := map_result (λ raw,
        let? row := natural_index raw in
        if rows <=? row then Err InvalidIndex
        else
          let? start := ok_or (checked_mul_usize row width) InvalidShape in
          let? end_ := ok_or (checked_add_usize start width) InvalidShape in
          slice (data table) start end_) (data indices) in
      Tensor_new [len (data indices); width] (concat parts)
  | _, _ => Err ShapeMismatch
  end.

Section libm.
Context `{Libm}.

Definition softmax_row (row : list f32) : list f32 :=
  let max := foldl f32_max f32_neg_infinity row in
  let exp := map (λ v, f32_exp (f32_sub v max)) row in
  let sum := f32_sum exp in
  map (λ v, f32_div v sum) exp.
Definition softmax (inputs : list Tensor) : tensor_result Tensor :=
  let? _ := require_arity inputs 1 in
  let? input := at_index inputs 0 in
  let? width := last_width input in
  Tensor_new (shape input) (concat (map softmax_row (chunks_exact width (data input)))).

(** One pair of one head of one position. *)
Definition rotate_pair (source : list f32) (width base : Z) (position : f32) (d : list f32) (pair : Z)
  : tensor_result (list f32) :=
  let even := pair * 2 in
  let exponent := f32_div (f32_neg (f32_of_Z even)) (f32_of_Z width) in
  let theta := f32_mul position (f32_powf (f32_of_Z 10000) exponent) in
  let cos := f32_cos theta in
  let sin := f32_sin theta in
  let? left := at_index source (base + even) in
  let? right := at_index source (base + even + 1) in
  let? d := set_index d (base + even) (f32_sub (f32_mul left cos) (f32_mul right sin)) in
  set_index d (base + even + 1) (f32_add (f32_mul left sin) (f32_mul right cos)).

Definition rotary_position (inputs : list Tensor) : tensor_result Tensor :=
  let? _ := require_arity inputs 2 in
  let? input := at_index inputs 0 in
  let? positions := at_index inputs 1 in
  match shape input, shape positions with
  | [sequence; heads; width], [_] =>
      if negb (len (data positions) =? sequence) || (width =? 0) || negb (width mod 2 =? 0)
      then Err ShapeMismatch
      else
        let? d := fold_result (λ d position_index,
          let? position := at_index (data positions) position_index in
          if negb (f32_is_finite position) || f32_lt position f32_zero then Err InvalidIndex
          else fold_result (λ d head,
            fold_result (rotate_pair (data input) width ((position_index * heads + head) * width) position)
              d (upto (width / 2))) d (upto heads)) (data input) (upto sequence) in
        Tensor_new (shape input) d
  | _, _ => Err ShapeMismatch
  end.

(** The score of one key for one query. *)
Definition attention_score (query key : list f32) (query_base key_base width : Z)
  : tensor_result f32 :=
  let? dot := fold_result (λ dot offset,
    let? q := at_index query (query_base + offset) in
    let? k := at_index key (key_base + offset) in
    Ok (f32_add dot (f32_mul q k))) f32_zero (upto width) in
  Ok (f32_div dot (f32_sqrt (f32_of_Z width))).
Definition attention_weights (scores : list f32) : list f32 :=
  let max := foldl f32_max f32_neg_infinity scores in
  let weights := map (λ s, f32_exp (f32_sub s max)) scores in
  map (λ w, f32_div w (f32_sum weights)) weights.
(** One query head at one position. *)
Definition attend (query key value : Tensor) (query_heads kv_heads width query_position query_head : Z)
    (output : list f32) : tensor_result (list f32) :=
  let kv_head := query_head / (query_heads / kv_heads) in
  let query_base := (query_position * query_heads + query_head) * width in
  let kv_base key_position := (key_position * kv_heads + kv_head) * width in
  let? scores := map_result (λ key_position,
    attention_score (data query) (data key) query_base (kv_base key_position) width)
    (upto (query_position + 1)) in
  fold_result (λ output p,
    fold_result (λ output offset,
      let? v := at_index (data value) (kv_base p.1 + offset) in
      let? o := at_index output (query_base + offset) in
      set_index output (query_base + offset) (f32_add o (f32_mul v p.2))) output (upto width))
    output (enumerate (attention_weights scores)).

Definition causal_attention (inputs : list Tensor) : tensor_result Tensor :=
  let? _ := require_arity inputs 3 in
  let? query := at_index inputs 0 in
  let? key := at_index inputs 1 in
  let? value := at_index inputs 2 in
  match shape query, shape key, shape value with
  | [sequence; query_heads; width], [key_sequence; kv_heads; key_width], [_; _; _] =>
      if negb (bool_decide (shape key = shape value)) || negb (sequence =? key_sequence)
         || negb (width =? key_width)
      then Err ShapeMismatch
      else if (width =? 0) || (kv_heads =? 0) || (query_heads =? 0)
              || negb (query_heads mod kv_heads =? 0)
      then Err ShapeMismatch
      else
        let? output := fold_result (λ output query_position,
          fold_result (λ output query_head,
            attend query key value query_heads kv_heads width query_position query_head output)
            output (upto query_heads))
          (replicate (length (data query)) f32_zero) (upto sequence) in
        Tensor_new (shape query) output
  | _, _, _ => Err ShapeMismatch
  end.

Definition silu (inputs : list Tensor) : tensor_result Tensor :=
  let? _ := require_arity inputs 1 in
  let? input := at_index inputs 0 in
  Tensor_new (shape input)
    (map (λ v, f32_div v (f32_add f32_one (f32_exp (f32_neg v)))) (data input)).
End libm.

(** The loop of [reshape]: the shape so far, the axis to infer and the product
    of the known dimensions. *)
Definition reshape_step (input : Tensor) (st : list Z * option Z * Z) (p : Z * f32)
  : tensor_result (list Z * option Z * Z) :=
  let '(s, inferred, known_product) := st in
  let '(index, raw) := p in
  if negb (f32_is_finite raw) || f32_has_fract raw then Err InvalidShape
  else if f32_eq raw (f32_of_Z (-1)) then
    match inferred with
    | Some _ => Err InvalidShape
    | None => Ok (s ++ [1], Some index, known_product)
    end
  else
    let? dimension :=
      if f32_eq raw f32_zero then ok_or (shape input !! Z.to_nat index) InvalidShape
      else if f32_lt f32_zero raw then Ok (f32_as_usize raw)
      else Err InvalidShape in
    if dimension =? 0 then Err InvalidShape
    else
      let? known_product := ok_or (checked_mul_usize known_product dimension) InvalidShape in
      Ok (s ++ [dimension], inferred, known_product).

Definition reshape (inputs : list Tensor) : tensor_result Tensor :=
  let? _ := require_arity inputs 2 in
  let? input := at_index inputs 0 in
  let? shape_spec := at_index inputs 1 in
  if negb (rank shape_spec =? 1) || bool_decide (data shape_spec = []) then Err ShapeMismatch
  else
    let input_elements := len (data input) in
    let? '(s, inferred, known_product) :=
      fold_result (reshape_step input) ([], None, 1) (enumerate (data shape_spec)) in
    let? s :=
      match inferred with
      | Some index =>
          if (known_product =? 0) || negb (input_elements mod known_product =? 0)
          then Err ShapeMismatch
          else
            let dimension := input_elements / known_product in
            if dimension =? 0 then Err InvalidShape else set_index s index dimension
      | None => if negb (known_product =? input_elements) then Err ShapeMismatch else Ok s
      end in
    Tensor_new s (data input).

Definition position_ids (inputs : list Tensor) : tensor_result Tensor :=
  let? _ := require_arity inputs 1 in
  let? input := at_index inputs 0 in
  if negb (rank input =? 1) then Err ShapeMismatch
  else
    let? n := at_index (shape input) 0 in
    Tensor_new [n] (map f32_of_Z (upto n)).

(** The strides, and the product of the dimensions to the right of them. *)
Fixpoint strides_from (s : list Z) : tensor_result (list Z * Z) :=
  match s with
  | [] => Ok ([], 1)
  | d :: s =>
      let? '(strides, running) := strides_from s in
      let? next := ok_or (checked_mul_usize running d) InvalidShape in
      Ok (running :: strides, next)
  end.
Definition row_major_strides (s : list Z) : tensor_result (list Z) :=
  let? p := strides_from s in Ok p.1.

(** One axis: the axes so far; [seen[axis]] is that it is one of them. *)
Definition read_axis (rank_ : Z) (axes : list Z) (raw : f32) : tensor_result (list Z) :=
  let? axis := natural_index raw in
  if (rank_ <=? axis) || bool_decide (axis ∈ axes) then Err InvalidIndex else Ok (axes ++ [axis]).

(** The index of the input an index of the output comes from. *)
Definition source_index (axes input_strides output_strides : list Z) (rank_ output_index : Z)
  : tensor_result Z :=
  let? '(_, input_index) := fold_result (λ st output_axis,
    let '(remainder, input_index) := st in
    let? stride := at_index output_strides output_axis in
    if stride =? 0 then Panic
    else
      let coordinate := remainder / stride in
      let? input_axis := at_index axes output_axis in
      let? input_stride := at_index input_strides input_axis in
      let? part := ok_or (checked_mul_usize coordinate input_stride) InvalidShape in
      let? input_index := ok_or (checked_add_usize input_index part) InvalidShape in
      Ok (remainder mod stride, input_index)) (output_index, 0) (upto rank_) in
  Ok input_index.

Definition transpose (inputs : list Tensor) : tensor_result Tensor :=
  let? _ := require_arity inputs 2 in
  let? input := at_index inputs 0 in
  let? permutation := at_index inputs 1 in
  let r := rank input in
  if (r =? 0) || negb (rank permutation =? 1) || negb (len (data permutation) =? r)
  then Err ShapeMismatch
  else
    let? axes := fold_result (read_axis r) [] (data permutation) in
    let? output_shape := map_result (at_index (shape input)) axes in
    let? input_strides := row_major_strides (shape input) in
    let? output_strides := row_major_strides output_shape in
    let? d := map_result (λ output_index,
      let? input_index := source_index axes input_strides output_strides r output_index in
      at_index (data input) input_index) (upto (len (data input))) in
    Tensor_new output_shape d.

(** [CpuReferenceProvider::execute]. *)
Definition cpu_reference `{Libm} (op : TensorOp) (inputs : list Tensor) : tensor_result (list Tensor) :=
  let? output :=
    match op with
    | Add => elementwise_binary inputs f32_add
    | Mul => elementwise_binary inputs f32_mul
    | MatMul | QuantizedMatMul => matmul inputs
    | RmsNorm => rms_norm inputs
    | Softmax => softmax inputs
    | Gather => gather inputs
    | RotaryPosition => rotary_position inputs
    | CausalAttention => causal_attention inputs
    | Silu => silu inputs
    | Reshape => reshape inputs
    | Transpose => transpose inputs
    | PositionIds => position_ids inputs
    end in
  Ok [output].
End TensorOps.
