(* ===== verification/TensorTheorems.v ===== *)
(** What the reference kernels return on well-formed tensors, and when they
    panic; the conversion of half-precision numbers is exact. *)
From Stdlib Require Import SpecFloat.
From S2P Require Import Prelude Float32 Ir Tensor.

Module TensorTheorems.
Import TensorOps.

(** ** Outcomes that satisfy a predicate and are no panic *)
Definition yields {E A} (P : A → Prop) (m : result E A) : Prop :=
  match m with Ok a => P a | Err _ => True | Panic => False end.

Section yields.
Context {E : Type}.

Lemma yields_impl {A} (P Q : A → Prop) (m : result E A) :
  yields P m → (∀ a, P a → Q a) → yields Q m.
Proof. destruct m; cbn; auto. Qed.
Lemma yields_bind {A B} (P : A → Prop) (Q : B → Prop) (m : result E A) (k : A → result E B) :
  yields P m → (∀ a, P a → m = Ok a → yields Q (k a)) → yields Q (let? a := m in k a).
Proof. destruct m; cbn; auto. Qed.
Lemma yields_ok_or {A} (P : A → Prop) (o : option A) (e : E) :
  (∀ a, o = Some a → P a) → yields P (ok_or o e).
Proof. destruct o; cbn; auto. Qed.
Lemma yields_at {A} (P : A → Prop) (l : list A) i :
  0 ≤ i < len l → (∀ a, l !! Z.to_nat i = Some a → P a) → yields (E:=E) P (at_index l i).
Proof.
  intros Hi HP. unfold at_index. destruct (l !! Z.to_nat i) as [a|] eqn:Ha; [by apply HP|].
  apply lookup_ge_None in Ha. unfold len in Hi. lia.
Qed.
Lemma yields_set {A} (l : list A) i x :
  0 ≤ i < len l → yields (E:=E) (λ l', len l' = len l) (set_index l i x).
Proof.
  intros Hi. unfold set_index. destruct (Z.ltb_spec i (len l)); [|lia]. cbn. unfold len.
  by rewrite length_insert.
Qed.
Lemma yields_fold {S A} (P : S → Prop) (f : S → A → result E S) s l :
  P s → (∀ s x, P s → x ∈ l → yields P (f s x)) → yields P (fold_result f s l).
Proof.
  revert s. induction l as [|x l IH]; intros s Hs Hf; cbn; [done|].
  pose proof (Hf s x Hs (list_elem_of_here _ _)) as Hx.
  destruct (f s x) as [s'| |]; [|done..]. apply IH; [done|]. intros s2 y ? ?. apply Hf; [done|by right].
Qed.
Lemma yields_map {A B} (P : B → Prop) (f : A → result E B) l :
  (∀ x, x ∈ l → yields P (f x)) →
  yields (λ ys, length ys = length l ∧ Forall P ys) (map_result f l).
Proof.
  induction l as [|x l IH]; intros Hf; cbn; [by split; [|constructor]|].
  pose proof (Hf x (list_elem_of_here _ _)) as Hx. destruct (f x) as [y| |]; [|done..].
  specialize (IH (λ y Hy, Hf y (list_elem_of_further _ _ _ Hy))).
  destruct (map_result f l); [|done..]. destruct IH. cbn. split; [lia|by constructor].
Qed.
Lemma yields_reserve {A} (P : A → Prop) width n (m : result E A) :
  width * n < 2 ^ 63 → yields P m → yields P (let? _ := with_capacity width n in m).
Proof. intros Hn Hm. by rewrite with_capacity_fits. Qed.
Lemma yields_true {A} (m : result E A) : yields (λ _, True) m ↔ no_panic m.
Proof. unfold no_panic. destruct m; cbn; split; (done || congruence). Qed.
End yields.

Lemma elem_of_upto i n : i ∈ upto n ↔ 0 ≤ i < n.
Proof.
  unfold upto. rewrite list_elem_of_fmap. setoid_rewrite elem_of_seq. split; [intros (j & -> & ?); lia|].
  intros ?. exists (Z.to_nat i). lia.
Qed.
Lemma len_upto n : 0 ≤ n → len (upto n) = n.
Proof. intros ?. unfold upto, len. rewrite length_map, length_seq. lia. Qed.

(** [i * n + j] as an index of an [m] by [n] matrix. *)
Lemma index_in_matrix i j m n : 0 ≤ i < m → 0 ≤ j < n → 0 ≤ i * n + j < m * n.
Proof. nia. Qed.

(** ** Well-formed tensors *)
Definition product (s : list Z) : Z := foldr Z.mul 1 s.
Record tensor_wf (t : Tensor) : Prop := {
  tw_dims : Forall (λ d, 0 ≤ d) (shape t);
  tw_data : len (data t) = product (shape t);
}.

Lemma product_nonneg s : Forall (λ d, 0 ≤ d) s → 0 ≤ product s.
Proof. induction 1; cbn; [lia|]. unfold product in *. nia. Qed.

Lemma element_count_from c s n :
  fold_result (λ count d, ok_or (checked_mul_usize count d) InvalidShape) c s = Ok n → n = c * product s.
Proof.
  revert c. induction s as [|d s IH]; intros c; cbn; [intros [= <-]; lia|].
  unfold checked_mul_usize, checked_mul_u64. destruct (Z.ltb_spec (c * d) (2 ^ 64)); cbn; [|done].
  intros ->%IH. unfold product. lia.
Qed.

Lemma element_count_yields s : yields (λ n, n = product s) (element_count_usize s).
Proof.
  unfold element_count_usize. destruct (fold_result _ 1 s) as [n| |] eqn:Hn; cbn; [|done|].
  - apply element_count_from in Hn. lia.
  - revert Hn. apply (yields_true (fold_result _ 1 s)). apply yields_fold; [done|].
    intros. by apply yields_ok_or.
Qed.

Lemma Tensor_new_yields s d :
  Forall (λ x, 0 ≤ x) s → yields (λ t, tensor_wf t ∧ shape t = s ∧ data t = d) (Tensor_new s d).
Proof.
  intros Hs. unfold Tensor_new. eapply yields_bind; [apply element_count_yields|].
  intros n -> _. destruct (Z.eqb_spec (len d) (product s)); cbn; [|done]. by split_and!.
Qed.

(** ** Reservations

    Two kernels reserve their output before they compute it, and its size is not
    the size of an input: a dimension of 0 makes room for any other. *)
Definition output_elements (op : TensorOp) (inputs : list Tensor) : option Z :=
  match op, inputs with
  | (MatMul | QuantizedMatMul), [a; b] =>
      match shape a, shape b with
      | [m; k], [k'; n] => if k =? k' then Some (m * n) else None
      | _, _ => None
      end
  | Gather, [a; b] =>
      match shape a, shape b with
      | [_; width], [_] => Some (len (data b) * width)
      | _, _ => None
      end
  | _, _ => None
  end.
(** The number of elements fits a usize, and their bytes are above [isize::MAX]. *)
Definition reservation_overflows (op : TensorOp) (inputs : list Tensor) : bool :=
  match output_elements op inputs with
  | Some n => (n <? 2 ^ 64) && (2 ^ 63 <=? 4 * n)
  | None => false
  end.

Lemma reservation_fits op inputs n :
  reservation_overflows op inputs = false → output_elements op inputs = Some n → n < 2 ^ 64 → 4 * n < 2 ^ 63.
Proof.
  unfold reservation_overflows. intros Hr E Hn. rewrite E in Hr. apply andb_false_iff in Hr as [?%Z.ltb_ge|?%Z.leb_gt]; lia.
Qed.
Lemma reservation_overflows_inv op inputs :
  reservation_overflows op inputs = true →
  ∃ n, output_elements op inputs = Some n ∧ n < 2 ^ 64 ∧ 2 ^ 63 ≤ 4 * n.
Proof.
  unfold reservation_overflows. destruct (output_elements op inputs) as [n|]; [|done].
  intros [?%Z.ltb_lt ?%Z.leb_le]%andb_true_iff. by exists n.
Qed.

(** ** Kernels

    [kernel_ok shapes inputs m]: the kernel does not panic, and a tensor it
    returns is well formed and has a shape [shapes] allows. *)
Notation kernel_ok Q := (yields (λ t, tensor_wf t ∧ Q t)).

Lemma require_arity_yields inputs n : yields (λ _, len inputs = n) (require_arity inputs n).
Proof. unfold require_arity. by destruct (Z.eqb_spec (len inputs) n). Qed.

(** Two inputs, read. *)
Lemma two_inputs a b :
  require_arity [a; b] 2 = Ok tt ∧ at_index (E:=TensorError) [a; b] 0 = Ok a ∧ at_index (E:=TensorError) [a; b] 1 = Ok b.
Proof. done. Qed.

Lemma arity_1 inputs (k : Tensor → tensor_result Tensor) Q :
  (∀ a, inputs = [a] → yields Q (k a)) →
  yields Q (let? _ := require_arity inputs 1 in let? a := at_index inputs 0 in k a).
Proof.
  intros Hk. eapply yields_bind; [apply require_arity_yields|]. intros u Hl _. cbn beta in Hl. clear u.
  destruct inputs as [|a [|? ?]]; try (unfold len in Hl; cbn in Hl; lia). by apply Hk.
Qed.
Lemma arity_2 inputs (k : Tensor → Tensor → tensor_result Tensor) Q :
  (∀ a b, inputs = [a; b] → yields Q (k a b)) →
  yields Q (let? _ := require_arity inputs 2 in let? a := at_index inputs 0 in
            let? b := at_index inputs 1 in k a b).
Proof.
  intros Hk. eapply yields_bind; [apply require_arity_yields|]. intros u Hl _. cbn beta in Hl. clear u.
  destruct inputs as [|a [|b [|? ?]]]; try (unfold len in Hl; cbn in Hl; lia). by apply Hk.
Qed.
Lemma arity_3 inputs (k : Tensor → Tensor → Tensor → tensor_result Tensor) Q :
  (∀ a b c, inputs = [a; b; c] → yields Q (k a b c)) →
  yields Q (let? _ := require_arity inputs 3 in let? a := at_index inputs 0 in
            let? b := at_index inputs 1 in let? c := at_index inputs 2 in k a b c).
Proof.
  intros Hk. eapply yields_bind; [apply require_arity_yields|]. intros u Hl _. cbn beta in Hl. clear u.
  destruct inputs as [|a [|b [|c [|? ?]]]]; try (unfold len in Hl; cbn in Hl; lia). by apply Hk.
Qed.

Lemma elementwise_ok inputs op :
  Forall tensor_wf inputs →
  kernel_ok (λ t, ∃ a b, inputs = [a; b] ∧ shape t = shape a ∧ shape t = shape b)
    (elementwise_binary inputs op).
Proof.
  intros Hin. apply arity_2. intros a b ->. case_bool_decide as Hs; cbn [negb]; [|done].
  apply Forall_cons in Hin as [Ha _]. eapply yields_impl; [apply Tensor_new_yields, (tw_dims a Ha)|].
  intros t (? & Ht & _). split; [done|]. exists a, b. by rewrite Ht.
Qed.

Lemma fill_matrix_yields m n element out :
  0 ≤ m → 0 ≤ n → len out = m * n →
  (∀ row col, 0 ≤ row < m → 0 ≤ col < n → yields (λ _, True) (element row col)) →
  yields (λ d, len d = m * n) (fill_matrix m n element out).
Proof.
  intros Hm Hn Ho He. unfold fill_matrix. apply yields_fold; [done|]. intros out1 row H1 Hrow%elem_of_upto.
  apply yields_fold; [done|]. intros out2 col H2 Hcol%elem_of_upto.
  eapply yields_bind; [by apply He|]. intros sum _ _.
  eapply yields_impl; [apply yields_set|]; [rewrite H2; by apply index_in_matrix|]. cbn beta; intros; lia.
Qed.

Lemma checked_mul_value a b x : checked_mul_usize a b = Some x → x = a * b ∧ x < 2 ^ 64.
Proof.
  unfold checked_mul_usize, checked_mul_u64. destruct (Z.ltb_spec (a * b) (2 ^ 64)); [|done]. by intros [= <-].
Qed.

Lemma matrix_dims_yields a b :
  tensor_wf a → tensor_wf b →
  yields (λ p, shape a = [p.1.1; p.1.2] ∧ shape b = [p.1.2; p.2] ∧
    0 ≤ p.1.1 ∧ 0 ≤ p.1.2 ∧ 0 ≤ p.2 ∧ len (data a) = p.1.1 * p.1.2 ∧ len (data b) = p.1.2 * p.2)
    (matrix_dims a b).
Proof.
  intros [Hda Hla] [Hdb Hlb]. unfold matrix_dims.
  destruct (shape a) as [|m [|k [|? ?]]]; try done.
  destruct (shape b) as [|k' [|n [|? ?]]]; try done.
  destruct (Z.eqb_spec k k') as [<-|]; cbn [negb]; [|done]. cbn in *.
  apply Forall_cons in Hda as [? [? _]%Forall_cons], Hdb as [_ [? _]%Forall_cons].
  split_and!; (done || lia).
Qed.

Lemma mul_add_yields lhs rhs m k n row col sum inner :
  len lhs = m * k → len rhs = k * n → 0 ≤ row < m → 0 ≤ col < n → 0 ≤ inner < k →
  yields (λ _, True) (mul_add lhs rhs k n row col sum inner).
Proof.
  intros Hl Hr ? ? ?. unfold mul_add.
  eapply yields_bind; [apply (yields_at (λ _, True)); [rewrite Hl; by apply index_in_matrix|done]|].
  intros a _ _.
  eapply yields_bind; [apply (yields_at (λ _, True)); [rewrite Hr; by apply index_in_matrix|done]|]. done.
Qed.

Lemma matmul_ok inputs :
  Forall tensor_wf inputs → reservation_overflows MatMul inputs = false →
  kernel_ok (λ t, ∃ a b m k n, inputs = [a; b] ∧ shape a = [m; k] ∧ shape b = [k; n] ∧ shape t = [m; n])
    (matmul inputs).
Proof.
  intros Hin Hfit. apply arity_2. intros a b ->. apply Forall_cons in Hin as [Ha [Hb _]%Forall_cons].
  eapply yields_bind; [by apply matrix_dims_yields|]. intros [[m k] n] (Hsa & Hsb & ? & ? & ? & Hla & Hlb) _.
  cbn in *. eapply yields_bind; [by apply (yields_ok_or (λ x, x = m * n ∧ x < 2 ^ 64)), checked_mul_value|].
  intros ? [-> Hlt] _. apply yields_reserve.
  { apply (reservation_fits _ _ _ Hfit); [|done]. cbn. by rewrite Hsa, Hsb, Z.eqb_refl. }
  eapply yields_bind.
  - apply fill_matrix_yields; [done..|rewrite len_replicate; lia|].
    intros row col ? ?. apply yields_fold; [done|]. intros sum inner _ ?%elem_of_upto.
    by apply (mul_add_yields _ _ m).
  - intros d _ _. eapply yields_impl; [apply Tensor_new_yields; by repeat constructor|].
    intros t (? & Ht & _). split; [done|]. by exists a, b, m, k, n.
Qed.

Lemma matmul_overflows inputs : reservation_overflows MatMul inputs = true → matmul inputs = Panic.
Proof.
  intros (n & Hn & Hlt & Hbig)%reservation_overflows_inv. cbn in Hn.
  destruct inputs as [|a [|b [|? ?]]]; try done. destruct (two_inputs a b) as (E1 & E2 & E3).
  unfold matmul. rewrite E1, E2, E3. unfold matrix_dims.
  destruct (shape a) as [|m [|k [|? ?]]]; try done. destruct (shape b) as [|k' [|n' [|? ?]]]; try done.
  destruct (k =? k'); [|done]. injection Hn as <-. cbn [negb].
  unfold checked_mul_usize, checked_mul_u64. destruct (Z.ltb_spec (m * n') (2 ^ 64)); [|lia]. cbn [ok_or].
  by rewrite with_capacity_overflows.
Qed.

Lemma chunks_exact_len {A} n (l : list A) : 0 ≤ n → Forall (λ c, len c = n) (chunks_exact n l).
Proof.
  intros Hn. unfold chunks_exact. generalize (length l) as fuel. intros fuel. revert l.
  induction fuel as [|fuel IH]; intros l; cbn [chunks_exact_fuel]; [constructor|].
  destruct (Nat.ltb_spec (length l) (Z.to_nat n)); [constructor|]. constructor; [|apply IH].
  unfold len. rewrite length_take. lia.
Qed.

(** A kernel whose output has the shape of its first input. *)
Notation keeps_shape inputs := (λ t, ∃ a, head inputs = Some a ∧ shape t = shape a).

Lemma last_width_yields t : tensor_wf t → yields (λ w, 0 < w) (last_width t).
Proof.
  intros [Hd _]. unfold last_width. eapply (yields_bind (λ w, 0 ≤ w)).
  - apply yields_ok_or. intros w Hw. rewrite Forall_forall in Hd. apply Hd.
    apply last_Some in Hw as [l ->]. set_solver.
  - intros w Hw _. destruct (Z.eqb_spec w 0); cbn; [done|lia].
Qed.

Lemma keeps_shape_new a inputs d :
  tensor_wf a → head inputs = Some a → kernel_ok (keeps_shape inputs) (Tensor_new (shape a) d).
Proof.
  intros Ha Hh. eapply yields_impl; [apply Tensor_new_yields, (tw_dims a Ha)|].
  intros t (? & Ht & _). split; [done|]. by exists a.
Qed.

Lemma norm_row_yields weight width epsilon row :
  len row = width → (∀ w, weight = Some w → len (data w) = width) →
  yields (λ _, True) (norm_row weight width epsilon row).
Proof.
  intros Hr Hw. unfold norm_row. eapply yields_impl; [apply (yields_map (λ _, True))|done].
  intros [i v] (Hi & Hv)%elem_of_enumerate. eapply (yields_bind (λ _, True)); [|done]. cbn.
  destruct weight as [w|]; [|done]. apply yields_at; [|done]. rewrite (Hw w eq_refl).
  apply lookup_lt_Some in Hv. unfold len in Hr. lia.
Qed.

Lemma norm_weight_yields inputs width :
  Forall tensor_wf inputs →
  yields (λ w, ∀ t, w = Some t → len (data t) = width) (norm_weight inputs width).
Proof.
  intros Hin. unfold norm_weight. destruct (Z.leb_spec 2 (len inputs)); [|done].
  eapply yields_bind; [by apply (yields_at tensor_wf); [lia|]; intros t Ht; rewrite Forall_lookup in Hin; eapply Hin|].
  intros w [_ Hw] _. case_bool_decide as Hs; cbn; [|done]. intros t [= <-]. rewrite Hw, Hs. cbn. lia.
Qed.

Lemma norm_epsilon_yields inputs : yields (λ _, True) (norm_epsilon inputs).
Proof.
  unfold norm_epsilon. destruct (Z.eqb_spec (len inputs) 3); [|done].
  eapply (yields_bind (λ _, True)); [by apply yields_at; [lia|]|]. intros eps _ _.
  destruct (_ || _) eqn:Hc; [done|]. apply orb_false_iff in Hc as [_ Hc%negb_false_iff%Z.eqb_eq].
  eapply (yields_bind (λ _, True)); [by apply yields_at; [lia|]|]. intros v _ _. by destruct (_ || _).
Qed.

Lemma rms_norm_ok inputs :
  Forall tensor_wf inputs → kernel_ok (keeps_shape inputs) (rms_norm inputs).
Proof.
  intros Hin. unfold rms_norm. destruct (_ || _) eqn:Hc; [done|].
  apply orb_false_iff in Hc as [Hne%bool_decide_eq_false _].
  destruct inputs as [|a rest]; [done|]. pose proof Hin as [Ha _]%Forall_cons.
  eapply (yields_bind (λ x, x = a)); [done|]. intros ? -> _.
  eapply yields_bind; [by apply last_width_yields|]. intros w Hw _. cbn beta in Hw.
  eapply yields_bind; [by apply norm_weight_yields|]. intros weight Hweight _.
  eapply yields_bind; [apply norm_epsilon_yields|]. intros eps _ _.
  eapply yields_bind; [apply (yields_map (λ _, True))|].
  - intros row Hrow. pose proof (chunks_exact_len w (data a) ltac:(lia)) as Hch.
    rewrite Forall_forall in Hch. by apply norm_row_yields; [apply Hch|].
  - intros rows _ _. by apply keeps_shape_new.
Qed.

Lemma gather_ok inputs :
  Forall tensor_wf inputs → reservation_overflows Gather inputs = false →
  kernel_ok (λ t, ∃ a b rows width, inputs = [a; b] ∧ shape a = [rows; width] ∧
    shape t = [len (data b); width]) (gather inputs).
Proof.
  intros Hin Hfit. apply arity_2. intros a b ->. apply Forall_cons in Hin as [Ha _].
  destruct (shape a) as [|rows [|width [|? ?]]] eqn:Hsa; try done.
  destruct (shape b) as [|d [|? ?]] eqn:Hsb; try done.
  pose proof (tw_dims a Ha) as Hd. pose proof (tw_data a Ha) as Hl. rewrite Hsa in Hd, Hl. cbn in Hl.
  apply Forall_cons in Hd as [? [? _]%Forall_cons].
  eapply yields_bind; [by apply (yields_ok_or (λ x, x = len (data b) * width ∧ x < 2 ^ 64)), checked_mul_value|].
  intros ? [-> Hlt] _. apply yields_reserve.
  { apply (reservation_fits _ _ _ Hfit); [|done]. cbn. by rewrite Hsa, Hsb. }
  eapply yields_bind; [apply (yields_map (λ _, True))|].
  - intros raw _. eapply (yields_bind (λ r, 0 ≤ r)).
    { unfold natural_index. destruct (_ || _ || _); [done|]. apply f32_as_usize_range. }
    intros row Hrow _. cbn beta in Hrow. destruct (Z.leb_spec rows row); [done|].
    eapply (yields_bind (λ s, s = row * width)).
    { apply yields_ok_or. unfold checked_mul_usize, checked_mul_u64. intros s. by destruct (_ <? _); intros [= <-]. }
    intros ? -> _. eapply (yields_bind (λ s, s = row * width + width)).
    { apply yields_ok_or. unfold checked_add_usize, checked_add_u64. intros s. by destruct (_ <? _); intros [= <-]. }
    intros ? -> _. apply yields_true, slice_no_panic; [nia|nia].
  - intros parts _ _. eapply yields_impl; [apply Tensor_new_yields; pose proof (len_nonneg (data b)); by repeat constructor|].
    intros t (? & Ht & _). split; [done|]. by exists a, b, rows, width.
Qed.

Lemma gather_overflows inputs : reservation_overflows Gather inputs = true → gather inputs = Panic.
Proof.
  intros (n & Hn & Hlt & Hbig)%reservation_overflows_inv. cbn in Hn.
  destruct inputs as [|a [|b [|? ?]]]; try done. destruct (two_inputs a b) as (E1 & E2 & E3).
  unfold gather. rewrite E1, E2, E3. destruct (shape a) as [|rows [|width [|? ?]]]; try done.
  destruct (shape b) as [|? [|? ?]]; try done. injection Hn as <-.
  unfold checked_mul_usize, checked_mul_u64. destruct (Z.ltb_spec (len (data b) * width) (2 ^ 64)); [|lia]. cbn [ok_or].
  by rewrite with_capacity_overflows.
Qed.

(** An element at an index, and an update, inside a loop that keeps the length. *)
Lemma yields_read {E A B} (P : B → Prop) (l : list A) i (k : A → result E B) :
  0 ≤ i < len l → (∀ a, yields P (k a)) → yields P (let? a := at_index l i in k a).
Proof. intros Hi Hk. eapply (yields_bind (λ _, True)); [by apply yields_at|]. intros. apply Hk. Qed.

Section with_libm.
Context `{Libm}.

Lemma softmax_ok inputs :
  Forall tensor_wf inputs → kernel_ok (keeps_shape inputs) (softmax inputs).
Proof.
  intros Hin. apply arity_1. intros a ->. apply Forall_cons in Hin as [Ha _].
  eapply yields_bind; [by apply last_width_yields|]. intros w _ _. by apply keeps_shape_new.
Qed.

Lemma silu_ok inputs : Forall tensor_wf inputs → kernel_ok (keeps_shape inputs) (silu inputs).
Proof.
  intros Hin. apply arity_1. intros a ->. apply Forall_cons in Hin as [Ha _]. by apply keeps_shape_new.
Qed.

Lemma rotate_pair_yields source width base position d pair :
  0 ≤ base → base + width ≤ len source → len d = len source → 0 ≤ pair < width / 2 →
  yields (λ d', len d' = len source) (rotate_pair source width base position d pair).
Proof.
  intros Hb Hs Hd Hp. unfold rotate_pair.
  assert (pair * 2 + 1 < width) by (pose proof (Z.mul_div_le width 2); lia).
  apply yields_read; [lia|]. intros left. apply yields_read; [lia|]. intros right.
  eapply yields_bind; [apply yields_set; lia|]. intros d' Hd' _. cbn beta in Hd'.
  eapply yields_impl; [apply yields_set; lia|]. cbn beta. intros; lia.
Qed.

Lemma rotary_ok inputs :
  Forall tensor_wf inputs → kernel_ok (keeps_shape inputs) (rotary_position inputs).
Proof.
  intros Hin. apply arity_2. intros a b ->. apply Forall_cons in Hin as [Ha _].
  pose proof (tw_dims a Ha) as Hd. pose proof (tw_data a Ha) as Hl.
  destruct (shape a) as [|sequence [|heads [|width [|? ?]]]] eqn:Hsa; try done.
  destruct (shape b) as [|? [|? ?]]; try done. cbn in Hl.
  apply Forall_cons in Hd as [? [? [? _]%Forall_cons]%Forall_cons].
  destruct (_ || _ || _) eqn:Hc; [done|].
  apply orb_false_iff in Hc as [[Hc _]%orb_false_iff _]. apply negb_false_iff, Z.eqb_eq in Hc.
  eapply (yields_bind (λ d, len d = len (data a))).
  - apply yields_fold; [done|]. intros d i Hlen ?%elem_of_upto. apply yields_read; [lia|].
    intros position. destruct (_ || _); [done|].
    apply yields_fold; [done|]. intros d' head Hlen' ?%elem_of_upto.
    apply yields_fold; [done|]. intros d'' pair Hlen'' ?%elem_of_upto.
    apply rotate_pair_yields; [nia| |done|done].
    pose proof (index_in_matrix i head sequence heads). nia.
  - intros d _ _. rewrite <- Hsa. by apply keeps_shape_new.
Qed.

Lemma attention_score_yields query key query_base key_base width :
  0 ≤ query_base → query_base + width ≤ len query → 0 ≤ key_base → key_base + width ≤ len key →
  yields (λ _, True) (attention_score query key query_base key_base width).
Proof.
  intros ????. unfold attention_score. eapply (yields_bind (λ _, True)); [|done].
  apply yields_fold; [done|]. intros dot offset _ ?%elem_of_upto.
  apply yields_read; [lia|]. intros q. by apply yields_read; [lia|].
Qed.

Lemma attention_weights_length scores : length (attention_weights scores) = length scores.
Proof. unfold attention_weights. by rewrite !length_map. Qed.

Lemma attend_yields query key value sequence query_heads kv_heads width position head output :
  len (data query) = sequence * query_heads * width → len (data key) = sequence * kv_heads * width →
  len (data value) = sequence * kv_heads * width → len output = len (data query) →
  0 < width → 0 < kv_heads → 0 < query_heads → query_heads mod kv_heads = 0 →
  0 ≤ position < sequence → 0 ≤ head < query_heads →
  yields (λ o, len o = len (data query))
    (attend query key value query_heads kv_heads width position head output).
Proof.
  intros Hq Hk Hv Ho Hw Hkv Hqh Hmod Hpos Hh. unfold attend.
  set (group := query_heads / kv_heads). assert (query_heads = kv_heads * group) as Hg
    by (apply Z_div_exact_full_2; lia).
  assert (0 < group) by nia.
  assert (0 ≤ head / group < kv_heads) as Hkh.
  { split; [apply Z.div_pos; lia|]. apply Z.div_lt_upper_bound; lia. }
  pose proof (index_in_matrix position head sequence query_heads Hpos Hh) as Hqi.
  assert (0 ≤ (position * query_heads + head) * width ∧
    (position * query_heads + head) * width + width ≤ len (data query)) as [Hq0 Hq1] by (split; nia).
  assert (∀ p, 0 ≤ p < sequence → 0 ≤ (p * kv_heads + head / group) * width ∧
    (p * kv_heads + head / group) * width + width ≤ sequence * kv_heads * width) as Hkb.
  { intros p Hp. pose proof (index_in_matrix p (head / group) sequence kv_heads Hp Hkh). split; nia. }
  eapply yields_bind; [apply (yields_map (λ _, True))|].
  - intros p ?%elem_of_upto. destruct (Hkb p ltac:(lia)). apply attention_score_yields; lia.
  - intros scores [Hs _] _. apply yields_fold; [done|]. intros o [p w] Hlen (Hp & Hin)%elem_of_enumerate.
    apply lookup_lt_Some in Hin. rewrite attention_weights_length, Hs in Hin.
    pose proof (len_upto (position + 1) ltac:(lia)) as Hup. unfold len in Hup.
    destruct (Hkb p ltac:(lia)). cbn [fst snd].
    apply yields_fold; [done|]. intros o' offset Hlen' ?%elem_of_upto.
    apply yields_read; [lia|]. intros v. apply yields_read; [lia|]. intros x.
    eapply yields_impl; [apply yields_set; lia|]. cbn beta. intros; lia.
Qed.

Lemma attention_ok inputs :
  Forall tensor_wf inputs → kernel_ok (keeps_shape inputs) (causal_attention inputs).
Proof.
  intros Hin. apply arity_3. intros query key value ->.
  apply Forall_cons in Hin as [Hq [Hk [Hv _]%Forall_cons]%Forall_cons].
  pose proof (tw_dims _ Hq) as Hdq. pose proof (tw_data _ Hq) as Hlq.
  pose proof (tw_dims _ Hk) as Hdk. pose proof (tw_data _ Hk) as Hlk. pose proof (tw_data _ Hv) as Hlv.
  destruct (shape query) as [|sequence [|query_heads [|width [|? ?]]]] eqn:Hsq; try done.
  destruct (shape key) as [|ks [|kv_heads [|kw [|? ?]]]] eqn:Hsk; try done.
  destruct (shape value) as [|? [|? [|? [|? ?]]]] eqn:Hsv; try done.
  destruct (_ || _ || _) eqn:Hc1; [done|].
  apply orb_false_iff in Hc1 as [[H1%negb_false_iff%bool_decide_eq_true H2%negb_false_iff%Z.eqb_eq]%orb_false_iff
    H3%negb_false_iff%Z.eqb_eq]. simplify_eq.
  destruct (_ || _ || _ || _) eqn:Hc2; [done|].
  apply orb_false_iff in Hc2 as [[[?%Z.eqb_neq ?%Z.eqb_neq]%orb_false_iff ?%Z.eqb_neq]%orb_false_iff
    H4%negb_false_iff%Z.eqb_eq].
  apply Forall_cons in Hdq as [? [? [? _]%Forall_cons]%Forall_cons], Hdk as [? [? [? _]%Forall_cons]%Forall_cons].
  cbn in Hlq, Hlk, Hlv. eapply (yields_bind (λ o, len o = len (data query))).
  - apply yields_fold; [unfold len; by rewrite length_replicate|]. intros o position Ho ?%elem_of_upto.
    apply yields_fold; [done|]. intros o' head Ho' ?%elem_of_upto.
    eapply attend_yields; try done; lia.
  - intros o _ _. rewrite <- Hsq. by apply keeps_shape_new.
Qed.
End with_libm.

Lemma position_ids_ok inputs :
  Forall tensor_wf inputs →
  kernel_ok (λ t, ∃ a n, inputs = [a] ∧ shape a = [n] ∧ shape t = [n] ∧ data t = map f32_of_Z (upto n))
    (position_ids inputs).
Proof.
  intros Hin. apply arity_1. intros a ->. apply Forall_cons in Hin as [Ha _]. unfold rank.
  pose proof (tw_dims a Ha) as Hd. destruct (Z.eqb_spec (len (shape a)) 1) as [Hr|]; cbn [negb]; [|done].
  destruct (shape a) as [|n [|? ?]] eqn:Hsa; try (unfold len in Hr; cbn in Hr; lia).
  eapply (yields_bind (λ x, x = n)); [done|]. intros ? -> _.
  eapply yields_impl; [by apply Tensor_new_yields|]. intros t (? & Hs & Hdt). split; [done|].
  by exists a, n.
Qed.

Lemma reshape_step_yields input st p :
  tensor_wf input → Forall (λ d, 0 ≤ d) st.1.1 → (∀ i, st.1.2 = Some i → 0 ≤ i < len st.1.1) →
  p.1 = len st.1.1 → 0 < st.2 →
  yields (λ st', len st'.1.1 = len st.1.1 + 1 ∧ Forall (λ d, 0 ≤ d) st'.1.1 ∧ 0 < st'.2 ∧
    ∀ i, st'.1.2 = Some i → 0 ≤ i < len st'.1.1) (reshape_step input st p).
Proof.
  intros Hin Hd Hi Hp Hk. destruct st as [[s inferred] known], p as [index raw]. cbn in *. subst index.
  pose proof (len_nonneg s).
  assert (∀ x, len (s ++ [x]) = len s + 1) as Hlen by (intros; rewrite len_app, len_cons, len_nil; lia).
  unfold reshape_step. destruct (_ || _); [done|]. destruct (f32_eq _ _).
  - destruct inferred; [done|]. cbn. rewrite Hlen. split_and!; [lia|apply Forall_app_2; [done|by repeat constructor]|done|].
    intros i [= <-]. lia.
  - eapply (yields_bind (λ d, 0 ≤ d)).
    { destruct (f32_eq _ _); [|destruct (f32_lt _ _); [|done]].
      - apply yields_ok_or. intros d Hl. pose proof (tw_dims _ Hin) as Hdims.
        rewrite Forall_lookup in Hdims. by eapply Hdims.
      - apply f32_as_usize_range. }
    intros d Hd0 _. cbn beta in Hd0. destruct (Z.eqb_spec d 0); [done|].
    eapply (yields_bind (λ k, k = known * d)).
    { apply yields_ok_or. unfold checked_mul_usize, checked_mul_u64. intros k. by destruct (_ <? _); intros [= <-]. }
    intros ? -> _. cbn. rewrite Hlen. split_and!; [lia|apply Forall_app_2; [done|by repeat constructor]|nia|].
    intros i Hinf. specialize (Hi i Hinf). lia.
Qed.

Lemma reshape_fold_yields input l :
  tensor_wf input →
  yields (λ st, len st.1.1 = len l ∧ Forall (λ d, 0 ≤ d) st.1.1 ∧ 0 < st.2 ∧
    ∀ i, st.1.2 = Some i → 0 ≤ i < len st.1.1)
    (fold_result (reshape_step input) ([], None, 1) (enumerate l)).
Proof.
  intros Hin. induction l as [|x l IH] using rev_ind; [by split_and!|].
  rewrite enumerate_snoc, fold_result_snoc. eapply yields_bind; [exact IH|].
  intros st (Hl & Hd & Hk & Hi) _. eapply yields_impl; [by apply reshape_step_yields|].
  cbn beta. intros st' (Hl' & ? & ? & ?). split_and!; [|done..]. rewrite Hl', Hl, len_app. done.
Qed.

Lemma reshape_ok inputs :
  Forall tensor_wf inputs →
  kernel_ok (λ t, ∃ a b, inputs = [a; b] ∧ data t = data a ∧ len (shape t) = len (data b)) (reshape inputs).
Proof.
  intros Hin. apply arity_2. intros a b ->. apply Forall_cons in Hin as [Ha _].
  destruct (_ || _); [done|].
  eapply yields_bind; [by apply reshape_fold_yields|]. intros [[s inferred] known] (Hl & Hd & Hk & Hi) _.
  cbn in Hl, Hd, Hi, Hk. eapply (yields_bind (λ s', len s' = len s ∧ Forall (λ d, 0 ≤ d) s')).
  - destruct inferred as [i|]; [|by destruct (negb _)].
    destruct (_ || _); [done|]. cbv zeta. destruct (len (data a) / known =? 0); [done|].
    assert (0 ≤ i < len s) by (by apply Hi). unfold set_index. destruct (Z.ltb_spec i (len s)); [|lia]. cbn.
    split; [unfold len; by rewrite length_insert|]. apply Forall_insert; [done|].
    pose proof (len_nonneg (data a)). by apply Z.div_pos.
  - intros s' [Hs' Hd'] _. eapply yields_impl; [by apply Tensor_new_yields|].
    intros t (? & Hs & Hdt). split; [done|]. exists a, b. split_and!; [done|done|congruence].
Qed.

(** ** Transposition *)
Definition sumz (l : list Z) : Z := foldr Z.add 0 l.
Lemma sumz_perm l k : l ≡ₚ k → sumz l = sumz k.
Proof. unfold sumz. induction 1; cbn; lia. Qed.
Lemma sumz_app l k : sumz (l ++ k) = sumz l + sumz k.
Proof. unfold sumz. induction l as [|x l IH]; cbn; lia. Qed.
Lemma product_perm l k : l ≡ₚ k → product l = product k.
Proof. unfold product. induction 1; cbn; [done|congruence|lia|congruence]. Qed.

(** The stride of axis [j], and the largest offset the axis contributes. *)
Definition stride_at (s : list Z) (j : Z) : Z := product (drop (S (Z.to_nat j)) s).
Definition reach (s : list Z) (j : Z) : Z := (default 0 (s !! Z.to_nat j) - 1) * stride_at s j.

Lemma strides_from_yields s :
  yields (λ p, p.2 = product s ∧ len p.1 = len s ∧
    ∀ j x, 0 ≤ j → p.1 !! Z.to_nat j = Some x → x = stride_at s j) (strides_from s).
Proof.
  induction s as [|d s IH]; cbn [strides_from]; [by split_and!|].
  eapply yields_bind; [exact IH|]. intros [strides running] (Hr & Hl & Hs) _. cbn in Hr, Hl, Hs.
  eapply (yields_bind (λ n, n = running * d)).
  { apply yields_ok_or. unfold checked_mul_usize, checked_mul_u64. intros k. by destruct (_ <? _); intros [= <-]. }
  intros ? -> _. cbn. split_and!; [unfold product in *; lia|rewrite !len_cons; lia|].
  intros j x Hj Hx. destruct (decide (j = 0)) as [->|].
  - rewrite Hr in Hx. change (Some (product s) = Some x) in Hx. by injection Hx as <-.
  - replace (Z.to_nat j) with (S (Z.to_nat (j - 1))) in * by lia. cbn in *. apply Hs; [lia|done].
Qed.

Lemma row_major_strides_yields s :
  yields (λ l, len l = len s ∧ ∀ j x, 0 ≤ j → l !! Z.to_nat j = Some x → x = stride_at s j)
    (row_major_strides s).
Proof.
  unfold row_major_strides. eapply yields_bind; [apply strides_from_yields|]. intros p (_ & ? & ?) _. done.
Qed.

Lemma reach_cons d s j : 0 ≤ j → reach (d :: s) (1 + j) = reach s j.
Proof. intros Hj. unfold reach, stride_at. by replace (Z.to_nat (1 + j)) with (S (Z.to_nat j)) by lia. Qed.

(** The largest index is one below the number of elements. *)
Lemma reach_total s : sumz (map (reach s) (upto (len s))) = product s - 1.
Proof.
  induction s as [|d s IH]; [done|].
  assert (upto (len (d :: s)) = 0 :: map (Z.add 1) (upto (len s))) as ->.
  { unfold upto, len. rewrite !Nat2Z.id. cbn [length seq map]. f_equal.
    rewrite <- seq_shift, !map_map. apply map_ext. intros. lia. }
  cbn [map]. rewrite map_map, (map_ext_in _ (reach s)).
  - change (sumz (?x :: ?l)) with (x + sumz l). rewrite IH. unfold reach, stride_at.
    change ((d :: s) !! Z.to_nat 0) with (Some d). cbn. rewrite drop_0. unfold product. lia.
  - intros j Hj%list_elem_of_In%elem_of_upto. apply reach_cons. lia.
Qed.

Lemma read_axes_yields r l :
  yields (λ axes, len axes = len l ∧ NoDup axes ∧ Forall (λ a, 0 ≤ a < r) axes)
    (fold_result (read_axis r) [] l).
Proof.
  induction l as [|raw l IH] using rev_ind; [split_and!; [done|constructor..]|].
  rewrite fold_result_snoc. eapply yields_bind; [exact IH|]. intros axes (Hl & Hnd & Hb) _.
  unfold read_axis. eapply (yields_bind (λ a, 0 ≤ a)).
  { unfold natural_index. destruct (_ || _ || _); [done|]. apply f32_as_usize_range. }
  intros a Ha _. cbn beta in Ha. destruct (Z.leb_spec r a); cbn [orb]; [done|].
  case_bool_decide as Hin; [done|]. cbn. split_and!.
  - rewrite !len_app, Hl. done.
  - by apply NoDup_snoc.
  - apply Forall_app_2; [done|]. by repeat constructor.
Qed.

Lemma axes_permute axes r :
  len axes = r → NoDup axes → Forall (λ a, 0 ≤ a < r) axes → axes ≡ₚ upto r.
Proof.
  intros Hl Hnd Hb. pose proof (len_nonneg axes). apply submseteq_length_Permutation.
  - apply NoDup_submseteq; [done|]. intros a Ha. rewrite Forall_forall in Hb. by apply elem_of_upto, Hb.
  - pose proof (len_upto r ltac:(lia)). unfold len in *. lia.
Qed.

(** The shape of the output lists the dimensions in the order of the axes. *)
Lemma output_shape_yields s axes :
  Forall (λ a, 0 ≤ a < len s) axes →
  yields (λ out, out = map (λ a, default 0 (s !! Z.to_nat a)) axes)
    (map_result (at_index (E:=TensorError) s) axes).
Proof.
  intros Hb. induction Hb as [|a axes Ha Hb IH]; cbn [map_result map]; [done|].
  eapply (yields_bind (λ x, x = default 0 (s !! Z.to_nat a))).
  { apply yields_at; [done|]. by intros x ->. }
  intros ? -> _. eapply yields_bind; [exact IH|]. by intros ? -> _.
Qed.

Lemma map_lookup_upto s : map (λ a, default 0 (s !! Z.to_nat a)) (upto (len s)) = s.
Proof.
  apply list_eq. intros i. unfold upto, len. rewrite Nat2Z.id, list_lookup_fmap, list_lookup_fmap.
  destruct (s !! i) as [x|] eqn:Hx.
  - rewrite lookup_seq_lt by (by eapply lookup_lt_Some). cbn. by rewrite Nat2Z.id, Hx.
  - rewrite lookup_seq_ge by (by apply lookup_ge_None). done.
Qed.

(** The coordinates of an output index, axis by axis. *)
Lemma source_index_yields s axes ins outs output_index :
  len axes = len s → NoDup axes → Forall (λ a, 0 ≤ a < len s) axes → Forall (λ d, 0 ≤ d) s →
  let out := map (λ a, default 0 (s !! Z.to_nat a)) axes in
  len ins = len s → (∀ j x, 0 ≤ j → ins !! Z.to_nat j = Some x → x = stride_at s j) →
  len outs = len out → (∀ j x, 0 ≤ j → outs !! Z.to_nat j = Some x → x = stride_at out j) →
  0 ≤ output_index < product s →
  yields (λ i, 0 ≤ i < product s) (source_index axes ins outs (len s) output_index).
Proof.
  intros Hla Hnd Hb Hd out Hli Hins Hlo Houts Hix. unfold source_index.
  pose proof (axes_permute axes (len s) Hla Hnd Hb) as Hperm.
  assert (product out = product s) as Hprod.
  { unfold out. rewrite (product_perm _ _ (fmap_Permutation _ _ _ Hperm)). f_equal. apply map_lookup_upto. }
  assert (sumz (map (reach s) axes) = product s - 1) as Htotal.
  { rewrite (sumz_perm _ _ (fmap_Permutation _ _ _ Hperm)). apply reach_total. }
  assert (Forall (λ d, 0 ≤ d) out) as Hdo.
  { apply Forall_map. eapply Forall_impl; [exact Hb|]. intros a Ha. cbn.
    destruct (s !! Z.to_nat a) eqn:Hx; cbn; [|lia]. rewrite Forall_lookup in Hd. by eapply Hd. }
  match goal with |- context [fold_result ?f _ _] => set (step := f) end.
  assert (∀ n, (n ≤ length axes)%nat →
    yields (λ st, 0 ≤ st.1 < product (drop n out) ∧ 0 ≤ st.2 ≤ sumz (map (reach s) (take n axes)))
      (fold_result step (output_index, 0) (map Z.of_nat (seq 0 n)))) as Hfold.
  { induction n as [|n IH]; intros Hn.
    - cbn [seq map fold_result yields take fst snd]. rewrite drop_0, Hprod. cbn [sumz map]. cbn. split; [lia|done].
    - rewrite seq_S, map_app. change (map Z.of_nat [(0 + n)%nat]) with [Z.of_nat n].
      rewrite fold_result_snoc. eapply yields_bind; [apply IH; lia|].
      intros [remainder input_index] [Hr Hi] _. cbn in Hr, Hi. unfold step. cbn [Nat.add].
      destruct (lookup_lt_is_Some_2 axes n) as [a Ha]; [lia|].
      assert (out !! n = Some (default 0 (s !! Z.to_nat a))) as Ho
        by (unfold out; by rewrite list_lookup_fmap, Ha).
      rewrite (drop_S _ _ _ Ho) in Hr. unfold product in Hr. cbn [foldr] in Hr. fold (product (drop (S n) out)) in Hr.
      pose proof Hb as Hba. rewrite Forall_lookup in Hba. specialize (Hba n a Ha).
      assert (0 ≤ product (drop (S n) out)) by (by apply product_nonneg, Forall_drop).
      eapply (yields_bind (λ x, x = product (drop (S n) out))).
      { apply yields_at; [unfold out, len in *; rewrite length_map in Hlo; lia|].
        intros x Hx. apply Houts in Hx; [|lia]. unfold stride_at in Hx. by rewrite Nat2Z.id in Hx. }
      intros ? -> _. set (stride := product (drop (S n) out)) in *.
      destruct (Z.eqb_spec stride 0); [nia|].
      eapply (yields_bind (λ x, x = a)).
      { apply yields_at; [unfold len; lia|]. intros x. rewrite Nat2Z.id, Ha. by intros [= <-]. }
      intros ? -> _. eapply (yields_bind (λ x, x = stride_at s a)).
      { apply yields_at; [lia|]. intros x Hx. by apply Hins in Hx; [|lia]. }
      intros ? -> _.
      assert (0 ≤ stride_at s a) by (by apply product_nonneg, Forall_drop).
      eapply (yields_bind (λ x, x = remainder / stride * stride_at s a)).
      { apply yields_ok_or. unfold checked_mul_usize, checked_mul_u64. intros k. by destruct (_ <? _); intros [= <-]. }
      intros ? -> _. eapply (yields_bind (λ x, x = input_index + remainder / stride * stride_at s a)).
      { apply yields_ok_or. unfold checked_add_usize, checked_add_u64. intros k. by destruct (_ <? _); intros [= <-]. }
      intros ? -> _. cbn. rewrite (take_S_r _ _ _ Ha), map_app, sumz_app. cbn.
      pose proof (Z.mod_pos_bound remainder stride). split; [lia|].
      assert (0 ≤ remainder / stride) by (apply Z.div_pos; lia).
      assert (remainder / stride < default 0 (s !! Z.to_nat a)) by (apply Z.div_lt_upper_bound; nia).
      unfold reach at 2. nia. }
  specialize (Hfold (length axes) ltac:(lia)).
  assert (upto (len s) = map Z.of_nat (seq 0 (length axes))) as ->.
  { rewrite <- Hla. unfold upto. by rewrite to_nat_len. }
  eapply yields_bind; [exact Hfold|]. intros [remainder input_index] [_ Hi] _. cbn in Hi |- *.
  rewrite take_ge in Hi by done. lia.
Qed.

Lemma transpose_ok inputs :
  Forall tensor_wf inputs →
  kernel_ok (λ t, ∃ a b, inputs = [a; b] ∧ shape t ≡ₚ shape a ∧ len (data t) = len (data a))
    (transpose inputs).
Proof.
  intros Hin. apply arity_2. intros a b ->. apply Forall_cons in Hin as [Ha _].
  pose proof (tw_dims a Ha) as Hd. pose proof (tw_data a Ha) as Hl. unfold rank.
  destruct (_ || _ || _) eqn:Hc; [done|].
  apply orb_false_iff in Hc as [_ Hperm%negb_false_iff%Z.eqb_eq].
  eapply yields_bind; [apply read_axes_yields|]. intros axes (Hla & Hnd & Hb) _.
  assert (len axes = len (shape a)) as Hlen by lia. cbn beta in *.
  eapply yields_bind; [by apply output_shape_yields|]. intros ? -> _.
  set (out := map (λ x, default 0 (shape a !! Z.to_nat x)) axes).
  assert (out ≡ₚ shape a) as Hout.
  { unfold out. rewrite (fmap_Permutation _ _ _ (axes_permute axes _ Hlen Hnd Hb)).
    by rewrite map_lookup_upto. }
  eapply yields_bind; [apply row_major_strides_yields|]. intros ins [Hli Hins] _.
  eapply yields_bind; [apply row_major_strides_yields|]. intros outs [Hlo Houts] _.
  eapply yields_bind; [apply (yields_map (λ _, True))|].
  - intros i Hi%elem_of_upto. eapply yields_bind.
    { apply (source_index_yields (shape a) axes); try done. lia. }
    intros j Hj _. cbn beta in Hj. apply yields_at; [lia|done].
  - intros d [Hdl _] _. eapply yields_impl; [apply Tensor_new_yields; by rewrite Hout|].
    intros t (? & Hs & Hdt). split; [done|]. exists a, b. rewrite Hs, Hdt. split_and!; [done|done|].
    unfold len at 1. rewrite Hdl. exact (len_upto (len (data a)) (len_nonneg _)).
Qed.

(** ** The product of matrices, element by element *)
Lemma fill_matrix_spec m n element g out :
  0 ≤ m → 0 ≤ n → len out = m * n →
  (∀ row col, 0 ≤ row < m → 0 ≤ col < n → element row col = Ok (g row col)) →
  ∃ d, fill_matrix m n element out = Ok d ∧ len d = m * n ∧
    ∀ row col, 0 ≤ row < m → 0 ≤ col < n → d !! Z.to_nat (row * n + col) = Some (g row col).
Proof.
  intros Hm Hn Ho He. unfold fill_matrix, upto.
  assert (∀ row c d, 0 ≤ row < m → (c ≤ Z.to_nat n)%nat → len d = m * n →
    ∃ d', fold_result (λ out col, let? sum := element row col in set_index out (row * n + col) sum) d
            (map Z.of_nat (seq 0 c)) = Ok d' ∧ len d' = m * n ∧
      (∀ col, 0 ≤ col < Z.of_nat c → d' !! Z.to_nat (row * n + col) = Some (g row col)) ∧
      (∀ i, 0 ≤ i < row * n → d' !! Z.to_nat i = d !! Z.to_nat i)) as Hinner.
  { intros row c d Hrow Hc Hd. induction c as [|c IH]; [exists d; split_and!; (done || lia)|].
    destruct IH as (d1 & Hd1 & Hl1 & Hset & Hold); [lia|].
    rewrite seq_S, map_app. change (map Z.of_nat [(0 + c)%nat]) with [Z.of_nat c].
    rewrite fold_result_snoc, Hd1, He by lia. unfold set_index.
    pose proof (index_in_matrix row (Z.of_nat c) m n Hrow ltac:(lia)).
    destruct (Z.ltb_spec (row * n + Z.of_nat c) (len d1)); [|lia]. eexists. split; [done|].
    split_and!; [unfold len in *; by rewrite length_insert| |].
    - intros col Hcol. destruct (decide (col = Z.of_nat c)) as [->|].
      + apply list_lookup_insert_eq. unfold len in *. lia.
      + rewrite list_lookup_insert_ne by nia. apply Hset. lia.
    - intros i Hi. rewrite list_lookup_insert_ne by nia. by apply Hold. }
  assert (∀ r, (r ≤ Z.to_nat m)%nat → ∃ d,
    fold_result (λ out row,
      fold_result (λ out col, let? sum := element row col in set_index out (row * n + col) sum)
        out (map Z.of_nat (seq 0 (Z.to_nat n)))) out (map Z.of_nat (seq 0 r)) = Ok d ∧ len d = m * n ∧
    ∀ row col, 0 ≤ row < Z.of_nat r → 0 ≤ col < n → d !! Z.to_nat (row * n + col) = Some (g row col)) as Houter.
  { induction r as [|r IH]; intros Hr; [exists out; split_and!; (done || lia)|].
    destruct IH as (d1 & Hd1 & Hl1 & Hset); [lia|].
    rewrite seq_S, map_app. change (map Z.of_nat [(0 + r)%nat]) with [Z.of_nat r].
    rewrite fold_result_snoc, Hd1.
    destruct (Hinner (Z.of_nat r) (Z.to_nat n) d1) as (d2 & -> & Hl2 & Hnew & Hold); [lia..|done|].
    exists d2. split_and!; [done|done|]. intros row col Hrow Hcol.
    destruct (decide (row = Z.of_nat r)) as [->|]; [apply Hnew; lia|].
    rewrite Hold by nia. apply Hset; lia. }
  destruct (Houter (Z.to_nat m)) as (d & Hd & Hl & Hset); [lia|]. exists d. split_and!; [done|done|].
  intros row col Hrow. apply Hset. lia.
Qed.

(** The element of a product: the products summed from the left. *)
Definition dot_element (lhs rhs : list f32) (k n row col : Z) : f32 :=
  foldl (λ sum inner, f32_add sum
    (f32_mul (default f32_zero (lhs !! Z.to_nat (row * k + inner)))
             (default f32_zero (rhs !! Z.to_nat (inner * n + col))))) f32_zero (upto k).

Lemma mul_add_Ok lhs rhs m k n row col sum inner :
  len lhs = m * k → len rhs = k * n → 0 ≤ row < m → 0 ≤ col < n → 0 ≤ inner < k →
  mul_add lhs rhs k n row col sum inner =
  Ok (f32_add sum (f32_mul (default f32_zero (lhs !! Z.to_nat (row * k + inner)))
                           (default f32_zero (rhs !! Z.to_nat (inner * n + col))))).
Proof.
  intros Hl Hr Hrow Hcol Hin. unfold mul_add, at_index.
  pose proof (index_in_matrix row inner m k Hrow Hin). pose proof (index_in_matrix inner col k n Hin Hcol).
  destruct (lookup_lt_is_Some_2 lhs (Z.to_nat (row * k + inner))) as [a ->]; [unfold len in *; lia|].
  by destruct (lookup_lt_is_Some_2 rhs (Z.to_nat (inner * n + col))) as [b ->]; [unfold len in *; lia|].
Qed.

Lemma fold_result_pure {E S A} (f : S → A → result E S) (g : S → A → S) s l :
  (∀ s x, x ∈ l → f s x = Ok (g s x)) → fold_result f s l = Ok (foldl g s l).
Proof.
  revert s. induction l as [|x l IH]; intros s Hf; cbn; [done|].
  rewrite Hf by left. apply IH. intros. apply Hf. by right.
Qed.

Lemma dot_Ok lhs rhs m k n row col :
  len lhs = m * k → len rhs = k * n → 0 ≤ row < m → 0 ≤ col < n →
  fold_result (mul_add lhs rhs k n row col) f32_zero (upto k) = Ok (dot_element lhs rhs k n row col).
Proof.
  intros Hl Hr Hrow Hcol. apply fold_result_pure. intros sum inner ?%elem_of_upto. by apply (mul_add_Ok _ _ m).
Qed.

(** ** Half precision, exactly

    A number times [2 ^ 149], which is an integer for every finite one. *)
Definition scaled (x : f32) : option Z :=
  match x with
  | S754_zero _ => Some 0
  | S754_finite s m e => Some ((if s then -1 else 1) * Zpos m * 2 ^ (e + 149))
  | _ => None
  end.
Definition f32_sign (x : f32) : option bool :=
  match x with S754_zero s | S754_infinity s | S754_finite s _ _ => Some s | S754_nan => None end.

(** IEEE 754 binary16: sign, exponent and fraction. *)
Definition f16_sign (bits : Z) : bool := Z.testbit bits 15.
Definition f16_exponent (bits : Z) : Z := bits / 2 ^ 10 mod 2 ^ 5.
Definition f16_fraction (bits : Z) : Z := bits mod 2 ^ 10.
Definition f16_scaled (bits : Z) : option Z :=
  let sign := if f16_sign bits then -1 else 1 in
  if f16_exponent bits =? 31 then None
  else if f16_exponent bits =? 0 then Some (sign * f16_fraction bits * 2 ^ (149 - 24))
  else Some (sign * (2 ^ 10 + f16_fraction bits) * 2 ^ (149 + f16_exponent bits - 25)).
Definition f16_nan (bits : Z) : bool := (f16_exponent bits =? 31) && negb (f16_fraction bits =? 0).

(** The two conditions of exactness, with the powers of two cancelled. *)
Definition f16_check (bits : Z) : bool :=
  let x := f16_to_f32 bits in
  bool_decide (f32_sign x = if f16_nan bits then None else Some (f16_sign bits)) &&
  match x with
  | S754_zero _ => (f16_exponent bits =? 0) && (f16_fraction bits =? 0)
  | S754_finite s m e =>
      let '(m', e') := if f16_exponent bits =? 0 then (f16_fraction bits, 149 - 24)
                       else (2 ^ 10 + f16_fraction bits, 149 + f16_exponent bits - 25) in
      negb (f16_exponent bits =? 31) && (0 <=? e + 149) && (e + 149 <=? e') && (Zpos m =? m' * 2 ^ (e' - (e + 149)))
  | _ => f16_exponent bits =? 31
  end.
Lemma f16_check_sound bits :
  f16_check bits = true →
  scaled (f16_to_f32 bits) = f16_scaled bits ∧
  f32_sign (f16_to_f32 bits) = if f16_nan bits then None else Some (f16_sign bits).
Proof.
  unfold f16_check, f16_scaled. intros [Hs%bool_decide_eq_true_1 Hx]%andb_true_iff. split; [|exact Hs].
  destruct (f16_to_f32 bits) as [s|s| |s m e]; cbn [scaled].
  - apply andb_true_iff in Hx as [->%Z.eqb_eq ->%Z.eqb_eq].
    cbn [Z.eqb]. by rewrite Z.mul_0_r.
  - by rewrite Hx.
  - by rewrite Hx.
  - destruct (Z.eqb_spec (f16_exponent bits) 31) as [H31|]; [by rewrite H31 in Hx|].
    assert (f16_nan bits = false) as Hn by (unfold f16_nan; rewrite (proj2 (Z.eqb_neq _ _)) by done; done).
    rewrite Hn in Hs. cbn in Hs. injection Hs as ->.
    assert (∀ m' e', 0 ≤ e + 149 → e + 149 ≤ e' → Zpos m = m' * 2 ^ (e' - (e + 149)) →
      Zpos m * 2 ^ (e + 149) = m' * 2 ^ e') as Hcancel.
    { intros m' e' H1 H2 ->. rewrite <- Z.mul_assoc, <- Z.pow_add_r by lia. do 2 f_equal. lia. }
    destruct (Z.eqb_spec (f16_exponent bits) 0); rewrite !andb_true_iff, !Z.leb_le, Z.eqb_eq in Hx;
      destruct Hx as [[[_ H1] H2] H3]; f_equal; rewrite <- !Z.mul_assoc; f_equal; by apply Hcancel.
Qed.
Lemma f16_checked :
  forallb (λ high, forallb (λ low, f16_check (high * 256 + low)) (upto 256)) (upto 256) = true.
Proof. vm_compute. reflexivity. Qed.

(** ** Properties *)

(** The shapes a kernel returns. *)
Definition output_shape (op : TensorOp) (inputs : list Tensor) (t : Tensor) : Prop :=
  match op with
  | Add | Mul => ∃ a b, inputs = [a; b] ∧ shape t = shape a ∧ shape t = shape b
  | MatMul | QuantizedMatMul => ∃ a b m k n, inputs = [a; b] ∧ shape a = [m; k] ∧ shape b = [k; n] ∧
      shape t = [m; n]
  | RmsNorm | Softmax | RotaryPosition | CausalAttention | Silu =>
      ∃ a, head inputs = Some a ∧ shape t = shape a
  | Gather => ∃ a b rows width, inputs = [a; b] ∧ shape a = [rows; width] ∧ shape t = [len (data b); width]
  | Reshape => ∃ a b, inputs = [a; b] ∧ data t = data a ∧ len (shape t) = len (data b)
  | Transpose => ∃ a b, inputs = [a; b] ∧ shape t ≡ₚ shape a ∧ len (data t) = len (data a)
  | PositionIds => ∃ a n, inputs = [a] ∧ shape a = [n] ∧ shape t = [n] ∧ data t = map f32_of_Z (upto n)
  end.

Lemma cpu_reference_yields `{Libm} op inputs :
  Forall tensor_wf inputs → reservation_overflows op inputs = false →
  yields (λ outputs, ∃ t, outputs = [t] ∧ tensor_wf t ∧ output_shape op inputs t) (cpu_reference op inputs).
Proof.
  intros Hin Hfit. unfold cpu_reference. eapply (yields_bind (λ t, tensor_wf t ∧ output_shape op inputs t)).
  - destruct op; cbn [output_shape].
    + by apply elementwise_ok. + by apply elementwise_ok. + by apply matmul_ok. + by apply matmul_ok.
    + by apply rms_norm_ok. + by apply softmax_ok. + by apply gather_ok. + by apply rotary_ok.
    + by apply attention_ok. + by apply silu_ok. + by apply reshape_ok. + by apply transpose_ok.
    + by apply position_ids_ok.
  - intros t [? ?] _. by exists t.
Qed.

Lemma cpu_reference_overflows `{Libm} op inputs :
  reservation_overflows op inputs = true → cpu_reference op inputs = Panic.
Proof.
  intros Hr. unfold cpu_reference. destruct op; try (by destruct inputs);
    by rewrite ?matmul_overflows, ?gather_overflows.
Qed.

(** C23: On well-formed tensors, whatever the operation and the number and shapes of the
    tensors, the reference provider panics exactly when the output of a matrix product or of
    a gather, which it reserves first, needs more than isize::MAX bytes; every output it
    returns is one well-formed tensor of the shape of the operation. *)
Theorem cpu_reference_typed `{Libm} op inputs :
  Forall tensor_wf inputs →
  if reservation_overflows op inputs then cpu_reference op inputs = Panic
  else
    match cpu_reference op inputs with
    | Ok outputs => ∃ t, outputs = [t] ∧ tensor_wf t ∧ output_shape op inputs t
    | Err _ => True
    | Panic => False
    end.
Proof.
  intros Hin. destruct (reservation_overflows op inputs) eqn:Hr; [by apply cpu_reference_overflows|].
  by apply cpu_reference_yields.
Qed.

(** C24: On every 16-bit pattern f16_to_f32 is exact: the result has the sign and the
    value the IEEE half-precision format gives the pattern, subnormals, infinities and NaN
    included. *)
Theorem f16_to_f32_exact bits :
  0 ≤ bits < 2 ^ 16 →
  scaled (f16_to_f32 bits) = f16_scaled bits ∧
  f32_sign (f16_to_f32 bits) = if f16_nan bits then None else Some (f16_sign bits).
Proof.
  intros Hb. pose proof f16_checked as Hall. rewrite forallb_forall in Hall.
  specialize (Hall (bits / 256)). rewrite forallb_forall in Hall.
  assert (f16_check (bits / 256 * 256 + bits mod 256) = true) as Hc.
  { apply Hall; apply list_elem_of_In, elem_of_upto.
    - split; [apply Z.div_pos; lia|apply Z.div_lt_upper_bound; lia].
    - apply Z.mod_pos_bound. lia. }
  rewrite <- (Z.mul_comm 256), <- Z.div_mod in Hc by lia. by apply f16_check_sound.
Qed.

Lemma matmul_spec a b m k n :
  tensor_wf a → tensor_wf b → shape a = [m; k] → shape b = [k; n] → in_u64 m → 4 * (m * n) < 2 ^ 63 →
  ∃ t, matmul [a; b] = Ok t ∧ shape t = [m; n] ∧
    ∀ row col, 0 ≤ row < m → 0 ≤ col < n →
      data t !! Z.to_nat (row * n + col) = Some (dot_element (data a) (data b) k n row col).
Proof.
  intros Ha Hb Hsa Hsb Hm Hmn. pose proof (tw_dims a Ha) as Hda. pose proof (tw_data a Ha) as Hla.
  pose proof (tw_dims b Hb) as Hdb. pose proof (tw_data b Hb) as Hlb. rewrite Hsa in Hda, Hla. rewrite Hsb in Hdb, Hlb.
  apply Forall_cons in Hda as [? [? _]%Forall_cons], Hdb as [_ [? _]%Forall_cons]. cbn in Hla, Hlb.
  destruct (two_inputs a b) as (E1 & E2 & E3). unfold matmul. rewrite E1, E2, E3. unfold matrix_dims. rewrite Hsa, Hsb, Z.eqb_refl. cbn [negb].
  unfold checked_mul_usize, checked_mul_u64. destruct (Z.ltb_spec (m * n) (2 ^ 64)); [|lia]. cbn [ok_or].
  rewrite with_capacity_fits by lia.
  destruct (fill_matrix_spec m n (λ row col,
    fold_result (mul_add (data a) (data b) k n row col) f32_zero (upto k))
    (λ row col, dot_element (data a) (data b) k n row col) (replicate (Z.to_nat (m * n)) f32_zero))
    as (d & -> & Hl & Hset); [done|done|rewrite len_replicate; nia|intros; apply (dot_Ok _ _ m); lia|].
  exists (mkTensor [m; n] d). split_and!; [|done|done].
  unfold Tensor_new, element_count_usize. cbn [fold_result].
  unfold checked_mul_usize, checked_mul_u64. rewrite Z.mul_1_l.
  unfold in_u64 in Hm. destruct (Z.ltb_spec m (2 ^ 64)); [|lia]. cbn [ok_or].
  destruct (Z.ltb_spec (m * n) (2 ^ 64)); [|lia]. cbn [ok_or]. by rewrite Hl, Z.eqb_refl.
Qed.

(** ** Concrete instances *)
#[local] Instance sample_libm : Libm :=
  {| f32_exp x := f32_add f32_one x; f32_sin x := x; f32_cos _ := f32_one; f32_powf _ _ := f32_one |}.
Definition sample_lhs : Tensor := mkTensor [1; 2] (map f32_of_Z [1; 2]).
Definition sample_rhs : Tensor := mkTensor [2; 1] (map f32_of_Z [3; 4]).
Lemma sample_tensors : Forall tensor_wf [sample_lhs; sample_rhs].
Proof. repeat constructor; vm_compute; discriminate. Qed.
Example sample_product : cpu_reference MatMul [sample_lhs; sample_rhs] = Ok [mkTensor [1; 1] [f32_of_Z 11]].
Proof. vm_compute. reflexivity. Qed.

(** Tensors without data, and a table of none but wide rows. *)
Definition tall : Tensor := mkTensor [2 ^ 32; 0] [].
Definition wide : Tensor := mkTensor [0; 2 ^ 31] [].
Definition wide_rows : Tensor := mkTensor [0; 2 ^ 62] [].
Definition one_index : Tensor := mkTensor [1] [f32_zero].
Lemma reservations_overflow :
  Forall tensor_wf [tall; wide; wide_rows; one_index] ∧
  cpu_reference MatMul [tall; wide] = Panic ∧ cpu_reference Gather [wide_rows; one_index] = Panic.
Proof. split_and!; [repeat constructor; vm_compute; discriminate|by vm_compute|by vm_compute]. Qed.

Lemma cpu_reference_typed_witness :
  ∃ t, cpu_reference MatMul [sample_lhs; sample_rhs] = Ok [t] ∧ tensor_wf t.
Proof.
  pose proof (cpu_reference_typed MatMul [sample_lhs; sample_rhs] sample_tensors) as Ht.
  change (reservation_overflows MatMul [sample_lhs; sample_rhs]) with false in Ht. cbn beta iota in Ht.
  rewrite sample_product in Ht |- *. destruct Ht as (t & [= <-] & Hwf & _).
  eexists. split; [reflexivity|exact Hwf].
Defined.

Lemma f16_to_f32_exact_witness : scaled (f16_to_f32 1) = Some (2 ^ 125).
Proof. exact (proj1 (f16_to_f32_exact 1 ltac:(lia))). Defined.
End TensorTheorems.
