(* ===== verification/Executor.v ===== *)
(** The graph executor: src/crates/ntd-runtime/src/executor.rs.

    [execute_with_resolver] frees a value after its last use; [run_nodes] with
    [free := false] keeps every value, and the theorem is that the results agree
    on every graph, errors included.  The provider and the resolver are traits:
    arguments of the section. *)
From S2P Require Import Prelude Collections Ir Float32 Tensor TensorTheorems.

Module Executor.
Import TensorOps TensorTheorems.

Inductive TensorResolveError := Unavailable | Invalid.

Inductive ExecutionError :=
| InvalidGraph (e : ValidationError)
| MissingGraphInput (value : ValueId)
| MissingValue (node : NodeId) (value : ValueId)
| UnsupportedNode (node : NodeId)
| Provider (node : NodeId) (source : TensorError)
| OutputArity (node : NodeId) (expected actual : Z)
| OutputType (node : NodeId) (value : ValueId)
| OutputRank (node : NodeId) (value : ValueId) (expected actual : Z)
| Resolve (value : ValueId) (source : TensorResolveError).

Notation exec_result := (result ExecutionError).

(** [NodeId(u32::MAX)], the node of what belongs to no node. *)
Definition no_node : NodeId := 2 ^ 32 - 1.

Definition validate_decl (node : NodeId) (decl : ValueDecl) (tensor : Tensor) : exec_result unit :=
  let? expected_rank :=
    match vd_ty decl with
    | Scalar _ => Ok 0
    | Ir.Tensor _ rank => Ok rank
    | Bytes | Handle => Err (OutputType node (vd_id decl))
    end in
  if negb (rank tensor =? expected_rank)
  then Err (OutputRank node (vd_id decl) expected_rank (rank tensor))
  else Ok tt.

(** [*remaining_uses.entry(value).or_default() += 1]. *)
Definition count_use (remaining_uses : gmap Z Z) (value : ValueId) : gmap Z Z :=
  <[value := default 0 (remaining_uses !! value) + 1]> remaining_uses.
Definition count_uses (graph : Graph) : gmap Z Z :=
  foldl (λ m node, foldl count_use m (n_inputs node)) ∅ (g_nodes graph).
Definition decl_map (decls : list ValueDecl) : gmap Z ValueDecl :=
  foldl (λ m decl, <[vd_id decl := decl]> m) ∅ decls.

Section executor.
Context (provider : TensorOp → list Tensor → tensor_result (list Tensor)).
Context (resolver : ValueId → result TensorResolveError (option Tensor)).

(** The loop over the inputs given. *)
Definition load_input (input_decls : gmap Z ValueDecl) (values : gmap Z Tensor) (p : Z * Tensor)
  : exec_result (gmap Z Tensor) :=
  match input_decls !! p.1 with
  | Some decl => let? _ := validate_decl no_node decl p.2 in Ok (<[p.1 := p.2]> values)
  | None => Ok values
  end.

(** The loop that makes the inputs of a node available. *)
Definition resolve_input (input_decls : gmap Z ValueDecl) (node : NodeId) (values : gmap Z Tensor)
    (value_id : ValueId) : exec_result (gmap Z Tensor) :=
  if bool_decide (is_Some (values !! value_id)) then Ok values
  else
    let? decl := ok_or (input_decls !! value_id) (MissingValue node value_id) in
    let? resolved := map_err (Resolve value_id) (resolver value_id) in
    let? tensor := ok_or resolved (MissingGraphInput value_id) in
    let? _ := validate_decl no_node decl tensor in
    Ok (<[value_id := tensor]> values).

(** The loop that frees the inputs of a node that are not needed any more. *)
Definition release (output_ids : gset Z) (st : gmap Z Z * gmap Z Tensor) (value_id : ValueId)
  : gmap Z Z * gmap Z Tensor :=
  let '(remaining_uses, values) := st in
  match remaining_uses !! value_id with
  | Some remaining =>
      let remaining := Z.max 0 (remaining - 1) in
      (<[value_id := remaining]> remaining_uses,
       if (remaining =? 0) && negb (bool_decide (value_id ∈ output_ids))
       then delete value_id values else values)
  | None => (remaining_uses, values)
  end.

Definition store_output (node : NodeId) (values : gmap Z Tensor) (p : ValueDecl * Tensor)
  : exec_result (gmap Z Tensor) :=
  let? _ := validate_decl node p.1 p.2 in Ok (<[vd_id p.1 := p.2]> values).

(** One turn of the loop over the nodes; with [free] it releases, as the
    program does. *)
Definition run_node (free : bool) (input_decls : gmap Z ValueDecl) (output_ids : gset Z)
    (st : gmap Z Z * gmap Z Tensor) (node : Node) : exec_result (gmap Z Z * gmap Z Tensor) :=
  let '(remaining_uses, values) := st in
  match n_op node with
  | OpTensor op =>
      let? values := fold_result (resolve_input input_decls (n_id node)) values (n_inputs node) in
      let? node_inputs :=
        map_result (λ v, ok_or (values !! v) (MissingValue (n_id node) v)) (n_inputs node) in
      let? outputs := map_err (Provider (n_id node)) (provider op node_inputs) in
      if negb (len outputs =? len (n_outputs node))
      then Err (OutputArity (n_id node) (len (n_outputs node)) (len outputs))
      else
        let '(remaining_uses, values) :=
          if free then foldl (release output_ids) (remaining_uses, values) (n_inputs node)
          else (remaining_uses, values) in
        let? values := fold_result (store_output (n_id node)) values
                         (combine (n_outputs node) outputs) in
        Ok (remaining_uses, values)
  | _ => Err (UnsupportedNode (n_id node))
  end.

Definition run (free : bool) (graph : Graph) (inputs : gmap Z Tensor) : exec_result (list Tensor) :=
  let? _ := map_err InvalidGraph (Graph_validate graph) in
  let input_decls := decl_map (g_inputs graph) in
  let output_ids := list_to_set (g_outputs graph) in
  let? values := fold_result (load_input input_decls) ∅ (btree_iter inputs) in
  let? '(_, values) := fold_result (run_node free input_decls output_ids) (count_uses graph, values)
                         (g_nodes graph) in
  map_result (λ v, ok_or (values !! v) (MissingValue no_node v)) (g_outputs graph).

Definition execute_with_resolver : Graph → gmap Z Tensor → exec_result (list Tensor) := run true.
End executor.

(** [EmptyTensorResolver], and [execute]. *)
Definition empty_resolver (value : ValueId) : result TensorResolveError (option Tensor) := Ok None.
Definition execute (provider : TensorOp → list Tensor → tensor_result (list Tensor))
  : Graph → gmap Z Tensor → exec_result (list Tensor) :=
  execute_with_resolver provider empty_resolver.

(** ** Counting uses *)
Definition uses (nodes : list Node) (v : Z) : Z :=
  len (filter (λ x, x = v) (concat (map n_inputs nodes))).
Definition occurrences (l : list Z) (v : Z) : Z := len (filter (λ x, x = v) l).

Lemma occurrences_cons x l v : occurrences (x :: l) v = (if decide (x = v) then 1 else 0) + occurrences l v.
Proof. unfold occurrences. rewrite filter_cons. case_decide; rewrite ?len_cons; lia. Qed.
Lemma occurrences_nonneg l v : 0 ≤ occurrences l v.
Proof. apply len_nonneg. Qed.
Lemma occurrences_pos l v : v ∈ l → 0 < occurrences l v.
Proof.
  induction l as [|x l IH]; [by intros ?%elem_of_nil|]. rewrite occurrences_cons.
  pose proof (occurrences_nonneg l v). intros [->|Hv]%elem_of_cons; [rewrite decide_True by done; lia|].
  case_decide; [lia|by apply IH].
Qed.
Lemma uses_cons node nodes v : uses (node :: nodes) v = occurrences (n_inputs node) v + uses nodes v.
Proof. unfold uses, occurrences. cbn. rewrite filter_app. apply len_app. Qed.
Lemma uses_nonneg nodes v : 0 ≤ uses nodes v.
Proof. apply len_nonneg. Qed.

Lemma count_use_lookup m l v : default 0 (foldl count_use m l !! v) = default 0 (m !! v) + occurrences l v.
Proof.
  revert m. induction l as [|x l IH]; intros m; cbn [foldl]; [change (occurrences [] v) with 0; lia|].
  rewrite IH, occurrences_cons. unfold count_use. case_decide as Hx.
  - subst. rewrite lookup_insert_eq. cbn. lia.
  - rewrite lookup_insert_ne by done. lia.
Qed.
Lemma count_uses_lookup graph v : default 0 (count_uses graph !! v) = uses (g_nodes graph) v.
Proof.
  unfold count_uses. assert (∀ nodes m, default 0 (foldl (λ m node, foldl count_use m (n_inputs node)) m nodes !! v)
    = default 0 (m !! v) + uses nodes v) as Hm; [|by rewrite Hm, lookup_empty].
  induction nodes as [|node nodes IH]; intros m; cbn [foldl]; [change (uses [] v) with 0; lia|].
  rewrite IH, count_use_lookup, uses_cons. lia.
Qed.

(** ** Agreement

    The values kept and the values not freed agree on what is still needed. *)
Section agreement.
Context (provider : TensorOp → list Tensor → tensor_result (list Tensor)).
Context (resolver : ValueId → result TensorResolveError (option Tensor)).
Context (input_decls : gmap Z ValueDecl) (output_ids : gset Z).

Definition needed (l : list Z) (nodes : list Node) (v : Z) : Prop :=
  v ∈ l ∨ 0 < uses nodes v ∨ v ∈ output_ids.
Definition agree (P : Z → Prop) (kept freed : gmap Z Tensor) : Prop :=
  ∀ v, P v → freed !! v = kept !! v.
(** Both computations fail alike, or return states that agree. *)
Definition both {A} (R : A → A → Prop) (x y : exec_result A) : Prop :=
  match x, y with
  | Ok a, Ok b => R a b
  | Err e, Err e' => e = e'
  | Panic, Panic => True
  | _, _ => False
  end.

Lemma both_bind {A B} (R : A → A → Prop) (Q : B → B → Prop) x y (k k' : A → exec_result B) :
  both R x y → (∀ a b, R a b → both Q (k a) (k' b)) →
  both Q (let? a := x in k a) (let? b := y in k' b).
Proof. destruct x, y; cbn; intros Hr Hk; try done; auto. Qed.
Lemma both_same {A} (R : A → A → Prop) (x : exec_result A) : (∀ a, R a a) → both R x x.
Proof. destruct x; cbn; auto. Qed.

Lemma resolving_agrees (P : Z → Prop) node kept freed v :
  agree P kept freed → P v →
  both (agree P) (resolve_input resolver input_decls node kept v) (resolve_input resolver input_decls node freed v).
Proof.
  intros Ha Hv. unfold resolve_input. rewrite (Ha v Hv). case_bool_decide; [done|].
  destruct (ok_or (input_decls !! v) _) as [decl| |]; cbn; try done.
  destruct (map_err _ (resolver v)) as [r| |]; cbn; try done.
  destruct (ok_or r _) as [t| |]; cbn; try done.
  destruct (validate_decl _ _ _); cbn; try done. intros w Hw.
  destruct (decide (w = v)) as [->|]; [by rewrite !lookup_insert_eq|].
  by rewrite !lookup_insert_ne by done; apply Ha.
Qed.

Lemma resolve_all_agree (P : Z → Prop) node l kept freed :
  agree P kept freed → (∀ v, v ∈ l → P v) →
  both (agree P) (fold_result (resolve_input resolver input_decls node) kept l)
    (fold_result (resolve_input resolver input_decls node) freed l).
Proof.
  revert kept freed. induction l as [|v l IH]; intros kept freed Ha Hl; cbn; [done|].
  pose proof (resolving_agrees P node kept freed v Ha (Hl v (list_elem_of_here _ _))) as Hr.
  destruct (resolve_input _ _ _ kept v), (resolve_input _ _ _ freed v); cbn in Hr; try done.
  apply IH; [done|]. intros w Hw. apply Hl. by right.
Qed.

Lemma store_agree (P : Z → Prop) node l kept freed :
  agree P kept freed →
  both (agree P) (fold_result (store_output node) kept l) (fold_result (store_output node) freed l).
Proof.
  revert kept freed. induction l as [|[d t] l IH]; intros kept freed Ha; cbn; [done|].
  unfold store_output. cbn. destruct (validate_decl _ _ _); cbn; try done. apply IH. intros w Hw.
  destruct (decide (w = vd_id d)) as [->|]; [by rewrite !lookup_insert_eq|].
  by rewrite !lookup_insert_ne by done; apply Ha.
Qed.

(** Releasing [l], with the counts of [l] and the nodes after it. *)
Lemma release_agree l nodes remaining kept freed :
  (∀ v, default 0 (remaining !! v) = occurrences l v + uses nodes v) →
  agree (needed l nodes) kept freed →
  ∃ remaining' freed', foldl (release output_ids) (remaining, freed) l = (remaining', freed') ∧
    (∀ v, default 0 (remaining' !! v) = uses nodes v) ∧ agree (needed [] nodes) kept freed'.
Proof.
  revert remaining freed. induction l as [|x l IH]; intros remaining freed Hr Ha; cbn [foldl].
  { exists remaining, freed. split_and!; [done| |done]. intros v. rewrite Hr. change (occurrences [] v) with 0. lia. }
  pose proof (Hr x) as Hx. rewrite occurrences_cons, decide_True in Hx by done.
  pose proof (occurrences_nonneg l x). pose proof (uses_nonneg nodes x).
  destruct (remaining !! x) as [c|] eqn:Hc; cbn in Hx; [|lia].
  unfold release at 2. rewrite Hc. replace (Z.max 0 (c - 1)) with (occurrences l x + uses nodes x) by lia.
  apply IH.
  - intros v. destruct (decide (x = v)) as [<-|Hne]; [by rewrite lookup_insert_eq|].
    rewrite lookup_insert_ne, Hr, occurrences_cons, decide_False by done. lia.
  - intros v Hv. destruct (Z.eqb_spec (occurrences l x + uses nodes x) 0) as [Hz|]; cbn [andb];
      [case_bool_decide as Ho; cbn [negb]|].
    2: { assert (v ≠ x) as Hne.
         { intros ->. destruct Hv as [Hv|[Hv|Hv]]; [apply occurrences_pos in Hv|..]; (lia || done). }
         rewrite lookup_delete_ne by done. apply Ha. destruct Hv; [left; by right|by right]. }
    all: apply Ha; destruct Hv; [left; by right|by right].
Qed.

Lemma run_node_agree node nodes remaining kept freed unused :
  (∀ v, default 0 (remaining !! v) = uses (node :: nodes) v) →
  agree (needed [] (node :: nodes)) kept freed →
  both (λ st st', (∀ v, default 0 (st'.1 !! v) = uses nodes v) ∧ agree (needed [] nodes) st.2 st'.2)
    (run_node provider resolver false input_decls output_ids (unused, kept) node)
    (run_node provider resolver true input_decls output_ids (remaining, freed) node).
Proof.
  intros Hr Ha. unfold run_node. destruct (n_op node); try done.
  assert (∀ v, needed (n_inputs node) nodes v → needed [] (node :: nodes) v) as Hn.
  { unfold needed. intros v. rewrite uses_cons. pose proof (uses_nonneg nodes v).
    pose proof (occurrences_nonneg (n_inputs node) v).
    intros [?%occurrences_pos|[?|?]]; [right; left; lia|right; left; lia|by right; right]. }
  eapply both_bind; [apply (resolve_all_agree (needed (n_inputs node) nodes))|].
  { intros v Hv. by apply Ha, Hn. } { intros v Hv. by left. }
  intros k f Hkf. eapply (both_bind eq).
  { replace (map_result (λ v, ok_or (f !! v) (MissingValue (n_id node) v)) (n_inputs node))
      with (map_result (λ v, ok_or (k !! v) (MissingValue (n_id node) v)) (n_inputs node)).
    - by apply both_same.
    - assert (∀ l, (∀ v, v ∈ l → f !! v = k !! v) →
        map_result (λ v, ok_or (k !! v) (MissingValue (n_id node) v)) l =
        map_result (λ v, ok_or (f !! v) (MissingValue (n_id node) v)) l) as Heq.
      { induction l as [|v l IHl]; intros Hl; [done|]. cbn. rewrite (Hl v) by left.
        rewrite IHl; [done|]. intros w Hw. apply Hl. by right. }
      apply Heq. intros v Hv. apply Hkf. by left. }
  intros ins ? <-. eapply (both_bind eq); [by apply both_same|]. intros outs ? <-.
  destruct (negb _); [done|].
  destruct (release_agree (n_inputs node) nodes remaining k f) as (r' & f' & -> & Hr' & Hf');
    [intros v; rewrite Hr; apply uses_cons|done|].
  eapply both_bind; [by apply (store_agree (needed [] nodes))|]. intros k2 f2 H2. done.
Qed.

Lemma run_nodes_agree nodes remaining kept freed unused :
  (∀ v, default 0 (remaining !! v) = uses nodes v) → agree (needed [] nodes) kept freed →
  both (λ st st', ∀ v, v ∈ output_ids → st'.2 !! v = st.2 !! v)
    (fold_result (run_node provider resolver false input_decls output_ids) (unused, kept) nodes)
    (fold_result (run_node provider resolver true input_decls output_ids) (remaining, freed) nodes).
Proof.
  revert remaining kept freed unused. induction nodes as [|node nodes IH]; intros remaining kept freed unused Hr Ha.
  { cbn. intros v Hv. apply Ha. by right; right. }
  cbn [fold_result]. pose proof (run_node_agree node nodes remaining kept freed unused Hr Ha) as Hb.
  destruct (run_node _ _ false _ _ _ node) as [[u k]| |], (run_node _ _ true _ _ _ node) as [[r f]| |];
    cbn in Hb; try done. destruct Hb. by apply IH.
Qed.
End agreement.

Lemma run_agrees provider resolver graph inputs :
  run provider resolver true graph inputs = run provider resolver false graph inputs.
Proof.
  unfold run. destruct (map_err InvalidGraph (Graph_validate graph)); [|done..].
  destruct (fold_result _ ∅ (btree_iter inputs)) as [values| |]; [|done..].
  pose proof (run_nodes_agree provider resolver (decl_map (g_inputs graph)) (list_to_set (g_outputs graph))
    (g_nodes graph) (count_uses graph) values values (count_uses graph) (count_uses_lookup graph)) as Hb.
  specialize (Hb ltac:(by intros v _)).
  destruct (fold_result _ (count_uses graph, values) (g_nodes graph)) as [[u k]|e|],
    (fold_result (run_node _ _ true _ _) _ _) as [[r f]|e'|]; cbn in Hb; try done; [|congruence].
  assert (∀ l, (∀ v, v ∈ l → f !! v = k !! v) →
    map_result (λ v, ok_or (f !! v) (MissingValue no_node v)) l =
    map_result (λ v, ok_or (k !! v) (MissingValue no_node v)) l) as Heq.
  { induction l as [|v l IHl]; intros Hl; [done|]. cbn. rewrite (Hl v) by left.
    rewrite IHl; [done|]. intros w Hw. apply Hl. by right. }
  apply Heq. intros v Hv. apply Hb. set_solver.
Qed.

(** ** Totality *)
Section totality.
Context (provider : TensorOp → list Tensor → tensor_result (list Tensor)).
Context (resolver : ValueId → result TensorResolveError (option Tensor)).
(** What the provider returns for well-formed tensors, and what the resolver
    returns, is well formed. *)
Context (Hprovider : ∀ op ins outs, Forall tensor_wf ins → provider op ins = Ok outs → Forall tensor_wf outs).
Context (Hresolver : ∀ v t, resolver v = Ok (Some t) → tensor_wf t).
Context (g : Graph).

(** Where a panic comes from: the provider, on well-formed tensors and the
    operation of a node, or the resolver, asked for an input of the graph. *)
Definition panic_source : Prop :=
  (∃ node op ins, node ∈ g_nodes g ∧ n_op node = OpTensor op ∧ Forall tensor_wf ins ∧ provider op ins = Panic) ∨
  (∃ v, v ∈ decl_ids (g_inputs g) ∧ resolver v = Panic).

(** The error a validated graph can still meet: a graph output that is an input
    nothing has supplied. *)
Definition reported (e : ExecutionError) : Prop :=
  match e with
  | MissingValue node v => node = no_node ∧ v ∈ g_outputs g ∧ v ∈ decl_ids (g_inputs g) ∧
      v ∉ concat (map (decl_ids ∘ n_outputs) (g_nodes g))
  | _ => True
  end.
Definition settles {A} (P : A → Prop) (m : exec_result A) : Prop :=
  match m with Ok a => P a | Err e => reported e | Panic => panic_source end.

Lemma settles_bind {A B} (P : A → Prop) (Q : B → Prop) m (k : A → exec_result B) :
  settles P m → (∀ a, P a → settles Q (k a)) → settles Q (let? a := m in k a).
Proof. destruct m; cbn; auto. Qed.
Lemma settles_impl {A} (P Q : A → Prop) m : settles P m → (∀ a, P a → Q a) → settles Q m.
Proof. destruct m; cbn; auto. Qed.
Lemma settles_fold {S A} (P : S → Prop) (f : S → A → exec_result S) s l :
  P s → (∀ s x, P s → x ∈ l → settles P (f s x)) → settles P (fold_result f s l).
Proof.
  revert s. induction l as [|x l IH]; intros s Hs Hf; cbn; [done|].
  pose proof (Hf s x Hs (list_elem_of_here _ _)) as Hx. destruct (f s x); [|done..].
  apply IH; [done|]. intros. apply Hf; [done|by right].
Qed.
Lemma settles_call {E A} (P : A → Prop) (f : E → ExecutionError) (m : result E A) :
  (∀ e, reported (f e)) → (∀ a, m = Ok a → P a) → (m = Panic → panic_source) → settles P (map_err f m).
Proof. intros Hf Ha Hp. destruct m; cbn; auto. Qed.
Lemma validate_decl_settles node d t : settles (λ _, True) (validate_decl node d t).
Proof. unfold validate_decl. destruct (vd_ty d); cbn; try done; by destruct (negb _). Qed.

(** The values so far: well formed, and defined for the ids [defs]. *)
Definition values_ok (defs : list Z) (values : gmap Z Tensor) : Prop :=
  map_Forall (λ _, tensor_wf) values ∧ ∀ v, v ∈ defs → is_Some (values !! v).

Lemma values_ok_insert defs values v t :
  values_ok defs values → tensor_wf t → values_ok (v :: defs) (<[v := t]> values).
Proof.
  intros [Hwf Hd] Ht. split; [by apply map_Forall_insert_2|]. intros w [->|Hw]%elem_of_cons.
  - by rewrite lookup_insert_eq.
  - apply lookup_insert_is_Some'. auto.
Qed.
Lemma values_ok_weaken defs defs' values :
  values_ok defs values → (∀ v, v ∈ defs' → v ∈ defs) → values_ok defs' values.
Proof. intros [? Hd] Hs. split; auto. Qed.

Lemma decl_map_lookup ds v : v ∈ decl_ids ds → is_Some (decl_map ds !! v).
Proof.
  unfold decl_map. assert (∀ ds (m : gmap Z ValueDecl), v ∈ decl_ids ds ∨ is_Some (m !! v) →
    is_Some (foldl (λ m decl, <[vd_id decl := decl]> m) m ds !! v)) as Hgen.
  { clear ds. induction ds as [|d ds IH]; intros m Hv; cbn [foldl].
    - destruct Hv as [Hv|]; [by apply elem_of_nil in Hv|done].
    - apply IH. cbn in Hv. rewrite elem_of_cons in Hv. rewrite lookup_insert_is_Some'. naive_solver. }
  intros ?. apply Hgen. by left.
Qed.

Lemma resolve_inputs_settles defs node l values :
  values_ok defs values → (∀ v, v ∈ l → v ∈ defs ∨ v ∈ decl_ids (g_inputs g)) →
  settles (λ values', values_ok (l ++ defs) values')
    (fold_result (resolve_input resolver (decl_map (g_inputs g)) node) values l).
Proof.
  intros Hv. revert defs values Hv. induction l as [|v l IH]; intros defs values Hv Hl; cbn [fold_result]; [done|].
  assert (settles (λ values', values_ok (v :: defs) values')
    (resolve_input resolver (decl_map (g_inputs g)) node values v)) as Hstep.
  { unfold resolve_input. case_bool_decide as Hs.
    - destruct Hv as [? Hd]. split; [done|]. intros w [->|?]%elem_of_cons; auto.
    - destruct (Hl v (list_elem_of_here _ _)) as [Hin|Hin]; [by apply Hv in Hin|].
      pose proof (decl_map_lookup _ _ Hin) as [d ->]. cbn [ok_or].
      eapply settles_bind; [apply (settles_call (λ o, ∀ t, o = Some t → tensor_wf t)); [done| |]|].
      { intros o Ho t ->. by eapply Hresolver. } { intros Hp. right. by exists v. }
      intros [t|] Ht; cbn; [|done].
      eapply settles_bind; [apply validate_decl_settles|]. intros _ _. apply values_ok_insert; auto. }
  destruct (resolve_input _ _ _ _ _) as [values'| |]; [|done..]. eapply settles_impl; [apply (IH (v :: defs))|].
  - done.
  - intros w Hw. destruct (Hl w (list_elem_of_further _ _ _ Hw)); [left; by right|by right].
  - cbn beta. intros values2 Hok. eapply values_ok_weaken; [exact Hok|]. intros w. set_solver.
Qed.

Lemma store_outputs_settles defs node decls outputs values :
  values_ok defs values → Forall tensor_wf outputs → length outputs = length decls →
  settles (values_ok (defs ++ decl_ids decls)) (fold_result (store_output node) values (combine decls outputs)).
Proof.
  revert defs outputs values. induction decls as [|d decls IH]; intros defs [|t outputs] values Hv Ht Hl;
    cbn in Hl; try done; cbn [combine fold_result decl_ids map].
  - by rewrite app_nil_r.
  - apply Forall_cons in Ht as [Ht Hts]. unfold store_output at 1. cbn [fst snd].
    pose proof (validate_decl_settles node d t) as Hvd. destruct (validate_decl node d t); [|done..].
    eapply settles_impl; [apply (IH (vd_id d :: defs)); [by apply values_ok_insert|done|lia]|].
    cbn beta. intros values2 Hok. eapply values_ok_weaken; [exact Hok|]. unfold decl_ids. set_solver.
Qed.

Lemma read_values_settles (values : gmap Z Tensor) node l defs :
  values_ok defs values →
  (∀ v, v ∈ l → v ∈ defs ∨ (values !! v = None → reported (MissingValue node v))) →
  settles (λ ts, length ts = length l ∧ Forall tensor_wf ts)
    (map_result (λ v, ok_or (values !! v) (MissingValue node v)) l).
Proof.
  intros Hv. induction l as [|v l IH]; intros Hl; cbn [map_result]; [by split; [|constructor]|].
  pose proof (Hl v (list_elem_of_here _ _)) as Hd.
  destruct (values !! v) as [t|] eqn:Hx; cbn [ok_or].
  - eapply settles_bind; [apply IH; intros w Hw; apply Hl; by right|]. intros ts [? ?].
    split; [cbn; lia|]. constructor; [|done]. destruct Hv as [Hwf _]. by eapply Hwf.
  - destruct Hd as [Hd|Hd]; [|by apply Hd]. apply Hv in Hd. rewrite Hx in Hd. by destruct Hd.
Qed.

Lemma run_node_settles i node remaining values :
  well_formed g → g_nodes g !! i = Some node →
  values_ok (concat (map (decl_ids ∘ n_outputs) (take i (g_nodes g)))) values →
  settles (λ st, values_ok (concat (map (decl_ids ∘ n_outputs) (take (S i) (g_nodes g)))) st.2)
    (run_node provider resolver false (decl_map (g_inputs g)) (list_to_set (g_outputs g)) (remaining, values) node).
Proof.
  intros Hwf Hi Hv. unfold run_node. destruct (n_op node) eqn:Hop; try done.
  set (defs := concat (map (decl_ids ∘ n_outputs) (take i (g_nodes g)))) in *.
  eapply settles_bind; [apply (resolve_inputs_settles defs); [done|]|].
  { intros v Hin. pose proof (wf_defined_before_use g Hwf i node v Hi Hin) as Hd.
    unfold defs_upto in Hd. apply elem_of_app in Hd. tauto. }
  intros values1 Hv1. eapply settles_bind; [apply (read_values_settles values1 _ _ _ Hv1)|].
  { intros v Hin. left. apply elem_of_app. by left. }
  intros ins [_ Hins]. eapply settles_bind; [apply (settles_call (Forall tensor_wf)); [done| |]|].
  { intros outs. by apply Hprovider. }
  { intros Hp. left. eexists node, _, ins. split_and!; [by eapply list_elem_of_lookup_2|done..]. }
  intros outs Houts.
  destruct (Z.eqb_spec (len outs) (len (n_outputs node))) as [Hl|]; cbn [negb]; [|done].
  eapply settles_bind; [apply (store_outputs_settles defs)|].
  - eapply values_ok_weaken; [exact Hv1|]. intros v ?. apply elem_of_app. by right.
  - done.
  - unfold len in Hl. lia.
  - intros values2 Hv2. cbn [settles snd]. rewrite (take_S_r _ _ _ Hi), map_app, concat_app. cbn [map concat].
    by rewrite app_nil_r.
Qed.

Lemma run_settles inputs :
  map_Forall (λ _, tensor_wf) inputs →
  settles (λ outs, length outs = length (g_outputs g) ∧ Forall tensor_wf outs)
    (run provider resolver false g inputs).
Proof.
  intros Hin. unfold run. pose proof (Graph_validate_Ok_iff g) as Hval.
  pose proof (Graph_validate_no_panic g) as Hnp.
  destruct (Graph_validate g) as [[]|e|]; cbn [map_err]; [|done..].
  pose proof (proj1 Hval eq_refl) as Hwf.
  eapply (settles_bind (values_ok [])).
  { apply settles_fold; [split; [apply map_Forall_empty|by intros ? ?%elem_of_nil]|].
    intros values [v t] Hv Hvt%elem_of_btree_iter. unfold load_input. cbn [fst snd].
    destruct (decl_map _ !! v); [|done]. eapply settles_bind; [apply validate_decl_settles|]. intros _ _.
    eapply values_ok_weaken; [apply (values_ok_insert [] _ v t); [done|by eapply Hin]|]. set_solver. }
  intros values Hv.
  assert (∀ i remaining, (i ≤ length (g_nodes g))%nat →
    settles (λ st, values_ok (concat (map (decl_ids ∘ n_outputs) (take i (g_nodes g)))) st.2)
      (fold_result (run_node provider resolver false (decl_map (g_inputs g)) (list_to_set (g_outputs g)))
        (remaining, values) (take i (g_nodes g)))) as Hnodes.
  { intros i remaining. induction i as [|i IH]; intros Hi; [done|].
    destruct (lookup_lt_is_Some_2 (g_nodes g) i) as [node Hnode]; [lia|].
    rewrite (take_S_r _ _ _ Hnode) at 1. rewrite fold_result_snoc. eapply settles_bind; [apply IH; lia|].
    intros [r vs] Hvs. by apply run_node_settles. }
  specialize (Hnodes (length (g_nodes g)) (count_uses g) ltac:(lia)). rewrite firstn_all in Hnodes.
  eapply settles_bind; [exact Hnodes|]. intros [r values2] Hv2. cbn [snd] in Hv2.
  apply (read_values_settles _ _ _ _ Hv2). intros v Hout.
  destruct (decide (v ∈ concat (map (decl_ids ∘ n_outputs) (g_nodes g)))) as [?|Hn]; [by left|right].
  intros _. cbn. split_and!; [done|done| |done]. pose proof (wf_outputs_defined g Hwf v Hout) as Hd.
  unfold all_defs in Hd. apply elem_of_app in Hd. tauto.
Qed.
End totality.

(** ** Properties *)

(** C25: Releasing a value after its last use is not observable: on every graph that
    validates, execution gives the same outputs and the same errors as execution that keeps
    every value. *)
Theorem freeing_is_unobservable provider resolver graph inputs :
  execute_with_resolver provider resolver graph inputs = run provider resolver false graph inputs.
Proof. apply run_agrees. Qed.

(** C26: With a provider that returns well-formed tensors for such, a resolver of such
    tensors and such inputs, execution returns one well-formed tensor per output of the
    graph, and it panics only if the provider does, on well-formed tensors and the operation
    of a node, or the resolver, asked for an input of the graph; the only output it cannot
    find is an input of the graph that was not passed and that no node computes. *)
Theorem execute_total provider resolver graph inputs :
  (∀ op ins outs, Forall tensor_wf ins → provider op ins = Ok outs → Forall tensor_wf outs) →
  (∀ v t, resolver v = Ok (Some t) → tensor_wf t) →
  map_Forall (λ _, tensor_wf) inputs →
  match execute_with_resolver provider resolver graph inputs with
  | Ok outputs => length outputs = length (g_outputs graph) ∧ Forall tensor_wf outputs
  | Err (MissingValue node v) => node = no_node ∧ v ∈ g_outputs graph ∧
      v ∈ decl_ids (g_inputs graph) ∧ v ∉ concat (map (decl_ids ∘ n_outputs) (g_nodes graph))
  | Err _ => True
  | Panic => panic_source provider resolver graph
  end.
Proof.
  intros Hp Hr Hin. unfold execute_with_resolver. rewrite run_agrees.
  pose proof (run_settles provider resolver Hp Hr graph inputs Hin) as Hs.
  by destruct (run _ _ _ _ _) as [outs|e|]; [|destruct e|].
Qed.

(** ** Concrete instances *)
Lemma cpu_provider `{Libm} op ins outs :
  Forall tensor_wf ins → cpu_reference op ins = Ok outs → Forall tensor_wf outs.
Proof.
  intros Hin Ho. destruct (reservation_overflows op ins) eqn:Hr; [by rewrite cpu_reference_overflows in Ho|].
  pose proof (cpu_reference_yields op ins Hin Hr) as Hy. rewrite Ho in Hy. destruct Hy as (t & -> & ? & _). by constructor.
Qed.

Definition matrix_decl (id : Z) : ValueDecl := mkValueDecl id (Ir.Tensor F32 2).
Definition sample_graph : Graph :=
  mkGraph IrVersion_CURRENT [matrix_decl 1; matrix_decl 2] [3]
    [mkNode 7 (OpTensor MatMul) [1; 2] [matrix_decl 3]].
Definition sample_inputs : gmap Z Tensor := {[1 := sample_lhs; 2 := sample_rhs]}.
Example sample_run :
  execute (cpu_reference (H:=sample_libm)) sample_graph sample_inputs = Ok [mkTensor [1; 1] [f32_of_Z 11]].
Proof. vm_compute. reflexivity. Qed.

(** A graph output that is a graph input is not asked of the resolver. *)
Lemma passed_input_not_resolved :
  execute_with_resolver (cpu_reference (H:=sample_libm)) (λ _, Ok (Some sample_lhs))
    (mkGraph IrVersion_CURRENT [matrix_decl 1] [1] []) ∅ = Err (MissingValue no_node 1).
Proof. vm_compute. reflexivity. Qed.

Lemma execute_total_witness :
  ∃ outputs, execute (cpu_reference (H:=sample_libm)) sample_graph sample_inputs = Ok outputs ∧
    Forall tensor_wf outputs.
Proof.
  pose proof (execute_total (cpu_reference (H:=sample_libm)) empty_resolver sample_graph sample_inputs
    (cpu_provider (H:=sample_libm)) ltac:(by intros v t) ltac:(by repeat apply map_Forall_insert_2;
      [apply (Forall_inv sample_tensors)|apply (Forall_inv (Forall_inv_tail sample_tensors))|apply map_Forall_empty]))
    as Ht.
  change (execute_with_resolver (cpu_reference (H:=sample_libm)) empty_resolver) with
    (execute (cpu_reference (H:=sample_libm))) in Ht. rewrite sample_run in Ht |- *.
  eexists. split; [reflexivity|exact (proj2 Ht)].
Defined.
End Executor.
