(* ===== verification/Mobile.v ===== *)
(** Placement of tensors and choice of execution providers on a device:
    src/crates/ntd-runtime/src/mobile.rs.

    The loops over pages and over tiles take fuel; [None] is a loop that has not
    ended with the fuel given.  A provider is a profile and a function. *)
From S2P Require Import Prelude Float32 Ir Tensor.

Module Mobile.
Import TensorOps.

Inductive ProviderKind := CpuReference | CpuTiled | Vulkan | Npu.
#[export] Instance ProviderKind_eq_dec : EqDecision ProviderKind.
Proof. solve_decision. Defined.
#[export] Instance TensorOp_eq_dec : EqDecision TensorOp.
Proof. solve_decision. Defined.

Inductive ThermalState := Nominal | Warm | Hot | Critical.
#[export] Instance ThermalState_eq_dec : EqDecision ThermalState.
Proof. solve_decision. Defined.
(** The derived order, as positions. *)
Definition thermal_rank (t : ThermalState) : Z :=
  match t with Nominal => 0 | Warm => 1 | Hot => 2 | Critical => 3 end.

Inductive PowerClass := Low | Medium | High.
Definition power_rank (p : PowerClass) : Z := match p with Low => 0 | Medium => 1 | High => 2 end.

Record DeviceCapabilities := mkDevice {
  dc_logical_cores : Z;
  dc_total_ram_bytes : Z;
  dc_supports_vulkan : bool;
  dc_supports_npu : bool;
}.

Record ResourceSnapshot := mkSnapshot {
  rs_available_ram_bytes : Z;
  rs_battery_percent : Z;
  rs_charging : bool;
  rs_thermal : ThermalState;
  rs_latency_budget_ms : Z;
}.

Definition normalized (self : ResourceSnapshot) (device : DeviceCapabilities) : ResourceSnapshot :=
  mkSnapshot (Z.min (rs_available_ram_bytes self) (dc_total_ram_bytes device))
    (Z.min (rs_battery_percent self) 100) (rs_charging self) (rs_thermal self)
    (rs_latency_budget_ms self).

Inductive QuantizationProfile := ReferenceF32 | BalancedF16 | MobileI8 | AggressiveI8.
Definition bytes_per_element (self : QuantizationProfile) : Z :=
  match self with ReferenceF32 => 4 | BalancedF16 => 2 | MobileI8 | AggressiveI8 => 1 end.
Definition GIB : Z := 1024 * 1024 * 1024.
Definition recommended (device : DeviceCapabilities) : QuantizationProfile :=
  let ram := dc_total_ram_bytes device in
  if ram <? 6 * GIB then AggressiveI8
  else if ram <? 10 * GIB then MobileI8
  else if ram <? 16 * GIB then BalancedF16
  else ReferenceF32.

Record ComputePolicy := mkPolicy {
  cp_reserve_ram_bytes : Z;
  cp_page_bytes : Z;
  cp_min_battery_for_accelerator : Z;
  cp_allow_vulkan : bool;
  cp_allow_npu : bool;
  cp_prefer_low_power : bool;
  cp_quantization : QuantizationProfile;
}.
Definition MIB : Z := 1024 * 1024.
Definition for_device (device : DeviceCapabilities) : ComputePolicy :=
  mkPolicy (Z.max (dc_total_ram_bytes device / 8) (256 * MIB)) (16 * MIB) 15 true true false
    (recommended device).

Inductive TensorPlacement :=
| ResidentCpu
| PagedCpu (page_bytes : Z)
| AcceleratorLocal (provider : ProviderKind).

Record TensorPlacementPlan := mkPlacement {
  tp_quantization : QuantizationProfile;
  tp_placement : TensorPlacement;
  tp_estimated_bytes : Z;
  tp_page_count : Z;
}.

Record PageWindow := mkWindow { pw_offset : Z; pw_len : Z }.

Inductive MobileComputeError := McOverflow | McInvalidPageSize.

(** ** Pages *)
Fixpoint window_loop (fuel : nat) (total_bytes page_bytes offset : Z) (windows : list PageWindow)
  : option (result MobileComputeError (list PageWindow)) :=
  if negb (offset <? total_bytes) then Some (Ok windows)
  else
    match fuel with
    | O => None
    | S fuel' =>
        let remaining := total_bytes - offset in
        let n := Z.min remaining page_bytes in
        match checked_add_u64 offset n with
        | Some offset' => window_loop fuel' total_bytes page_bytes offset' (windows ++ [mkWindow offset n])
        | None => Some (Err McOverflow)
        end
    end.
(** [total_bytes.div_ceil(page_bytes)]. *)
Definition div_ceil (a b : Z) : Z := a / b + (if a mod b =? 0 then 0 else 1).
(** The bytes of a [PageWindow], a pair of u64. *)
Definition window_width : Z := 16.
Definition page_windows (fuel : nat) (total_bytes page_bytes : Z)
  : option (result MobileComputeError (list PageWindow)) :=
  if page_bytes =? 0 then Some (Err McInvalidPageSize)
  else
    match try_usize (div_ceil total_bytes page_bytes) with
    | None => Some (Err McOverflow)
    | Some capacity =>
        match with_capacity (E:=MobileComputeError) window_width capacity with
        | Ok _ => window_loop fuel total_bytes page_bytes 0 []
        | Err e => Some (Err e)
        | Panic => Some Panic
        end
    end.

(** [SliceByteRegion] and [PagedByteReader]. *)
Definition read_range (region : bytes) (offset n : Z) : option bytes :=
  start ← try_usize offset; width ← try_usize n; end_ ← checked_add_usize start width;
  get_range region start end_.
Record PagedByteReader := mkReader { pr_region : bytes; pr_windows : list PageWindow }.
Definition PagedByteReader_new (fuel : nat) (region : bytes) (page_bytes : Z)
  : option (result MobileComputeError PagedByteReader) :=
  match page_windows fuel (len region) page_bytes with
  | Some (Ok windows) => Some (Ok (mkReader region windows))
  | Some (Err e) => Some (Err e)
  | Some Panic => Some Panic
  | None => None
  end.
Definition page_count (self : PagedByteReader) : Z := len (pr_windows self).
Definition page (self : PagedByteReader) (index : Z) : option bytes :=
  w ← pr_windows self !! Z.to_nat index; read_range (pr_region self) (pw_offset w) (pw_len w).

(** ** Placement *)
Definition is_accelerator (kind : ProviderKind) : bool :=
  match kind with Vulkan | Npu => true | CpuReference | CpuTiled => false end.

Definition accelerator_permitted (kind : ProviderKind) (device : DeviceCapabilities)
    (snapshot : ResourceSnapshot) (policy : ComputePolicy) : bool :=
  let supported :=
    match kind with
    | Vulkan => cp_allow_vulkan policy && dc_supports_vulkan device
    | Npu => cp_allow_npu policy && dc_supports_npu device
    | CpuReference | CpuTiled => true
    end in
  if negb supported then false
  else if is_accelerator kind && negb (rs_charging snapshot)
          && (rs_battery_percent snapshot <? cp_min_battery_for_accelerator policy)
  then false
  else if is_accelerator kind && (thermal_rank Hot <=? thermal_rank (rs_thermal snapshot)) then false
  else true.

(** [a.saturating_sub(b)] on unsigned integers. *)
Definition saturating_sub (a b : Z) : Z := Z.max 0 (a - b).

Definition plan_tensor_placement (fuel : nat) (element_count : Z) (device : DeviceCapabilities)
    (snapshot : ResourceSnapshot) (policy : ComputePolicy)
  : option (result MobileComputeError TensorPlacementPlan) :=
  let snapshot := normalized snapshot device in
  match checked_mul_u64 element_count (bytes_per_element (cp_quantization policy)) with
  | None => Some (Err McOverflow)
  | Some estimated_bytes =>
      let resident_budget := saturating_sub (rs_available_ram_bytes snapshot) (cp_reserve_ram_bytes policy) in
      let accelerator :=
        if accelerator_permitted Npu device snapshot policy then Some Npu
        else if accelerator_permitted Vulkan device snapshot policy then Some Vulkan
        else None in
      let placement :=
        if estimated_bytes <=? resident_budget / 2 then
          match accelerator with Some provider => AcceleratorLocal provider | None => ResidentCpu end
        else PagedCpu (cp_page_bytes policy) in
      let plan n := mkPlacement (cp_quantization policy) placement estimated_bytes n in
      match placement with
      | PagedCpu page_bytes =>
          match page_windows fuel estimated_bytes page_bytes with
          | Some (Ok windows) => Some (Ok (plan (len windows)))
          | Some (Err e) => Some (Err e)
          | Some Panic => Some Panic
          | None => None
          end
      | ResidentCpu | AcceleratorLocal _ => Some (Ok (plan 1))
      end
  end.

(** ** Providers *)
Record ProviderProfile := mkProfile {
  pp_kind : ProviderKind;
  pp_name : string;
  pp_minimum_working_set_bytes : Z;
  pp_power : PowerClass;
  pp_priority : Z;
  pp_supported_ops : list TensorOp;
}.
Definition supports (self : ProviderProfile) (op : TensorOp) : bool :=
  bool_decide (op ∈ pp_supported_ops self).
Definition all_tensor_ops (kind : ProviderKind) (name : string) : ProviderProfile :=
  mkProfile kind name 0 Medium 100
    [Add; Mul; MatMul; QuantizedMatMul; RmsNorm; Softmax; Gather; RotaryPosition; CausalAttention;
     Silu; Reshape; Transpose; PositionIds].
Definition set_power (power : PowerClass) (priority : Z) (p : ProviderProfile) : ProviderProfile :=
  mkProfile (pp_kind p) (pp_name p) (pp_minimum_working_set_bytes p) power priority (pp_supported_ops p).

(** The traits [ExecutionProvider] and [MobileExecutionProvider]. *)
Record MobileExecutionProvider := mkProvider {
  mp_profile : ProviderProfile;
  mp_execute : TensorOp → list Tensor → tensor_result (list Tensor);
}.

Definition CpuReferenceMobileProvider `{Libm} : MobileExecutionProvider :=
  mkProvider (set_power Low 400 (all_tensor_ops CpuReference "cpu-reference")) cpu_reference.

(** ** The tiled product *)

(** The blocks of the inner [while] loop. *)
Fixpoint tile_blocks (fuel : nat) (tile k block : Z) : option (list (Z * Z)) :=
  if negb (block <? k) then Some []
  else
    match fuel with
    | O => None
    | S fuel' =>
        let end_ := Z.min (Z.min (block + tile) (2 ^ 64 - 1)) k in
        blocks ← tile_blocks fuel' tile k end_; Some ((block, end_) :: blocks)
    end.

Definition tiled_matmul (blocks : list (Z * Z)) (inputs : list Tensor) : tensor_result Tensor :=
  let? _ := require_arity inputs 2 in
  let? lhs := at_index inputs 0 in
  let? rhs := at_index inputs 1 in
  let? '(m, k, n) := matrix_dims lhs rhs in
  let? output_len := ok_or (checked_mul_usize m n) InvalidShape in
  let? _ := with_capacity 4 output_len in
  let? d := fill_matrix m n (λ row col,
      fold_result (λ sum b,
        fold_result (mul_add (data lhs) (data rhs) k n row col) sum (range b.1 b.2)) f32_zero blocks)
    (replicate (Z.to_nat output_len) f32_zero) in
  Tensor_new [m; n] d.

(** The inner dimension the blocks run over. *)
Definition inner_dimension (inputs : list Tensor) : Z :=
  match inputs with a :: _ => match shape a with [_; k] => k | _ => 0 end | [] => 0 end.

(** [CpuTiledProvider]; [new] keeps the tile positive. *)
Definition CpuTiledProvider_new (tile : Z) : Z := Z.max tile 1.
Definition cpu_tiled_execute `{Libm} (tile : Z) (op : TensorOp) (inputs : list Tensor)
  : option (tensor_result (list Tensor)) :=
  match op with
  | MatMul | QuantizedMatMul =>
      let k := inner_dimension inputs in
      blocks ← tile_blocks (Z.to_nat k) tile k 0;
      Some (let? t := tiled_matmul blocks inputs in Ok [t])
  | _ => Some (cpu_reference op inputs)
  end.
Definition cpu_tiled_profile : ProviderProfile :=
  set_power Medium 300 (all_tensor_ops CpuTiled "cpu-tiled").

Definition vulkan_provider (backend : TensorOp → list Tensor → tensor_result (list Tensor)) (name : string)
    (minimum_working_set_bytes : Z) (supported_ops : list TensorOp) : MobileExecutionProvider :=
  mkProvider (mkProfile Vulkan name minimum_working_set_bytes High 100 supported_ops) backend.
Definition npu_provider (backend : TensorOp → list Tensor → tensor_result (list Tensor)) (name : string)
    (minimum_working_set_bytes : Z) (supported_ops : list TensorOp) : MobileExecutionProvider :=
  mkProvider (mkProfile Npu name minimum_working_set_bytes Low 50 supported_ops) backend.

(** ** Measurements *)
Record ProviderMeasurement := mkMeasurement {
  pm_kind : ProviderKind;
  pm_op : TensorOp;
  pm_latency_nanos : Z;
  pm_verified_equivalent : bool;
}.
Definition AutotuneTable : Type := list ProviderMeasurement.
Definition measures (kind : ProviderKind) (op : TensorOp) (entry : ProviderMeasurement) : bool :=
  bool_decide (pm_kind entry = kind) && bool_decide (pm_op entry = op).

Fixpoint record_measurement (self : AutotuneTable) (measurement : ProviderMeasurement) : AutotuneTable :=
  match self with
  | [] => [measurement]
  | entry :: rest =>
      if measures (pm_kind measurement) (pm_op measurement) entry then measurement :: rest
      else entry :: record_measurement rest measurement
  end.
Definition latency_nanos (self : AutotuneTable) (kind : ProviderKind) (op : TensorOp) : option Z :=
  pm_latency_nanos <$> find (λ entry, measures kind op entry && pm_verified_equivalent entry) self.
Definition is_verified (self : AutotuneTable) (kind : ProviderKind) (op : TensorOp) : bool :=
  existsb (λ entry, measures kind op entry && pm_verified_equivalent entry) self.

(** [==] on tensors, which on [f32] is not reflexive. *)
Fixpoint eq_by {A} (eqb : A → A → bool) (l k : list A) : bool :=
  match l, k with
  | [], [] => true
  | x :: l, y :: k => eqb x y && eq_by eqb l k
  | _, _ => false
  end.
Definition tensor_eq (a b : Tensor) : bool :=
  bool_decide (shape a = shape b) && eq_by f32_eq (data a) (data b).

(** The two providers as functions. *)
Definition verify_provider_equivalence
    (reference candidate : TensorOp → list Tensor → tensor_result (list Tensor))
    (op : TensorOp) (inputs : list Tensor) : tensor_result bool :=
  let? reference_outputs := reference op inputs in
  match candidate op inputs with
  | Ok candidate_outputs => Ok (eq_by tensor_eq candidate_outputs reference_outputs)
  | Err _ => Ok false
  | Panic => Panic
  end.

(** ** Choosing a provider *)
Record AdaptiveExecutionProvider := mkAdaptive {
  ad_device : DeviceCapabilities;
  ad_snapshot : ResourceSnapshot;
  ad_policy : ComputePolicy;
  ad_autotune : AutotuneTable;
  ad_providers : list MobileExecutionProvider;
}.
Definition Adaptive_new (device : DeviceCapabilities) (snapshot : ResourceSnapshot) (policy : ComputePolicy)
  : AdaptiveExecutionProvider :=
  mkAdaptive device (normalized snapshot device) policy [] [].
Definition adaptive_register (self : AdaptiveExecutionProvider) (provider : MobileExecutionProvider)
  : AdaptiveExecutionProvider :=
  mkAdaptive (ad_device self) (ad_snapshot self) (ad_policy self) (ad_autotune self)
    (ad_providers self ++ [provider]).
Definition set_snapshot (self : AdaptiveExecutionProvider) (snapshot : ResourceSnapshot)
  : AdaptiveExecutionProvider :=
  mkAdaptive (ad_device self) (normalized snapshot (ad_device self)) (ad_policy self) (ad_autotune self)
    (ad_providers self).
Definition set_autotune (self : AdaptiveExecutionProvider) (table : AutotuneTable)
  : AdaptiveExecutionProvider :=
  mkAdaptive (ad_device self) (ad_snapshot self) (ad_policy self) table (ad_providers self).

Definition profile_allowed (self : AdaptiveExecutionProvider) (profile : ProviderProfile) (op : TensorOp)
  : bool :=
  if negb (supports profile op) then false
  else
    let working_budget := saturating_sub (rs_available_ram_bytes (ad_snapshot self))
                            (cp_reserve_ram_bytes (ad_policy self)) in
    if working_budget <? pp_minimum_working_set_bytes profile then false
    else
      match pp_kind profile with
      | CpuReference | CpuTiled => true
      | Vulkan | Npu =>
          is_verified (ad_autotune self) (pp_kind profile) op
          && accelerator_permitted (pp_kind profile) (ad_device self) (ad_snapshot self) (ad_policy self)
      end.

(** [a.then_with(b)]. *)
Definition then_with (a b : comparison) : comparison := match a with Eq => b | c => c end.
Definition bool_rank (b : bool) : Z := if b then 1 else 0.

Definition compare_provider (left right : ProviderProfile) (op : TensorOp) (autotune : AutotuneTable)
    (latency_budget_ms : Z) (prefer_low_power : bool) : comparison :=
  let budget_nanos := saturating_mul_u64 latency_budget_ms 1000000 in
  let misses ns := (0 <? latency_budget_ms) && (budget_nanos <? ns) in
  match latency_nanos autotune (pp_kind left) op, latency_nanos autotune (pp_kind right) op with
  | Some left_ns, Some right_ns =>
      then_with (bool_rank (misses left_ns) ?= bool_rank (misses right_ns))
        (then_with (left_ns ?= right_ns) (pp_priority left ?= pp_priority right))
  | Some _, None => Lt
  | None, Some _ => Gt
  | None, None =>
      if prefer_low_power
      then then_with (power_rank (pp_power left) ?= power_rank (pp_power right))
             (pp_priority left ?= pp_priority right)
      else pp_priority left ?= pp_priority right
  end.

(** [sort_by], which is stable, as an insertion sort. *)
Fixpoint insert_by {A} (cmp : A → A → comparison) (x : A) (l : list A) : list A :=
  match l with
  | [] => [x]
  | y :: l' => match cmp x y with Gt => y :: insert_by cmp x l' | _ => x :: l end
  end.
Definition sort_by {A} (cmp : A → A → comparison) (l : list A) : list A :=
  foldr (insert_by cmp) [] l.

(** The order on providers; the indices of the program stand for them. *)
Definition provider_order (self : AdaptiveExecutionProvider) (op : TensorOp)
    (left right : MobileExecutionProvider) : comparison :=
  compare_provider (mp_profile left) (mp_profile right) op (ad_autotune self)
    (rs_latency_budget_ms (ad_snapshot self)) (cp_prefer_low_power (ad_policy self)).
Definition ordered_providers (self : AdaptiveExecutionProvider) (op : TensorOp)
  : list MobileExecutionProvider :=
  sort_by (provider_order self op)
    (List.filter (λ p, profile_allowed self (mp_profile p) op) (ad_providers self)).
Definition selected_provider (self : AdaptiveExecutionProvider) (op : TensorOp) : option ProviderProfile :=
  mp_profile <$> head (ordered_providers self op).

(** [execute]: the first provider that succeeds, or the last error. *)
Fixpoint try_providers (providers : list MobileExecutionProvider) (last_error : option TensorError)
    (op : TensorOp) (inputs : list Tensor) : tensor_result (list Tensor) :=
  match providers with
  | [] => Err (default NoProvider last_error)
  | p :: rest =>
      match mp_execute p op inputs with
      | Ok outputs => Ok outputs
      | Err error => try_providers rest (Some error) op inputs
      | Panic => Panic
      end
  end.
Definition adaptive_execute (self : AdaptiveExecutionProvider) (op : TensorOp) (inputs : list Tensor)
  : tensor_result (list Tensor) :=
  let providers := ordered_providers self op in
  if bool_decide (providers = []) then Err NoProvider else try_providers providers None op inputs.
End Mobile.
