(* ===== verification/MobileTheorems.v ===== *)
(** Tiling does not change a product, pages partition a region, and the adaptive
    provider runs only what the device permits. *)
From S2P Require Import Prelude Float32 Ir Tensor TensorTheorems Mobile.

Module MobileTheorems.
Import TensorOps TensorTheorems Mobile.

(** ** Tiles *)
Lemma fold_result_concat {E S A} (f : S → A → result E S) s ls :
  fold_result f s (concat ls) = fold_result (λ s l, fold_result f s l) s ls.
Proof.
  revert s. induction ls as [|l ls IH]; intros s; cbn; [done|].
  rewrite fold_result_app. destruct (fold_result f s l); [apply IH|done..].
Qed.

Lemma range_app a b c : a ≤ b ≤ c → range a c = range a b ++ range b c.
Proof.
  intros Habc. unfold range, upto. replace (Z.to_nat (c - a)) with (Z.to_nat (b - a) + Z.to_nat (c - b))%nat by lia.
  rewrite seq_app, !map_app. f_equal. rewrite !map_map, <- (Nat.add_0_l (Z.to_nat (b - a))) at 1.
  cbn [Nat.add]. rewrite <- (Nat.add_0_r (Z.to_nat (b - a))), <- fmap_add_seq.
  rewrite !map_map. apply map_ext. intros. lia.
Qed.

Lemma tile_blocks_spec fuel tile k block :
  1 ≤ tile → k < 2 ^ 64 → 0 ≤ block ≤ k → k - block ≤ Z.of_nat fuel →
  ∃ blocks, tile_blocks fuel tile k block = Some blocks ∧
    concat (map (λ b, range b.1 b.2) blocks) = range block k.
Proof.
  intros Ht Hk. revert block. induction fuel as [|fuel IH]; intros block Hb Hf; cbn [tile_blocks];
    destruct (Z.ltb_spec block k) as [Hlt|Hge]; cbn [negb].
  2, 4: exists []; split; [done|]; unfold range; by replace (k - block) with 0 by lia.
  - lia.
  - set (e := Z.min (Z.min (block + tile) (2 ^ 64 - 1)) k).
    destruct (IH e) as (blocks & -> & Hc); [unfold e; lia|unfold e; lia|].
    eexists. split; [done|]. cbn [map concat fst snd]. rewrite Hc. symmetry. apply range_app. unfold e. lia.
Qed.

Definition dims_typed (t : Tensor) : Prop := Forall in_u64 (shape t).

Lemma tiled_matmul_eq tile inputs :
  1 ≤ tile → Forall dims_typed inputs →
  ∃ blocks, tile_blocks (Z.to_nat (inner_dimension inputs)) tile (inner_dimension inputs) 0 = Some blocks ∧
    tiled_matmul blocks inputs = matmul inputs.
Proof.
  intros Ht Hin. set (k := inner_dimension inputs).
  assert (0 ≤ k < 2 ^ 64) as Hk.
  { unfold k, inner_dimension. destruct inputs as [|a ?]; [lia|]. apply Forall_cons in Hin as [Ha _].
    unfold dims_typed in Ha. destruct (shape a) as [|? [|d [|? ?]]]; try lia.
    apply Forall_cons in Ha as [_ [Hu _]%Forall_cons]. exact Hu. }
  destruct (tile_blocks_spec (Z.to_nat k) tile k 0) as (blocks & Hb & Hc); [done|lia..|].
  exists blocks. split; [done|]. unfold tiled_matmul, matmul.
  destruct (require_arity inputs 2) as [[]| |]; [|done..].
  destruct (at_index inputs 0) as [lhs| |] eqn:Hl; [|done..].
  destruct (at_index inputs 1) as [rhs| |]; [|done..].
  destruct (matrix_dims lhs rhs) as [[[m k'] n]| |] eqn:Hd; [|done..].
  assert (k' = k) as ->.
  { unfold k, inner_dimension. destruct inputs as [|a ?]; [done|]. cbn in Hl. injection Hl as ->.
    unfold matrix_dims in Hd. destruct (shape lhs) as [|? [|d [|? ?]]]; try done.
    destruct (shape rhs) as [|d' [|? [|? ?]]]; try done. destruct (d =? d'); cbn in Hd; by simplify_eq. }
  destruct (ok_or (checked_mul_usize m n) InvalidShape) as [n0| |]; [|done..].
  destruct (with_capacity 4 n0); [|done..]. f_equal. unfold fill_matrix. revert lhs rhs Hl Hd. intros lhs rhs _ _.
  assert (∀ row col, fold_result (λ sum b,
      fold_result (mul_add (data lhs) (data rhs) k n row col) sum (range b.1 b.2)) f32_zero blocks =
    fold_result (mul_add (data lhs) (data rhs) k n row col) f32_zero (upto k)) as Heq.
  { intros row col. replace (upto k) with (range 0 k).
    - rewrite <- Hc, fold_result_concat. clear. generalize f32_zero as s.
      induction blocks as [|b blocks IH]; intros s; cbn; [done|].
      destruct (fold_result _ s (range b.1 b.2)); [apply IH|done..].
    - unfold range. rewrite Z.sub_0_r. rewrite <- (map_id (upto k)) at 2. apply map_ext. intros. lia. }
  assert (∀ l s (f g : list f32 → Z → tensor_result (list f32)), (∀ s x, f s x = g s x) →
    fold_result f s l = fold_result g s l) as Hext.
  { clear. induction l as [|x l IH]; intros s f g Hfg; cbn; [done|]. rewrite Hfg.
    destruct (g s x); [by apply IH|done..]. }
  rewrite (Hext _ _ _ (λ out row, fold_result (λ out col,
    let? sum := fold_result (mul_add (data lhs) (data rhs) k n row col) f32_zero (upto k) in
    set_index out (row * n + col) sum) out (upto n))); [done|].
  intros out row. apply Hext. intros o col. by rewrite Heq.
Qed.

Lemma tiled_eq `{Libm} tile op inputs :
  1 ≤ tile → Forall dims_typed inputs → cpu_tiled_execute tile op inputs = Some (cpu_reference op inputs).
Proof.
  intros Ht Hin. unfold cpu_tiled_execute, cpu_reference.
  destruct (tiled_matmul_eq tile inputs Ht Hin) as (blocks & Hb & Heq).
  destruct op; try done; rewrite Hb; cbn; by rewrite Heq.
Qed.

(** ** Pages *)
Fixpoint contiguous (offset : Z) (windows : list PageWindow) (fin : Z) : Prop :=
  match windows with
  | [] => offset = fin
  | w :: ws => pw_offset w = offset ∧ 0 < pw_len w ∧ contiguous (offset + pw_len w) ws fin
  end.

Lemma contiguous_snoc offset ws w fin :
  contiguous offset ws (pw_offset w) → 0 < pw_len w → pw_offset w + pw_len w = fin →
  contiguous offset (ws ++ [w]) fin.
Proof.
  revert offset. induction ws as [|v ws IH]; intros offset; cbn; [intros -> ? ->; by split_and!|].
  intros (? & ? & ?) ? ?. split_and!; auto.
Qed.

Lemma div_ceil_bounds a b : 0 ≤ a → 0 < b → (div_ceil a b - 1) * b < a ≤ div_ceil a b * b ∨ (a = 0 ∧ div_ceil a b = 0).
Proof.
  intros Ha Hb. unfold div_ceil. pose proof (Z.div_mod a b). pose proof (Z.mod_pos_bound a b).
  pose proof (Z.div_pos a b).
  destruct (Z.eqb_spec (a mod b) 0); [|left; nia].
  destruct (decide (a = 0)) as [->|]; [right; by rewrite Z.div_0_l by lia|left; nia].
Qed.

Lemma window_loop_spec fuel total page offset windows :
  0 < page → total < 2 ^ 64 → 0 ≤ offset ≤ total → total - offset ≤ page * Z.of_nat fuel →
  (total = offset ∨ (page | offset)) →
  contiguous 0 windows offset → Forall (λ w, pw_len w ≤ page) windows →
  ((page | offset) → offset = len windows * page) →
  (total = offset → len windows = div_ceil total page) →
  ∃ ws, window_loop fuel total page offset windows = Some (Ok ws) ∧ contiguous 0 ws total ∧
    Forall (λ w, pw_len w ≤ page) ws ∧ len ws = div_ceil total page.
Proof.
  intros Hp Ht. revert offset windows. induction fuel as [|fuel IH]; intros offset windows Ho Hf Hdiv Hc Hall Hlen Hfin;
    cbn [window_loop]; destruct (Z.ltb_spec offset total) as [Hlt|Hge]; cbn [negb].
  2, 4: assert (total = offset) as -> by lia; exists windows; split_and!; auto.
  - lia.
  - destruct Hdiv as [?|Hdiv]; [lia|]. pose proof (Hlen Hdiv) as Hoff.
    unfold checked_add_u64. destruct (Z.ltb_spec (offset + Z.min (total - offset) page) (2 ^ 64)); [|lia].
    assert (len (windows ++ [mkWindow offset (Z.min (total - offset) page)]) = len windows + 1) as Hl1
      by (rewrite len_app, len_cons, len_nil; lia).
    destruct (Z.le_ge_cases (total - offset) page) as [Hsmall|Hbig].
    + replace (Z.min (total - offset) page) with (total - offset) in * by lia. replace (offset + (total - offset)) with total by lia.
      assert (len windows + 1 = div_ceil total page) as Hceil.
      { destruct (div_ceil_bounds total page); nia. }
      apply IH; [lia|nia|by left|apply contiguous_snoc; cbn; [done|lia|lia]|apply Forall_app_2; [done|by repeat constructor]| |lia].
      intros [q Hq]. rewrite Hl1. clear -Hq Hoff Hsmall Hlt Hp. set (L := len windows) in *. clearbody L. subst total offset.
      assert (L < q) by nia. assert (q ≤ L + 1) by nia. nia.
    + replace (Z.min (total - offset) page) with page in * by lia.
      apply IH; [lia|nia|right; destruct Hdiv as [q ->]; exists (q + 1); lia|
        apply contiguous_snoc; cbn; [done|lia|lia]|apply Forall_app_2; [done|by repeat constructor]|lia|].
      intros ->. rewrite Hl1. destruct (div_ceil_bounds (offset + page) page); nia.
Qed.

Lemma page_windows_spec fuel total page :
  0 < page → in_u64 total → total ≤ page * Z.of_nat fuel → window_width * div_ceil total page < 2 ^ 63 →
  ∃ ws, page_windows fuel total page = Some (Ok ws) ∧ contiguous 0 ws total ∧
    Forall (λ w, pw_len w ≤ page) ws ∧ len ws = div_ceil total page.
Proof.
  intros Hp Ht Hf Hw. unfold in_u64 in Ht. unfold page_windows. destruct (Z.eqb_spec page 0); [lia|].
  unfold try_usize, try_u64. destruct (Z.ltb_spec (div_ceil total page) (2 ^ 64)).
  - rewrite with_capacity_fits by done. apply window_loop_spec; [done|lia|lia|lia|right; by exists 0|done|constructor|done|].
    intros ->. unfold div_ceil. by rewrite Z.div_0_l, Z.mod_0_l by lia.
  - destruct (div_ceil_bounds total page); nia.
Qed.

(** The table of windows is reserved before it is filled. *)
Lemma page_windows_overflow fuel total page :
  0 < page → in_u64 total → 2 ^ 63 ≤ window_width * div_ceil total page →
  page_windows fuel total page = Some Panic.
Proof.
  intros Hp Ht Hw. unfold in_u64 in Ht. unfold page_windows. destruct (Z.eqb_spec page 0); [lia|].
  unfold try_usize, try_u64. destruct (Z.ltb_spec (div_ceil total page) (2 ^ 64)).
  - by rewrite with_capacity_overflows.
  - destruct (div_ceil_bounds total page); nia.
Qed.

Lemma contiguous_le offset ws fin : contiguous offset ws fin → offset ≤ fin.
Proof.
  revert offset. induction ws as [|w ws IH]; intros offset; cbn; [intros ->; lia|].
  intros (? & ? & Hc%IH). lia.
Qed.

Lemma contiguous_read (region : bytes) offset ws :
  contiguous offset ws (len region) → 0 ≤ offset → len region < 2 ^ 64 →
  ∃ pages, Forall2 (λ w p, read_range region (pw_offset w) (pw_len w) = Some p ∧ len p = pw_len w) ws pages ∧
    concat pages = drop (Z.to_nat offset) region.
Proof.
  revert offset. induction ws as [|w ws IH]; intros offset Hc Ho Hl; cbn [contiguous] in Hc.
  - exists []. split; [constructor|]. rewrite drop_ge by (unfold len in *; lia). done.
  - destruct Hc as (Hw & Hpos & Hc). pose proof (contiguous_le _ _ _ Hc).
    destruct (IH _ Hc) as (pages & Hp & Hcat); [lia|done|].
    exists (take (Z.to_nat (pw_len w)) (drop (Z.to_nat offset) region) :: pages).
    split.
    + constructor; [|done]. unfold read_range, try_usize, try_u64, checked_add_usize, checked_add_u64.
      rewrite Hw. destruct (Z.ltb_spec offset (2 ^ 64)); [|lia]. cbn.
      destruct (Z.ltb_spec (pw_len w) (2 ^ 64)); [|lia]. cbn.
      destruct (Z.ltb_spec (offset + pw_len w) (2 ^ 64)); [|lia]. cbn. split.
      * apply get_range_Some. split_and!; try lia. by replace (offset + pw_len w - offset) with (pw_len w) by lia.
      * unfold len in *. rewrite length_take, length_drop. lia.
    + cbn [concat]. rewrite Hcat.
      replace (Z.to_nat (offset + pw_len w)) with (Z.to_nat offset + Z.to_nat (pw_len w))%nat by lia.
      rewrite <- drop_drop. apply take_drop.
Qed.

(** ** Orders *)
Section sorting.
Context {A : Type} (cmp : A → A → comparison).
Context (cmp_total : ∀ x y, cmp x y = Gt → cmp y x ≠ Gt).
Context (cmp_trans : ∀ x y z, cmp x y ≠ Gt → cmp y z ≠ Gt → cmp x z ≠ Gt).
Notation le x y := (cmp x y ≠ Gt).

Lemma insert_by_perm x l : insert_by cmp x l ≡ₚ x :: l.
Proof.
  induction l as [|y l IH]; cbn; [done|]. destruct (cmp x y); [done..|]. rewrite IH. apply Permutation_swap.
Qed.
Lemma sort_by_perm l : sort_by cmp l ≡ₚ l.
Proof. unfold sort_by. induction l as [|x l IH]; cbn [foldr]; [done|]. by rewrite insert_by_perm, IH. Qed.

Lemma insert_by_sorted x l :
  StronglySorted (λ x y, le x y) l → StronglySorted (λ x y, le x y) (insert_by cmp x l).
Proof.
  induction 1 as [|y l Hs IH Hall]; cbn; [by repeat constructor|].
  assert (le x y → StronglySorted (λ x y, le x y) (x :: y :: l)) as Hfront.
  { intros Hxy. constructor; [by constructor|]. constructor; [done|].
    eapply Forall_impl; [exact Hall|]. intros z Hz. by eapply cmp_trans. }
  destruct (cmp x y) eqn:Hc; [by apply Hfront..|]. constructor; [done|].
  rewrite insert_by_perm. constructor; [by apply cmp_total|done].
Qed.
Lemma sort_by_sorted l : StronglySorted (λ x y, le x y) (sort_by cmp l).
Proof. unfold sort_by. induction l as [|x l IH]; cbn [foldr]; [constructor|]. by apply insert_by_sorted. Qed.
End sorting.

Lemma compare_provider_total op table budget low x y :
  compare_provider x y op table budget low = Gt → compare_provider y x op table budget low ≠ Gt.
Proof.
  unfold compare_provider, then_with.
  destruct (latency_nanos table (pp_kind x) op), (latency_nanos table (pp_kind y) op); try done; try destruct low;
  repeat match goal with |- context [?a ?= ?b] => destruct (Z.compare_spec a b) end; try done; lia.
Qed.
Lemma compare_provider_trans op table budget low x y z :
  compare_provider x y op table budget low ≠ Gt → compare_provider y z op table budget low ≠ Gt →
  compare_provider x z op table budget low ≠ Gt.
Proof.
  unfold compare_provider, then_with.
  destruct (latency_nanos table (pp_kind x) op) as [a|], (latency_nanos table (pp_kind y) op) as [b|],
    (latency_nanos table (pp_kind z) op) as [c|]; try done; try destruct low; cbn zeta;
  repeat match goal with |- context [bool_rank ?e] => let r := fresh "r" in generalize (bool_rank e); intros r end;
  repeat match goal with |- context [?a ?= ?b] => destruct (Z.compare_spec a b) end; try done; lia.
Qed.

(** ** The adaptive provider *)
Definition allowed (self : AdaptiveExecutionProvider) (op : TensorOp) (p : MobileExecutionProvider) : Prop :=
  p ∈ ad_providers self ∧ profile_allowed self (mp_profile p) op = true.

Lemma ordered_allowed self op p : p ∈ ordered_providers self op ↔ allowed self op p.
Proof.
  unfold ordered_providers, allowed. rewrite sort_by_perm, list_elem_of_In, List.filter_In.
  by rewrite <- list_elem_of_In.
Qed.
Lemma ordered_sorted self op :
  StronglySorted (λ p q, provider_order self op p q ≠ Gt) (ordered_providers self op).
Proof.
  apply sort_by_sorted; intros *; [apply compare_provider_total|apply compare_provider_trans].
Qed.

Lemma try_providers_Ok providers last op inputs outputs :
  try_providers providers last op inputs = Ok outputs ↔
  ∃ pre p post, providers = pre ++ p :: post ∧ mp_execute p op inputs = Ok outputs ∧
    Forall (λ q, ∃ e, mp_execute q op inputs = Err e) pre.
Proof.
  revert last. induction providers as [|q providers IH]; intros last; cbn [try_providers].
  { split; [done|]. by intros ([|? ?] & ? & ? & ? & _). }
  split.
  - destruct (mp_execute q op inputs) as [o|e|] eqn:Hq; [intros [= <-]|rewrite IH|done].
    + exists [], q, providers. by split_and!.
    + intros (pre & p & post & -> & ? & ?). exists (q :: pre), p, post. split_and!; [done|done|].
      constructor; [by exists e|done].
  - intros ([|q' pre] & p & post & Heq & Hp & Hall); injection Heq as -> ->; [by rewrite Hp|].
    apply Forall_cons in Hall as [[e ->] Hall]. apply IH. by exists pre, p, post.
Qed.

(** What the device must permit for a provider to run. *)
Definition runs_on (self : AdaptiveExecutionProvider) (op : TensorOp) (profile : ProviderProfile) : Prop :=
  op ∈ pp_supported_ops profile ∧
  pp_minimum_working_set_bytes profile ≤
    Z.max 0 (rs_available_ram_bytes (ad_snapshot self) - cp_reserve_ram_bytes (ad_policy self)) ∧
  (is_accelerator (pp_kind profile) = true →
    is_verified (ad_autotune self) (pp_kind profile) op = true ∧
    (rs_charging (ad_snapshot self) = true ∨
     cp_min_battery_for_accelerator (ad_policy self) ≤ rs_battery_percent (ad_snapshot self)) ∧
    thermal_rank (rs_thermal (ad_snapshot self)) < thermal_rank Hot ∧
    (pp_kind profile = Vulkan → cp_allow_vulkan (ad_policy self) && dc_supports_vulkan (ad_device self) = true) ∧
    (pp_kind profile = Npu → cp_allow_npu (ad_policy self) && dc_supports_npu (ad_device self) = true)).

Lemma accelerator_permitted_true kind device snapshot policy :
  is_accelerator kind = true →
  accelerator_permitted kind device snapshot policy = true →
  (rs_charging snapshot = true ∨ cp_min_battery_for_accelerator policy ≤ rs_battery_percent snapshot) ∧
  thermal_rank (rs_thermal snapshot) < thermal_rank Hot ∧
  (kind = Vulkan → cp_allow_vulkan policy && dc_supports_vulkan device = true) ∧
  (kind = Npu → cp_allow_npu policy && dc_supports_npu device = true).
Proof.
  intros Ha. unfold accelerator_permitted. rewrite Ha. cbn [andb].
  destruct (negb _) eqn:Hs; [done|]. destruct (negb (rs_charging snapshot) && _) eqn:Hb; [done|].
  destruct (Z.leb_spec (thermal_rank Hot) (thermal_rank (rs_thermal snapshot))); [done|]. intros _.
  apply negb_false_iff in Hs. split_and!.
  - destruct (rs_charging snapshot); [by left|right]. cbn in Hb. by apply Z.ltb_ge in Hb.
  - done.
  - by intros ->.
  - by intros ->.
Qed.

Lemma profile_allowed_runs self op profile :
  profile_allowed self profile op = true → runs_on self op profile.
Proof.
  unfold profile_allowed, supports, runs_on, saturating_sub. case_bool_decide; cbn [negb]; [|done].
  destruct (Z.ltb_spec (Z.max 0 (rs_available_ram_bytes (ad_snapshot self) - cp_reserve_ram_bytes (ad_policy self)))
    (pp_minimum_working_set_bytes profile)); [done|]. intros Hk. split_and!; [done|done|].
  intros Hacc. assert (is_verified (ad_autotune self) (pp_kind profile) op = true ∧
    accelerator_permitted (pp_kind profile) (ad_device self) (ad_snapshot self) (ad_policy self) = true) as [? Hp].
  { destruct (pp_kind profile); try done; by apply andb_true_iff in Hk. }
  split; [done|]. by apply accelerator_permitted_true.
Qed.

Lemma try_providers_Err providers last op inputs :
  Forall (λ q, ∃ e, mp_execute q op inputs = Err e) providers →
  ∃ e, try_providers providers last op inputs = Err e.
Proof.
  intros Hall. revert last. induction Hall as [|q providers [e He] _ IH]; intros last; cbn [try_providers];
    [by eexists|]. rewrite He. apply IH.
Qed.

Lemma try_providers_total providers last op inputs :
  Forall (λ q, mp_execute q op inputs ≠ Panic) providers →
  Exists (λ q, ∃ o, mp_execute q op inputs = Ok o) providers →
  ∃ o, try_providers providers last op inputs = Ok o.
Proof.
  intros Hall Hex. revert last. induction Hex as [q providers [o Ho]|q providers Hex IH]; intros last;
    cbn [try_providers]; apply Forall_cons in Hall as [Hq Hall]; [rewrite Ho; by eexists|].
  destruct (mp_execute q op inputs); [by eexists|by apply IH|done].
Qed.

(** The adaptive provider answers with the outputs of a provider that is registered,
    supports the operation, fits the memory the policy leaves, and, when it is an
    accelerator, was verified for the operation and is permitted by the device, the battery
    and the temperature; every permitted provider that the order by measured latency, power
    and priority puts strictly before it has failed. It answers whenever some permitted
    provider does and none panics, and it fails when all fail. *)
Theorem adaptive_execute_sound self op inputs :
  (∀ outputs, adaptive_execute self op inputs = Ok outputs →
    ∃ p, p ∈ ad_providers self ∧ runs_on self op (mp_profile p) ∧ mp_execute p op inputs = Ok outputs ∧
      ∀ q, allowed self op q → provider_order self op p q = Gt → ∃ e, mp_execute q op inputs = Err e) ∧
  ((∀ q, allowed self op q → mp_execute q op inputs ≠ Panic) →
    (∃ q o, allowed self op q ∧ mp_execute q op inputs = Ok o) → ∃ o, adaptive_execute self op inputs = Ok o) ∧
  ((∀ q, allowed self op q → ∃ e, mp_execute q op inputs = Err e) → ∃ e, adaptive_execute self op inputs = Err e).
Proof.
  unfold adaptive_execute. case_bool_decide as Hnil.
  - split_and!; [done| |by eexists]. intros _ (q & o & Hq & _). apply ordered_allowed in Hq.
    rewrite Hnil in Hq. by apply elem_of_nil in Hq.
  - split_and!.
    + intros outputs (pre & p & post & Heq & Hp & Hpre)%try_providers_Ok.
      assert (allowed self op p) as [Hin Hok].
      { apply ordered_allowed. rewrite Heq. apply elem_of_app. right. by left. }
      exists p. split_and!; [done|by apply profile_allowed_runs|done|].
      intros q Hq%ordered_allowed Hgt. rewrite Heq in Hq.
      pose proof (ordered_sorted self op) as Hs. rewrite Heq in Hs. apply StronglySorted_app_1_r in Hs as Hs'.
      apply StronglySorted_inv in Hs' as [_ Hpost].
      apply elem_of_app in Hq as [Hq|Hq]; [by apply (proj1 (Forall_forall _ _) Hpre)|].
      apply elem_of_cons in Hq as [->|Hq]; exfalso.
      * by apply (compare_provider_total _ _ _ _ _ _ Hgt).
      * by apply (proj1 (Forall_forall _ _) Hpost q Hq).
    + intros Hp (q & o & Hq & Ho). apply try_providers_total.
      * apply Forall_forall. intros q' Hq'%ordered_allowed. by apply Hp.
      * apply Exists_exists. exists q. split; [by apply ordered_allowed|by exists o].
    + intros Hall. apply try_providers_Err, Forall_forall. intros q Hq%ordered_allowed. by apply Hall.
Qed.

(** The tiled provider computes every operation as the reference provider does,
    outputs, errors and panics included, for every tile size: the order of the additions of
    a product is the same. *)
Theorem tiled_product_exact `{Libm} tile op inputs :
  Forall dims_typed inputs →
  cpu_tiled_execute (CpuTiledProvider_new tile) op inputs = Some (cpu_reference op inputs).
Proof. intros. apply tiled_eq; [unfold CpuTiledProvider_new; lia|done]. Qed.

Lemma windows_sizes (region : bytes) page offset ws fin pages :
  contiguous offset ws fin → Forall (λ w, pw_len w ≤ page) ws →
  Forall2 (λ w p, read_range region (pw_offset w) (pw_len w) = Some p ∧ len p = pw_len w) ws pages →
  Forall (λ p, 0 < len p ≤ page) pages.
Proof.
  intros Hc Hall Hp. revert offset Hc Hall. induction Hp as [|w p ws pages [_ Hlen] _ IH]; intros offset; [constructor|].
  intros (_ & Hpos & Hc) [Hle Hall]%Forall_cons. cbn beta in Hle. constructor; [lia|]. by eapply IH.
Qed.

(** C27: A paged reader over a region partitions it, and making one panics only when the
    table of its windows needs more than isize::MAX bytes: there are ceil(len / page) pages,
    none empty and none above the page size, reading them one after the other gives the
    region back, and no page exists past the last. *)
Theorem paged_reader_partitions region page_bytes :
  0 < page_bytes → len region < 2 ^ 64 →
  if window_width * div_ceil (len region) page_bytes <? 2 ^ 63 then
    ∃ reader pages,
      PagedByteReader_new (length region) region page_bytes = Some (Ok reader) ∧
      page_count reader = div_ceil (len region) page_bytes ∧
      Forall (λ p, 0 < len p ≤ page_bytes) pages ∧ concat pages = region ∧
      ∀ i, 0 ≤ i → page reader i = pages !! Z.to_nat i
  else PagedByteReader_new (length region) region page_bytes = Some Panic.
Proof.
  intros Hp Hl. pose proof (len_nonneg region). destruct (Z.ltb_spec (window_width * div_ceil (len region) page_bytes) (2 ^ 63)) as [Hfit|].
  2: { unfold PagedByteReader_new. by rewrite page_windows_overflow. }
  destruct (page_windows_spec (length region) (len region) page_bytes) as (ws & Hw & Hc & Hall & Hn);
    [done|unfold in_u64, len in *; lia|unfold len; nia|done|].
  destruct (contiguous_read region 0 ws) as (pages & Hpages & Hcat); [done|lia|done|].
  exists (mkReader region ws), pages. split_and!.
  - unfold PagedByteReader_new. by rewrite Hw.
  - done.
  - by eapply windows_sizes.
  - done.
  - intros i _. unfold page. cbn [pr_windows pr_region]. clear -Hpages. generalize (Z.to_nat i) as k.
    induction Hpages as [|w p ws pages [Hr _] _ IH]; intros [|k]; cbn; auto.
Qed.

(** A plan with pages of one byte for a tensor of 2^62 elements panics. *)
Lemma window_table_panics fuel :
  page_windows fuel (2 ^ 62) 1 = Some Panic.
Proof. apply page_windows_overflow; [lia|split; lia|vm_compute; discriminate]. Qed.

(** A placement holds the whole tensor in at most half of the memory the policy
    does not reserve, on an accelerator only if the device permits one (an NPU
    before a GPU), or else it is paged in pages of the policy's size that cover it;
    only a table of pages that is too large to reserve panics. *)
Theorem plan_tensor_placement_spec fuel count device snapshot policy :
  0 ≤ count → 0 < cp_page_bytes policy →
  count * bytes_per_element (cp_quantization policy) ≤ cp_page_bytes policy * Z.of_nat fuel →
  let bytes := count * bytes_per_element (cp_quantization policy) in
  let now := normalized snapshot device in
  let budget := Z.max 0 (rs_available_ram_bytes now - cp_reserve_ram_bytes policy) in
  if bytes <? 2 ^ 64 then
    (∃ plan, plan_tensor_placement fuel count device snapshot policy = Some (Ok plan) ∧
      tp_estimated_bytes plan = bytes ∧ tp_quantization plan = cp_quantization policy ∧
      match tp_placement plan with
      | ResidentCpu => 2 * bytes ≤ budget ∧ tp_page_count plan = 1 ∧
          accelerator_permitted Npu device now policy = false ∧
          accelerator_permitted Vulkan device now policy = false
      | AcceleratorLocal kind => 2 * bytes ≤ budget ∧ tp_page_count plan = 1 ∧
          is_accelerator kind = true ∧ accelerator_permitted kind device now policy = true ∧
          (kind = Vulkan → accelerator_permitted Npu device now policy = false)
      | PagedCpu page => budget < 2 * bytes ∧ page = cp_page_bytes policy ∧
          tp_page_count plan = div_ceil bytes page
      end) ∨
    plan_tensor_placement fuel count device snapshot policy = Some Panic ∧ budget < 2 * bytes ∧
      2 ^ 63 ≤ window_width * div_ceil bytes (cp_page_bytes policy)
  else plan_tensor_placement fuel count device snapshot policy = Some (Err McOverflow).
Proof.
  intros Hc Hp Hf bytes now budget. unfold plan_tensor_placement, checked_mul_u64. fold now. fold bytes.
  unfold saturating_sub. fold budget. destruct (Z.ltb_spec bytes (2 ^ 64)) as [Hlt|]; [|done].
  assert (0 ≤ bytes) as Hb by (unfold bytes; destruct (cp_quantization policy); cbn; lia).
  pose proof (Z.div_mod budget 2). pose proof (Z.mod_pos_bound budget 2).
  destruct (Z.leb_spec bytes (budget / 2)).
  - destruct (accelerator_permitted Npu device now policy) eqn:Hn;
      [|destruct (accelerator_permitted Vulkan device now policy) eqn:Hv]; cbn zeta iota; left;
      eexists; (split; [done|]); cbn; split_and!; try done; lia.
  - cbn zeta iota. destruct (Z.le_gt_cases (2 ^ 63) (window_width * div_ceil bytes (cp_page_bytes policy))) as [Hw|Hw].
    { right. rewrite page_windows_overflow by done. split_and!; (done || lia). }
    left. destruct (page_windows_spec fuel bytes (cp_page_bytes policy)) as (ws & -> & _ & _ & Hn);
      [done|done|done|done|]. eexists. split; [done|]. cbn. split_and!; try done; lia.
Qed.

(** ** Witnesses *)
Definition sample_device : DeviceCapabilities := mkDevice 8 (8 * GIB) true true.
Definition sample_snapshot : ResourceSnapshot := mkSnapshot (4 * GIB) 80 false Nominal 250.

Definition sample_region : bytes := map (λ b, byte_of_Z b) [1; 2; 3; 4; 5].
Lemma paged_reader_partitions_witness :
  ∃ reader pages, PagedByteReader_new 5 sample_region 2 = Some (Ok reader) ∧
    page_count reader = div_ceil 5 2 ∧
    Forall (λ p, 0 < len p ≤ 2) pages ∧ concat pages = sample_region ∧
    ∀ i, 0 ≤ i → page reader i = pages !! Z.to_nat i.
Proof. apply (paged_reader_partitions sample_region 2); [lia|vm_compute; done]. Defined.

Lemma plan_tensor_placement_spec_witness :
  ∃ plan, plan_tensor_placement 200 (2 * GIB) sample_device sample_snapshot (for_device sample_device) =
    Some (Ok plan) ∧ tp_placement plan = PagedCpu (16 * MIB) ∧ tp_page_count plan = 128.
Proof.
  pose proof (plan_tensor_placement_spec 200 (2 * GIB) sample_device sample_snapshot (for_device sample_device)) as H.
  eexists. split; [vm_compute; done|]. split; [done|].
  destruct H as [(plan & Hplan & _)|[_ [_ H]]]; [vm_compute; done..|]. vm_compute in H. by destruct H.
Defined.

Definition three_row : Tensor := mkTensor [1; 3] [f32_of_Z 1; f32_of_Z 2; f32_of_Z 3].
Definition three_column : Tensor := mkTensor [3; 1] [f32_of_Z 4; f32_of_Z 5; f32_of_Z 6].
Lemma tiled_product_exact_witness :
  cpu_tiled_execute (H:=sample_libm) (CpuTiledProvider_new 2) MatMul [three_row; three_column] =
    Some (Ok [mkTensor [1; 1] [f32_of_Z 32]]).
Proof.
  rewrite (tiled_product_exact (H:=sample_libm) 2 MatMul [three_row; three_column]); [by vm_compute|].
  repeat constructor; done.
Defined.

(** A GPU that was measured, verified and preferred, but fails; then the reference. *)
Definition sample_adaptive : AdaptiveExecutionProvider :=
  set_autotune
    (adaptive_register
      (adaptive_register (Adaptive_new sample_device sample_snapshot (for_device sample_device))
        (CpuReferenceMobileProvider (H:=sample_libm)))
      (vulkan_provider (λ _ _, Err NoProvider) "gpu" MIB [MatMul]))
    (record_measurement [] (mkMeasurement Vulkan MatMul 1000 true)).
Lemma adaptive_execute_sound_witness :
  (pp_kind <$> selected_provider sample_adaptive MatMul) = Some Vulkan ∧
  ∃ outputs, adaptive_execute sample_adaptive MatMul [three_row; three_column] = Ok outputs ∧
    ∃ p, p ∈ ad_providers sample_adaptive ∧ runs_on sample_adaptive MatMul (mp_profile p) ∧
      mp_execute p MatMul [three_row; three_column] = Ok outputs.
Proof.
  split; [vm_compute; done|].
  destruct (adaptive_execute_sound sample_adaptive MatMul [three_row; three_column]) as (Hok & _).
  exists [mkTensor [1; 1] [f32_of_Z 32]].
  assert (adaptive_execute sample_adaptive MatMul [three_row; three_column] =
    Ok [mkTensor [1; 1] [f32_of_Z 32]]) as He by (vm_compute; done).
  split; [exact He|]. destruct (Hok _ He) as (p & Hin & Hrun & Hp & _).
  exists p. split; [exact Hin|]. split; [exact Hrun|exact Hp].
Defined.
End MobileTheorems.
