(* ===== verification/Scheduler.v ===== *)
(** What the platform does at a wake-up: src/crates/ntd-mobile-shell/src/scheduler.rs,
    and the back-off it waits for. *)
From S2P Require Import Prelude Mobile Cognition Continuity ContinuityTheorems.

Module Scheduler.
Import Mobile Continuity.

Record WakeContext := mkWake {
  now_epoch_ms : Z;
  user_visible : bool;
  network_available : bool;
  device_unlocked : bool;
}.

Inductive PlatformDirective :=
| KeepInteractive
| StartForegroundExecution (reason : string)
| SchedulePersistentWork (delay_ms : Z) (require_network persisted : bool)
| ShowApproval (capability rationale : string)
| CheckpointAndSuspend
| VerifyResume
| NoEligibleWork.

Inductive WakePolicyError := MissingApproval | InvalidRetryWindow.

(** The early return of the retry window, where there is one. *)
Definition retry_window (retry : option RetryBackoff) (context : WakeContext)
  : result WakePolicyError (option PlatformDirective) :=
  match retry with
  | None => Ok None
  | Some retry =>
      if now_epoch_ms context <? rb_not_before_epoch_ms retry then
        Ok (Some (SchedulePersistentWork (rb_not_before_epoch_ms retry - now_epoch_ms context) false true))
      else if (rb_base_delay_ms retry =? 0) || (rb_max_delay_ms retry <? rb_base_delay_ms retry)
      then Err InvalidRetryWindow
      else Ok None
  end.

Definition must_suspend (resources : ResourceSnapshot) : bool :=
  bool_decide (rs_thermal resources = Critical)
  || (negb (rs_charging resources) && (rs_battery_percent resources <=? 5)).

(** The last [match]; its [unreachable!] is a panic. *)
Definition state_directive (state : MobileContinuityState) (context : WakeContext)
  : result WakePolicyError PlatformDirective :=
  match state with
  | Interactive =>
      if user_visible context then Ok KeepInteractive else Ok (SchedulePersistentWork 1000 false false)
  | ActiveExecution =>
      if user_visible context then Ok KeepInteractive
      else Ok (StartForegroundExecution "visible active task")
  | Checkpointed | SuspendedByOs | WaitingCondition =>
      Ok (SchedulePersistentWork (if device_unlocked context then 1000 else 15000)
            (negb (network_available context)) true)
  | _ => Panic
  end.

Definition choose_platform_directive (bundle : MobileContinuityBundle)
    (resources : ResourceSnapshot) (context : WakeContext)
  : result WakePolicyError PlatformDirective :=
  match mb_state bundle with
  | WaitingApproval =>
      let? approval := ok_or (mb_pending_approval bundle) MissingApproval in
      Ok (ShowApproval (ap_capability approval) (ap_rationale approval))
  | Completed | FailedRecoverable => Ok NoEligibleWork
  | Reconstructing | VerifyingResume => Ok VerifyResume
  | state =>
      let? early := retry_window (mb_retry bundle) context in
      match early with
      | Some directive => Ok directive
      | None =>
          if must_suspend resources then Ok CheckpointAndSuspend else state_directive state context
      end
  end.

(** ** Correctness *)
Definition settled (state : MobileContinuityState) : bool :=
  bool_decide (state = Completed) || bool_decide (state = FailedRecoverable).
Definition resuming (state : MobileContinuityState) : bool :=
  bool_decide (state = Reconstructing) || bool_decide (state = VerifyingResume).
Definition waiting (state : MobileContinuityState) : bool :=
  bool_decide (state = Checkpointed) || bool_decide (state = SuspendedByOs)
  || bool_decide (state = WaitingCondition).

(** The retry window of the bundle has been reached, or there is none. *)
Definition retry_due (bundle : MobileContinuityBundle) (context : WakeContext) : Prop :=
  ∀ retry, mb_retry bundle = Some retry → rb_not_before_epoch_ms retry ≤ now_epoch_ms context.

Lemma retry_window_cases bundle context :
  validate_option validate_retry (mb_retry bundle) = Ok tt →
  (retry_due bundle context ∧ retry_window (mb_retry bundle) context = Ok None) ∨
  (∃ retry, mb_retry bundle = Some retry ∧ now_epoch_ms context < rb_not_before_epoch_ms retry ∧
    retry_window (mb_retry bundle) context =
      Ok (Some (SchedulePersistentWork (rb_not_before_epoch_ms retry - now_epoch_ms context) false true))).
Proof.
  unfold retry_window, retry_due, validate_option, validate_retry.
  destruct (mb_retry bundle) as [retry|]; [|by left].
  destruct (_ || _) eqn:Hv; [done|]. intros _.
  destruct (Z.ltb_spec (now_epoch_ms context) (rb_not_before_epoch_ms retry)).
  - right. by exists retry.
  - left. split; [|done]. by intros ? [= <-].
Qed.

Lemma valid_bundle_parts bundle :
  validate_bundle bundle = Ok tt →
  validate_option validate_retry (mb_retry bundle) = Ok tt ∧
  (mb_state bundle = WaitingApproval → ∃ approval, mb_pending_approval bundle = Some approval).
Proof.
  unfold validate_bundle. destruct (_ || _); [done|]. destruct (negb _); [done|].
  destruct (registry_from_snapshot _); [|done..]. cbn.
  destruct (decode_actions _ _); [|done..]. cbn.
  destruct (validate_option validate_retry _) as [[]| |]; [|done..]. cbn.
  destruct (validate_option _ _); [|done..]. cbn. intros Hv. split; [done|]. intros Hs.
  destruct (mb_pending_approval bundle) as [b|]; [by exists b|].
  rewrite !bool_decide_true in Hv by done. done.
Qed.

(** On a valid bundle a wake-up always yields a directive, and the directive is the
    right one: an approval is shown exactly when one is pending, finished work is left
    alone, nothing runs before the retry window opens or on a device that is overheating or
    out of battery, work in the foreground is asked for only when the task is active and out
    of sight, and a postponed wake-up lies in the future. Whatever the bundle, the policy
    reaches no unreachable!. *)
Theorem platform_directive_spec bundle resources context :
  choose_platform_directive bundle resources context ≠ Panic ∧
  (validate_bundle bundle = Ok tt →
    ∃ directive, choose_platform_directive bundle resources context = Ok directive ∧
    match directive with
    | ShowApproval capability rationale => mb_state bundle = WaitingApproval ∧
        ∃ approval, mb_pending_approval bundle = Some approval ∧
          capability = ap_capability approval ∧ rationale = ap_rationale approval
    | NoEligibleWork => settled (mb_state bundle) = true
    | VerifyResume => resuming (mb_state bundle) = true
    | CheckpointAndSuspend => retry_due bundle context ∧ must_suspend resources = true
    | KeepInteractive => retry_due bundle context ∧ must_suspend resources = false ∧
        user_visible context = true ∧
        (mb_state bundle = Interactive ∨ mb_state bundle = ActiveExecution)
    | StartForegroundExecution _ => retry_due bundle context ∧ must_suspend resources = false ∧
        user_visible context = false ∧ mb_state bundle = ActiveExecution
    | SchedulePersistentWork delay require_network persisted => 0 < delay ∧
        settled (mb_state bundle) = false ∧
        ((∃ retry, mb_retry bundle = Some retry ∧ persisted = true ∧
            now_epoch_ms context + delay = rb_not_before_epoch_ms retry) ∨
         retry_due bundle context ∧ must_suspend resources = false ∧
           (waiting (mb_state bundle) = true ∧ persisted = true ∧
              require_network = negb (network_available context) ∨
            mb_state bundle = Interactive ∧ user_visible context = false ∧ persisted = false))
    end).
Proof.
  split.
  - unfold choose_platform_directive, retry_window, state_directive.
    destruct (mb_state bundle), (mb_pending_approval bundle), (mb_retry bundle); cbn; try done;
      repeat case_match; done.
  - intros (Hretry & Happroval)%valid_bundle_parts. unfold choose_platform_directive.
    destruct (retry_window_cases bundle context Hretry) as [(Hdue & ->)|(retry & Hr & Hlt & ->)];
      cbn; destruct (must_suspend resources) eqn:Hm; destruct (mb_state bundle) eqn:Hs; cbn;
      try (destruct Happroval as [approval Ha]; [done|]; rewrite Ha; cbn);
      try destruct (user_visible context) eqn:Hu; try destruct (device_unlocked context);
      eexists; (split; [done|]); cbn; eauto 10 with lia;
      (split_and!; [lia|done|]); first [right; by eauto|left; exists retry; split_and!; [done|done|lia]].
Qed.

(** The delay of a valid retry lies between its base and its maximum; it is the base
    doubled once for each attempt up to the twentieth, cut off at the maximum, whatever
    overflows on the way; more attempts never shorten it. *)
Theorem next_delay_bounds retry :
  validate_retry retry = Ok tt → 0 ≤ rb_attempts retry →
  0 ≤ rb_base_delay_ms retry → in_u64 (rb_max_delay_ms retry) →
  rb_base_delay_ms retry ≤ next_delay_ms retry ≤ rb_max_delay_ms retry ∧
  next_delay_ms retry =
    Z.min (rb_base_delay_ms retry * 2 ^ Z.min (rb_attempts retry) 20) (rb_max_delay_ms retry) ∧
  ∀ attempts, rb_attempts retry ≤ attempts →
    next_delay_ms retry ≤
    next_delay_ms (mkRetry attempts (rb_not_before_epoch_ms retry) (rb_base_delay_ms retry)
      (rb_max_delay_ms retry)).
Proof.
  unfold validate_retry. destruct (_ || _) eqn:Hv; [done|]. intros _ Ha Hb Hm.
  apply orb_false_iff in Hv as [Hz Hle]. apply Z.eqb_neq in Hz. apply Z.ltb_ge in Hle.
  assert (∀ attempts nb, 0 ≤ attempts →
    next_delay_ms (mkRetry attempts nb (rb_base_delay_ms retry) (rb_max_delay_ms retry)) =
    Z.min (rb_base_delay_ms retry * 2 ^ Z.min attempts 20) (rb_max_delay_ms retry)) as Heq.
  { intros attempts nb Hat. unfold next_delay_ms, saturating_mul_u64. cbn [rb_attempts rb_base_delay_ms rb_max_delay_ms].
    rewrite Z.shiftl_mul_pow2, Z.mul_1_l by lia. unfold in_u64 in Hm. lia. }
  assert (next_delay_ms retry =
    Z.min (rb_base_delay_ms retry * 2 ^ Z.min (rb_attempts retry) 20) (rb_max_delay_ms retry)) as Hself
    by (rewrite <- (Heq _ (rb_not_before_epoch_ms retry)) by lia; by destruct retry).
  rewrite Hself. assert (0 < 2 ^ Z.min (rb_attempts retry) 20) by (apply Z.pow_pos_nonneg; lia).
  split_and!; [nia|lia|done|]. intros attempts Hat. rewrite Heq by lia.
  assert (2 ^ Z.min (rb_attempts retry) 20 ≤ 2 ^ Z.min attempts 20) by (apply Z.pow_le_mono_r; lia). nia.
Qed.

(** ** Witnesses *)
Definition sample_wake : WakeContext := mkWake 5 false true true.
Definition calm : ResourceSnapshot := mkSnapshot (2 ^ 30) 80 false Nominal 250.
(** The approved bundle of the continuity samples, checkpointed in a retry window. *)
Definition postponed : MobileContinuityBundle :=
  let b := ContinuityTheorems.sample_bundle in
  mkBundle (mb_identity b) Checkpointed WakeRetryBackoff (mb_checkpoint_sequence b)
    (mb_cognitive_checkpoint b) (mb_action_checkpoint b) (mb_capabilities b) None
    (Some (mkRetry 3 905 1000 60000)).
Lemma postponed_valid : validate_bundle postponed = Ok tt.
Proof. vm_compute. reflexivity. Qed.
Lemma platform_directive_spec_witness :
  choose_platform_directive postponed calm sample_wake = Ok (SchedulePersistentWork 900 false true) ∧
  ∃ directive, choose_platform_directive postponed calm sample_wake = Ok directive.
Proof.
  split; [vm_compute; reflexivity|].
  destruct (platform_directive_spec postponed calm sample_wake) as [_ Hspec].
  destruct (Hspec postponed_valid) as (directive & Hd & _). by exists directive.
Defined.

Lemma next_delay_bounds_witness :
  next_delay_ms (mkRetry 3 0 1000 60000) = 8000 ∧
  1000 ≤ next_delay_ms (mkRetry 3 0 1000 60000) ≤ 60000.
Proof.
  split; [reflexivity|].
  apply (next_delay_bounds (mkRetry 3 0 1000 60000)); cbn; [reflexivity|lia|lia|unfold in_u64; lia].
Defined.
End Scheduler.
