(* ===== verification/Generation.v ===== *)
(** Generation of tokens by a graph: src/crates/ntd-runtime/src/generation.rs.

    The provider, the resolver and the tokenizer are the traits of the program.
    The callback of the streaming loop keeps a state of its own. *)
From S2P Require Import Prelude Collections Ir Signals Float32 Tensor TensorTheorems Executor TextTokenizer Mobile MobileTheorems.

Module Generation.
Import TensorOps TensorTheorems Executor.

Inductive DistributionKind := Logits | Probabilities.
Inductive SamplingMode :=
| Greedy
| Stochastic (temperature : f32) (top_k : option Z) (seed : Z).

Record GenerationConfig := mkGeneration {
  gn_max_new_tokens : Z;
  gn_context_limit : Z;
  gn_eos_token : option Z;
  gn_distribution : DistributionKind;
  gn_sampling : SamplingMode;
}.
Definition GenerationConfig_default : GenerationConfig := mkGeneration 32 2048 None Logits Greedy.

Record GenerationResult := mkGenerated {
  gr_prompt_tokens : list Z;
  gr_generated_tokens : list Z;
  gr_all_tokens : list Z;
}.
Inductive GenerationControl := Continue | Cancel.
Inductive GenerationFinishReason := MaxTokens | Eos | Cancelled.
Record StreamingGenerationResult := mkStreamed {
  st_generation : GenerationResult;
  st_finish_reason : GenerationFinishReason;
}.
Record ModelInferenceSignals := mkInference {
  mi_normalized_entropy : f32;
  mi_top_probability : f32;
  mi_top_margin : f32;
}.
Record GeneratedText := mkText {
  gx_prompt_tokens : list Z;
  gx_generated_tokens : list Z;
  gx_text : string;
}.

Inductive SamplingError :=
| EmptyDistribution | NonFinite | NegativeProbability | ZeroMass | InvalidTemperature | InvalidTopK.
Inductive GenerationError :=
| EmptyPrompt
| EmptyCandidate
| InvalidContextLimit
| InvalidVocabulary
| MissingDistributionOutput (output : Z)
| InvalidDistributionShape
| TokenIdOutOfRange (token : Z)
| GenTensor (e : TensorError)
| GenExecution (e : ExecutionError)
| GenSampling (e : SamplingError)
| GenTokenizer (e : TextTokenizer.TokenizerError).
Notation gen_result := (result GenerationError).
Notation sampling_result := (result SamplingError).

(** ** Signals *)
Definition half : f32 := f32_div f32_one (f32_of_Z 2).
Definition quarter : f32 := f32_div f32_one (f32_of_Z 4).
(** The signals of the budget policy hold the bits of their numbers. *)
Definition cognitive_signals (self : ModelInferenceSignals) (prompt_tokens context_limit : Z)
    (prior_failure : bool) : CognitiveSignals :=
  let unit_ x := f32_clamp x f32_zero f32_one in
  let context_pressure :=
    if context_limit =? 0 then f32_one
    else unit_ (f32_div (f32_of_Z prompt_tokens) (f32_of_Z context_limit)) in
  let uncertainty :=
    unit_ (f32_add (f32_mul (mi_normalized_entropy self) (f32_add half quarter))
                   (f32_mul (unit_ (f32_sub f32_one (mi_top_margin self))) quarter)) in
  mkSignals (f32_to_bits context_pressure) (f32_to_bits uncertainty) prior_failure.

(** ** Sampling *)
Definition all_finite (values : list f32) : bool := forallb f32_is_finite values.
Definition max_of (values : list f32) : f32 := foldl f32_max f32_neg_infinity values.

(** [max_by] with the comparison of the greedy mode: the later of two equals
    wins in [max_by], and the comparison prefers the lower index. *)
Definition greedy_cmp (a b : Z * f32) : comparison :=
  match f32_total_cmp a.2 b.2 with Eq => b.1 ?= a.1 | c => c end.
Definition max_step (best : option (Z * f32)) (p : Z * f32) : option (Z * f32) :=
  match best with
  | None => Some p
  | Some b => match greedy_cmp b p with Gt => Some b | _ => Some p end
  end.
Definition greedy_index (values : list f32) : option Z :=
  fst <$> foldl max_step None (enumerate values).

Section libm.
Context `{Libm}.

Definition logits_to_weights (values : list f32) (temperature : f32) : list f32 :=
  let max := max_of values in
  map (λ v, f32_exp (f32_div (f32_sub v max) temperature)) values.
Definition probabilities_to_weights (values : list f32) (temperature : f32) : sampling_result (list f32) :=
  if existsb (λ v, f32_lt v f32_zero) values then Err NegativeProbability
  else
    let exponent := f32_div f32_one temperature in
    Ok (map (λ v, f32_powf v exponent) values).

(** The order of [keep_top_k]: the greater weight first, then the lower index. *)
Definition weight_cmp (weights : list f32) (left right : Z) : comparison :=
  match f32_total_cmp (default f32_zero (weights !! Z.to_nat right)) (default f32_zero (weights !! Z.to_nat left)) with
  | Eq => left ?= right
  | c => c
  end.
Definition keep_top_k (weights : list f32) (k : Z) : sampling_result (list f32) :=
  if k =? 0 then Err InvalidTopK
  else
    let indices := Mobile.sort_by (weight_cmp weights) (upto (len weights)) in
    fold_result (λ weights index, set_index weights index f32_zero) weights (drop (Z.to_nat k) indices).

(** Arithmetic of [u64]. *)
Definition wrapping_add_u64 (a b : Z) : Z := (a + b) mod 2 ^ 64.
Definition wrapping_mul_u64 (a b : Z) : Z := (a * b) mod 2 ^ 64.
Definition deterministic_unit (seed step : Z) : f32 :=
  let value := wrapping_add_u64 (wrapping_add_u64 seed step) 0x9e3779b97f4a7c15 in
  let value := wrapping_mul_u64 (Z.lxor value (Z.shiftr value 30)) 0xbf58476d1ce4e5b9 in
  let value := wrapping_mul_u64 (Z.lxor value (Z.shiftr value 27)) 0x94d049bb133111eb in
  let value := Z.lxor value (Z.shiftr value 31) in
  let mantissa := Z.shiftr value 40 in
  f32_div (f32_of_Z mantissa) (f32_of_Z (2 ^ 24)).

(** The last loop of [sample_token]. *)
Fixpoint pick (weights : list (Z * f32)) (target : f32) (fallback : option Z) : option Z :=
  match weights with
  | [] => fallback
  | (index, weight) :: rest =>
      if f32_le weight f32_zero then pick rest target fallback
      else if f32_le target weight then Some index
      else pick rest (f32_sub target weight) (Some index)
  end.

Definition sample_token (values : list f32) (kind : DistributionKind) (mode : SamplingMode) (step : Z)
  : sampling_result Z :=
  if bool_decide (values = []) then Err EmptyDistribution
  else if negb (all_finite values) then Err NonFinite
  else
    match mode with
    | Greedy => ok_or (greedy_index values) EmptyDistribution
    | Stochastic temperature top_k seed =>
        if negb (f32_is_finite temperature) || f32_le temperature f32_zero
        then Err InvalidTemperature
        else if bool_decide (top_k = Some 0) then Err InvalidTopK
        else
          let? weights :=
            match kind with
            | Logits => Ok (logits_to_weights values temperature)
            | Probabilities => probabilities_to_weights values temperature
            end in
          let? weights :=
            match top_k with
            | Some k => keep_top_k weights (Z.min k (len weights))
            | None => Ok weights
            end in
          let sum := f32_sum weights in
          if negb (f32_is_finite sum) || f32_le sum f32_zero then Err ZeroMass
          else
            let random := deterministic_unit seed step in
            ok_or (pick (enumerate weights) (f32_mul random sum) None) ZeroMass
    end.

Definition token_log_probability `{Logarithms} (logits : list f32) (token : Z) : sampling_result f32 :=
  if bool_decide (logits = []) || (len logits <=? token) then Err EmptyDistribution
  else if negb (all_finite logits) then Err NonFinite
  else
    let max := max_of logits in
    let mass := foldl (λ mass v, f64_add mass (f64_of_f32 (f32_exp (f32_sub v max)))) f32_zero logits in
    if negb (f32_is_finite mass) || f32_le mass f32_zero then Err ZeroMass
    else
      let? logit := at_index logits token in
      Ok (f32_sub (f32_sub logit max) (f32_of_f64 (f64_ln mass))).

(** One weight of [model_inference_signals]: entropy, best and second best. *)
Definition signal_step `{Logarithms} (total : f32) (st : f32 * f32 * f32) (weight : f32) : f32 * f32 * f32 :=
  let '(entropy, top, second) := st in
  let probability := f32_div weight total in
  let entropy :=
    if f32_lt f32_zero probability
    then f32_sub entropy (f32_mul probability (f32_ln probability)) else entropy in
  if f32_lt top probability then (entropy, probability, top)
  else if f32_lt second probability then (entropy, top, probability)
  else (entropy, top, second).
Definition model_inference_signals `{Logarithms} (logits : list f32) : sampling_result ModelInferenceSignals :=
  if bool_decide (logits = []) then Err EmptyDistribution
  else if negb (all_finite logits) then Err NonFinite
  else
    let max := max_of logits in
    let weights := map (λ v, f32_exp (f32_sub v max)) logits in
    let total := foldl f32_add f32_zero weights in
    if negb (f32_is_finite total) || f32_le total f32_zero then Err ZeroMass
    else
      let '(entropy, top, second) :=
        foldl (signal_step total) (f32_zero, f32_zero, f32_zero) weights in
      let unit_ x := f32_clamp x f32_zero f32_one in
      let normalized_entropy :=
        if len logits <=? 1 then f32_zero
        else unit_ (f32_div entropy (f32_ln (f32_of_Z (len logits)))) in
      Ok (mkInference normalized_entropy (unit_ top) (unit_ (f32_sub top second))).
End libm.

(** ** The greedy mode picks the first of the greatest *)
Definition beats (a b : Z * f32) : Prop :=
  f32_total_key b.2 < f32_total_key a.2 ∨ (f32_total_key b.2 = f32_total_key a.2 ∧ a.1 ≤ b.1).

Lemma beats_trans a b c : beats a b → beats b c → beats a c.
Proof. unfold beats. lia. Qed.
Lemma max_step_spec b p : ∃ r, max_step (Some b) p = Some r ∧ (r = b ∨ r = p) ∧ beats r b ∧ beats r p.
Proof.
  unfold max_step, greedy_cmp, f32_total_cmp, beats.
  destruct (Z.compare_spec (f32_total_key b.2) (f32_total_key p.2)); [destruct (Z.compare_spec p.1 b.1)|..];
    eexists; (split; [done|]); (split; [auto|lia]).
Qed.
Lemma max_fold_spec l b :
  ∃ r, foldl max_step (Some b) l = Some r ∧ r ∈ b :: l ∧ ∀ p, p ∈ b :: l → beats r p.
Proof.
  revert b. induction l as [|x l IH]; intros b; cbn [foldl].
  - exists b. split; [done|]. split; [by left|]. intros p [->|[]%elem_of_nil]%elem_of_cons. unfold beats. lia.
  - destruct (max_step_spec b x) as (r & -> & Hr & Hb & Hx). destruct (IH r) as (r' & -> & Hin & Hall).
    exists r'. split; [done|]. split.
    + apply elem_of_cons in Hin as [->|Hin]; [|by right; right]. destruct Hr as [->| ->]; [by left|right; by left].
    + assert (beats r' r) as Hr' by (apply Hall; by left).
      intros p [->|[->|Hp]%elem_of_cons]%elem_of_cons; [by eapply beats_trans|by eapply beats_trans|].
      apply Hall. by right.
Qed.
Lemma greedy_spec values :
  values ≠ [] → ∃ index v, greedy_index values = Some index ∧ 0 ≤ index < len values ∧
    values !! Z.to_nat index = Some v ∧ ∀ j w, values !! j = Some w → beats (index, v) (Z.of_nat j, w).
Proof.
  intros Hne. unfold greedy_index. assert (∃ x l, enumerate values = x :: l) as (x & l & He).
  { destruct values; [done|]. by eexists _, _. }
  rewrite He. cbn [foldl max_step]. destruct (max_fold_spec l x) as ([i v] & -> & Hin & Hall).
  rewrite <- He in Hin, Hall. apply elem_of_enumerate in Hin as [Hi Hv]. exists i, v.
  split; [done|]. split; [apply lookup_lt_Some in Hv; unfold len; lia|]. split; [done|].
  intros j w Hw. apply Hall, elem_of_enumerate. split; [lia|]. by rewrite Nat2Z.id.
Qed.

(** ** The stochastic mode *)
Lemma f32_add_nan x y : f32_is_nan x = true ∨ f32_is_nan y = true → f32_is_nan (f32_add x y) = true.
Proof. by destruct x as [[]|[]| |[] ? ?], y as [[]|[]| |[] ? ?]; intros [?|?]. Qed.
Lemma f32_sum_nan l acc w :
  f32_is_nan acc = true ∨ w ∈ l ∧ f32_is_nan w = true → f32_is_nan (foldl f32_add acc l) = true.
Proof.
  revert acc. induction l as [|x l IH]; intros acc [Hacc|[Hin Hw]]; cbn [foldl]; [done|by apply elem_of_nil in Hin|..].
  - apply IH. left. apply f32_add_nan. by left.
  - apply IH. apply elem_of_cons in Hin as [->|Hin]; [left; apply f32_add_nan; by right|by right].
Qed.
Lemma f32_positive w : f32_is_nan w = false → f32_le w f32_zero = false → f32_lt f32_zero w = true.
Proof. by destruct w as [[]|[]| |[] ? ?]. Qed.

Lemma pick_Some l target fallback index :
  pick l target fallback = Some index →
  fallback = Some index ∨ ∃ w, (index, w) ∈ l ∧ f32_le w f32_zero = false.
Proof.
  revert target fallback. induction l as [|[i w] l IH]; intros target fallback; cbn [pick]; [by left|].
  destruct (f32_le w f32_zero) eqn:Hw.
  - intros [?|(u & Hu & ?)]%IH; [by left|right]. exists u. split; [by right|done].
  - destruct (f32_le target w).
    + intros [= ->]. right. exists w. split; [by left|done].
    + intros [[= ->]|(u & Hu & ?)]%IH; right; [exists w|exists u]; (split; [|done]); [by left|by right].
Qed.

Lemma zero_all indices (weights : list f32) :
  Forall (λ i, 0 ≤ i < len weights) indices →
  ∃ kept, fold_result (λ weights index, set_index (E:=SamplingError) weights index f32_zero) weights indices = Ok kept ∧
    length kept = length weights ∧
    ∀ i, 0 ≤ i → kept !! Z.to_nat i =
      if decide (i ∈ indices) then (λ _, f32_zero) <$> weights !! Z.to_nat i else weights !! Z.to_nat i.
Proof.
  revert weights. induction indices as [|x indices IH]; intros weights Hall; cbn [fold_result].
  { exists weights. split_and!; [done|done|]. intros i _. destruct (decide (i ∈ [])) as [[]%elem_of_nil|]; done. }
  apply Forall_cons in Hall as [Hx Hall]. unfold set_index at 1. destruct (Z.ltb_spec x (len weights)); [|lia].
  destruct (IH (<[Z.to_nat x := f32_zero]> weights)) as (kept & -> & Hl & Hk).
  { unfold len in *. by rewrite length_insert. }
  rewrite length_insert in Hl. exists kept. split_and!; [done|done|]. intros i Hi. rewrite Hk by done.
  destruct (decide (i = x)) as [->|Hne].
  - destruct (lookup_lt_is_Some_2 weights (Z.to_nat x)) as [w Hw]; [unfold len in *; lia|].
    rewrite list_lookup_insert_eq by (by apply lookup_lt_Some in Hw). rewrite Hw. cbn.
    destruct (decide (x ∈ indices)); destruct (decide (x ∈ x :: indices)) as [|Hn]; try done; destruct Hn; by left.
  - rewrite list_lookup_insert_ne by lia.
    destruct (decide (i ∈ indices)) as [Hin|Hin], (decide (i ∈ x :: indices)) as [Hin'|Hin']; try done.
    + destruct Hin'. by right.
    + by apply elem_of_cons in Hin' as [|].
Qed.

Section top_k.
Context (weights : list f32).
Notation cmp := (weight_cmp weights).

Lemma weight_cmp_total i j : cmp i j = Gt → cmp j i ≠ Gt.
Proof.
  unfold weight_cmp, f32_total_cmp. repeat match goal with |- context [?a ?= ?b] => destruct (Z.compare_spec a b) end;
    try done; lia.
Qed.
Lemma weight_cmp_trans i j k : cmp i j ≠ Gt → cmp j k ≠ Gt → cmp i k ≠ Gt.
Proof.
  unfold weight_cmp, f32_total_cmp. repeat match goal with |- context [?a ?= ?b] => destruct (Z.compare_spec a b) end;
    try done; lia.
Qed.
Lemma weight_cmp_Lt i j : cmp i j = Lt → cmp j i = Gt.
Proof.
  unfold weight_cmp, f32_total_cmp. repeat match goal with |- context [?a ?= ?b] => destruct (Z.compare_spec a b) end;
    try done; lia.
Qed.

(** How many positions come before [index]: greater weight, or equal and to the left. *)
Definition precedes (i j : Z) : bool := match cmp i j with Lt => true | _ => false end.
Definition predecessors (index : Z) : nat := length (List.filter (λ i, precedes i index) (upto (len weights))).

Lemma filter_nil (p : Z → bool) l : Forall (λ x, p x = false) l → List.filter p l = [].
Proof. induction 1 as [|x l Hx _ IH]; cbn; [done|]. by rewrite Hx. Qed.

Lemma kept_few k index :
  index ∈ take k (Mobile.sort_by cmp (upto (len weights))) → (predecessors index < k)%nat.
Proof.
  set (sorted := Mobile.sort_by cmp (upto (len weights))).
  assert (sorted ≡ₚ upto (len weights)) as Hperm by apply MobileTheorems.sort_by_perm.
  assert (StronglySorted (λ i j, cmp i j ≠ Gt) sorted) as Hs
    by (apply MobileTheorems.sort_by_sorted; [apply weight_cmp_total|apply weight_cmp_trans]).
  intros (pos & Hpos)%list_elem_of_lookup. apply lookup_take_Some in Hpos as [Hpos Hlt].
  unfold predecessors. assert (length (List.filter (λ i, precedes i index) sorted) =
    length (List.filter (λ i, precedes i index) (upto (len weights)))) as <-.
  { apply Permutation_length. clear -Hperm. induction Hperm as [|x l k' _ IH|x y l|l k' m _ IH1 _ IH2]; cbn; [done|..].
    - destruct (precedes x index); by rewrite IH.
    - destruct (precedes x index), (precedes y index); try done. constructor.
    - by etrans. }
  clearbody sorted. clear Hperm. pose proof (take_drop_middle _ _ _ Hpos) as Heq. rewrite <- Heq in Hs.
  apply StronglySorted_app_1_r, StronglySorted_inv in Hs as [_ Hpost].
  rewrite <- Heq, List.filter_app, length_app. cbn [List.filter].
  assert (∀ j, cmp index j ≠ Gt → precedes j index = false) as Hno.
  { intros j Hj. unfold precedes. destruct (cmp j index) eqn:Hc; try done. by apply weight_cmp_Lt in Hc. }
  rewrite Hno.
  - rewrite (filter_nil _ (drop (S pos) sorted)) by (eapply Forall_impl; [exact Hpost|exact Hno]). cbn [length].
    pose proof (List.filter_length_le (λ i, precedes i index) (take pos sorted)) as Hle.
    rewrite length_take in Hle. lia.
  - unfold weight_cmp, f32_total_cmp. by rewrite !Z.compare_refl.
Qed.

Lemma keep_top_k_spec k :
  0 < k → ∃ kept, keep_top_k weights k = Ok kept ∧ length kept = length weights ∧
    ∀ i w, 0 ≤ i → kept !! Z.to_nat i = Some w → f32_le w f32_zero = false →
      weights !! Z.to_nat i = Some w ∧ (predecessors i < Z.to_nat k)%nat.
Proof.
  intros Hk. unfold keep_top_k. destruct (Z.eqb_spec k 0); [lia|].
  set (sorted := Mobile.sort_by cmp (upto (len weights))).
  assert (sorted ≡ₚ upto (len weights)) as Hperm by apply MobileTheorems.sort_by_perm.
  destruct (zero_all (drop (Z.to_nat k) sorted) weights) as (kept & -> & Hl & Hkept).
  { apply Forall_drop. rewrite Hperm. apply Forall_forall. intros i Hi%TensorTheorems.elem_of_upto. exact Hi. }
  exists kept. split_and!; [done|done|]. intros i w Hi Hw Hpos. rewrite Hkept in Hw by done.
  destruct (decide _) as [Hin|Hin].
  { destruct (weights !! Z.to_nat i); cbn in Hw; [|done]. injection Hw as <-. done. }
  split; [done|]. apply kept_few.
  assert (i ∈ sorted) as His.
  { rewrite Hperm. apply TensorTheorems.elem_of_upto. apply lookup_lt_Some in Hw. unfold len. lia. }
  rewrite <- (take_drop (Z.to_nat k) sorted) in His. by apply elem_of_app in His as [|].
Qed.
End top_k.

(** The weights of the stochastic mode, before the cut to the best [k]. *)
Definition weights_of `{Libm} (kind : DistributionKind) (values : list f32) (temperature : f32)
  : sampling_result (list f32) :=
  match kind with
  | Logits => Ok (logits_to_weights values temperature)
  | Probabilities => probabilities_to_weights values temperature
  end.
Lemma weights_of_length `{Libm} kind values temperature :
  match weights_of kind values temperature with
  | Ok weights => length weights = length values
  | Err e => e = NegativeProbability
  | Panic => False
  end.
Proof.
  unfold weights_of, logits_to_weights, probabilities_to_weights. destruct kind; [by rewrite length_map|].
  destruct (existsb _ _); [done|]. by rewrite length_map.
Qed.

Lemma sample_token_spec `{Libm} values kind mode step :
  match mode with Stochastic _ (Some k) _ => 0 ≤ k | _ => True end →
  match sample_token values kind mode step with
  | Ok index => 0 ≤ index < len values ∧
      match mode with
      | Greedy => ∃ v, values !! Z.to_nat index = Some v ∧
          ∀ j w, values !! j = Some w →
            f32_total_key w < f32_total_key v ∨ (f32_total_key w = f32_total_key v ∧ index ≤ Z.of_nat j)
      | Stochastic temperature top_k _ => ∃ weights w,
          weights_of kind values temperature = Ok weights ∧ weights !! Z.to_nat index = Some w ∧
          f32_lt f32_zero w = true ∧ ∀ k, top_k = Some k → (predecessors weights index < Z.to_nat k)%nat
      end
  | Err _ => True
  | Panic => False
  end.
Proof.
  intros Hmode. unfold sample_token. case_bool_decide as Hne; [done|]. destruct (negb (all_finite values)); [done|].
  destruct mode as [|temperature top_k seed].
  { destruct (greedy_spec values Hne) as (index & v & -> & Hi & Hv & Hbest). cbn [ok_or]. split; [done|].
    exists v. split; [done|exact Hbest]. }
  destruct (_ || _); [done|]. case_bool_decide as Hk; [done|]. fold (weights_of kind values temperature).
  pose proof (weights_of_length kind values temperature) as Hl.
  destruct (weights_of kind values temperature) as [weights| |]; [|done..].
  assert (∃ kept, match top_k with Some k => keep_top_k weights (Z.min k (len weights)) | None => Ok weights end = Ok kept ∧
    length kept = length weights ∧
    ∀ i w, 0 ≤ i → kept !! Z.to_nat i = Some w → f32_le w f32_zero = false →
      weights !! Z.to_nat i = Some w ∧ ∀ k, top_k = Some k → (predecessors weights i < Z.to_nat k)%nat)
    as (kept & -> & Hkl & Hkept).
  { destruct top_k as [k|]; [|by exists weights].
    destruct (keep_top_k_spec weights (Z.min k (len weights))) as (kept & -> & Hkl & Hkept).
    { assert (k ≠ 0) by congruence. unfold len. destruct values; [done|]. cbn in Hl. lia. }
    exists kept. split_and!; [done|done|]. intros i w Hi Hw Hpos. destruct (Hkept i w Hi Hw Hpos) as [? Hp].
    split; [done|]. intros k' [= ->]. lia. }
  destruct (_ || _) eqn:Hsum; [done|]. apply orb_false_iff in Hsum as [Hfin _]. apply negb_false_iff in Hfin.
  destruct (pick _ _ _) as [index|] eqn:Hp; cbn [ok_or]; [|done].
  apply pick_Some in Hp as [|(w & Hin & Hpos)]; [done|].
  apply elem_of_enumerate in Hin as [Hi Hw]. split; [apply lookup_lt_Some in Hw; unfold len; lia|].
  exists weights, w. destruct (Hkept index w Hi Hw Hpos) as [Hw' Hfew]. split_and!; [done|done| |done].
  apply f32_positive; [|done]. destruct (f32_is_nan w) eqn:Hnan; [|done].
  assert (f32_is_nan (f32_sum kept) = true) as Hs
    by (apply (f32_sum_nan kept _ w); right; split; [exact (list_elem_of_lookup_2 _ _ _ Hw)|done]).
  by destruct (f32_sum kept).
Qed.

(** C30: Sampling never panics and its index is of the distribution: greedy sampling picks
    the first of the greatest values by total order, and stochastic sampling an index of
    positive weight that has fewer than top_k weights before it in their order. *)
Theorem sample_token_sound `{Libm} values kind mode step :
  match mode with Stochastic _ (Some k) _ => 0 ≤ k | _ => True end →
  match sample_token values kind mode step with
  | Ok index => 0 ≤ index < len values ∧
      match mode with
      | Greedy => ∃ v, values !! Z.to_nat index = Some v ∧
          ∀ j w, values !! j = Some w →
            f32_total_key w < f32_total_key v ∨ (f32_total_key w = f32_total_key v ∧ index ≤ Z.of_nat j)
      | Stochastic temperature top_k _ => ∃ weights w,
          weights_of kind values temperature = Ok weights ∧ weights !! Z.to_nat index = Some w ∧
          f32_lt f32_zero w = true ∧ ∀ k, top_k = Some k → (predecessors weights index < Z.to_nat k)%nat
      end
  | Err _ => True
  | Panic => False
  end.
Proof. exact (sample_token_spec values kind mode step). Qed.

Definition sample_logits : list f32 := map f32_of_Z [1; 5; 2; 5].
Lemma sample_token_sound_witness :
  sample_token (H:=sample_libm) sample_logits Logits Greedy 0 = Ok 1 ∧
  ∃ v, sample_logits !! 1%nat = Some v ∧ ∀ j w, sample_logits !! j = Some w →
    f32_total_key w < f32_total_key v ∨ (f32_total_key w = f32_total_key v ∧ 1 ≤ Z.of_nat j).
Proof.
  assert (sample_token (H:=sample_libm) sample_logits Logits Greedy 0 = Ok 1) as Hs by (vm_compute; reflexivity).
  split; [exact Hs|].
  pose proof (sample_token_sound (H:=sample_libm) sample_logits Logits Greedy 0 I) as Ht. rewrite Hs in Ht.
  exact (proj2 Ht).
Defined.
(** Token ids are passed to the graph as [f32]: above 2^24 two ids coincide. *)
Example large_token_ids_collide : f32_of_Z (2 ^ 24 + 1) = f32_of_Z (2 ^ 24).
Proof. vm_compute. reflexivity. Qed.
End Generation.
