(* ===== verification/Generator.v ===== *)
(** The generator of tokens over a graph: [GraphGenerator] of
    src/crates/ntd-runtime/src/generation.rs, and the trait [TextTokenizer] of
    src/crates/ntd-runtime/src/tokenizer.rs with its three implementations.

    [on_token] is the callback of the streaming loop: it takes the state it
    keeps and returns its answer and the next state.  The three loops of the
    program read the tokens one step at a time; the step is [next_token]. *)
From S2P Require Import Prelude Collections Text Ir Signals Float32 Tensor TensorTheorems Executor TextTokenizer SpmTokenizer Gpt2 Mobile Generation.

(** ** The trait of tokenizers *)
Module TextTokenizers.
Import TextTokenizer SpmTokenizer Gpt2.

Class TextTokenizer (T : Type) := {
  vocab_size : T → Z;
  eos_token : T → option Z;
  encode_text : T → string → bool → fuelled (list Z);
  decode_text : T → list Z → bool → tok_result string;
}.

#[export] Instance VocabularyTokenizer_text : TextTokenizer VocabularyTokenizer := {|
  vocab_size := λ self, len (vt_tokens self);
  eos_token := vt_eos_token;
  encode_text := λ self text add_special_tokens,
    vocabulary_encode (length (string_bytes text)) self text add_special_tokens;
  decode_text := vocabulary_decode;
|}.
#[export] Instance LlamaSpmTokenizer_text `{SpmHeap} : TextTokenizer LlamaSpmTokenizer := {|
  vocab_size := λ self, len (sp_tokens self);
  eos_token := λ self, sc_eos_token (sp_config self);
  encode_text := spm_encode;
  decode_text := spm_decode;
|}.
#[export] Instance Gpt2BpeTokenizer_text `{GeneralCategories} : TextTokenizer Gpt2BpeTokenizer := {|
  vocab_size := λ self, len (gt_tokens self);
  eos_token := λ self, gc_eos_token (gt_config self);
  encode_text := gpt2_encode;
  decode_text := gpt2_decode;
|}.
End TextTokenizers.

Module Generator.
Import TensorOps TensorTheorems Executor Generation TextTokenizers.

Record GraphGenerator := mkGenerator {
  gg_graph : Graph;
  gg_provider : TensorOp → list Tensor → tensor_result (list Tensor);
  gg_static_inputs : gmap Z Tensor;
  gg_token_input : ValueId;
  gg_distribution_output : Z;
  gg_vocab_size : Z;
}.
Definition GraphGenerator_new (graph : Graph) (provider : TensorOp → list Tensor → tensor_result (list Tensor))
    (static_inputs : gmap Z Tensor) (token_input : ValueId) (distribution_output vocab_size : Z)
  : gen_result GraphGenerator :=
  if vocab_size =? 0 then Err InvalidVocabulary
  else Ok (mkGenerator graph provider static_inputs token_input distribution_output vocab_size).

Notation Resolver := (ValueId → result TensorResolveError (option Tensor)).

(** ** One step *)
Definition check_token_id (vocab_size token : Z) : gen_result unit :=
  let? id := ok_or (try_usize token) (TokenIdOutOfRange token) in
  if vocab_size <=? id then Err (TokenIdOutOfRange token) else Ok tt.
Definition validate_prompt_tokens (prompt_tokens : list Z) (vocab_size context_limit : Z) : gen_result unit :=
  if bool_decide (prompt_tokens = []) then Err EmptyPrompt
  else if context_limit =? 0 then Err InvalidContextLimit
  else check_all (check_token_id vocab_size) prompt_tokens.

(** [a % b] *)
Definition rem_usize {E} (a b : Z) : result E Z := if b =? 0 then Panic else Ok (a mod b).
Definition last_distribution (tensor : Tensor) (vocab_size : Z) : gen_result (list f32) :=
  if len (data tensor) <? vocab_size then Err InvalidDistributionShape
  else
    let? remainder := rem_usize (len (data tensor)) vocab_size in
    if negb (remainder =? 0) then Err InvalidDistributionShape
    else
      let start := len (data tensor) - vocab_size in
      slice (data tensor) start (len (data tensor)).

Definition context_window (tokens : list Z) (context_limit : Z) : list Z :=
  drop (Z.to_nat (len tokens - context_limit)) tokens.

(** The distribution after [tokens]: the graph runs on the last of them. *)
Definition distribution_after (self : GraphGenerator) (resolver : Resolver) (tokens : list Z) (context_limit : Z)
  : gen_result (list f32) :=
  let window := context_window tokens context_limit in
  let? token_tensor := map_err GenTensor (Tensor_new [len window] (map f32_of_Z window)) in
  let inputs := <[gg_token_input self := token_tensor]> (gg_static_inputs self) in
  let? outputs := map_err GenExecution
                    (execute_with_resolver (gg_provider self) resolver (gg_graph self) inputs) in
  let? output := ok_or (outputs !! Z.to_nat (gg_distribution_output self))
                   (MissingDistributionOutput (gg_distribution_output self)) in
  last_distribution output (gg_vocab_size self).
Definition next_distribution_with_resolver (self : GraphGenerator) (resolver : Resolver)
    (prompt_tokens : list Z) (context_limit : Z) : gen_result (list f32) :=
  let? _ := validate_prompt_tokens prompt_tokens (gg_vocab_size self) context_limit in
  distribution_after self resolver prompt_tokens context_limit.

(** ** Generation *)
Section libm.
Context `{Libm}.

Definition next_token (self : GraphGenerator) (resolver : Resolver) (config : GenerationConfig)
    (all_tokens : list Z) (step : Z) : gen_result Z :=
  let? distribution := distribution_after self resolver all_tokens (gn_context_limit config) in
  let? next := map_err GenSampling
                 (sample_token distribution (gn_distribution config) (gn_sampling config) step) in
  ok_or (try_u32 next) InvalidVocabulary.

(** [for step in 0..config.max_new_tokens]: the tokens generated so far and all tokens. *)
Fixpoint generate_loop (self : GraphGenerator) (resolver : Resolver) (config : GenerationConfig)
    (steps : list Z) (generated all_tokens : list Z) : gen_result (list Z * list Z) :=
  match steps with
  | [] => Ok (generated, all_tokens)
  | step :: rest =>
      let? next := next_token self resolver config all_tokens step in
      let generated := generated ++ [next] in
      let all_tokens := all_tokens ++ [next] in
      if bool_decide (gn_eos_token config = Some next) then Ok (generated, all_tokens)
      else generate_loop self resolver config rest generated all_tokens
  end.
Definition generate_tokens_with_resolver (self : GraphGenerator) (resolver : Resolver)
    (prompt_tokens : list Z) (config : GenerationConfig) : gen_result GenerationResult :=
  let? _ := validate_prompt_tokens prompt_tokens (gg_vocab_size self) (gn_context_limit config) in
  let? _ := with_capacity 4 (gn_max_new_tokens config) in
  let? '(generated, all_tokens) :=
    generate_loop self resolver config (upto (gn_max_new_tokens config)) [] prompt_tokens in
  Ok (mkGenerated prompt_tokens generated all_tokens).
(** The executor without a resolver runs with the empty one. *)
Definition generate_tokens (self : GraphGenerator) : list Z → GenerationConfig → gen_result GenerationResult :=
  generate_tokens_with_resolver self empty_resolver.

(** ** Streaming *)
Section streaming.
Context {S : Type} (on_token : S → Z → list Z → GenerationControl * S).

Fixpoint stream_loop (self : GraphGenerator) (resolver : Resolver) (config : GenerationConfig)
    (steps : list Z) (generated all_tokens : list Z) (state : S)
  : gen_result (list Z * list Z * GenerationFinishReason) * S :=
  match steps with
  | [] => (Ok (generated, all_tokens, MaxTokens), state)
  | step :: rest =>
      match next_token self resolver config all_tokens step with
      | Ok next =>
          let generated := generated ++ [next] in
          let all_tokens := all_tokens ++ [next] in
          let '(control, state) := on_token state next generated in
          if bool_decide (gn_eos_token config = Some next) then (Ok (generated, all_tokens, Eos), state)
          else
            match control with
            | Cancel => (Ok (generated, all_tokens, Cancelled), state)
            | Continue => stream_loop self resolver config rest generated all_tokens state
            end
      | Err e => (Err e, state)
      | Panic => (Panic, state)
      end
  end.
Definition generate_tokens_with_resolver_streaming (self : GraphGenerator) (resolver : Resolver)
    (prompt_tokens : list Z) (config : GenerationConfig) (state : S)
  : gen_result StreamingGenerationResult * S :=
  match (let? _ := validate_prompt_tokens prompt_tokens (gg_vocab_size self) (gn_context_limit config) in
         with_capacity 4 (gn_max_new_tokens config)) with
  | Ok _ =>
      let '(r, state) :=
        stream_loop self resolver config (upto (gn_max_new_tokens config)) [] prompt_tokens state in
      (let? '(generated, all_tokens, finish_reason) := r in
       Ok (mkStreamed (mkGenerated prompt_tokens generated all_tokens) finish_reason), state)
  | Err e => (Err e, state)
  | Panic => (Panic, state)
  end.
End streaming.

(** ** Text *)
Definition set_eos_token (eos : option Z) (config : GenerationConfig) : GenerationConfig :=
  mkGeneration (gn_max_new_tokens config) (gn_context_limit config) eos (gn_distribution config) (gn_sampling config).
Definition generate_text_with_resolver `{TextTokenizer T} (self : GraphGenerator) (resolver : Resolver)
    (tokenizer : T) (prompt : string) (add_special_tokens : bool) (config : GenerationConfig)
  : option (gen_result GeneratedText) :=
  if negb (vocab_size tokenizer =? gg_vocab_size self) then Some (Err InvalidVocabulary)
  else
    match encode_text tokenizer prompt add_special_tokens with
    | None => None
    | Some encoded => Some (
        let? prompt_tokens := map_err GenTokenizer encoded in
        let config :=
          match gn_eos_token config with
          | None => set_eos_token (eos_token tokenizer) config
          | Some _ => config
          end in
        let? generated := generate_tokens_with_resolver self resolver prompt_tokens config in
        let? text := map_err GenTokenizer (decode_text tokenizer (gr_generated_tokens generated) true) in
        Ok (mkText (gr_prompt_tokens generated) (gr_generated_tokens generated) text))
    end.
Definition generate_text `{TextTokenizer T} (self : GraphGenerator)
  : T → string → bool → GenerationConfig → option (gen_result GeneratedText) :=
  generate_text_with_resolver self empty_resolver.

(** ** Scores *)
Definition score_step `{Logarithms} (self : GraphGenerator) (resolver : Resolver) (context_limit : Z)
    (st : list Z * f64) (token : Z) : gen_result (list Z * f64) :=
  let '(context, total) := st in
  let? logits := next_distribution_with_resolver self resolver context context_limit in
  let? id := ok_or (try_usize token) (TokenIdOutOfRange token) in
  let? log_probability := map_err GenSampling (token_log_probability logits id) in
  Ok (context ++ [token], f64_add total (f64_of_f32 log_probability)).
Definition score_continuation_with_resolver `{Logarithms} (self : GraphGenerator) (resolver : Resolver)
    (prompt_tokens candidate_tokens : list Z) (context_limit : Z) : gen_result f32 :=
  let? _ := validate_prompt_tokens prompt_tokens (gg_vocab_size self) context_limit in
  if bool_decide (candidate_tokens = []) then Err EmptyCandidate
  else
    let? _ := check_all (check_token_id (gg_vocab_size self)) candidate_tokens in
    let? '(_, total) :=
      fold_result (score_step self resolver context_limit) (prompt_tokens, f32_zero) candidate_tokens in
    Ok (f32_of_f64 (f64_div total (f64_of_Z (len candidate_tokens)))).
End libm.
End Generator.
