(* ===== verification/GeneratorTheorems.v ===== *)
(** Generation of tokens: what the loops of Generator.v return, and when. *)
From S2P Require Import Prelude Collections Text Ir Float32 Tensor TensorTheorems Executor TextTokenizer SpmTokenizer SpmTheorems Gpt2 Gpt2Theorems Generation Generator.

Module GeneratorTheorems.
Import TensorOps TensorTheorems Executor Generation TextTokenizers Generator.

(** ** Steps *)
Lemma check_all_tokens vocab tokens :
  0 ≤ vocab < 2 ^ 64 →
  match check_all (check_token_id vocab) tokens with
  | Ok _ => Forall (λ t, t < vocab) tokens
  | Err e => ∃ pre t post, tokens = pre ++ t :: post ∧ Forall (λ t, t < vocab) pre ∧ vocab ≤ t ∧ e = TokenIdOutOfRange t
  | Panic => False
  end.
Proof.
  intros Hv. induction tokens as [|t tokens IH]; cbn [check_all]; [constructor|].
  unfold check_token_id at 1, try_usize, try_u64.
  destruct (Z.ltb_spec t (2 ^ 64)); cbn [ok_or]; [destruct (Z.leb_spec vocab t)|].
  1, 3: by exists [], t, tokens; split_and!; [|constructor|lia|].
  destruct (check_all _ tokens) as [u|e|]; [by constructor| |done].
  destruct IH as (pre & t' & post & -> & Hpre & Ht' & ->). exists (t :: pre), t', post.
  split_and!; [done|by constructor|done..].
Qed.

Section steps.
Context `{Libm} (self : GraphGenerator) (resolver : Resolver) (config : GenerationConfig).
Context (Hvocab : 0 < gg_vocab_size self).
Context (Hprovider : ∀ op ins outs, Forall tensor_wf ins → gg_provider self op ins = Ok outs → Forall tensor_wf outs).
Context (Hresolver : ∀ v t, resolver v = Ok (Some t) → tensor_wf t).
Context (Hstatic : map_Forall (λ _, tensor_wf) (gg_static_inputs self)).

(** An outcome that satisfies [P], and whose panic is one of the provider or of
    the resolver. *)
Definition steps_to {A} (P : A → Prop) (m : gen_result A) : Prop :=
  match m with
  | Ok a => P a
  | Err _ => True
  | Panic => panic_source (gg_provider self) resolver (gg_graph self)
  end.
Lemma steps_bind {A B} (P : A → Prop) (Q : B → Prop) (m : gen_result A) (k : A → gen_result B) :
  steps_to P m → (∀ a, P a → steps_to Q (k a)) → steps_to Q (let? a := m in k a).
Proof. destruct m; cbn; auto. Qed.

Lemma last_distribution_yields t :
  yields (λ d, len d = gg_vocab_size self) (last_distribution t (gg_vocab_size self)).
Proof.
  unfold last_distribution, rem_usize. destruct (Z.ltb_spec (len (data t)) (gg_vocab_size self)); [done|].
  destruct (Z.eqb_spec (gg_vocab_size self) 0); [lia|]. destruct (negb _); [done|].
  destruct (slice_in_range (E:=GenerationError) (data t) (len (data t) - gg_vocab_size self) (len (data t)))
    as (d & -> & Hd); [lia..|]. cbn. lia.
Qed.
Lemma distribution_yields tokens limit :
  steps_to (λ d, len d = gg_vocab_size self) (distribution_after self resolver tokens limit).
Proof.
  unfold distribution_after. set (window := context_window tokens limit).
  pose proof (Tensor_new_yields [len window] (map f32_of_Z window)) as Hn.
  destruct (Tensor_new _ _) as [token_tensor|e|]; [|done|exfalso; by apply Hn; constructor; [apply len_nonneg|]].
  cbn [map_err]. destruct Hn as [Hwf _]; [by constructor; [apply len_nonneg|]|].
  pose proof (run_settles (gg_provider self) resolver Hprovider Hresolver (gg_graph self)
    (<[gg_token_input self := token_tensor]> (gg_static_inputs self))) as Hs.
  rewrite <- run_agrees in Hs. fold (execute_with_resolver (gg_provider self) resolver) in Hs.
  destruct (execute_with_resolver _ _ _ _) as [outs|e|]; [|done|by apply Hs; apply map_Forall_insert_2].
  cbn [map_err]. destruct (outs !! _) as [output|]; cbn [ok_or]; [|done].
  pose proof (last_distribution_yields output) as Hl. by destruct (last_distribution _ _).
Qed.
Lemma next_token_yields tokens step :
  match gn_sampling config with Stochastic _ (Some k) _ => 0 ≤ k | _ => True end →
  steps_to (λ t, 0 ≤ t < gg_vocab_size self) (next_token self resolver config tokens step).
Proof.
  intros Hmode. unfold next_token. eapply steps_bind; [apply distribution_yields|]. intros d Hd. cbn beta in Hd.
  pose proof (sample_token_spec d (gn_distribution config) (gn_sampling config) step Hmode) as Hs.
  destruct (sample_token _ _ _ _) as [index|e|]; [|done..]. cbn [map_err]. destruct Hs as [Hi _].
  unfold try_u32. destruct (index <? 2 ^ 32); cbn [ok_or]; [|done]. cbn. lia.
Qed.
End steps.

(** ** The loop

    [follows prompt l]: each token of [l] is the next token after the prompt and
    the tokens before it. *)
Section loops.
Context `{Libm} (self : GraphGenerator) (resolver : Resolver) (config : GenerationConfig).

Definition follows (prompt l : list Z) : Prop :=
  ∀ i t, l !! i = Some t → next_token self resolver config (prompt ++ take i l) (Z.of_nat i) = Ok t.
Definition is_eos (t : Z) : Prop := gn_eos_token config = Some t.
(** No token but the last ends the text. *)
Definition runs_on (l : list Z) : Prop := Forall (λ t, ¬ is_eos t) l.

Lemma follows_nil prompt : follows prompt [].
Proof. intros i t Hi. by rewrite lookup_nil in Hi. Qed.
Lemma follows_snoc prompt l t :
  follows prompt l → next_token self resolver config (prompt ++ l) (len l) = Ok t → follows prompt (l ++ [t]).
Proof.
  intros Hl Ht i u Hi. apply lookup_app_Some in Hi as [Hi|[Hle Hi]].
  - rewrite take_app_le by (apply lookup_lt_Some in Hi; lia). by apply Hl.
  - destruct (i - length l)%nat eqn:Hn; [|done]. injection Hi as <-.
    assert (i = length l) as -> by lia. by rewrite take_app_length.
Qed.

(** What a loop that has generated [l] does in [n] more steps. *)
Definition loop_outcome (prompt l : list Z) (n : nat) (r : gen_result (list Z * list Z)) : Prop :=
  match r with
  | Ok (out, all) => all = prompt ++ out ∧ (length out ≤ length l + n)%nat ∧ follows prompt out ∧
      (runs_on out ∧ length out = (length l + n)%nat ∨ ∃ pre t, out = pre ++ [t] ∧ runs_on pre ∧ is_eos t)
  | Err e => ∃ pre, (length pre < length l + n)%nat ∧ follows prompt pre ∧ runs_on pre ∧
      next_token self resolver config (prompt ++ pre) (len pre) = Err e
  | Panic => ∃ pre, (length pre < length l + n)%nat ∧ follows prompt pre ∧ runs_on pre ∧
      next_token self resolver config (prompt ++ pre) (len pre) = Panic
  end.

Lemma generate_loop_spec n prompt l :
  follows prompt l → runs_on l →
  loop_outcome prompt l n
    (generate_loop self resolver config (map Z.of_nat (seq (length l) n)) l (prompt ++ l)).
Proof.
  revert l. induction n as [|n IH]; intros l Hl Hr; cbn [seq map generate_loop].
  { cbn. split_and!; [done|lia|done|]. left. split; [done|lia]. }
  fold (len l). destruct (next_token self resolver config (prompt ++ l) (len l)) as [t|e|] eqn:Ht.
  2, 3: exists l; split_and!; [lia|done..].
  assert (follows prompt (l ++ [t])) as Hf by by apply follows_snoc.
  rewrite <- app_assoc. case_bool_decide as He.
  - cbn. split_and!; [done|rewrite length_app; cbn; lia|done|]. right. by exists l, t.
  - specialize (IH (l ++ [t]) Hf). rewrite length_app, Nat.add_1_r in IH. unfold loop_outcome in *.
    rewrite length_app in IH. cbn [length] in IH. replace (length l + 1 + n)%nat with (length l + S n)%nat in IH by lia.
    apply IH. apply Forall_app. split; [done|]. by constructor.
Qed.

(** ** The streaming loop *)
Context {S : Type} (on_token : S → Z → list Z → GenerationControl * S).

(** The answers of the callback to the tokens [more] after [l], and its last state. *)
Fixpoint calls (state : S) (l more : list Z) : list GenerationControl * S :=
  match more with
  | [] => ([], state)
  | t :: more =>
      let '(control, state) := on_token state t (l ++ [t]) in
      let '(controls, state) := calls state (l ++ [t]) more in
      (control :: controls, state)
  end.

(** How the reason to stop shows in the tokens and in the answers. *)
Definition finished (more : list Z) (controls : list GenerationControl) (reason : GenerationFinishReason) : Prop :=
  match reason with
  | MaxTokens => runs_on more ∧ Forall (eq Continue) controls
  | Eos => ∃ pre t cs c, more = pre ++ [t] ∧ runs_on pre ∧ is_eos t ∧ controls = cs ++ [c] ∧ Forall (eq Continue) cs
  | Cancelled => more ≠ [] ∧ runs_on more ∧ ∃ cs, controls = cs ++ [Cancel] ∧ Forall (eq Continue) cs
  end.
Lemma finished_cons t more controls reason :
  ¬ is_eos t → finished more controls reason → finished (t :: more) (Continue :: controls) reason.
Proof.
  intros Ht. destruct reason; cbn.
  - intros [? ?]. split; by constructor.
  - intros (pre & u & cs & c & -> & ? & ? & -> & ?). exists (t :: pre), u, (Continue :: cs), c.
    split_and!; try done; by constructor.
  - intros (? & ? & cs & -> & ?). split_and!; [done|by constructor|]. exists (Continue :: cs).
    split; [done|by constructor].
Qed.

Definition stream_outcome (n : nat) (l all : list Z) (state : S)
    (p : gen_result (list Z * list Z * GenerationFinishReason) * S) : Prop :=
  let plain n := generate_loop self resolver config (map Z.of_nat (seq (length l) n)) l all in
  match p.1 with
  | Ok (out, all', reason) => ∃ more, out = l ++ more ∧ (length more ≤ n)%nat ∧
      plain (length more) = Ok (out, all') ∧ (reason ≠ Cancelled → plain n = Ok (out, all')) ∧
      p.2 = (calls state l more).2 ∧ finished more (calls state l more).1 reason
  | Err e => plain n = Err e
  | Panic => plain n = Panic
  end.

Lemma stream_loop_spec n l all state :
  stream_outcome n l all state
    (stream_loop on_token self resolver config (map Z.of_nat (seq (length l) n)) l all state).
Proof.
  revert l all state. induction n as [|n IH]; intros l all state; unfold stream_outcome; cbn [seq map stream_loop].
  { exists []. rewrite app_nil_r. split_and!; [done|cbn; lia|done..|]. split; constructor. }
  cbn [generate_loop]. destruct (next_token self resolver config all (Z.of_nat (length l))) as [t|e|] eqn:Ht; [|done..].
  destruct (on_token state t (l ++ [t])) as [control state'] eqn:Hc. case_bool_decide as He; cbn [fst snd].
  - exists [t]. cbn [length seq map generate_loop calls]. rewrite Ht, Hc, bool_decide_true by done.
    split_and!; [done|lia|done..|]. exists [], t, [], control. split_and!; done || constructor.
  - destruct control; cbn [fst snd].
    + specialize (IH (l ++ [t]) (all ++ [t]) state'). unfold stream_outcome in IH.
      rewrite length_app, Nat.add_1_r in IH.
      destruct (stream_loop _ _ _ _ _ _ _ _) as [[[[out all'] reason]|e|] state'']; cbn [fst snd] in *; [|done..].
      destruct IH as (more & -> & Hn & Hp & Hr & Hs & Hf). exists (t :: more).
      cbn [length seq map generate_loop calls]. rewrite Ht, Hc, bool_decide_false by done.
      destruct (calls state' (l ++ [t]) more) as [controls s]. cbn [fst snd] in *. rewrite <- app_assoc in *.
      split_and!; [done|lia|done..|]. by apply finished_cons.
    + exists [t]. cbn [length seq map generate_loop calls]. rewrite Ht, Hc, bool_decide_false by done.
      split_and!; [done|lia|done|done|done|]. cbn. split_and!; [done|by constructor|]. by exists [].
Qed.
End loops.

(** ** What a tokenizer promises to the generator

    [new] builds [ready] tokenizers; [fits] bounds the length of the text. *)
Class Tokenizes (T : Type) `{TextTokenizers.TextTokenizer T} := {
  ready : T → Prop;
  fits : T → string → Prop;
  encode_ends : ∀ tokenizer text add_special_tokens, ready tokenizer → fits tokenizer text →
    ∃ r, TextTokenizers.encode_text tokenizer text add_special_tokens = Some r ∧ no_panic r;
  decode_no_panic : ∀ tokenizer ids skip_special, ready tokenizer →
    no_panic (TextTokenizers.decode_text tokenizer ids skip_special);
}.

Lemma fold_yields {E S A} (f : S → A → result E S) s l :
  (∀ s x, no_panic (f s x)) → no_panic (fold_result f s l).
Proof. intros Hf. by apply (fold_result_no_panic (λ _, True)). Qed.

Section instances.
Import TextTokenizer SpmTokenizer SpmTheorems Gpt2 Gpt2Theorems TextTokenizers.

Lemma vocabulary_decode_no_panic self ids skip : no_panic (vocabulary_decode self ids skip).
Proof.
  apply bind_no_panic; [|intros; apply ok_or_no_panic]. apply fold_yields. intros bs id. unfold decode_step.
  destruct (_ && _); [done|]. repeat (apply bind_no_panic; [apply ok_or_no_panic|intros ? _]). done.
Qed.
Lemma gpt2_decode_no_panic self ids skip : no_panic (gpt2_decode self ids skip).
Proof.
  apply bind_no_panic; [|intros; apply ok_or_no_panic]. apply fold_yields. intros bs id. unfold gpt2_decode_step.
  destruct (_ && _); [done|]. repeat (apply bind_no_panic; [apply ok_or_no_panic|intros ? _]). apply fold_yields.
  intros acc c. apply bind_no_panic; [apply ok_or_no_panic|done].
Qed.
Lemma spm_decode_no_panic self ids skip : spm_wf self → no_panic (spm_decode self ids skip).
Proof.
  intros Hwf. apply bind_no_panic; [|intros [bs ?] _; apply ok_or_no_panic]. apply fold_yields. intros [bs strip] id.
  unfold spm_decode_step, try_usize, try_u64. destruct (id <? 2 ^ 64); cbn [ok_or]; [|done].
  destruct (sp_tokens self !! Z.to_nat id) as [token|] eqn:Ht; cbn [ok_or]; [|done].
  apply lookup_lt_Some in Ht. rewrite <- (sw_types _ Hwf) in Ht. apply lookup_lt_is_Some_2 in Ht as [type ->].
  cbn [or_panic]. destruct (skipped _ _ _ _); [done|]. apply bind_no_panic; [|done].
  destruct (type =? TOKEN_TYPE_BYTE); [|done]. apply bind_no_panic; [apply ok_or_no_panic|done].
Qed.

#[export] Program Instance VocabularyTokenizer_tokenizes : Tokenizes VocabularyTokenizer := {|
  ready := vocabulary_wf;
  fits := λ _ text, len (string_bytes text) < 2 ^ 64;
|}.
Next Obligation.
  intros self text add Hwf Hl. cbn. unfold vocabulary_encode. pose proof (len_nonneg (string_bytes text)).
  destruct (encode_loop_spec self Hwf (length (string_bytes text)) (string_bytes text) 0
    (if add then opt_list (vt_bos_token self) else [])) as (r & -> & Hr); [done|lia|unfold len; lia|].
  exists r. split; [done|]. by destruct r.
Qed.
Next Obligation. intros self ids skip _. apply vocabulary_decode_no_panic. Qed.

#[export] Program Instance LlamaSpmTokenizer_tokenizes `{SpmHeap} : Tokenizes LlamaSpmTokenizer := {|
  ready := λ self, ∃ tokens score_bits token_types, LlamaSpmTokenizer_new tokens score_bits token_types (sp_config self) = Ok self;
  fits := λ self text, len (normalize_spm text (sc_add_space_prefix (sp_config self))) < 2 ^ 64;
|}.
Next Obligation.
  intros ? self text add (tokens & score_bits & token_types & Hnew) Hl.
  destruct (spm_encode_spec tokens score_bits token_types (sp_config self) self text add Hnew Hl) as (r & Hr & Hs).
  exists r. split; [done|]. by destruct r.
Qed.
Next Obligation. intros ? self ids skip (? & ? & ? & (Hwf & _)%spm_new_wf). by apply spm_decode_no_panic. Qed.

#[export] Program Instance Gpt2BpeTokenizer_tokenizes `{GeneralCategories} : Tokenizes Gpt2BpeTokenizer := {|
  ready := gpt2_wf;
  fits := λ _ _, True;
|}.
Next Obligation.
  intros ? self text add Hwf _. destruct (gpt2_encode_words self Hwf text) as (words & idss & _ & _ & _ & Henc).
  eexists. split; [apply Henc|done].
Qed.
Next Obligation. intros ? self ids skip _. apply gpt2_decode_no_panic. Qed.
End instances.

(** ** Properties *)

(** What the loops need of the generator's parts: the static inputs, and the
    tensors the provider and the resolver return, are well formed. *)
Record generator_wf (self : GraphGenerator) (resolver : Resolver) : Prop := {
  gw_provider : ∀ op ins outs, Forall tensor_wf ins → gg_provider self op ins = Ok outs → Forall tensor_wf outs;
  gw_resolver : ∀ v t, resolver v = Ok (Some t) → tensor_wf t;
  gw_static : map_Forall (λ _, tensor_wf) (gg_static_inputs self);
}.
Definition sampling_typed (mode : SamplingMode) : Prop :=
  match mode with Stochastic _ (Some k) _ => 0 ≤ k | _ => True end.

Lemma new_vocab graph provider static_inputs token_input output vocab self :
  GraphGenerator_new graph provider static_inputs token_input output vocab = Ok self →
  vocab ≠ 0 ∧ gg_vocab_size self = vocab.
Proof. unfold GraphGenerator_new. destruct (Z.eqb_spec vocab 0); [done|]. by intros [= <-]. Qed.

(** The prompts that are rejected, and the error of each. *)
Definition rejected (prompt : list Z) (vocab limit : Z) (e : GenerationError) : Prop :=
  prompt = [] ∧ e = EmptyPrompt ∨
  prompt ≠ [] ∧ limit = 0 ∧ e = InvalidContextLimit ∨
  prompt ≠ [] ∧ limit ≠ 0 ∧ ∃ pre t post, prompt = pre ++ t :: post ∧ Forall (λ t, t < vocab) pre ∧
    vocab ≤ t ∧ e = TokenIdOutOfRange t.
Lemma rejected_functional prompt vocab limit e e' :
  rejected prompt vocab limit e → rejected prompt vocab limit e' → e = e'.
Proof.
  intros [[-> ->]|[(? & ? & ->)|(? & ? & pre & t & post & Heq & Hpre & Ht & ->)]]
    [[? ->]|[(? & ? & ->)|(? & ? & pre' & t' & post' & Heq' & Hpre' & Ht' & ->)]]; try done.
  f_equal. rewrite Heq in Heq'. clear Heq. revert pre' Heq' Hpre'. induction Hpre as [|x pre Hx _ IH]; intros pre' Heq' Hpre'.
  - destruct Hpre' as [|y pre' Hy _]; [by injection Heq'|]. injection Heq' as -> _. lia.
  - destruct Hpre' as [|y pre' Hy Hpre']; [injection Heq' as <- _; lia|]. injection Heq' as _ Heq'. by apply (IH pre').
Qed.
Lemma validate_prompt_spec prompt vocab limit :
  0 ≤ vocab < 2 ^ 64 →
  match validate_prompt_tokens prompt vocab limit with
  | Ok _ => prompt ≠ [] ∧ limit ≠ 0 ∧ Forall (λ t, t < vocab) prompt
  | Err e => rejected prompt vocab limit e
  | Panic => False
  end.
Proof.
  intros Hv. unfold validate_prompt_tokens. case_bool_decide as Hp; [by left|].
  destruct (Z.eqb_spec limit 0); [by right; left|]. pose proof (check_all_tokens vocab prompt Hv) as Hc.
  destruct (check_all _ _) as [u|e|]; [done| |done]. right; right. by split_and!.
Qed.
Lemma rejected_validate prompt vocab limit e :
  0 ≤ vocab < 2 ^ 64 → rejected prompt vocab limit e → validate_prompt_tokens prompt vocab limit = Err e.
Proof.
  intros Hv He. pose proof (validate_prompt_spec prompt vocab limit Hv) as Hs.
  destruct (validate_prompt_tokens _ _ _) as [u|e'|]; [|f_equal; by eapply rejected_functional|done].
  destruct Hs as (Hp & Hl & Hall).
  destruct He as [[? _]|[(_ & ? & _)|(_ & _ & pre & t & post & -> & _ & Ht & _)]]; [done..|].
  apply Forall_app in Hall as [_ Hall%Forall_inv]. lia.
Qed.

Lemma Forall_removelast {A} (P : A → Prop) l : Forall P l → Forall P (removelast l).
Proof. induction 1 as [|x [|y l] Hx Hl IH]; [constructor..|]. by constructor. Qed.

Section properties.
Context `{Libm}.

Lemma follows_in_vocab self resolver config prompt l :
  0 < gg_vocab_size self → generator_wf self resolver → sampling_typed (gn_sampling config) →
  follows self resolver config prompt l → Forall (λ t, 0 ≤ t < gg_vocab_size self) l.
Proof.
  intros Hv [Hp Hr Hs] Hm Hf. apply Forall_lookup_2. intros i t Ht. specialize (Hf i t Ht).
  pose proof (next_token_yields self resolver config Hv Hp Hr Hs (prompt ++ take i l) (Z.of_nat i) Hm) as Hy.
  by rewrite Hf in Hy.
Qed.

Lemma generate_spec graph provider static_inputs token_input output vocab self resolver prompt config :
  GraphGenerator_new graph provider static_inputs token_input output vocab = Ok self → in_usize vocab →
  generator_wf self resolver → sampling_typed (gn_sampling config) → 0 ≤ gn_max_new_tokens config →
  match generate_tokens_with_resolver self resolver prompt config with
  | Ok r =>
      let generated := gr_generated_tokens r in
      gr_prompt_tokens r = prompt ∧ gr_all_tokens r = prompt ++ generated ∧
      Forall (λ t, t < vocab) prompt ∧ Forall (λ t, 0 ≤ t < vocab) generated ∧
      len generated ≤ gn_max_new_tokens config ∧ follows self resolver config prompt generated ∧
      (runs_on config generated ∧ len generated = gn_max_new_tokens config ∨
       ∃ pre t, generated = pre ++ [t] ∧ runs_on config pre ∧ gn_eos_token config = Some t)
  | Err e => rejected prompt vocab (gn_context_limit config) e ∨
      ∃ pre, len pre < gn_max_new_tokens config ∧ follows self resolver config prompt pre ∧ runs_on config pre ∧
        next_token self resolver config (prompt ++ pre) (len pre) = Err e
  | Panic => 2 ^ 63 ≤ 4 * gn_max_new_tokens config ∨ panic_source (gg_provider self) resolver (gg_graph self)
  end.
Proof.
  intros [Hv <-]%new_vocab Hu Hwf Hm Hmax. unfold in_usize, in_u64 in Hu. unfold generate_tokens_with_resolver.
  pose proof (validate_prompt_spec prompt (gg_vocab_size self) (gn_context_limit config) Hu) as Hp.
  destruct (validate_prompt_tokens _ _ _) as [u|e|]; [|by left|done]. destruct Hp as (_ & _ & Hp).
  unfold with_capacity. destruct (Z.ltb_spec (4 * gn_max_new_tokens config) (2 ^ 63)); [|by left].
  pose proof (generate_loop_spec self resolver config (Z.to_nat (gn_max_new_tokens config)) prompt []
    (follows_nil _ _ _ _) ltac:(constructor)) as Hs. rewrite app_nil_r in Hs. unfold upto, len.
  cbn [length] in Hs. destruct (generate_loop _ _ _ _ _ _) as [[out all]|e|]; cbn in Hs |- *.
  - destruct Hs as (-> & Hl & Hf & Hend). split_and!; [done|done|done| |lia|done|].
    + eapply follows_in_vocab; [lia|done..].
    + destruct Hend as [[? ?]|?]; [left; split; [done|lia]|by right].
  - right. destruct Hs as (pre & ? & ? & ? & ?). exists pre. split_and!; [lia|done..].
  - destruct Hs as (pre & _ & _ & _ & Hn). destruct Hwf as [Hpr Hr Hst].
    pose proof (next_token_yields self resolver config ltac:(lia) Hpr Hr Hst (prompt ++ pre) (len pre) Hm) as Hy.
    rewrite Hn in Hy. by right.
Qed.

(** C28: For a generator the constructor accepts, whose static inputs and the tensors its
    provider and resolver return are well formed, generation returns the prompt followed by
    tokens each of which is the sample of the distribution the graph gives after the tokens
    before it, within the context and the vocabulary, until the end token or the limit; an
    error is the prompt check or the error of the step that failed, and a panic is of a
    limit of at least 2^61, of the provider or of the resolver. *)
Theorem generate_tokens_follow graph provider static_inputs token_input output vocab self resolver prompt config :
  GraphGenerator_new graph provider static_inputs token_input output vocab = Ok self → in_usize vocab →
  generator_wf self resolver → sampling_typed (gn_sampling config) → 0 ≤ gn_max_new_tokens config →
  match generate_tokens_with_resolver self resolver prompt config with
  | Ok r =>
      let generated := gr_generated_tokens r in
      gr_prompt_tokens r = prompt ∧ gr_all_tokens r = prompt ++ generated ∧
      Forall (λ t, t < vocab) prompt ∧ Forall (λ t, 0 ≤ t < vocab) generated ∧
      len generated ≤ gn_max_new_tokens config ∧ follows self resolver config prompt generated ∧
      (runs_on config generated ∧ len generated = gn_max_new_tokens config ∨
       ∃ pre t, generated = pre ++ [t] ∧ runs_on config pre ∧ gn_eos_token config = Some t)
  | Err e => rejected prompt vocab (gn_context_limit config) e ∨
      ∃ pre, len pre < gn_max_new_tokens config ∧ follows self resolver config prompt pre ∧ runs_on config pre ∧
        next_token self resolver config (prompt ++ pre) (len pre) = Err e
  | Panic => 2 ^ 63 ≤ 4 * gn_max_new_tokens config ∨ panic_source (gg_provider self) resolver (gg_graph self)
  end.
Proof. apply generate_spec. Qed.

Definition set_max_new_tokens (max : Z) (config : GenerationConfig) : GenerationConfig :=
  mkGeneration max (gn_context_limit config) (gn_eos_token config) (gn_distribution config) (gn_sampling config).
Lemma generate_loop_max self resolver config max steps l all :
  generate_loop self resolver (set_max_new_tokens max config) steps l all = generate_loop self resolver config steps l all.
Proof.
  revert l all. induction steps as [|step steps IH]; intros l all; cbn [generate_loop]; [done|].
  change (next_token self resolver (set_max_new_tokens max config) all step) with (next_token self resolver config all step).
  destruct (next_token _ _ _ _ _) as [t|e|]; [|done..]. cbn. by rewrite IH.
Qed.

(** C29: Streaming agrees with generation: whatever the callback does, the streamed tokens
    are what generation limited to that many gives, all of generation unless the callback
    cancelled, the callback saw each token once in order with the tokens so far, the finish
    reason is the one that holds, and errors and panics are the same. *)
Theorem streaming_agrees {S} (on_token : S → Z → list Z → GenerationControl * S) self resolver prompt config state :
  let streamed := generate_tokens_with_resolver_streaming on_token self resolver prompt config state in
  match streamed.1 with
  | Ok result =>
      let generation := st_generation result in
      let generated := gr_generated_tokens generation in
      generate_tokens_with_resolver self resolver prompt (set_max_new_tokens (len generated) config) = Ok generation ∧
      (st_finish_reason result ≠ Cancelled → generate_tokens_with_resolver self resolver prompt config = Ok generation) ∧
      streamed.2 = (calls on_token state [] generated).2 ∧
      finished config generated (calls on_token state [] generated).1 (st_finish_reason result)
  | Err e => generate_tokens_with_resolver self resolver prompt config = Err e
  | Panic => generate_tokens_with_resolver self resolver prompt config = Panic
  end.
Proof.
  unfold generate_tokens_with_resolver_streaming, generate_tokens_with_resolver. cbn zeta. cbn [set_max_new_tokens gn_context_limit].
  destruct (validate_prompt_tokens _ _ _) as [u|e|] eqn:Hv; [|done..]. unfold with_capacity.
  destruct (Z.ltb_spec (4 * gn_max_new_tokens config) (2 ^ 63)) as [Hcap|]; [|done].
  pose proof (stream_loop_spec self resolver config on_token (Z.to_nat (gn_max_new_tokens config)) [] prompt state) as Hs.
  unfold stream_outcome in Hs. cbn [length] in Hs. unfold upto.
  destruct (stream_loop _ _ _ _ _ _ _ _) as [[[[out all] reason]|e|] state']; cbn [fst snd] in *; [|by rewrite Hs..].
  destruct Hs as (more & -> & Hn & Hp & Hr & Hst & Hf). cbn [app] in *. cbn [gr_generated_tokens st_generation st_finish_reason gn_max_new_tokens].
  split_and!; [| |done|done].
  - change (gn_max_new_tokens (set_max_new_tokens (len more) config)) with (len more).
    destruct (Z.ltb_spec (4 * len more) (2 ^ 63)); [|unfold len in *; lia]. rewrite generate_loop_max, to_nat_len.
    by rewrite Hp.
  - intros Hc. by rewrite (Hr Hc).
Qed.

(** A prompt that is empty, has a token outside the vocabulary or meets a zero context
    limit is rejected with the same error by every entry point, generation, streaming, the
    next distribution and scoring, before the graph runs or the callback is called. *)
Theorem rejected_prompts `{Logarithms} {S} (on_token : S → Z → list Z → GenerationControl * S)
    self resolver prompt candidate config state e :
  in_usize (gg_vocab_size self) → rejected prompt (gg_vocab_size self) (gn_context_limit config) e →
  generate_tokens self prompt config = Err e ∧
  generate_tokens_with_resolver self resolver prompt config = Err e ∧
  generate_tokens_with_resolver_streaming on_token self resolver prompt config state = (Err e, state) ∧
  next_distribution_with_resolver self resolver prompt (gn_context_limit config) = Err e ∧
  score_continuation_with_resolver self resolver prompt candidate (gn_context_limit config) = Err e.
Proof.
  intros Hu Hr. pose proof (rejected_validate _ _ _ _ Hu Hr) as Hv.
  unfold generate_tokens, generate_tokens_with_resolver, generate_tokens_with_resolver_streaming,
    next_distribution_with_resolver, score_continuation_with_resolver. by rewrite !Hv.
Qed.

(** Generating text ends with every tokenizer that promises to encode and decode what fits
    it, the vocabulary, the SPM and the GPT-2 tokenizers among them, and without a panic
    but one of the provider or the resolver:
    the text is the decoding of the generated tokens, which are of the vocabulary, within
    the limit, and hold the end token, the one given or the one of the tokenizer, at most
    last. *)
Theorem generate_text_total `{Tokenizes T} graph provider static_inputs token_input output vocab self resolver
    (tokenizer : T) prompt add_special_tokens config :
  GraphGenerator_new graph provider static_inputs token_input output vocab = Ok self → in_usize vocab →
  generator_wf self resolver → sampling_typed (gn_sampling config) → 0 ≤ 4 * gn_max_new_tokens config < 2 ^ 63 →
  ready tokenizer → fits tokenizer prompt →
  ∃ r, generate_text_with_resolver self resolver tokenizer prompt add_special_tokens config = Some r ∧
  match r with
  | Ok generated => TextTokenizers.vocab_size tokenizer = vocab ∧
      TextTokenizers.encode_text tokenizer prompt add_special_tokens = Some (Ok (gx_prompt_tokens generated)) ∧
      TextTokenizers.decode_text tokenizer (gx_generated_tokens generated) true = Ok (gx_text generated) ∧
      len (gx_generated_tokens generated) ≤ gn_max_new_tokens config ∧
      Forall (λ t, 0 ≤ t < vocab) (gx_generated_tokens generated) ∧
      ∀ eos, gn_eos_token config = Some eos ∨ gn_eos_token config = None ∧ TextTokenizers.eos_token tokenizer = Some eos →
        Forall (λ t, t ≠ eos) (removelast (gx_generated_tokens generated))
  | Err _ => True
  | Panic => panic_source (gg_provider self) resolver (gg_graph self)
  end.
Proof.
  intros Hnew Hu Hwf Hm Hmax Hready Hfits. unfold generate_text_with_resolver.
  destruct (new_vocab _ _ _ _ _ _ _ Hnew) as [_ Hv]. rewrite Hv.
  destruct (Z.eqb_spec (TextTokenizers.vocab_size tokenizer) vocab) as [Hvs|]; cbn [negb]; [|by eexists].
  destruct (encode_ends tokenizer prompt add_special_tokens Hready Hfits) as (encoded & -> & Hne).
  eexists. split; [done|]. destruct encoded as [ids|e|]; cbn [map_err]; [|done..].
  set (config' := match gn_eos_token config with Some _ => config | None => _ end).
  assert (gn_sampling config' = gn_sampling config ∧ gn_max_new_tokens config' = gn_max_new_tokens config) as [Hcs Hcm]
    by (unfold config'; by destruct (gn_eos_token config)).
  pose proof (generate_spec _ _ _ _ _ _ self resolver ids config' Hnew Hu Hwf) as Hs. rewrite Hcs, Hcm in Hs.
  specialize (Hs Hm ltac:(lia)).
  destruct (generate_tokens_with_resolver self resolver ids config') as [g|e|]; [|done|by destruct Hs as [?|?]; [lia|]].
  destruct Hs as (Hp & _ & _ & Hr & Hl & _ & Hend).
  pose proof (decode_no_panic tokenizer (gr_generated_tokens g) true Hready) as Hd.
  destruct (TextTokenizers.decode_text _ _ _) as [text|e|] eqn:Ht; cbn [map_err]; [|done..].
  cbn [gx_prompt_tokens gx_generated_tokens gx_text]. rewrite Hp. split_and!; [done..|].
  intros eos He. assert (gn_eos_token config' = Some eos) as Heos
    by (unfold config'; destruct He as [He|[He He']]; by rewrite He).
  assert (runs_on config' (removelast (gr_generated_tokens g))) as Hon.
  { destruct Hend as [[Hon _]|(pre & t & -> & Hon & _)]; [by apply Forall_removelast|by rewrite removelast_last]. }
  eapply Forall_impl; [exact Hon|]. intros t Hn ->. by apply Hn.
Qed.
End properties.

(** ** Concrete instances

    A graph that reads the row of each token: after token [i] comes [i + 1]. *)
Definition row_graph : Graph :=
  mkGraph IrVersion_CURRENT [mkValueDecl 0 (Ir.Tensor I32 1); mkValueDecl 1 (Ir.Tensor F32 2)] [2]
    [mkNode 0 (OpTensor Gather) [1; 0] [mkValueDecl 2 (Ir.Tensor F32 2)]].
Definition row_table : Tensor := mkTensor [3; 3] (map f32_of_Z [0; 1; 0;  0; 0; 1;  1; 0; 0]).
Definition row_generator : GraphGenerator :=
  mkGenerator row_graph (cpu_reference (H:=sample_libm)) {[1 := row_table]} 0 0 3.
Definition row_config : GenerationConfig := mkGeneration 4 8 (Some 2) Logits Greedy.
Lemma row_generator_new :
  GraphGenerator_new row_graph (cpu_reference (H:=sample_libm)) {[1 := row_table]} 0 0 3 = Ok row_generator.
Proof. reflexivity. Qed.
Lemma row_generator_wf : generator_wf row_generator empty_resolver.
Proof.
  split; [apply (cpu_provider (H:=sample_libm))|by intros v t|]. apply map_Forall_singleton.
  split; [by repeat constructor|done].
Qed.

Lemma generate_tokens_follow_witness :
  generate_tokens (H:=sample_libm) row_generator [0] row_config = Ok (mkGenerated [0] [1; 2] [0; 1; 2]) ∧
  follows (H:=sample_libm) row_generator empty_resolver row_config [0] [1; 2].
Proof.
  assert (generate_tokens (H:=sample_libm) row_generator [0] row_config = Ok (mkGenerated [0] [1; 2] [0; 1; 2])) as Hg
    by (vm_compute; reflexivity).
  split; [exact Hg|].
  pose proof (generate_tokens_follow (H:=sample_libm) row_graph (cpu_reference (H:=sample_libm)) {[1 := row_table]} 0 0 3
    row_generator empty_resolver [0] row_config row_generator_new ltac:(split; lia) row_generator_wf I ltac:(cbn; lia)) as Ht.
  change (generate_tokens_with_resolver (H:=sample_libm) row_generator empty_resolver) with
    (generate_tokens (H:=sample_libm) row_generator) in Ht. rewrite Hg in Ht.
  exact (proj1 (proj2 (proj2 (proj2 (proj2 (proj2 Ht)))))).
Defined.

#[local] Instance sample_logarithms : Logarithms := {| f32_ln := λ x, x; f64_ln := λ x, x |}.
Lemma rejected_prompts_witness :
  rejected [0; 3; 5] 3 8 (TokenIdOutOfRange 3) ∧
  generate_tokens (H:=sample_libm) row_generator [0; 3; 5] row_config = Err (TokenIdOutOfRange 3).
Proof.
  assert (rejected [0; 3; 5] 3 8 (TokenIdOutOfRange 3)) as Hr.
  { right; right. split; [done|]. split; [done|]. exists [0], 3, [5]. split; [done|].
    split; [by repeat constructor|]. split; [lia|done]. }
  split; [exact Hr|].
  exact (proj1 (rejected_prompts (H:=sample_libm) (λ (n : nat) _ _, (Continue, n)) row_generator empty_resolver
    [0; 3; 5] [] row_config 0%nat _ ltac:(split; cbn; lia) Hr)).
Defined.

Definition letter_tokenizer : TextTokenizer.VocabularyTokenizer :=
  TextTokenizer.mkVocabulary [[Byte.x61]; [Byte.x62]; [Byte.x63]] None None None.
Lemma letter_tokenizer_new :
  TextTokenizer.VocabularyTokenizer_new [[Byte.x61]; [Byte.x62]; [Byte.x63]] None None None = Ok letter_tokenizer.
Proof. vm_compute. reflexivity. Qed.
Lemma generate_text_total_witness :
  ∃ r, generate_text_with_resolver (H:=sample_libm) row_generator empty_resolver letter_tokenizer "ca" false row_config =
    Some r ∧ r = Ok (mkText [2; 0] [1; 2] "bc").
Proof.
  destruct (generate_text_total (H:=sample_libm) row_graph (cpu_reference (H:=sample_libm)) {[1 := row_table]} 0 0 3
    row_generator empty_resolver letter_tokenizer "ca" false row_config row_generator_new ltac:(split; lia)
    row_generator_wf I ltac:(cbn; lia) (proj1 (TextTokenizer.vocabulary_new_wf _ _ _ _ _ letter_tokenizer_new))
    ltac:(by vm_compute)) as (r & Hr & _).
  exists r. split; [exact Hr|].
  assert (generate_text_with_resolver (H:=sample_libm) row_generator empty_resolver letter_tokenizer "ca" false row_config =
    Some (Ok (mkText [2; 0] [1; 2] "bc"))) as Hv by (vm_compute; reflexivity).
  rewrite Hv in Hr. injection Hr as <-. reflexivity.
Defined.
End GeneratorTheorems.
