(* ===== verification/KvCache.v ===== *)
(** The key and value cache: [KvCache] and [PrefixCache] of
    src/crates/ntd-runtime/src/generation.rs.

    [append] and [truncate_left] change the cache in place, also on the way to
    an error: they return the result and the cache they leave. *)
From S2P Require Import Prelude Collections Float32 Tensor TensorTheorems Generator.

Module KvCache.
Import TensorOps TensorTheorems Generator.

Record KvLayerCache := mkLayer { kl_key : Tensor; kl_value : Tensor }.
Record KvCache := mkCache { kc_layers : gmap Z KvLayerCache }.
Definition KvCache_default : KvCache := mkCache ∅.
Inductive KvCacheError := KvInvalidRank | KvShapeMismatch | KvTensor.
Notation kv_result := (result KvCacheError).

Definition validate_kv_pair (key value : Tensor) : kv_result unit :=
  match shape key, shape value with
  | k :: ks, v :: vs => if negb (k =? v) || negb (bool_decide (ks = vs)) then Err KvShapeMismatch else Ok tt
  | _, _ => Err KvInvalidRank
  end.

Definition concat_sequence (left right : Tensor) : kv_result Tensor :=
  match shape left, shape right with
  | l :: ls, r :: rs =>
      if negb (bool_decide (ls = rs)) then Err KvShapeMismatch
      else
        let? n := ok_or (checked_add_usize l r) KvTensor in
        let? capacity := ok_or (checked_add_usize (len (data left)) (len (data right))) KvTensor in
        let? _ := with_capacity 4 capacity in
        map_err (λ _, KvTensor) (Tensor_new (n :: ls) (data left ++ data right))
  | _, _ => Err KvShapeMismatch
  end.

Definition retain_last_sequence (tensor : Tensor) (max_tokens : Z) : kv_result Tensor :=
  match shape tensor with
  | [] => Err KvInvalidRank
  | sequence :: rest =>
      if sequence <=? max_tokens then Ok tensor
      else
        let? row_width := if sequence =? 0 then Panic else Ok (len (data tensor) / sequence) in
        let keep := max_tokens in
        let? start := ok_or (if keep <=? sequence then checked_mul_usize (sequence - keep) row_width else None) KvTensor in
        let? kept := slice (data tensor) start (len (data tensor)) in
        map_err (λ _, KvTensor) (Tensor_new (keep :: rest) kept)
  end.

Definition layer (self : KvCache) (id : Z) : option KvLayerCache := kc_layers self !! id.
Definition set_layer (self : KvCache) (id : Z) (cache : KvLayerCache) : KvCache :=
  mkCache (<[id := cache]> (kc_layers self)).

(** [cache.key = f(&cache.key)?; cache.value = f(&cache.value)?] *)
Definition update_layer (f_key f_value : Tensor → kv_result Tensor) (self : KvCache) (id : Z) (cache : KvLayerCache)
  : kv_result unit * KvCache :=
  match f_key (kl_key cache) with
  | Ok key =>
      let self := set_layer self id (mkLayer key (kl_value cache)) in
      match f_value (kl_value cache) with
      | Ok value => (Ok tt, set_layer self id (mkLayer key value))
      | Err e => (Err e, self)
      | Panic => (Panic, self)
      end
  | Err e => (Err e, self)
  | Panic => (Panic, self)
  end.

Definition append (self : KvCache) (id : Z) (key value : Tensor) : kv_result unit * KvCache :=
  match validate_kv_pair key value with
  | Ok _ =>
      match layer self id with
      | Some existing =>
          update_layer (λ k, concat_sequence k key) (λ v, concat_sequence v value) self id existing
      | None => (Ok tt, set_layer self id (mkLayer key value))
      end
  | Err e => (Err e, self)
  | Panic => (Panic, self)
  end.

(** [for cache in self.layers.values_mut()] *)
Fixpoint truncate_layers (max_tokens : Z) (self : KvCache) (layers : list (Z * KvLayerCache)) : kv_result unit * KvCache :=
  match layers with
  | [] => (Ok tt, self)
  | (id, cache) :: rest =>
      match update_layer (λ k, retain_last_sequence k max_tokens) (λ v, retain_last_sequence v max_tokens) self id cache with
      | (Ok _, self) => truncate_layers max_tokens self rest
      | r => r
      end
  end.
Definition truncate_left (self : KvCache) (max_tokens : Z) : kv_result unit * KvCache :=
  truncate_layers max_tokens self (btree_iter (kc_layers self)).
Definition clear (self : KvCache) : KvCache := mkCache ∅.

Record PrefixCache := mkPrefix { pc_tokens : list Z; pc_kv : KvCache }.
Fixpoint common_prefix (l k : list Z) : Z :=
  match l, k with
  | x :: l, y :: k => if x =? y then 1 + common_prefix l k else 0
  | _, _ => 0
  end.
Definition reusable_prefix_len (self : PrefixCache) (tokens : list Z) : Z := common_prefix (pc_tokens self) tokens.

(** ** The invariant

    The two tensors of a layer have the same shape. *)
Record sequence_wf (t : Tensor) : Prop := {
  sq_wf : tensor_wf t;
  sq_rank : shape t ≠ [];
  sq_count : is_ok (element_count_usize (shape t)) = true;
}.
Record layer_wf (cache : KvLayerCache) : Prop := {
  lw_key : sequence_wf (kl_key cache);
  lw_value : sequence_wf (kl_value cache);
  lw_shape : shape (kl_key cache) = shape (kl_value cache);
}.
Definition kv_wf (self : KvCache) : Prop := map_Forall (λ _, layer_wf) (kc_layers self).

(** The rows of a tensor and the width of a row. *)
Definition row_count (t : Tensor) : Z := default 0 (head (shape t)).
Definition row_shape (t : Tensor) : list Z := tail (shape t).
Definition joined (left right t : Tensor) : Prop :=
  shape t = (row_count left + row_count right) :: row_shape left ∧ data t = data left ++ data right.
(** The last [max] rows. *)
Definition last_rows (max : Z) (from t : Tensor) : Prop :=
  if row_count from <=? max then t = from
  else shape t = max :: row_shape from ∧
       data t = drop (Z.to_nat ((row_count from - max) * product (row_shape from))) (data from).

Lemma element_count_mono c c' s :
  0 ≤ c' ≤ c → Forall (λ d, 0 ≤ d) s →
  is_ok (fold_result (λ count d, ok_or (checked_mul_usize count d) InvalidShape) c s) = true →
  is_ok (fold_result (λ count d, ok_or (checked_mul_usize count d) InvalidShape) c' s) = true.
Proof.
  intros Hc Hs. revert c c' Hc. induction Hs as [|d s Hd _ IH]; intros c c' Hc; [done|]. cbn [fold_result].
  unfold checked_mul_usize, checked_mul_u64. destruct (Z.ltb_spec (c * d) (2 ^ 64)); cbn [ok_or]; [|done].
  destruct (Z.ltb_spec (c' * d) (2 ^ 64)); [|nia]. cbn [ok_or]. apply IH. nia.
Qed.
Lemma element_count_usize_Ok s n : element_count_usize s = Ok n → n = product s.
Proof. intros Hn. pose proof (element_count_yields s) as Hy. by rewrite Hn in Hy. Qed.
Lemma Tensor_new_spec s d :
  len d = product s → is_ok (element_count_usize s) = true → Tensor_new s d = Ok (mkTensor s d).
Proof.
  intros Hl Hok. unfold Tensor_new. destruct (element_count_usize s) as [n|e|] eqn:Hn; [|done..].
  apply element_count_usize_Ok in Hn as ->. by rewrite Hl, Z.eqb_refl.
Qed.
Lemma element_count_no_panic s : no_panic (element_count_usize s).
Proof. apply yields_true. eapply yields_impl; [apply element_count_yields|done]. Qed.

Lemma sequence_shape t : sequence_wf t → shape t = row_count t :: row_shape t ∧ 0 ≤ row_count t ∧
  Forall (λ d, 0 ≤ d) (row_shape t) ∧ len (data t) = row_count t * product (row_shape t).
Proof.
  intros [[Hd Hl] Hr _]. unfold row_count, row_shape. destruct (shape t) as [|n s]; [done|]. cbn.
  apply Forall_cons in Hd as [? ?]. by rewrite Hl.
Qed.

(** Whether two tensors join depends on their shapes only. *)
Definition joinable (left right : Tensor) : bool :=
  (row_count left + row_count right <? 2 ^ 64) &&
  is_ok (element_count_usize ((row_count left + row_count right) :: row_shape left)).
Lemma concat_spec left right :
  sequence_wf left → sequence_wf right → row_shape left = row_shape right →
  len (data left) + len (data right) < 2 ^ 61 →
  if joinable left right
  then ∃ t, concat_sequence left right = Ok t ∧ sequence_wf t ∧ joined left right t
  else concat_sequence left right = Err KvTensor.
Proof.
  intros Hl Hr Heq Hsize. destruct (sequence_shape _ Hl) as (Hsl & Hl0 & Hld & Hll).
  destruct (sequence_shape _ Hr) as (Hsr & Hr0 & _ & Hrl).
  unfold concat_sequence, joinable, joined. rewrite Hsl, Hsr, bool_decide_true by done. cbn [negb].
  unfold checked_add_usize, checked_add_u64. destruct (Z.ltb_spec (row_count left + row_count right) (2 ^ 64)); [|done].
  cbn [ok_or andb]. destruct (Z.ltb_spec (len (data left) + len (data right)) (2 ^ 64)); [|lia]. cbn [ok_or].
  unfold with_capacity. destruct (Z.ltb_spec (4 * (len (data left) + len (data right))) (2 ^ 63)); [|lia].
  set (s := (row_count left + row_count right) :: row_shape left).
  assert (len (data left ++ data right) = product s) as Hp.
  { unfold s, product. rewrite len_app, Hll, Hrl, <- Heq. cbn. unfold product. lia. }
  destruct (is_ok (element_count_usize s)) eqn:Hok.
  - rewrite Tensor_new_spec by done. eexists. split; [done|]. split; [|done]. split; [|done|done].
    split; [constructor; [lia|done]|done].
  - unfold Tensor_new. pose proof (element_count_no_panic s). by destruct (element_count_usize s).
Qed.

Lemma retain_spec t max :
  sequence_wf t → 0 ≤ max → len (data t) < 2 ^ 64 →
  ∃ t', retain_last_sequence t max = Ok t' ∧ sequence_wf t' ∧ last_rows max t t'.
Proof.
  intros Hwf Hmax Hsize. destruct (sequence_shape _ Hwf) as (Hs & Hn & Hd & Hl).
  unfold retain_last_sequence, last_rows. rewrite Hs. destruct (Z.leb_spec (row_count t) max); [by exists t|].
  destruct (Z.eqb_spec (row_count t) 0); [lia|].
  assert (len (data t) / row_count t = product (row_shape t)) as -> by (rewrite Hl, Z.mul_comm, Z.div_mul by lia; done).
  pose proof (product_nonneg _ Hd) as Hw. destruct (Z.leb_spec max (row_count t)); [|lia].
  unfold checked_mul_usize, checked_mul_u64.
  destruct (Z.ltb_spec ((row_count t - max) * product (row_shape t)) (2 ^ 64)); [|nia]. cbn [ok_or].
  set (start := (row_count t - max) * product (row_shape t)) in *.
  assert (0 ≤ start ≤ len (data t)) as Hst by (unfold start; nia).
  assert (slice (E:=KvCacheError) (data t) start (len (data t)) = Ok (drop (Z.to_nat start) (data t))) as ->.
  { apply slice_Ok, get_range_Some. split_and!; [lia..|]. rewrite take_ge; [done|]. rewrite length_drop. unfold len in *. lia. }
  assert (len (drop (Z.to_nat start) (data t)) = product (max :: row_shape t)) as Hp.
  { unfold len. rewrite length_drop. unfold product. cbn. fold (product (row_shape t)). unfold len, start in *. nia. }
  assert (is_ok (element_count_usize (max :: row_shape t)) = true) as Hok.
  { pose proof (sq_count _ Hwf) as Hc. rewrite Hs in Hc. unfold element_count_usize in *. cbn [fold_result] in *.
    unfold checked_mul_usize at 1, checked_mul_u64 at 1. unfold checked_mul_usize at 1, checked_mul_u64 at 1 in Hc.
    destruct (Z.ltb_spec (1 * row_count t) (2 ^ 64)); cbn [ok_or] in Hc; [|done].
    destruct (Z.ltb_spec (1 * max) (2 ^ 64)); [|lia]. cbn [ok_or]. eapply element_count_mono; [|done|exact Hc]. lia. }
  rewrite Tensor_new_spec by done. cbn [map_err]. eexists. split; [done|]. split; [|done].
  split; [|done|done]. split; [by constructor|done].
Qed.

Lemma update_layer_Ok f g self id cache key value :
  f (kl_key cache) = Ok key → g (kl_value cache) = Ok value →
  update_layer f g self id cache = (Ok tt, set_layer self id (mkLayer key value)).
Proof. intros Hf Hg. unfold update_layer, set_layer. rewrite Hf, Hg. cbn. by rewrite insert_insert_eq. Qed.
Lemma layer_set self id cache id' :
  layer (set_layer self id cache) id' = if decide (id = id') then Some cache else layer self id'.
Proof. unfold layer, set_layer. cbn. case_decide; [subst; apply lookup_insert_eq|by rewrite lookup_insert_ne]. Qed.
Lemma set_layer_wf self id cache : kv_wf self → layer_wf cache → kv_wf (set_layer self id cache).
Proof. intros. by apply map_Forall_insert_2. Qed.

Lemma same_shape_length a b : tensor_wf a → tensor_wf b → shape a = shape b → len (data a) = len (data b).
Proof. intros Ha Hb Hs. by rewrite (tw_data _ Ha), (tw_data _ Hb), Hs. Qed.
Lemma joinable_shape a b a' b' : shape a = shape a' → shape b = shape b' → joinable a b = joinable a' b'.
Proof. intros Ha Hb. unfold joinable, row_count, row_shape. by rewrite Ha, Hb. Qed.

(** ** Appending *)
Definition unchanged_but (id : Z) (self self' : KvCache) : Prop :=
  ∀ id', id' ≠ id → layer self' id' = layer self id'.

Lemma append_spec self id key value :
  kv_wf self → sequence_wf key → sequence_wf value →
  (∀ old, layer self id = Some old → len (data (kl_key old)) + len (data key) < 2 ^ 61) →
  match append self id key value with
  | (Ok _, self') => kv_wf self' ∧ unchanged_but id self self' ∧ shape key = shape value ∧
      ∃ new, layer self' id = Some new ∧
      match layer self id with
      | None => new = mkLayer key value
      | Some old => row_shape (kl_key old) = row_shape key ∧ joined (kl_key old) key (kl_key new) ∧
          joined (kl_value old) value (kl_value new)
      end
  | (Err e, self') => self' = self ∧
      (shape key ≠ shape value ∨ ∃ old, layer self id = Some old ∧
        (row_shape (kl_key old) ≠ row_shape key ∨ joinable (kl_key old) key = false))
  | (Panic, _) => False
  end.
Proof.
  intros Hwf Hk Hv Hsize. destruct (sequence_shape _ Hk) as (Hsk & _). destruct (sequence_shape _ Hv) as (Hsv & _).
  unfold append. destruct (decide (shape key = shape value)) as [Hkv|Hne].
  2: { assert (validate_kv_pair key value = Err KvShapeMismatch) as ->; [|by split; [|left]].
       unfold validate_kv_pair. rewrite Hsk, Hsv.
       destruct (Z.eqb_spec (row_count key) (row_count value)) as [Hc|]; cbn [negb orb]; [|done].
       case_bool_decide as Hr; [|done]. destruct Hne. by rewrite Hsk, Hsv, Hc, Hr. }
  assert (validate_kv_pair key value = Ok tt) as ->.
  { unfold validate_kv_pair. by rewrite <- Hkv, Hsk, Z.eqb_refl, bool_decide_true by done. }
  destruct (layer self id) as [old|] eqn:Hold.
  2: { split_and!; [by apply set_layer_wf|intros id' ?; rewrite layer_set; by rewrite decide_False|done|].
       eexists. rewrite layer_set, decide_True by done. by split. }
  pose proof (Hwf _ _ Hold) as [Hok Hov Hos]. specialize (Hsize old eq_refl).
  destruct (decide (row_shape (kl_key old) = row_shape key)) as [Hrow|Hrow].
  2: { unfold update_layer, concat_sequence. destruct (sequence_shape _ Hok) as (Hso & _). rewrite Hso, Hsk.
       rewrite bool_decide_false by done. cbn [negb]. split; [done|]. right. exists old. split; [done|by left]. }
  pose proof (concat_spec (kl_key old) key Hok Hk Hrow Hsize) as Hck.
  assert (row_shape (kl_value old) = row_shape value) as Hrow' by (unfold row_shape in *; by rewrite <- Hos, <- Hkv).
  pose proof (concat_spec (kl_value old) value Hov Hv Hrow') as Hcv.
  rewrite <- (joinable_shape (kl_key old) key) in Hcv by done.
  rewrite <- (same_shape_length (kl_key old) (kl_value old)), <- (same_shape_length key value) in Hcv
    by (done || apply sq_wf; done). specialize (Hcv Hsize).
  destruct (joinable (kl_key old) key) eqn:Hj.
  - destruct Hck as (k & Hk' & Hkwf & Hkj). destruct Hcv as (v & Hv' & Hvwf & Hvj).
    rewrite (update_layer_Ok _ _ _ _ _ k v) by done. split_and!.
    + apply set_layer_wf; [done|]. split; [done..|]. cbn. destruct Hkj as [-> _], Hvj as [-> _].
      unfold row_count, row_shape. by rewrite Hos, Hkv.
    + intros id' ?. rewrite layer_set. by rewrite decide_False.
    + done.
    + eexists. rewrite layer_set, decide_True by done. by split_and!.
  - unfold update_layer. rewrite Hck. split; [done|]. right. exists old. split; [done|by right].
Qed.

(** ** Truncation *)
Definition truncated (max : Z) (old new : KvLayerCache) : Prop :=
  last_rows max (kl_key old) (kl_key new) ∧ last_rows max (kl_value old) (kl_value new).
Definition fits_memory (cache : KvLayerCache) : Prop := len (data (kl_key cache)) < 2 ^ 64.

Lemma truncate_layers_spec max layers self :
  0 ≤ max → NoDup layers.*1 → Forall (λ p, layer_wf p.2 ∧ fits_memory p.2) layers → kv_wf self →
  ∃ self', truncate_layers max self layers = (Ok tt, self') ∧ kv_wf self' ∧
    ∀ id, match (list_to_map layers : gmap Z KvLayerCache) !! id with
          | Some old => ∃ new, layer self' id = Some new ∧ truncated max old new
          | None => layer self' id = layer self id
          end.
Proof.
  intros Hmax. revert self. induction layers as [|[id cache] layers IH]; intros self Hnd Hall Hwf; cbn [truncate_layers].
  { exists self. split_and!; [done..|]. intros id. cbn [list_to_map foldr]. by rewrite (lookup_empty (M:=gmap Z)). }
  apply Forall_cons in Hall as [[[Hk Hv Hs] Hf] Hall]. apply NoDup_cons in Hnd as [Hnin Hnd]. cbn in Hk, Hv, Hs, Hf, Hnin.
  destruct (retain_spec (kl_key cache) max Hk Hmax Hf) as (k & Hk' & Hkwf & Hkl).
  destruct (retain_spec (kl_value cache) max Hv Hmax) as (v & Hv' & Hvwf & Hvl).
  { unfold fits_memory in Hf. by rewrite <- (same_shape_length (kl_key cache)) by (done || apply sq_wf; done). }
  rewrite (update_layer_Ok _ _ _ _ _ k v) by done.
  destruct (IH (set_layer self id (mkLayer k v)) Hnd Hall) as (self' & -> & Hwf' & Hlook).
  { apply set_layer_wf; [done|]. split; [done..|]. cbn. unfold last_rows, row_count, row_shape in *. rewrite <- Hs in Hvl.
    destruct (_ <=? max); [by rewrite Hkl, Hvl|]. by destruct Hkl as [-> _], Hvl as [-> _]. }
  exists self'. split_and!; [done..|]. intros id'. specialize (Hlook id'). cbn [list_to_map foldr fst snd].
  destruct (decide (id = id')) as [<-|Hne].
  - rewrite lookup_insert_eq. rewrite (proj1 (not_elem_of_list_to_map _ _) Hnin) in Hlook. rewrite layer_set, decide_True in Hlook by done.
    by exists (mkLayer k v).
  - rewrite lookup_insert_ne by done. by rewrite layer_set, decide_False in Hlook by done.
Qed.
Lemma truncate_spec self max :
  kv_wf self → map_Forall (λ _, fits_memory) (kc_layers self) → 0 ≤ max →
  ∃ self', truncate_left self max = (Ok tt, self') ∧ kv_wf self' ∧
    ∀ id, match layer self id with
          | Some old => ∃ new, layer self' id = Some new ∧ truncated max old new
          | None => layer self' id = None
          end.
Proof.
  intros Hwf Hfit Hmax. unfold truncate_left.
  destruct (truncate_layers_spec max (btree_iter (kc_layers self)) self Hmax) as (self' & -> & Hwf' & Hlook); [| |done|].
  - apply btree_keys_NoDup.
  - apply Forall_forall. intros [id cache] Hin%elem_of_btree_iter. split; [by apply (Hwf id)|by apply (Hfit id)].
  - exists self'. split_and!; [done..|]. intros id. specialize (Hlook id).
    assert (list_to_map (btree_iter (kc_layers self)) = kc_layers self) as Heq.
    { etrans; [|apply list_to_map_to_list]. apply list_to_map_proper; [apply btree_keys_NoDup|apply merge_sort_Permutation]. }
    rewrite Heq in Hlook. unfold layer in *. by destruct (kc_layers self !! id).
Qed.

(** ** Caches the operations can reach *)
Definition room_for (self : KvCache) (id : Z) (key : Tensor) : Prop :=
  ∀ old, layer self id = Some old → len (data (kl_key old)) + len (data key) < 2 ^ 61.
Inductive kv_step (self : KvCache) : KvCache → Prop :=
| append_step id key value r self' :
    sequence_wf key → sequence_wf value → room_for self id key →
    append self id key value = (r, self') → kv_step self self'
| truncate_step max r self' :
    map_Forall (λ _, fits_memory) (kc_layers self) → 0 ≤ max →
    truncate_left self max = (r, self') → kv_step self self'
| clear_step : kv_step self (clear self).
Definition kv_reachable : KvCache → Prop := rtc kv_step KvCache_default.

Lemma kv_step_wf self self' : kv_wf self → kv_step self self' → kv_wf self'.
Proof.
  intros Hwf [id key value r self1 Hk Hv Hroom Happ|max r self1 Hfit Hmax Htr|].
  - pose proof (append_spec self id key value Hwf Hk Hv Hroom) as Hs. rewrite Happ in Hs.
    destruct r as [u|e|]; [by destruct Hs|by destruct Hs as [-> _]|done].
  - destruct (truncate_spec self max Hwf Hfit Hmax) as (self2 & Heq & Hwf2 & _). rewrite Htr in Heq. by injection Heq as _ ->.
  - apply map_Forall_empty.
Qed.
Lemma kv_reachable_wf self : kv_reachable self → kv_wf self.
Proof.
  intros Hr. apply (rtc_ind_r (R:=kv_step) kv_wf KvCache_default); [apply map_Forall_empty| |done].
  intros x y _ Hstep Hx. by eapply kv_step_wf.
Qed.

Lemma common_prefix_spec l k :
  0 ≤ common_prefix l k ≤ len l ∧ common_prefix l k ≤ len k ∧
  take (Z.to_nat (common_prefix l k)) l = take (Z.to_nat (common_prefix l k)) k ∧
  ∀ n, (n ≤ length l)%nat → (n ≤ length k)%nat → take n l = take n k → Z.of_nat n ≤ common_prefix l k.
Proof.
  revert k. induction l as [|x l IH]; intros k.
  { pose proof (len_nonneg k). split_and!; [done..| |]; cbn; [done|]. intros n Hn _ _. lia. }
  pose proof (len_nonneg (x :: l)). destruct k as [|y k]; [split_and!; [done..|intros n _ Hn _; cbn in Hn |- *; lia]|].
  rewrite !len_cons. cbn [common_prefix]. pose proof (len_nonneg l). pose proof (len_nonneg k).
  destruct (Z.eqb_spec x y) as [->|Hne].
  - destruct (IH k) as (Hl & Hk & Ht & Hmax). split_and!; [lia..| |].
    + replace (Z.to_nat (1 + common_prefix l k)) with (S (Z.to_nat (common_prefix l k))) by lia.
      by rewrite !firstn_cons, Ht.
    + intros [|n] Hnl Hnk Heq; [lia|]. cbn in *. injection Heq as Heq. specialize (Hmax n ltac:(lia) ltac:(lia) Heq). lia.
  - split_and!; [lia..|done|]. intros [|n] _ _ Heq; [lia|]. cbn in Heq. by injection Heq.
Qed.

(** ** Properties *)

(** Appending to a cache reached by its operations either changes that layer alone, by
    putting the new keys and values after the old, or returns a shape error and leaves the
    cache as it was; it never panics where the lengths fit. *)
Theorem kv_append_atomic self id key value :
  kv_reachable self → sequence_wf key → sequence_wf value → room_for self id key →
  match append self id key value with
  | (Ok _, self') => kv_wf self' ∧ unchanged_but id self self' ∧ shape key = shape value ∧
      ∃ new, layer self' id = Some new ∧
      match layer self id with
      | None => new = mkLayer key value
      | Some old => row_shape (kl_key old) = row_shape key ∧ joined (kl_key old) key (kl_key new) ∧
          joined (kl_value old) value (kl_value new)
      end
  | (Err e, self') => self' = self ∧
      (shape key ≠ shape value ∨ ∃ old, layer self id = Some old ∧
        (row_shape (kl_key old) ≠ row_shape key ∨ joinable (kl_key old) key = false))
  | (Panic, _) => False
  end.
Proof. intros Hr%kv_reachable_wf. by apply append_spec. Qed.

(** Truncating keeps the last rows of every layer up to the limit, keys and values
    alike, and drops no layer. *)
Theorem kv_truncate_window self max :
  kv_reachable self → map_Forall (λ _, fits_memory) (kc_layers self) → 0 ≤ max →
  ∃ self', truncate_left self max = (Ok tt, self') ∧ kv_wf self' ∧
    ∀ id, match layer self id with
          | Some old => ∃ new, layer self' id = Some new ∧ truncated max old new
          | None => layer self' id = None
          end.
Proof. intros Hr%kv_reachable_wf. by apply truncate_spec. Qed.

(** The reusable prefix is the longest common prefix. *)
Theorem reusable_prefix_longest self tokens :
  let n := reusable_prefix_len self tokens in
  0 ≤ n ≤ len (pc_tokens self) ∧ n ≤ len tokens ∧
  take (Z.to_nat n) (pc_tokens self) = take (Z.to_nat n) tokens ∧
  ∀ m, (m ≤ length (pc_tokens self))%nat → (m ≤ length tokens)%nat → take m (pc_tokens self) = take m tokens → Z.of_nat m ≤ n.
Proof. apply common_prefix_spec. Qed.

(** ** Concrete instances *)
Definition two_rows : Tensor := mkTensor [2; 1] (map f32_of_Z [1; 2]).
Definition one_row : Tensor := mkTensor [1; 1] (map f32_of_Z [3]).
Lemma two_rows_wf : sequence_wf two_rows.
Proof. split; [|done|done]. split; [by repeat constructor|done]. Qed.
Lemma one_row_wf : sequence_wf one_row.
Proof. split; [|done|done]. split; [by repeat constructor|done]. Qed.
Definition first_cache : KvCache := (append KvCache_default 0 two_rows two_rows).2.
Definition second_cache : KvCache := (append first_cache 0 one_row one_row).2.
Lemma first_reachable : kv_reachable first_cache.
Proof.
  apply rtc_once. eapply (append_step _ 0 two_rows two_rows); [apply two_rows_wf..| |reflexivity].
  intros old Hold. done.
Qed.
Lemma first_room : room_for first_cache 0 one_row.
Proof.
  intros old Hold. change (layer first_cache 0) with (Some (mkLayer two_rows two_rows)) in Hold.
  injection Hold as <-. by vm_compute.
Qed.

Lemma kv_append_atomic_witness :
  ∃ new, layer second_cache 0 = Some new ∧ joined two_rows one_row (kl_key new) ∧ shape (kl_key new) = [3; 1].
Proof.
  pose proof (kv_append_atomic first_cache 0 one_row one_row first_reachable one_row_wf one_row_wf first_room) as Ht.
  assert (append first_cache 0 one_row one_row = (Ok tt, second_cache)) as Hv by (vm_compute; reflexivity).
  rewrite Hv in Ht. destruct Ht as (_ & _ & _ & new & Hn & Hrest).
  exists new. split; [exact Hn|]. change (layer first_cache 0) with (Some (mkLayer two_rows two_rows)) in Hrest.
  split; [exact (proj1 (proj2 Hrest))|]. exact (proj1 (proj1 (proj2 Hrest))).
Defined.
Lemma kv_truncate_window_witness :
  ∃ self' new, truncate_left first_cache 1 = (Ok tt, self') ∧ layer self' 0 = Some new ∧
    shape (kl_key new) = [1; 1] ∧ data (kl_key new) = map f32_of_Z [2].
Proof.
  destruct (kv_truncate_window first_cache 1 first_reachable) as (self' & Ht & _ & Hl).
  - change (kc_layers first_cache) with ({[0 := mkLayer two_rows two_rows]} : gmap Z KvLayerCache).
    apply map_Forall_singleton. by vm_compute.
  - lia.
  - specialize (Hl 0). change (layer first_cache 0) with (Some (mkLayer two_rows two_rows)) in Hl. cbn beta iota in Hl.
    destruct Hl as (new & Hn & [Hs Hd] & _). exists self', new. split; [exact Ht|]. split; [exact Hn|]. split; [exact Hs|exact Hd].
Defined.
End KvCache.
