(* ===== verification/AssistantActions.v ===== *)
(** The action protocol of the assistant: src/crates/ntd-runtime/src/assistant_actions.rs.

    Parsing a plan out of the text of the model, running it on the action fabric,
    and the evidence and prompts made from its outputs.  Text is read as the list
    of its bytes: the separators of the protocol are ASCII. *)
From stdpp Require Import pretty.
From S2P Require Import Prelude Text Collections Core Capability Effects Cognition ActionFabric.

Module AssistantActions.

(** ** Texts *)
Definition tab : byte := Byte.x09.
Definition newline : byte := Byte.x0a.
Definition carriage : byte := Byte.x0d.
Definition bar : byte := Byte.x7c.
Definition unit_separator : byte := Byte.x1f.

Definition contains (c : byte) (l : bytes) : bool := existsb (λ b, bool_decide (b = c)) l.
(** [split_once(c)] *)
Fixpoint split_once (c : byte) (l : bytes) : option (bytes * bytes) :=
  match l with
  | [] => None
  | b :: l =>
      if bool_decide (b = c) then Some ([], l)
      else '(l1, l2) ← split_once c l; Some (b :: l1, l2)
  end.
(** [splitn(n, c)] *)
Fixpoint splitn (n : nat) (c : byte) (l : bytes) : list bytes :=
  match n with
  | O => []
  | S O => [l]
  | S n =>
      match split_once c l with
      | Some (l1, l2) => l1 :: splitn n c l2
      | None => [l]
      end
  end.
(** [split(c)] *)
Fixpoint split (c : byte) (l : bytes) : list bytes :=
  match l with
  | [] => [[]]
  | b :: l =>
      if bool_decide (b = c) then [] :: split c l
      else match split c l with
           | part :: parts => (b :: part) :: parts
           | [] => [[b]]
           end
  end.
(** [str::lines]: a line ends in [\n], or [\r\n], or at the end of the text. *)
Definition strip_carriage (line : bytes) : bytes :=
  match reverse line with
  | b :: rest => if bool_decide (b = carriage) then reverse rest else line
  | [] => line
  end.
Fixpoint lines_from (line l : bytes) : list bytes :=
  match l with
  | [] => if bool_decide (line = []) then [] else [line]
  | b :: l =>
      if bool_decide (b = newline) then strip_carriage line :: lines_from [] l
      else lines_from (line ++ [b]) l
  end.
Definition lines (l : bytes) : list bytes := lines_from [] l.

(** [parse::<u32>]: decimal digits, behind a plus sign or not. *)
Definition digit (b : byte) : option Z :=
  let z := Z_of_byte b in if (48 <=? z) && (z <=? 57) then Some (z - 48) else None.
Definition parse_digit (acc : option Z) (b : byte) : option Z :=
  n ← acc; d ← digit b; try_u32 (10 * n + d).
Definition parse_u32 (l : bytes) : option Z :=
  let digits := match l with b :: rest => if bool_decide (b = Byte.x2b) then rest else l | [] => l end in
  if bool_decide (digits = []) then None else foldl parse_digit (Some 0) digits.

(** ** Plans *)
Definition NATIVE_ACTION_PROTOCOL_V1 : string := "NTD97_ACTIONS_V1".
Definition NATIVE_ACTION_DIRECT : string := "DIRECT".
Definition MAX_ACTIONS : Z := 8.

Record AssistantActionPlan := mkActionPlan {
  ap_graph : TaskGraph;
  ap_payloads : gmap Z TypedAction;
  ap_canonical_text : string;
}.
Inductive AssistantPlanDecision := Direct | Actions (plan : AssistantActionPlan).
Inductive AssistantPlanError :=
| Empty | InvalidHeader | MissingEnd | TrailingContent | InvalidLine | InvalidNodeId
| NonCanonicalNodeOrder | UnsupportedCapability (capability : string) | InvalidPayload
| TooManyActions | EmptyActionPlan.
Notation plan_result := (result AssistantPlanError).

(** [!s.trim().is_empty() && s == s.trim()] *)
Definition clean (l : bytes) : bool := negb (bool_decide (trim_bytes l = [])) && bool_decide (l = trim_bytes l).

(** [payload.split_once('\t')] with both sides clean. *)
Definition clean_pair (payload : bytes) : plan_result (bytes * bytes) :=
  let? '(l1, l2) := ok_or (split_once tab payload) InvalidPayload in
  if clean l1 && clean l2 then Ok (l1, l2) else Err InvalidPayload.
(** [payload.splitn(3, '\t')] with two clean sides, the third not empty where there is one. *)
Definition clean_operation (payload : bytes) : plan_result (bytes * bytes * option bytes) :=
  match splitn 3 tab payload with
  | target :: operation :: rest =>
      let value := head rest in
      if clean target && clean operation && negb (bool_decide (value = Some []))
      then Ok (target, operation, value) else Err InvalidPayload
  | _ => Err InvalidPayload
  end.

Definition parse_file_grant_read (payload : bytes) : plan_result TypedAction :=
  let? '(alias, path) := ok_or (split_once tab payload) InvalidPayload in
  if clean alias && clean path && negb (contains tab path)
  then Ok (FileRead (bytes_string (alias ++ tab :: path))) else Err InvalidPayload.
Definition parse_file_write (payload : bytes) : plan_result TypedAction :=
  let? '(path, text) := ok_or (split_once tab payload) InvalidPayload in
  if clean path && negb (bool_decide (text = [])) && negb (contains carriage text) && negb (contains newline text)
  then Ok (FileWrite (bytes_string path) text) else Err InvalidPayload.
Definition parse_file_grant_write (payload : bytes) : plan_result TypedAction :=
  match splitn 3 tab payload with
  | [alias; path; text] =>
      if clean alias && clean path && negb (bool_decide (text = [])) && negb (contains carriage text)
         && negb (contains newline text) && negb (contains tab text)
      then Ok (FileWrite (bytes_string (alias ++ tab :: path)) text) else Err InvalidPayload
  | _ => Err InvalidPayload
  end.
Definition parse_app_action (payload : bytes) : plan_result TypedAction :=
  match splitn 3 tab payload with
  | app :: action :: rest =>
      if clean app && clean action
      then Ok (AppAction (bytes_string app) (bytes_string action) (default [] (head rest)))
      else Err InvalidPayload
  | _ => Err InvalidPayload
  end.
Definition parse_pc_args (args : bytes) : plan_result (list string) :=
  if bool_decide (args = []) then Ok []
  else map_result (λ arg, if bool_decide (arg = []) then Err InvalidPayload else Ok (bytes_string arg))
         (split unit_separator args).
Definition parse_pc_execute (payload : bytes) : plan_result TypedAction :=
  match splitn 4 tab payload with
  | peer :: program :: rest =>
      let working_dir := default [] (head rest) in
      let args := default [] (rest !! 1%nat) in
      if clean peer && clean program && bool_decide (working_dir = trim_bytes working_dir) && negb (contains tab args)
      then
        let? args := parse_pc_args args in
        Ok (PcExecute (bytes_string peer) (bytes_string program) args
              (if bool_decide (working_dir = []) then None else Some (bytes_string working_dir)))
      else Err InvalidPayload
  | _ => Err InvalidPayload
  end.
Definition parse_pc_artifact_write (payload : bytes) : plan_result TypedAction :=
  match splitn 3 tab payload with
  | [peer; path; text] =>
      if clean peer && clean path && negb (bool_decide (text = [])) && negb (contains tab text)
      then Ok (PcArtifactWrite (bytes_string peer) (bytes_string path) text) else Err InvalidPayload
  | _ => Err InvalidPayload
  end.

Definition on_pair (payload : bytes) (f : string → string → TypedAction) : plan_result TypedAction :=
  let? '(l1, l2) := clean_pair payload in Ok (f (bytes_string l1) (bytes_string l2)).
Definition on_operation (payload : bytes) (f : string → string → option string → TypedAction) : plan_result TypedAction :=
  let? '(target, operation, value) := clean_operation payload in
  Ok (f (bytes_string target) (bytes_string operation) (bytes_string <$> value)).

(** [match capability], with the side effect of each. *)
Definition parsers : list (string * (SideEffectClass * (bytes → plan_result TypedAction))) :=
  [("web.search", (ReadOnly, λ p, Ok (WebSearch (bytes_string p) 5)));
   ("web.fetch", (ReadOnly, λ p, Ok (WebFetch (bytes_string p))));
   ("artifact.download", (Reversible, λ p, on_pair p ArtifactDownload));
   ("artifact.upload", (ExternalWrite, λ p, on_pair p ArtifactUpload));
   ("browser.observe", (ReadOnly, λ p, Ok (BrowserObserve (bytes_string p))));
   ("browser.interact", (ExternalWrite, λ p, on_operation p BrowserInteract));
   ("file.read", (ReadOnly, λ p, Ok (FileRead (bytes_string p))));
   ("file.grant.read", (ReadOnly, parse_file_grant_read));
   ("file.write", (Reversible, parse_file_write));
   ("file.grant.write", (ExternalWrite, parse_file_grant_write));
   ("device.observe", (ReadOnly, λ p, Ok (DeviceObserve (bytes_string p))));
   ("device.interact", (ExternalWrite, λ p, on_operation p DeviceInteract));
   ("app.action", (ExternalWrite, parse_app_action));
   ("pc.observe", (ReadOnly, λ p, on_pair p PcObserve));
   ("pc.execute", (ExternalWrite, parse_pc_execute));
   ("pc.artifact.read", (ReadOnly, λ p, on_pair p PcArtifactRead));
   ("pc.artifact.write", (ExternalWrite, parse_pc_artifact_write))]%string.
Definition find_parser (capability : string) : option (SideEffectClass * (bytes → plan_result TypedAction)) :=
  snd <$> find (λ p, bool_decide (p.1 = capability)) parsers.

Definition parse_action_line (line : bytes) (expected_id : Z) : plan_result (ActionNode * TypedAction * bytes) :=
  match splitn 3 bar line with
  | [] => Err InvalidLine
  | id :: fields =>
      let? id := ok_or (parse_u32 id) InvalidNodeId in
      match fields with
      | capability :: payload :: _ =>
          if (id =? 0) || negb (id =? expected_id) then Err NonCanonicalNodeOrder
          else if negb (clean payload) || contains bar payload || contains carriage payload || contains newline payload
          then Err InvalidPayload
          else
            let capability := bytes_string capability in
            match find_parser capability with
            | None => Err (UnsupportedCapability capability)
            | Some (side_effect, parser) =>
                let? typed := parser payload in
                let? _ := map_err (λ _, InvalidPayload) (action_validate typed) in
                Ok (mkActionNode id capability side_effect true, typed, line)
            end
      | _ => Err InvalidLine
      end
  end.

(** The state of the loop over the lines. *)
Record PlanLines := mkLines {
  ls_actions : list ActionNode;
  ls_payloads : gmap Z TypedAction;
  ls_canonical : bytes;
  ls_expected_id : Z;
}.
(** The loop: [Some rest] is the rest of the lines behind END. *)
Fixpoint parse_lines (ls : list bytes) (st : PlanLines) : plan_result (PlanLines * option (list bytes)) :=
  match ls with
  | [] => Ok (st, None)
  | line :: rest =>
      if bool_decide (line = string_bytes "END") then Ok (st, Some rest)
      else if MAX_ACTIONS <=? len (ls_actions st) then Err TooManyActions
      else
        let? '(node, payload, canonical_line) := parse_action_line line (ls_expected_id st) in
        let? expected_id := ok_or (try_u32 (ls_expected_id st + 1)) InvalidNodeId in
        parse_lines rest
          (mkLines (ls_actions st ++ [node]) (<[an_id node := payload]> (ls_payloads st))
             (ls_canonical st ++ canonical_line ++ [newline]) expected_id)
  end.
Definition plan_header : bytes := string_bytes NATIVE_ACTION_PROTOCOL_V1 ++ [newline].

Definition parse_native_action_plan (text : string) : plan_result AssistantPlanDecision :=
  let normalized := trim_bytes (string_bytes text) in
  if bool_decide (normalized = []) then Err Empty
  else if bool_decide (normalized = string_bytes NATIVE_ACTION_DIRECT) then Ok Direct
  else
    match lines normalized with
    | header :: rest =>
        if negb (bool_decide (header = string_bytes NATIVE_ACTION_PROTOCOL_V1)) then Err InvalidHeader
        else
          let? '(st, ended) := parse_lines rest (mkLines [] ∅ plan_header 1) in
          match ended with
          | None => Err MissingEnd
          | Some rest =>
              if existsb (λ line, negb (bool_decide (trim_bytes line = []))) rest then Err TrailingContent
              else if bool_decide (ls_actions st = []) then Err EmptyActionPlan
              else Ok (Actions (mkActionPlan (mkTaskGraph (ls_actions st)) (ls_payloads st)
                          (bytes_string (ls_canonical st ++ string_bytes "END"))))
          end
    | [] => Err InvalidHeader
    end.

(** ** Evidence *)
Record VerifiedActionEvidence := mkEvidence {
  ve_node_id : Z;
  ve_capability : CapabilityId;
  ve_summary : string;
  ve_value : string;
  ve_evidence : list string;
}.
Inductive VerifiedActionEvidenceError :=
| PlanNotCompleted | EmptyPlan | ActionNotCommitted (node_id : Z) | MissingOutput (node_id : Z) | InvalidOutput (node_id : Z).
Notation evidence_result := (result VerifiedActionEvidenceError).

Definition newline_string : string := bytes_string [newline].
Definition render_action_value (value : ActionValue) : string :=
  match value with
  | VNone => "none"
  | VText text => text
  | VBytes bs => pretty (len bs) +:+ " bytes"
  | VTextList items => String.concat newline_string items
  | VFields fields => String.concat newline_string (map (λ p, p.1 +:+ "=" +:+ p.2) (btree_iter fields))
  end.
Definition nonempty_output (node_id : Z) (output : ActionOutput) : evidence_result string :=
  if is_blank (ao_summary output) then Err (InvalidOutput node_id) else Ok (ao_summary output).
Definition action_evidence (action : PlannedAction) : evidence_result VerifiedActionEvidence :=
  if negb (bool_decide (pa_status action = Committed)) then Err (ActionNotCommitted (pa_node_id action))
  else
    let? output := ok_or (pa_output action) (MissingOutput (pa_node_id action)) in
    let? summary := nonempty_output (pa_node_id action) output in
    Ok (mkEvidence (pa_node_id action) (pa_capability action) summary (render_action_value (ao_value output))
          (ao_evidence output)).
Definition collect_verified_action_evidence (plan : ActionPlanState) : evidence_result (list VerifiedActionEvidence) :=
  if negb (bool_decide (pl_status plan = PlanCompleted)) then Err PlanNotCompleted
  else if bool_decide (pl_actions plan = []) then Err EmptyPlan
  else map_result action_evidence (pl_actions plan).

(** [replace('\n', " ")] *)
Definition replace_newlines (s : string) : string :=
  bytes_string (map (λ b, if bool_decide (b = newline) then Byte.x20 else b) (string_bytes s)).
Definition compact_item (out : string) (item : VerifiedActionEvidence) : string :=
  out +:+ pretty (ve_node_id item) +:+ " " +:+ ve_capability item +:+
  (if negb (is_blank (ve_value item)) && negb (bool_decide (ve_value item = "none"%string))
   then " " +:+ replace_newlines (ve_value item) else " " +:+ trim (ve_summary item)) +:+ newline_string.
Definition build_compact_verified_answer_prompt (user_message : string) (evidence : list VerifiedActionEvidence)
  : evidence_result string :=
  if bool_decide (evidence = []) then Err EmptyPlan
  else
    let out := foldl compact_item ("Verified:" +:+ newline_string) evidence in
    Ok (out +:+ "User: " +:+ user_message +:+ newline_string +:+ "Assistant:").
Definition full_item (out : string) (item : VerifiedActionEvidence) : string :=
  let out := out +:+ "[" +:+ pretty (ve_node_id item) +:+ " " +:+ ve_capability item +:+ "] " +:+ ve_summary item
             +:+ newline_string in
  let out := if negb (string_is_empty (ve_value item)) then out +:+ "value: " +:+ ve_value item +:+ newline_string else out in
  foldl (λ out evidence_line, out +:+ "evidence: " +:+ evidence_line +:+ newline_string) out (ve_evidence item).
Definition build_verified_answer_prompt (user_message : string) (evidence : list VerifiedActionEvidence)
  : evidence_result string :=
  if bool_decide (evidence = []) then Err EmptyPlan
  else
    let out := foldl full_item ("Verified action results:" +:+ newline_string) evidence in
    Ok (out +:+ newline_string +:+ "User: " +:+ user_message +:+ newline_string +:+ "Assistant:").

(** ** Running a plan *)
Record VerifiedAssistantActionRun := mkRun {
  vr_plan_id : ActionPlanId;
  vr_reports : list ActionStepReport;
  vr_evidence : list VerifiedActionEvidence;
  vr_synthesis_prompt : string;
}.
Inductive AssistantActionRunError :=
| TaskGraphMismatch
| RunFabric (e : ActionFabricError)
| Incomplete (plan_status : ActionPlanStatus) (action_status : option ActionStatus) (summary : string)
| RunEvidence (e : VerifiedActionEvidenceError)
| RunMissingPlan
| StepLimit.

#[export] Instance TypedAction_eq_dec : EqDecision TypedAction.
Proof. solve_decision. Defined.

Definition same_action (payloads : gmap Z TypedAction) (stored : PlannedAction) (planned : ActionNode) : bool :=
  (pa_node_id stored =? an_id planned) && bool_decide (pa_capability stored = an_capability planned)
  && bool_decide (pa_side_effect stored = an_side_effect planned)
  && bool_decide (pa_verification_required stored = an_verification_required planned)
  && bool_decide (payloads !! an_id planned = Some (pa_action stored)).
Definition plan_matches (initial : ActionPlanState) (task : Cognition.CognitiveTask) (plan : AssistantActionPlan) : bool :=
  (pl_task_id initial =? Cognition.task_id task)
  && (len (pl_actions initial) =? len (tg_actions (ap_graph plan)))
  && forallb (λ p, same_action (ap_payloads plan) p.1 p.2) (combine (pl_actions initial) (tg_actions (ap_graph plan))).

Section run.
Context {A V : Type} `{CapabilityAdapter A, ActionVerifier V}.
Notation run_op := (op (ActionFabric A * V) AssistantActionRunError).

(** [?] on an [ActionFabricError] or an evidence error goes through [From]. *)
Definition fabric_op {X} (m : op (ActionFabric A * V) ActionFabricError X) : run_op X :=
  λ s, let '(s, r) := m s in (s, map_err RunFabric r).

(** The loop over the actions: [execute_next] once for each, at most. *)
Fixpoint step_loop (n : nat) (plan_id : ActionPlanId) (authority : AuthorityGrant) (reports : list ActionStepReport)
  : run_op (list ActionStepReport) :=
  match n with
  | O => op_ret reports
  | S n =>
      do! report := fabric_op (execute_next plan_id authority) in
      let reports := reports ++ [report] in
      let incomplete := Incomplete (sr_plan_status report) (sr_action_status report) (sr_summary report) in
      match sr_plan_status report with
      | PlanCompleted => op_ret reports
      | PlanFailed | PlanRolledBack | PlanSuspended => op_err incomplete
      | PlanReady =>
          match sr_action_status report with
          | Some Retryable | Some Suspended => op_err incomplete
          | _ => step_loop n plan_id authority reports
          end
      end
  end.

Definition check_graph (task : Cognition.CognitiveTask) (action_plan : AssistantActionPlan)
  : result AssistantActionRunError unit :=
  if TaskGraph_is_empty (Cognition.task_graph task) || negb (bool_decide (Cognition.task_graph task = ap_graph action_plan))
  then Err TaskGraphMismatch else Ok tt.

Definition continue_verified_assistant_plan (plan_id : ActionPlanId) (task : Cognition.CognitiveTask)
    (action_plan : AssistantActionPlan) (authority : AuthorityGrant) (user_message : string)
  : run_op VerifiedAssistantActionRun :=
  do! _ := op_lift (check_graph task action_plan) in
  do! initial := op_gets (λ s, ok_or (get_plan s.1 plan_id) RunMissingPlan) in
  if negb (plan_matches initial task action_plan) then op_err TaskGraphMismatch
  else
    do! reports :=
      (if bool_decide (pl_status initial = PlanCompleted) then op_ret []
       else step_loop (length (tg_actions (ap_graph action_plan))) plan_id authority []) in
    do! plan := op_gets (λ s, ok_or (get_plan s.1 plan_id) RunMissingPlan) in
    if negb (bool_decide (pl_status plan = PlanCompleted)) then op_err StepLimit
    else
      do! evidence := op_lift (map_err RunEvidence (collect_verified_action_evidence plan)) in
      do! synthesis_prompt := op_lift (map_err RunEvidence (build_compact_verified_answer_prompt user_message evidence)) in
      op_ret (mkRun plan_id reports evidence synthesis_prompt).

Definition execute_verified_assistant_plan (task : Cognition.CognitiveTask)
    (action_plan : AssistantActionPlan) (authority : AuthorityGrant) (user_message : string)
  : run_op VerifiedAssistantActionRun :=
  do! _ := op_lift (check_graph task action_plan) in
  do! plan_id := fabric_op (on_fst (prepare_cognitive_task task (ap_payloads action_plan))) in
  continue_verified_assistant_plan plan_id task action_plan authority user_message.
End run.
End AssistantActions.
