(* ===== verification/AssistantActionsTheorems.v ===== *)
(** The action protocol: what parsing accepts, and what a run of a plan shows. *)
From S2P Require Import Prelude Text Collections Core Capability Effects Cognition ActionFabric ActionFabricStep ActionFabricSafety ActionFabricTheorems ActionFabricProperties AssistantActions.

Module AssistantActionsTheorems.
Import AssistantActions.

(** ** Texts *)
Lemma split_once_Some c l l1 l2 : split_once c l = Some (l1, l2) → l = l1 ++ c :: l2.
Proof.
  revert l1. induction l as [|b l IH]; intros l1; cbn; [done|]. case_bool_decide as Hb; [by intros [= <- <-]; subst|].
  destruct (split_once c l) as [[k1 k2]|]; cbn; [|done]. intros [= <- <-]. by rewrite (IH k1).
Qed.
(** The third field of a split in three is the end of the text. *)
Lemma splitn_third c l x y z rest : splitn 3 c l = x :: y :: z :: rest → l = x ++ c :: y ++ c :: z ∧ rest = [].
Proof.
  cbn. destruct (split_once c l) as [[l1 l2]|] eqn:H1; [|done].
  destruct (split_once c l2) as [[l3 l4]|] eqn:H2; [|done]. intros [= <- <- <- <-].
  by rewrite (split_once_Some _ _ _ _ H1), (split_once_Some _ _ _ _ H2).
Qed.

Lemma trim_bytes_stop l : starts_ws l = false → starts_ws_rev (reverse l) = false → trim_bytes l = l.
Proof. intros H1 H2. unfold trim_bytes. by rewrite (trim_start_stop _ H1), (trim_rev_stop _ H2), reverse_involutive. Qed.
Lemma trimmed_ends l : trim_bytes l = l → starts_ws_rev (reverse l) = false.
Proof.
  intros Hl. rewrite <- Hl. unfold trim_bytes. rewrite reverse_involutive. apply trim_rev_clean.
Qed.
Lemma clean_spec l : clean l = true ↔ l ≠ [] ∧ trim_bytes l = l.
Proof.
  unfold clean. rewrite andb_true_iff, negb_true_iff, bool_decide_eq_false, bool_decide_eq_true. split.
  - intros [Hne Heq]. split; [|done]. intros ->. by apply Hne.
  - intros [Hne Heq]. by rewrite Heq.
Qed.
(** A text that ends in a clean one keeps its last character. *)
Lemma strip_carriage_clean l payload : payload ≠ [] → trim_bytes payload = payload → strip_carriage (l ++ payload) = l ++ payload.
Proof.
  intros Hne Ht. unfold strip_carriage. apply trimmed_ends in Ht. rewrite reverse_app.
  destruct (reverse payload) as [|b r] eqn:Hr; [by apply (f_equal reverse) in Hr; rewrite reverse_involutive in Hr|].
  cbn [app]. rewrite bool_decide_false; [done|]. intros ->. by destruct r as [|? [|? ?]].
Qed.

Lemma lines_from_clean cur l : newline ∉ cur → Forall (λ line, newline ∉ line) (lines_from cur l).
Proof.
  revert cur. induction l as [|b l IH]; intros cur Hc; cbn [lines_from].
  - case_bool_decide; [constructor|by repeat constructor].
  - case_bool_decide as Hb.
    + constructor; [|apply IH; set_solver]. unfold strip_carriage. destruct (reverse cur) as [|x r] eqn:Hr; [done|].
      case_bool_decide; [|done]. intros Hin. apply Hc. rewrite <- (reverse_involutive cur), Hr, reverse_cons. set_solver.
    + apply IH. set_solver.
Qed.
Lemma lines_from_line cur line l :
  newline ∉ line → lines_from cur (line ++ newline :: l) = strip_carriage (cur ++ line) :: lines_from [] l.
Proof.
  revert cur. induction line as [|b line IH]; intros cur Hn; cbn [app lines_from].
  - by rewrite bool_decide_true, app_nil_r.
  - rewrite bool_decide_false by set_solver. rewrite IH by set_solver. by rewrite <- app_assoc.
Qed.
Lemma lines_from_last cur line :
  newline ∉ line → cur ++ line ≠ [] → lines_from cur line = [cur ++ line].
Proof.
  revert cur. induction line as [|b line IH]; intros cur Hn Hne; cbn [lines_from].
  - rewrite app_nil_r in *. by rewrite bool_decide_false.
  - rewrite bool_decide_false by set_solver. rewrite IH; [by rewrite <- app_assoc|set_solver|by destruct cur].
Qed.
(** Lines that keep their ends, joined again and read again. *)
Definition plain (line : bytes) : Prop := newline ∉ line ∧ strip_carriage line = line.
Definition joined_lines (ls : list bytes) : bytes := concat (map (λ l, l ++ [newline]) ls).
Lemma lines_joined ls final :
  Forall plain ls → newline ∉ final → final ≠ [] → lines (joined_lines ls ++ final) = ls ++ [final].
Proof.
  intros Hls Hf Hne. unfold lines. induction Hls as [|l ls [Hn Hs] _ IH]; [by apply lines_from_last|].
  unfold joined_lines in *. cbn. rewrite <- !app_assoc. cbn. rewrite lines_from_line by done. cbn. by rewrite Hs, IH.
Qed.

(** ** Lines of a plan *)
Abbreviation entry := (ActionNode * TypedAction * bytes)%type.

Lemma parse_action_line_Ok line id (e : entry) :
  parse_action_line line id = Ok e →
  e.2 = line ∧ line ≠ [] ∧ strip_carriage line = line ∧ an_id e.1.1 = id ∧ id ≠ 0 ∧ an_verification_required e.1.1 = true ∧
  action_validate e.1.2 = Ok tt ∧
  ∃ parser, find_parser (an_capability e.1.1) = Some (an_side_effect e.1.1, parser).
Proof.
  unfold parse_action_line. destruct (splitn 3 bar line) as [|f1 fields] eqn:Hs; [done|].
  destruct (parse_u32 f1) as [n|]; cbn [ok_or]; [|done]. destruct fields as [|capability [|payload more]]; [done..|].
  apply splitn_third in Hs as [-> ->]. destruct (_ || _) eqn:Hid; [done|].
  apply orb_false_iff in Hid as [Hid0 Hid%negb_false_iff]. apply Z.eqb_neq in Hid0. apply Z.eqb_eq in Hid as ->.
  destruct (negb (clean payload) || _ || _ || _) eqn:Hp; [done|].
  rewrite !orb_false_iff, negb_false_iff, clean_spec in Hp. destruct Hp as [[[[Hne Ht] _] _] _].
  destruct (find_parser _) as [[effect parser]|] eqn:Hf; [|done]. destruct (parser payload) as [typed| |]; [|done..].
  destruct (action_validate typed) as [[]| |] eqn:Hv; cbn [map_err]; [|done..]. intros [= <-]. cbn.
  split_and!; try done; [by destruct f1| |by exists parser].
  replace (f1 ++ bar :: capability ++ bar :: payload) with ((f1 ++ bar :: capability ++ [bar]) ++ payload)
    by (rewrite <- !app_assoc; cbn; by rewrite <- app_assoc).
  by apply strip_carriage_clean.
Qed.

Definition plan_end : bytes := string_bytes "END".
Definition add_entry (st : PlanLines) (e : entry) : PlanLines :=
  mkLines (ls_actions st ++ [e.1.1]) (<[an_id e.1.1 := e.1.2]> (ls_payloads st))
    (ls_canonical st ++ e.2 ++ [newline]) (ls_expected_id st + 1).
Fixpoint accepted (st : PlanLines) (es : list entry) : Prop :=
  match es with
  | [] => True
  | e :: es => e.2 ≠ plan_end ∧ len (ls_actions st) < MAX_ACTIONS ∧
      parse_action_line e.2 (ls_expected_id st) = Ok e ∧ ls_expected_id st + 1 < 2 ^ 32 ∧
      accepted (add_entry st e) es
  end.
Lemma parse_lines_Ok ls st st' rest :
  parse_lines ls st = Ok (st', Some rest) ↔
  ∃ es, ls = map snd es ++ plan_end :: rest ∧ accepted st es ∧ st' = foldl add_entry st es.
Proof.
  revert st. induction ls as [|line ls IH]; intros st; cbn [parse_lines].
  { split; [done|]. intros ([|e es] & Heq & _); done. }
  case_bool_decide as He.
  { split.
    - intros [= <- <-]. exists []. by rewrite He.
    - intros ([|e es] & Heq & Hacc & ->); cbn in Heq; injection Heq as -> ?; [by subst|]. by destruct Hacc. }
  destruct (Z.leb_spec MAX_ACTIONS (len (ls_actions st))) as [Hmax|Hmax].
  { split; [done|]. intros ([|e es] & Heq & Hacc & ->); cbn in Heq; injection Heq as -> ?; [done|].
    destruct Hacc as (_ & ? & _). lia. }
  destruct (parse_action_line line (ls_expected_id st)) as [e|err|] eqn:Hp.
  2, 3: split; [done|]; intros ([|e es] & Heq & Hacc & ->); cbn in Heq; injection Heq as -> ?; [done|];
    destruct Hacc as (_ & _ & Hp' & _); rewrite Hp' in Hp; done.
  destruct e as [[node typed] cl]. assert (cl = line) as -> by apply (parse_action_line_Ok _ _ _ Hp).
  unfold try_u32. destruct (Z.ltb_spec (ls_expected_id st + 1) (2 ^ 32)); cbn [ok_or].
  - change (mkLines _ _ _ _) with (add_entry st (node, typed, line)). rewrite IH. split.
    + intros (es & -> & Hacc & ->). exists ((node, typed, line) :: es). by split_and!.
    + intros ([|[[node' typed'] line'] es] & Heq & Hacc & ->); cbn in Heq; injection Heq as -> ->; [done|].
      destruct Hacc as (_ & _ & Hp' & _ & Hacc). cbn in Hp'. rewrite Hp' in Hp. injection Hp as -> ->. by exists es.
  - split; [done|]. intros ([|e es] & Heq & Hacc & ->); cbn in Heq; injection Heq as -> ?; [done|].
    destruct Hacc as (_ & _ & _ & ? & _). lia.
Qed.

(** What the loop has read. *)
Definition ids_match (st : PlanLines) : Prop :=
  ls_expected_id st = 1 + len (ls_actions st) ∧
  (∀ i node, ls_actions st !! i = Some node → an_id node = 1 + Z.of_nat i ∧ an_verification_required node = true ∧
    ∃ parser typed, find_parser (an_capability node) = Some (an_side_effect node, parser) ∧
      ls_payloads st !! an_id node = Some typed ∧ action_validate typed = Ok tt) ∧
  (∀ id, is_Some (ls_payloads st !! id) ↔ 1 ≤ id ≤ len (ls_actions st)).
Lemma accepted_state es st :
  accepted st es → ids_match st → len (ls_actions st) ≤ MAX_ACTIONS →
  let st' := foldl add_entry st es in
  ids_match st' ∧ len (ls_actions st') ≤ MAX_ACTIONS ∧
  ls_canonical st' = ls_canonical st ++ joined_lines (map snd es) ∧
  ls_actions st' = ls_actions st ++ map (λ e, e.1.1) es.
Proof.
  revert st. induction es as [|e es IH]; intros st Hacc Hids Hmax; cbn [foldl].
  { cbn zeta. unfold joined_lines. cbn. by rewrite !app_nil_r. }
  destruct Hacc as (_ & Hlt & Hp & _ & Hacc). destruct Hids as (Hexp & Hnodes & Hpay).
  destruct (parse_action_line_Ok _ _ _ Hp) as (_ & _ & _ & Hid & _ & Hver & Hval & parser & Hf).
  destruct (IH (add_entry st e) Hacc) as (Hids' & Hmax' & Hcan & Hacts).
  - unfold ids_match, add_entry. cbn. rewrite len_app, len_cons, len_nil. split_and!; [lia| |].
    + intros i node Hi. apply lookup_app_Some in Hi as [Hi|[Hge Hi]].
      * destruct (Hnodes i node Hi) as (Hn & ? & parser' & typed & ? & ? & ?). split_and!; [done..|].
        exists parser', typed. split_and!; [done| |done]. rewrite lookup_insert_ne; [done|].
        apply lookup_lt_Some in Hi. unfold len in Hexp. lia.
      * destruct (i - length (ls_actions st))%nat eqn:Hn; [|done]. injection Hi as <-.
        split_and!; [unfold len in Hexp; lia|done|]. exists parser, e.1.2.
        split_and!; [done|by rewrite lookup_insert_eq|done].
    + intros id. destruct (decide (id = an_id e.1.1)) as [->|Hne].
      * rewrite lookup_insert_eq. pose proof (len_nonneg (ls_actions st)). split; [lia|by eexists].
      * rewrite lookup_insert_ne, Hpay by done. lia.
  - cbn. rewrite len_app, len_cons, len_nil. unfold MAX_ACTIONS in *. lia.
  - cbn zeta in *. split_and!; [done..| |].
    + rewrite Hcan. unfold joined_lines. cbn. by rewrite <- !app_assoc.
    + rewrite Hacts. cbn. by rewrite <- app_assoc.
Qed.

Lemma accepted_plain es st : accepted st es → Forall (λ e, newline ∉ e.2) es → Forall plain (map snd es).
Proof.
  revert st. induction es as [|e es IH]; intros st Hacc Hall; cbn; [constructor|].
  apply Forall_cons in Hall as [He Hall]. destruct Hacc as (_ & _ & Hp & _ & Hacc).
  constructor; [|by apply (IH _ Hacc)]. split; [done|]. apply (parse_action_line_Ok _ _ _ Hp).
Qed.

Definition protocol_line : bytes := string_bytes NATIVE_ACTION_PROTOCOL_V1.
Definition start_lines : PlanLines := mkLines [] ∅ plan_header 1.
Lemma start_match : ids_match start_lines.
Proof.
  split_and!; [done|intros i node Hi; done|]. intros id. cbn [start_lines ls_payloads ls_actions]. rewrite lookup_empty, len_nil.
  split; [by intros [? ?]|lia].
Qed.

(** What [parse_native_action_plan] makes of the text of some lines. *)
Lemma parse_text es :
  accepted start_lines es → Forall (λ e, newline ∉ e.2) es → es ≠ [] →
  let st := foldl add_entry start_lines es in
  parse_native_action_plan (bytes_string (plan_header ++ joined_lines (map snd es) ++ plan_end)) =
    Ok (Actions (mkActionPlan (mkTaskGraph (ls_actions st)) (ls_payloads st)
          (bytes_string (ls_canonical st ++ plan_end)))).
Proof.
  intros Hacc Hnl Hne st. set (text := plan_header ++ joined_lines (map snd es) ++ plan_end).
  assert (trim_bytes text = text) as Ht.
  { apply trim_bytes_stop; [done|]. unfold text. by rewrite !reverse_app. }
  unfold parse_native_action_plan. rewrite string_bytes_string, Ht.
  rewrite !bool_decide_false by done.
  assert (lines text = (protocol_line :: map snd es) ++ [plan_end]) as ->.
  { change text with (joined_lines (protocol_line :: map snd es) ++ plan_end).
    apply lines_joined; [|by vm_compute; set_solver|done]. constructor; [|by eapply accepted_plain].
    split; [by vm_compute; set_solver|done]. }
  cbn [app]. rewrite bool_decide_true by done. cbn [negb].
  assert (parse_lines (map snd es ++ [plan_end]) (mkLines [] ∅ plan_header 1) = Ok (st, Some [])) as ->.
  { apply parse_lines_Ok. by exists es. }
  cbn [existsb]. destruct (accepted_state es start_lines Hacc start_match ltac:(done)) as (_ & _ & _ & Hacts).
  fold st in Hacts. rewrite bool_decide_false; [done|]. rewrite Hacts. by destruct es.
Qed.

(** C32: An action plan read from text has one to eight actions numbered from one, each with
    a capability the protocol knows, the side effect class of that capability, verification
    required and a valid typed payload, and no other payload; reading its canonical text
    gives the plan back. *)
Theorem parsed_plan_sound text plan :
  parse_native_action_plan text = Ok (Actions plan) →
  let actions := tg_actions (ap_graph plan) in
  1 ≤ len actions ≤ MAX_ACTIONS ∧
  (∀ i node, actions !! i = Some node → an_id node = 1 + Z.of_nat i ∧ an_verification_required node = true ∧
    ∃ parser typed, find_parser (an_capability node) = Some (an_side_effect node, parser) ∧
      ap_payloads plan !! an_id node = Some typed ∧ action_validate typed = Ok tt) ∧
  (∀ id, is_Some (ap_payloads plan !! id) ↔ 1 ≤ id ≤ len actions) ∧
  parse_native_action_plan (ap_canonical_text plan) = Ok (Actions plan).
Proof.
  unfold parse_native_action_plan at 1. set (normalized := trim_bytes (string_bytes text)).
  case_bool_decide as H0; [done|]. case_bool_decide; [done|]. destruct (lines normalized) as [|header rest] eqn:Hlines; [done|].
  case_bool_decide as Hheader; cbn [negb]; [|done]. fold start_lines.
  destruct (parse_lines rest start_lines) as [[st [after|]]| |] eqn:Hp; [|done..].
  destruct (existsb _ after); [done|]. case_bool_decide as Hempty; [done|]. intros [= <-].
  cbn [ap_graph ap_payloads ap_canonical_text tg_actions]. fold plan_end.
  apply parse_lines_Ok in Hp as (es & Hrest & Hacc & ->).
  destruct (accepted_state es start_lines Hacc start_match ltac:(done)) as ((_ & Hnodes & Hpay) & Hmax & Hcan & Hacts).
  assert (es ≠ []) as Hes by (intros ->; by apply Hempty).
  assert (Forall (λ e : entry, newline ∉ e.2) es) as Hnl.
  { pose proof (lines_from_clean [] normalized ltac:(set_solver)) as Hall. fold (lines normalized) in Hall.
    rewrite Hlines, Hrest in Hall. apply Forall_cons in Hall as [_ Hall]. apply Forall_app in Hall as [Hall _].
    clear -Hall. induction es as [|e es IH]; cbn in Hall; [constructor|]. apply Forall_cons in Hall as [? ?]. constructor; auto. }
  split_and!; [|done|done|done|].
  - destruct (ls_actions _); [done|]. rewrite len_cons. match goal with |- context [len ?l] => pose proof (len_nonneg l) end. lia.
  - rewrite Hcan. cbn [start_lines ls_canonical]. rewrite <- app_assoc, (parse_text es) by done.
    rewrite Hcan. cbn [start_lines ls_canonical]. by rewrite <- app_assoc.
Qed.

Definition sample_plan_text : string :=
  bytes_string (concat (map (λ l, string_bytes l ++ [carriage; newline])
    ["NTD97_ACTIONS_V1"; "1|web.search|rocq"; "+2|file.write|a.txt	hello"; "END"; "  "]%string)).
Lemma parsed_plan_sound_witness :
  ∃ plan, parse_native_action_plan sample_plan_text = Ok (Actions plan) ∧ len (tg_actions (ap_graph plan)) = 2 ∧
    parse_native_action_plan (ap_canonical_text plan) = Ok (Actions plan).
Proof.
  assert (is_ok (parse_native_action_plan sample_plan_text) = true) as Hok by (vm_compute; reflexivity).
  assert (match parse_native_action_plan sample_plan_text with Ok (Actions plan) => len (tg_actions (ap_graph plan)) | _ => 0 end = 2)
    as Hl by (vm_compute; reflexivity).
  destruct (parse_native_action_plan sample_plan_text) as [[|plan]| |] eqn:Hp; [discriminate Hl| |discriminate Hok..].
  exists plan. split; [reflexivity|]. split; [exact Hl|].
  exact (proj2 (proj2 (proj2 (parsed_plan_sound sample_plan_text plan Hp)))).
Defined.
(** The canonical text keeps the spelling of the ids: one plan has several. *)
Example canonical_text_not_unique :
  let text id := bytes_string (plan_header ++ string_bytes id ++ string_bytes "|web.search|x" ++ [newline] ++ plan_end) in
  let canonical id := match parse_native_action_plan (text id) with Ok (Actions p) => Some (ap_canonical_text p) | _ => None end in
  canonical "1"%string = Some (text "1"%string) ∧ canonical "+01"%string = Some (text "+01"%string).
Proof. vm_compute. split; reflexivity. Qed.
(** A tab in the path of file.read makes the action of file.grant.read. *)
Example read_spells_grant :
  let text line := bytes_string (plan_header ++ string_bytes line ++ [newline] ++ plan_end) in
  let payload line := match parse_native_action_plan (text line) with Ok (Actions p) => ap_payloads p !! 1 | _ => None end in
  payload "1|file.read|alias	path"%string = payload "1|file.grant.read|alias	path"%string ∧
  payload "1|file.read|alias	path"%string = Some (FileRead "alias	path").
Proof. vm_compute. split; reflexivity. Qed.

(** ** Running a plan *)

(** The tasks and the contracts of the actions stay. *)
Definition kept (p p' : ActionPlanState) : Prop :=
  pl_task_id p' = pl_task_id p ∧ length (pl_actions p') = length (pl_actions p) ∧
  ∀ i a, pl_actions p !! i = Some a → ∃ a', pl_actions p' !! i = Some a' ∧ same_contract a a'.
Lemma kept_refl p : kept p p.
Proof. split_and!; [done..|]. intros i a Ha. exists a. by split_and!. Qed.
Lemma kept_trans p q r : kept p q → kept q r → kept p r.
Proof.
  intros (Ht & Hl & Hc) (Ht' & Hl' & Hc'). split_and!; [congruence..|]. intros i a Ha.
  destruct (Hc i a Ha) as (b & Hb & H1). destruct (Hc' i b Hb) as (c & Hcc & H2). exists c. split; [done|].
  unfold same_contract in *. intuition congruence.
Qed.
Lemma plan_step_kept registry authority p p' : plan_typed p → plan_step registry authority p p' → kept p p'.
Proof.
  intros Hty Hstep. destruct (plan_step_stable _ _ _ _ Hty Hstep) as [_ Hs].
  assert (pl_task_id p' = pl_task_id p ∧ length (pl_actions p') = length (pl_actions p)) as [Ht Hl].
  { destruct Hstep; cbn; rewrite ?length_insert; done. }
  split_and!; [done..|]. intros i a Ha. destruct (Hs i a Ha) as (a' & ? & ? & _). by exists a'.
Qed.

Section run.
Context {A V : Type} `{CapabilityAdapter A, ActionVerifier V}.
Implicit Types (s : ActionFabric A) (v : V).

Lemma execute_next_kept s v k authority s' v' r p :
  fabric_inv s → get_plan s k = Some p → execute_next k authority (s, v) = ((s', v'), r) →
  fabric_inv s' ∧ ∃ p', get_plan s' k = Some p' ∧ kept p p' ∧ ∀ rep, r = Ok rep → report_shows k p p' rep.
Proof.
  intros Hinv Hp Hrun. destruct (execute_next_inv _ _ _ _ _ _ _ Hinv Hrun) as [Hinv' _]. split; [done|].
  apply execute_next_cases in Hrun as [(-> & _ & Hr)|(q & p' & ads & Hq & _ & Hstep & -> & _ & _ & Hrep)].
  - exists p. split_and!; [done|apply kept_refl|]. intros rep Heq. by destruct (Hr rep).
  - assert (q = p) as -> by congruence. destruct (get_plan_inv s k p Hinv Hp) as (Hty & _).
    exists p'. split_and!; [apply get_put|by eapply plan_step_kept|done].
Qed.

(** What [n] turns of the loop over the plan [p] leave. *)
Definition loop_leaves (k : ActionPlanId) (p : ActionPlanState) (n : nat) (before : list ActionStepReport) s'
    (r : result AssistantActionRunError (list ActionStepReport)) : Prop :=
  ∃ p', get_plan s' k = Some p' ∧ kept p p' ∧
  match r with
  | Ok reports => (length reports ≤ length before + n)%nat ∧
      (pl_status p' = PlanCompleted ∨ n = 0%nat ∨ pl_cursor p + Z.of_nat n ≤ pl_cursor p' < len (pl_actions p'))
  | Err (Incomplete status _ _) => pl_status p' = status ∧ status ≠ PlanCompleted
  | Err (RunFabric _) | Panic => True
  | Err _ => False
  end.
Lemma step_loop_spec n k authority before s v s' v' r p :
  fabric_inv s → get_plan s k = Some p → step_loop n k authority before (s, v) = ((s', v'), r) →
  fabric_inv s' ∧ loop_leaves k p n before s' r.
Proof.
  revert before s v p. induction n as [|n IH]; intros before s v p Hinv Hp; cbn [step_loop].
  { intros [= <- <- <-]. split; [done|]. exists p. split_and!; [done|apply kept_refl|lia|by right; left]. }
  unfold op_bind, fabric_op. destruct (execute_next k authority (s, v)) as [[s1 v1] r1] eqn:Hrun.
  destruct (execute_next_kept _ _ _ _ _ _ _ _ Hinv Hp Hrun) as (Hinv1 & p1 & Hp1 & Hk1 & Hrep).
  destruct r1 as [rep|e|]; cbn [map_err]; [|intros [= <- <- <-]; split; [done|]; by exists p1..].
  destruct (Hrep rep eq_refl) as (_ & Hst & _ & Hready).
  assert (∀ ast sm, fabric_inv s1 ∧ (pl_status p1 ≠ PlanCompleted →
    loop_leaves k p (S n) before s1 (Err (Incomplete (sr_plan_status rep) ast sm)))) as Hinc.
  { intros ast sm. split; [done|]. intros Hne. exists p1. by rewrite <- Hst in Hne |- *. }
  destruct (sr_plan_status rep) eqn:Hs; try (intros [= <- <- <-]; split; [done|]; apply Hinc; congruence).
  - assert (sr_action_status rep ≠ Some Retryable → step_loop n k authority (before ++ [rep]) (s1, v1) = ((s', v'), r) →
      fabric_inv s' ∧ loop_leaves k p (S n) before s' r) as Hgo.
    { intros Hne Hloop. destruct (IH _ _ _ _ Hinv1 Hp1 Hloop) as (Hinv' & p' & Hp' & Hk' & Hout). split; [done|].
      exists p'. split_and!; [done|by eapply kept_trans|]. destruct r as [reports|e|]; [|done..].
      rewrite length_app in Hout. cbn in Hout. destruct Hout as [Hl Hout]. split; [lia|].
      destruct (Hready ltac:(congruence)) as [|[Hc Hlt]]; [done|].
      destruct Hk' as (_ & Hkl & _). destruct (get_plan_inv s1 k p1 Hinv1 Hp1) as ([Hc0 Hl0 _] & [_ _ Hcl _ _ _] & _).
      destruct (get_plan_inv s k p Hinv Hp) as ([Hp0 Hpl _] & [_ _ Hpc _ _ _] & _).
      destruct Hk1 as (_ & Hk1l & _). assert (pl_cursor p1 = pl_cursor p + 1) as Hcp.
      { rewrite Hc in Hlt |- *. clear -Hlt Hl0. unfold saturating_add_u64 in *. lia. }
      destruct Hout as [?|[->|Hout]]; [by left| |right; right; lia].
      cbn in Hloop. injection Hloop as <- <- <-. assert (p' = p1) as -> by congruence. right; right. lia. }
    destruct (sr_action_status rep) as [[]|] eqn:Hast; try (intros Hloop; by apply Hgo);
      (intros [= <- <- <-]; split; [done|]; apply Hinc; congruence).
  - intros [= <- <- <-]. split; [done|]. exists p1. split_and!; [done..|rewrite length_app; cbn; lia|left; congruence].
Qed.

Lemma plan_matches_spec p task plan :
  plan_matches p task plan = true →
  pl_task_id p = Cognition.task_id task ∧ length (pl_actions p) = length (tg_actions (ap_graph plan)) ∧
  ∀ i a node, pl_actions p !! i = Some a → tg_actions (ap_graph plan) !! i = Some node →
    pa_node_id a = an_id node ∧ pa_capability a = an_capability node ∧ pa_side_effect a = an_side_effect node ∧
    pa_verification_required a = an_verification_required node ∧ ap_payloads plan !! an_id node = Some (pa_action a).
Proof.
  unfold plan_matches. rewrite !andb_true_iff, !Z.eqb_eq. intros [[Ht Hl] Hall]. split_and!; [done|unfold len in Hl; lia|].
  intros i a node Ha Hn. rewrite forallb_forall in Hall.
  assert (List.In (a, node) (combine (pl_actions p) (tg_actions (ap_graph plan)))) as Hin.
  { clear -Ha Hn. revert i Ha Hn. generalize (pl_actions p) as l, (tg_actions (ap_graph plan)) as k.
    induction l as [|x l IH]; intros [|y k] [|i] Ha Hn; try done; cbn in *; [left; congruence|right; by apply (IH k i)]. }
  specialize (Hall _ Hin). unfold same_action in Hall. cbn in Hall.
  rewrite !andb_true_iff, !bool_decide_eq_true, Z.eqb_eq in Hall. naive_solver.
Qed.

(** One item of evidence: the committed action of the planned node, and its output. *)
Definition evidenced (plan : AssistantActionPlan) (node : ActionNode) (a : PlannedAction) (ev : VerifiedActionEvidence) : Prop :=
  ∃ output, pa_status a = Committed ∧ pa_output a = Some output ∧ is_blank (ao_summary output) = false ∧
    ap_payloads plan !! an_id node = Some (pa_action a) ∧ pa_capability a = an_capability node ∧
    ev = mkEvidence (an_id node) (an_capability node) (ao_summary output) (render_action_value (ao_value output))
           (ao_evidence output).
Definition run_shows (plan : AssistantActionPlan) s' (k : ActionPlanId) (task_id : Z) (msg : string)
    (run : VerifiedAssistantActionRun) : Prop :=
  ∃ p, get_plan s' k = Some p ∧ pl_status p = PlanCompleted ∧ pl_task_id p = task_id ∧ vr_plan_id run = k ∧
    length (pl_actions p) = length (tg_actions (ap_graph plan)) ∧
    length (vr_evidence run) = length (tg_actions (ap_graph plan)) ∧
    len (vr_reports run) ≤ len (tg_actions (ap_graph plan)) ∧
    (∀ i node, tg_actions (ap_graph plan) !! i = Some node → ∃ a ev,
      pl_actions p !! i = Some a ∧ vr_evidence run !! i = Some ev ∧ evidenced plan node a ev) ∧
    build_compact_verified_answer_prompt msg (vr_evidence run) = Ok (vr_synthesis_prompt run).
(** The error of an action that has no output, or one whose summary is blank. *)
Definition missing_evidence (a : PlannedAction) (e : VerifiedActionEvidenceError) : Prop :=
  e = MissingOutput (pa_node_id a) ∧ pa_output a = None ∨
  e = InvalidOutput (pa_node_id a) ∧ ∃ output, pa_output a = Some output ∧ is_blank (ao_summary output) = true.
(** The errors of a run, and what each says of the state it leaves. *)
Definition run_failure s v s' v' (k : ActionPlanId) (e : AssistantActionRunError) : Prop :=
  match e with
  | TaskGraphMismatch | RunMissingPlan => s' = s ∧ v' = v
  | RunFabric _ => True
  | Incomplete status _ _ => ∃ p, get_plan s' k = Some p ∧ pl_status p = status ∧ status ≠ PlanCompleted
  | RunEvidence e => ∃ p i a, get_plan s' k = Some p ∧ pl_status p = PlanCompleted ∧ pl_actions p !! i = Some a ∧
      pa_status a = Committed ∧ Forall (λ b, ∃ ev, action_evidence b = Ok ev) (take i (pl_actions p)) ∧ missing_evidence a e
  | StepLimit => False
  end.

Lemma action_evidence_Ok a ev :
  action_evidence a = Ok ev → ∃ output, pa_status a = Committed ∧ pa_output a = Some output ∧
    is_blank (ao_summary output) = false ∧
    ev = mkEvidence (pa_node_id a) (pa_capability a) (ao_summary output) (render_action_value (ao_value output)) (ao_evidence output).
Proof.
  unfold action_evidence, nonempty_output. case_bool_decide; cbn [negb]; [|done].
  destruct (pa_output a) as [output|]; cbn [ok_or]; [|done]. destruct (is_blank _) eqn:Hb; [done|]. intros [= <-]. by exists output.
Qed.
Lemma action_evidence_committed a :
  pa_status a = Committed →
  match action_evidence a with
  | Ok _ => True
  | Err e => missing_evidence a e
  | Panic => False
  end.
Proof.
  intros Hc. unfold action_evidence, nonempty_output. rewrite bool_decide_true by done. cbn [negb].
  destruct (pa_output a) as [output|] eqn:Ho; cbn [ok_or]; [|by left].
  destruct (is_blank (ao_summary output)) eqn:Hb; [|done]. right. split; [done|]. by exists output.
Qed.
Lemma map_result_Err {E X Y} (f : X → result E Y) l e :
  map_result f l = Err e → ∃ i x, l !! i = Some x ∧ f x = Err e ∧ Forall (λ y, ∃ z, f y = Ok z) (take i l).
Proof.
  induction l as [|x l IH]; cbn; [done|]. destruct (f x) as [y|e'|] eqn:Hx; [|intros [= ->]; exists 0%nat, x; by split_and!|done].
  destruct (map_result f l) as [ys|e'|]; [done| |done]. intros [= ->]. destruct (IH eq_refl) as (i & z & ? & ? & ?).
  exists (S i), z. split_and!; [done|done|]. constructor; [by exists y|done].
Qed.

Lemma continue_spec s v k task plan authority msg s' v' r :
  fabric_inv s → continue_verified_assistant_plan k task plan authority msg (s, v) = ((s', v'), r) →
  fabric_inv s' ∧
  match r with
  | Ok run => run_shows plan s' k (Cognition.task_id task) msg run
  | Err e => run_failure s v s' v' k e
  | Panic => True
  end.
Proof.
  intros Hinv. unfold continue_verified_assistant_plan, op_lift, op_gets, op_err, op_ret.
  unfold op_bind at 1. unfold check_graph. destruct (TaskGraph_is_empty _ || _) eqn:Hg; [by intros [= <- <- <-]|].
  apply orb_false_iff in Hg as [Hne Hg]. apply negb_false_iff, bool_decide_eq_true in Hg.
  unfold op_bind at 1. cbn [fst]. destruct (get_plan s k) as [p|] eqn:Hp; cbn [ok_or]; [|by intros [= <- <- <-]].
  destruct (plan_matches p task plan) eqn:Hm; cbn [negb]; [|by intros [= <- <- <-]].
  destruct (plan_matches_spec _ _ _ Hm) as (Htask & Hlen & Hmatch).
  set (n := length (tg_actions (ap_graph plan))) in *.
  assert (n ≠ 0%nat) as Hn.
  { unfold n. rewrite <- Hg. unfold TaskGraph_is_empty in Hne. by destruct (tg_actions _). }
  match goal with |- context [op_bind ?m _ (s, v)] => destruct (m (s, v)) as [[s1 v1] r1] eqn:Hloop end.
  unfold op_bind at 1. rewrite Hloop.
  assert (fabric_inv s1 ∧ loop_leaves k p n [] s1 r1) as [Hinv1 (p1 & Hp1 & Hk1 & Hout)].
  { case_bool_decide as Hc; [|by eapply step_loop_spec].
    injection Hloop as <- <- <-. split; [done|]. exists p. split_and!; [done|apply kept_refl|cbn; lia|by left]. }
  destruct r1 as [reports|e|]; [|intros [= <- <- <-]; split; [done|]; destruct e; try done; by exists p1|by intros [= <- <- <-]].
  unfold op_bind at 1. cbn [fst]. rewrite Hp1. cbn [ok_or].
  destruct (get_plan_inv s1 k p1 Hinv1 Hp1) as ([Hc0 _ _] & Hwf & _).
  destruct (get_plan_inv s k p Hinv Hp) as ([Hpc0 _ _] & _ & _).
  destruct Hk1 as (Hkt & Hkl & Hkc). destruct Hout as [Hreps Hout].
  assert (pl_status p1 = PlanCompleted) as Hst.
  { destruct Hout as [?|[?|Hout]]; [done|done|]. unfold len in Hout. lia. }
  rewrite bool_decide_true by done. cbn [negb].
  destruct (pw_completed _ _ Hwf Hst) as [_ Hcom]. unfold op_bind at 1.
  unfold collect_verified_action_evidence. rewrite bool_decide_true by done. cbn [negb].
  rewrite bool_decide_false by (intros Hnil; rewrite Hnil in Hkl; cbn in Hkl; lia).
  destruct (map_result action_evidence (pl_actions p1)) as [evidence|e|] eqn:Hev; cbn [map_err].
  3: by intros [= <- <- <-].
  2: { intros [= <- <- <-]. split; [done|]. apply map_result_Err in Hev as (i & a & Ha & He & Hpre). exists p1, i, a.
       pose proof (Forall_lookup_1 _ _ _ _ Hcom Ha) as Hac. pose proof (action_evidence_committed a Hac) as Hs.
       rewrite He in Hs. by split_and!. }
  apply map_result_Ok in Hev. pose proof (Forall2_length _ _ _ Hev) as Hel.
  destruct (build_compact_verified_answer_prompt msg evidence) as [prompt|e|] eqn:Hprompt; cbn [map_err].
  3: by intros [= <- <- <-].
  2: { unfold build_compact_verified_answer_prompt in Hprompt. case_bool_decide as Hnil; [|done].
       rewrite Hnil in Hel. cbn in Hel. lia. }
  intros [= <- <- <-]. split; [done|]. exists p1. cbn [vr_plan_id vr_reports vr_evidence].
  split_and!; [done|done|congruence|done|unfold n in *; lia|unfold n in *; lia|unfold len; cbn in Hreps; unfold n in *; lia| |done].
  intros i node Hi. assert (is_Some (pl_actions p !! i)) as [a Ha].
  { apply lookup_lt_is_Some. apply lookup_lt_Some in Hi. unfold n in *. lia. }
  destruct (Hmatch i a node Ha Hi) as (Hid & Hcap & _ & _ & Hpay). destruct (Hkc i a Ha) as (a1 & Ha1 & Hsame).
  destruct Hsame as (_ & Hnode & Hcap1 & _ & _ & _ & Hact).
  destruct (Forall2_lookup_l _ _ _ _ _ Hev Ha1) as (ev & Hev1 & Hok).
  destruct (action_evidence_Ok _ _ Hok) as (output & ? & ? & ? & ->).
  exists a1. eexists. split_and!; [done|done|]. exists output. split_and!; [done|done|done| | |]; congruence.
Qed.

(** C33: From a fabric that satisfies its invariant, a verified run of a plan, which the
    fabric held no plan of before, ends with a completed plan of the task in the fabric,
    every action of the task committed with an output that is not blank, and the synthesis
    prompt is built from the evidence of exactly those outputs, in order. *)
Theorem verified_run_sound s v task plan authority msg s' v' run :
  fabric_inv s → execute_verified_assistant_plan task plan authority msg (s, v) = ((s', v'), Ok run) →
  fabric_inv s' ∧ get_plan s (vr_plan_id run) = None ∧
  run_shows plan s' (vr_plan_id run) (Cognition.task_id task) msg run.
Proof.
  intros Hinv. unfold execute_verified_assistant_plan, op_lift. unfold op_bind at 1.
  destruct (check_graph task plan) as [u|e|]; [|done..]. unfold op_bind at 1, fabric_op, on_fst. cbn [fst snd].
  destruct (prepare_cognitive_task task (ap_payloads plan) s) as [s1 r1] eqn:Hprep.
  destruct (prepare_plan_inv _ _ _ _ _ _ Hprep Hinv) as (Hinv1 & _ & _).
  destruct r1 as [k|e|]; cbn [map_err]; [|done..]. intros Hrun.
  destruct (continue_spec _ _ _ _ _ _ _ _ _ _ Hinv1 Hrun) as [Hinv' Hshows]. split; [done|].
  apply prepare_plan_Ok in Hprep as (_ & _ & _ & _ & -> & _).
  destruct Hshows as (p & Hp & Hst & Ht & Hk & Hrest). rewrite Hk. split; [|by exists p].
  destruct (get_plan s (fs_next_plan_id (fb_state s))) as [q|] eqn:Hq; [|done].
  destruct Hinv as [_ Hwf]. destruct (fw_plans _ _ Hwf _ _ Hq) as (_ & ? & _). lia.
Qed.

(** C34: Continuing a plan of a fabric that satisfies its invariant preserves it when it
    fails, and each error says what it means: a mismatch or a missing plan leaves the fabric
    and the verifier as they were, an incomplete run names the status of its plan, which is
    not completed, an evidence error is of the first committed action of a completed plan
    that has no output, or one with a blank summary, and names which, and the step limit is
    never the error. *)
Theorem continued_run_failures s v k task plan authority msg s' v' e :
  fabric_inv s → continue_verified_assistant_plan k task plan authority msg (s, v) = ((s', v'), Err e) →
  fabric_inv s' ∧ run_failure s v s' v' k e.
Proof. intros Hinv Hrun. exact (continue_spec _ _ _ _ _ _ _ _ _ _ Hinv Hrun). Qed.
End run.

(** ** Concrete runs *)
Definition sample_task : Cognition.CognitiveTask :=
  Cognition.mkTask 77 None (Intent_new "write") sample_graph Cognition.TaskRunning 0 0 None 0 0.
Definition sample_assistant_plan : AssistantActionPlan := mkActionPlan sample_graph sample_payloads "".
Definition willing_script : Script :=
  mkScript [Ok (ACompleted sample_output None); Ok (ACompleted sample_output None)] [] [].
Definition willing_fabric : ActionFabric Script := (register_adapter "file.write" willing_script fabric0).1.
Lemma willing_fabric_inv : fabric_inv willing_fabric.
Proof. exact (proj1 (register_adapter_inv _ _ _ _ _ (surjective_pairing _) (fabric_inv_new _))). Qed.

Definition willing_run : ActionFabric Script * list ActionVerification * result AssistantActionRunError VerifiedAssistantActionRun :=
  execute_verified_assistant_plan sample_task sample_assistant_plan sample_grant "hello" (willing_fabric, []).
Lemma verified_run_sound_witness :
  ∃ s' v' run, willing_run = ((s', v'), Ok run) ∧
    run_shows sample_assistant_plan s' (vr_plan_id run) 77 "hello" run ∧
    match willing_run.2 with Ok run => vr_synthesis_prompt run | _ => ""%string end =
      bytes_string (concat (map (λ l, string_bytes l ++ [newline])
        ["Verified:"; "5 file.write ok"; "9 file.write ok"; "User: hello"]%string) ++ string_bytes "Assistant:").
Proof.
  assert (is_ok willing_run.2 = true) as Hok by (vm_compute; reflexivity).
  assert (match willing_run.2 with Ok run => vr_synthesis_prompt run | _ => ""%string end =
      bytes_string (concat (map (λ l, string_bytes l ++ [newline])
        ["Verified:"; "5 file.write ok"; "9 file.write ok"; "User: hello"]%string) ++ string_bytes "Assistant:")) as Hprompt
    by (vm_compute; reflexivity).
  destruct willing_run as [[s' v'] [run|e|]] eqn:Hrun; [|discriminate Hok..].
  exists s', v', run. split; [reflexivity|]. split; [|exact Hprompt].
  exact (proj2 (proj2 (verified_run_sound willing_fabric [] sample_task sample_assistant_plan sample_grant "hello" s' v' run
    willing_fabric_inv Hrun))).
Defined.

(** The script of [fabric2] suspends its second action. *)
Lemma continued_run_failures_witness :
  ∃ s' v' p, continue_verified_assistant_plan 1 sample_task sample_assistant_plan sample_grant "hello" (fabric2, []) =
      ((s', v'), Err (Incomplete PlanSuspended (Some Suspended) "later")) ∧
    get_plan s' 1 = Some p ∧ pl_status p = PlanSuspended.
Proof.
  assert ((continue_verified_assistant_plan 1 sample_task sample_assistant_plan sample_grant "hello" (fabric2, [])).2 =
    Err (Incomplete PlanSuspended (Some Suspended) "later")) as Herr by (vm_compute; reflexivity).
  destruct (continue_verified_assistant_plan 1 sample_task sample_assistant_plan sample_grant "hello" (fabric2, []))
    as [[s' v'] r] eqn:Hrun. cbn [snd] in Herr. subst r.
  destruct (proj2 (continued_run_failures fabric2 [] 1 sample_task sample_assistant_plan sample_grant "hello" s' v' _
    fabric2_inv Hrun)) as (p & Hp & Hst & _).
  exists s', v', p. split; [reflexivity|]. split; [exact Hp|exact Hst].
Defined.
End AssistantActionsTheorems.
