(* ===== verification/Gguf.v ===== *)
(** The GGUF format of source models: src/crates/ntd-assimilation/src/gguf/mod.rs,
    reader.rs and the trait of storage.rs.

    A byte source is a class: the slice is an instance, a file is one the program
    reads through the same trait.  The cursor of the reader is its offset, threaded
    through the operations; [GgufError] keeps the static strings as strings. *)
From stdpp Require Import pretty.
From S2P Require Import Prelude Text Collections Effects Ir Float32 Tensor.

Module Gguf.
Import TensorOps.

Inductive GgufError :=
| Truncated | InvalidMagic | UnsupportedVersion (version : Z) | UnsupportedValueType (t : Z)
| UnsupportedTensorType (t : Z) | UnsupportedArchitecture (a : string) | UnsupportedModelFeature (f : string)
| MissingTensor (name : string) | InvalidModelConfig (key : string) | NativeLowering (reason : string)
| InvalidBool (b : Z) | InvalidUtf8 | Io (reason : string) | InvalidArrayType | InvalidAlignment
| InvalidTensorAlignment | InvalidTensor | InvalidTokenizer | DuplicateMetadata (key : string)
| DuplicateTensor (name : string) | MissingMetadata (key : string) | InvalidMetadataType (key : string)
| LimitExceeded | Overflow.
Notation gguf_result := (result GgufError).

Definition GGUF_MAGIC : bytes := string_bytes "GGUF".
Definition GGUF_VERSION : Z := 3.
Definition GGUF_DEFAULT_ALIGNMENT : Z := 32.

(** ** Values *)
Inductive GgufValueType :=
| TUint8 | TInt8 | TUint16 | TInt16 | TUint32 | TInt32 | TFloat32 | TBool | TString | TArray | TUint64 | TInt64 | TFloat64.
#[export] Instance GgufValueType_eq_dec : EqDecision GgufValueType.
Proof. solve_decision. Defined.
Definition GgufValueType_try_from (value : Z) : gguf_result GgufValueType :=
  match value with
  | 0 => Ok TUint8 | 1 => Ok TInt8 | 2 => Ok TUint16 | 3 => Ok TInt16 | 4 => Ok TUint32 | 5 => Ok TInt32
  | 6 => Ok TFloat32 | 7 => Ok TBool | 8 => Ok TString | 9 => Ok TArray | 10 => Ok TUint64 | 11 => Ok TInt64
  | 12 => Ok TFloat64
  | other => Err (UnsupportedValueType other)
  end.

(** An [f64] is kept as the bits it was read from. *)
Inductive GgufValue :=
| Uint8 (v : Z) | Int8 (v : Z) | Uint16 (v : Z) | Int16 (v : Z) | Uint32 (v : Z) | Int32 (v : Z)
| Float32 (v : f32) | Bool (v : bool) | String (v : string)
| Array (element_type : GgufValueType) (values : list GgufValue)
| Uint64 (v : Z) | Int64 (v : Z) | Float64 (bits : Z).

Definition as_string (self : GgufValue) : option string := match self with String v => Some v | _ => None end.
(** [u32::try_from] of a signed number *)
Definition unsigned_u32 (v : Z) : option Z := if v <? 0 then None else try_u32 v.
Definition as_u32 (self : GgufValue) : option Z :=
  match self with
  | Uint8 v | Uint16 v | Uint32 v => Some v
  | Uint64 v => try_u32 v
  | Int8 v | Int16 v | Int32 v | Int64 v => unsigned_u32 v
  | _ => None
  end.
Definition as_float32 (self : GgufValue) : option f32 := match self with Float32 v => Some v | _ => None end.
Definition as_int32 (self : GgufValue) : option Z := match self with Int32 v => Some v | _ => None end.
Definition as_bool (self : GgufValue) : option bool := match self with Bool v => Some v | _ => None end.
Definition as_array {X} (t : GgufValueType) (f : GgufValue → option X) (self : GgufValue) : option (list X) :=
  match self with
  | Array element_type values => if bool_decide (element_type = t) then mapM f values else None
  | _ => None
  end.
Definition as_string_array : GgufValue → option (list string) := as_array TString as_string.
Definition as_f32_array : GgufValue → option (list f32) := as_array TFloat32 as_float32.
Definition as_i32_array : GgufValue → option (list Z) := as_array TInt32 as_int32.

Record GgufTensorInfo := mkInfo {
  ti_name : string;
  ti_dimensions : list Z;
  ti_ggml_type : Z;
  ti_data_offset : Z;
}.
Record GgufTokenizer := mkTokenizer {
  tk_model : string;
  tk_tokens : list bytes;
  tk_scores : option (list f32);
  tk_token_types : option (list Z);
  tk_merges : list string;
  tk_pre_tokenizer : option string;
  tk_add_space_prefix : option bool;
  tk_remove_extra_whitespaces : option bool;
  tk_normalizer_lowercase : option bool;
  tk_normalizer_strip_accents : option bool;
  tk_has_precompiled_charsmap : bool;
  tk_add_bos_token : option bool;
  tk_add_eos_token : option bool;
  tk_bos_token : option Z;
  tk_eos_token : option Z;
  tk_unknown_token : option Z;
}.
Record GgufModel := mkModel {
  gm_version : Z;
  gm_alignment : Z;
  gm_metadata : gmap string GgufValue;
  gm_tensors : list GgufTensorInfo;
  gm_data_offset : Z;
  gm_file_len : Z;
}.

Record LlamaSpmPolicy := mkPolicy {
  lp_add_space_prefix : bool;
  lp_add_bos_token : bool;
  lp_add_eos_token : bool;
  lp_inherited_defaults : bool;
}.
Definition is_none {X} (o : option X) : bool := match o with None => true | Some _ => false end.
Definition resolved_llama_spm_policy (self : GgufTokenizer) : option LlamaSpmPolicy :=
  if negb (bool_decide (tk_model self = "llama"%string)) then None
  else Some (mkPolicy (default true (tk_add_space_prefix self)) (default true (tk_add_bos_token self))
               (default false (tk_add_eos_token self))
               (is_none (tk_add_space_prefix self) || is_none (tk_add_bos_token self) || is_none (tk_add_eos_token self))).

(** ** Metadata *)
Section model.
Context (metadata : gmap string GgufValue).

(** [.and_then(as_string).filter(|value| !value.trim().is_empty())] *)
Definition named (key : string) : option string :=
  match metadata !! key ≫= as_string with
  | Some value => if is_blank value then None else Some value
  | None => None
  end.
Definition architecture_of : gguf_result string := ok_or (named "general.architecture") (MissingMetadata "general.architecture").
(** [optional_u32], [optional_bool], [optional_f32_array] and [optional_i32_array]. *)
Definition optional {X} (f : GgufValue → option X) (key : string) : gguf_result (option X) :=
  match metadata !! key with
  | Some value => let? x := ok_or (f value) (InvalidMetadataType key) in Ok (Some x)
  | None => Ok None
  end.

Definition check_scores (tokens : list bytes) (scores : option (list f32)) : gguf_result unit :=
  match scores with
  | Some scores =>
      if negb (len scores =? len tokens) || existsb (λ s, negb (f32_is_finite s)) scores then Err InvalidTokenizer else Ok tt
  | None => Ok tt
  end.
Definition check_types (tokens : list bytes) (types : option (list Z)) : gguf_result unit :=
  match types with
  | Some types => if negb (len types =? len tokens) then Err InvalidTokenizer else Ok tt
  | None => Ok tt
  end.
Definition check_special (vocab : Z) (token : option Z) : gguf_result unit :=
  match token with Some token => if vocab <=? token then Err InvalidTokenizer else Ok tt | None => Ok tt end.

Definition tokenizer_of : gguf_result GgufTokenizer :=
  let? model := ok_or (named "tokenizer.ggml.model") (MissingMetadata "tokenizer.ggml.model") in
  let? tokens := ok_or (metadata !! "tokenizer.ggml.tokens"%string ≫= as_string_array) (MissingMetadata "tokenizer.ggml.tokens") in
  let tokens := map string_bytes tokens in
  if bool_decide (tokens = []) then Err InvalidTokenizer
  else
    let? scores := optional as_f32_array "tokenizer.ggml.scores" in
    let? _ := check_scores tokens scores in
    let? token_types := optional as_i32_array "tokenizer.ggml.token_type" in
    let? _ := check_types tokens token_types in
    let? merges := optional as_string_array "tokenizer.ggml.merges" in
    let merges := default [] merges in
    let? pre_tokenizer := optional as_string "tokenizer.ggml.pre" in
    let? add_space_prefix := optional as_bool "tokenizer.ggml.add_space_prefix" in
    let? remove_extra_whitespaces := optional as_bool "tokenizer.ggml.remove_extra_whitespaces" in
    let? normalizer_lowercase := optional as_bool "tokenizer.ggml.normalizer.lowercase" in
    let? normalizer_strip_accents := optional as_bool "tokenizer.ggml.normalizer.strip_accents" in
    let has_precompiled_charsmap := negb (is_none (metadata !! "tokenizer.ggml.precompiled_charsmap"%string)) in
    let? add_bos_token := optional as_bool "tokenizer.ggml.add_bos_token" in
    let? add_eos_token := optional as_bool "tokenizer.ggml.add_eos_token" in
    let? bos_token := optional as_u32 "tokenizer.ggml.bos_token_id" in
    let? eos_token := optional as_u32 "tokenizer.ggml.eos_token_id" in
    let? unknown_token := optional as_u32 "tokenizer.ggml.unknown_token_id" in
    let? vocab := ok_or (try_u32 (len tokens)) LimitExceeded in
    let? _ := check_all (check_special vocab) [bos_token; eos_token; unknown_token] in
    Ok (mkTokenizer model tokens scores token_types merges pre_tokenizer add_space_prefix remove_extra_whitespaces
          normalizer_lowercase normalizer_strip_accents has_precompiled_charsmap add_bos_token add_eos_token
          bos_token eos_token unknown_token).
End model.
Definition architecture (self : GgufModel) : gguf_result string := architecture_of (gm_metadata self).
Definition model_name (self : GgufModel) : option string := named (gm_metadata self) "general.name".
Definition tokenizer (self : GgufModel) : gguf_result GgufTokenizer := tokenizer_of (gm_metadata self).

(** ** Conversion plans *)
Definition llama_spm_blocker (tokenizer : GgufTokenizer) : option string :=
  if is_none (tk_scores tokenizer) || is_none (tk_token_types tokenizer) then
    Some "llama tokenizer metadata is missing scores/token types required for native SentencePiece BPE semantics"%string
  else if match tk_pre_tokenizer tokenizer with Some pre => negb (bool_decide (pre = "default"%string)) | None => false end then
    Some ("llama tokenizer pre-tokenizer '" +:+ default "" (tk_pre_tokenizer tokenizer) +:+
          "' is not supported by native SPM execution")
  else if bool_decide (tk_remove_extra_whitespaces tokenizer = Some true)
          || bool_decide (tk_normalizer_lowercase tokenizer = Some true)
          || bool_decide (tk_normalizer_strip_accents tokenizer = Some true)
          || tk_has_precompiled_charsmap tokenizer then
    Some "llama tokenizer requires normalization semantics not yet represented by the native SPM contract"%string
  else None.
Definition gpt2_bpe_blocker (tokenizer : GgufTokenizer) : option string :=
  if bool_decide (tk_merges tokenizer = []) then
    Some "gpt2 tokenizer metadata is missing merge ranks required for native BPE semantics"%string
  else
    match tk_pre_tokenizer tokenizer with
    | None => Some "gpt2 tokenizer is missing tokenizer.ggml.pre required to select native pre-tokenizer semantics"%string
    | Some pre =>
        if negb (bool_decide (pre = "gpt-2"%string)) then
          Some ("gpt2 pre-tokenizer '" +:+ pre +:+ "' is not the canonical GPT-2 regex supported by NTD97")
        else if is_none (tk_add_bos_token tokenizer) || is_none (tk_add_eos_token tokenizer) then
          Some "gpt2 tokenizer is missing explicit add-BOS/add-EOS policy metadata"%string
        else if bool_decide (tk_add_space_prefix tokenizer = Some true)
                || bool_decide (tk_remove_extra_whitespaces tokenizer = Some true)
                || bool_decide (tk_normalizer_lowercase tokenizer = Some true)
                || bool_decide (tk_normalizer_strip_accents tokenizer = Some true)
                || tk_has_precompiled_charsmap tokenizer then
          Some "gpt2 tokenizer requires normalization semantics outside canonical native GPT-2 BPE"%string
        else None
    end.

Inductive GgufTensorDisposition :=
| NativeF32 | NativeF16 | NativeBf16 | SupportedTranscode (t : Z) | Unsupported (t : Z).
Definition tensor_disposition (ggml_type : Z) : GgufTensorDisposition :=
  match ggml_type with
  | 0 => NativeF32
  | 1 => NativeF16
  | 30 => NativeBf16
  | 2 | 8 | 12 | 13 | 14 => SupportedTranscode ggml_type
  | other => Unsupported other
  end.
Definition is_native (d : GgufTensorDisposition) : bool :=
  match d with NativeF32 | NativeF16 | NativeBf16 => true | _ => false end.
Definition is_transcode (d : GgufTensorDisposition) : bool := match d with SupportedTranscode _ => true | _ => false end.
Definition unsupported_type (d : GgufTensorDisposition) : option Z := match d with Unsupported t => Some t | _ => None end.
Definition is_unsupported (d : GgufTensorDisposition) : bool := match d with Unsupported _ => true | _ => false end.

Record GgufConversionPlan := mkConversion {
  cp_architecture : string;
  cp_model_name : option string;
  cp_tokenizer_model : string;
  cp_vocabulary_size : Z;
  cp_tensor_count : Z;
  cp_direct_tensor_count : Z;
  cp_transcode_tensor_count : Z;
  cp_unsupported_tensor_count : Z;
  cp_alignment : Z;
  cp_blockers : list string;
}.
(** [.filter(..).count()] over the tensors. *)
Definition count_tensors (p : GgufTensorDisposition → bool) (tensors : list GgufTensorInfo) : Z :=
  len (List.filter (λ t, p (tensor_disposition (ti_ggml_type t))) tensors).
(** [{:?}] of a [BTreeSet<u32>]. *)
Definition debug_set (l : list Z) : string := "{" +:+ String.concat ", " (map pretty l) +:+ "}".
Definition unsupported_types (tensors : list GgufTensorInfo) : list Z :=
  dedup (sort (omap (λ t, unsupported_type (tensor_disposition (ti_ggml_type t))) tensors)).
Definition tokenizer_blocker (tokenizer : GgufTokenizer) : option string :=
  if bool_decide (tk_model tokenizer = "llama"%string) then llama_spm_blocker tokenizer
  else if bool_decide (tk_model tokenizer = "gpt2"%string) then gpt2_bpe_blocker tokenizer
  else Some ("tokenizer '" +:+ tk_model tokenizer +:+ "' has no canonical NTD97 tokenizer lowering yet").
Definition plan_blockers (architecture : string) (tokenizer : GgufTokenizer) (tensors : list GgufTensorInfo) : list string :=
  let unsupported_tensor_count := count_tensors is_unsupported tensors in
  (if negb (bool_decide (architecture = "llama"%string))
   then ["architecture '" +:+ architecture +:+ "' has no canonical NTD97 lowering yet"] else []) ++
  match tokenizer_blocker tokenizer with Some blocker => [blocker] | None => [] end ++
  (if 0 <? unsupported_tensor_count
   then [pretty unsupported_tensor_count +:+ " tensors use unsupported GGML types " +:+ debug_set (unsupported_types tensors)]
   else []) ++
  ["representative real-model source-vs-NIR97 semantic equivalence is required before activation"%string].
Definition GgufConversionPlan_from_model (model : GgufModel) : gguf_result GgufConversionPlan :=
  let? tokenizer := tokenizer model in
  let? architecture := architecture model in
  Ok (mkConversion architecture (model_name model) (tk_model tokenizer) (len (tk_tokens tokenizer))
        (len (gm_tensors model)) (count_tensors is_native (gm_tensors model)) (count_tensors is_transcode (gm_tensors model))
        (count_tensors is_unsupported (gm_tensors model)) (gm_alignment model)
        (plan_blockers architecture tokenizer (gm_tensors model))).
Definition activation_ready (self : GgufConversionPlan) : bool := bool_decide (cp_blockers self = []).

(** ** Sources *)
Class GgufByteSource (S : Type) := {
  byte_len : S → gguf_result Z;
  read_exact_at : S → Z → Z → gguf_result bytes;
}.
Definition slice_byte_len (self : bytes) : gguf_result Z := ok_or (try_u64 (len self)) LimitExceeded.
Definition slice_read_exact_at (self : bytes) (offset n : Z) : gguf_result bytes :=
  let? start := ok_or (try_usize offset) LimitExceeded in
  let? stop := ok_or (checked_add_usize start n) Overflow in
  ok_or (get_range self start stop) Truncated.
#[export] Instance SliceGgufSource : GgufByteSource bytes := {|
  byte_len := slice_byte_len;
  read_exact_at := slice_read_exact_at;
|}.

(** ** The reader *)
Definition MAX_METADATA_ENTRIES : Z := 100000.
Definition MAX_TENSORS : Z := 1000000.
Definition MAX_ARRAY_ELEMENTS : Z := 16000000.
Definition MAX_STRING_BYTES : Z := 64 * 1024 * 1024.
Definition MAX_DIMS : Z := 4.

Section reader.
Context {S : Type} `{GgufByteSource S} (source : S).
(** The cursor is its offset. *)
Notation reader := (op Z GgufError).

Definition cursor_take (n : Z) : reader bytes := λ offset,
  match (let? bs := read_exact_at source offset n in
         let? offset := ok_or (checked_add_u64 offset n) Overflow in Ok (bs, offset)) with
  | Ok (bs, offset') => (offset', Ok bs)
  | Err e => (offset, Err e)
  | Panic => (offset, Panic)
  end.
(** [uN::from_le_bytes] of the next bytes: each is read by its index. *)
Definition cursor_le (n : nat) : reader Z :=
  do! bs := cursor_take (Z.of_nat n) in
  do! bs := op_lift (map_result (at_index bs) (map Z.of_nat (seq 0 n))) in
  op_ret (from_le bs).
Definition cursor_u8 : reader Z := cursor_le 1.
Definition cursor_u32 : reader Z := cursor_le 4.
Definition cursor_u64 : reader Z := cursor_le 8.
Definition cursor_signed (n : nat) : reader Z :=
  do! v := cursor_le n in op_ret (signed_of (8 * Z.of_nat n) v).
Definition cursor_string : reader string :=
  do! n := cursor_u64 in
  if MAX_STRING_BYTES <? n then op_err LimitExceeded
  else
    do! n := op_lift (ok_or (try_usize n) LimitExceeded) in
    do! bs := cursor_take n in
    op_lift (ok_or (from_utf8 bs) InvalidUtf8).

(** [for _ in 0..count { values.push(f()?) }] *)
Fixpoint read_list {X} (f : reader X) (count : nat) : reader (list X) :=
  match count with
  | O => op_ret []
  | Datatypes.S count => do! x := f in do! xs := read_list f count in op_ret (x :: xs)
  end.

Definition read_bool : reader GgufValue :=
  do! b := cursor_u8 in
  match b with 0 => op_ret (Bool false) | 1 => op_ret (Bool true) | other => op_err (InvalidBool other) end.
(** [parse_value] but for arrays; an array holds no arrays. *)
Definition parse_scalar (value_type : GgufValueType) : reader GgufValue :=
  match value_type with
  | TUint8 => do! v := cursor_u8 in op_ret (Uint8 v)
  | TInt8 => do! v := cursor_signed 1 in op_ret (Int8 v)
  | TUint16 => do! v := cursor_le 2 in op_ret (Uint16 v)
  | TInt16 => do! v := cursor_signed 2 in op_ret (Int16 v)
  | TUint32 => do! v := cursor_u32 in op_ret (Uint32 v)
  | TInt32 => do! v := cursor_signed 4 in op_ret (Int32 v)
  | TFloat32 => do! v := cursor_u32 in op_ret (Float32 (f32_from_bits v))
  | TBool => read_bool
  | TString => do! v := cursor_string in op_ret (String v)
  | TArray => op_err InvalidArrayType
  | TUint64 => do! v := cursor_u64 in op_ret (Uint64 v)
  | TInt64 => do! v := cursor_signed 8 in op_ret (Int64 v)
  | TFloat64 => do! v := cursor_u64 in op_ret (Float64 v)
  end.
Definition parse_value (value_type : GgufValueType) : reader GgufValue :=
  match value_type with
  | TArray =>
      do! t := cursor_u32 in
      do! element_type := op_lift (GgufValueType_try_from t) in
      if bool_decide (element_type = TArray) then op_err InvalidArrayType
      else
        do! count := cursor_u64 in
        if MAX_ARRAY_ELEMENTS <? count then op_err LimitExceeded
        else
          do! count := op_lift (ok_or (try_usize count) LimitExceeded) in
          do! values := read_list (parse_scalar element_type) (Z.to_nat count) in
          op_ret (Array element_type values)
  | t => parse_scalar t
  end.

Definition is_power_of_two (n : Z) : bool := negb (n =? 0) && (Z.land n (n - 1) =? 0).
Definition align_up (value alignment : Z) : gguf_result Z :=
  if (alignment =? 0) || negb (is_power_of_two alignment) then Err InvalidAlignment
  else
    let? aligned := ok_or (checked_add_u64 value (alignment - 1)) Overflow in
    Ok (Z.ldiff aligned (alignment - 1)).

Fixpoint read_metadata (count : nat) (metadata : gmap string GgufValue) : reader (gmap string GgufValue) :=
  match count with
  | O => op_ret metadata
  | Datatypes.S count =>
      do! key := cursor_string in
      if string_is_empty key || negb (is_none (metadata !! key)) then op_err (DuplicateMetadata key)
      else
        do! t := cursor_u32 in
        do! value_type := op_lift (GgufValueType_try_from t) in
        do! value := parse_value value_type in
        read_metadata count (<[key := value]> metadata)
  end.

Definition read_dimension : reader Z :=
  do! dimension := cursor_u64 in
  if dimension =? 0 then op_err InvalidTensor else op_ret dimension.
Definition read_tensor (alignment : Z) (names : gset string) : reader GgufTensorInfo :=
  do! name := cursor_string in
  if string_is_empty name || bool_decide (name ∈ names) then op_err (DuplicateTensor name)
  else
    do! dims := cursor_u32 in
    if (dims =? 0) || (MAX_DIMS <? dims) then op_err InvalidTensor
    else
      do! dimensions := read_list read_dimension (Z.to_nat dims) in
      do! ggml_type := cursor_u32 in
      do! data_offset := cursor_u64 in
      if negb (data_offset mod alignment =? 0) then op_err InvalidTensorAlignment
      else op_ret (mkInfo name dimensions ggml_type data_offset).
Fixpoint read_tensors (alignment : Z) (count : nat) (names : gset string) (tensors : list GgufTensorInfo)
  : reader (list GgufTensorInfo) :=
  match count with
  | O => op_ret tensors
  | Datatypes.S count =>
      do! tensor := read_tensor alignment names in
      read_tensors alignment count ({[ti_name tensor]} ∪ names) (tensors ++ [tensor])
  end.
Definition check_offset (data_offset file_len : Z) (tensor : GgufTensorInfo) : gguf_result unit :=
  let? absolute := ok_or (checked_add_u64 data_offset (ti_data_offset tensor)) Overflow in
  if file_len <? absolute then Err Truncated else Ok tt.

Definition read_model : reader GgufModel :=
  do! magic := cursor_take 4 in
  if negb (bool_decide (magic = GGUF_MAGIC)) then op_err InvalidMagic
  else
    do! version := cursor_u32 in
    if negb (version =? GGUF_VERSION) then op_err (UnsupportedVersion version)
    else
      do! tensor_count := cursor_u64 in
      do! metadata_count := cursor_u64 in
      if (MAX_TENSORS <? tensor_count) || (MAX_METADATA_ENTRIES <? metadata_count) then op_err LimitExceeded
      else
        do! metadata := read_metadata (Z.to_nat metadata_count) ∅ in
        do! alignment := op_lift
          match metadata !! "general.alignment"%string with
          | Some value => ok_or (as_u32 value) InvalidAlignment
          | None => Ok GGUF_DEFAULT_ALIGNMENT
          end in
        if (alignment =? 0) || negb (is_power_of_two alignment) then op_err InvalidAlignment
        else
          do! tensors := read_tensors alignment (Z.to_nat tensor_count) ∅ [] in
          do! data_offset := (λ offset, (offset, align_up offset alignment)) in
          do! file_len := op_lift (byte_len source) in
          if file_len <? data_offset then op_err Truncated
          else
            do! _ := op_lift (check_all (check_offset data_offset file_len) tensors) in
            let model := mkModel version alignment metadata tensors data_offset file_len in
            do! _ := op_lift (architecture model) in
            do! _ := op_lift (tokenizer model) in
            op_ret model.
Definition parse_gguf_source : gguf_result GgufModel := (read_model 0).2.
End reader.
Definition parse_gguf (bs : bytes) : gguf_result GgufModel := parse_gguf_source bs.
End Gguf.
