(* ===== verification/GgufTheorems.v ===== *)
(** The GGUF reader: it does not panic, and what it accepts is well formed. *)
From S2P Require Import Prelude Text Collections Effects Ir Float32 Tensor Gguf.

Module GgufTheorems.
Import TensorOps Gguf.

(** What the reader needs of a source: a read gives the bytes asked for. *)
Class ExactSource (S : Type) `{GgufByteSource S} := {
  exact_len : ∀ source offset n bs, 0 ≤ n → read_exact_at (S:=S) source offset n = Ok bs → len bs = n;
  exact_no_panic : ∀ source offset n, no_panic (read_exact_at (S:=S) source offset n);
  byte_len_no_panic : ∀ source, no_panic (byte_len (S:=S) source);
}.
#[export] Instance slice_exact : ExactSource bytes.
Proof.
  split.
  - intros source offset n bs Hn. cbn. unfold slice_read_exact_at, try_usize, try_u64, checked_add_usize, checked_add_u64.
    destruct (offset <? 2 ^ 64); cbn [ok_or]; [|done]. destruct (offset + n <? 2 ^ 64); cbn [ok_or]; [|done].
    destruct (get_range _ _ _) as [r|] eqn:Hr; cbn [ok_or]; [|done]. intros [= <-]. apply get_range_len in Hr. lia.
  - intros source offset n. cbn. unfold slice_read_exact_at.
    repeat (apply bind_no_panic; [apply ok_or_no_panic|intros ? _]). apply ok_or_no_panic.
  - intros source. apply ok_or_no_panic.
Qed.

(** ** The reader does not panic *)
Definition calm {X} (m : op Z GgufError X) : Prop := ∀ offset, no_panic (m offset).2.

Lemma calm_ret {X} (x : X) : calm (op_ret x).
Proof. done. Qed.
Lemma calm_err {X} e : calm (op_err (A:=X) e).
Proof. done. Qed.
Lemma calm_lift {X} (r : gguf_result X) : no_panic r → calm (op_lift r).
Proof. by intros Hr offset. Qed.
Lemma calm_bind {X Y} (m : op Z GgufError X) (k : X → op Z GgufError Y) :
  calm m → (∀ x, calm (k x)) → calm (op_bind m k).
Proof.
  intros Hm Hk offset. unfold op_bind. specialize (Hm offset). destruct (m offset) as [offset' [x|e|]]; [apply Hk|done|done].
Qed.
Lemma calm_if {X} (b : bool) (m1 m2 : op Z GgufError X) : calm m1 → calm m2 → calm (if b then m1 else m2).
Proof. by destruct b. Qed.
Create HintDb calm.
#[local] Hint Resolve calm_ret calm_err calm_lift calm_if ok_or_no_panic : calm.
#[local] Hint Extern 1 (calm (op_bind _ _)) => apply calm_bind; [|intros ?] : calm.

Section calm.
Context {S : Type} `{ExactSource S} (source : S).

Lemma calm_take n : calm (cursor_take source n).
Proof.
  intros offset. unfold cursor_take. pose proof (exact_no_panic source offset n).
  destruct (read_exact_at source offset n); [|done|done]. by destruct (checked_add_u64 offset n).
Qed.
Lemma calm_le n : calm (cursor_le source n).
Proof.
  intros offset. unfold cursor_le, op_bind, cursor_take. pose proof (exact_no_panic source offset (Z.of_nat n)).
  destruct (read_exact_at source offset (Z.of_nat n)) as [bs|e|] eqn:Hr; [|done|done].
  destruct (checked_add_u64 _ _); cbn [ok_or]; [|done].
  apply exact_len in Hr; [|lia]. unfold op_lift. destruct (map_result _ _) eqn:Hm; [done..|]. exfalso. revert Hm.
  apply map_result_no_panic. intros i Hi.
  apply list_elem_of_fmap in Hi as (j & -> & [_ Hj]%elem_of_seq). unfold at_index. rewrite Nat2Z.id.
  destruct (lookup_lt_is_Some_2 bs j) as [b ->]; [unfold len in Hr; lia|done].
Qed.
#[local] Hint Resolve calm_take calm_le : calm.
Lemma calm_string : calm (cursor_string source).
Proof. unfold cursor_string, cursor_u64. auto 10 with calm. Qed.
#[local] Hint Resolve calm_string : calm.
Lemma calm_list {X} (f : op Z GgufError X) count : calm f → calm (read_list f count).
Proof. intros Hf. induction count; cbn [read_list]; auto 10 with calm. Qed.
Lemma calm_scalar t : calm (parse_scalar source t).
Proof.
  destruct t; unfold parse_scalar, cursor_u8, cursor_u32, cursor_u64, cursor_signed; auto 10 with calm.
  unfold read_bool, cursor_u8. apply calm_bind; [auto with calm|]. intros b. destruct b as [|p|p]; [done|by destruct p|done].
Qed.
#[local] Hint Resolve calm_list calm_scalar : calm.
Lemma value_type_no_panic t : no_panic (GgufValueType_try_from t).
Proof. unfold GgufValueType_try_from. destruct t as [|p|p]; [done| |done]. do 4 (destruct p as [p|p|]; try done). Qed.
#[local] Hint Resolve value_type_no_panic : calm.
Lemma calm_value t : calm (parse_value source t).
Proof. unfold parse_value, cursor_u32, cursor_u64. destruct t; auto 12 with calm. Qed.
#[local] Hint Resolve calm_value : calm.
Lemma calm_metadata count m : calm (read_metadata source count m).
Proof. revert m. induction count as [|count IH]; intros m; cbn [read_metadata]; unfold cursor_u32; auto 12 with calm. Qed.
Lemma calm_tensor alignment names : calm (read_tensor source alignment names).
Proof.
  unfold read_tensor, cursor_u32, cursor_u64.
  assert (calm (read_dimension source)) by (unfold read_dimension, cursor_u64; auto 10 with calm). auto 20 with calm.
Qed.
#[local] Hint Resolve calm_metadata calm_tensor : calm.
Lemma calm_tensors alignment count names tensors : calm (read_tensors source alignment count names tensors).
Proof. revert names tensors. induction count as [|count IH]; intros names tensors; cbn [read_tensors]; auto 12 with calm. Qed.
End calm.
#[local] Hint Resolve calm_take calm_le calm_metadata calm_tensors : calm.

Lemma optional_no_panic m {X} (f : GgufValue → option X) key : no_panic (optional m f key).
Proof. unfold optional. destruct (m !! key); [|done]. by destruct (f g). Qed.
Lemma architecture_no_panic m : no_panic (architecture_of m).
Proof. apply ok_or_no_panic. Qed.
Lemma tokenizer_no_panic m : no_panic (tokenizer_of m).
Proof.
  unfold tokenizer_of. do 2 (apply bind_no_panic; [apply ok_or_no_panic|intros ? _]). case_bool_decide; [done|].
  apply bind_no_panic; [apply optional_no_panic|intros scores _].
  apply bind_no_panic; [unfold check_scores; destruct scores; [by destruct (_ || _)|done]|intros ? _].
  apply bind_no_panic; [apply optional_no_panic|intros types _].
  apply bind_no_panic; [unfold check_types; destruct types; [by destruct (negb _)|done]|intros ? _].
  do 11 (apply bind_no_panic; [apply optional_no_panic|intros ? _]).
  apply bind_no_panic; [apply ok_or_no_panic|intros vocab _].
  apply bind_no_panic; [|done]. apply check_all_no_panic. intros [token|] _; [|done].
  unfold check_special. by destruct (vocab <=? token).
Qed.

(** ** What the reader accepts *)
Lemma op_bind_Ok {St E X Y} (m : op St E X) (k : X → op St E Y) s s' y :
  op_bind m k s = (s', Ok y) ↔ ∃ s1 x, m s = (s1, Ok x) ∧ k x s1 = (s', Ok y).
Proof.
  unfold op_bind. destruct (m s) as [s1 [x|e|]]; split; try done; try (by intros (? & ? & [=] & _)).
  - intros Hk. by exists s1, x.
  - by intros (? & ? & [= <- <-] & Hk).
Qed.
#[local] Ltac step H := apply op_bind_Ok in H as (? & ? & ? & H).
#[local] Ltac test H := match type of H with (if ?b then _ else _) _ = _ => destruct b eqn:?; [done|] end.

Lemma power_of_two_spec n : is_power_of_two n = true → 0 < n ∧ n = 2 ^ Z.log2 n.
Proof.
  unfold is_power_of_two. rewrite andb_true_iff, negb_true_iff, Z.eqb_neq, Z.eqb_eq. intros [Hn Hland].
  assert (0 < n) as H0.
  { destruct (Z.lt_trichotomy n 0) as [Hneg|[?|?]]; [|done|done].
    assert (Z.land n (n - 1) < 0) by (apply Z.land_neg; lia). lia. }
  split; [done|]. destruct (Z.log2_spec n H0) as [Hlo Hhi].
  destruct (decide (n = 2 ^ Z.log2 n)) as [|Hne]; [done|]. exfalso.
  assert (Z.testbit n (Z.log2 n) = true) as Hb by by apply Z.bit_log2.
  assert (Z.log2 (n - 1) = Z.log2 n) as Hl by (apply Z.log2_unique; [apply Z.log2_nonneg|lia]).
  assert (Z.testbit (n - 1) (Z.log2 n) = true) as Hb' by (rewrite <- Hl; apply Z.bit_log2; pose proof (Z.pow_pos_nonneg 2 (Z.log2 n) ltac:(lia) (Z.log2_nonneg n)); lia).
  assert (Z.testbit (Z.land n (n - 1)) (Z.log2 n) = true) as Hb'' by (rewrite Z.land_spec, Hb; done).
  by rewrite Hland, Z.bits_0 in Hb''.
Qed.
Lemma align_up_spec v alignment r :
  align_up v alignment = Ok r → r mod alignment = 0 ∧ v ≤ r < v + alignment.
Proof.
  unfold align_up. destruct (_ || _) eqn:Hp; [done|].
  apply orb_false_iff in Hp as [Hz%Z.eqb_neq Hp%negb_false_iff]. apply power_of_two_spec in Hp as [Hpos Hp].
  unfold checked_add_u64. destruct (v + (alignment - 1) <? 2 ^ 64); cbn [ok_or]; [|done]. intros [= <-].
  pose proof (Z.log2_nonneg alignment) as Hk. revert Hp Hk. generalize (Z.log2 alignment) as k. intros k -> Hk.
  replace (2 ^ k - 1) with (Z.ones k) by (rewrite Z.ones_equiv; lia).
  rewrite Z.ldiff_ones_r, Z.shiftl_mul_pow2, Z.shiftr_div_pow2, Z.ones_equiv by done.
  split; [by apply Z.mod_mul; lia|].
  pose proof (Z.div_mod (v + Z.pred (2 ^ k)) (2 ^ k) ltac:(lia)).
  pose proof (Z.mod_pos_bound (v + Z.pred (2 ^ k)) (2 ^ k) Hpos). lia.
Qed.

(** A tokenizer the metadata describes: the tables have the vocabulary's length
    and the special tokens are of the vocabulary. *)
Record tokenizer_sound (t : GgufTokenizer) : Prop := {
  ts_model : is_blank (tk_model t) = false;
  ts_tokens : tk_tokens t ≠ [];
  ts_scores : ∀ scores, tk_scores t = Some scores →
    length scores = length (tk_tokens t) ∧ Forall (λ s, f32_is_finite s = true) scores;
  ts_types : ∀ types, tk_token_types t = Some types → length types = length (tk_tokens t);
  ts_special : ∀ token, Some token ∈ [tk_bos_token t; tk_eos_token t; tk_unknown_token t] → token < len (tk_tokens t);
}.
#[local] Ltac cut H x :=
  match type of H with
  | (match ?m with Ok _ => _ | Err _ => _ | Panic => _ end) = Ok _ => destruct m as [x| |] eqn:?; [|done|done]
  end.

Lemma named_spec m key v : named m key = Some v → is_blank v = false.
Proof. unfold named. destruct (_ ≫= _) as [w|]; [|done]. destruct (is_blank w) eqn:Hw; [done|]. by intros [= <-]. Qed.
Lemma gguf_scores_Ok tokens scores :
  check_scores tokens (Some scores) = Ok tt → length scores = length tokens ∧ Forall (λ s, f32_is_finite s = true) scores.
Proof.
  unfold check_scores. destruct (_ || _) eqn:Hb; [done|]. intros _.
  apply orb_false_iff in Hb as [Hl%negb_false_iff%Z.eqb_eq He]. split; [unfold len in Hl; lia|].
  apply Forall_forall. intros s Hs. destruct (f32_is_finite s) eqn:Hf; [done|]. exfalso.
  apply (not_true_iff_false (existsb _ scores)) in He. apply He.
  apply existsb_exists. exists s. split; [by apply list_elem_of_In|]. by rewrite Hf.
Qed.
Lemma tokenizer_of_Ok m t : tokenizer_of m = Ok t → tokenizer_sound t.
Proof.
  unfold tokenizer_of. intros H. cut H model. cut H tokens. case_bool_decide as Hne; [done|].
  cut H scores. cut H u1. cut H types. cut H u2. do 11 (let x := fresh "x" in cut H x). cut H vocab. cut H u3.
  injection H as <-. destruct u1, u2, u3. split; cbn.
  - match goal with Hm : ok_or (named _ _) _ = Ok model |- _ => apply ok_or_Ok in Hm; by eapply named_spec end.
  - done.
  - intros s ->. by apply gguf_scores_Ok.
  - intros s ->. unfold check_types in *. destruct (len s =? len _) eqn:Hl in *; [|done]. apply Z.eqb_eq in Hl. unfold len in Hl. lia.
  - intros token Hin.
    match goal with Hv : ok_or (try_u32 _) _ = Ok vocab, Hc : check_all _ _ = Ok tt |- _ =>
      apply ok_or_Ok in Hv; apply check_all_Ok in Hc; rewrite Forall_forall in Hc; specialize (Hc _ Hin) end.
    unfold try_u32 in *. destruct (_ <? 2 ^ 32) in *; [|done]. simplify_eq.
    unfold check_special in *. destruct (_ <=? token) eqn:Hle in *; [done|]. apply Z.leb_gt in Hle. done.
Qed.

Record info_ok (alignment : Z) (t : GgufTensorInfo) : Prop := {
  io_name : ti_name t ≠ EmptyString;
  io_dims : 1 ≤ len (ti_dimensions t) ≤ MAX_DIMS;
  io_positive : Forall (λ d, 0 < d) (ti_dimensions t);
  io_aligned : ti_data_offset t mod alignment = 0;
}.

Section accepts.
Context {S : Type} `{ExactSource S} (source : S).

Lemma read_list_Ok {X} (P : X → Prop) (f : op Z GgufError X) count offset offset' xs :
  (∀ o o' x, f o = (o', Ok x) → P x) → read_list f count offset = (offset', Ok xs) →
  length xs = count ∧ Forall P xs.
Proof.
  intros Hf. revert offset xs. induction count as [|count IH]; intros offset xs; cbn [read_list].
  { intros [= <- <-]. split; constructor. }
  intros Hrun. step Hrun. step Hrun. injection Hrun as <- <-. destruct (IH _ _ H2) as [<- Hall].
  split; [done|]. constructor; [by eapply Hf|done].
Qed.
Lemma cursor_le_nonneg n offset offset' v : cursor_le source n offset = (offset', Ok v) → 0 ≤ v.
Proof. unfold cursor_le. intros Hrun. do 2 step Hrun. injection Hrun as _ <-. by apply from_le_bound. Qed.
Lemma read_tensor_Ok alignment names offset offset' t :
  read_tensor source alignment names offset = (offset', Ok t) → ti_name t ∉ names ∧ info_ok alignment t.
Proof.
  unfold read_tensor. intros Hrun. step Hrun. test Hrun. apply orb_false_iff in Heqb as [Hne Hnin].
  apply string_is_empty_false in Hne. apply bool_decide_eq_false in Hnin.
  step Hrun. test Hrun. apply orb_false_iff in Heqb as [Hd0%Z.eqb_neq Hd4%Z.ltb_ge].
  step Hrun. step Hrun. step Hrun. test Hrun. apply negb_false_iff, Z.eqb_eq in Heqb. injection Hrun as <- <-.
  apply (read_list_Ok (λ d, 0 < d)) in H3 as [Hl Hall].
  2: { intros o o' d Hd. unfold read_dimension in Hd. step Hd. test Hd. injection Hd as _ <-.
       match goal with Hc : cursor_u64 _ _ = _ |- _ => apply cursor_le_nonneg in Hc end. lia. }
  split; [done|]. split; [done| |done|done]. cbn. unfold len. rewrite Hl.
  apply cursor_le_nonneg in H2. lia.
Qed.
Lemma read_tensors_Ok alignment count names tensors offset offset' ts :
  (∀ n, n ∈ map ti_name tensors → n ∈ names) → NoDup (map ti_name tensors) → Forall (info_ok alignment) tensors →
  read_tensors source alignment count names tensors offset = (offset', Ok ts) →
  NoDup (map ti_name ts) ∧ Forall (info_ok alignment) ts ∧ length ts = (length tensors + count)%nat.
Proof.
  revert names tensors offset. induction count as [|count IH]; intros names tensors offset Hnames Hnd Hall; cbn [read_tensors].
  { intros [= <- <-]. split_and!; [done|done|lia]. }
  intros Hrun. step Hrun. destruct (read_tensor_Ok _ _ _ _ _ H1) as [Hnin Hok].
  apply IH in Hrun as (Hnd' & Hall' & Hl).
  - split_and!; [done|done|]. rewrite length_app in Hl. cbn in Hl. lia.
  - intros n. rewrite map_app. cbn. intros [Hn| ->%list_elem_of_singleton]%elem_of_app; [apply Hnames in Hn|]; set_solver.
  - rewrite map_app. cbn. apply NoDup_snoc. split; [by intros Hin%Hnames|done].
  - apply Forall_app. split; [done|]. by constructor.
Qed.

(** A model the reader gives. *)
Record model_sound (m : GgufModel) : Prop := {
  ms_version : gm_version m = GGUF_VERSION;
  ms_alignment : 0 < gm_alignment m ∧ gm_alignment m = 2 ^ Z.log2 (gm_alignment m);
  ms_stated : match gm_metadata m !! "general.alignment"%string with
              | Some value => as_u32 value = Some (gm_alignment m)
              | None => gm_alignment m = GGUF_DEFAULT_ALIGNMENT
              end;
  ms_names : NoDup (map ti_name (gm_tensors m));
  ms_tensors : Forall (info_ok (gm_alignment m)) (gm_tensors m);
  ms_data : gm_data_offset m mod gm_alignment m = 0;
  ms_len : byte_len source = Ok (gm_file_len m);
  ms_inside : Forall (λ t, gm_data_offset m + ti_data_offset t ≤ gm_file_len m) (gm_tensors m) ∧ gm_data_offset m ≤ gm_file_len m;
  ms_architecture : ∃ a, architecture m = Ok a ∧ is_blank a = false;
  ms_tokenizer : ∃ t, tokenizer m = Ok t ∧ tokenizer_sound t;
}.
Lemma check_offset_Ok data_offset file_len t :
  check_offset data_offset file_len t = Ok tt → data_offset + ti_data_offset t ≤ file_len.
Proof.
  unfold check_offset, checked_add_u64. destruct (_ <? 2 ^ 64); cbn [ok_or]; [|done].
  destruct (_ <? _) eqn:Hl; [done|]. intros _. by apply Z.ltb_ge in Hl.
Qed.
Lemma read_model_Ok offset m : read_model source 0 = (offset, Ok m) → model_sound m.
Proof.
  unfold read_model. intros Hrun. step Hrun. test Hrun. step Hrun. test Hrun.
  apply negb_false_iff, Z.eqb_eq in Heqb0. do 2 step Hrun. test Hrun. step Hrun. step Hrun. test Hrun.
  do 3 step Hrun. test Hrun. do 3 step Hrun. injection Hrun as _ <-.
  apply orb_false_iff in Heqb2 as [_ Hpow%negb_false_iff%power_of_two_spec].
  injection H6 as _ Ha. injection H8 as _ Hdata%align_up_spec. injection H9 as _ Hlen. destruct x18. injection H10 as _ Hin%check_all_Ok.
  injection H11 as _ Harch. injection H12 as _ Htok.
  apply read_tensors_Ok in H7 as (Hnd & Hall & _); [|by intros n Hn; apply not_elem_of_nil in Hn|constructor|constructor].
  split; cbn [gm_version gm_alignment gm_metadata gm_tensors gm_data_offset gm_file_len]; [done|done| |done|done|by apply Hdata|done| | |].
  - destruct (x8 !! _); [by apply ok_or_Ok in Ha|by injection Ha as ->].
  - split; [|by apply Z.ltb_ge]. eapply Forall_impl; [exact Hin|]. intros t. apply check_offset_Ok.
  - exists x20. split; [done|]. apply ok_or_Ok in Harch. by eapply named_spec.
  - exists x22. split; [done|]. by eapply tokenizer_of_Ok.
Qed.
Lemma calm_model : calm (read_model source).
Proof.
  unfold read_model, cursor_u32, cursor_u64. pose proof (byte_len_no_panic source).
  assert (∀ m, no_panic (architecture m)) by (intros; apply architecture_no_panic).
  assert (∀ m, no_panic (tokenizer m)) by (intros; apply tokenizer_no_panic).
  assert (∀ d l ts, no_panic (check_all (check_offset d l) ts)).
  { intros d l ts. apply check_all_no_panic. intros t _. unfold check_offset. repeat np_step. }
  assert (∀ alignment, calm (λ offset, (offset, align_up offset alignment))).
  { intros alignment offset. cbn. unfold align_up. repeat np_step. }
  assert (∀ m : gmap string GgufValue, no_panic match m !! "general.alignment"%string with
    | Some value => ok_or (as_u32 value) InvalidAlignment | None => Ok GGUF_DEFAULT_ALIGNMENT end).
  { intros m. repeat np_step. }
  auto 30 with calm.
Qed.
End accepts.

(** ** Conversion plans *)
Lemma count_tensors_total tensors :
  count_tensors is_native tensors + count_tensors is_transcode tensors + count_tensors is_unsupported tensors = len tensors.
Proof.
  unfold count_tensors, len. induction tensors as [|t tensors IH]; [done|]. cbn [List.filter].
  destruct (tensor_disposition (ti_ggml_type t)); cbn [is_native is_transcode is_unsupported length]; lia.
Qed.
Lemma no_unsupported tensors :
  count_tensors is_unsupported tensors = 0 ↔
  Forall (λ t, is_native (tensor_disposition (ti_ggml_type t)) || is_transcode (tensor_disposition (ti_ggml_type t)) = true) tensors.
Proof.
  unfold count_tensors, len. induction tensors as [|t tensors IH]; [by split|]. cbn [List.filter]. rewrite Forall_cons, <- IH.
  destruct (tensor_disposition (ti_ggml_type t)); cbn [is_native is_transcode is_unsupported length orb];
    (split; [intros; by (split; [done|lia]) || lia|intros []; done || lia]).
Qed.
Lemma plan_blockers_open a t tensors :
  length (plan_blockers a t tensors) = 1%nat ↔
  a = "llama"%string ∧ tokenizer_blocker t = None ∧ count_tensors is_unsupported tensors = 0.
Proof.
  assert (0 ≤ count_tensors is_unsupported tensors) by (unfold count_tensors; len_lia).
  unfold plan_blockers. rewrite !length_app. destruct (decide (a = "llama"%string)) as [Ha|Ha];
    [rewrite bool_decide_true by done|rewrite bool_decide_false by done]; cbn [negb length].
  - destruct (tokenizer_blocker t), (0 <? count_tensors _ _) eqn:Hc; cbn [length];
      rewrite ?Z.ltb_lt, ?Z.ltb_ge in Hc; naive_solver lia.
  - split; [|naive_solver]. destruct (tokenizer_blocker t), (0 <? _); cbn [length]; lia.
Qed.

(** ** The reader's properties *)
Section properties.
Context {S : Type} `{ExactSource S} (source : S).

(** C35: The GGUF reader does not panic whatever the source holds, and a model it gives is
    sound: version 3, the alignment the metadata state, a power of two, tensors of distinct
    names with one to four non-zero dimensions and aligned offsets inside the file, an
    architecture, and a tokenizer whose scores and types are as many as its tokens, of which
    the special tokens are some. *)
Theorem parse_gguf_sound :
  no_panic (parse_gguf_source source) ∧ ∀ m, parse_gguf_source source = Ok m → model_sound source m.
Proof.
  split; [apply calm_model|]. unfold parse_gguf_source. intros m Hm.
  destruct (read_model source 0) as [offset r] eqn:Hrun. cbn in Hm. subst r. by eapply read_model_Ok.
Qed.

(** A model the reader gives has a conversion plan, whose three counts cover
    the tensors, which is never ready to activate on its own, and whose only
    blocker is the missing equivalence proof exactly when the architecture is
    llama, the tokenizer is a native one and every tensor is of a type the
    transcoder knows. *)
Theorem conversion_plan_honest m :
  parse_gguf_source source = Ok m →
  ∃ plan t, GgufConversionPlan_from_model m = Ok plan ∧ tokenizer m = Ok t ∧
    cp_direct_tensor_count plan + cp_transcode_tensor_count plan + cp_unsupported_tensor_count plan = cp_tensor_count plan ∧
    activation_ready plan = false ∧
    (length (cp_blockers plan) = 1%nat ↔
     architecture m = Ok "llama"%string ∧ tokenizer_blocker t = None ∧
     Forall (λ t, is_native (tensor_disposition (ti_ggml_type t)) || is_transcode (tensor_disposition (ti_ggml_type t)) = true)
       (gm_tensors m)).
Proof.
  unfold parse_gguf_source. intros Hm. destruct (read_model source 0) as [offset r] eqn:Hrun. cbn in Hm. subst r.
  apply read_model_Ok in Hrun as []. destruct ms_architecture0 as (a & Ha & _), ms_tokenizer0 as (t & Ht & _).
  unfold GgufConversionPlan_from_model. rewrite Ht, Ha. eexists _, t. split_and!; [done|done|apply count_tensors_total| |].
  - unfold activation_ready. cbn [cp_blockers]. apply bool_decide_eq_false_2. unfold plan_blockers.
    intros Hnil. apply (f_equal length) in Hnil. rewrite !length_app in Hnil. cbn [length] in Hnil. lia.
  - cbn [cp_blockers]. rewrite plan_blockers_open, no_unsupported. naive_solver.
Qed.
End properties.

(** A file of one tensor. *)
Definition sample_string (s : string) : bytes := to_le 8 (len (string_bytes s)) ++ string_bytes s.
Definition sample_gguf : bytes :=
  GGUF_MAGIC ++ to_le 4 3 ++ to_le 8 1 ++ to_le 8 3 ++
  sample_string "general.architecture" ++ to_le 4 8 ++ sample_string "llama" ++
  sample_string "tokenizer.ggml.model" ++ to_le 4 8 ++ sample_string "gpt2" ++
  sample_string "tokenizer.ggml.tokens" ++ to_le 4 9 ++ to_le 4 8 ++ to_le 8 2 ++ sample_string "a" ++ sample_string "b" ++
  sample_string "w" ++ to_le 4 1 ++ to_le 8 2 ++ to_le 4 0 ++ to_le 8 0 ++ zeros 64.
Lemma sample_parses : is_ok (parse_gguf_source sample_gguf) = true.
Proof. vm_compute. reflexivity. Qed.
Lemma parse_gguf_sound_witness : ∃ m, parse_gguf_source sample_gguf = Ok m ∧ model_sound sample_gguf m.
Proof.
  pose proof sample_parses as Hok. destruct (parse_gguf_source sample_gguf) as [m| |] eqn:Hm; [|done|done].
  exists m. split; [done|]. exact (proj2 (parse_gguf_sound sample_gguf) m Hm).
Defined.
Lemma conversion_plan_honest_witness :
  ∃ m plan, parse_gguf_source sample_gguf = Ok m ∧ GgufConversionPlan_from_model m = Ok plan ∧ activation_ready plan = false.
Proof.
  pose proof sample_parses as Hok. destruct (parse_gguf_source sample_gguf) as [m| |] eqn:Hm; [|done|done].
  destruct (conversion_plan_honest sample_gguf m Hm) as (plan & t & Hp & _ & _ & Hready & _).
  exists m, plan. split; [done|]. split; [exact Hp|exact Hready].
Defined.
End GgufTheorems.
