(* ===== verification/GgufTranscode.v ===== *)
(** Transcoding of GGUF tensors: src/crates/ntd-assimilation/src/gguf/transcode.rs.

    Byte lengths of the source types, the payload of a tensor, the transposition
    and the dequantizers of Q4_0, Q8_0, Q4_K, Q5_K and Q6_K blocks.  Its
    [f16_to_f32] is the text of the loader's, [TensorOps.f16_to_f32]. *)
From S2P Require Import Prelude Text Collections Effects Ir Float32 Tensor Gguf.

Module GgufTranscode.
Import TensorOps Gguf.
Notation gguf_result := (result GgufError).

Definition GGML_TYPE_F32 : Z := 0.
Definition GGML_TYPE_F16 : Z := 1.
Definition GGML_TYPE_Q4_0 : Z := 2.
Definition GGML_TYPE_Q8_0 : Z := 8.
Definition GGML_TYPE_Q4_K : Z := 12.
Definition GGML_TYPE_Q5_K : Z := 13.
Definition GGML_TYPE_Q6_K : Z := 14.
Definition GGML_TYPE_BF16 : Z := 30.

Record TranscodedTensor := mkTranscoded { tt_dtype : DType; tt_shape : list Z; tt_payload : bytes }.
Record GgmlLayout := mkLayout { block_elements : Z; block_bytes : Z }.

Definition ggml_type_supported (ggml_type : Z) : bool :=
  match ggml_type with 0 | 1 | 2 | 8 | 12 | 13 | 14 | 30 => true | _ => false end.
Definition ggml_layout (ggml_type : Z) : gguf_result GgmlLayout :=
  match ggml_type with
  | 0 => Ok (mkLayout 1 4)
  | 1 | 30 => Ok (mkLayout 1 2)
  | 2 => Ok (mkLayout 32 18)
  | 8 => Ok (mkLayout 32 34)
  | 12 => Ok (mkLayout 256 144)
  | 13 => Ok (mkLayout 256 176)
  | 14 => Ok (mkLayout 256 210)
  | other => Err (UnsupportedTensorType other)
  end.

(** [try_fold(1, checked_mul)] *)
Definition checked_product (l : list Z) : gguf_result Z :=
  fold_result (λ product dimension, ok_or (checked_mul_u64 product dimension) Overflow) 1 l.
Definition element_count (tensor : GgufTensorInfo) : gguf_result Z := checked_product (ti_dimensions tensor).
Definition ggml_tensor_byte_len (tensor : GgufTensorInfo) : gguf_result Z :=
  let? layout := ggml_layout (ti_ggml_type tensor) in
  let? first := ok_or (head (ti_dimensions tensor)) InvalidTensor in
  if (first =? 0) || negb (first mod block_elements layout =? 0) then Err InvalidTensor
  else
    let? rows := checked_product (drop 1 (ti_dimensions tensor)) in
    let blocks_per_row := first / block_elements layout in
    ok_or (checked_mul_u64 rows blocks_per_row ≫= λ blocks, checked_mul_u64 blocks (block_bytes layout)) Overflow.

(** The span of a tensor in the file. *)
Definition tensor_span (file_len : Z) (model : GgufModel) (tensor : GgufTensorInfo) : gguf_result (Z * Z) :=
  if negb (file_len =? gm_file_len model) then Err InvalidTensor
  else
    let? n := ggml_tensor_byte_len tensor in
    let? start := ok_or (checked_add_u64 (gm_data_offset model) (ti_data_offset tensor)) Overflow in
    let? stop := ok_or (checked_add_u64 start n) Overflow in
    if file_len <? stop then Err Truncated else Ok (start, n).
Definition gguf_tensor_bytes (file : bytes) (model : GgufModel) (tensor : GgufTensorInfo) : gguf_result bytes :=
  let? file_len := ok_or (try_u64 (len file)) LimitExceeded in
  let? span := tensor_span file_len model tensor in
  let? start := ok_or (try_usize span.1) LimitExceeded in
  let? stop := ok_or (try_usize (span.1 + span.2)) LimitExceeded in
  ok_or (get_range file start stop) Truncated.
Definition gguf_tensor_bytes_from_source {S} `{GgufByteSource S} (source : S) (model : GgufModel) (tensor : GgufTensorInfo)
  : gguf_result bytes :=
  let? file_len := byte_len source in
  let? span := tensor_span file_len model tensor in
  let? n := ok_or (try_usize span.2) LimitExceeded in
  read_exact_at source span.1 n.

(** ** Shapes and transposition *)
Definition native_shape (tensor : GgufTensorInfo) (transpose_2d : bool) : gguf_result (list Z) :=
  match ti_dimensions tensor with
  | [width] => if (0 <? width) && negb transpose_2d then Ok [width] else Err InvalidTensor
  | [ne0; ne1] =>
      if (0 <? ne0) && (0 <? ne1) then (if transpose_2d then Ok [ne0; ne1] else Ok [ne1; ne0]) else Err InvalidTensor
  | _ => Err InvalidTensor
  end.

(** [a.checked_mul(b).and_then(|value| value.checked_add(c))] *)
Definition checked_index (a b c : Z) : gguf_result Z :=
  ok_or (checked_mul_usize a b ≫= λ value, checked_add_usize value c) Overflow.
Definition move_element (bs : bytes) (rows cols element_width row : Z) (output : bytes) (col : Z) : gguf_result bytes :=
  let? source_element := checked_index row cols col in
  let? target_element := checked_index col rows row in
  let? source := ok_or (checked_mul_usize source_element element_width) Overflow in
  let? target := ok_or (checked_mul_usize target_element element_width) Overflow in
  let? element := slice bs source (source + element_width) in
  splice output target element.
Definition transpose_elements (bs : bytes) (rows cols element_width : Z) : gguf_result bytes :=
  let? elements := ok_or (checked_mul_usize rows cols) Overflow in
  let? expected := ok_or (checked_mul_usize elements element_width) Overflow in
  if negb (len bs =? expected) then Err InvalidTensor
  else
    fold_result (λ output row, fold_result (move_element bs rows cols element_width row) output (upto cols))
      (zeros expected) (upto rows).
Definition transpose_values (values : list f32) (rows cols : Z) : gguf_result (list f32) :=
  let? elements := ok_or (checked_mul_usize rows cols) Overflow in
  if negb (len values =? elements) then Err InvalidTensor
  else
    fold_result (λ output row,
      fold_result (λ output col, let? value := at_index values (row * cols + col) in set_index output (col * rows + row) value)
        output (upto cols))
      (replicate (Z.to_nat elements) f32_zero) (upto rows).

(** [tensor.dimensions[1]] and [tensor.dimensions[0]] as [usize]. *)
Definition matrix_size (tensor : GgufTensorInfo) : gguf_result (Z * Z) :=
  let? ne1 := at_index (ti_dimensions tensor) 1 in
  let? rows := ok_or (try_usize ne1) LimitExceeded in
  let? ne0 := at_index (ti_dimensions tensor) 0 in
  let? cols := ok_or (try_usize ne0) LimitExceeded in
  Ok (rows, cols).
Definition transcode_unquantized (tensor : GgufTensorInfo) (bs : bytes) (dtype : DType) (element_width : Z)
  (transpose_2d : bool) : gguf_result TranscodedTensor :=
  let? shape := native_shape tensor transpose_2d in
  let? payload := if transpose_2d then let? size := matrix_size tensor in transpose_elements bs size.1 size.2 element_width
                  else Ok bs in
  Ok (mkTranscoded dtype shape payload).
Definition push_value (payload : bytes) (value : f32) : gguf_result bytes :=
  if negb (f32_is_finite value) then Err InvalidTensor else Ok (payload ++ to_le 4 (f32_to_bits value)).
Definition transcode_dequantized (tensor : GgufTensorInfo) (values : list f32) (transpose_2d : bool)
  : gguf_result TranscodedTensor :=
  let? shape := native_shape tensor transpose_2d in
  let? values := if transpose_2d then let? size := matrix_size tensor in transpose_values values size.1 size.2
                 else Ok values in
  let? _ := ok_or (checked_mul_usize (len values) 4) Overflow in
  let? payload := fold_result push_value [] values in
  Ok (mkTranscoded F32 shape payload).

(** ** Blocks *)
(** [f16_to_f32(u16::from_le_bytes([block[at], block[at + 1]]))] *)
Definition block_scale (block : bytes) (at_ : Z) : gguf_result f32 :=
  let? lo := at_index block at_ in
  let? hi := at_index block (at_ + 1) in
  Ok (f16_to_f32 (from_le [lo; hi])).
Definition low_nibble (b : byte) : Z := Z.land (Z_of_byte b) 0x0f.
Definition high_nibble (b : byte) : Z := Z.shiftr (Z_of_byte b) 4.
Definition as_i8 (b : byte) : Z := signed_of 8 (Z_of_byte b).

Definition q8_0_block (block : bytes) : gguf_result (list f32) :=
  let? scale := block_scale block 0 in
  if negb (f32_is_finite scale) then Err InvalidTensor
  else
    let? qs := slice block 2 34 in
    Ok (map (λ value, f32_mul scale (f32_of_Z (as_i8 value))) qs).
Definition q4_0_block (block : bytes) : gguf_result (list f32) :=
  let? scale := block_scale block 0 in
  if negb (f32_is_finite scale) then Err InvalidTensor
  else
    let? qs := slice block 2 18 in
    Ok (map (λ packed, f32_mul scale (f32_of_Z (low_nibble packed - 8))) qs ++
        map (λ packed, f32_mul scale (f32_of_Z (high_nibble packed - 8))) qs).

Definition scale_min_k4 (index : Z) (packed : bytes) : gguf_result (Z * Z) :=
  if negb (len packed =? 12) || (8 <=? index) then Err InvalidTensor
  else if index <? 4 then
    let? scale := at_index packed index in
    let? minimum := at_index packed (index + 4) in
    Ok (Z.land (Z_of_byte scale) 0x3f, Z.land (Z_of_byte minimum) 0x3f)
  else
    let? both := at_index packed (index + 4) in
    let? scale_top := at_index packed (index - 4) in
    let? min_top := at_index packed index in
    Ok (Z.lor (low_nibble both) (Z.shiftl (Z.shiftr (Z_of_byte scale_top) 6) 4),
        Z.lor (high_nibble both) (Z.shiftl (Z.shiftr (Z_of_byte min_top) 6) 4)).
(** [d1 * f32::from(q) - m1] *)
Definition affine (d m : f32) (q : Z) : f32 := f32_sub (f32_mul d (f32_of_Z q)) m.

Definition q4_k_group (d dmin : f32) (scales qs : bytes) (group : Z) : gguf_result (list f32) :=
  let? first := scale_min_k4 (2 * group) scales in
  let? second := scale_min_k4 (2 * group + 1) scales in
  let d1 := f32_mul d (f32_of_Z first.1) in
  let m1 := f32_mul dmin (f32_of_Z first.2) in
  let d2 := f32_mul d (f32_of_Z second.1) in
  let m2 := f32_mul dmin (f32_of_Z second.2) in
  let? q := slice qs (group * 32) (group * 32 + 32) in
  Ok (map (λ value, affine d1 m1 (low_nibble value)) q ++ map (λ value, affine d2 m2 (high_nibble value)) q).
Definition q4_k_block (block : bytes) : gguf_result (list f32) :=
  let? d := block_scale block 0 in
  let? dmin := block_scale block 2 in
  if negb (f32_is_finite d) || negb (f32_is_finite dmin) then Err InvalidTensor
  else
    let? scales := slice block 4 16 in
    let? qs := slice block 16 144 in
    let? groups := map_result (q4_k_group d dmin scales qs) (upto 4) in
    Ok (concat groups).

(** The masks move two bits a group. *)
Definition high_bit (high_bits : byte) (mask : Z) : Z := if Z.land (Z_of_byte high_bits) mask =? 0 then 0 else 16.
Definition q5_k_group (d dmin : f32) (scales qh qs : bytes) (group : Z) : gguf_result (list f32) :=
  let? first := scale_min_k4 (2 * group) scales in
  let? second := scale_min_k4 (2 * group + 1) scales in
  let d1 := f32_mul d (f32_of_Z first.1) in
  let m1 := f32_mul dmin (f32_of_Z first.2) in
  let d2 := f32_mul d (f32_of_Z second.1) in
  let m2 := f32_mul dmin (f32_of_Z second.2) in
  let high_low_mask := Z.shiftl 1 (2 * group) in
  let high_high_mask := Z.shiftl 2 (2 * group) in
  let? q := slice qs (group * 32) (group * 32 + 32) in
  Ok (zip_with (λ low high_bits, affine d1 m1 (low_nibble low + high_bit high_bits high_low_mask)) q qh ++
      zip_with (λ low high_bits, affine d2 m2 (high_nibble low + high_bit high_bits high_high_mask)) q qh).
Definition q5_k_block (block : bytes) : gguf_result (list f32) :=
  let? d := block_scale block 0 in
  let? dmin := block_scale block 2 in
  if negb (f32_is_finite d) || negb (f32_is_finite dmin) then Err InvalidTensor
  else
    let? scales := slice block 4 16 in
    let? qh := slice block 16 48 in
    let? qs := slice block 48 176 in
    let? groups := map_result (q5_k_group d dmin scales qh qs) (upto 4) in
    Ok (concat groups).

(** One of the four values of a lane: the quantum from a byte of [ql] and two
    bits of [qh], and its scale. *)
Definition two_bits (high : byte) (shift : Z) : Z := Z.shiftl (Z.land (Z.shiftr (Z_of_byte high) shift) 0x03) 4.
Definition q6_value (d : f32) (scale : byte) (low high2 : Z) : f32 :=
  f32_mul (f32_mul d (f32_of_Z (as_i8 scale))) (f32_of_Z (Z.lor low high2 - 32)).
Definition q6_k_lane (ql qh scales : bytes) (d : f32) (half : Z) (values : list f32) (lane : Z) : gguf_result (list f32) :=
  let ql_base := half * 64 in
  let qh_base := half * 32 in
  let scale_base := half * 8 in
  let out_base := half * 128 in
  let scale_pair := lane / 16 in
  let? high := at_index qh (qh_base + lane) in
  let? l1 := at_index ql (ql_base + lane) in
  let? l2 := at_index ql (ql_base + lane + 32) in
  let? s1 := at_index scales (scale_base + scale_pair) in
  let? s2 := at_index scales (scale_base + scale_pair + 2) in
  let? s3 := at_index scales (scale_base + scale_pair + 4) in
  let? s4 := at_index scales (scale_base + scale_pair + 6) in
  let? values := set_index values (out_base + lane) (q6_value d s1 (low_nibble l1) (two_bits high 0)) in
  let? values := set_index values (out_base + lane + 32) (q6_value d s2 (low_nibble l2) (two_bits high 2)) in
  let? values := set_index values (out_base + lane + 64) (q6_value d s3 (high_nibble l1) (two_bits high 4)) in
  set_index values (out_base + lane + 96) (q6_value d s4 (high_nibble l2) (two_bits high 6)).
Definition q6_k_block (block : bytes) : gguf_result (list f32) :=
  let? ql := slice block 0 128 in
  let? qh := slice block 128 192 in
  let? scales := slice block 192 208 in
  let? d := block_scale block 208 in
  if negb (f32_is_finite d) then Err InvalidTensor
  else
    fold_result (λ values half, fold_result (q6_k_lane ql qh scales d half) values (upto 32))
      (replicate 256 f32_zero) (upto 2).

(** ** Tensors *)
Definition validate_quantized_payload (tensor : GgufTensorInfo) (bs : bytes) : gguf_result unit :=
  let? expected := ggml_tensor_byte_len tensor in
  let? n := ok_or (try_u64 (len bs)) LimitExceeded in
  if negb (n =? expected) then Err InvalidTensor else Ok tt.
(** The loop of every decoder: a block at a time, then the length. *)
Definition decode_blocks (block_bytes : Z) (decode : bytes → gguf_result (list f32)) (tensor : GgufTensorInfo) (bs : bytes)
  : gguf_result (list f32) :=
  let? _ := validate_quantized_payload tensor bs in
  let? element_count := element_count tensor in
  let? capacity := ok_or (try_usize element_count) LimitExceeded in
  let? output := fold_result (λ output block, let? values := decode block in Ok (output ++ values)) []
                   (chunks_exact block_bytes bs) in
  if negb (len output =? capacity) then Err InvalidTensor else Ok output.
(** [output.iter().any(|value| !value.is_finite())] *)
Definition all_finite (output : list f32) : gguf_result (list f32) :=
  if existsb (λ value, negb (f32_is_finite value)) output then Err InvalidTensor else Ok output.
Definition decode_q8_0 : GgufTensorInfo → bytes → gguf_result (list f32) := decode_blocks 34 q8_0_block.
Definition decode_q4_0 : GgufTensorInfo → bytes → gguf_result (list f32) := decode_blocks 18 q4_0_block.
Definition decode_q4_k (tensor : GgufTensorInfo) (bs : bytes) : gguf_result (list f32) :=
  let? output := decode_blocks 144 q4_k_block tensor bs in all_finite output.
Definition decode_q5_k (tensor : GgufTensorInfo) (bs : bytes) : gguf_result (list f32) :=
  let? output := decode_blocks 176 q5_k_block tensor bs in all_finite output.
Definition decode_q6_k (tensor : GgufTensorInfo) (bs : bytes) : gguf_result (list f32) :=
  let? output := decode_blocks 210 q6_k_block tensor bs in all_finite output.

Definition transcode_tensor_payload (tensor : GgufTensorInfo) (bs : bytes) (transpose_2d : bool)
  : gguf_result TranscodedTensor :=
  match ti_ggml_type tensor with
  | 0 => transcode_unquantized tensor bs F32 4 transpose_2d
  | 1 => transcode_unquantized tensor bs F16 2 transpose_2d
  | 30 => transcode_unquantized tensor bs Bf16 2 transpose_2d
  | 2 => let? values := decode_q4_0 tensor bs in transcode_dequantized tensor values transpose_2d
  | 8 => let? values := decode_q8_0 tensor bs in transcode_dequantized tensor values transpose_2d
  | 12 => let? values := decode_q4_k tensor bs in transcode_dequantized tensor values transpose_2d
  | 13 => let? values := decode_q5_k tensor bs in transcode_dequantized tensor values transpose_2d
  | 14 => let? values := decode_q6_k tensor bs in transcode_dequantized tensor values transpose_2d
  | other => Err (UnsupportedTensorType other)
  end.
Definition transcode_tensor_from_source {S} `{GgufByteSource S} (source : S) (model : GgufModel) (tensor : GgufTensorInfo)
  (transpose_2d : bool) : gguf_result TranscodedTensor :=
  if bool_decide (ti_dimensions tensor = []) || (2 <? len (ti_dimensions tensor)) then Err InvalidTensor
  else if transpose_2d && negb (len (ti_dimensions tensor) =? 2) then Err InvalidTensor
  else
    let? bs := gguf_tensor_bytes_from_source source model tensor in
    transcode_tensor_payload tensor bs transpose_2d.
Definition transcode_tensor (file : bytes) (model : GgufModel) (tensor : GgufTensorInfo) (transpose_2d : bool)
  : gguf_result TranscodedTensor := transcode_tensor_from_source file model tensor transpose_2d.
End GgufTranscode.
