(* ===== verification/GgufTranscodeTheorems.v ===== *)
(** Transcoded tensors: their sizes, the transposition, and the packed scales. *)
From S2P Require Import Prelude Text Collections Effects Ir Float32 Tensor TensorTheorems Gguf GgufTheorems GgufTranscode.

Module GgufTranscodeTheorems.
Import TensorOps TensorTheorems Gguf GgufTheorems GgufTranscode.
Notation gguf_result := (result GgufError).

(** ** Loops that write every slot *)
Definition gives {E A} (P : A → Prop) (m : result E A) : Prop := ∃ a, m = Ok a ∧ P a.

Lemma gives_bind {E A B} (P : A → Prop) (Q : B → Prop) (m : result E A) (k : A → result E B) :
  gives P m → (∀ a, P a → gives Q (k a)) → gives Q (let? a := m in k a).
Proof. intros (a & -> & Ha) Hk. by apply Hk. Qed.
Lemma gives_impl {E A} (P Q : A → Prop) (m : result E A) : gives P m → (∀ a, P a → Q a) → gives Q m.
Proof. intros (a & -> & Ha) HQ. exists a. auto. Qed.

(** Every slot [x] of [l] is written, and a write keeps the others. *)
Lemma fold_writes {E S A} `{EqDecision A} (W : S → Prop) (Q : A → S → Prop) (f : S → A → result E S) l s :
  W s →
  (∀ s x, W s → x ∈ l → gives (λ s', W s' ∧ Q x s' ∧ ∀ y, y ≠ x → Q y s → Q y s') (f s x)) →
  gives (λ s', W s' ∧ (∀ x, x ∈ l → Q x s') ∧ ∀ y, y ∉ l → Q y s → Q y s') (fold_result f s l).
Proof.
  revert s. induction l as [|x l IH]; intros s Hs Hf; cbn.
  { exists s. split_and!; [done|done| |done]. intros x Hx. by apply not_elem_of_nil in Hx. }
  destruct (Hf s x Hs (list_elem_of_here _ _)) as (s1 & -> & H1 & Hx & Hother).
  destruct (IH s1 H1) as (s2 & -> & H2 & Hall & Hrest); [intros; apply Hf; [done|by right]|].
  exists s2. split_and!; [done|done| |].
  - intros y [->|Hy]%elem_of_cons; [|by apply Hall]. destruct (decide (x ∈ l)); [by apply Hall|by apply Hrest].
  - intros y [Hne Hy]%not_elem_of_cons HQ. apply Hrest; [done|]. by apply Hother.
Qed.
(** Two nested loops over the indices of a matrix. *)
Lemma nested_writes {E S} (W : S → Prop) (Q : Z → Z → S → Prop) (body : Z → S → Z → result E S) rows cols s :
  W s →
  (∀ s r c, W s → 0 ≤ r < rows → 0 ≤ c < cols →
     gives (λ s', W s' ∧ Q r c s' ∧ ∀ r' c', 0 ≤ r' < rows → 0 ≤ c' < cols → (r', c') ≠ (r, c) → Q r' c' s → Q r' c' s') (body r s c)) →
  gives (λ s', W s' ∧ ∀ r c, 0 ≤ r < rows → 0 ≤ c < cols → Q r c s')
    (fold_result (λ s r, fold_result (body r) s (upto cols)) s (upto rows)).
Proof.
  intros Hs Hbody. pose (Row r s := 0 ≤ r < rows → ∀ c, 0 ≤ c < cols → Q r c s).
  eapply gives_impl; [apply (fold_writes W Row); [done|]|].
  - clear s Hs. intros s r Hs Hr%elem_of_upto.
    pose (In s1 := W s1 ∧ ∀ y, y ≠ r → Row y s → Row y s1).
    eapply gives_impl; [apply (fold_writes In (λ c s, 0 ≤ c < cols → Q r c s))|].
    + by split.
    + intros s1 c [Hs1 Hkeep] Hc%elem_of_upto. eapply gives_impl; [by apply Hbody|].
      intros s2 (Hs2 & Hrc & Hother). split_and!; [split; [done|]|done|].
      * intros y Hy HR Hrow c' Hc'. apply Hother; [done|done|congruence|]. by apply Hkeep.
      * intros c' Hne HQ Hc'. apply Hother; [done|done|congruence|]. by apply HQ.
    + intros s1 ([Hs1 Hkeep] & Hall & _). split_and!; [done| |done].
      intros _ c Hc. apply Hall; [by apply elem_of_upto|done].
  - intros s' (Hs' & Hall & _). split; [done|]. intros r c Hr Hc. apply Hall; [by apply elem_of_upto|done|done].
Qed.

(** ** Transposition *)
Lemma splice_lookup {E A} (l src r : list A) t (i : nat) :
  splice (E:=E) l t src = Ok r →
  r !! i = if decide (t ≤ Z.of_nat i < t + len src) then src !! (i - Z.to_nat t)%nat else l !! i.
Proof.
  intros (Ht & Hle & _ & ->)%splice_Ok. unfold len in *.
  assert (length (take (Z.to_nat t) l) = Z.to_nat t) as Hl by (rewrite length_take; lia).
  destruct (decide (Z.of_nat i < t)).
  - rewrite decide_False by lia. rewrite lookup_app_l by lia. apply lookup_take_lt. lia.
  - rewrite lookup_app_r, Hl by lia. destruct (decide (Z.of_nat i < t + Z.of_nat (length src))).
    + rewrite decide_True by lia. apply lookup_app_l. lia.
    + rewrite decide_False by lia. rewrite lookup_app_r, lookup_drop by lia. f_equal. lia.
Qed.
Lemma slice_lookup {E A} (l r : list A) a b (k : Z) :
  slice (E:=E) l a b = Ok r → 0 ≤ k < b - a → r !! Z.to_nat k = l !! Z.to_nat (a + k).
Proof.
  intros (? & ? & ->)%slice_Ok%get_range_Some Hk. rewrite lookup_take_lt, lookup_drop by lia. f_equal. lia.
Qed.
(** Positions of a matrix of elements are distinct. *)
Lemma position_inj w r c r' c' cols k k' :
  0 ≤ k < w → 0 ≤ k' < w → 0 ≤ c < cols → 0 ≤ c' < cols → 0 ≤ r → 0 ≤ r' →
  (r * cols + c) * w + k = (r' * cols + c') * w + k' → r = r' ∧ c = c' ∧ k = k'.
Proof.
  intros ? ? ? ? ? ? He.
  destruct (Z.div_mod_unique w (r * cols + c) (r' * cols + c') k k') as [Hi ->]; [lia..|].
  destruct (Z.div_mod_unique cols r r' c c') as [-> ->]; [lia..|done].
Qed.

(** The element at [row], [col] of a matrix of [cols] columns and elements of [w] bytes. *)
Definition element_byte (l : bytes) (cols w row col k : Z) : option byte := l !! Z.to_nat ((row * cols + col) * w + k).

Lemma grow a w : 0 ≤ a → 0 < w → a ≤ a * w.
Proof. nia. Qed.

Section transpose.
Context (bs : bytes) (rows cols w : Z).
Context (Hrows : 0 ≤ rows) (Hcols : 0 ≤ cols) (Hw : 0 < w) (Hlen : len bs = rows * cols * w) (Hmax : len bs < 2 ^ 64).

Lemma checked_index_ok i j m n : 0 ≤ i < m → 0 ≤ j < n → m * n * w ≤ len bs → checked_index i n j = Ok (i * n + j).
Proof.
  intros Hi Hj Hmn. assert (i * n + j < m * n) by nia. pose proof (grow (m * n) w ltac:(nia) Hw).
  unfold checked_index, checked_mul_usize, checked_mul_u64, checked_add_usize, checked_add_u64.
  destruct (Z.ltb_spec (i * n) (2 ^ 64)); cbn; [|nia]. destruct (Z.ltb_spec (i * n + j) (2 ^ 64)); cbn; [done|lia].
Qed.
Lemma move_element_gives output row col :
  len output = len bs → 0 ≤ row < rows → 0 ≤ col < cols →
  gives (λ output', len output' = len bs ∧
           (∀ k, 0 ≤ k < w → element_byte output' rows w col row k = element_byte bs cols w row col k) ∧
           ∀ row' col', 0 ≤ row' < rows → 0 ≤ col' < cols → (row', col') ≠ (row, col) →
             ∀ k, 0 ≤ k < w → element_byte output' rows w col' row' k = element_byte output rows w col' row' k)
    (move_element bs rows cols w row output col).
Proof.
  intros Ho Hr Hc. unfold move_element.
  assert (0 ≤ row * cols + col < rows * cols) by nia. assert (0 ≤ col * rows + row < rows * cols) by nia.
  rewrite (checked_index_ok row col rows cols), (checked_index_ok col row cols rows) by (done || nia).
  unfold checked_mul_usize, checked_mul_u64.
  destruct (Z.ltb_spec ((row * cols + col) * w) (2 ^ 64)); cbn; [|nia].
  destruct (Z.ltb_spec ((col * rows + row) * w) (2 ^ 64)); cbn; [|nia].
  destruct (slice_in_range (E:=GgufError) bs ((row * cols + col) * w) ((row * cols + col) * w + w)) as (e & Hs & He); [lia|nia|].
  rewrite Hs. destruct (splice output ((col * rows + row) * w) e) as [output'| |] eqn:Hsp.
  2,3: exfalso; unfold splice in Hsp; destruct (_ && _) eqn:Hb; [done|];
    apply andb_false_iff in Hb as [Hb%Z.leb_gt|Hb%Z.leb_gt]; nia.
  pose proof (splice_Ok _ _ _ _ Hsp) as (_ & _ & Hl & _). exists output'. split; [done|]. split_and!; [lia| |].
  - intros k Hk. unfold element_byte. rewrite (splice_lookup _ _ _ _ _ Hsp), decide_True by lia.
    rewrite <- (slice_lookup _ _ _ _ k Hs) by lia. f_equal. lia.
  - intros row' col' Hr' Hc' Hne k Hk. unfold element_byte. rewrite (splice_lookup _ _ _ _ _ Hsp).
    rewrite decide_False; [done|]. intros Hin. apply Hne.
    destruct (position_inj w col' row' col row rows k ((col' * rows + row') * w + k - (col * rows + row) * w)) as (-> & -> & _);
      try done; try lia.
Qed.
Lemma transpose_elements_gives :
  gives (λ output, len output = len bs ∧ ∀ row col, 0 ≤ row < rows → 0 ≤ col < cols →
           ∀ k, 0 ≤ k < w → element_byte output rows w col row k = element_byte bs cols w row col k)
    (transpose_elements bs rows cols w).
Proof.
  unfold transpose_elements, checked_mul_usize, checked_mul_u64. pose proof (grow (rows * cols) w ltac:(nia) Hw).
  destruct (Z.ltb_spec (rows * cols) (2 ^ 64)); cbn; [|lia].
  destruct (Z.ltb_spec (rows * cols * w) (2 ^ 64)); cbn; [|lia]. rewrite <- Hlen, Z.eqb_refl. cbn [negb].
  apply (nested_writes (λ output, len output = len bs)
    (λ row col output, ∀ k, 0 ≤ k < w → element_byte output rows w col row k = element_byte bs cols w row col k)).
  { unfold zeros, len. rewrite length_replicate. unfold len. lia. }
  intros output row col Ho Hr Hc. eapply gives_impl; [by apply move_element_gives|].
  intros output' (Hl & Hmoved & Hkept). split_and!; [done|done|].
  intros row' col' Hr' Hc' Hne Hold k Hk. rewrite Hkept by done. by apply Hold.
Qed.
End transpose.

Lemma element_byte_ext (a b : bytes) rows cols w :
  0 ≤ cols → 0 < w → len a = rows * cols * w → len b = rows * cols * w →
  (∀ row col k, 0 ≤ row < rows → 0 ≤ col < cols → 0 ≤ k < w → element_byte a cols w row col k = element_byte b cols w row col k) →
  a = b.
Proof.
  intros Hc Hw Ha Hb He. apply list_eq_same_length with (length a); [unfold len in *; lia|done|].
  intros i x y Hi Hx Hy. pose (e := Z.of_nat i / w). pose (k := Z.of_nat i mod w).
  pose proof (Z.div_mod (Z.of_nat i) w ltac:(lia)). pose proof (Z.mod_pos_bound (Z.of_nat i) w Hw).
  assert (0 ≤ e) by (apply Z.div_pos; lia). assert (e < rows * cols).
  { apply Z.div_lt_upper_bound; [done|]. pose proof (Nat2Z.inj_lt i (length a)). unfold len in *. lia. }
  assert (0 < cols) by (destruct (decide (cols = 0)) as [->|]; lia).
  pose proof (Z.div_mod e cols ltac:(lia)). pose proof (Z.mod_pos_bound e cols ltac:(lia)).
  assert (0 ≤ e / cols < rows) by (split; [apply Z.div_pos; lia|apply Z.div_lt_upper_bound; lia]).
  specialize (He (e / cols) (e mod cols) k ltac:(lia) ltac:(lia) ltac:(lia)). unfold element_byte in He.
  replace (Z.to_nat _) with i in He by lia. rewrite Hx, Hy in He. congruence.
Qed.

(** ** Sizes *)
Lemma yields_slice {E A} (l : list A) a b : 0 ≤ a ≤ b → b ≤ len l → yields (E:=E) (λ r, len r = b - a) (slice l a b).
Proof. intros Ha Hb. destruct (slice_in_range (E:=E) l a b Ha Hb) as (r & -> & Hr). done. Qed.
Lemma block_scale_yields block at_ : 0 ≤ at_ → at_ + 2 ≤ len block → yields (λ _, True) (block_scale block at_).
Proof. intros ? ?. unfold block_scale. do 2 (apply yields_read; [lia|intros ?]). done. Qed.
Lemma len_map {A B} (f : A → B) l : len (map f l) = len l.
Proof. unfold len. by rewrite length_map. Qed.

Lemma q8_0_block_yields block : len block = 34 → yields (λ v, len v = 32) (q8_0_block block).
Proof.
  intros Hb. unfold q8_0_block. eapply yields_bind; [by apply block_scale_yields; lia|]. intros scale _ _.
  destruct (negb _); [done|]. eapply yields_bind; [by apply yields_slice; lia|]. intros qs Hq _. cbn in *. by rewrite len_map.
Qed.
Lemma q4_0_block_yields block : len block = 18 → yields (λ v, len v = 32) (q4_0_block block).
Proof.
  intros Hb. unfold q4_0_block. eapply yields_bind; [by apply block_scale_yields; lia|]. intros scale _ _.
  destruct (negb _); [done|]. eapply yields_bind; [by apply yields_slice; lia|]. intros qs Hq _. cbn in *. rewrite len_app, !len_map. lia.
Qed.
Lemma scale_min_yields index packed : 0 ≤ index → yields (λ _, True) (scale_min_k4 index packed).
Proof.
  intros Hi. unfold scale_min_k4. destruct (_ || _) eqn:Hb; [done|].
  apply orb_false_iff in Hb as [Hl%negb_false_iff%Z.eqb_eq Hi8%Z.leb_gt].
  destruct (Z.ltb_spec index 4); repeat (apply yields_read; [lia|intros ?]); done.
Qed.
Lemma yields_groups f :
  (∀ group, 0 ≤ group < 4 → yields (λ v, len v = 64) (f group)) →
  yields (λ v, len v = 256) (let? groups := map_result f (upto 4) in Ok (concat groups) : gguf_result (list f32)).
Proof.
  intros Hf. eapply yields_bind; [apply (yields_map (λ v, len v = 64))|].
  - intros group Hg%elem_of_upto. by apply Hf.
  - intros groups [Hl Hall] _. cbn. destruct groups as [|a [|b [|c [|d [|? ?]]]]]; try done.
    rewrite !Forall_cons in Hall. cbn. rewrite !len_app. unfold len at 5. cbn. lia.
Qed.
Lemma q4_k_group_yields d dmin scales qs group :
  len qs = 128 → 0 ≤ group < 4 → yields (λ v, len v = 64) (q4_k_group d dmin scales qs group).
Proof.
  intros Hq Hg. unfold q4_k_group. do 2 (eapply yields_bind; [by apply scale_min_yields; lia|intros ? _ _]).
  eapply yields_bind; [by apply yields_slice; lia|]. intros q Hl _. cbn in *. rewrite len_app, !len_map. lia.
Qed.
Lemma q5_k_group_yields d dmin scales qh qs group :
  len qs = 128 → len qh = 32 → 0 ≤ group < 4 → yields (λ v, len v = 64) (q5_k_group d dmin scales qh qs group).
Proof.
  intros Hq Hh Hg. unfold q5_k_group. do 2 (eapply yields_bind; [by apply scale_min_yields; lia|intros ? _ _]).
  eapply yields_bind; [by apply yields_slice; lia|]. intros q Hl _. cbn in *. unfold len in *.
  rewrite length_app, !length_zip_with. lia.
Qed.
Lemma q4_k_block_yields block : len block = 144 → yields (λ v, len v = 256) (q4_k_block block).
Proof.
  intros Hb. unfold q4_k_block. do 2 (eapply yields_bind; [by apply block_scale_yields; lia|intros ? _ _]).
  destruct (_ || _); [done|]. do 2 (eapply yields_bind; [by apply yields_slice; lia|cbn beta; intros ? ? _]).
  apply yields_groups. intros. by apply q4_k_group_yields.
Qed.
Lemma q5_k_block_yields block : len block = 176 → yields (λ v, len v = 256) (q5_k_block block).
Proof.
  intros Hb. unfold q5_k_block. do 2 (eapply yields_bind; [by apply block_scale_yields; lia|intros ? _ _]).
  destruct (_ || _); [done|]. do 3 (eapply yields_bind; [by apply yields_slice; lia|cbn beta; intros ? ? _]).
  apply yields_groups. intros. by apply q5_k_group_yields.
Qed.
Lemma q6_k_lane_yields ql qh scales d half values lane :
  len ql = 128 → len qh = 64 → len scales = 16 → len values = 256 → 0 ≤ half < 2 → 0 ≤ lane < 32 →
  yields (λ v, len v = 256) (q6_k_lane ql qh scales d half values lane).
Proof.
  intros Hql Hqh Hs Hv Hh Hlane. unfold q6_k_lane.
  assert (0 ≤ lane / 16 < 2) by (split; [apply Z.div_pos; lia|apply Z.div_lt_upper_bound; lia]).
  do 7 (apply yields_read; [lia|intros ?]).
  do 3 (eapply yields_bind; [apply yields_set; lia|cbn beta; intros ? ? _]).
  eapply yields_impl; [apply yields_set; lia|]. cbn beta. intros. lia.
Qed.
Lemma q6_k_block_yields block : len block = 210 → yields (λ v, len v = 256) (q6_k_block block).
Proof.
  intros Hb. unfold q6_k_block. do 3 (eapply yields_bind; [by apply yields_slice; lia|cbn beta; intros ? ? _]).
  eapply yields_bind; [by apply block_scale_yields; lia|intros ? _ _]. destruct (negb _); [done|].
  apply yields_fold; [done|]. intros values half Hv Hhalf%elem_of_upto.
  apply yields_fold; [done|]. intros values' lane Hv' Hlane%elem_of_upto. by apply q6_k_lane_yields.
Qed.

Lemma checked_product_yields l : yields (λ n, n = product l) (checked_product l).
Proof.
  assert (∀ c, yields (λ n, n = c * product l) (fold_result (λ p d, ok_or (checked_mul_u64 p d) Overflow) c l)) as Hc.
  { induction l as [|d l IH]; intros c; cbn; [unfold product; cbn; lia|]. unfold checked_mul_u64.
    destruct (_ <? 2 ^ 64); cbn; [|done]. eapply yields_impl; [apply IH|]. intros n ->. unfold product. cbn. lia. }
  eapply yields_impl; [apply Hc|]. intros n ->. lia.
Qed.
Lemma byte_len_calm tensor : no_panic (ggml_tensor_byte_len tensor).
Proof.
  apply yields_true. unfold ggml_tensor_byte_len. eapply (yields_bind (λ _, True)); [unfold ggml_layout; by repeat case_match|].
  intros ? _ _. eapply (yields_bind (λ _, True)); [by apply yields_ok_or|intros ? _ _]. destruct (_ || _); [done|].
  eapply yields_bind; [apply checked_product_yields|intros ? _ _]. by apply yields_ok_or.
Qed.
Lemma decode_blocks_yields n (m : Z) decode tensor bs :
  0 ≤ n → (∀ block, len block = n → yields (λ v, len v = m) (decode block)) →
  yields (λ out, len out = product (ti_dimensions tensor)) (decode_blocks n decode tensor bs).
Proof.
  intros Hn Hd. unfold decode_blocks. eapply (yields_bind (λ _, True)).
  { unfold validate_quantized_payload. eapply (yields_bind (λ _, True)).
    - apply yields_true, byte_len_calm.
    - intros ? _ _. eapply (yields_bind (λ _, True)); [by apply yields_ok_or|intros ? _ _]. by destruct (negb _). }
  intros ? _ _. eapply yields_bind; [apply checked_product_yields|]. intros ? -> _.
  eapply (yields_bind (λ c, c = product (ti_dimensions tensor))).
  { apply yields_ok_or. unfold try_usize, try_u64. intros x. by destruct (_ <? _); intros [= <-]. }
  intros ? -> _. eapply (yields_bind (λ _, True)).
  - apply yields_fold; [done|]. intros out block _ Hblock. pose proof (chunks_exact_len n bs Hn) as Hall.
    rewrite Forall_forall in Hall. eapply yields_bind; [by apply Hd, Hall|]. done.
  - intros out _ _. destruct (Z.eqb_spec (len out) (product (ti_dimensions tensor))); cbn; done.
Qed.
Lemma all_finite_yields P out : P out → yields P (all_finite out).
Proof. intros HP. unfold all_finite. by destruct (existsb _ _). Qed.

Lemma transpose_values_gives values rows cols :
  0 ≤ rows → 0 ≤ cols → len values = rows * cols → len values < 2 ^ 64 →
  gives (λ out, len out = len values ∧ ∀ row col, 0 ≤ row < rows → 0 ≤ col < cols →
           out !! Z.to_nat (col * rows + row) = values !! Z.to_nat (row * cols + col))
    (transpose_values values rows cols).
Proof.
  intros Hr Hc Hlen Hmax. unfold transpose_values, checked_mul_usize, checked_mul_u64.
  destruct (Z.ltb_spec (rows * cols) (2 ^ 64)); cbn; [|lia]. rewrite <- Hlen, Z.eqb_refl. cbn [negb].
  apply (nested_writes (λ out, len out = len values)
    (λ row col out, out !! Z.to_nat (col * rows + row) = values !! Z.to_nat (row * cols + col))).
  { unfold len. rewrite length_replicate. lia. }
  intros out row col Ho Hrow Hcol. pose proof (index_in_matrix row col rows cols Hrow Hcol).
  pose proof (index_in_matrix col row cols rows Hcol Hrow).
  destruct (lookup_lt_is_Some_2 values (Z.to_nat (row * cols + col))) as [v Hv]; [unfold len in *; lia|].
  unfold at_index, set_index. rewrite Hv. cbn. destruct (Z.ltb_spec (col * rows + row) (len out)); [|lia].
  eexists. split; [done|]. unfold len in *. rewrite length_insert. split_and!; [done| |].
  - rewrite list_lookup_insert_eq by lia. done.
  - intros r' c' Hr' Hc' Hne Hold. pose proof (index_in_matrix c' r' cols rows Hc' Hr').
    rewrite list_lookup_insert_ne; [done|]. intros He. apply Hne.
    destruct (Z.div_mod_unique rows col c' row r') as [-> ->]; [lia..|done].
Qed.
Lemma matrix_size_yields tensor ne0 ne1 :
  ti_dimensions tensor = [ne0; ne1] → yields (λ size, size = (ne1, ne0)) (matrix_size tensor).
Proof.
  intros Hd. unfold matrix_size, at_index. rewrite Hd. change ([ne0; ne1] !! Z.to_nat 1) with (Some ne1).
  change ([ne0; ne1] !! Z.to_nat 0) with (Some ne0). cbn. unfold try_usize, try_u64.
  destruct (_ <? _); cbn; [|done]. by destruct (_ <? _).
Qed.
(** The shape of a native tensor: the dimensions, the last first unless transposed. *)
Definition shape_of (tensor : GgufTensorInfo) (transpose_2d : bool) : list Z :=
  if transpose_2d then ti_dimensions tensor else reverse (ti_dimensions tensor).
Lemma native_shape_yields tensor transpose_2d :
  yields (λ shape, shape = shape_of tensor transpose_2d ∧ Forall (λ d, 0 < d) (ti_dimensions tensor) ∧
    if transpose_2d then len (ti_dimensions tensor) = 2 else True) (native_shape tensor transpose_2d).
Proof.
  unfold native_shape, shape_of. destruct (ti_dimensions tensor) as [|ne0 [|ne1 [|? ?]]]; try done.
  - destruct (Z.ltb_spec 0 ne0), transpose_2d; cbn; try done. split_and!; [done|by repeat constructor|done].
  - destruct (Z.ltb_spec 0 ne0), (Z.ltb_spec 0 ne1), transpose_2d; cbn; try done;
      (split_and!; [done|by repeat constructor|done]).
Qed.
Lemma shape_of_positive tensor transpose_2d :
  Forall (λ d, 0 < d) (ti_dimensions tensor) → Forall (λ d, 0 < d) (shape_of tensor transpose_2d).
Proof. unfold shape_of. destruct transpose_2d; [done|]. by rewrite Forall_reverse. Qed.
Lemma product_shape_of tensor transpose_2d : product (shape_of tensor transpose_2d) = product (ti_dimensions tensor).
Proof.
  unfold shape_of. destruct transpose_2d; [done|]. induction (ti_dimensions tensor) as [|d l IH]; [done|].
  rewrite reverse_cons. unfold product in *. rewrite foldr_app. cbn. rewrite <- IH.
  generalize (reverse l) as k. clear. induction k as [|e k IH]; cbn; [lia|]. rewrite IH. lia.
Qed.

(** What a transcoded tensor holds: the source's elements, moved when it is
    transposed, or finite values of four bytes. *)
Definition plain_payload (tensor : GgufTensorInfo) (bs payload : bytes) (w : Z) (transpose_2d : bool) : Prop :=
  if transpose_2d then
    ∃ ne0 ne1, ti_dimensions tensor = [ne0; ne1] ∧
      ∀ row col k, 0 ≤ row < ne1 → 0 ≤ col < ne0 → 0 ≤ k < w →
        element_byte payload ne1 w col row k = element_byte bs ne0 w row col k
  else payload = bs.
Definition float_payload (payload : bytes) : Prop :=
  ∃ values, payload = concat (map (λ v, to_le 4 (f32_to_bits v)) values) ∧ Forall (λ v, f32_is_finite v = true) values.
Definition payload_ok (tensor : GgufTensorInfo) (bs : bytes) (transpose_2d : bool) (t : TranscodedTensor) : Prop :=
  match ggml_layout (ti_ggml_type tensor) with
  | Ok (mkLayout 1 w) => plain_payload tensor bs (tt_payload t) w transpose_2d
  | Ok _ => tt_dtype t = F32 ∧ float_payload (tt_payload t)
  | _ => False
  end.
Definition transcoded_ok (tensor : GgufTensorInfo) (transpose_2d : bool) (t : TranscodedTensor) : Prop :=
  tt_shape t = shape_of tensor transpose_2d ∧ len (tt_payload t) = dtype_width (tt_dtype t) * product (tt_shape t) ∧
  Forall (λ d, 0 < d) (tt_shape t).

Lemma push_values_yields values payload :
  yields (λ out, len out = len payload + 4 * len values ∧
            out = payload ++ concat (map (λ v, to_le 4 (f32_to_bits v)) values) ∧ Forall (λ v, f32_is_finite v = true) values)
    (fold_result push_value payload values).
Proof.
  revert payload. induction values as [|v values IH]; intros payload; cbn.
  { split_and!; [unfold len; cbn; lia|by rewrite app_nil_r|constructor]. }
  unfold push_value at 1. destruct (f32_is_finite v) eqn:Hf; cbn; [|done].
  eapply yields_impl; [apply IH|]. intros out (Hl & -> & Hall). split_and!.
  - rewrite Hl, len_app, len_cons, len_to_le. lia.
  - by rewrite <- app_assoc.
  - by constructor.
Qed.
Lemma transcode_dequantized_yields tensor values transpose_2d :
  len values = product (ti_dimensions tensor) →
  yields (λ t, transcoded_ok tensor transpose_2d t ∧ tt_dtype t = F32 ∧ float_payload (tt_payload t))
    (transcode_dequantized tensor values transpose_2d).
Proof.
  intros Hl. unfold transcode_dequantized. eapply yields_bind; [apply native_shape_yields|].
  intros shape (-> & Hpos & Htwo) _. eapply (yields_bind (λ vs, len vs = len values)).
  - destruct transpose_2d; [|done]. destruct (ti_dimensions tensor) as [|ne0 [|ne1 [|? ?]]] eqn:Hd; try (unfold len in Htwo; cbn in Htwo; lia).
    eapply yields_bind; [by apply matrix_size_yields|]. intros ? -> _. cbn [fst snd].
    rewrite !Forall_cons in Hpos. destruct Hpos as (H0 & H1 & _). cbn in Hl.
    destruct (Z.ltb_spec (len values) (2 ^ 64)).
    + destruct (transpose_values_gives values ne1 ne0) as (out & -> & Ho & _); [lia..|done].
    + unfold transpose_values, checked_mul_usize, checked_mul_u64. destruct (Z.ltb_spec (ne1 * ne0) (2 ^ 64)); cbn; [lia|done].
  - intros vs Hvs _. eapply (yields_bind (λ _, True)); [by apply yields_ok_or|intros ? _ _].
    eapply yields_bind; [apply push_values_yields|]. intros payload (Hp & Hcat & Hfin) _. cbn.
    split_and!; [split_and!; cbn; [done| |by apply shape_of_positive]|done|by exists vs].
    rewrite Hp, product_shape_of, <- Hl, <- Hvs. unfold len at 1. cbn. lia.
Qed.
Lemma transcode_unquantized_yields tensor bs dtype w transpose_2d :
  dtype_width dtype = w → 0 < w → len bs = product (ti_dimensions tensor) * w → len bs < 2 ^ 64 →
  yields (λ t, transcoded_ok tensor transpose_2d t ∧ plain_payload tensor bs (tt_payload t) w transpose_2d)
    (transcode_unquantized tensor bs dtype w transpose_2d).
Proof.
  intros Hdt Hw Hl Hmax. unfold transcode_unquantized. eapply yields_bind; [apply native_shape_yields|].
  intros shape (-> & Hpos & Htwo) _.
  eapply (yields_bind (λ payload, len payload = len bs ∧ plain_payload tensor bs payload w transpose_2d)).
  - unfold plain_payload. destruct transpose_2d; [|done].
    destruct (ti_dimensions tensor) as [|ne0 [|ne1 [|? ?]]] eqn:Hd; try (unfold len in Htwo; cbn in Htwo; lia).
    eapply yields_bind; [by apply matrix_size_yields|]. intros ? -> _. cbn [fst snd].
    rewrite !Forall_cons in Hpos. destruct Hpos as (H0 & H1 & _). unfold product in Hl. cbn in Hl.
    destruct (transpose_elements_gives bs ne1 ne0 w) as (out & -> & Ho & Hmoved); [lia..|].
    split; [done|]. exists ne0, ne1. split; [done|]. intros. by apply Hmoved.
  - intros payload (Hp & Hplain) _. cbn.
    split; [split_and!; cbn; [done| |by apply shape_of_positive]|done]. rewrite Hp, product_shape_of, Hdt. lia.
Qed.

Lemma byte_len_spec tensor n :
  Forall (λ d, 0 ≤ d) (ti_dimensions tensor) → ggml_tensor_byte_len tensor = Ok n →
  0 ≤ n < 2 ^ 64 ∧ ∀ w, ggml_layout (ti_ggml_type tensor) = Ok (mkLayout 1 w) → n = product (ti_dimensions tensor) * w.
Proof.
  intros Hd. unfold ggml_tensor_byte_len. destruct (ggml_layout _) as [[be bb]| |] eqn:Hlayout; [|done|done].
  assert (0 < be ∧ 0 < bb) as [Hbe Hbb].
  { revert Hlayout. unfold ggml_layout. repeat case_match; try done; intros [= <- <-]; lia. }
  destruct (ti_dimensions tensor) as [|first rest]; cbn [head ok_or]; [done|]. destruct (_ || _); [done|].
  apply Forall_cons in Hd as [Hfirst Hrest]. change (drop 1 (first :: rest)) with rest.
  pose proof (checked_product_yields rest) as Hrows. destruct (checked_product rest) as [rows| |]; [|done|by destruct Hrows].
  cbn in Hrows. subst rows. pose proof (product_nonneg rest Hrest).
  unfold checked_mul_u64. cbn [block_elements block_bytes].
  destruct (Z.ltb_spec (product rest * (first / be)) (2 ^ 64)); cbn [mbind option_bind ok_or]; [|done].
  destruct (Z.ltb_spec (product rest * (first / be) * bb) (2 ^ 64)); cbn [ok_or]; [|done]. intros [= <-].
  pose proof (Z.div_pos first be Hfirst Hbe). split; [split; [nia|done]|]. intros w [= -> ->].
  rewrite Z.div_1_r. unfold product. cbn. lia.
Qed.

Lemma transcode_payload_yields tensor bs transpose_2d n :
  Forall (λ d, 0 ≤ d) (ti_dimensions tensor) → ggml_tensor_byte_len tensor = Ok n → len bs = n →
  yields (λ t, transcoded_ok tensor transpose_2d t ∧ payload_ok tensor bs transpose_2d t)
    (transcode_tensor_payload tensor bs transpose_2d).
Proof.
  intros Hd Hn Hl. destruct (byte_len_spec tensor n Hd Hn) as [Hmax Hplain]. unfold payload_ok.
  assert (∀ m bb decode, 0 ≤ m → (∀ block, len block = m → yields (λ v, len v = bb) (decode block)) →
    yields (λ t, transcoded_ok tensor transpose_2d t ∧ tt_dtype t = F32 ∧ float_payload (tt_payload t))
      (let? values := decode_blocks m decode tensor bs in transcode_dequantized tensor values transpose_2d)) as Hq.
  { intros m bb decode Hm Hdec. eapply yields_bind; [by eapply decode_blocks_yields|].
    intros values Hv _. by apply transcode_dequantized_yields. }
  assert (∀ m bb decode, 0 ≤ m → (∀ block, len block = m → yields (λ v, len v = bb) (decode block)) →
    yields (λ t, transcoded_ok tensor transpose_2d t ∧ tt_dtype t = F32 ∧ float_payload (tt_payload t))
      (let? values := (let? output := decode_blocks m decode tensor bs in all_finite output) in
       transcode_dequantized tensor values transpose_2d)) as Hk.
  { intros m bb decode Hm Hdec. eapply (yields_bind (λ v, len v = product (ti_dimensions tensor))).
    - eapply yields_bind; [by eapply decode_blocks_yields|]. intros values Hv _. by apply all_finite_yields.
    - intros values Hv _. by apply transcode_dequantized_yields. }
  assert (∀ dtype w, dtype_width dtype = w → 0 < w → ggml_layout (ti_ggml_type tensor) = Ok (mkLayout 1 w) →
    yields (λ t, transcoded_ok tensor transpose_2d t ∧ plain_payload tensor bs (tt_payload t) w transpose_2d)
      (transcode_unquantized tensor bs dtype w transpose_2d)) as Hu.
  { intros dtype w Hdt Hw Hlayout. apply transcode_unquantized_yields; [done|done|by rewrite Hl, <- Hplain|lia]. }
  clear Hn Hplain. unfold transcode_tensor_payload, ggml_layout, decode_q8_0, decode_q4_0, decode_q4_k, decode_q5_k, decode_q6_k in *. revert Hu.
  destruct (ti_ggml_type tensor) as [|p|p]; [|do 5 (try (destruct p as [p|p|]; try done))|done]; intros Hu;
    first [by apply Hu
          |eapply Hq; [done|first [exact q8_0_block_yields|exact q4_0_block_yields]]
          |eapply Hk; [done|first [exact q4_k_block_yields|exact q5_k_block_yields|exact q6_k_block_yields]]].
Qed.

Lemma transcode_yields {S} `{ExactSource S} (source : S) model tensor transpose_2d :
  Forall (λ d, 0 ≤ d) (ti_dimensions tensor) →
  yields (λ t, transcoded_ok tensor transpose_2d t ∧
            ∃ bs, gguf_tensor_bytes_from_source source model tensor = Ok bs ∧ payload_ok tensor bs transpose_2d t)
    (transcode_tensor_from_source source model tensor transpose_2d).
Proof.
  intros Hd. unfold transcode_tensor_from_source. destruct (_ || _); [done|]. destruct (_ && _); [done|].
  eapply (yields_bind (λ bs, ∃ n, ggml_tensor_byte_len tensor = Ok n ∧ len bs = n)).
  - unfold gguf_tensor_bytes_from_source, tensor_span.
    pose proof (byte_len_no_panic source) as Hbl. destruct (byte_len source) as [file_len| |]; [|done|done]. cbn.
    destruct (negb _); [done|]. destruct (ggml_tensor_byte_len tensor) as [n|e|] eqn:Hn; [|done|].
    2: { exfalso. revert Hn. apply byte_len_calm. }
    destruct (byte_len_spec tensor n Hd Hn) as [Hmax _].
    destruct (checked_add_u64 _ _) as [start|]; cbn; [|done]. destruct (checked_add_u64 _ _) as [stop|]; cbn; [|done].
    destruct (file_len <? stop); cbn; [done|]. unfold try_usize, try_u64. destruct (n <? 2 ^ 64) eqn:Hn64; cbn; [|done].
    pose proof (exact_no_panic source start n). destruct (read_exact_at source start n) as [bs| |] eqn:Hr; cbn; [|done|done].
    exists n. split; [done|]. apply exact_len in Hr; [done|lia].
  - intros bs (n & Hn & Hl) Hbs. eapply yields_impl; [by eapply transcode_payload_yields|].
    intros t [Ht Hp]. split; [done|]. by exists bs.
Qed.

(** C36: A tensor of the file transcodes without a panic to a tensor of its shape, the
    dimensions reversed or as they are when transposed, whose payload has the length its
    type and shape give: the source's own bytes for a plain type, each element at its
    transposed place when asked, and finite values of four bytes for a quantized one. *)
Theorem transcode_sound {S} `{ExactSource S} (source : S) model tensor transpose_2d :
  Forall (λ d, 0 ≤ d) (ti_dimensions tensor) →
  yields (λ t, transcoded_ok tensor transpose_2d t ∧
            ∃ bs, gguf_tensor_bytes_from_source source model tensor = Ok bs ∧ payload_ok tensor bs transpose_2d t)
    (transcode_tensor_from_source source model tensor transpose_2d).
Proof. exact (transcode_yields source model tensor transpose_2d). Qed.

(** Transposing a matrix of elements of any width puts every element at its transposed
    place, and transposing the outcome gives the matrix back. *)
Theorem transpose_round_trip bs rows cols w :
  0 ≤ rows → 0 ≤ cols → 0 < w → len bs = rows * cols * w → len bs < 2 ^ 64 →
  ∃ out, transpose_elements bs rows cols w = Ok out ∧ len out = len bs ∧
    (∀ row col k, 0 ≤ row < rows → 0 ≤ col < cols → 0 ≤ k < w →
       element_byte out rows w col row k = element_byte bs cols w row col k) ∧
    transpose_elements out cols rows w = Ok bs.
Proof.
  intros Hr Hc Hw Hl Hmax. destruct (transpose_elements_gives bs rows cols w) as (out & Hout & Ho & Hmoved); [done..|].
  destruct (transpose_elements_gives out cols rows w) as (back & Hback & Hb & Hagain); [lia..|].
  exists out. split_and!; [done|done|intros; by apply Hmoved|]. rewrite Hback. f_equal.
  apply (element_byte_ext back bs rows cols w); [done|done|lia|done|].
  intros row col k ? ? ?. rewrite Hagain by done. by apply Hmoved.
Qed.
Lemma transpose_round_trip_witness :
  0 < 2 ∧ ∃ out, transpose_elements (string_bytes "abcdef") 1 3 2 = Ok out ∧ transpose_elements out 3 1 2 = Ok (string_bytes "abcdef").
Proof.
  split; [lia|].
  destruct (transpose_round_trip (string_bytes "abcdef") 1 3 2 ltac:(lia) ltac:(lia) ltac:(lia) eq_refl eq_refl) as (out & H1 & _ & _ & H2).
  exists out. split; [exact H1|exact H2].
Defined.
Example transpose_small : transpose_elements (string_bytes "abcdef") 2 3 1 = Ok (string_bytes "adbecf").
Proof. vm_compute. reflexivity. Qed.

Definition sample_file : GgufModel := mkModel 3 32 ∅ [] 0 (len sample_gguf).
Definition sample_matrix : GgufTensorInfo := mkInfo "w" [2; 3] GGML_TYPE_F16 4.
Lemma sample_transcodes : is_ok (transcode_tensor_from_source sample_gguf sample_file sample_matrix true) = true.
Proof. vm_compute. reflexivity. Qed.
Lemma transcode_sound_witness :
  ∃ t, transcode_tensor_from_source sample_gguf sample_file sample_matrix true = Ok t ∧
    tt_shape t = [2; 3] ∧ len (tt_payload t) = dtype_width (tt_dtype t) * product (tt_shape t).
Proof.
  pose proof sample_transcodes as Hok.
  assert (Forall (λ d, 0 ≤ d) (ti_dimensions sample_matrix)) as Hd by (repeat constructor; lia).
  pose proof (transcode_sound (H0:=slice_exact) sample_gguf sample_file sample_matrix true Hd) as Hs.
  destruct (transcode_tensor_from_source sample_gguf sample_file sample_matrix true) as [t| |]; [|done|done].
  exists t. destruct Hs as [(Hshape & Hlen & _) _]. split; [done|]. split; [exact Hshape|exact Hlen].
Defined.

(** ** Packed scales

    The K-quants pack eight 6-bit scales and eight 6-bit minima in twelve bytes:
    the low 6 bits of the first eight bytes hold the first four of each, their
    top bits the tops of the last four, whose low nibbles are in the last four
    bytes. *)
Definition sixth (l : list Z) (i : nat) : Z := nth i l 0.
Definition pack_scales (scales minima : list Z) : bytes :=
  map (λ j, byte_of_Z (Z.lor (sixth scales j) (Z.shiftl (Z.shiftr (sixth scales (j + 4)) 4) 6))) (seq 0 4) ++
  map (λ j, byte_of_Z (Z.lor (sixth minima j) (Z.shiftl (Z.shiftr (sixth minima (j + 4)) 4) 6))) (seq 0 4) ++
  map (λ j, byte_of_Z (Z.lor (Z.land (sixth scales (j + 4)) 15) (Z.shiftl (Z.land (sixth minima (j + 4)) 15) 4))) (seq 0 4).

Lemma pack_at scales minima (j : nat) :
  (j < 4)%nat →
  pack_scales scales minima !! j = Some (byte_of_Z (Z.lor (sixth scales j) (Z.shiftl (Z.shiftr (sixth scales (j + 4)) 4) 6))) ∧
  pack_scales scales minima !! (j + 4)%nat = Some (byte_of_Z (Z.lor (sixth minima j) (Z.shiftl (Z.shiftr (sixth minima (j + 4)) 4) 6))) ∧
  pack_scales scales minima !! (j + 8)%nat =
    Some (byte_of_Z (Z.lor (Z.land (sixth scales (j + 4)) 15) (Z.shiftl (Z.land (sixth minima (j + 4)) 15) 4))).
Proof. intros Hj. do 4 (destruct j as [|j]; [by split_and!|]). lia. Qed.

(** A fact of all pairs of 6-bit numbers, by computation. *)
Definition pairs_check (p : Z → Z → bool) : bool := forallb (λ a, forallb (p a) (upto 64)) (upto 64).
Lemma pairs_checked p a b : pairs_check p = true → 0 ≤ a < 64 → 0 ≤ b < 64 → p a b = true.
Proof.
  unfold pairs_check. rewrite forallb_forall. intros Hp Ha%elem_of_upto%list_elem_of_In Hb%elem_of_upto%list_elem_of_In.
  specialize (Hp a Ha). rewrite forallb_forall in Hp. by apply Hp.
Qed.
Lemma pack_low a b : 0 ≤ a < 64 → 0 ≤ b < 64 → Z.land (Z_of_byte (byte_of_Z (Z.lor a (Z.shiftl (Z.shiftr b 4) 6)))) 0x3f = a.
Proof. intros Ha Hb. apply Z.eqb_eq. revert Ha Hb. by apply (pairs_checked (λ a b, Z.land (Z_of_byte (byte_of_Z (Z.lor a (Z.shiftl (Z.shiftr b 4) 6)))) 0x3f =? a)). Qed.
Lemma pack_top a b : 0 ≤ a < 64 → 0 ≤ b < 64 → Z.shiftr (Z_of_byte (byte_of_Z (Z.lor a (Z.shiftl (Z.shiftr b 4) 6)))) 6 = Z.shiftr b 4.
Proof. intros Ha Hb. apply Z.eqb_eq. revert Ha Hb. by apply (pairs_checked (λ a b, Z.shiftr (Z_of_byte (byte_of_Z (Z.lor a (Z.shiftl (Z.shiftr b 4) 6)))) 6 =? Z.shiftr b 4)). Qed.
Lemma pack_scale_nibble a b : 0 ≤ a < 64 → 0 ≤ b < 64 →
  Z.lor (low_nibble (byte_of_Z (Z.lor (Z.land a 15) (Z.shiftl (Z.land b 15) 4)))) (Z.shiftl (Z.shiftr a 4) 4) = a.
Proof. intros Ha Hb. apply Z.eqb_eq. revert Ha Hb. by apply (pairs_checked (λ a b, Z.lor (low_nibble (byte_of_Z (Z.lor (Z.land a 15) (Z.shiftl (Z.land b 15) 4)))) (Z.shiftl (Z.shiftr a 4) 4) =? a)). Qed.
Lemma pack_min_nibble a b : 0 ≤ a < 64 → 0 ≤ b < 64 →
  Z.lor (high_nibble (byte_of_Z (Z.lor (Z.land a 15) (Z.shiftl (Z.land b 15) 4)))) (Z.shiftl (Z.shiftr b 4) 4) = b.
Proof. intros Ha Hb. apply Z.eqb_eq. revert Ha Hb. by apply (pairs_checked (λ a b, Z.lor (high_nibble (byte_of_Z (Z.lor (Z.land a 15) (Z.shiftl (Z.land b 15) 4)))) (Z.shiftl (Z.shiftr b 4) 4) =? b)). Qed.

(** [scale_min_k4] unpacks what the K-quant layout packs: the scale and the
    minimum of each of the eight sub-blocks. *)
Theorem scale_min_unpacks scales minima index :
  (∀ i, 0 ≤ sixth scales i < 64) → (∀ i, 0 ≤ sixth minima i < 64) → 0 ≤ index < 8 →
  scale_min_k4 index (pack_scales scales minima) = Ok (sixth scales (Z.to_nat index), sixth minima (Z.to_nat index)).
Proof.
  intros Hs Hm Hi. unfold scale_min_k4. change (len (pack_scales scales minima)) with 12.
  destruct (Z.leb_spec 8 index); [lia|]. cbn [Z.eqb negb orb Pos.eqb]. unfold at_index, or_panic.
  destruct (Z.ltb_spec index 4).
  - destruct (pack_at scales minima (Z.to_nat index)) as (E0 & E4 & _); [lia|].
    replace (Z.to_nat (index + 4)) with (Z.to_nat index + 4)%nat by lia. by rewrite E0, E4, !pack_low by done.
  - destruct (pack_at scales minima (Z.to_nat (index - 4))) as (E0 & E4 & E8); [lia|].
    replace (Z.to_nat (index - 4) + 8)%nat with (Z.to_nat (index + 4)) in E8 by lia.
    replace (Z.to_nat (index - 4) + 4)%nat with (Z.to_nat index) in * by lia.
    by rewrite E8, E0, E4, !pack_top, pack_scale_nibble, pack_min_nibble by done.
Qed.
Lemma scale_min_unpacks_witness :
  0 ≤ 6 < 8 ∧ scale_min_k4 6 (pack_scales [1; 2; 3; 4; 5; 6; 63; 8] [9; 10; 11; 12; 13; 14; 33; 16]) = Ok (63, 33).
Proof.
  split; [lia|]. apply (scale_min_unpacks [1; 2; 3; 4; 5; 6; 63; 8] [9; 10; 11; 12; 13; 14; 33; 16] 6); [| |lia];
    intros i; do 8 (destruct i as [|i]; [cbn; lia|]); destruct i; cbn; lia.
Defined.
End GgufTranscodeTheorems.
