(* ===== verification/Lowering.v ===== *)
(** Lowering a LLaMA source model to a native graph:
    src/crates/ntd-assimilation/src/gguf/lower.rs and the sink of shards.rs.

    The graph builder is a state, the sink an optional second state in it; a method
    of the builder is an operation that keeps what it did before an error.  The
    texts of formatted errors come from a class. *)
From stdpp Require Import pretty.
From S2P Require Import Prelude Text Collections Effects Descriptors NativeTensor NativeTokenizer Generative Capsule IrCodec TextTokenizer Gpt2 Ir Float32 Tensor Gguf GgufTranscode.

Module Lowering.
Import Gguf GgufTranscode.

(** The [Debug] and [Display] texts of values in error messages. *)
Class LoweringMessages := {
  show_f32 : f32 → string;
  debug_bpe_error : TextTokenizer.TokenizerError → string;
  debug_tokenizer_error : NativeTokenizerError → string;
  debug_validation_error : ValidationError → string;
}.

Record LlamaConfig := mkLlamaConfig {
  lc_context_length : Z;
  lc_embedding_length : Z;
  lc_block_count : Z;
  lc_feed_forward_length : Z;
  lc_head_count : Z;
  lc_head_count_kv : Z;
  lc_head_dim : Z;
  lc_rms_epsilon : f32;
  lc_rope_dimension_count : Z;
  lc_rope_freq_base : f32;
}.
Record LlamaTensorBinding := mkBinding { lb_source_name : string; lb_tensor_id : Z; lb_graph_value : ValueId }.
Record TensorShardRef := mkShardRef {
  sr_descriptor : TensorDescriptor;
  sr_graph_value : option ValueId;
  sr_logical_len : Z;
  sr_hash : Digest;
}.

(** ** Configuration *)
Definition required_u32 (model : GgufModel) (key : string) : gguf_result Z :=
  let? value := ok_or (gm_metadata model !! key) (MissingMetadata key) in
  ok_or (as_u32 value) (InvalidMetadataType key).
Definition optional_u32 (model : GgufModel) (key : string) : gguf_result (option Z) := optional (gm_metadata model) as_u32 key.
Definition numeric_f32 (value : GgufValue) : option f32 :=
  match value with
  | Float32 v => Some v
  | Float64 bits => if f64_is_finite (f64_from_bits bits) then Some (f32_of_f64 (f64_from_bits bits)) else None
  | Uint8 v | Uint16 v | Uint32 v | Int8 v | Int16 v | Int32 v => Some (f32_of_Z v)
  | _ => None
  end.
Definition optional_f32 (model : GgufModel) (key : string) : gguf_result (option f32) :=
  optional (gm_metadata model) numeric_f32 key.
Definition required_f32 (model : GgufModel) (key : string) : gguf_result f32 :=
  let? value := optional_f32 model key in ok_or value (MissingMetadata key).

Section lowering.
Context `{LoweringMessages}.

(** The loop over the metadata: scaling of rotary positions is refused. *)
Definition check_scaling (entry : string * GgufValue) : gguf_result unit :=
  let '(key, value) := entry in
  if bool_decide (string_bytes "llama.rope.scaling" `prefix_of` string_bytes key) then
    if bool_decide (string_bytes ".type" `suffix_of` string_bytes key) && bool_decide (as_string value = Some "none"%string)
    then Ok tt
    else Err (UnsupportedModelFeature ("RoPE scaling metadata '" +:+ key +:+ "' is not supported yet"))
  else Ok tt.
Definition f32_abs (x : f32) : f32 := if f32_lt x f32_zero then f32_neg x else x.
(** [(base - 10_000.0).abs() > 0.01] *)
Definition far_from_default (base : f32) : bool :=
  f32_lt (f32_div f32_one (f32_of_Z 100)) (f32_abs (f32_sub base (f32_of_Z 10000))).
Definition dimensions_invalid (context embedding blocks feed_forward heads heads_kv : Z) (epsilon : f32) : bool :=
  (context =? 0) || (embedding =? 0) || (blocks =? 0) || (feed_forward =? 0) || (heads =? 0) || (heads_kv =? 0)
  || negb (embedding mod heads =? 0) || negb (heads mod heads_kv =? 0)
  || negb (f32_is_finite epsilon) || f32_le epsilon f32_zero.
Definition LlamaConfig_from_model (model : GgufModel) : gguf_result LlamaConfig :=
  let? architecture := architecture model in
  if negb (bool_decide (architecture = "llama"%string)) then Err (UnsupportedArchitecture architecture)
  else
    let? context_length := required_u32 model "llama.context_length" in
    let? embedding_length := required_u32 model "llama.embedding_length" in
    let? block_count := required_u32 model "llama.block_count" in
    let? feed_forward_length := required_u32 model "llama.feed_forward_length" in
    let? head_count := required_u32 model "llama.attention.head_count" in
    let? head_count_kv := optional_u32 model "llama.attention.head_count_kv" in
    let head_count_kv := default head_count head_count_kv in
    let? rms_epsilon := required_f32 model "llama.attention.layer_norm_rms_epsilon" in
    if dimensions_invalid context_length embedding_length block_count feed_forward_length head_count head_count_kv rms_epsilon
    then Err (InvalidModelConfig "llama dimensions")
    else
      let head_dim := embedding_length / head_count in
      let? rope_dimension_count := optional_u32 model "llama.rope.dimension_count" in
      let rope_dimension_count := default head_dim rope_dimension_count in
      if negb (rope_dimension_count =? head_dim) then
        Err (UnsupportedModelFeature ("partial rotary dimension " +:+ pretty rope_dimension_count +:+ " != head_dim " +:+ pretty head_dim))
      else
        let? rope_freq_base := optional_f32 model "llama.rope.freq_base" in
        let rope_freq_base := default (f32_of_Z 10000) rope_freq_base in
        if negb (f32_is_finite rope_freq_base) || far_from_default rope_freq_base then
          Err (UnsupportedModelFeature ("RoPE frequency base " +:+ show_f32 rope_freq_base +:+ " requires parameterized RotaryPosition"))
        else
          let? _ := check_all check_scaling (btree_iter (gm_metadata model)) in
          Ok (mkLlamaConfig context_length embedding_length block_count feed_forward_length head_count head_count_kv
                head_dim rms_epsilon rope_dimension_count rope_freq_base).

(** ** Tokenizer *)
Definition feature {X} (o : option X) (reason : string) : gguf_result X := ok_or o (UnsupportedModelFeature reason).
Definition unblocked (blocker : option string) : gguf_result unit :=
  match blocker with Some blocker => Err (UnsupportedModelFeature blocker) | None => Ok tt end.
Definition lower_tokenizer (source : GgufTokenizer) : gguf_result NativeTokenizerDescriptor :=
  let native := NativeTokenizer.mkTokenizer (tk_tokens source) (tk_bos_token source) (tk_eos_token source) (tk_unknown_token source) in
  if bool_decide (tk_model source = "llama"%string) then
    let? _ := unblocked (llama_spm_blocker source) in
    let? policy := feature (resolved_llama_spm_policy source) "LLaMA SPM policy requested for non-LLaMA tokenizer" in
    let? scores := feature (tk_scores source) "missing LLaMA tokenizer scores" in
    let? token_types := feature (tk_token_types source) "missing LLaMA tokenizer token types" in
    Ok (native (LlamaSpm (map f32_to_bits scores) token_types (lp_add_space_prefix policy) (lp_add_bos_token policy)
                  (lp_add_eos_token policy)))
  else if bool_decide (tk_model source = "gpt2"%string) then
    let? _ := unblocked (gpt2_bpe_blocker source) in
    let? add_bos_token := feature (tk_add_bos_token source) "missing GPT-2 add-BOS policy" in
    let? add_eos_token := feature (tk_add_eos_token source) "missing GPT-2 add-EOS policy" in
    Ok (native (Gpt2Bpe (tk_merges source) add_bos_token add_eos_token))
  else Err (UnsupportedModelFeature
         ("tokenizer model '" +:+ tk_model source +:+ "' requires a native source-equivalent tokenizer implementation")).
(** The byte-pair tokenizer must construct, and every tokenizer must encode. *)
Definition check_bpe (tokenizer : NativeTokenizerDescriptor) : gguf_result unit :=
  match NativeTokenizer.tk_model tokenizer with
  | Gpt2Bpe merges add_bos_token add_eos_token =>
      let? _ := map_err (λ e, NativeLowering ("gpt2 tokenizer: " +:+ debug_bpe_error e))
        (Gpt2.Gpt2BpeTokenizer_new (NativeTokenizer.tk_tokens tokenizer) merges
           (Gpt2.mkGpt2Config (tk_bos tokenizer) (tk_eos tokenizer) (tk_unknown tokenizer) add_bos_token add_eos_token)) in
      Ok tt
  | _ => Ok tt
  end.
Definition check_tokenizer (tokenizer : NativeTokenizerDescriptor) : gguf_result unit :=
  let? _ := check_bpe tokenizer in
  let? _ := map_err (λ e, NativeLowering ("tokenizer: " +:+ debug_tokenizer_error e)) (encode_native_tokenizer tokenizer) in
  Ok tt.
End lowering.

(** ** The graph builder *)
Class TensorShardSink (K : Type) := store_tensor : NativeTensor → op K GgufError TensorShardRef.

Record GraphBuilder (K : Type) := mkGraphBuilder {
  gb_next_value : Z;
  gb_next_node : Z;
  gb_next_tensor : Z;
  gb_inputs : list ValueDecl;
  gb_nodes : list Node;
  gb_tensors : list NativeTensor;
  gb_tensor_shards : list TensorShardRef;
  gb_tensor_sink : option K;
  gb_bindings : list LlamaTensorBinding;
}.
#[global] Arguments mkGraphBuilder {_}.
#[global] Arguments gb_next_value {_}. #[global] Arguments gb_next_node {_}. #[global] Arguments gb_next_tensor {_}.
#[global] Arguments gb_inputs {_}. #[global] Arguments gb_nodes {_}. #[global] Arguments gb_tensors {_}.
#[global] Arguments gb_tensor_shards {_}. #[global] Arguments gb_tensor_sink {_}. #[global] Arguments gb_bindings {_}.

Section builder.
Context {K : Type} `{TensorShardSink K} `{LoweringMessages}.
Implicit Types b : GraphBuilder K.
Notation build := (op (GraphBuilder K) GgufError).

Definition GraphBuilder_new (sink : option K) : GraphBuilder K := mkGraphBuilder 0 0 1 [] [] [] [] sink [].

Definition set_next_value v b := mkGraphBuilder v (gb_next_node b) (gb_next_tensor b) (gb_inputs b) (gb_nodes b)
  (gb_tensors b) (gb_tensor_shards b) (gb_tensor_sink b) (gb_bindings b).
Definition set_next_node n b := mkGraphBuilder (gb_next_value b) n (gb_next_tensor b) (gb_inputs b) (gb_nodes b)
  (gb_tensors b) (gb_tensor_shards b) (gb_tensor_sink b) (gb_bindings b).
Definition set_next_tensor t b := mkGraphBuilder (gb_next_value b) (gb_next_node b) t (gb_inputs b) (gb_nodes b)
  (gb_tensors b) (gb_tensor_shards b) (gb_tensor_sink b) (gb_bindings b).
Definition push_input decl b := mkGraphBuilder (gb_next_value b) (gb_next_node b) (gb_next_tensor b) (gb_inputs b ++ [decl])
  (gb_nodes b) (gb_tensors b) (gb_tensor_shards b) (gb_tensor_sink b) (gb_bindings b).
Definition push_node node b := mkGraphBuilder (gb_next_value b) (gb_next_node b) (gb_next_tensor b) (gb_inputs b)
  (gb_nodes b ++ [node]) (gb_tensors b) (gb_tensor_shards b) (gb_tensor_sink b) (gb_bindings b).
Definition push_tensor tensor b := mkGraphBuilder (gb_next_value b) (gb_next_node b) (gb_next_tensor b) (gb_inputs b)
  (gb_nodes b) (gb_tensors b ++ [tensor]) (gb_tensor_shards b) (gb_tensor_sink b) (gb_bindings b).
Definition push_shard shard b := mkGraphBuilder (gb_next_value b) (gb_next_node b) (gb_next_tensor b) (gb_inputs b)
  (gb_nodes b) (gb_tensors b) (gb_tensor_shards b ++ [shard]) (gb_tensor_sink b) (gb_bindings b).
Definition set_sink (sink : K) b := mkGraphBuilder (gb_next_value b) (gb_next_node b) (gb_next_tensor b) (gb_inputs b)
  (gb_nodes b) (gb_tensors b) (gb_tensor_shards b) (Some sink) (gb_bindings b).
Definition push_binding binding b := mkGraphBuilder (gb_next_value b) (gb_next_node b) (gb_next_tensor b) (gb_inputs b)
  (gb_nodes b) (gb_tensors b) (gb_tensor_shards b) (gb_tensor_sink b) (gb_bindings b ++ [binding]).
Definition modify (f : GraphBuilder K → GraphBuilder K) : build unit := λ b, (f b, Ok tt).

(** The counters are [u32]. *)
Definition allocate_value : build ValueId := λ b,
  match try_u32 (gb_next_value b + 1) with
  | Some next => (set_next_value next b, Ok (gb_next_value b))
  | None => (b, Err Overflow)
  end.
Definition next_node : build NodeId := λ b,
  match try_u32 (gb_next_node b + 1) with
  | Some next => (set_next_node next b, Ok (gb_next_node b))
  | None => (b, Err Overflow)
  end.
Definition next_tensor : build Z := λ b,
  match try_u32 (gb_next_tensor b + 1) with
  | Some next => (set_next_tensor next b, Ok (gb_next_tensor b))
  | None => (b, Err Overflow)
  end.

Definition value_type (dtype : DType) (rank : Z) : ValueType := if rank =? 0 then Scalar dtype else Tensor dtype rank.
Definition add_external_input (dtype : DType) (rank : Z) : build ValueId :=
  do! value := allocate_value in
  do! _ := modify (push_input (mkValueDecl value (Tensor dtype rank))) in
  op_ret value.
(** [sink.store_tensor(&tensor)?], or the tensor kept in memory. *)
Definition keep_tensor (tensor : NativeTensor) : build unit := λ b,
  match gb_tensor_sink b with
  | Some sink =>
      let '(sink, stored) := store_tensor tensor sink in
      let b := set_sink sink b in
      match stored with
      | Ok shard => (push_shard shard b, Ok tt)
      | Err e => (b, Err e)
      | Panic => (b, Panic)
      end
  | None => (push_tensor tensor b, Ok tt)
  end.
Definition add_native_tensor (source_name : string) (dtype : DType) (shape : list Z) (payload : bytes) : build ValueId :=
  do! value := allocate_value in
  do! rank := op_lift (ok_or (try_u8 (len shape)) Overflow) in
  do! _ := modify (push_input (mkValueDecl value (value_type dtype rank))) in
  do! tensor_id := next_tensor in
  do! byte_len := op_lift (ok_or (try_u64 (len payload)) LimitExceeded) in
  do! _ := keep_tensor (mkNativeTensor (mkTensorDescriptor tensor_id dtype shape byte_len) (Some value) QNone payload) in
  do! _ := modify (push_binding (mkBinding source_name tensor_id value)) in
  op_ret value.
Definition add_constant_f32_scalar (value : f32) : build ValueId :=
  if negb (f32_is_finite value) then op_err InvalidTensor
  else add_native_tensor "ntd97.constant.scalar" F32 [] (to_le 4 (f32_to_bits value)).
Definition add_constant_f32_vector (values : list f32) : build ValueId :=
  if bool_decide (values = []) || existsb (λ v, negb (f32_is_finite v)) values then op_err InvalidTensor
  else
    do! _ := op_lift (ok_or (checked_mul_usize (len values) 4) Overflow) in
    let payload := concat (map (λ v, to_le 4 (f32_to_bits v)) values) in
    do! n := op_lift (ok_or (try_u64 (len values)) LimitExceeded) in
    add_native_tensor "ntd97.constant.vector" F32 [n] payload.
Definition add_node (o : TensorOp) (inputs : list ValueId) (dtype : DType) (rank : Z) : build ValueId :=
  do! output := allocate_value in
  do! node_id := next_node in
  do! _ := modify (push_node (mkNode node_id (OpTensor o) inputs [mkValueDecl output (value_type dtype rank)])) in
  op_ret output.
Definition finish (outputs : list ValueId) : build Graph := λ b,
  let graph := mkGraph IrVersion_CURRENT (gb_inputs b) outputs (gb_nodes b) in
  (b, let? _ := map_err (λ e, NativeLowering ("graph: " +:+ debug_validation_error e)) (Graph_validate graph) in Ok graph).
End builder.

(** ** Source tensors *)
Record LoweredLlamaParts := mkParts {
  lp_config : LlamaConfig;
  lp_graph : Graph;
  lp_tensors : list NativeTensor;
  lp_tensor_shards : list TensorShardRef;
  lp_tokenizer : NativeTokenizerDescriptor;
  lp_token_input : ValueId;
  lp_distribution_output : Z;
  lp_vocabulary_size : Z;
  lp_bindings : list LlamaTensorBinding;
}.
Record LoweredLlamaModel := mkLowered {
  ll_config : LlamaConfig;
  ll_graph : Graph;
  ll_tensors : list NativeTensor;
  ll_tokenizer : NativeTokenizerDescriptor;
  ll_token_input : ValueId;
  ll_distribution_output : Z;
  ll_vocabulary_size : Z;
  ll_bindings : list LlamaTensorBinding;
}.
Record StreamedLoweredLlamaModel := mkStreamed {
  sl_config : LlamaConfig;
  sl_graph : Graph;
  sl_tensor_shards : list TensorShardRef;
  sl_tokenizer : NativeTokenizerDescriptor;
  sl_token_input : ValueId;
  sl_distribution_output : Z;
  sl_vocabulary_size : Z;
  sl_bindings : list LlamaTensorBinding;
}.
Definition source_table (model : GgufModel) : gmap string GgufTensorInfo :=
  foldl (λ m t, <[ti_name t := t]> m) ∅ (gm_tensors model).
(** [{:?}] of a slice of numbers. *)
Definition debug_list (l : list Z) : string := "[" +:+ String.concat ", " (map pretty l) +:+ "]".

Section lower.
Context {K : Type} `{TensorShardSink K} `{LoweringMessages} {S : Type} `{GgufByteSource S}.
Context (source : S) (model : GgufModel).
(** The builder and the names consumed so far. *)
Notation lower := (op (GraphBuilder K * gset string) GgufError).

Definition consume (name : string) : lower unit := λ s, ((s.1, {[name]} ∪ s.2), Ok tt).
Definition source_add (name : string) (expected : list Z) (transpose_2d : bool) : lower ValueId :=
  do! tensor := op_lift (ok_or (source_table model !! name) (MissingTensor name)) in
  if negb (bool_decide (ti_dimensions tensor = expected)) then
    op_err (UnsupportedModelFeature ("tensor '" +:+ name +:+ "' shape " +:+ debug_list (ti_dimensions tensor) +:+
              " != expected " +:+ debug_list expected))
  else
    do! transcoded := op_lift (transcode_tensor_from_source source model tensor transpose_2d) in
    do! _ := consume name in
    on_fst (add_native_tensor name (tt_dtype transcoded) (tt_shape transcoded) (tt_payload transcoded)).
Definition node (o : TensorOp) (inputs : list ValueId) (rank : Z) : lower ValueId := on_fst (add_node o inputs F32 rank).
Definition block_name (layer : Z) (name : string) : string := "blk." +:+ pretty layer +:+ "." +:+ name +:+ ".weight".

(** The values a layer shares with the others. *)
Record Shared := mkShared {
  sh_positions : ValueId;
  sh_epsilon : ValueId;
  sh_query_shape : ValueId;
  sh_kv_shape : ValueId;
  sh_flatten_shape : ValueId;
}.
Definition lower_layer (config : LlamaConfig) (kv_width : Z) (sh : Shared) (hidden : ValueId) (layer : Z) : lower ValueId :=
  let embedding := lc_embedding_length config in
  let feed_forward := lc_feed_forward_length config in
  let epsilon := sh_epsilon sh in
  do! attn_norm := source_add (block_name layer "attn_norm") [embedding] false in
  do! q_weight := source_add (block_name layer "attn_q") [embedding; embedding] true in
  do! k_weight := source_add (block_name layer "attn_k") [embedding; kv_width] true in
  do! v_weight := source_add (block_name layer "attn_v") [embedding; kv_width] true in
  do! attn_output := source_add (block_name layer "attn_output") [embedding; embedding] true in
  do! ffn_norm := source_add (block_name layer "ffn_norm") [embedding] false in
  do! ffn_gate := source_add (block_name layer "ffn_gate") [embedding; feed_forward] true in
  do! ffn_up := source_add (block_name layer "ffn_up") [embedding; feed_forward] true in
  do! ffn_down := source_add (block_name layer "ffn_down") [feed_forward; embedding] true in
  do! normed := node RmsNorm [hidden; attn_norm; epsilon] 2 in
  do! q := node MatMul [normed; q_weight] 2 in
  do! k := node MatMul [normed; k_weight] 2 in
  do! v := node MatMul [normed; v_weight] 2 in
  do! q := node Reshape [q; sh_query_shape sh] 3 in
  do! k := node Reshape [k; sh_kv_shape sh] 3 in
  do! v := node Reshape [v; sh_kv_shape sh] 3 in
  do! q := node RotaryPosition [q; sh_positions sh] 3 in
  do! k := node RotaryPosition [k; sh_positions sh] 3 in
  do! attention := node CausalAttention [q; k; v] 3 in
  do! attention := node Reshape [attention; sh_flatten_shape sh] 2 in
  do! attention := node MatMul [attention; attn_output] 2 in
  do! residual := node Add [hidden; attention] 2 in
  do! ffn_input := node RmsNorm [residual; ffn_norm; epsilon] 2 in
  do! gate := node MatMul [ffn_input; ffn_gate] 2 in
  do! gate := node Silu [gate] 2 in
  do! up := node MatMul [ffn_input; ffn_up] 2 in
  do! gated := node Mul [gate; up] 2 in
  do! down := node MatMul [gated; ffn_down] 2 in
  node Add [residual; down] 2.
Fixpoint lower_layers (config : LlamaConfig) (kv_width : Z) (sh : Shared) (hidden : ValueId) (layers : list Z) : lower ValueId :=
  match layers with
  | [] => op_ret hidden
  | layer :: rest =>
      do! hidden := lower_layer config kv_width sh hidden layer in
      lower_layers config kv_width sh hidden rest
  end.
Definition check_consumed (consumed : gset string) (tensor : GgufTensorInfo) : gguf_result unit :=
  if bool_decide (ti_name tensor ∈ consumed) then Ok tt
  else Err (UnsupportedModelFeature ("unconsumed model tensor '" +:+ ti_name tensor +:+ "'")).
Definition reject_unconsumed_model_tensors (consumed : gset string) : gguf_result unit :=
  check_all (check_consumed consumed) (gm_tensors model).

(** The graph after its token input: constants, the embedding, the layers and the output. *)
Definition lower_body (config : LlamaConfig) (vocab : Z) (token_input : ValueId) : lower (ValueId * Graph) :=
  let embedding := lc_embedding_length config in
  do! positions := on_fst (add_node PositionIds [token_input] I32 1) in
  do! epsilon := on_fst (add_constant_f32_scalar (lc_rms_epsilon config)) in
  do! query_shape := on_fst (add_constant_f32_vector
    [f32_zero; f32_of_Z (lc_head_count config); f32_of_Z (lc_head_dim config)]) in
  do! kv_shape := on_fst (add_constant_f32_vector
    [f32_zero; f32_of_Z (lc_head_count_kv config); f32_of_Z (lc_head_dim config)]) in
  do! flatten_shape := on_fst (add_constant_f32_vector [f32_zero; f32_of_Z embedding]) in
  do! token_embedding := source_add "token_embd.weight" [embedding; vocab] false in
  do! hidden := node Gather [token_embedding; token_input] 2 in
  do! kv_width := op_lift (ok_or (try_u32 (lc_head_dim config * lc_head_count_kv config)) Overflow) in
  do! hidden := lower_layers config kv_width (mkShared positions epsilon query_shape kv_shape flatten_shape) hidden
                  (TensorOps.upto (lc_block_count config)) in
  do! output_norm := source_add "output_norm.weight" [embedding] false in
  do! hidden := node RmsNorm [hidden; output_norm; epsilon] 2 in
  do! output := source_add (if is_none (source_table model !! "output.weight"%string) then "token_embd.weight" else "output.weight")
                  [embedding; vocab] true in
  do! logits := node MatMul [hidden; output] 2 in
  do! _ := op_gets (λ s, reject_unconsumed_model_tensors s.2) in
  do! graph := on_fst (finish [logits]) in
  op_ret (token_input, graph).
Definition lower_graph (config : LlamaConfig) (vocab : Z) : lower (ValueId * Graph) :=
  do! token_input := on_fst (add_external_input I32 1) in
  lower_body config vocab token_input.

(** The configuration, the tokenizer and the size of its vocabulary. *)
Definition lower_config : gguf_result (LlamaConfig * NativeTokenizerDescriptor * Z * Z) :=
  let? a := architecture model in
  if negb (bool_decide (a = "llama"%string)) then Err (UnsupportedArchitecture a)
  else
    let? config := LlamaConfig_from_model model in
    let? source_tokenizer := tokenizer model in
    let? tokenizer := lower_tokenizer source_tokenizer in
    let? _ := check_tokenizer tokenizer in
    let vocabulary_size := len (NativeTokenizer.tk_tokens tokenizer) in
    let? vocab := ok_or (try_u64 vocabulary_size) LimitExceeded in
    Ok (config, tokenizer, vocabulary_size, vocab).
(** The parts, and the sink as it was left. *)
Definition lower_llama_model_internal (sink : option K) : option K * gguf_result LoweredLlamaParts :=
  match lower_config with
  | Ok (config, tokenizer, vocabulary_size, vocab) =>
      let '((builder, _), outcome) := lower_graph config vocab (GraphBuilder_new sink, ∅) in
      (gb_tensor_sink builder,
       let? '(token_input, graph) := outcome in
       Ok (mkParts config graph (gb_tensors builder) (gb_tensor_shards builder) tokenizer token_input 0
             vocabulary_size (gb_bindings builder)))
  | Err e => (sink, Err e)
  | Panic => (sink, Panic)
  end.
Definition lower_llama_model_from_source : gguf_result LoweredLlamaModel :=
  let? p := (lower_llama_model_internal None).2 in
  if negb (bool_decide (lp_tensor_shards p = [])) then
    Err (NativeLowering "in-memory lowering unexpectedly emitted external tensor shards")
  else
    Ok (mkLowered (lp_config p) (lp_graph p) (lp_tensors p) (lp_tokenizer p) (lp_token_input p) (lp_distribution_output p)
          (lp_vocabulary_size p) (lp_bindings p)).
Definition lower_llama_model_to_shards (sink : K) : K * gguf_result StreamedLoweredLlamaModel :=
  let '(sink', outcome) := lower_llama_model_internal (Some sink) in
  (default sink sink',
   let? p := outcome in
   if negb (bool_decide (lp_tensors p = [])) then Err (NativeLowering "streamed lowering retained native tensor payloads")
   else
     Ok (mkStreamed (lp_config p) (lp_graph p) (lp_tensor_shards p) (lp_tokenizer p) (lp_token_input p)
           (lp_distribution_output p) (lp_vocabulary_size p) (lp_bindings p))).
End lower.
End Lowering.
