(* ===== verification/LoweringTheorems.v ===== *)
(** What lowering gives: a graph that validates, tensors that fit its inputs, and
    the same whether the tensors stay in memory or go to a sink. *)
From S2P Require Import Prelude Text Collections Effects Descriptors NativeTensor NativeTokenizer Generative Capsule IrCodec TextTokenizer Gpt2 NativeProgram Ir Float32 Tensor TensorTheorems Gguf GgufTheorems GgufTranscode GgufTranscodeTheorems Lowering.

Module LoweringTheorems.
Import TensorOps TensorTheorems Gguf GgufTheorems GgufTranscode GgufTranscodeTheorems Lowering.

(** An operation that does not panic from the states of [P]. *)
Definition runs {S E A} (P : S → Prop) (m : op S E A) (Q : A → S → Prop) : Prop :=
  ∀ s, P s → match m s with (s', Ok a) => Q a s' | (_, Err _) => True | (_, Panic) => False end.

Section runs.
Context {S E : Type}.
Implicit Types P : S → Prop.
Lemma runs_bind {A B} P (m : op S E A) (k : A → op S E B) Q R :
  runs P m Q → (∀ a, runs (Q a) (k a) R) → runs P (op_bind m k) R.
Proof.
  intros Hm Hk s Hs. specialize (Hm s Hs). unfold op_bind. destruct (m s) as [s' [a|e|]]; [by apply Hk|done..].
Qed.
Lemma runs_weaken {A} (P P' : S → Prop) (m : op S E A) (Q Q' : A → S → Prop) :
  runs P m Q → (∀ s, P' s → P s) → (∀ a s, Q a s → Q' a s) → runs P' m Q'.
Proof. intros Hm HP HQ s Hs. specialize (Hm s (HP s Hs)). destruct (m s) as [s' [a|e|]]; auto. Qed.
Lemma runs_ret {A} P (a : A) : runs (E:=E) P (op_ret a) (λ x s, x = a ∧ P s).
Proof. intros s Hs. by split. Qed.
Lemma runs_err {A} P (e : E) (Q : A → S → Prop) : runs P (op_err e) Q.
Proof. by intros s Hs. Qed.
Lemma runs_lift {A} P (r : result E A) (Q : A → Prop) : yields Q r → runs P (op_lift r) (λ a s, Q a ∧ P s).
Proof. intros Hr s Hs. unfold op_lift. destruct r; cbn in *; [by split|done..]. Qed.
Lemma runs_pure {A} (φ : Prop) P (m : op S E A) Q : (φ → runs P m Q) → runs (λ s, φ ∧ P s) m Q.
Proof. intros Hm s [Hφ Hs]. by apply Hm. Qed.
Lemma runs_fst {T A} P (m : op S E A) Q (P' : S * T → Prop) (Q' : A → S * T → Prop) :
  runs P m Q → (∀ s t, P' (s, t) → P s) → (∀ a s s' t, P' (s, t) → Q a s' → Q' a (s', t)) → runs P' (on_fst m) Q'.
Proof.
  intros Hm HP HQ [s t] Hs. unfold on_fst. cbn [fst snd]. specialize (Hm s (HP s t Hs)).
  destruct (m s) as [s' [a|e|]]; [|done..]. by eapply HQ.
Qed.
End runs.

(** ** Tokenizers encode and construct without a panic *)
Lemma fold_calm {E S A} (f : S → A → result E S) s l : (∀ s x, no_panic (f s x)) → no_panic (fold_result f s l).
Proof. intros Hf. apply (fold_result_no_panic (λ _, True)); [done|]. intros. by split. Qed.
#[local] Hint Resolve fold_calm : no_panic.
Lemma map_err_calm {E E' A} (f : E → E') (r : result E A) : no_panic r → no_panic (map_err f r).
Proof. by destruct r. Qed.
Lemma encode_tokenizer_no_panic t : no_panic (encode_native_tokenizer t).
Proof.
  unfold encode_native_tokenizer. apply bind_no_panic; [|intros u Hu].
  - unfold validate_tokenizer. destruct (NativeTokenizer.tk_tokens t) as [|x l]; [done|].
    apply bind_no_panic; [|intros ? _].
    { apply fold_calm. intros s y. unfold check_token. repeat np_step. }
    apply bind_no_panic; [apply ok_or_no_panic|intros ? _].
    apply bind_no_panic; [|intros ? _].
    { apply check_all_no_panic. intros y _. unfold NativeTokenizer.check_special. repeat np_step. }
    unfold validate_model. destruct (NativeTokenizer.tk_model t) as [|bits types ? ? ?|merges ? ?]; [done| |].
    + destruct (negb (len bits =? _)) eqn:H1; [done|]. destruct (negb (len types =? _)) eqn:H2; [done|].
      apply negb_false_iff, Z.eqb_eq in H1, H2. apply check_all_no_panic. intros [i y] (Hi & Hy)%elem_of_enumerate.
      unfold check_score. cbn in *. apply bind_no_panic; [apply ok_or_no_panic|intros ? _]. destruct (negb _); [done|].
      apply lookup_lt_Some in Hy. destruct (lookup_lt_is_Some_2 types (Z.to_nat i)) as [ty ->]; [unfold len in *; lia|]. cbn. by destruct (negb _).
    + apply bind_no_panic; [|done]. apply fold_calm. intros s y. unfold check_merge. repeat np_step.
  - apply bind_no_panic; [apply ok_or_no_panic|intros ? _]. cbn zeta.
    assert (∀ s y, no_panic (encode_token s y)) as Henc.
    { intros s y. unfold encode_token. apply bind_no_panic; [apply ok_or_no_panic|done]. }
    apply bind_no_panic; [by apply fold_calm|intros ? _]. apply bind_no_panic; [|intros ? _].
    + unfold encode_model. destruct (NativeTokenizer.tk_model t); [done| |].
      * do 2 (apply bind_no_panic; [apply ok_or_no_panic|intros ? _]). done.
      * apply bind_no_panic; [apply ok_or_no_panic|intros ? _]. apply bind_no_panic; [|done]. apply fold_calm. intros. apply Henc.
    + apply map_err_calm. unfold encode_descriptor_frame. do 2 (apply bind_no_panic; [apply ok_or_no_panic|intros ? _]). done.
Qed.
Lemma bpe_new_no_panic tokens merges config : no_panic (Gpt2.Gpt2BpeTokenizer_new tokens merges config).
Proof.
  unfold Gpt2.Gpt2BpeTokenizer_new. apply bind_no_panic; [|intros ? _].
  { unfold TextTokenizer.validate_vocabulary. destruct (bool_decide _); [done|]. apply bind_no_panic; [|done].
    apply fold_calm. intros s x. unfold TextTokenizer.see_token. repeat np_step. }
  apply bind_no_panic; [|intros ? _].
  { apply check_all_no_panic. intros x _. unfold TextTokenizer.check_special. repeat np_step. }
  apply bind_no_panic; [|intros ? _].
  { apply fold_calm. intros s x. apply bind_no_panic; [apply ok_or_no_panic|done]. }
  apply bind_no_panic; [|intros ? _].
  { apply fold_calm. intros s [r m]. unfold Gpt2.add_merge. repeat case_match; done. }
  apply bind_no_panic; [|done]. apply check_all_no_panic. intros x _. unfold Gpt2.check_piece. by case_match.
Qed.

Lemma config_no_panic `{LoweringMessages} model : no_panic (LlamaConfig_from_model model).
Proof.
  assert (∀ key, no_panic (required_u32 model key)) as Hreq.
  { intros key. unfold required_u32. apply bind_no_panic; [apply ok_or_no_panic|intros ? _]. apply ok_or_no_panic. }
  assert (∀ key, no_panic (Lowering.optional_u32 model key)) as Hopt by (intros; apply optional_no_panic).
  unfold LlamaConfig_from_model. apply bind_no_panic; [apply architecture_no_panic|intros ? _]. destruct (negb _); [done|].
  do 5 (apply bind_no_panic; [apply Hreq|intros ? _]). apply bind_no_panic; [apply Hopt|intros ? _].
  apply bind_no_panic; [|intros ? _].
  { unfold required_f32. apply bind_no_panic; [apply optional_no_panic|intros ? _]. apply ok_or_no_panic. }
  cbn zeta. destruct (dimensions_invalid _ _ _ _ _ _ _); [done|]. apply bind_no_panic; [apply Hopt|intros ? _].
  destruct (negb _); [done|]. apply bind_no_panic; [apply optional_no_panic|intros ? _]. destruct (_ || _); [done|].
  apply bind_no_panic; [|done]. apply check_all_no_panic. intros [key value] _. unfold check_scaling. by repeat case_match.
Qed.
Lemma lower_tokenizer_no_panic t : no_panic (lower_tokenizer t).
Proof. unfold lower_tokenizer, unblocked, feature. repeat np_step. Qed.
Lemma check_tokenizer_no_panic `{LoweringMessages} t : no_panic (check_tokenizer t).
Proof.
  unfold check_tokenizer. apply bind_no_panic; [|intros ? _].
  - unfold check_bpe. destruct (NativeTokenizer.tk_model t); [done..|]. apply bind_no_panic; [|done]. apply map_err_calm, bpe_new_no_panic.
  - apply bind_no_panic; [|done]. apply map_err_calm, encode_tokenizer_no_panic.
Qed.

(** ** What the builder keeps *)
Section builder.
Context {K : Type}.
Implicit Types b : GraphBuilder K.

Definition node_defs (nodes : list Node) : list Z := concat (map (decl_ids ∘ n_outputs) nodes).
#[local] Arguments node_defs : simpl never.
Definition defs b : list Z := decl_ids (gb_inputs b) ++ node_defs (gb_nodes b).

(** A tensor of the builder: it is well formed and bound to an input of its type. *)
Definition bound_to (inputs : list ValueDecl) (t : NativeTensor) (bind : LlamaTensorBinding) : Prop :=
  NativeTensor.tensor_wf t ∧ tensor_id t = lb_tensor_id bind ∧ nt_graph_value t = Some (lb_graph_value bind) ∧
  ∃ ty, mkValueDecl (lb_graph_value bind) ty ∈ inputs ∧ type_matches ty (nt_descriptor t) = true.
Record builder_wf b : Prop := {
  bw_next : 0 ≤ gb_next_value b < 2 ^ 32;
  bw_defs : ∀ v, v ∈ defs b ↔ 0 ≤ v < gb_next_value b;
  bw_single : NoDup (defs b);
  bw_node_ids : NoDup (map n_id (gb_nodes b)) ∧ Forall (λ n, n < gb_next_node b) (map n_id (gb_nodes b));
  bw_use : ∀ i node v, gb_nodes b !! i = Some node → v ∈ n_inputs node →
    v ∈ decl_ids (gb_inputs b) ++ node_defs (take i (gb_nodes b));
  bw_tensors : gb_tensor_sink b = None → gb_tensor_shards b = [] ∧ Forall2 (bound_to (gb_inputs b)) (gb_tensors b) (gb_bindings b);
  bw_bindings : StronglySorted Z.lt (map lb_tensor_id (gb_bindings b)) ∧ Forall (λ i, i < gb_next_tensor b) (map lb_tensor_id (gb_bindings b)) ∧
    NoDup (map lb_graph_value (gb_bindings b)) ∧ Forall (λ v, v ∈ decl_ids (gb_inputs b)) (map lb_graph_value (gb_bindings b));
}.
(** [b'] comes of [b] by building: values of [b] stay what they are. *)
Record extends b b' : Prop := {
  ex_next : gb_next_value b ≤ gb_next_value b';
  ex_inputs : gb_inputs b `prefix_of` gb_inputs b';
  ex_bindings : ∃ more, gb_bindings b' = gb_bindings b ++ more ∧ Forall (λ bind, gb_next_value b ≤ lb_graph_value bind) more;
  ex_sink : gb_tensor_sink b = None ↔ gb_tensor_sink b' = None;
}.
Lemma extends_refl b : extends b b.
Proof. split; [lia|done| |done]. exists []. split; [by rewrite app_nil_r|constructor]. Qed.
Lemma extends_trans b1 b2 b3 : extends b1 b2 → extends b2 b3 → extends b1 b3.
Proof.
  intros [? ? (m1 & E1 & F1) ?] [? ? (m2 & E2 & F2) ?]. split; [lia|by etrans| |tauto].
  exists (m1 ++ m2). split; [by rewrite E2, E1, app_assoc|]. apply Forall_app. split; [done|].
  eapply Forall_impl; [exact F2|]. cbn. lia.
Qed.
(** From [b0], well formed, with the values [vs] defined. *)
Definition built b0 (vs : list Z) b : Prop := builder_wf b ∧ extends b0 b ∧ Forall (λ v, 0 ≤ v < gb_next_value b) vs.
Lemma built_start b : builder_wf b → built b [] b.
Proof. intros Hb. split_and!; [done|apply extends_refl|constructor]. Qed.

Lemma GraphBuilder_new_wf sink : builder_wf (GraphBuilder_new sink).
Proof.
  split; cbn; try done.
  - intros v. unfold defs. cbn. rewrite elem_of_nil. lia.
  - constructor.
  - split; constructor.
  - split_and!; constructor.
Qed.

Lemma node_defs_snoc nodes node : node_defs (nodes ++ [node]) = node_defs nodes ++ decl_ids (n_outputs node).
Proof. unfold node_defs. rewrite map_app, concat_app. cbn. by rewrite app_nil_r. Qed.
Lemma try_u32_Some z n : try_u32 z = Some n → n = z ∧ z < 2 ^ 32.
Proof. unfold try_u32. destruct (Z.ltb_spec z (2 ^ 32)); [|done]. by intros [= <-]. Qed.

Lemma push_input_built b0 vs b ty :
  built b0 vs b → gb_next_value b + 1 < 2 ^ 32 →
  let b' := push_input (mkValueDecl (gb_next_value b) ty) (set_next_value (gb_next_value b + 1) b) in
  built b0 (gb_next_value b :: vs) b'.
Proof.
  intros ([Hn Hdefs Hsingle Hids Huse Htensors Hbind] & Hext & Hvs) Hnext b'. split_and!.
  - split; subst b'; cbn.
    + lia.
    + intros v. unfold defs, decl_ids in *. cbn. rewrite map_app, !elem_of_app. cbn. rewrite list_elem_of_singleton.
      specialize (Hdefs v). rewrite elem_of_app in Hdefs. split; [intros [[Hv| ->]|Hv]; [|lia|]|intros Hv].
      * assert (0 ≤ v < gb_next_value b) by (apply Hdefs; by left). lia.
      * assert (0 ≤ v < gb_next_value b) by (apply Hdefs; by right). lia.
      * destruct (decide (v = gb_next_value b)) as [->|]; [by left; right|].
        destruct (proj2 Hdefs ltac:(lia)); [by left; left|by right].
    + unfold defs, decl_ids in *. cbn. rewrite map_app, <- app_assoc. cbn.
      rewrite <- Permutation_middle. constructor; [|done].
      intros Hin. apply Hdefs in Hin. lia.
    + done.
    + intros j node v Hj Hv. specialize (Huse j node v Hj Hv). unfold decl_ids in *. rewrite map_app. set_solver.
    + intros Hs. destruct (Htensors Hs) as [-> Ht]. split; [done|]. eapply Forall2_impl; [exact Ht|].
      intros t bind (? & ? & ? & ty' & Hin & Hm). split_and!; [done..|]. exists ty'. split; [set_solver|done].
    + destruct Hbind as (? & ? & ? & Hb). split_and!; [done..|]. eapply Forall_impl; [exact Hb|].
      intros v Hv. unfold decl_ids in *. rewrite map_app. set_solver.
  - eapply extends_trans; [exact Hext|]. split; subst b'; cbn; [lia|by apply prefix_app_r| |done].
    exists []. split; [by rewrite app_nil_r|constructor].
  - subst b'. cbn. constructor; [lia|]. eapply Forall_impl; [exact Hvs|]. cbn. lia.
Qed.

Lemma push_node_built b0 vs b o inputs ty :
  built b0 vs b → gb_next_value b + 1 < 2 ^ 32 → (∀ v, v ∈ inputs → v ∈ vs) →
  let b' := push_node (mkNode (gb_next_node b) (OpTensor o) inputs [mkValueDecl (gb_next_value b) ty])
    (set_next_node (gb_next_node b + 1) (set_next_value (gb_next_value b + 1) b)) in
  built b0 (gb_next_value b :: vs) b'.
Proof.
  intros ([Hn Hdefs Hsingle Hids Huse Htensors Hbind] & Hext & Hvs) Hnext Hin b'. split_and!.
  - split; subst b'; cbn.
    + lia.
    + intros v. unfold defs in *. cbn. rewrite node_defs_snoc, app_assoc. cbn.
      rewrite elem_of_app, list_elem_of_singleton, Hdefs. lia.
    + unfold defs in *. cbn. rewrite node_defs_snoc, app_assoc. cbn. apply NoDup_snoc. split; [|done].
      intros Hv. apply Hdefs in Hv. lia.
    + rewrite map_app. cbn. destruct Hids as [Hnd Hlt]. split.
      * apply NoDup_snoc. split; [|done]. rewrite Forall_forall in Hlt. intros Hv%Hlt. lia.
      * apply Forall_app. split; [eapply Forall_impl; [exact Hlt|]; cbn; lia|]. constructor; [lia|constructor].
    + intros j node v [[Hlt Hj]|[-> <-]]%lookup_snoc_Some Hv.
      * rewrite take_app_le by lia. by apply (Huse j node).
      * rewrite take_app_length. apply Hdefs. rewrite Forall_forall in Hvs. apply Hvs, Hin. exact Hv.
    + done.
    + done.
  - eapply extends_trans; [exact Hext|]. split; subst b'; cbn; [lia|done| |done].
    exists []. split; [by rewrite app_nil_r|constructor].
  - subst b'. cbn. constructor; [lia|]. eapply Forall_impl; [exact Hvs|]. cbn. lia.
Qed.
Lemma add_node_runs b0 vs o inputs dtype rank :
  (∀ v, v ∈ inputs → v ∈ vs) → runs (built b0 vs) (add_node o inputs dtype rank) (λ v, built b0 (v :: vs)).
Proof.
  intros Hin b Hb. unfold add_node, op_bind, allocate_value, next_node, modify, op_ret.
  destruct (try_u32 (gb_next_value b + 1)) as [v|] eqn:Hv; cbn; [|done].
  destruct (try_u32 (gb_next_node b + 1)) as [n|] eqn:Hn; cbn; [|done].
  apply try_u32_Some in Hv as [-> Hv]. apply try_u32_Some in Hn as [-> _]. by apply push_node_built.
Qed.

(** A tensor kept or stored, and its binding recorded. *)
Record binds b b' (t : NativeTensor) (bind : LlamaTensorBinding) : Prop := {
  bi_next : gb_next_value b' = gb_next_value b;
  bi_node : gb_next_node b' = gb_next_node b;
  bi_tensor : gb_next_tensor b' = gb_next_tensor b + 1;
  bi_inputs : gb_inputs b' = gb_inputs b;
  bi_nodes : gb_nodes b' = gb_nodes b;
  bi_bindings : gb_bindings b' = gb_bindings b ++ [bind];
  bi_sink : gb_tensor_sink b = None ↔ gb_tensor_sink b' = None;
  bi_kept : gb_tensor_sink b = None → gb_tensor_shards b' = gb_tensor_shards b ∧ gb_tensors b' = gb_tensors b ++ [t];
}.
Lemma StronglySorted_lt_snoc l x : StronglySorted Z.lt l → Forall (λ y, y < x) l → StronglySorted Z.lt (l ++ [x]).
Proof.
  induction 1 as [|y l Hs IH Hy]; cbn; intros Hx; [repeat constructor|].
  apply Forall_cons in Hx as [Hyx Hx]. constructor; [by apply IH|]. apply Forall_app. by split; [|constructor].
Qed.
Lemma binds_built b0 vs b b' t name v :
  let bind := mkBinding name (gb_next_tensor b) v in
  built b0 vs b → binds b b' t bind → bound_to (gb_inputs b) t bind →
  v ∈ decl_ids (gb_inputs b) → v ∉ map lb_graph_value (gb_bindings b) → gb_next_value b0 ≤ v → built b0 vs b'.
Proof.
  intros bind ([Hn Hdefs Hsingle Hids Huse Htensors Hbind] & Hext & Hvs) [E1 E2 E3 E4 E5 E6 Hsink Hkept] Ht Hv Hnew Hge. split_and!.
  - split; unfold defs in *; rewrite ?E1, ?E2, ?E3, ?E4, ?E5, ?E6; try done.
    + intros Hs%Hsink. destruct (Hkept Hs) as [-> ->]. destruct (Htensors Hs) as [-> Hall]. split; [done|].
      apply Forall2_app; [done|]. by constructor.
    + destruct Hbind as (Hsort & Hlt & Hnd & Hdecl). rewrite !map_app. cbn. split_and!.
      * by apply StronglySorted_lt_snoc.
      * apply Forall_app. split; [eapply Forall_impl; [exact Hlt|]; cbn; lia|]. constructor; [lia|constructor].
      * apply NoDup_snoc. by split.
      * apply Forall_app. split; [done|]. by constructor.
  - destruct Hext as [? ? (more & Em & Hmore) ?]. split; rewrite ?E1, ?E4, ?E6; [lia|done| |tauto].
    exists (more ++ [bind]). split; [by rewrite Em, app_assoc|]. apply Forall_app. by repeat constructor.
  - by rewrite E1.
Qed.

Lemma elements_partial c shape :
  0 < c → Forall (λ d, 0 < d) shape → c * NativeTensor.product shape < 2 ^ 64 →
  fold_result (λ count d, ok_or (checked_mul_u64 count d) NativeTensor.InvalidShape) c shape = Ok (c * NativeTensor.product shape).
Proof.
  revert c. induction shape as [|d shape IH]; intros c Hc Hpos Hmax; cbn.
  { f_equal. lia. }
  apply Forall_cons in Hpos as [Hd Hpos]. cbn in Hmax.
  assert (0 < NativeTensor.product shape) as Hp by (clear -Hpos; induction Hpos; cbn; [lia|unfold NativeTensor.product in *; lia]).
  unfold checked_mul_u64. unfold NativeTensor.product in Hp, Hmax.
  destruct (Z.ltb_spec (c * d) (2 ^ 64)); cbn [ok_or]; [|nia]. rewrite IH; [|lia|done|unfold NativeTensor.product; lia].
  unfold NativeTensor.product. f_equal. cbn. lia.
Qed.
Lemma native_tensor_wf id dtype shape payload v :
  Forall (λ d, 0 < d) shape → len payload = TensorOps.dtype_width dtype * product shape → len payload < 2 ^ 64 →
  NativeTensor.tensor_wf (mkNativeTensor (mkTensorDescriptor id dtype shape (len payload)) v NativeTensor.QNone payload).
Proof.
  intros Hpos Hl Hmax. assert (1 ≤ TensorOps.dtype_width dtype) by by destruct dtype.
  assert (0 < product shape) as Hp by (clear -Hpos; unfold product; induction Hpos; cbn; [lia|unfold product in *; lia]).
  split; cbn.
  - unfold NativeTensor.element_count. rewrite (elements_partial 1) by (done || (change (NativeTensor.product shape) with (product shape); nia)).
    f_equal. apply Z.mul_1_l.
  - done.
  - rewrite Hl. apply Z.mul_comm.
  - done.
  - done.
Qed.
Lemma value_type_matches dtype shape rank id byte_len :
  try_u8 (len shape) = Some rank → type_matches (value_type dtype rank) (mkTensorDescriptor id dtype shape byte_len) = true.
Proof.
  unfold try_u8. destruct (_ <? _); [|done]. intros [= <-]. unfold value_type. destruct (Z.eqb_spec (len shape) 0) as [Hz|Hz]; cbn.
  - destruct shape; [by rewrite !bool_decide_true|]. rewrite len_cons in Hz. len_lia.
  - by rewrite bool_decide_true, Z.eqb_refl.
Qed.

(** ** The sink *)
Definition sink_calm `{TensorShardSink K} : Prop := ∀ t k, no_panic (store_tensor (K:=K) t k).2.

Context `{TensorShardSink K} (Hsink : sink_calm).

Lemma keep_tensor_runs b t bind :
  lb_tensor_id bind = gb_next_tensor b →
  let b0 := set_next_tensor (gb_next_tensor b + 1) b in
  match keep_tensor t b0 with
  | (b', Ok _) => binds b (push_binding bind b') t bind
  | (_, Err _) => True
  | (_, Panic) => False
  end.
Proof.
  intros Hid. unfold keep_tensor. cbn. destruct (gb_tensor_sink b) as [k|] eqn:Hk.
  - pose proof (Hsink t k) as Hcalm. destruct (store_tensor t k) as [k' [shard|e|]]; [|done|done].
    split; cbn; rewrite ?Hk; done.
  - split; cbn; rewrite ?Hk; done.
Qed.
Lemma add_native_runs b0 vs name dtype shape payload :
  Forall (λ d, 0 < d) shape → len payload = TensorOps.dtype_width dtype * product shape →
  runs (built b0 vs) (add_native_tensor name dtype shape payload)
    (λ v b, built b0 (v :: vs) b ∧ name ∈ map lb_source_name (gb_bindings b)).
Proof.
  intros Hpos Hlen b Hb. unfold add_native_tensor, op_bind, allocate_value, next_tensor, modify, op_lift, op_ret.
  destruct (try_u32 (gb_next_value b + 1)) as [v|] eqn:Hv; cbn [gb_next_value]; [|done]. apply try_u32_Some in Hv as [-> Hv].
  destruct (try_u8 (len shape)) as [rank|] eqn:Hrank; cbn [ok_or]; [|done].
  pose proof (push_input_built b0 vs b (value_type dtype rank) Hb Hv) as Hb1. cbn zeta in Hb1.
  set (b1 := push_input _ (set_next_value _ b)) in *.
  destruct (try_u32 (gb_next_tensor b1 + 1)) as [n|] eqn:Hn; [|done]. apply try_u32_Some in Hn as [-> _].
  unfold try_u64. destruct (Z.ltb_spec (len payload) (2 ^ 64)); cbn [ok_or]; [|done].
  set (t := mkNativeTensor _ _ _ _). set (bind := mkBinding name (gb_next_tensor b1) (gb_next_value b)).
  pose proof (keep_tensor_runs b1 t bind eq_refl) as Hkeep. cbn zeta in Hkeep.
  destruct (keep_tensor t _) as [b2 [u|e|]]; [|done|done]. split.
  - apply (binds_built b0 _ b1 _ t name (gb_next_value b) Hb1 Hkeep).
    + split_and!; [by apply native_tensor_wf|done|done|]. exists (value_type dtype rank). split; [|by apply value_type_matches].
      subst b1. cbn. apply elem_of_app. right. by apply list_elem_of_singleton.
    + subst b1. unfold decl_ids. cbn. rewrite map_app. apply elem_of_app. right. by apply list_elem_of_singleton.
    + destruct Hb as ([_ Hdefs _ _ _ _ (_ & _ & _ & Hdecl)] & _ & _). subst b1. cbn. intros Hin.
      rewrite Forall_forall in Hdecl. apply Hdecl in Hin. assert (gb_next_value b ∈ defs b) as Hd by (unfold defs; apply elem_of_app; by left).
      apply Hdefs in Hd. lia.
    + destruct Hb as (_ & [? _ _ _] & _). done.
  - rewrite (bi_bindings _ _ _ _ Hkeep), map_app. apply elem_of_app. right. by apply list_elem_of_singleton.
Qed.

(** ** The lowering of a graph *)
(** Built from [b0] with the values [vs]; what is consumed has a binding. *)
Definition good b0 (vs : list Z) (s : GraphBuilder K * gset string) : Prop :=
  built b0 vs s.1 ∧ ∀ name, name ∈ s.2 → name ∈ map lb_source_name (gb_bindings s.1).
Lemma built_again b0 vs b : built b0 vs b → built b vs b.
Proof. intros (Hb & _ & Hvs). split_and!; [done|apply extends_refl|done]. Qed.
Lemma extends_names b b' name :
  extends b b' → name ∈ map lb_source_name (gb_bindings b) → name ∈ map lb_source_name (gb_bindings b').
Proof. intros [_ _ (more & -> & _) _]. rewrite map_app. set_solver. Qed.
Lemma good_fst {X} b0 vs (m : op (GraphBuilder K) GgufError X) (f : X → list Z) :
  (∀ b, runs (built b vs) m (λ v, built b (f v))) → runs (good b0 vs) (on_fst m) (λ v, good b0 (f v)).
Proof.
  intros Hm [b names] [Hb Hn]. unfold on_fst. cbn [fst snd] in *. specialize (Hm b b (built_again _ _ _ Hb)).
  destruct (m b) as [b' [v|e|]]; [|done|done]. destruct Hm as (Hb' & Hext & Hvs). destruct Hb as (_ & Hext0 & _). split.
  - split_and!; [done|by eapply extends_trans|done].
  - intros name Hname. eapply extends_names; [done|]. by apply Hn.
Qed.
Lemma good_weaken b0 vs vs' s : good b0 vs s → (∀ v, v ∈ vs' → v ∈ vs) → good b0 vs' s.
Proof.
  intros ((? & ? & Hvs) & ?) Hin. split; [|done]. split_and!; [done|done|]. rewrite Forall_forall in *. auto.
Qed.

Lemma node_runs b0 vs o inputs rank :
  (∀ v, v ∈ inputs → v ∈ vs) → runs (good b0 vs) (node o inputs rank) (λ v, good b0 (v :: vs)).
Proof. intros Hin. apply good_fst. intros b. by apply add_node_runs. Qed.
Lemma constant_scalar_runs b0 vs value :
  runs (good b0 vs) (on_fst (add_constant_f32_scalar value)) (λ v, good b0 (v :: vs)).
Proof.
  apply good_fst. intros b. unfold add_constant_f32_scalar. destruct (negb _); [apply runs_err|].
  eapply runs_weaken; [apply add_native_runs; [constructor|by rewrite len_to_le]|done|]. by intros v b' [].
Qed.
Lemma len_concat_f32_words values : len (concat (map (λ v, to_le 4 (f32_to_bits v)) values)) = 4 * len values.
Proof. induction values as [|v values IH]; [done|]. cbn [map concat]. rewrite len_app, len_cons, len_to_le, IH. lia. Qed.
Lemma constant_vector_runs b0 vs values :
  runs (good b0 vs) (on_fst (add_constant_f32_vector values)) (λ v, good b0 (v :: vs)).
Proof.
  apply good_fst. intros b. unfold add_constant_f32_vector. destruct (_ || _) eqn:Hb; [apply runs_err|].
  apply orb_false_iff in Hb as [Hne%bool_decide_eq_false _].
  eapply runs_bind; [apply (runs_lift _ _ (λ _, True)); by apply yields_ok_or|]. intros u. apply runs_pure. intros _.
  eapply runs_bind; [apply (runs_lift _ _ (λ n, n = len values)); apply yields_ok_or|].
  { unfold try_u64. intros x. by destruct (_ <? _); intros [= <-]. }
  intros n. apply runs_pure. intros ->.
  eapply runs_weaken; [apply add_native_runs|done|by intros v b' []].
  - constructor; [|constructor]. destruct values; [done|rewrite len_cons]. len_lia.
  - rewrite len_concat_f32_words. unfold product. cbn. lia.
Qed.

Context `{LoweringMessages} {S : Type} `{ExactSource S} (source : S) (model : GgufModel).
Context (Hdims : Forall (λ t, Forall (λ d, 0 ≤ d) (ti_dimensions t)) (gm_tensors model)).

Lemma source_table_elem name t : source_table model !! name = Some t → t ∈ gm_tensors model ∧ ti_name t = name.
Proof.
  unfold source_table. assert (∀ l (m : gmap string GgufTensorInfo),
    foldl (λ m t, <[ti_name t := t]> m) m l !! name = Some t → m !! name = Some t ∨ t ∈ l ∧ ti_name t = name) as Hl.
  { induction l as [|x l IH]; intros m; cbn; [by left|]. intros [Hm|[? ?]]%IH; [|right; split; [by right|done]].
    destruct (decide (ti_name x = name)) as [He|He].
    - rewrite He, lookup_insert_eq in Hm. injection Hm as <-. right. split; [by left|done].
    - rewrite lookup_insert_ne in Hm by done. by left. }
  intros [Hm|Hm]%Hl; [by rewrite lookup_empty in Hm|done].
Qed.
Lemma source_add_runs b0 vs name expected transpose_2d :
  runs (good b0 vs) (source_add source model name expected transpose_2d) (λ v, good b0 (v :: vs)).
Proof.
  unfold source_add. eapply runs_bind; [apply (runs_lift _ _ (λ t, source_table model !! name = Some t)); by apply yields_ok_or|].
  intros t. apply runs_pure. intros [Ht _]%source_table_elem. rewrite Forall_forall in Hdims. specialize (Hdims t Ht).
  destruct (negb _); [apply runs_err|]. eapply runs_bind.
  { apply runs_lift. exact (transcode_yields source model t transpose_2d Hdims). }
  intros tt. apply runs_pure. intros [(_ & Hlen & Hpos) _]. intros [b names] [Hb Hn].
  unfold op_bind, consume, on_fst. cbn [fst snd].
  pose proof (add_native_runs b vs name (tt_dtype tt) (tt_shape tt) (tt_payload tt) Hpos Hlen b (built_again _ _ _ Hb)) as Hadd.
  destruct (add_native_tensor _ _ _ _ b) as [b' [v|e|]]; [|done|done]. destruct Hadd as ((Hb' & Hext & Hvs) & Hname).
  destruct Hb as (_ & Hext0 & _). split.
  - split_and!; [done|by eapply extends_trans|done].
  - cbn [fst snd]. intros x [->%elem_of_singleton|Hx]%elem_of_union; [done|]. eapply extends_names; [done|]. by apply Hn.
Qed.

#[local] Ltac lower_step :=
  first
    [ eapply runs_bind; [apply source_add_runs|intros ?]
    | eapply runs_bind; [apply node_runs; intros ? ?; set_solver|intros ?]
    | cbn beta; match goal with |- runs (good ?b ?vs) (node _ _ _) _ =>
        apply (runs_weaken (good b vs) _ _ (λ v, good b (v :: vs))); [apply node_runs; intros ? ?; set_solver|done|]
      end ].
Definition shared_values (sh : Shared) : list Z :=
  [sh_positions sh; sh_epsilon sh; sh_query_shape sh; sh_kv_shape sh; sh_flatten_shape sh].
Lemma lower_layer_runs b0 config kv_width sh hidden layer :
  runs (good b0 (hidden :: shared_values sh)) (lower_layer source model config kv_width sh hidden layer)
    (λ v, good b0 (v :: shared_values sh)).
Proof.
  unfold lower_layer, shared_values. cbn zeta. do 28 lower_step. lower_step.
  intros v s Hs. eapply good_weaken; [exact Hs|]. set_solver.
Qed.

Lemma lower_layers_runs b0 config kv_width sh hidden layers :
  runs (good b0 (hidden :: shared_values sh)) (lower_layers source model config kv_width sh hidden layers)
    (λ v, good b0 (v :: shared_values sh)).
Proof.
  revert hidden. induction layers as [|layer layers IH]; intros hidden; cbn [lower_layers].
  - eapply runs_weaken; [apply runs_ret|done|]. by intros v s [-> Hs].
  - eapply runs_bind; [apply lower_layer_runs|]. intros hidden'. apply IH.
Qed.

(** The graph a builder finishes is well formed: [finish] does not fail. *)
Definition built_graph b outputs : Graph := mkGraph IrVersion_CURRENT (gb_inputs b) outputs (gb_nodes b).
Lemma built_graph_wf b0 vs b outputs : built b0 vs b → (∀ v, v ∈ outputs → v ∈ vs) → well_formed (built_graph b outputs).
Proof.
  intros ([Hn Hdefs Hsingle [Hids _] Huse _ _] & _ & Hvs) Hout. split; cbn; try done.
  intros v Hv. unfold all_defs. cbn. apply (proj2 (Hdefs v)). rewrite Forall_forall in Hvs. by apply Hvs, Hout.
Qed.
Lemma graph_finish_Ok b0 vs b outputs :
  built b0 vs b → (∀ v, v ∈ outputs → v ∈ vs) → finish outputs b = (b, Ok (built_graph b outputs)).
Proof.
  intros Hb Hout. unfold finish. fold (built_graph b outputs).
  by rewrite (proj2 (Graph_validate_Ok_iff _) (built_graph_wf b0 vs b outputs Hb Hout)).
Qed.

Definition token_builder sink : GraphBuilder K := push_input (mkValueDecl 0 (Ir.Tensor I32 1)) (set_next_value 1 (GraphBuilder_new sink)).
Lemma token_builder_built sink : built (token_builder sink) [0] (token_builder sink).
Proof.
  destruct (push_input_built (GraphBuilder_new sink) [] _ (Ir.Tensor I32 1) (built_start _ (GraphBuilder_new_wf sink)) ltac:(done)) as (Hwf & _ & Hvs).
  split_and!; [exact Hwf|apply extends_refl|exact Hvs].
Qed.

(** What the lowering of a graph leaves. *)
Record lowered sink (s : GraphBuilder K * gset string) (token : ValueId) (graph : Graph) : Prop := {
  lo_token : token = 0;
  lo_built : builder_wf s.1;
  lo_extends : extends (token_builder sink) s.1;
  lo_graph : ∃ logits, graph = built_graph s.1 [logits];
  lo_wf : well_formed graph;
  lo_consumed : Forall (λ t, ti_name t ∈ map lb_source_name (gb_bindings s.1)) (gm_tensors model);
}.
Lemma lower_end sink logits vs :
  runs (good (token_builder sink) (logits :: vs))
    (do! _ := op_gets (λ s, reject_unconsumed_model_tensors model s.2) in
     do! graph := on_fst (finish [logits]) in op_ret (0, graph))
    (λ r s, lowered sink s r.1 r.2).
Proof.
  intros [b names] [Hb Hn]. unfold op_bind, op_gets, on_fst, op_ret. cbn [fst snd] in *.
  destruct (reject_unconsumed_model_tensors model names) as [u|e|] eqn:Hreject; [|done|].
  - assert (∀ v, v ∈ [logits] → v ∈ logits :: vs) as Hin by set_solver.
    rewrite (graph_finish_Ok _ _ _ _ Hb Hin). pose proof (built_graph_wf _ _ _ _ Hb Hin) as Hwf. destruct Hb as (Hb & Hext & _).
    split; cbn [fst snd]; [done|done|done|by exists logits|done|].
    destruct u. apply check_all_Ok in Hreject. eapply Forall_impl; [exact Hreject|]. intros t Ht. apply Hn. unfold check_consumed in Ht.
    by case_bool_decide.
  - exfalso. revert Hreject. apply check_all_no_panic. intros t _. unfold check_consumed. by case_bool_decide.
Qed.
Lemma lower_body_runs config vocab sink :
  runs (good (token_builder sink) [0]) (lower_body source model config vocab 0) (λ r s, lowered sink s r.1 r.2).
Proof.
  unfold lower_body. cbn zeta. set (b0 := token_builder sink).
  eapply runs_bind; [apply good_fst; intros b; apply add_node_runs; set_solver|intros positions].
  eapply runs_bind; [apply constant_scalar_runs|intros epsilon].
  eapply runs_bind; [apply constant_vector_runs|intros query_shape].
  eapply runs_bind; [apply constant_vector_runs|intros kv_shape].
  eapply runs_bind; [apply constant_vector_runs|intros flatten_shape].
  do 2 lower_step.
  eapply runs_bind; [apply (runs_lift _ _ (λ _, True)); by apply yields_ok_or|]. intros kv_width. apply runs_pure. intros _.
  set (sh := mkShared _ _ _ _ _).
  eapply runs_bind.
  { eapply runs_weaken; [apply (lower_layers_runs b0 config kv_width sh)| |done].
    intros s Hs. eapply good_weaken; [exact Hs|]. subst sh. unfold shared_values. cbn. set_solver. }
  intros hidden. subst sh. unfold shared_values. cbn [sh_positions sh_epsilon sh_query_shape sh_kv_shape sh_flatten_shape].
  do 4 lower_step. apply lower_end.
Qed.
Lemma lower_graph_spec config vocab sink :
  match lower_graph source model config vocab (GraphBuilder_new sink, ∅) with
  | (s, Ok (token, graph)) => lowered sink s token graph
  | (_, Err _) => True
  | (_, Panic) => False
  end.
Proof.
  unfold lower_graph. unfold op_bind at 1.
  change (on_fst (add_external_input I32 1) (GraphBuilder_new sink, ∅)) with ((token_builder sink, ∅ : gset string), @Ok GgufError Z 0).
  cbv beta iota.
  assert (good (token_builder sink) [0] (token_builder sink, ∅)) as Hstart.
  { split; [apply token_builder_built|intros name; cbn; set_solver]. }
  pose proof (lower_body_runs config vocab sink _ Hstart) as Hruns.
  destruct (lower_body _ _ _ _ _ _) as [s [[token graph]|e|]]; exact Hruns.
Qed.

(** ** Lowered models *)
Lemma find_decl_elem ds d : NoDup (decl_ids ds) → d ∈ ds → find_decl (vd_id d) ds = Some d.
Proof.
  induction ds as [|e ds IH]; cbn; [by intros _ ?%not_elem_of_nil|]. rewrite NoDup_cons. intros [Hnin Hnd].
  intros [->|Hin]%elem_of_cons; [by rewrite Z.eqb_refl|]. destruct (Z.eqb_spec (vd_id e) (vd_id d)) as [He|He]; [|by apply IH].
  exfalso. apply Hnin. rewrite He. apply list_elem_of_fmap. by exists d.
Qed.
Lemma builder_inputs_nodup b : builder_wf b → NoDup (decl_ids (gb_inputs b)).
Proof. intros [_ _ Hs _ _ _ _]. unfold defs in Hs. by apply NoDup_app in Hs as [? _]. Qed.

(** What a lowered model is: its graph validates and takes the tokens as its first
    input, every tensor of the source has a binding, and the tokenizer encodes. *)
Record lowered_model (p : LoweredLlamaParts) : Prop := {
  lm_graph : Graph_validate (lp_graph p) = Ok tt;
  lm_outputs : ∃ logits, g_outputs (lp_graph p) = [logits] ∧ lp_distribution_output p = 0;
  lm_token : find_decl (lp_token_input p) (g_inputs (lp_graph p)) = Some (mkValueDecl (lp_token_input p) (Ir.Tensor I32 1));
  lm_unbound : lp_token_input p ∉ map lb_graph_value (lp_bindings p);
  lm_values : Forall (λ v, 0 ≤ v < 2 ^ 32 - 1) (map lb_graph_value (lp_bindings p));
  lm_bindings : StronglySorted Z.lt (map lb_tensor_id (lp_bindings p)) ∧ NoDup (map lb_graph_value (lp_bindings p));
  lm_consumed : Forall (λ t, ti_name t ∈ map lb_source_name (lp_bindings p)) (gm_tensors model);
  lm_vocabulary : lp_vocabulary_size p = len (NativeTokenizer.tk_tokens (lp_tokenizer p));
  lm_tokenizer : is_ok (encode_native_tokenizer (lp_tokenizer p)) = true;
}.
(** The tensors of a model in memory are what a program loads: well formed, of
    increasing ids, each bound to an input of its type and no two to one. *)
Definition loadable (p : LoweredLlamaParts) : Prop :=
  lp_tensor_shards p = [] ∧
  program_wf (mkNativeProgram (lp_graph p) (lp_tensors p)) (map nt_descriptor (lp_tensors p)) ∧
  Forall2 (λ t bind, tensor_id t = lb_tensor_id bind ∧ nt_graph_value t = Some (lb_graph_value bind)) (lp_tensors p) (lp_bindings p).

Lemma bound_loadable b outputs :
  builder_wf b → well_formed (built_graph b outputs) → Forall2 (bound_to (gb_inputs b)) (gb_tensors b) (gb_bindings b) →
  program_wf (mkNativeProgram (built_graph b outputs) (gb_tensors b)) (map nt_descriptor (gb_tensors b)).
Proof.
  intros Hb Hwf Hall. pose proof (builder_inputs_nodup b Hb) as Hnd. destruct Hb as [_ _ _ _ _ _ (Hsort & _ & Hvalues & _)].
  assert (map tensor_id (gb_tensors b) = map lb_tensor_id (gb_bindings b)) as Eids.
  { clear -Hall. induction Hall as [|t bind ts bs (_ & Hid & _) _ IH]; [done|]. cbn. by rewrite Hid, IH. }
  assert (omap nt_graph_value (gb_tensors b) = map lb_graph_value (gb_bindings b)) as Evalues.
  { clear -Hall. induction Hall as [|t bind ts bs (_ & _ & Hv & _) _ IH]; [done|]. cbn. by rewrite Hv, IH. }
  assert (Forall (λ t, NativeTensor.tensor_wf t ∧ binding_ok (built_graph b outputs) t) (gb_tensors b)) as Hts.
  { clear -Hall Hnd. induction Hall as [|t bind ts bs (Ht & _ & Hv & ty & Hin & Hm) _ IH]; constructor; [|done]. split; [done|].
    intros v Hv'. rewrite Hv in Hv'. injection Hv' as <-. exists (mkValueDecl (lb_graph_value bind) ty).
    split; [exact (find_decl_elem _ _ Hnd Hin)|exact Hm]. }
  split; cbn; [done|by eapply Forall_impl; [exact Hts|]; intros ? []|by rewrite Eids|done|by rewrite Evalues|].
  eapply Forall_impl; [exact Hts|]. by intros ? [].
Qed.

Lemma bound_values b : builder_wf b → Forall (λ v, 0 ≤ v < 2 ^ 32 - 1) (map lb_graph_value (gb_bindings b)).
Proof.
  intros [Hn Hdefs _ _ _ _ (_ & _ & _ & Hdecl)]. eapply Forall_impl; [exact Hdecl|]. intros v Hv.
  assert (v ∈ defs b) as Hd by (unfold defs; apply elem_of_app; by left). apply Hdefs in Hd. lia.
Qed.
Lemma lower_config_no_panic : no_panic (lower_config model).
Proof.
  apply bind_no_panic; [apply architecture_no_panic|intros ? _]. destruct (negb _); [done|].
  apply bind_no_panic; [apply config_no_panic|intros ? _]. apply bind_no_panic; [apply tokenizer_no_panic|intros ? _].
  apply bind_no_panic; [apply lower_tokenizer_no_panic|intros ? _]. apply bind_no_panic; [apply check_tokenizer_no_panic|intros ? _].
  apply bind_no_panic; [apply ok_or_no_panic|done].
Qed.
Lemma lower_config_Ok config tk size vocab :
  lower_config model = Ok (config, tk, size, vocab) →
  size = len (NativeTokenizer.tk_tokens tk) ∧ is_ok (encode_native_tokenizer tk) = true.
Proof.
  unfold lower_config. destruct (architecture model) as [a| |]; [|done..]. destruct (negb _); [done|].
  destruct (LlamaConfig_from_model model); [|done..]. destruct (tokenizer model); [|done..].
  destruct (lower_tokenizer _) as [tk'| |]; [|done..]. destruct (check_tokenizer tk') as [u| |] eqn:Hc; [|done..].
  destruct (ok_or _ _); [|done..]. intros [= _ -> <- _]. split; [done|].
  unfold check_tokenizer in Hc. destruct (check_bpe tk); [|done..]. by destruct (encode_native_tokenizer tk).
Qed.
Lemma lower_internal_spec sink :
  match lower_llama_model_internal source model sink with
  | (sink', Ok p) => lowered_model p ∧ (sink = None ↔ sink' = None) ∧ (sink = None → loadable p)
  | (_, Err _) => True
  | (_, Panic) => False
  end.
Proof.
  unfold lower_llama_model_internal. pose proof lower_config_no_panic as Hcalm.
  destruct (lower_config model) as [[[[config tk] size] vocab]|e|] eqn:Hconfig; [|done|done].
  apply lower_config_Ok in Hconfig as [Hsize Htk]. pose proof (lower_graph_spec config vocab sink) as Hgraph.
  destruct (lower_graph _ _ _ _ _) as [[b names] [[token graph]|e|]]; [|done|done].
  destruct Hgraph as [-> Hb [Hnext Hinputs (more & Hmore & Hfresh) Hs] (logits & ->) Hwf Hconsumed]. cbn [fst snd] in *.
  assert (find_decl 0 (gb_inputs b) = Some (mkValueDecl 0 (Ir.Tensor I32 1))) as Hfind.
  { apply (find_decl_elem _ (mkValueDecl 0 (Ir.Tensor I32 1)) (builder_inputs_nodup b Hb)).
    destruct Hinputs as [rest ->]. cbn. by left. }
  pose proof (bw_bindings b Hb) as (Hsort & _ & Hnd & Hdecl). split_and!.
  - split; [by apply Graph_validate_Ok_iff|by exists logits|exact Hfind| |by apply (bound_values b)|by split|exact Hconsumed|exact Hsize|exact Htk].
    cbn [lp_token_input lp_bindings]. rewrite Hmore. cbn. intros (bind & Hv & Hin)%list_elem_of_fmap. rewrite Forall_forall in Hfresh. apply Hfresh in Hin. cbn in Hin. lia.
  - exact Hs.
  - intros ->. destruct (bw_tensors b Hb (proj1 Hs eq_refl)) as [Hshards Hall]. split_and!; cbn; [done|by apply bound_loadable|].
    eapply Forall2_impl; [exact Hall|]. by intros t bind (_ & ? & ? & _).
Qed.
End builder.

(** ** Streaming the tensors to a sink *)
Section stream.
Context {K : Type} `{TensorShardSink K} `{LoweringMessages}.

(** The shards of tensors stored one after the other. *)
Fixpoint store_all (tensors : list NativeTensor) : op K GgufError (list TensorShardRef) :=
  match tensors with
  | [] => op_ret []
  | t :: tensors => do! shard := store_tensor t in do! shards := store_all tensors in op_ret (shard :: shards)
  end.
Lemma store_all_snoc tensors t k k1 k2 shards shard :
  store_all tensors k = (k1, Ok shards) → store_tensor t k1 = (k2, Ok shard) →
  store_all (tensors ++ [t]) k = (k2, Ok (shards ++ [shard])).
Proof.
  revert k shards. induction tensors as [|x tensors IH]; intros k shards; cbn; unfold op_bind.
  - intros [= <- <-] ->. done.
  - destruct (store_tensor x k) as [k3 [sx|e|]]; [|done..]. destruct (store_all tensors k3) as [k4 [ss|e|]] eqn:Hss; [|done..].
    intros [= -> <-] Ht. by rewrite (IH k3 ss Hss Ht).
Qed.
Definition sink_fails (e : GgufError) : Prop := ∃ t k k', store_tensor (K:=K) t k = (k', Err e).

(** The builder in memory holds the tensors whose shards the streaming one has. *)
Record mirrors (k0 : K) (bm bs : GraphBuilder K) : Prop := {
  mi_value : gb_next_value bm = gb_next_value bs;
  mi_node : gb_next_node bm = gb_next_node bs;
  mi_tensor : gb_next_tensor bm = gb_next_tensor bs;
  mi_inputs : gb_inputs bm = gb_inputs bs;
  mi_nodes : gb_nodes bm = gb_nodes bs;
  mi_bindings : gb_bindings bm = gb_bindings bs;
  mi_memory : gb_tensor_sink bm = None ∧ gb_tensor_shards bm = [] ∧ gb_tensors bs = [];
  mi_stored : ∃ k, gb_tensor_sink bs = Some k ∧ store_all (gb_tensors bm) k0 = (k, Ok (gb_tensor_shards bs));
}.
Definition same {St X} (R : St → St → Prop) (m : op St GgufError X) : Prop := ∀ sm ss, R sm ss →
  match m ss with
  | (ss', Ok x) => ∃ sm', m sm = (sm', Ok x) ∧ R sm' ss'
  | (_, Err e) => (∃ sm', m sm = (sm', Err e)) ∨ sink_fails e
  | (_, Panic) => True
  end.

Lemma same_bind {St X Y} (R : St → St → Prop) (m : op St GgufError X) (f : X → op St GgufError Y) :
  same R m → (∀ x, same R (f x)) → same R (op_bind m f).
Proof.
  intros Hm Hf sm ss HR. specialize (Hm sm ss HR). unfold op_bind. destruct (m ss) as [ss' [x|e|]]; [| |done].
  - destruct Hm as (sm' & -> & HR'). by apply Hf.
  - destruct Hm as [[sm' ->]|Hfail]; [left; by exists sm'|by right].
Qed.
Lemma same_ret {St X} (R : St → St → Prop) (x : X) : same R (op_ret x).
Proof. intros sm ss HR. by exists sm. Qed.
Lemma same_err {St X} (R : St → St → Prop) e : same (X:=X) R (op_err e).
Proof. intros sm ss HR. left. by exists sm. Qed.
Lemma same_lift {St X} (R : St → St → Prop) (r : gguf_result X) : same R (op_lift r).
Proof. intros sm ss HR. unfold op_lift. destruct r; [by exists sm|left; by exists sm|done]. Qed.
Lemma same_if {St X} (R : St → St → Prop) (c : bool) (m1 m2 : op St GgufError X) :
  same R m1 → same R m2 → same R (if c then m1 else m2).
Proof. by destruct c. Qed.

Context (k0 : K).
Notation R := (mirrors k0).

Lemma same_modify f : (∀ bm bs, R bm bs → R (f bm) (f bs)) → same R (modify f).
Proof. intros Hf bm bs HR. exists (f bm). split; [done|by apply Hf]. Qed.
Lemma same_allocate : same R allocate_value.
Proof.
  intros bm bs HR. unfold allocate_value. pose proof HR as [E1 ? ? ? ? ? ? ?]. rewrite E1.
  destruct (try_u32 _) as [v|]; [|left; by exists bm]. eexists. split; [done|]. by split.
Qed.
Lemma same_next_node : same R next_node.
Proof.
  intros bm bs HR. unfold next_node. pose proof HR as [? E1 ? ? ? ? ? ?]. rewrite E1.
  destruct (try_u32 _) as [v|]; [|left; by exists bm]. eexists. split; [done|]. by split.
Qed.
Lemma same_next_tensor : same R next_tensor.
Proof.
  intros bm bs HR. unfold next_tensor. pose proof HR as [? ? E1 ? ? ? ? ?]. rewrite E1.
  destruct (try_u32 _) as [v|]; [|left; by exists bm]. eexists. split; [done|]. by split.
Qed.
Lemma same_keep t : same R (keep_tensor t).
Proof.
  intros bm bs [? ? ? ? ? ? (Hm & Hshards & Hts) (k & Hk & Hstored)]. unfold keep_tensor. rewrite Hm, Hk.
  destruct (store_tensor t k) as [k' [shard|e|]] eqn:Ht; [|right; by exists t, k, k'|done].
  eexists. split; [done|]. split; cbn; try done. exists k'. split; [done|]. by eapply store_all_snoc.
Qed.
Lemma same_finish outputs : same R (finish outputs).
Proof.
  intros bm bs HR. unfold finish. pose proof HR as [? ? ? E1 E2 ? ? ?]. rewrite E1, E2.
  destruct (map_err _ _); [by exists bm|left; by exists bm|done].
Qed.
Lemma same_push_input d : same R (modify (push_input d)).
Proof. apply same_modify. intros bm bs []. split; cbn; congruence || done. Qed.
Lemma same_push_node n : same R (modify (push_node n)).
Proof. apply same_modify. intros bm bs []. split; cbn; congruence || done. Qed.
Lemma same_push_binding x : same R (modify (push_binding x)).
Proof. apply same_modify. intros bm bs []. split; cbn; congruence || done. Qed.

Create HintDb same.
#[local] Hint Resolve same_ret same_err same_lift same_if same_allocate same_next_node same_next_tensor same_keep same_finish
  same_push_input same_push_node same_push_binding : same.
#[local] Hint Extern 1 (same _ (op_bind _ _)) => apply same_bind; [|intros ?] : same.

Lemma same_native name dtype shape payload : same R (add_native_tensor name dtype shape payload).
Proof. unfold add_native_tensor. auto 20 with same. Qed.
#[local] Hint Resolve same_native : same.
Lemma same_scalar v : same R (add_constant_f32_scalar v).
Proof. unfold add_constant_f32_scalar. auto with same. Qed.
Lemma same_vector vs : same R (add_constant_f32_vector vs).
Proof. unfold add_constant_f32_vector. auto 10 with same. Qed.
Lemma same_node o inputs dtype rank : same R (add_node o inputs dtype rank).
Proof. unfold add_node. auto 10 with same. Qed.
Lemma same_input dtype rank : same R (add_external_input dtype rank).
Proof. unfold add_external_input. auto 10 with same. Qed.
#[local] Hint Resolve same_scalar same_vector same_node same_input : same.

(** With the names consumed. *)
Definition mirrors_names (sm ss : GraphBuilder K * gset string) : Prop := R sm.1 ss.1 ∧ sm.2 = ss.2.
Lemma same_fst {X} (m : op (GraphBuilder K) GgufError X) : same R m → same mirrors_names (on_fst m).
Proof.
  intros Hm [bm nm] [bs ns] [HR Hn]. unfold on_fst. cbn [fst snd] in *. specialize (Hm bm bs HR).
  destruct (m bs) as [bs' [x|e|]]; [| |done].
  - destruct Hm as (bm' & -> & HR'). exists (bm', nm). by split.
  - destruct Hm as [[bm' ->]|Hf]; [left; by exists (bm', nm)|by right].
Qed.
Lemma same_consume name : same mirrors_names (consume name).
Proof. intros [bm nm] [bs ns] [HR Hn]. cbn in *. subst. by exists (bm, {[name]} ∪ ns). Qed.
Lemma same_gets (f : gset string → gguf_result ()) : same mirrors_names (op_gets (λ s, f s.2)).
Proof.
  intros [bm nm] [bs ns] [HR Hn]. unfold op_gets. cbn in *. subst.
  destruct (f ns); [by exists (bm, ns)|left; by exists (bm, ns)|done].
Qed.
#[local] Hint Resolve same_fst same_consume same_gets : same.

Context {S : Type} `{GgufByteSource S} (source : S) (model : GgufModel).
Lemma same_source_add name expected transpose_2d : same mirrors_names (source_add source model name expected transpose_2d).
Proof. unfold source_add. auto 12 with same. Qed.
Lemma same_lower_node o inputs rank : same mirrors_names (node o inputs rank).
Proof. unfold node. auto with same. Qed.
#[local] Hint Resolve same_source_add same_lower_node : same.
Lemma same_layer config kv_width sh hidden layer : same mirrors_names (lower_layer source model config kv_width sh hidden layer).
Proof. unfold lower_layer. auto 70 with same. Qed.
#[local] Hint Resolve same_layer : same.
Lemma same_layers config kv_width sh hidden layers : same mirrors_names (lower_layers source model config kv_width sh hidden layers).
Proof. revert hidden. induction layers as [|layer layers IH]; intros hidden; cbn [lower_layers]; auto with same. Qed.
#[local] Hint Resolve same_layers : same.
Lemma same_graph config vocab : same mirrors_names (lower_graph source model config vocab).
Proof. unfold lower_graph, lower_body. auto 50 with same. Qed.
End stream.

Section agreement.
Context {K : Type} `{TensorShardSink K} `{LoweringMessages} {S : Type} `{GgufByteSource S} (source : S) (model : GgufModel).

(** What a model streamed to shards shares with the same model in memory. *)
Record streams (k0 k : K) (p : LoweredLlamaParts) (q : LoweredLlamaParts) : Prop := {
  st_config : lp_config p = lp_config q;
  st_graph : lp_graph p = lp_graph q;
  st_tokenizer : lp_tokenizer p = lp_tokenizer q;
  st_token_input : lp_token_input p = lp_token_input q;
  st_vocabulary : lp_vocabulary_size p = lp_vocabulary_size q;
  st_output : lp_distribution_output p = lp_distribution_output q;
  st_bindings : lp_bindings p = lp_bindings q;
  st_payloads : lp_tensors p = [] ∧ lp_tensor_shards q = [];
  st_shards : store_all (lp_tensors q) k0 = (k, Ok (lp_tensor_shards p));
}.
Lemma lower_internal_streams k0 :
  match lower_llama_model_internal source model (Some k0) with
  | (k', Ok p) => ∃ k q, k' = Some k ∧ (lower_llama_model_internal (K:=K) source model None).2 = Ok q ∧ streams k0 k p q
  | (_, Err e) => (lower_llama_model_internal (K:=K) source model None).2 = Err e ∨ sink_fails (K:=K) e
  | (_, Panic) => True
  end.
Proof.
  unfold lower_llama_model_internal. destruct (lower_config model) as [[[[config tk] size] vocab]|e|]; [|by left|done].
  assert (mirrors_names k0 (GraphBuilder_new (K:=K) None, ∅) (GraphBuilder_new (Some k0), ∅)) as Hinit
    by (do 2 split; try done; by exists k0).
  pose proof (same_graph k0 source model config vocab _ _ Hinit) as Hsame.
  destruct (lower_graph _ _ _ _ (GraphBuilder_new (Some k0), _)) as [[bs ns] [[token graph]|e|]]; [| |done].
  - destruct Hsame as ([bm nm] & -> & [? ? ? ? ? ? (_ & ? & ?) (k & Hk & Hstored)] & _). cbn [fst snd] in *.
    eexists k, _. split; [done|]. split; [done|]. by split.
  - destruct Hsame as [([bm nm] & ->)|Hf]; [by left|by right].
Qed.
End agreement.

(** ** The properties *)
Section properties.
Context {K : Type} `{TensorShardSink K} `{LoweringMessages} {S : Type} `{ExactSource S} (source : S) (model : GgufModel).

(** The program a model in memory is: its graph validates with the distribution as its
    output, its tensors load into the inputs they are bound to, the tokens' input is free,
    every tensor of the source model is used, and the tokenizer encodes. *)
Record lowered_sound (m : LoweredLlamaModel) : Prop := {
  ls_program : program_wf (mkNativeProgram (ll_graph m) (ll_tensors m)) (map nt_descriptor (ll_tensors m));
  ls_output : ∃ logits, g_outputs (ll_graph m) = [logits] ∧ ll_distribution_output m = 0;
  ls_token : find_decl (ll_token_input m) (g_inputs (ll_graph m)) = Some (mkValueDecl (ll_token_input m) (Ir.Tensor I32 1));
  ls_unbound : ll_token_input m ∉ map lb_graph_value (ll_bindings m);
  ls_bindings : Forall2 (λ t bind, tensor_id t = lb_tensor_id bind ∧ nt_graph_value t = Some (lb_graph_value bind))
                  (ll_tensors m) (ll_bindings m);
  ls_consumed : Forall (λ t, ti_name t ∈ map lb_source_name (ll_bindings m)) (gm_tensors model);
  ls_tokenizer : is_ok (encode_native_tokenizer (ll_tokenizer m)) = true ∧
                 ll_vocabulary_size m = len (NativeTokenizer.tk_tokens (ll_tokenizer m));
}.

Lemma parsed_dimensions :
  parse_gguf_source source = Ok model → Forall (λ t, Forall (λ d, 0 ≤ d) (ti_dimensions t)) (gm_tensors model).
Proof.
  unfold parse_gguf_source. destruct (read_model source 0) as [offset r] eqn:Hr. cbn. intros ->.
  apply read_model_Ok in Hr. eapply Forall_impl; [exact (ms_tensors _ _ Hr)|]. intros t Ht.
  eapply Forall_impl; [exact (io_positive _ _ Ht)|]. cbn. lia.
Qed.

(** C37: Lowering a model the reader gave does not panic, to memory or to a sink that does
    not, and what it gives in memory is a program that loads: a valid graph with one output,
    well-formed tensors of increasing ids bound to inputs of their types, a free input of
    the tokens, and no tensor of the source model left out. *)
Theorem lowering_sound :
  sink_calm (K:=K) → parse_gguf_source source = Ok model →
  (∀ k, no_panic (lower_llama_model_to_shards source model k).2) ∧
  match lower_llama_model_from_source (K:=K) source model with
  | Ok m => lowered_sound m
  | Err _ => True
  | Panic => False
  end.
Proof.
  intros Hsink Hdims%parsed_dimensions. split.
  - intros k. pose proof (lower_internal_spec Hsink source model Hdims (Some k)) as Hp. unfold lower_llama_model_to_shards.
    destruct (lower_llama_model_internal _ _ _) as [k' [p|e|]]; [|done|done]. cbn. by destruct (negb _).
  - pose proof (lower_internal_spec Hsink source model Hdims None) as Hp. unfold lower_llama_model_from_source.
    destruct (lower_llama_model_internal _ _ _) as [k' [p|e|]]; [|done|done]. cbn [snd].
    destruct Hp as ([? ? ? ? ? ? ? ? ?] & _ & (Hshards & ? & ?)%(λ f, f eq_refl)). rewrite Hshards. cbn. by split.
Qed.

(** C38: Lowering to a sink is lowering to memory with every tensor stored as it is made:
    the same configuration, graph, tokenizer and bindings, shards that are those the sink
    gives for the tensors in order, and no error but that of lowering to memory or of the
    sink. *)
Theorem streamed_lowering_agrees (k0 : K) :
  match lower_llama_model_to_shards source model k0 with
  | (k, Ok m) => ∃ q, lower_llama_model_from_source (K:=K) source model = Ok q ∧
      sl_config m = ll_config q ∧ sl_graph m = ll_graph q ∧ sl_tokenizer m = ll_tokenizer q ∧
      sl_token_input m = ll_token_input q ∧ sl_distribution_output m = ll_distribution_output q ∧
      sl_vocabulary_size m = ll_vocabulary_size q ∧ sl_bindings m = ll_bindings q ∧
      store_all (ll_tensors q) k0 = (k, Ok (sl_tensor_shards m))
  | (_, Err e) => lower_llama_model_from_source (K:=K) source model = Err e ∨ sink_fails (K:=K) e
  | (_, Panic) => True
  end.
Proof.
  pose proof (lower_internal_streams source model k0) as Hs. unfold lower_llama_model_to_shards, lower_llama_model_from_source.
  destruct (lower_llama_model_internal source model (Some k0)) as [k' [p|e|]]; [| |done].
  - destruct Hs as (k & q & -> & -> & [? ? ? ? ? ? ? (Htensors & Hshards) ?]). cbn. rewrite Htensors, Hshards. cbn.
    eexists. by split_and!.
  - cbn. destruct Hs as [-> |Hf]; [by left|by right].
Qed.
End properties.

(** ** A model of one layer *)
Definition entry_u32 (key : string) (v : Z) : bytes := sample_string key ++ to_le 4 4 ++ to_le 4 v.
Definition entry_string (key v : string) : bytes := sample_string key ++ to_le 4 8 ++ sample_string v.
Definition entry_f32 (key : string) (bits : Z) : bytes := sample_string key ++ to_le 4 6 ++ to_le 4 bits.
Definition sample_info (i : Z) (name : string) (dims : list Z) : bytes :=
  sample_string name ++ to_le 4 (len dims) ++ concat (map (to_le 8) dims) ++ to_le 4 0 ++ to_le 8 (32 * i).
Definition sample_infos : list (string * list Z) :=
  [("token_embd.weight", [2; 2]); ("blk.0.attn_norm.weight", [2]); ("blk.0.attn_q.weight", [2; 2]); ("blk.0.attn_k.weight", [2; 2]);
   ("blk.0.attn_v.weight", [2; 2]); ("blk.0.attn_output.weight", [2; 2]); ("blk.0.ffn_norm.weight", [2]); ("blk.0.ffn_gate.weight", [2; 2]);
   ("blk.0.ffn_up.weight", [2; 2]); ("blk.0.ffn_down.weight", [2; 2]); ("output_norm.weight", [2])]%string.
Definition sample_header : bytes :=
  GGUF_MAGIC ++ to_le 4 3 ++ to_le 8 (len sample_infos) ++ to_le 8 13 ++
  entry_string "general.architecture" "llama" ++ entry_u32 "llama.context_length" 4 ++ entry_u32 "llama.embedding_length" 2 ++
  entry_u32 "llama.block_count" 1 ++ entry_u32 "llama.feed_forward_length" 2 ++ entry_u32 "llama.attention.head_count" 1 ++
  entry_f32 "llama.attention.layer_norm_rms_epsilon" 0x38d1b717 ++
  entry_string "tokenizer.ggml.model" "llama" ++
  sample_string "tokenizer.ggml.tokens" ++ to_le 4 9 ++ to_le 4 8 ++ to_le 8 2 ++ sample_string "a" ++ sample_string "b" ++
  sample_string "tokenizer.ggml.scores" ++ to_le 4 9 ++ to_le 4 6 ++ to_le 8 2 ++ to_le 4 0 ++ to_le 4 0 ++
  sample_string "tokenizer.ggml.token_type" ++ to_le 4 9 ++ to_le 4 5 ++ to_le 8 2 ++ to_le 4 1 ++ to_le 4 1 ++
  entry_u32 "tokenizer.ggml.bos_token_id" 0 ++ entry_u32 "tokenizer.ggml.eos_token_id" 1 ++
  concat (imap (λ i '(name, dims), sample_info (Z.of_nat i) name dims) sample_infos).
Definition sample_llama : bytes :=
  let pad := (- len sample_header) mod 32 in sample_header ++ zeros pad ++ zeros (32 * 11).
#[local] Instance lowering_messages : LoweringMessages := {|
  show_f32 := λ _, ""%string; debug_bpe_error := λ _, ""%string; debug_tokenizer_error := λ _, ""%string; debug_validation_error := λ _, ""%string |}.
(** A sink that counts. *)
#[local] Instance count_sink : TensorShardSink Z := λ t n, (n + 1, Ok (mkShardRef (nt_descriptor t) (nt_graph_value t) (len (nt_payload t)) []))%Z.
Lemma count_sink_calm : sink_calm (K:=Z).
Proof. done. Qed.
Lemma sample_lowers :
  is_ok (let? m := parse_gguf_source sample_llama in lower_llama_model_from_source (K:=Z) sample_llama m) = true.
Proof. vm_compute. reflexivity. Qed.
Lemma lowering_sound_witness : ∃ model m,
  parse_gguf_source sample_llama = Ok model ∧ lower_llama_model_from_source (K:=Z) sample_llama model = Ok m ∧ lowered_sound model m.
Proof.
  pose proof sample_lowers as Hok. destruct (parse_gguf_source sample_llama) as [model| |] eqn:Hm; [|done|done].
  pose proof (lowering_sound (H2:=slice_exact) sample_llama model count_sink_calm Hm) as [_ Hs].
  destruct (lower_llama_model_from_source sample_llama model) as [m| |] eqn:Hl; [|done|done].
  exists model, m. exact (conj eq_refl (conj Hl Hs)).
Defined.
Lemma streamed_lowering_agrees_witness : ∃ model m k q,
  parse_gguf_source sample_llama = Ok model ∧ lower_llama_model_to_shards sample_llama model 0 = (k, Ok m) ∧
  sl_graph m = ll_graph q ∧ store_all (ll_tensors q) 0 = (k, Ok (sl_tensor_shards m)).
Proof.
  assert (is_ok (let? m := parse_gguf_source sample_llama in (lower_llama_model_to_shards sample_llama m 0).2) = true) as Hok
    by (vm_compute; reflexivity).
  destruct (parse_gguf_source sample_llama) as [model| |] eqn:Hm; [|done|done].
  pose proof (streamed_lowering_agrees sample_llama model 0) as Hs.
  destruct (lower_llama_model_to_shards sample_llama model 0) as [k [m| |]] eqn:Hl; [|done|done].
  destruct Hs as (q & _ & _ & Hg & _ & _ & _ & _ & _ & Hst). exists model, m, k, q. exact (conj eq_refl (conj Hl (conj Hg Hst))).
Defined.
End LoweringTheorems.
