(* ===== verification/Backup.v ===== *)
(** Portable assets, the encrypted object store and backups of ntd-portability:
    asset.rs, crypto.rs, store.rs and backup.rs under src/crates/ntd-portability/src/.

    The cipher is the crate chacha20poly1305, a class; the store is the state of its
    operations, so an error keeps what an operation did before it. *)
From S2P Require Import NativeTokenizer Ir Hash Capsule Prelude Text Collections Codec WireFormat WireTables Effects.

(** [XChaCha20Poly1305::new(key).encrypt] and [.decrypt]: key, nonce, associated data, message. *)
Class BackupCipher := {
  xchacha_encrypt : bytes → bytes → bytes → bytes → option bytes;
  xchacha_decrypt : bytes → bytes → bytes → bytes → option bytes;
}.
(** The [Debug] text of a capsule error. *)
Class CapsuleErrorText := { debug_capsule_error : CapsuleError → string }.

Module Backup.

Inductive PortabilityError :=
  | InvalidAsset
  | InvalidCapsule (reason : string)
  | InvalidBackup
  | CryptoFailure
  | IntegrityMismatch
  | MissingObject (digest : Digest)
  | DuplicateAsset
  | EmptyBackup
  | Overflow.
#[export] Instance backup_cursor : CursorErrors PortabilityError :=
  {| err_truncated := InvalidBackup; err_cursor_overflow := Overflow |}.
#[export] Instance backup_errors : FormatErrors PortabilityError :=
  {| err_utf8 := InvalidBackup; err_boolean _ := InvalidBackup; err_non_canonical := InvalidBackup |}.

(** ** Assets *)
Inductive AssetClass := ClassModel | ClassCapability | ClassMemory | ClassState.
#[export] Instance AssetClass_eq_dec : EqDecision AssetClass.
Proof. solve_decision. Defined.
Definition asset_class_tag (c : AssetClass) : Z :=
  match c with ClassModel => 1 | ClassCapability => 2 | ClassMemory => 3 | ClassState => 4 end.
Definition AssetClass_try_from (value : Z) : result PortabilityError AssetClass :=
  if value =? 1 then Ok ClassModel
  else if value =? 2 then Ok ClassCapability
  else if value =? 3 then Ok ClassMemory
  else if value =? 4 then Ok ClassState
  else Err InvalidAsset.

Record PortableAsset := mkAsset {
  pa_class : AssetClass;
  pa_asset_id : string;
  pa_version : Z;
  pa_capsule : bytes;
  pa_digest : Digest;
}.
Definition is_stateful (self : PortableAsset) : bool :=
  match pa_class self with ClassMemory | ClassState => true | _ => false end.
Definition kind_allowed (class : AssetClass) (kind : CapsuleKind) : bool :=
  match class with
  | ClassModel | ClassCapability => match kind with Full | Thin => true | State => false end
  | ClassMemory | ClassState => bool_decide (kind = State)
  end.
Definition from_capsule `{CapsuleErrorText} (class : AssetClass) (asset_id : string) (version : Z) (capsule : bytes)
  : result PortabilityError PortableAsset :=
  let asset_id := trim asset_id in
  if string_is_empty asset_id || (version =? 0) || bool_decide (capsule = []) then Err InvalidAsset
  else
    let? view := map_err (λ e, InvalidCapsule (debug_capsule_error e)) (CapsuleView_read capsule) in
    if negb (kind_allowed class (vw_kind view)) then Err InvalidAsset
    else Ok (mkAsset class asset_id version capsule (sha256 capsule)).
Definition restored_asset (assets : list PortableAsset) (class : AssetClass) (asset_id : string) : option PortableAsset :=
  List.find (λ a, bool_decide (pa_class a = class) && bool_decide (pa_asset_id a = asset_id)) assets.

(** ** Encryption *)
Definition object_nonce (digest : Digest) : bytes := take 24 (sha256 (string_bytes "NTD97-PSI-OBJECT-NONCE-v1" ++ digest)).
Definition object_aad (digest : Digest) (logical_len : Z) : bytes :=
  string_bytes "NTD97-PSI-OBJECT-v1" ++ digest ++ to_le 8 logical_len.
Section cipher.
Context `{BackupCipher}.
Definition BackupKey_seal (key nonce aad plaintext : bytes) : result PortabilityError bytes :=
  ok_or (xchacha_encrypt key nonce aad plaintext) CryptoFailure.
Definition BackupKey_open (key nonce aad ciphertext : bytes) : result PortabilityError bytes :=
  ok_or (xchacha_decrypt key nonce aad ciphertext) CryptoFailure.
End cipher.

(** ** The object store *)
Record EncryptedObject := mkObject { eo_digest : Digest; eo_logical_len : Z; eo_ciphertext : bytes }.
Record SovereignObjectStore := mkStore { os_key : bytes; os_objects : gmap Digest EncryptedObject }.
Definition SovereignObjectStore_new (key : bytes) : SovereignObjectStore := mkStore key ∅.
Definition add_object (object : EncryptedObject) (store : SovereignObjectStore) : SovereignObjectStore :=
  mkStore (os_key store) (<[eo_digest object := object]> (os_objects store)).

Section store.
Context `{BackupCipher}.
Definition decrypt_record (store : SovereignObjectStore) (object : EncryptedObject) : result PortabilityError bytes :=
  let? plaintext := BackupKey_open (os_key store) (object_nonce (eo_digest object))
                      (object_aad (eo_digest object) (eo_logical_len object)) (eo_ciphertext object) in
  if bool_decide (sha256 plaintext = eo_digest object) then Ok plaintext else Err IntegrityMismatch.
Definition store_get (store : SovereignObjectStore) (digest : Digest) : result PortabilityError bytes :=
  let? object := ok_or (os_objects store !! digest) (MissingObject digest) in decrypt_record store object.
Definition store_record (store : SovereignObjectStore) (digest : Digest) : result PortabilityError EncryptedObject :=
  ok_or (os_objects store !! digest) (MissingObject digest).
Definition object_count (store : SovereignObjectStore) : Z := Z.of_nat (size (os_objects store)).

(** The object [bytes] are kept as. *)
Definition encrypt_object (store : SovereignObjectStore) (bs : bytes) (logical_len : Z) : result PortabilityError EncryptedObject :=
  let digest := sha256 bs in
  let? ciphertext := BackupKey_seal (os_key store) (object_nonce digest) (object_aad digest logical_len) bs in
  Ok (mkObject digest logical_len ciphertext).
Definition SovereignObjectStore_insert (bs : bytes) : op SovereignObjectStore PortabilityError Digest := λ store,
  let digest := sha256 bs in
  match try_u64 (len bs) with
  | None => (store, Err Overflow)
  | Some logical_len =>
      match os_objects store !! digest with
      | Some _ =>
          (store, let? restored := store_get store digest in
                  if bool_decide (restored = bs) then Ok digest else Err IntegrityMismatch)
      | None =>
          match encrypt_object store bs logical_len with
          | Ok object => (add_object object store, Ok digest)
          | Err e => (store, Err e)
          | Panic => (store, Panic)
          end
      end
  end.
Definition check_import (store : SovereignObjectStore) (object : EncryptedObject) : result PortabilityError bytes :=
  let? plaintext := decrypt_record store object in
  if negb (bool_decide (sha256 plaintext = eo_digest object)) then Err IntegrityMismatch
  else
    let? length := ok_or (try_u64 (len plaintext)) Overflow in
    if negb (length =? eo_logical_len object) then Err IntegrityMismatch else Ok plaintext.
Definition import (object : EncryptedObject) : op SovereignObjectStore PortabilityError unit := λ store,
  match check_import store object with
  | Ok plaintext =>
      match os_objects store !! eo_digest object with
      | Some existing =>
          (store, let? existing_plaintext := decrypt_record store existing in
                  if bool_decide (existing_plaintext = plaintext) then Ok tt else Err IntegrityMismatch)
      | None => (add_object object store, Ok tt)
      end
  | Err e => (store, Err e)
  | Panic => (store, Panic)
  end.
End store.

(** ** The order of identities and digests *)
Definition Identity : Type := (AssetClass * string) * Z.
#[export] Instance class_countable : Countable AssetClass.
Proof.
  refine (inj_countable' asset_class_tag (λ z, if z =? 1 then ClassModel else if z =? 2 then ClassCapability
    else if z =? 3 then ClassMemory else ClassState) _). by intros [].
Defined.
(** The derived order of a pair. *)
Definition pair_le {A B} `{KeyOrder A, EqDecision A, KeyOrder B} (p q : A * B) : Prop :=
  if decide (p.1 = q.1) then key_le p.2 q.2 else key_le p.1 q.1.
#[export] Instance pair_key_order {A B} `{KeyOrder A, EqDecision A, KeyOrder B} : KeyOrder (A * B).
Proof.
  refine {| key_le := @pair_le A B _ ltac:(assumption) _ |}; unfold pair_le.
  - intros p q. destruct (decide (p.1 = q.1)); apply _.
  - intros [a b] [a' b'] [a'' b'']. cbn. intros H1' H2'. repeat case_decide; subst; try done.
    all: try by etrans.
    match goal with Hne : _ ≠ _ |- _ => destruct Hne end. by apply (anti_symm key_le).
  - intros [a b] [a' b']. cbn. destruct (decide (a = a')) as [->|Hne].
    + rewrite decide_True by done. apply total, _.
    + rewrite decide_False by congruence. apply total, _.
  - intros [a b] [a' b']. cbn. destruct (decide (a = a')) as [->|Hne].
    + rewrite decide_True by done. intros ? ?. f_equal. by apply (anti_symm key_le).
    + rewrite decide_False by congruence. intros ? ?. destruct Hne. by apply (anti_symm key_le).
Defined.
(** The order an injection gives. *)
Definition key_order_by {A K} `{KeyOrder K} (f : A → K) `{!Inj (=) (=) f} : KeyOrder A.
Proof.
  refine {| key_le x y := key_le (f x) (f y) |}.
  - intros x y. apply _.
  - intros x y z. apply transitivity.
  - intros x y. apply total, _.
  - intros x y ? ?. apply (inj f). by apply (anti_symm key_le).
Defined.
#[export] Instance class_tag_inj : Inj (=) (=) asset_class_tag.
Proof. by intros [] []. Qed.
#[export] Instance bytes_string_inj : Inj (=) (=) bytes_string.
Proof. intros a b Hab. by rewrite <- (string_bytes_string a), Hab, string_bytes_string. Qed.
#[export] Instance class_key_order : KeyOrder AssetClass := key_order_by asset_class_tag.
(** The order of byte arrays is that of their strings. *)
#[export] Instance digest_key_order : KeyOrder bytes := key_order_by bytes_string.
(** [previous.is_some_and(|value| key <= value)] fails. *)
Definition above {K} `{KeyOrder K} (previous : option K) (key : K) : bool :=
  match previous with Some value => negb (bool_decide (key_le key value)) | None => true end.

(** ** Backups *)
Inductive BackupKind := BackupFull | BackupThin | BackupState.
#[export] Instance BackupKind_eq_dec : EqDecision BackupKind.
Proof. solve_decision. Defined.
Definition backup_kind_tag (k : BackupKind) : Z := match k with BackupFull => 1 | BackupThin => 2 | BackupState => 3 end.
Definition BackupKind_try_from (value : Z) : result PortabilityError BackupKind :=
  if value =? 1 then Ok BackupFull else if value =? 2 then Ok BackupThin else if value =? 3 then Ok BackupState else Err InvalidBackup.

Definition BACKUP_MAGIC : bytes := string_bytes "PSB97" ++ [zero_byte].
Definition MANIFEST_MAGIC : bytes := string_bytes "PSM97" ++ [zero_byte].
Definition BACKUP_MAJOR : Z := 0.
Definition BACKUP_MINOR : Z := 1.
Definition BACKUP_HEADER_LEN : Z := 64.

Record PortableBackup := mkBackup {
  bk_backup_id : bytes;
  bk_kind : BackupKind;
  bk_manifest_nonce : bytes;
  bk_encrypted_manifest : bytes;
  bk_objects : list EncryptedObject;
}.
Record ManifestAsset := mkManifestAsset {
  ma_class : AssetClass;
  ma_asset_id : string;
  ma_version : Z;
  ma_logical_len : Z;
  ma_digest : Digest;
}.
Definition ma_identity (a : ManifestAsset) : Identity := (ma_class a, ma_asset_id a, ma_version a).
Definition asset_identity (a : PortableAsset) : Identity := (pa_class a, pa_asset_id a, pa_version a).

(** *** The container *)
Definition encode_object (out : bytes) (object : EncryptedObject) : result PortabilityError bytes :=
  let out := push_u64 (out ++ eo_digest object) (eo_logical_len object) in
  let? n := ok_or (try_u64 (len (eo_ciphertext object))) Overflow in
  Ok (push_u64 out n ++ eo_ciphertext object).
Definition PortableBackup_encode (self : PortableBackup) : result PortabilityError bytes :=
  if bool_decide (bk_encrypted_manifest self = []) then Err InvalidBackup
  else
    let out := push_u16 (push_u16 BACKUP_MAGIC BACKUP_MAJOR) BACKUP_MINOR in
    let out := push_u8 (push_u8 out (backup_kind_tag (bk_kind self))) 0 in
    let out := out ++ bk_backup_id self ++ bk_manifest_nonce self in
    let? manifest_len := ok_or (try_u64 (len (bk_encrypted_manifest self))) Overflow in
    let out := push_u64 out manifest_len in
    let? object_count := ok_or (try_u32 (len (bk_objects self))) Overflow in
    let out := push_u32 out object_count in
    if negb (len out =? BACKUP_HEADER_LEN) then Err InvalidBackup
    else fold_result encode_object (out ++ bk_encrypted_manifest self) (bk_objects self).

Definition read_usize : decoder PortabilityError Z :=
  dec! n <- read_u64; dec_lift (ok_or (try_usize n) Overflow).
Definition decode_object (previous : option Digest) : decoder PortabilityError EncryptedObject :=
  dec! digest <- take_bytes 32;
  dec! _ <- dec_guard (above previous digest) InvalidBackup;
  dec! logical_len <- read_u64;
  dec! cipher_len <- read_usize;
  dec! ciphertext <- take_bytes cipher_len;
  dec_ret (mkObject digest logical_len ciphertext).
Fixpoint decode_objects (n : nat) (previous : option Digest) : decoder PortabilityError (list EncryptedObject) :=
  match n with
  | O => dec_ret []
  | S n =>
      dec! object <- decode_object previous;
      dec! objects <- decode_objects n (Some (eo_digest object));
      dec_ret (object :: objects)
  end.
Definition decode_version (magic : bytes) : decoder PortabilityError unit :=
  dec! found <- take_bytes 6;
  dec! _ <- dec_guard (bool_decide (found = magic)) InvalidBackup;
  dec! major <- read_u16;
  dec! _ <- dec_guard (major =? BACKUP_MAJOR) InvalidBackup;
  dec! minor <- read_u16;
  dec_guard (minor <=? BACKUP_MINOR) InvalidBackup.
Definition decode_backup : decoder PortabilityError PortableBackup :=
  dec! _ <- decode_version BACKUP_MAGIC;
  dec! tag <- read_u8;
  dec! kind <- dec_lift (BackupKind_try_from tag);
  dec! reserved <- read_u8;
  dec! _ <- dec_guard (reserved =? 0) InvalidBackup;
  dec! backup_id <- take_bytes 16;
  dec! manifest_nonce <- take_bytes 24;
  dec! manifest_len <- read_usize;
  dec! count <- read_u32;
  dec! object_count <- dec_lift (ok_or (try_usize count) Overflow);
  dec! encrypted_manifest <- take_bytes manifest_len;
  dec! objects <- decode_objects (Z.to_nat object_count) None;
  dec! _ <- dec_guard (negb (bool_decide (encrypted_manifest = []))) InvalidBackup;
  dec! _ <- expect_finished InvalidBackup;
  dec_ret (mkBackup backup_id kind manifest_nonce encrypted_manifest objects).
Definition PortableBackup_decode (bs : bytes) : result PortabilityError PortableBackup := run_decoder decode_backup bs.

(** *** The manifest *)
Definition encode_asset (out : bytes) (asset : ManifestAsset) : result PortabilityError bytes :=
  let out := push_u32 (push_u8 out (asset_class_tag (ma_class asset))) (ma_version asset) in
  let? out := push_string out (ma_asset_id asset) in
  Ok (push_u64 out (ma_logical_len asset) ++ ma_digest asset).
Definition encode_manifest (kind : BackupKind) (backup_id : bytes) (assets : list ManifestAsset) : result PortabilityError bytes :=
  let out := push_u16 (push_u16 MANIFEST_MAGIC BACKUP_MAJOR) BACKUP_MINOR in
  let out := push_u8 (push_u8 out (backup_kind_tag kind)) 0 in
  let out := out ++ backup_id in
  let? n := ok_or (try_u32 (len assets)) Overflow in
  fold_result encode_asset (push_u32 out n) assets.
Definition decode_asset (previous : option Identity) : decoder PortabilityError ManifestAsset :=
  dec! tag <- read_u8;
  dec! class <- dec_lift (AssetClass_try_from tag);
  dec! version <- read_u32;
  dec! asset_id <- read_string;
  dec! _ <- dec_guard (negb ((version =? 0) || is_blank asset_id)) InvalidBackup;
  dec! _ <- dec_guard (above previous (class, asset_id, version)) InvalidBackup;
  dec! logical_len <- read_u64;
  dec! digest <- take_bytes 32;
  dec_ret (mkManifestAsset class asset_id version logical_len digest).
Fixpoint decode_assets (n : nat) (previous : option Identity) : decoder PortabilityError (list ManifestAsset) :=
  match n with
  | O => dec_ret []
  | S n =>
      dec! asset <- decode_asset previous;
      dec! assets <- decode_assets n (Some (ma_identity asset));
      dec_ret (asset :: assets)
  end.
Definition decode_manifest_fields (expected_kind : BackupKind) (expected_id : bytes)
  : decoder PortabilityError (list ManifestAsset) :=
  dec! _ <- decode_version MANIFEST_MAGIC;
  dec! tag <- read_u8;
  dec! kind <- dec_lift (BackupKind_try_from tag);
  dec! _ <- dec_guard (bool_decide (kind = expected_kind)) InvalidBackup;
  dec! reserved <- read_u8;
  dec! _ <- dec_guard (reserved =? 0) InvalidBackup;
  dec! backup_id <- take_bytes 16;
  dec! _ <- dec_guard (bool_decide (backup_id = expected_id)) InvalidBackup;
  dec! count <- read_u32;
  dec! n <- dec_lift (ok_or (try_usize count) Overflow);
  dec! assets <- decode_assets (Z.to_nat n) None;
  dec! _ <- dec_guard (negb (bool_decide (assets = []))) InvalidBackup;
  dec! _ <- expect_finished InvalidBackup;
  dec_ret assets.
Definition decode_manifest (bs : bytes) (expected_kind : BackupKind) (expected_id : bytes)
  : result PortabilityError (list ManifestAsset) := run_decoder (decode_manifest_fields expected_kind expected_id) bs.
Definition manifest_aad (kind : BackupKind) (backup_id : bytes) : bytes :=
  push_u8 (string_bytes "NTD97-PSI-MANIFEST-v1") (backup_kind_tag kind) ++ backup_id.

(** *** Creating and restoring *)
Section backups.
Context `{BackupCipher, CapsuleErrorText}.
Definition selected (kind : BackupKind) (asset : PortableAsset) : bool :=
  negb (bool_decide (kind = BackupState)) || is_stateful asset.
Fixpoint add_assets (seen : gset Identity) (manifest : list ManifestAsset) (assets : list PortableAsset)
  : op SovereignObjectStore PortabilityError (list ManifestAsset) :=
  match assets with
  | [] => op_ret manifest
  | asset :: rest =>
      if bool_decide (asset_identity asset ∈ seen) then op_err DuplicateAsset
      else
        do! digest := SovereignObjectStore_insert (pa_capsule asset) in
        if negb (bool_decide (digest = pa_digest asset)) then op_err IntegrityMismatch
        else
          do! logical_len := op_lift (ok_or (try_u64 (len (pa_capsule asset))) Overflow) in
          add_assets ({[asset_identity asset]} ∪ seen)
            (manifest ++ [mkManifestAsset (pa_class asset) (pa_asset_id asset) (pa_version asset) logical_len digest]) rest
  end.
(** [manifest_assets.sort_by] the identities. *)
Definition identity_le (a b : ManifestAsset) : Prop := key_le (ma_identity a) (ma_identity b).
#[export] Instance identity_le_dec : RelDecision identity_le.
Proof. intros a b. unfold identity_le. apply _. Defined.
Definition sort_manifest (l : list ManifestAsset) : list ManifestAsset := merge_sort identity_le l.
Definition backup_objects (kind : BackupKind) (manifest : list ManifestAsset) (store : SovereignObjectStore)
  : result PortabilityError (list EncryptedObject) :=
  if bool_decide (kind = BackupThin) then Ok []
  else map_result (store_record store) (dedup (sort (map ma_digest manifest))).
Definition create (kind : BackupKind) (backup_id manifest_nonce : bytes) (assets : list PortableAsset)
  : op SovereignObjectStore PortabilityError PortableBackup :=
  let chosen := List.filter (selected kind) assets in
  if bool_decide (chosen = []) then op_err EmptyBackup
  else
    do! manifest_assets := add_assets ∅ [] chosen in
    let manifest_assets := sort_manifest manifest_assets in
    do! manifest := op_lift (encode_manifest kind backup_id manifest_assets) in
    do! encrypted_manifest := op_gets (λ store, BackupKey_seal (os_key store) manifest_nonce (manifest_aad kind backup_id) manifest) in
    do! objects := op_gets (backup_objects kind manifest_assets) in
    op_ret (mkBackup backup_id kind manifest_nonce encrypted_manifest objects).

Definition restore_entry (staged : SovereignObjectStore) (entry : ManifestAsset) : result PortabilityError PortableAsset :=
  let? capsule := store_get staged (ma_digest entry) in
  let? length := ok_or (try_u64 (len capsule)) Overflow in
  if negb (length =? ma_logical_len entry) then Err IntegrityMismatch
  else
    let? asset := from_capsule (ma_class entry) (ma_asset_id entry) (ma_version entry) capsule in
    if negb (bool_decide (pa_digest asset = ma_digest entry)) then Err IntegrityMismatch else Ok asset.
Definition restore_staged (backup : PortableBackup) : op SovereignObjectStore PortabilityError (list PortableAsset) :=
  do! _ := op_each import (bk_objects backup) in
  op_gets (λ staged,
    let? manifest := BackupKey_open (os_key staged) (bk_manifest_nonce backup) (manifest_aad (bk_kind backup) (bk_backup_id backup))
                       (bk_encrypted_manifest backup) in
    let? entries := decode_manifest manifest (bk_kind backup) (bk_backup_id backup) in
    map_result (restore_entry staged) entries).
(** The store is replaced by the staged one at the end only. *)
Definition restore_backup (backup : PortableBackup) : op SovereignObjectStore PortabilityError (list PortableAsset) := λ store,
  match restore_staged backup store with
  | (staged, Ok assets) => (staged, Ok assets)
  | (_, r) => (store, r)
  end.
End backups.
End Backup.
