(* ===== verification/BackupTheorems.v ===== *)
(** Backups come back: what the object store keeps, the two codecs of a backup, and
    that restoring gives the assets a backup was made of, or nothing at all. *)
From S2P Require Import NativeTokenizer Ir Hash Capsule CapsuleLayout Prelude Text Collections Codec WireFormat WireTables Effects Backup.

Module BackupTheorems.
Import Backup.

(** The documented laws of the cipher: what was encrypted decrypts, and what is too long is not. *)
Class BackupCipherLaws `{BackupCipher} := {
  xchacha_decrypts : ∀ key nonce aad m c, xchacha_encrypt key nonce aad m = Some c → xchacha_decrypt key nonce aad c = Some m;
  (** The counter of blocks limits a message. *)
  xchacha_limit : ∀ key nonce aad m c, xchacha_encrypt key nonce aad m = Some c → len m < 2 ^ 38;
}.

#[export] Instance kind_tag : EnumTag backup_kind_tag BackupKind_try_from.
Proof. unfold BackupKind_try_from. enum_tag. Qed.
#[export] Instance class_tag : EnumTag asset_class_tag AssetClass_try_from.
Proof. unfold AssetClass_try_from. enum_tag. Qed.

(** ** Ascending sequences *)
Section ascending.
Context {K : Type} `{KeyOrder K, EqDecision K}.
Fixpoint ascending_from (previous : option K) (l : list K) : Prop :=
  match l with [] => True | k :: l => above previous k = true ∧ ascending_from (Some k) l end.
Lemma above_spec p k : above (Some p) k = true ↔ key_le p k ∧ p ≠ k.
Proof.
  cbn. rewrite negb_true_iff, bool_decide_eq_false. split.
  - intros Hn. destruct (total key_le k p) as [?|Hle]; [done|]. split; [done|]. by intros ->.
  - intros [Hle Hne] Hle'. apply Hne. by apply (anti_symm key_le).
Qed.
Lemma ascending_strict l : strictly_ascending l = true → ascending_from None l.
Proof.
  destruct l as [|x l]; [done|]. intros Hs. split; [done|]. revert x Hs. induction l as [|y l IH]; intros x Hs; [done|].
  cbn [strictly_ascending] in Hs. apply andb_true_iff in Hs as [Hxy%bool_decide_eq_true Hs]. split; [by apply above_spec|]. by apply IH.
Qed.
Lemma ascending_sorted l : StronglySorted key_le l → NoDup l → ascending_from None l.
Proof.
  intros Hs Hnd. apply ascending_strict. induction Hs as [|x l Hs IH Hall]; [done|]. apply NoDup_cons in Hnd as [Hni Hnd].
  specialize (IH Hnd). destruct l as [|y l]; [done|]. cbn [strictly_ascending]. rewrite bool_decide_true; [done|].
  split; [by apply Forall_inv in Hall|]. intros ->. apply Hni. by left.
Qed.
Lemma ascending_all p l : ascending_from (Some p) l → Forall (λ k, key_le p k ∧ p ≠ k) l.
Proof.
  revert p. induction l as [|k l IH]; intros p; [done|]. intros [Hk%above_spec Hl]. constructor; [done|].
  eapply Forall_impl; [exact (IH k Hl)|]. intros j [Hj Hne]. destruct Hk as [Hpk Hne']. split; [by etrans|].
  intros ->. apply Hne. by apply (anti_symm key_le).
Qed.
Lemma ascending_NoDup p l : ascending_from p l → NoDup l.
Proof.
  revert p. induction l as [|k l IH]; intros p; [constructor|]. intros [_ Hl]. constructor; [|by eapply IH].
  intros Hin. pose proof (ascending_all _ _ Hl) as Hall. rewrite Forall_forall in Hall. by destruct (Hall k Hin).
Qed.
End ascending.

(** ** The container's codec *)
Definition object_typed (o : EncryptedObject) : Prop := is_digest (eo_digest o) ∧ in_u64 (eo_logical_len o).
Definition object_bytes (o : EncryptedObject) : bytes :=
  eo_digest o ++ to_le 8 (eo_logical_len o) ++ to_le 8 (len (eo_ciphertext o)) ++ eo_ciphertext o.
Lemma encode_object_emits o : emits (λ out, encode_object out o) (len (eo_ciphertext o) < 2 ^ 64) (object_bytes o).
Proof.
  intros out r. unfold encode_object, push_u64, object_bytes, try_u64. destruct (Z.ltb_spec (len (eo_ciphertext o)) (2 ^ 64)); cbn [ok_or].
  - rewrite Ok_iff, <- !app_assoc. tauto.
  - split; [done|lia].
Qed.
Lemma reads_usize n : in_u64 n → reads read_usize (to_le 8 n) n.
Proof.
  intros Hn. unfold read_usize. eapply reads_bind_last; [by apply reads_u64|]. apply reads_lift, ok_or_try_u64. unfold in_u64 in Hn. lia.
Qed.
#[local] Hint Resolve reads_usize : reads.
Lemma reads_object previous o :
  object_typed o → above previous (eo_digest o) = true → len (eo_ciphertext o) < 2 ^ 64 →
  reads (decode_object previous) (object_bytes o) o.
Proof.
  intros [Hd Hl] Ha Hc. assert (in_u64 (len (eo_ciphertext o))) by (unfold in_u64; len_lia).
  destruct o as [d l c]. unfold decode_object, object_bytes. cbn in *. unfold is_digest in Hd. solve_reads.
Qed.
Lemma reads_objects previous os :
  Forall object_typed os → ascending_from previous (map eo_digest os) → Forall (λ o, len (eo_ciphertext o) < 2 ^ 64) os →
  reads (decode_objects (length os) previous) (concat (map object_bytes os)) os.
Proof.
  revert previous. induction os as [|o os IH]; intros previous; [intros; apply reads_ret|].
  intros [Ho Hos]%Forall_cons [Ha Has] [Hc Hcs]%Forall_cons. cbn [length decode_objects map concat].
  eapply reads_bind; [by apply reads_object|]. rewrite <- (app_nil_r (concat _)). eapply reads_bind; [by apply IH|]. apply reads_ret.
Qed.

Record backup_typed (b : PortableBackup) : Prop := {
  bt_id : len (bk_backup_id b) = 16;
  bt_nonce : len (bk_manifest_nonce b) = 24;
  bt_objects : Forall object_typed (bk_objects b);
  bt_ascending : ascending_from None (map eo_digest (bk_objects b));
}.
Definition version_bytes (magic : bytes) : bytes := magic ++ to_le 2 BACKUP_MAJOR ++ to_le 2 BACKUP_MINOR.
Lemma reads_version magic : len magic = 6 → reads (decode_version magic) (version_bytes magic) tt.
Proof.
  intros Hm. unfold decode_version, version_bytes. eapply reads_bind; [by apply reads_take|].
  eapply reads_bind_nil; [apply reads_guard; by apply bool_decide_eq_true|].
  eapply reads_bind; [apply reads_u16; unfold in_u16, BACKUP_MAJOR; lia|]. eapply reads_bind_nil; [by apply reads_guard|].
  eapply reads_bind_last; [apply reads_u16; unfold in_u16, BACKUP_MINOR; lia|]. by apply reads_guard.
Qed.
Definition backup_bytes (b : PortableBackup) : bytes :=
  version_bytes BACKUP_MAGIC ++ to_le 1 (backup_kind_tag (bk_kind b)) ++ to_le 1 0 ++ bk_backup_id b ++ bk_manifest_nonce b ++
  to_le 8 (len (bk_encrypted_manifest b)) ++ to_le 4 (len (bk_objects b)) ++ bk_encrypted_manifest b ++
  concat (map object_bytes (bk_objects b)).
Lemma encode_backup_Ok b bs :
  PortableBackup_encode b = Ok bs →
  bk_encrypted_manifest b ≠ [] ∧ in_u64 (len (bk_encrypted_manifest b)) ∧ in_u32 (len (bk_objects b)) ∧
  Forall (λ o, len (eo_ciphertext o) < 2 ^ 64) (bk_objects b) ∧ bs = backup_bytes b.
Proof.
  unfold PortableBackup_encode. case_bool_decide as Hne; [done|]. unfold try_u64, try_u32.
  destruct (Z.ltb_spec (len (bk_encrypted_manifest b)) (2 ^ 64)) as [Hm|]; cbn [ok_or]; [|done].
  destruct (Z.ltb_spec (len (bk_objects b)) (2 ^ 32)) as [Ho|]; cbn [ok_or]; [|done].
  destruct (negb _); [done|]. intros [Hf ->]%(emits_each encode_object _ _ _ encode_object_emits).
  split_and!; [done|unfold in_u64; len_lia|unfold in_u32; len_lia|done|].
  unfold backup_bytes, version_bytes, push_u64, push_u32, push_u16, push_u8. by rewrite <- !app_assoc.
Qed.
Lemma backup_decodes b bs :
  backup_typed b → PortableBackup_encode b = Ok bs → len bs < 2 ^ 64 → PortableBackup_decode bs = Ok b.
Proof.
  intros [Hid Hnonce Hos Hasc] (Hne & Hm & Hn & Hc & ->)%encode_backup_Ok Hlen. destruct b as [id kind nonce manifest objects].
  unfold PortableBackup_decode. apply run_decoder_reads; [done|]. unfold decode_backup, backup_bytes.
  cbn [bk_kind bk_backup_id bk_manifest_nonce bk_encrypted_manifest bk_objects] in *.
  eapply reads_end_bind; [by apply reads_version|]. eapply reads_end_bind; [eapply reads_tag; exact _|].
  eapply reads_end_bind_nil; [apply reads_lift, tag_try|]. eapply reads_end_bind; [by apply reads_u8|].
  eapply reads_end_bind_nil; [by apply reads_guard|]. eapply reads_end_bind; [by apply reads_take|].
  eapply reads_end_bind; [by apply reads_take|]. eapply reads_end_bind; [by apply reads_usize|]. eapply reads_end_bind; [by apply reads_u32|].
  eapply reads_end_bind_nil; [apply reads_lift, ok_or_try_u64; split; [reflexivity|]; unfold in_u32 in Hn; lia|].
  eapply reads_end_bind; [by apply reads_take|]. rewrite to_nat_len, <- (app_nil_r (concat _)).
  eapply reads_end_bind; [by apply reads_objects|]. eapply reads_end_bind_nil; [apply reads_guard; by rewrite bool_decide_false|].
  apply reads_end_finished, reads_reads_end, reads_ret.
Qed.

(** ** The manifest's codec *)
Definition asset_bytes (a : ManifestAsset) : bytes :=
  to_le 1 (asset_class_tag (ma_class a)) ++ to_le 4 (ma_version a) ++ wf_enc push_string read_string (ma_asset_id a) ++
  to_le 8 (ma_logical_len a) ++ ma_digest a.
Record entry_typed (a : ManifestAsset) : Prop := {
  et_version : in_u32 (ma_version a) ∧ ma_version a ≠ 0;
  et_id : is_utf8 (ma_asset_id a) ∧ is_blank (ma_asset_id a) = false;
  et_len : in_u64 (ma_logical_len a);
  et_digest : is_digest (ma_digest a);
}.
Lemma encode_asset_emits a : emits (λ out, encode_asset out a) (wf_fits push_string read_string (ma_asset_id a)) (asset_bytes a).
Proof. intros out r. unfold encode_asset, push_u32, push_u8, push_u64, asset_bytes. cbv zeta. emit_steps. tauto. Qed.
Lemma reads_asset previous a :
  entry_typed a → above previous (ma_identity a) = true → wf_fits push_string read_string (ma_asset_id a) →
  reads (decode_asset previous) (asset_bytes a) a.
Proof.
  intros [[Hv Hv0] [Hu Hb] Hl Hd] Ha Hf. destruct a as [class id version length digest]. unfold decode_asset, asset_bytes, ma_identity in *.
  cbn in *. eapply reads_bind; [eapply reads_tag; exact _|]. eapply reads_bind_nil; [apply reads_lift, tag_try|].
  eapply reads_bind; [by apply reads_u32|]. eapply reads_bind; [by apply reads_string|].
  eapply reads_bind_nil; [apply reads_guard; by rewrite Hb, (proj2 (Z.eqb_neq _ _) Hv0)|]. eapply reads_bind_nil; [by apply reads_guard|].
  eapply reads_bind; [by apply reads_u64|]. eapply reads_bind_last; [by apply reads_take|]. apply reads_ret.
Qed.
Lemma reads_assets previous l :
  Forall entry_typed l → ascending_from previous (map ma_identity l) →
  Forall (λ a, wf_fits push_string read_string (ma_asset_id a)) l →
  reads (decode_assets (length l) previous) (concat (map asset_bytes l)) l.
Proof.
  revert previous. induction l as [|a l IH]; intros previous; [intros; apply reads_ret|].
  intros [Ha Hl]%Forall_cons [Hp Hps] [Hf Hfs]%Forall_cons. cbn [length decode_assets map concat].
  eapply reads_bind; [by apply reads_asset|]. rewrite <- (app_nil_r (concat _)). eapply reads_bind; [by apply IH|]. apply reads_ret.
Qed.
Lemma manifest_decodes kind id l bs :
  len id = 16 → l ≠ [] → Forall entry_typed l → ascending_from None (map ma_identity l) →
  encode_manifest kind id l = Ok bs → len bs < 2 ^ 64 → decode_manifest bs kind id = Ok l.
Proof.
  intros Hid Hne Htyped Hasc Hbs Hlen. unfold encode_manifest, try_u32 in Hbs.
  destruct (Z.ltb_spec (len l) (2 ^ 32)) as [Hn|]; cbn [ok_or] in Hbs; [|done].
  apply (emits_each encode_asset _ _ _ encode_asset_emits) in Hbs as [Hf ->]. unfold decode_manifest. apply run_decoder_reads; [done|].
  unfold push_u8, push_u16, push_u32, decode_manifest_fields. rewrite <- !app_assoc.
  rewrite (app_assoc (to_le 2 BACKUP_MAJOR)), (app_assoc MANIFEST_MAGIC). change (MANIFEST_MAGIC ++ _ ++ _) with (version_bytes MANIFEST_MAGIC).
  eapply reads_end_bind; [by apply reads_version|]. eapply reads_end_bind; [eapply reads_tag; exact _|].
  eapply reads_end_bind_nil; [apply reads_lift, tag_try|]. eapply reads_end_bind_nil; [apply reads_guard; by rewrite bool_decide_true|].
  eapply reads_end_bind; [by apply reads_u8|]. eapply reads_end_bind_nil; [by apply reads_guard|].
  eapply reads_end_bind; [by apply reads_take|]. eapply reads_end_bind_nil; [apply reads_guard; by rewrite bool_decide_true|].
  eapply reads_end_bind; [apply reads_u32; unfold in_u32; len_lia|].
  eapply reads_end_bind_nil; [apply reads_lift, ok_or_try_u64; split; [reflexivity|lia]|]. rewrite to_nat_len, <- (app_nil_r (concat _)).
  eapply reads_end_bind; [by apply reads_assets|]. eapply reads_end_bind_nil; [apply reads_guard; by rewrite bool_decide_false|].
  apply reads_end_finished, reads_reads_end, reads_ret.
Qed.

(** ** The store *)
Section store.
Context `{BackupCipherLaws}.
Implicit Types store : SovereignObjectStore.

(** An object decrypts under a key to its plaintext. *)
Definition decrypts (key : bytes) (o : EncryptedObject) (p : bytes) : Prop :=
  BackupKey_open key (object_nonce (eo_digest o)) (object_aad (eo_digest o) (eo_logical_len o)) (eo_ciphertext o) = Ok p ∧
  sha256 p = eo_digest o.
Lemma decrypt_record_Ok store o p : decrypt_record store o = Ok p ↔ decrypts (os_key store) o p.
Proof.
  unfold decrypt_record, decrypts. destruct (BackupKey_open _ _ _ _) as [q| |]; [|by split; [|intros []]..].
  case_bool_decide as Hq; split; [by intros [= <-]|by intros [[= <-] _]|done|]. by intros [[= <-] ?].
Qed.
Lemma open_no_panic key nonce aad c : no_panic (BackupKey_open key nonce aad c).
Proof. apply ok_or_no_panic. Qed.
Lemma decrypt_record_no_panic store o : no_panic (decrypt_record store o).
Proof. apply bind_no_panic; [apply open_no_panic|intros ? _]. by destruct (bool_decide _). Qed.
Lemma store_get_Ok store d p : store_get store d = Ok p ↔ ∃ o, os_objects store !! d = Some o ∧ decrypts (os_key store) o p.
Proof.
  unfold store_get. destruct (os_objects store !! d) as [o|]; cbn [ok_or].
  - rewrite decrypt_record_Ok. naive_solver.
  - split; [done|]. by intros (? & ? & _).
Qed.

(** Every object is under its digest and decrypts to as many bytes as it says. *)
Definition object_sound (key : bytes) (d : Digest) (o : EncryptedObject) : Prop :=
  eo_digest o = d ∧ in_u64 (eo_logical_len o) ∧ ∃ p, decrypts key o p ∧ len p = eo_logical_len o.
Definition store_sound store : Prop := map_Forall (object_sound (os_key store)) (os_objects store).
(** A store that keeps what another has. *)
Definition grows store store' : Prop := os_key store' = os_key store ∧ os_objects store ⊆ os_objects store'.
#[export] Instance grows_preorder : PreOrder grows.
Proof. split; [by intros s|]. intros s1 s2 s3 [E1 H1] [E2 H2]. split; [congruence|by etrans]. Qed.

Lemma grows_get store store' d p : grows store store' → store_get store d = Ok p → store_get store' d = Ok p.
Proof.
  intros [Hk Hsub]. rewrite !store_get_Ok, Hk. intros (o & Ho & Hp). exists o. split; [|done]. by eapply lookup_weaken.
Qed.
Lemma add_object_grows store o :
  os_objects store !! eo_digest o = None → store_sound store → object_sound (os_key store) (eo_digest o) o →
  store_sound (add_object o store) ∧ grows store (add_object o store).
Proof. intros Hnew Hs Ho. split; [by apply map_Forall_insert_2|]. split; [done|]. by apply insert_subseteq. Qed.

Lemma object_insert_spec store bs :
  store_sound store →
  match SovereignObjectStore_insert bs store with
  | (store', Ok d) => d = sha256 bs ∧ store_sound store' ∧ grows store store' ∧ store_get store' d = Ok bs ∧ in_u64 (len bs)
  | (store', Err _) => store' = store
  | (_, Panic) => False
  end.
Proof.
  intros Hs. unfold SovereignObjectStore_insert, try_u64. destruct (Z.ltb_spec (len bs) (2 ^ 64)) as [Hl|]; [|done].
  assert (in_u64 (len bs)) as Hu by (unfold in_u64; len_lia).
  destruct (os_objects store !! sha256 bs) as [o|] eqn:Ho.
  - destruct (store_get store (sha256 bs)) as [p|e|] eqn:Hp; [|done|].
    + case_bool_decide; [subst; by split_and!|done].
    + unfold store_get in Hp. rewrite Ho in Hp. cbn in Hp. by apply decrypt_record_no_panic in Hp.
  - unfold encrypt_object, BackupKey_seal. destruct (xchacha_encrypt _ _ _ _) as [c|] eqn:Hc; cbn [ok_or]; [|done].
    set (o := mkObject (sha256 bs) (len bs) c).
    assert (decrypts (os_key store) o bs) as Hd by (split; [|done]; unfold BackupKey_open, o; cbn [eo_digest eo_logical_len eo_ciphertext]; by rewrite (xchacha_decrypts _ _ _ _ _ Hc)).
    destruct (add_object_grows store o) as [Hs' Hg]; [done|done|exact (conj eq_refl (conj Hu (ex_intro _ bs (conj Hd eq_refl))))|]. split_and!; [done..| |done].
    apply store_get_Ok. exists o. split; [by apply lookup_insert_eq|done].
Qed.

Lemma check_import_spec store o :
  match check_import store o with
  | Ok p => decrypts (os_key store) o p ∧ len p = eo_logical_len o ∧ in_u64 (len p)
  | Err _ => True
  | Panic => False
  end.
Proof.
  unfold check_import. pose proof (decrypt_record_no_panic store o). destruct (decrypt_record store o) as [p|e|] eqn:Hp; [|done|done].
  apply decrypt_record_Ok in Hp. rewrite bool_decide_true by apply Hp. cbn. unfold try_u64.
  destruct (Z.ltb_spec (len p) (2 ^ 64)); cbn [ok_or]; [|done]. destruct (Z.eqb_spec (len p) (eo_logical_len o)); cbn; [|done].
  split_and!; [done..|]. unfold in_u64. len_lia.
Qed.
Lemma import_spec store o :
  store_sound store →
  match import o store with
  | (store', Ok _) => store_sound store' ∧ grows store store' ∧ ∃ p, decrypts (os_key store) o p ∧ store_get store' (eo_digest o) = Ok p
  | (_, Err _) => True
  | (_, Panic) => False
  end.
Proof.
  intros Hs. unfold import. pose proof (check_import_spec store o) as Hc. destruct (check_import store o) as [p|e|]; [|done|done].
  destruct Hc as (Hp & Hl & Hu). destruct (os_objects store !! eo_digest o) as [o'|] eqn:Ho.
  - pose proof (decrypt_record_no_panic store o'). destruct (decrypt_record store o') as [p'|e|] eqn:Hp'; [|done|done].
    case_bool_decide; [subst|done]. split_and!; [done..|]. exists p. split; [done|]. apply store_get_Ok. exists o'. by rewrite <- decrypt_record_Ok.
  - destruct (add_object_grows store o) as [Hs' Hg]; [done|done|by refine (conj eq_refl (conj _ (ex_intro _ p (conj Hp Hl)))); rewrite <- Hl|]. split_and!; [done..|].
    exists p. split; [done|]. apply store_get_Ok. exists o. split; [by apply lookup_insert_eq|done].
Qed.
End store.

(** ** Creating a backup *)
Section create.
Context `{BackupCipherLaws, CapsuleErrorText}.
Implicit Types (a : PortableAsset) (store target : SovereignObjectStore).

(** An asset [from_capsule] makes, of the types of the code. *)
Definition made a : Prop := from_capsule (pa_class a) (pa_asset_id a) (pa_version a) (pa_capsule a) = Ok a.
Definition asset_typed a : Prop := is_utf8 (pa_asset_id a) ∧ in_u32 (pa_version a).
Definition holds store a : Prop := store_get store (pa_digest a) = Ok (pa_capsule a).
Definition entry_of a : ManifestAsset := mkManifestAsset (pa_class a) (pa_asset_id a) (pa_version a) (len (pa_capsule a)) (pa_digest a).

Lemma from_capsule_Ok class id version capsule a :
  from_capsule class id version capsule = Ok a →
  a = mkAsset class (trim id) version capsule (sha256 capsule) ∧ trim id ≠ EmptyString ∧ version ≠ 0 ∧ capsule ≠ [] ∧
  ∃ view, CapsuleView_read capsule = Ok view ∧ kind_allowed class (vw_kind view) = true.
Proof.
  unfold from_capsule. destruct (_ || _) eqn:Hc; [done|]. apply orb_false_iff in Hc as [[Hid%string_is_empty_false Hv%Z.eqb_neq]%orb_false_iff Hcap%bool_decide_eq_false].
  destruct (CapsuleView_read capsule) as [view| |]; cbn [map_err]; [|done..]. destruct (kind_allowed _ _) eqn:Hk; cbn [negb]; [|done].
  intros [= <-]. split_and!; [done..|by exists view].
Qed.
Lemma from_capsule_made class id version capsule a : from_capsule class id version capsule = Ok a → made a.
Proof.
  intros Ha. pose proof (from_capsule_Ok _ _ _ _ _ Ha) as [E _]. unfold made. rewrite E at 1 2 3 4. cbn. revert Ha.
  unfold from_capsule. by rewrite trim_idemp.
Qed.
Lemma made_facts a :
  made a → trimmed (pa_asset_id a) ∧ pa_asset_id a ≠ EmptyString ∧ pa_version a ≠ 0 ∧ pa_digest a = sha256 (pa_capsule a) ∧
  ∃ view, CapsuleView_read (pa_capsule a) = Ok view ∧ kind_allowed (pa_class a) (vw_kind view) = true.
Proof.
  intros (E & Hid & Hv & _ & Hview)%from_capsule_Ok. destruct a as [class id version capsule digest]. cbn in *. injection E as E1 E2.
  split_and!; [exact (eq_sym E1)|by rewrite E1|done..].
Qed.
Lemma from_capsule_no_panic class id version capsule : no_panic (from_capsule class id version capsule).
Proof.
  unfold from_capsule. destruct (_ || _); [done|]. apply bind_no_panic; [|intros ? _; by destruct (negb _)].
  apply map_err_no_panic, read_no_panic.
Qed.

Definition kept store a : Prop := holds store a ∧ in_u64 (len (pa_capsule a)) ∧ pa_digest a = sha256 (pa_capsule a).
Lemma kept_grows store store' a : grows store store' → kept store a → kept store' a.
Proof. intros Hg (? & ? & ?). split_and!; [by eapply grows_get|done..]. Qed.
Lemma add_assets_spec assets seen acc store :
  store_sound store →
  match add_assets seen acc assets store with
  | (store', Ok l) => l = acc ++ map entry_of assets ∧ store_sound store' ∧ grows store store' ∧ Forall (kept store') assets ∧
      NoDup (map asset_identity assets) ∧ Forall (λ a, asset_identity a ∉ seen) assets
  | (store', Err _) => store_sound store' ∧ grows store store'
  | (_, Panic) => False
  end.
Proof.
  revert seen acc store. induction assets as [|a assets IH]; intros seen acc store Hs; cbn [add_assets].
  { split_and!; [by rewrite app_nil_r|done..|constructor|constructor]. }
  case_bool_decide as Hseen; [done|]. unfold op_bind at 1. pose proof (object_insert_spec store (pa_capsule a) Hs) as Hins.
  destruct (SovereignObjectStore_insert (pa_capsule a) store) as [s1 [d|e|]]; [|by subst|done]. destruct Hins as (-> & Hs1 & Hg1 & Hget & Hu).
  case_bool_decide as Hd; cbn [negb]; [|by split]. unfold op_bind, op_lift, try_u64.
  rewrite (proj2 (Z.ltb_lt _ _)) by (by destruct Hu). cbn [ok_or].
  specialize (IH ({[asset_identity a]} ∪ seen) (acc ++ [mkManifestAsset (pa_class a) (pa_asset_id a) (pa_version a) (len (pa_capsule a)) (sha256 (pa_capsule a))]) s1 Hs1).
  destruct (add_assets _ _ assets s1) as [s2 [l|e|]]; [|destruct IH; split; [done|by etrans]|done].
  destruct IH as (-> & Hs2 & Hg2 & Hk & Hnd & Hall). split_and!.
  - rewrite <- app_assoc. unfold entry_of at 2. cbn. by rewrite Hd.
  - done.
  - by etrans.
  - constructor; [|done]. apply (kept_grows s1); [done|]. split_and!; [unfold holds; by rewrite <- Hd|done|done].
  - constructor; [|done]. intros (a' & E & Hin)%list_elem_of_fmap. rewrite Forall_forall in Hall. apply (Hall a' Hin). rewrite <- E. set_solver.
  - constructor; [done|]. eapply Forall_impl; [exact Hall|]. set_solver.
Qed.

(** *** The order of the manifest *)
#[local] Instance identity_le_total : Total identity_le.
Proof. intros a b. unfold identity_le. apply total, _. Qed.
#[local] Instance identity_le_trans : Transitive identity_le.
Proof. intros a b c. unfold identity_le. apply transitivity. Qed.
Lemma sorted_identities l : StronglySorted identity_le l → StronglySorted key_le (map ma_identity l).
Proof. induction 1 as [|a l _ IH Hall]; constructor; [done|]. by apply Forall_fmap. Qed.
Lemma sort_manifest_spec assets :
  NoDup (map asset_identity assets) →
  ∃ xs, sort_manifest (map entry_of assets) = map entry_of xs ∧ xs ≡ₚ assets ∧ ascending_from None (map asset_identity xs).
Proof.
  intros Hnd. pose proof (merge_sort_Permutation identity_le (map entry_of assets)) as Hp.
  destruct (Permutation_map_inv entry_of _ Hp) as (xs & Hxs & Hperm). exists xs. fold (sort_manifest (map entry_of assets)) in Hxs.
  split_and!; [done|by symmetry|]. replace (map asset_identity xs) with (map ma_identity (map entry_of xs)) by (rewrite map_map; done).
  apply ascending_sorted.
  - apply sorted_identities. rewrite <- Hxs. apply Sorted_StronglySorted; [apply _|]. apply Sorted_merge_sort, _.
  - rewrite map_map. change (map _ xs) with (map asset_identity xs). rewrite <- Hperm. done.
Qed.

(** *** The objects of a backup *)
(** An object of the assets [xs]. *)
Definition object_for (key : bytes) (xs : list PortableAsset) (o : EncryptedObject) : Prop :=
  ∃ a, a ∈ xs ∧ eo_digest o = pa_digest a ∧ decrypts key o (pa_capsule a) ∧ eo_logical_len o = len (pa_capsule a).
Lemma records_spec store ds os :
  store_sound store → map_result (store_record store) ds = Ok os →
  map eo_digest os = ds ∧ Forall (λ o, os_objects store !! eo_digest o = Some o) os.
Proof.
  intros Hs. revert os. induction ds as [|d ds IH]; intros os; cbn [map_result]; [by intros [= <-]|].
  unfold store_record at 1. destruct (os_objects store !! d) as [o|] eqn:Ho; cbn [ok_or]; [|done].
  destruct (map_result _ ds) as [os'| |]; [|done..]. intros [= <-]. destruct (IH os' eq_refl) as [<- Hall].
  destruct (Hs d o Ho) as [<- _]. split; [done|]. by constructor.
Qed.
Lemma objects_spec kind store xs os :
  store_sound store → Forall (kept store) xs → backup_objects kind (map entry_of xs) store = Ok os →
  Forall object_typed os ∧ ascending_from None (map eo_digest os) ∧ Forall (object_for (os_key store) xs) os ∧
  (kind ≠ BackupThin → ∀ a, a ∈ xs → ∃ o, o ∈ os ∧ eo_digest o = pa_digest a).
Proof.
  intros Hs Hxs. unfold backup_objects. case_bool_decide as Hk; [by intros [= <-]|].
  intros [Hds Hall]%records_spec; [|done]. rewrite map_map in Hds. change (λ x, ma_digest (entry_of x)) with pa_digest in Hds.
  assert (Forall (object_for (os_key store) xs) os) as Hfor.
  { rewrite Forall_forall in Hall |- *. intros o Ho. pose proof (list_elem_of_fmap_2 eo_digest os o Ho) as Hin. change (eo_digest <$> os) with (map eo_digest os) in Hin.
    rewrite Hds, dedup_elem_of, sort_perm in Hin. apply list_elem_of_fmap in Hin as (a & E & Ha). exists a.
    rewrite Forall_forall in Hxs. destruct (Hxs a Ha) as ((o' & Ho' & Hd)%store_get_Ok & _ & _). rewrite <- E, (Hall o Ho) in Ho'. injection Ho' as <-.
    destruct (Hs _ _ (Hall o Ho)) as (_ & _ & p & [Hp _] & Hl). destruct Hd as [Hd ?]. assert (p = pa_capsule a) as -> by congruence. by split_and!. }
  split_and!; [| |done|].
  - eapply Forall_impl; [exact Hall|]. cbn. intros o Ho. destruct (Hs _ _ Ho) as (_ & Hl & p & [_ Hd] & _). split; [rewrite <- Hd; apply sha256_digest|done].
  - rewrite Hds. apply ascending_strict, dedup_strict, sort_sorted.
  - intros _ a Ha. assert (pa_digest a ∈ map eo_digest os) as Hin.
    { rewrite Hds, dedup_elem_of, sort_perm. by apply list_elem_of_fmap_2. }
    apply list_elem_of_fmap in Hin as (o & E & Ho). by exists o.
Qed.
End create.

(** ** Restoring a backup *)
Section restore.
Context `{BackupCipherLaws, CapsuleErrorText}.
Implicit Types (a : PortableAsset) (store target : SovereignObjectStore).

Lemma import_ok target o p :
  store_sound target → decrypts (os_key target) o p → len p = eo_logical_len o → in_u64 (len p) →
  os_objects target !! eo_digest o = None ∨ store_get target (eo_digest o) = Ok p →
  ∃ target', import o target = (target', Ok tt) ∧ store_sound target' ∧ grows target target' ∧ store_get target' (eo_digest o) = Ok p ∧
    ∀ d, d ≠ eo_digest o → os_objects target' !! d = os_objects target !! d.
Proof.
  intros Hs Hp Hl Hu Hready. assert (check_import target o = Ok p) as Hc.
  { unfold check_import. rewrite (proj2 (decrypt_record_Ok _ _ _) Hp). destruct Hp as [_ Hp]. rewrite bool_decide_true by done. cbn.
    unfold try_u64. rewrite (proj2 (Z.ltb_lt _ _)) by (by destruct Hu). cbn. by rewrite Hl, Z.eqb_refl. }
  pose proof (import_spec target o Hs) as Hspec. unfold import in *. rewrite Hc in *.
  destruct Hready as [Hnone|Hget].
  - rewrite Hnone in *. destruct Hspec as (Hs' & Hg & q & Hq & Hget). exists (add_object o target). split_and!; [done..| |].
    + rewrite Hget. f_equal. destruct Hp as [Hp _], Hq as [Hq _]. congruence.
    + intros d Hd. by apply lookup_insert_ne.
  - apply store_get_Ok in Hget as (o' & Ho' & Hd'). rewrite Ho' in *. rewrite (proj2 (decrypt_record_Ok _ _ _) Hd') in *.
    rewrite bool_decide_true in * by done. destruct Hspec as (Hs' & Hg & q & Hq & Hget). exists target. split_and!; [done..| |done].
    rewrite Hget. f_equal. destruct Hp as [Hp _], Hq as [Hq _]. congruence.
Qed.

(** A target that has no other object under the digest of an asset of [xs]. *)
Definition ready target (xs : list PortableAsset) : Prop := ∀ a, a ∈ xs → os_objects target !! pa_digest a = None ∨ holds target a.
Lemma imports_ok xs os target :
  (∀ a b, a ∈ xs → b ∈ xs → pa_digest a = pa_digest b → pa_capsule a = pa_capsule b) → Forall (λ a, in_u64 (len (pa_capsule a))) xs →
  store_sound target → Forall (object_for (os_key target) xs) os → ready target xs →
  ∃ target', op_each import os target = (target', Ok tt) ∧ store_sound target' ∧ grows target target' ∧
    ∀ a o, a ∈ xs → o ∈ os → eo_digest o = pa_digest a → holds target' a.
Proof.
  intros Hsame Hlen. revert target. induction os as [|o os IH]; intros target Hs; cbn [op_each].
  { intros _ _. exists target. split_and!; [done..|]. by intros a o _ ?%elem_of_nil. }
  intros [(a & Ha & Ed & Hd & El) Hos]%Forall_cons Hready. rewrite Forall_forall in Hlen.
  destruct (import_ok target o (pa_capsule a)) as (t1 & E1 & Hs1 & Hg1 & Hget & Hother); [done|done|by rewrite El|by apply Hlen|rewrite Ed; by apply Hready|].
  destruct (IH t1) as (t2 & E2 & Hs2 & Hg2 & Hall); [done|by rewrite (proj1 Hg1)| |].
  { intros b Hb. destruct (decide (pa_digest b = eo_digest o)) as [E|Hne].
    - right. unfold holds. rewrite E, Hget. f_equal. apply Hsame; [done..|congruence].
    - destruct (Hready b Hb) as [Hn|Hh]; [left; by rewrite Hother|right]. by eapply grows_get. }
  exists t2. unfold op_bind. rewrite E1, E2. split_and!; [done..|by etrans|].
  intros b o' Hb [->|Ho']%elem_of_cons E; [|by eapply Hall]. unfold holds. eapply grows_get; [exact Hg2|]. rewrite <- E, Hget. f_equal.
  apply Hsame; [done..|congruence].
Qed.
Lemma entry_of_typed a : made a → asset_typed a → in_u64 (len (pa_capsule a)) → entry_typed (entry_of a).
Proof.
  intros (Htrim & Hne & Hv & Hd & _)%made_facts [Hu Hv'] Hl. split; cbn; [done| |done|rewrite Hd; apply sha256_digest].
  split; [done|]. rewrite is_blank_spec. apply bool_decide_eq_false. by rewrite Htrim.
Qed.
Lemma restore_entry_ok target a : made a → holds target a → in_u64 (len (pa_capsule a)) → restore_entry target (entry_of a) = Ok a.
Proof.
  intros Hm Hh Hu. unfold restore_entry. cbn. rewrite Hh. unfold try_u64. rewrite (proj2 (Z.ltb_lt _ _)) by (by destruct Hu). cbn.
  rewrite Z.eqb_refl. cbn. rewrite Hm. by rewrite bool_decide_true.
Qed.
Lemma restore_entries_ok target xs :
  Forall (λ a, made a ∧ holds target a ∧ in_u64 (len (pa_capsule a))) xs → map_result (restore_entry target) (map entry_of xs) = Ok xs.
Proof.
  induction 1 as [|a xs (Hm & Hh & Hu) _ IH]; [done|]. cbn [map map_result]. by rewrite restore_entry_ok, IH.
Qed.

(** What creating a backup does. *)
Lemma create_Ok kind id nonce assets store store' b :
  store_sound store → create kind id nonce assets store = (store', Ok b) →
  let chosen := List.filter (selected kind) assets in
  ∃ xs manifest, xs ≡ₚ chosen ∧ chosen ≠ [] ∧ ascending_from None (map asset_identity xs) ∧ store_sound store' ∧ grows store store' ∧
    Forall (kept store') xs ∧ encode_manifest kind id (map entry_of xs) = Ok manifest ∧
    xchacha_encrypt (os_key store') nonce (manifest_aad kind id) manifest = Some (bk_encrypted_manifest b) ∧
    backup_objects kind (map entry_of xs) store' = Ok (bk_objects b) ∧
    bk_backup_id b = id ∧ bk_kind b = kind ∧ bk_manifest_nonce b = nonce.
Proof.
  intros Hs Hrun chosen. unfold create in Hrun. fold chosen in Hrun. case_bool_decide as Hne; [done|].
  unfold op_bind at 1 in Hrun. pose proof (add_assets_spec chosen ∅ [] store Hs) as Hadd.
  destruct (add_assets ∅ [] chosen store) as [s1 [l|e|]]; [|done..]. destruct Hadd as (-> & Hs1 & Hg & Hk & Hnd & _).
  cbn [app] in Hrun. destruct (sort_manifest_spec chosen Hnd) as (xs & Esort & Hperm & Hasc). rewrite Esort in Hrun.
  unfold op_bind, op_lift, op_gets, op_ret in Hrun. destruct (encode_manifest _ _ _) as [manifest| |] eqn:Hm; [|done..].
  unfold BackupKey_seal in Hrun. destruct (xchacha_encrypt _ _ _ _) as [c|] eqn:Hc; cbn [ok_or] in Hrun; [|done].
  destruct (backup_objects _ _ _) as [os| |] eqn:Hos; [|done..]. injection Hrun as <- <-.
  exists xs, manifest. split_and!; try done. by rewrite Hperm.
Qed.
Lemma backup_of_create_typed kind id nonce store' xs b :
  len id = 16 → len nonce = 24 → store_sound store' → Forall (kept store') xs → backup_objects kind (map entry_of xs) store' = Ok (bk_objects b) →
  bk_backup_id b = id → bk_manifest_nonce b = nonce → backup_typed b.
Proof.
  intros Hid Hnonce Hs Hxs Hos <- <-. destruct (objects_spec _ _ _ _ Hs Hxs Hos) as (? & ? & _). by split.
Qed.

(** C39: A backup of typed assets, each as from_capsule makes them, gives back the assets
    it was made of: its bytes decode to it, and a sound store with the same key restores it
    when it holds the assets or, but for a thin backup, has nothing else under their
    digests. The outcome is the chosen assets, each once and in the order of their
    identities, and the store has their capsules besides what it had. *)
Theorem backup_round_trip kind id nonce assets store store' b target :
  len id = 16 → len nonce = 24 → Forall (λ a, made a ∧ asset_typed a) assets →
  store_sound store → store_sound target → os_key target = os_key store →
  create kind id nonce assets store = (store', Ok b) →
  let chosen := List.filter (selected kind) assets in
  Forall (λ a, holds target a ∨ kind ≠ BackupThin ∧ os_objects target !! pa_digest a = None) chosen →
  (∀ bs, PortableBackup_encode b = Ok bs → len bs < 2 ^ 64 → PortableBackup_decode bs = Ok b) ∧
  ∃ target' restored, restore_backup b target = (target', Ok restored) ∧
    restored ≡ₚ chosen ∧ ascending_from None (map asset_identity restored) ∧
    store_sound target' ∧ grows target target' ∧ Forall (holds target') restored.
Proof.
  intros Hid Hnonce Hassets Hs Ht Hkey Hcreate chosen Hchosen.
  destruct (create_Ok _ _ _ _ _ _ _ Hs Hcreate) as (xs & manifest & Hperm & Hne & Hasc & Hs' & [Hk' _] & Hkept & Henc & Hseal & Hos & Eid & Ekind & Enonce).
  split. { intros bs. apply backup_decodes. by eapply backup_of_create_typed. }
  assert (Forall (λ a, made a ∧ asset_typed a) xs) as Hxs.
  { rewrite Forall_forall in Hassets |- *. intros a Ha. apply Hassets. rewrite Hperm in Ha. by apply list_elem_of_In, filter_In in Ha as [Ha%list_elem_of_In _]. }
  rewrite Forall_forall in Hkept, Hchosen, Hxs. fold chosen in Hperm. destruct (objects_spec kind store' xs (bk_objects b) Hs') as (_ & _ & Hfor & Hevery); [by apply Forall_forall|exact Hos|].
  destruct (imports_ok xs (bk_objects b) target) as (target' & Himp & Ht' & Hg & Hheld).
  - intros x y Hx Hy E. destruct (Hkept x Hx) as (Hhx & _), (Hkept y Hy) as (Hhy & _). unfold holds in *. rewrite E, Hhy in Hhx. by injection Hhx.
  - apply Forall_forall. intros a Ha. by destruct (Hkept a Ha) as (_ & ? & _).
  - done.
  - by rewrite Hkey, <- Hk'.
  - intros a Ha. rewrite Hperm in Ha. destruct (Hchosen a Ha) as [?|[_ ?]]; [by right|by left].
  - assert (Forall (λ a, made a ∧ holds target' a ∧ in_u64 (len (pa_capsule a))) xs) as Hall.
    { apply Forall_forall. intros a Ha. split_and!; [by apply Hxs| |by destruct (Hkept a Ha) as (_ & ? & _)].
      pose proof Ha as Ha'. rewrite Hperm in Ha'. destruct (Hchosen a Ha') as [Hh|[Hk _]]; [by eapply grows_get|].
      destruct (Hevery Hk a Ha) as (o & Ho & E). by eapply Hheld. }
    exists target', xs. unfold restore_backup, restore_staged, op_bind, op_gets. rewrite Himp, Ekind, Eid, Enonce.
    unfold BackupKey_open. rewrite (proj1 Hg), Hkey, <- Hk', (xchacha_decrypts _ _ _ _ _ Hseal). cbn [ok_or].
    rewrite (manifest_decodes kind id (map entry_of xs) manifest), (restore_entries_ok target' xs Hall); try done.
    + split_and!; try done. eapply Forall_impl; [exact Hall|]. naive_solver.
    + intros E%map_eq_nil. subst xs. by apply Permutation_nil in Hperm.
    + apply Forall_fmap, Forall_forall. intros a Ha. cbn. apply entry_of_typed; [by apply Hxs|by apply Hxs|]. by destruct (Hkept a Ha) as (_ & ? & _).
    + rewrite map_map. exact Hasc.
    + pose proof (xchacha_limit _ _ _ _ _ Hseal). lia.
Qed.

(** *** Whatever the backup *)
Lemma imports_spec os target :
  store_sound target →
  match op_each import os target with
  | (target', Ok _) => store_sound target' ∧ grows target target'
  | (_, Err _) => True
  | (_, Panic) => False
  end.
Proof.
  revert target. induction os as [|o os IH]; intros target Hs; cbn [op_each]; [done|]. unfold op_bind.
  pose proof (import_spec target o Hs) as Hi. destruct (import o target) as [t1 [u|e|]]; [|done|done]. destruct Hi as (Hs1 & Hg1 & _).
  specialize (IH t1 Hs1). destruct (op_each import os t1) as [t2 [v|e|]]; [|done|done]. destruct IH as [? ?]. split; [done|by etrans].
Qed.
Lemma safe_version magic : safe (decode_version magic).
Proof. unfold decode_version. solve_safe. Qed.
Lemma safe_assets n previous : safe (decode_assets n previous).
Proof.
  revert previous. induction n as [|n IH]; intros previous; cbn [decode_assets]; [apply safe_ret|].
  apply safe_bind; [|intros a; apply safe_bind; [apply IH|intros; apply safe_ret]]. unfold decode_asset, read_string. solve_safe.
Qed.
Lemma backup_manifest_no_panic bs kind id : no_panic (decode_manifest bs kind id).
Proof.
  apply safe_run. unfold decode_manifest_fields. apply safe_bind; [apply safe_version|intros _].
  repeat first [apply safe_bind; [solve [apply safe_assets|solve_safe]|intros ?]|solve_safe].
Qed.
Lemma restore_entry_spec target e :
  match restore_entry target e with
  | Ok a => made a ∧ holds target a ∧ pa_digest a = ma_digest e
  | Err _ => True
  | Panic => False
  end.
Proof.
  unfold restore_entry. destruct (store_get target (ma_digest e)) as [capsule|x|] eqn:Hget; [|done|].
  2: { unfold store_get in Hget. destruct (os_objects target !! ma_digest e); [|done]. by apply decrypt_record_no_panic in Hget. }
  unfold try_u64. destruct (Z.ltb_spec (len capsule) (2 ^ 64)); cbn [ok_or]; [|done]. destruct (negb _); [done|].
  pose proof (from_capsule_no_panic (ma_class e) (ma_asset_id e) (ma_version e) capsule).
  destruct (from_capsule _ _ _ _) as [a|x|] eqn:Ha; [|done|done]. case_bool_decide as Hd; cbn [negb]; [|done].
  split_and!; [by eapply from_capsule_made| |done]. unfold holds. rewrite Hd, Hget. apply from_capsule_Ok in Ha as [-> _]. done.
Qed.
Lemma restore_entries_spec target entries :
  match map_result (restore_entry target) entries with
  | Ok restored => Forall (λ a, made a ∧ holds target a) restored ∧ length restored = length entries
  | Err _ => True
  | Panic => False
  end.
Proof.
  induction entries as [|e entries IH]; [done|]. cbn [map_result]. pose proof (restore_entry_spec target e) as He.
  destruct (restore_entry target e) as [a|x|]; [|done|done]. destruct (map_result _ _) as [l|x|]; [|done|done].
  destruct He as (? & ? & _), IH as [? Hl]. split; [by constructor|]. cbn. by rewrite Hl.
Qed.

(** C40: Restoring whatever backup into a sound store does not panic, and a failure leaves
    the store as it was; a success keeps the store sound and all it had, and every asset
    restored is one from_capsule makes, a capsule that reads, of a kind its class allows,
    under its own digest, which the store now holds. *)
Theorem restore_all_or_nothing b target :
  store_sound target →
  match restore_backup b target with
  | (target', Ok restored) => store_sound target' ∧ grows target target' ∧ Forall (λ a, made a ∧ holds target' a) restored
  | (target', Err _) => target' = target
  | (_, Panic) => False
  end.
Proof.
  intros Hs. unfold restore_backup, restore_staged, op_bind, op_gets. pose proof (imports_spec (bk_objects b) target Hs) as Hi.
  destruct (op_each import (bk_objects b) target) as [t1 [u|e|]]; [|done|done]. destruct Hi as [Hs1 Hg].
  pose proof (open_no_panic (os_key t1) (bk_manifest_nonce b) (manifest_aad (bk_kind b) (bk_backup_id b)) (bk_encrypted_manifest b)).
  destruct (BackupKey_open _ _ _ _) as [manifest|e|]; [|done|done]. pose proof (backup_manifest_no_panic manifest (bk_kind b) (bk_backup_id b)).
  destruct (decode_manifest _ _ _) as [entries|e|]; [|done|done]. pose proof (restore_entries_spec t1 entries) as Hr.
  destruct (map_result _ _) as [restored|e|]; [|done|done]. by destruct Hr.
Qed.
End restore.

(** ** Concrete backups *)
#[local] Instance sample_cipher : BackupCipher := {|
  xchacha_encrypt _ _ _ m := if len m <? 2 ^ 38 then Some m else None;
  xchacha_decrypt _ _ _ c := Some c;
|}.
#[local] Instance sample_cipher_laws : BackupCipherLaws.
Proof.
  split; cbn; intros key nonce aad m c; destruct (Z.ltb_spec (len m) (2 ^ 38)); [|done| |done].
  - by intros [= ->].
  - lia.
Qed.
#[local] Instance sample_text : CapsuleErrorText := {| debug_capsule_error _ := ""%string |}.
Definition sample_asset (id : string) : PortableAsset := mkAsset ClassState id 1 sample_capsule (sha256 sample_capsule).
Lemma sample_asset_made : made (sample_asset "s").
Proof. vm_compute. reflexivity. Qed.
Lemma sample_asset_typed : asset_typed (sample_asset "s").
Proof. unfold asset_typed, is_utf8, in_u32. cbn [pa_asset_id pa_version sample_asset]. split; [reflexivity|lia]. Qed.
Definition sample_create (assets : list PortableAsset) : SovereignObjectStore * result PortabilityError PortableBackup :=
  create BackupFull (zeros 16) (zeros 24) assets (SovereignObjectStore_new (zeros 32)).
Lemma new_store_sound key : store_sound (SovereignObjectStore_new key).
Proof. apply map_Forall_empty. Qed.
Lemma backup_round_trip_witness : ∃ store' b target' restored,
  sample_create [sample_asset "s"] = (store', Ok b) ∧
  restore_backup b (SovereignObjectStore_new (zeros 32)) = (target', Ok restored) ∧ restored ≡ₚ [sample_asset "s"].
Proof.
  assert (is_ok (sample_create [sample_asset "s"]).2 = true) as Hok by (vm_compute; reflexivity).
  destruct (sample_create [sample_asset "s"]) as [store' [b| |]] eqn:Hb; [|done|done].
  destruct (backup_round_trip BackupFull (zeros 16) (zeros 24) [sample_asset "s"] (SovereignObjectStore_new (zeros 32)) store' b
    (SovereignObjectStore_new (zeros 32)) eq_refl eq_refl) as [_ (target' & restored & Hr & Hp & _)].
  - constructor; [|constructor]. split; [exact sample_asset_made|exact sample_asset_typed].
  - apply new_store_sound.
  - apply new_store_sound.
  - reflexivity.
  - exact Hb.
  - constructor; [|constructor]. right. split; [done|]. reflexivity.
  - exists store', b, target', restored. exact (conj eq_refl (conj Hr Hp)).
Defined.
Lemma restore_all_or_nothing_witness : ∃ store' b target' restored,
  sample_create [sample_asset "s"] = (store', Ok b) ∧
  restore_backup b (SovereignObjectStore_new (zeros 32)) = (target', Ok restored) ∧ Forall (λ a, made a ∧ holds target' a) restored.
Proof.
  assert (is_ok (let? b := (sample_create [sample_asset "s"]).2 in (restore_backup b (SovereignObjectStore_new (zeros 32))).2) = true) as Hok
    by (vm_compute; reflexivity).
  destruct (sample_create [sample_asset "s"]) as [store' [b| |]] eqn:Hb; [|done|done].
  pose proof (restore_all_or_nothing b _ (new_store_sound (zeros 32))) as Hr. cbn [snd] in Hok.
  destruct (restore_backup b (SovereignObjectStore_new (zeros 32))) as [target' [restored| |]] eqn:Ht; [|done|done].
  exists store', b, target', restored. exact (conj eq_refl (conj Ht (proj2 (proj2 Hr)))).
Defined.
(** The builder takes ids as they are and restoring trims them: two assets come back as one. *)
Lemma blank_ids_collide : ∃ b restored, (sample_create [sample_asset "s"; sample_asset " s"]).2 = Ok b ∧
  (restore_backup b (SovereignObjectStore_new (zeros 32))).2 = Ok restored ∧ map pa_asset_id restored = ["s"; "s"]%string.
Proof.
  assert (match (sample_create [sample_asset "s"; sample_asset " s"]).2 with
          | Ok b => match (restore_backup b (SovereignObjectStore_new (zeros 32))).2 with
                    | Ok l => bool_decide (map pa_asset_id l = ["s"; "s"]%string) | _ => false end
          | _ => false end = true) as Hids by (vm_compute; reflexivity).
  destruct (sample_create _).2 as [b| |]; [|done|done].
  destruct (restore_backup b _).2 as [l| |] eqn:Hl; [|done|done]. apply bool_decide_eq_true in Hids.
  exists b, l. exact (conj eq_refl (conj Hl Hids)).
Qed.
End BackupTheorems.
